(* ===== verification/_CoqProject ===== *)
-Q . S2P
Prelude.v
Hashing.v
Strconv.v
Config.v
Key.v
Cmem.v
Item.v
Fixtures.v
Leaf.v
HTree.v
HTreeSpec.v
HTreeMerkle.v
HTreeProps.v
HTreeDisk.v
DataFile.v
Data.v
DataSpec.v
DataLog.v
HintFile.v
Hint.v
HintSpec.v
HintProps.v
Heap.v
HintMerge.v
HintMergeSpec.v
HintMergeProps.v
Paths.v
Bucket.v
BucketSpec.v
BucketProps.v
Quicklz.v
QuicklzSpec.v
QuicklzDecompress.v
QuicklzCompress.v
QuicklzProps.v
Routes.v
RouteSource.v
Disk.v
Loghub.v
Token.v
Protocol.v
ProtocolProps.v
Server.v
ServerSpec.v
MapStore.v
ServerIO.v
ServerLife.v
BucketOpen.v
BucketOpenSpec.v
HintReload.v
HintDisk.v
BucketRecover.v
BucketOpenProps.v
Session.v
Restart.v
RestartProps.v
Offline.v
GC.v
GCSpec.v
GCInv.v
GCStep.v
GCRun.v
GCProps.v
HStore.v
HStoreSpec.v
HStoreProps.v
StoreLife.v
StoreLifeSpec.v
StoreLifeProps.v
StoreRestart.v
StoreRestartProps.v
Web.v
WebProps.v
Startup.v
