(* ===== verification/Prelude.v ===== *)
(** * gobeansdb: a verification development

    gobeansdb is a key-value server that speaks the memcache protocol. A server
    holds up to 256 buckets, chosen by the top digits of a key's 64-bit hash. A
    bucket keeps its records in a log of data files, finds them through a hash
    tree kept in memory (a Merkle tree that replicas compare), and keeps hints, from
    which the tree can be rebuilt and keys that share a hash be told apart.

    The development is a shallow embedding of the Go sources under src/. Functions
    are Rocq functions with the source's names where Rocq allows them; state is
    passed explicitly; the result type [option] stands for a panic or a fatal error
    ([None]), sums for returned errors. Integers are [Z], wrapped to the width of
    their Go type by [u8] ... [i64] wherever an operation may leave it. Files are
    byte lists, directories finite maps.

    ** Steps

    A method under a mutex is one step. A flush gives up its lock while it writes; its
    two halves ([flush_begin], [flush_end]) are separate steps that histories interleave
    freely, as are the operations on the token channel, the events of the server and the
    records of a garbage collection run. These are one step each although the code does
    not hold one lock over all of it, so interleavings inside them are outside the
    theorems:
    - [bkt_get], which takes the locks of tree, hints and chunk one after the other;
    - [incr], whose [get] and [set] are not under [writeLock]: two at the same time can
      lose an increment ([concurrent_incr_lost]);
    - a dump of a hint split ([hm_dump]), which gives up the lock of the chunk while it
      writes the file;
    - one record of a run ([gc_step] with [gc_look], [gc_move] and [UpdateHtreePos]): a
      set between the look into the tree and the update is lost ([set_during_gc_lost]);
    - opening, closing and loading a bucket, which no requests reach meanwhile.

    ** Files

    - Prelude: widths, little-endian words, lists indexed by [Z], tactics and hints.
    - Hashing (src/utils/hash.go, src/store/crc32.go): FNV-1a, value hash, CRC-32.
      Strconv: the conversions of Go's strconv and fmt the sources use.
    - Config (src/utils/size.go, src/store/config.go, src/config/mc_config.go),
      Key (src/store/key.go): sizes, limits, tree parameters, key validation, paths.
    - Cmem (src/cmem): C arrays and the counters of memory in use.
      Item (src/store/item.go, src/quicklz/cquicklz.go): records, compression.
      Fixtures: a concrete environment for the witnesses.
    - Leaf, HTree (src/store/leaf.go, htree.go): the packed leaves and the tree;
      HTreeSpec, HTreeMerkle: a tree represents a finite map, and its cached hashes
      are those of the map; HTreeProps, HTreeDisk: histories, listing, dump and load.
    - DataFile (src/store/datafile.go): the record format, reading and
      resynchronisation. Data (datachunk.go, data.go): chunks, write buffers, flushes;
      DataSpec, DataLog: every record stays readable at its position.
    - HintFile (hintfile.go, hintindex.go), Hint (hint.go, collision.go): hint files
      with their sparse index, buffers, splits, chunks, the manager, the collision
      table; HintSpec, HintProps: they represent the items last set.
      Heap (container/heap), HintMerge (hintmerge.go), HintMergeSpec,
      HintMergeProps: the merge of hint files. Paths: the names of index files, and
      that their order is the order of chunk and split that the components use.
    - Quicklz (src/quicklz/quicklz.go): the Go port of QuickLZ at levels 1 and 3;
      QuicklzSpec, QuicklzDecompress, QuicklzCompress, QuicklzProps: control words
      and references, the decoder, the encoder's invariant, the round trip.
    - Routes (src/config/route.go), RouteSource (src/config/zk.go,
      src/gobeansdb/config.go): route tables, what a server takes from them, and
      where they are read. Disk (src/utils/disk.go): directory listings. Loghub
      (src/loghub): loggers, hubs and their ring buffers.
    - Bucket (bucket.go): get, set, incr and the version rule; BucketSpec,
      BucketProps: a bucket represents a map from keys to records. BucketOpen
      (bucket.go): open, close, rebuilding; BucketOpenSpec, HintReload, HintDisk,
      BucketRecover, BucketOpenProps: listing the data files, loading the hint
      files, how the hint files follow the buffers, and what opening recovers from
      them. Session, Restart, RestartProps: a bucket from opening to closing, and
      from one session to the next. Offline (src/store/offline.go): building hint
      files for a stopped bucket, and that they become complete.
    - GC (src/store/gc.go): the range of a run, its destinations and its loop as a
      machine that takes one record at a time; GCSpec, GCInv, GCStep, GCRun: what
      it does to a chunk, the invariant of a run, one record, one step; GCProps: a
      bucket under requests, flushes and runs.
    - Token, Protocol, Server (src/memcache): the request tokens, requests and
      responses as bytes, [Process] and a round of a connection over the interface
      [StorageClient]; ProtocolProps, ServerSpec: round trips, and the class
      [StorageLaws] of what the server expects of a store. ServerLife (server.go):
      accepting, the table of connections and the shutdown as interleaved events.
      MapStore (store.go): the storage in memory, with its items by pointer, also
      meets [StorageLaws]. ServerIO (server.go, src/loghub/utils.go): access log
      lines, writing in parts, signals and log files.
    - HStore (src/store/hstore.go, src/gobeansdb/store.go): routing to buckets and
      the storage client; HStoreSpec, HStoreProps: the store satisfies
      [StorageLaws], so the server as a whole refines a map. StoreLife (hstore.go):
      starting from a home directory, loading and unloading buckets, closing, the
      background tasks, the entry points of garbage collection; StoreLifeSpec,
      StoreLifeProps: what a start and new routes serve; StoreRestart,
      StoreRestartProps: the store over requests, tasks, routes and restarts.
    - Web (src/gobeansdb/web.go): the HTTP handlers over StoreLife and Routes;
      WebProps: links, requests for collections, loading routes while serving.
    - Startup (src/gobeansdb/gobeansdb.go, config.go): loading the configuration, and
      [Main] by its flags, up to a store that serves.

    ** What the theorems show

    From the top: the program started with a configuration that loads serves exactly the
    buckets that the route table has for its address ([main_serves]); the bytes of a
    request are answered with the bytes the map of the requests so far gives
    ([server_refines_map]), because a bucket refines the
    map of its requests through any interleaving with flushes
    ([bucket_refines_map], [bucket_set_refines], [bucket_incr_refines]), because the
    data store returns every record appended ([data_read_your_writes]), the tree is
    a map ([htree_refines_map]) and so are the hints ([hint_mgr_newest],
    [hint_buffer_refines_map]). A bucket opened over its data files and what a crash may
    leave of its hints and its tree holds the replay of its log ([open_recovers]), and so
    does the whole store ([new_store_recovers]); what a bucket holds outlasts any number
    of closes and openings, when the flushes that rotations started have run before a
    close ([contents_survive_restarts]), and the store as a whole follows one map through
    the bytes of requests, background tasks, changes of its routes and restarts, one after
    the other, under the conditions of [op_fits] ([store_follows_map]); a route table that adds buckets, read from ZooKeeper
    while the server runs, is installed with nothing lost ([reload_route_serves]
    over [route_table_consistent]). Hints can be built offline
    ([buildhint_completes]). Garbage collection, with requests and flushes between its
    records, does not change what a bucket holds, and every run ends without an error
    ([gc_keeps_contents], [gc_run_ends]); asking about one starts none
    ([gc_request_safe]). A shutdown ends ([shutdown_ends]). Two trees that hold the same
    map have the same root ([htree_convergence]). Formats are read back as written
    (records, hint files and their index, trees, requests but cas, responses, values
    compressed by the Go port of QuickLZ, sizes, paths, file names); a record with a
    damaged byte outside its two sizes and its padding is not returned
    ([record_corruption_detected]) and reading goes on at the next one
    ([nextValid_first_readable]). Theorems of kind error and bounds state where the
    code departs from what it means to do; they are listed as findings.

    ** Assumptions

    Code that is not Go code of the repository is a parameter with what the code relies
    on as hypotheses: [Ext] holds the C heap, QuickLZ in C, the content sniffer and
    murmur3; the ZooKeeper client and the YAML package are arguments of RouteSource and
    Startup, the operating system's directory entries of Disk and what fmt prints of
    Loghub. QuickLZ in C (src/quicklz/quicklz.c, level 3) is third-party code that is kept
    in the repository and is not modelled; [qlz_spec] asks of it that decompression
    inverts compression, the sizes in the header and at most 400 bytes of growth. The Go
    port of the same format (src/quicklz/quicklz.go) is modelled, and at level 3 it has
    all of [qlz_spec] ([go_qlz_spec]).

    Theorems about requests assume memory is available ([mem_ok]), the keys in use have
    distinct hashes ([keys_distinct]; collisions are modelled, and their table is proved on
    its own), values and keys within the configured limits, no compression flag set by the
    client ([append_ok]) and room in the data files. The theorems over restarts also
    assume, of each write, that the version stored for its key is not -2^31 and that it is
    not, under [CheckVHash], a write that gives the value already stored a version of its
    own ([remarks]): such a write changes the tree and is not logged
    ([zero_vhash_delete_not_logged]). They assume of a close that the flushes that
    rotations started have run ([closeable]; [close_loses_rotated_chunk] otherwise), of new
    routes that no bucket in service has another status ([route_fits];
    [reload_twice_loses_write] otherwise), and of the files that are opened that a hint
    file is whole or shorter than its header ([loadHintIndex_cut] otherwise). Runs of
    garbage collection start without a merge of the hints, on ranges that pass the code's
    own check and whose chunks have been flushed, and are not cancelled in the chunk they
    rewrite in place ([cancel_at_start_loses_chunk]). The text of errors ([err_details]),
    the orders of Go maps and the contents of the YAML collision table are arguments.
    [Fixtures] instantiates all of them, and each theorem with hypotheses has a witness.

    ** Fuel

    Recursion that is not structural takes fuel, and the theorems state that it is
    enough: a scan of a file gets one unit more than the bytes of the file, and each
    turn reads at least one byte ([scan_complete], [build_loop_spec]); searches get
    the length of the range ([Search_first]); the heap and the merge get the number
    of items; number formatting the bits of the number; a run of garbage collection
    two units for each chunk of its range and one for each 256 bytes of their files
    ([gc_run_ends]); the loops of QuickLZ the length of their source, with 256 units
    for a match, which is its longest, and 32 for the last control word.
    Running out is [None], so no theorem holds because a loop did not end.

    ** Not modelled

    Parsing flags, and sockets; the pages of the web interface that only print the
    state of the process; reading YAML (its result is an argument); disk usage; what a failed
    opening leaves of a bucket, a reload that panics half way and one to a table with
    another number of buckets; the C library of QuickLZ; times, except as arguments. Garbage collection after a merge
    is modelled and not covered by the invariant. *)

From stdpp Require Export base numbers option list gmap.
From stdpp Require Export strings.
From Stdlib Require Export Lia ZArith.

#[global] Open Scope Z_scope.

(** ** Machine integers

    Go's fixed-width integers are [Z] values kept in range by an explicit
    wrap-around after every operation that may leave the range. *)

Definition u8 (x : Z) : Z := x mod 2 ^ 8.
Definition u16 (x : Z) : Z := x mod 2 ^ 16.
Definition u32 (x : Z) : Z := x mod 2 ^ 32.
Definition u64 (x : Z) : Z := x mod 2 ^ 64.
Definition i8 (x : Z) : Z := (x + 2 ^ 7) mod 2 ^ 8 - 2 ^ 7.
Definition i32 (x : Z) : Z := (x + 2 ^ 31) mod 2 ^ 32 - 2 ^ 31.
Definition i64 (x : Z) : Z := (x + 2 ^ 63) mod 2 ^ 64 - 2 ^ 63.

Definition is_u8 (x : Z) : Prop := 0 <= x < 2 ^ 8.
Definition is_u16 (x : Z) : Prop := 0 <= x < 2 ^ 16.
Definition is_u32 (x : Z) : Prop := 0 <= x < 2 ^ 32.
Definition is_u64 (x : Z) : Prop := 0 <= x < 2 ^ 64.
Definition is_i32 (x : Z) : Prop := - 2 ^ 31 <= x < 2 ^ 31.
Definition is_i64 (x : Z) : Prop := - 2 ^ 63 <= x < 2 ^ 63.

(** Unfold every width predicate and hand the goal to [lia]. *)
Ltac width :=
  unfold is_u8, is_u16, is_u32, is_u64, is_i32, is_i64,
         u8, u16, u32, u64, i8, i32, i64 in *;
  Z.div_mod_to_equations; lia.

Create HintDb width.

Lemma u8_range x : is_u8 (u8 x).
Proof. width. Qed.
Lemma u16_range x : is_u16 (u16 x).
Proof. width. Qed.
Lemma u32_range x : is_u32 (u32 x).
Proof. width. Qed.
Lemma u64_range x : is_u64 (u64 x).
Proof. width. Qed.
Lemma i32_range x : is_i32 (i32 x).
Proof. width. Qed.
Lemma i64_range x : is_i64 (i64 x).
Proof. width. Qed.
#[export] Hint Resolve u8_range u16_range u32_range u64_range i32_range : width.

Lemma u16_small x : is_u16 x → u16 x = x.
Proof. width. Qed.
Lemma u32_small x : is_u32 x → u32 x = x.
Proof. width. Qed.
Lemma u64_small x : is_u64 x → u64 x = x.
Proof. width. Qed.
Lemma i32_small x : is_i32 x → i32 x = x.
Proof. width. Qed.
Lemma i32_u32 x : is_i32 x → i32 (u32 x) = x.
Proof. width. Qed.

(** ** Bytes *)

Abbreviation bytes := (list Z).

Definition is_bytes (b : bytes) : Prop := Forall is_u8 b.

(** Length of a Go slice or string, an [int]. *)
Definition zlen {A} (l : list A) : Z := Z.of_nat (length l).

(** A Go string literal as its bytes. *)
Fixpoint bstr (s : string) : bytes :=
  match s with
  | EmptyString => []
  | String c s => Z.of_N (Ascii.N_of_ascii c) :: bstr s
  end.

(** Bytewise equality ([==] on Go strings, [bytes.Compare] equal to 0). *)
Definition bytes_eqb (a b : bytes) : bool := bool_decide (a = b).

(** Bytewise lexicographic order ([<] on Go strings). *)
Fixpoint bytes_ltb (a b : bytes) : bool :=
  match a, b with
  | _, [] => false
  | [], _ :: _ => true
  | x :: a, y :: b => (x <? y) || ((x =? y) && bytes_ltb a b)
  end.

(** ** Slices

    A Go index or slice expression panics outside the bounds; [None] stands
    for that run-time panic. *)

Definition zget {A} (l : list A) (i : Z) : option A :=
  if i <? 0 then None else l !! Z.to_nat i.

Definition zset {A} (l : list A) (i : Z) (x : A) : option (list A) :=
  if (0 <=? i) && (i <? zlen l) then Some (<[Z.to_nat i := x]> l) else None.

(** [l[i:j]]. *)
Definition zslice {A} (l : list A) (i j : Z) : option (list A) :=
  if (0 <=? i) && (i <=? j) && (j <=? zlen l)
  then Some (take (Z.to_nat (j - i)) (drop (Z.to_nat i) l)) else None.

(** [l[i:]]. *)
Definition zfrom {A} (l : list A) (i : Z) : option (list A) := zslice l i (zlen l).

(** Overwriting [dst[off:off+len(src)]] with [src], in range. *)
Definition splice {A} (l : list A) (off : nat) (src : list A) : list A :=
  take off l ++ src ++ drop (off + length src) l.

(** ** Little-endian words (encoding/binary) *)

Fixpoint le_put (n : nat) (v : Z) : bytes :=
  match n with
  | O => []
  | S n => v mod 256 :: le_put n (v / 256)
  end.

Fixpoint le_get (b : bytes) : Z :=
  match b with
  | [] => 0
  | x :: b => x + 256 * le_get b
  end.

(** [binary.LittleEndian.UintN(b)]: the first [n] bytes of [b]. *)
Definition le_word (n : nat) (b : bytes) : Z := le_get (take n b).

Lemma length_le_put n v : length (le_put n v) = n.
Proof. revert v; induction n; intros; simpl; congruence. Qed.

Lemma le_put_bytes n v : is_bytes (le_put n v).
Proof.
  revert v; induction n; intros; simpl; constructor; [width | apply IHn].
Qed.
#[export] Hint Resolve le_put_bytes : width.

Lemma le_get_put n v : le_get (le_put n v) = v mod 256 ^ Z.of_nat n.
Proof.
  revert v; induction n as [|n IH]; intros v; simpl le_put; simpl le_get.
  - by rewrite Z.mod_1_r.
  - rewrite IH, Nat2Z.inj_succ, Z.pow_succ_r by lia.
    rewrite Z.rem_mul_r by lia. lia.
Qed.

Lemma le_get_range b : is_bytes b → 0 <= le_get b < 256 ^ zlen b.
Proof.
  unfold zlen. induction 1 as [|x b Hx Hb IH]; simpl le_get; [simpl; lia|].
  cbn [length]. rewrite Nat2Z.inj_succ, Z.pow_succ_r by lia. width.
Qed.

Lemma le_put_get b : is_bytes b → le_put (length b) (le_get b) = b.
Proof.
  induction 1 as [|x b Hx Hb IH]; simpl; [done|].
  unfold is_u8 in Hx. f_equal.
  - rewrite Z.mul_comm, Z_mod_plus_full, Z.mod_small; lia.
  - rewrite Z.mul_comm, Z.div_add, Z.div_small by lia. by rewrite Z.add_0_l.
Qed.

Lemma le_word_put n v rest : le_word n (le_put n v ++ rest) = v mod 256 ^ Z.of_nat n.
Proof.
  unfold le_word. rewrite take_app_length' by (by rewrite length_le_put). apply le_get_put.
Qed.

Lemma take_le_put n m v : (n <= m)%nat → take n (le_put m v) = le_put n v.
Proof.
  revert m v; induction n as [|n IH]; intros m v Hnm; [done|].
  destruct m; [lia|]. simpl. f_equal. apply IH. lia.
Qed.

Lemma le_put_inj n a b : le_put n a = le_put n b ↔ a mod 256 ^ Z.of_nat n = b mod 256 ^ Z.of_nat n.
Proof.
  split; [by rewrite <- !le_get_put; intros ->|].
  intros H. rewrite <- !le_get_put in H.
  pose proof (le_put_get (le_put n a) (le_put_bytes n a)) as Ha.
  pose proof (le_put_get (le_put n b) (le_put_bytes n b)) as Hb.
  rewrite length_le_put in Ha, Hb. congruence.
Qed.

Lemma le_put_mod n v : le_put n (v mod 256 ^ Z.of_nat n) = le_put n v.
Proof. apply le_put_inj. rewrite Z.mod_mod by lia. done. Qed.

(** Or-ing in a word above all the bits set so far is adding it. *)
Lemma lor_shiftl_add x y n :
  0 <= n → 0 <= x < 2 ^ n → 0 <= y → Z.lor x (Z.shiftl y n) = x + Z.shiftl y n.
Proof.
  intros Hn Hx Hy.
  assert (Z.land x (Z.shiftl y n) = 0) as Hl.
  { apply Z.bits_inj'. intros i Hi. rewrite Z.land_spec, Z.shiftl_spec, Z.bits_0 by lia.
    destruct (Z.ltb_spec i n); [rewrite (Z.testbit_neg_r y) by lia; apply andb_false_r|].
    replace (Z.testbit x i) with false; [done|].
    rewrite <- (Z.mod_small x (2 ^ n)) by lia. symmetry. by apply Z.mod_pow2_bits_high. }
  rewrite <- Z.lxor_lor, <- Z.add_nocarry_lxor by done. done.
Qed.

(** ** Lists *)

Lemma zlen_nonneg {A} (l : list A) : 0 <= zlen l.
Proof. unfold zlen; lia. Qed.

Lemma zlen_app {A} (l k : list A) : zlen (l ++ k) = zlen l + zlen k.
Proof. unfold zlen. rewrite length_app. lia. Qed.

Lemma zget_Some {A} (l : list A) i x :
  zget l i = Some x ↔ 0 <= i ∧ l !! Z.to_nat i = Some x.
Proof. unfold zget. destruct (Z.ltb_spec i 0); naive_solver lia. Qed.

Lemma zget_lt {A} (l : list A) i : 0 <= i < zlen l → is_Some (zget l i).
Proof.
  intros [? ?]. unfold zget. destruct (Z.ltb_spec i 0); [lia|].
  apply lookup_lt_is_Some. unfold zlen in *. lia.
Qed.

(** Choosing one thing for each of finitely many numbers. *)
Lemma choose_below {X} (P : Z → X → Prop) (x0 : X) n : (∀ i, 0 <= i < Z.of_nat n → ∃ x, P i x) → ∃ f, ∀ i, 0 <= i < Z.of_nat n → P i (f i).
Proof.
  induction n as [|n IH]; intros H; [exists (λ _, x0); lia|]. destruct IH as [f Hf]; [intros i Hi; apply H; lia|].
  destruct (H (Z.of_nat n)) as [x Hx]; [lia|]. exists (λ i, if decide (i = Z.of_nat n) then x else f i). intros i Hi.
  case_decide as Hd; [by subst|]. apply Hf. lia.
Qed.

Lemma zget_Some_lt {A} (l : list A) i x : zget l i = Some x → 0 <= i < zlen l.
Proof. intros [? H%lookup_lt_Some]%zget_Some. unfold zlen. lia. Qed.

Lemma zget_nat {A} (l : list A) (n : nat) : zget l (Z.of_nat n) = l !! n.
Proof.
  unfold zget. destruct (Z.ltb_spec (Z.of_nat n) 0); [lia|]. by rewrite Nat2Z.id.
Qed.

Lemma zset_length {A} (l l' : list A) i x : zset l i x = Some l' → length l' = length l.
Proof. unfold zset. destruct (_ && _); [|done]. intros [= <-]. apply length_insert. Qed.

Lemma zset_ok {A} (l : list A) i x : 0 <= i < zlen l → is_Some (zset l i x).
Proof.
  intros [H0 H1]. unfold zset. destruct (Z.leb_spec 0 i); [|lia].
  destruct (Z.ltb_spec i (zlen l)); [|lia]. done.
Qed.

Lemma zslice_all {A} (l : list A) n : zlen l = n → zslice l 0 n = Some l.
Proof.
  intros <-. unfold zslice. pose proof (zlen_nonneg l).
  destruct (Z.leb_spec 0 0); [|lia]. destruct (Z.leb_spec 0 (zlen l)); [|lia].
  rewrite Z.leb_refl. cbn [andb]. f_equal. rewrite drop_0. apply take_ge. unfold zlen. lia.
Qed.

Lemma zslice_spec {A} (l : list A) i j :
  0 <= i <= j → j <= zlen l → zslice l i j = Some (take (Z.to_nat (j - i)) (drop (Z.to_nat i) l)).
Proof.
  intros [H0 H1] H2. unfold zslice. destruct (Z.leb_spec 0 i); [|lia].
  destruct (Z.leb_spec i j); [|lia]. by destruct (Z.leb_spec j (zlen l)); [|lia].
Qed.

Lemma length_splice {A} (l : list A) off src :
  (off + length src <= length l)%nat → length (splice l off src) = length l.
Proof. intros. unfold splice. rewrite !length_app, length_take, length_drop. lia. Qed.

Lemma is_bytes_app a b : is_bytes (a ++ b) ↔ is_bytes a ∧ is_bytes b.
Proof. apply Forall_app. Qed.

Lemma is_bytes_take n b : is_bytes b → is_bytes (take n b).
Proof. apply Forall_take. Qed.

Lemma is_bytes_drop n b : is_bytes b → is_bytes (drop n b).
Proof. apply Forall_drop. Qed.
#[export] Hint Resolve is_bytes_take is_bytes_drop : width.

(** Sums over lists. *)
Definition zsum (l : list Z) : Z := foldr Z.add 0 l.

Lemma zsum_cons x l : zsum (x :: l) = x + zsum l.
Proof. done. Qed.

Lemma zsum_app l k : zsum (l ++ k) = zsum l + zsum k.
Proof. induction l; simpl; [done|]. unfold zsum in *. simpl. lia. Qed.
Lemma zsum_insert l i x y : l !! i = Some y → zsum (<[i := x]> l) = zsum l - y + x.
Proof.
  revert i. induction l as [|z l IH]; intros [|i] Hi; try done.
  - injection Hi as ->. change (<[0%nat := x]> (y :: l)) with (x :: l). rewrite !zsum_cons. lia.
  - change (<[S i := x]> (z :: l)) with (z :: <[i := x]> l). rewrite !zsum_cons, (IH i) by done. lia.
Qed.

Lemma bytes_eqb_true a b : bytes_eqb a b = true ↔ a = b.
Proof. apply bool_decide_eq_true. Qed.

Lemma bytes_eqb_false a b : bytes_eqb a b = false ↔ a ≠ b.
Proof. apply bool_decide_eq_false. Qed.

Lemma bytes_ltb_irrefl a : bytes_ltb a a = false.
Proof. induction a as [|x a IH]; [done|]. simpl. rewrite IH, Z.ltb_irrefl, andb_false_r. done. Qed.

Lemma bytes_ltb_trans a b c :
  bytes_ltb a b = true → bytes_ltb b c = true → bytes_ltb a c = true.
Proof.
  revert b c; induction a as [|x a IH]; intros [|y b] [|z c]; simpl; try done.
  destruct (Z.ltb_spec x y), (Z.ltb_spec y z), (Z.ltb_spec x z),
    (Z.eqb_spec x y), (Z.eqb_spec y z), (Z.eqb_spec x z); simpl; try lia; eauto; try done.
Qed.

Lemma bytes_ltb_total a b : bytes_ltb a b = false → bytes_ltb b a = false → a = b.
Proof.
  revert b; induction a as [|x a IH]; intros [|y b]; simpl; try done.
  destruct (Z.ltb_spec x y), (Z.ltb_spec y x), (Z.eqb_spec x y), (Z.eqb_spec y x);
    simpl; try lia; try done.
  intros. subst. f_equal. by apply IH.
Qed.
