(* ===== verification/Hashing.v ===== *)
(** * Checksums and hashes

    - [Fnv1a] (src/utils/hash.go) and the identical [fnv1a] of src/store/key.go,
    - the value hash [Getvhash] (src/store/item.go),
    - the CRC-32 of a data record (src/store/crc32.go, a C loop over a table).

    [murmur3] is a third-party package: the key hash takes it as an argument. *)

From S2P Require Import Prelude.

(** ** FNV-1a as the source computes it *)

Definition fnv_prime : Z := 0x01000193.
Definition fnv_offset : Z := 0x811c9dc5.

(** One round: the byte is sign-extended ([uint32(int8(b))]) before the xor. *)
Definition fnv_step (h b : Z) : Z := u32 (Z.lxor h (u32 (i8 b)) * fnv_prime).

Definition Fnv1a (buf : bytes) : Z := foldl fnv_step fnv_offset buf.

(** The published FNV-1a: the byte is zero-extended. *)
Definition fnv_std_step (h b : Z) : Z := u32 (Z.lxor h b * fnv_prime).
Definition Fnv1a_std (buf : bytes) : Z := foldl fnv_std_step fnv_offset buf.

Definition getKeyHashDefalut (murmur : bytes → Z) (key : bytes) : Z :=
  Z.lor (u64 (Z.shiftl (Fnv1a key) 32)) (murmur key).

(** ** The value hash *)

Definition Getvhash (value : bytes) : Z :=
  let l := zlen value in
  let hash := u32 (u32 l * 97) in
  let hash :=
    if l <=? 1024 then u32 (hash + Fnv1a value)
    else
      let hash := u32 (hash + Fnv1a (take 512 value)) in
      let hash := u32 (hash * 97) in
      u32 (hash + Fnv1a (drop (length value - 512) value)) in
  u16 hash.

(** ** CRC-32 *)

Definition crc32_table : list Z :=
  [
0x00000000; 0x77073096; 0xee0e612c; 0x990951ba; 0x076dc419; 0x706af48f;
   0xe963a535; 0x9e6495a3; 0x0edb8832; 0x79dcb8a4; 0xe0d5e91e; 0x97d2d988;
   0x09b64c2b; 0x7eb17cbd; 0xe7b82d07; 0x90bf1d91; 0x1db71064; 0x6ab020f2;
   0xf3b97148; 0x84be41de; 0x1adad47d; 0x6ddde4eb; 0xf4d4b551; 0x83d385c7;
   0x136c9856; 0x646ba8c0; 0xfd62f97a; 0x8a65c9ec; 0x14015c4f; 0x63066cd9;
   0xfa0f3d63; 0x8d080df5; 0x3b6e20c8; 0x4c69105e; 0xd56041e4; 0xa2677172;
   0x3c03e4d1; 0x4b04d447; 0xd20d85fd; 0xa50ab56b; 0x35b5a8fa; 0x42b2986c;
   0xdbbbc9d6; 0xacbcf940; 0x32d86ce3; 0x45df5c75; 0xdcd60dcf; 0xabd13d59;
   0x26d930ac; 0x51de003a; 0xc8d75180; 0xbfd06116; 0x21b4f4b5; 0x56b3c423;
   0xcfba9599; 0xb8bda50f; 0x2802b89e; 0x5f058808; 0xc60cd9b2; 0xb10be924;
   0x2f6f7c87; 0x58684c11; 0xc1611dab; 0xb6662d3d; 0x76dc4190; 0x01db7106;
   0x98d220bc; 0xefd5102a; 0x71b18589; 0x06b6b51f; 0x9fbfe4a5; 0xe8b8d433;
   0x7807c9a2; 0x0f00f934; 0x9609a88e; 0xe10e9818; 0x7f6a0dbb; 0x086d3d2d;
   0x91646c97; 0xe6635c01; 0x6b6b51f4; 0x1c6c6162; 0x856530d8; 0xf262004e;
   0x6c0695ed; 0x1b01a57b; 0x8208f4c1; 0xf50fc457; 0x65b0d9c6; 0x12b7e950;
   0x8bbeb8ea; 0xfcb9887c; 0x62dd1ddf; 0x15da2d49; 0x8cd37cf3; 0xfbd44c65;
   0x4db26158; 0x3ab551ce; 0xa3bc0074; 0xd4bb30e2; 0x4adfa541; 0x3dd895d7;
   0xa4d1c46d; 0xd3d6f4fb; 0x4369e96a; 0x346ed9fc; 0xad678846; 0xda60b8d0;
   0x44042d73; 0x33031de5; 0xaa0a4c5f; 0xdd0d7cc9; 0x5005713c; 0x270241aa;
   0xbe0b1010; 0xc90c2086; 0x5768b525; 0x206f85b3; 0xb966d409; 0xce61e49f;
   0x5edef90e; 0x29d9c998; 0xb0d09822; 0xc7d7a8b4; 0x59b33d17; 0x2eb40d81;
   0xb7bd5c3b; 0xc0ba6cad; 0xedb88320; 0x9abfb3b6; 0x03b6e20c; 0x74b1d29a;
   0xead54739; 0x9dd277af; 0x04db2615; 0x73dc1683; 0xe3630b12; 0x94643b84;
   0x0d6d6a3e; 0x7a6a5aa8; 0xe40ecf0b; 0x9309ff9d; 0x0a00ae27; 0x7d079eb1;
   0xf00f9344; 0x8708a3d2; 0x1e01f268; 0x6906c2fe; 0xf762575d; 0x806567cb;
   0x196c3671; 0x6e6b06e7; 0xfed41b76; 0x89d32be0; 0x10da7a5a; 0x67dd4acc;
   0xf9b9df6f; 0x8ebeeff9; 0x17b7be43; 0x60b08ed5; 0xd6d6a3e8; 0xa1d1937e;
   0x38d8c2c4; 0x4fdff252; 0xd1bb67f1; 0xa6bc5767; 0x3fb506dd; 0x48b2364b;
   0xd80d2bda; 0xaf0a1b4c; 0x36034af6; 0x41047a60; 0xdf60efc3; 0xa867df55;
   0x316e8eef; 0x4669be79; 0xcb61b38c; 0xbc66831a; 0x256fd2a0; 0x5268e236;
   0xcc0c7795; 0xbb0b4703; 0x220216b9; 0x5505262f; 0xc5ba3bbe; 0xb2bd0b28;
   0x2bb45a92; 0x5cb36a04; 0xc2d7ffa7; 0xb5d0cf31; 0x2cd99e8b; 0x5bdeae1d;
   0x9b64c2b0; 0xec63f226; 0x756aa39c; 0x026d930a; 0x9c0906a9; 0xeb0e363f;
   0x72076785; 0x05005713; 0x95bf4a82; 0xe2b87a14; 0x7bb12bae; 0x0cb61b38;
   0x92d28e9b; 0xe5d5be0d; 0x7cdcefb7; 0x0bdbdf21; 0x86d3d2d4; 0xf1d4e242;
   0x68ddb3f8; 0x1fda836e; 0x81be16cd; 0xf6b9265b; 0x6fb077e1; 0x18b74777;
   0x88085ae6; 0xff0f6a70; 0x66063bca; 0x11010b5c; 0x8f659eff; 0xf862ae69;
   0x616bffd3; 0x166ccf45; 0xa00ae278; 0xd70dd2ee; 0x4e048354; 0x3903b3c2;
   0xa7672661; 0xd06016f7; 0x4969474d; 0x3e6e77db; 0xaed16a4a; 0xd9d65adc;
   0x40df0b66; 0x37d83bf0; 0xa9bcae53; 0xdebb9ec5; 0x47b2cf7f; 0x30b5ffe9;
   0xbdbdf21c; 0xcabac28a; 0x53b39330; 0x24b4a3a6; 0xbad03605; 0xcdd70693;
   0x54de5729; 0x23d967bf; 0xb3667a2e; 0xc4614ab8; 0x5d681b02; 0x2a6f2b94;
   0xb40bbe37; 0xc30c8ea1; 0x5a05df1b; 0x2d02ef8d].

Definition crc32_step (crc b : Z) : Z :=
  Z.lxor (nth (Z.to_nat (Z.land (Z.lxor crc b) 0xff)) crc32_table 0) (Z.shiftr crc 8).

(** The C loop [crc32_write]. *)
Definition crc32_write (crc : Z) (buf : bytes) : Z := foldl crc32_step crc buf.

(** The Go wrapper type: [newCrc32], [write], [get]. [write] takes [&data[0]],
    which panics on an empty slice. *)
Definition newCrc32 : Z := 0xffffffff.
Definition crc_write (h : Z) (data : bytes) : option Z :=
  match data with [] => None | _ => Some (crc32_write h data) end.
Definition crc_get (h : Z) : Z := Z.lxor h 0xffffffff.

(** The bit-by-bit definition of the table entries, with the reflected
    polynomial of CRC-32 (IEEE 802.3). *)
Definition crc_bit (c : Z) : Z :=
  if Z.testbit c 0 then Z.lxor (Z.shiftr c 1) 0xedb88320 else Z.shiftr c 1.
Definition crc_entry (i : Z) : Z := Nat.iter 8 crc_bit i.

(** ** Ranges *)

Lemma lxor_range n a b :
  0 <= n → 0 <= a < 2 ^ n → 0 <= b < 2 ^ n → 0 <= Z.lxor a b < 2 ^ n.
Proof.
  intros Hn Ha Hb. split; [apply Z.lxor_nonneg; lia|].
  destruct (Z.eq_dec (Z.lxor a b) 0) as [->|Hne]; [lia|].
  assert (0 <= Z.lxor a b) by (apply Z.lxor_nonneg; lia).
  apply Z.log2_lt_pow2; [lia|].
  pose proof (Z.log2_lxor a b). destruct Ha, Hb.
  assert (0 < n) by (destruct (Z.eq_dec n 0); [subst; simpl in *; assert (a = 0) by lia; assert (b = 0) by lia; subst; done|lia]).
  assert (Hlog : ∀ x, 0 <= x < 2 ^ n → Z.log2 x < n).
  { intros x Hx. destruct (Z.eq_dec x 0) as [->|]; [simpl; lia|]. apply Z.log2_lt_pow2; lia. }
  pose proof (Hlog a). pose proof (Hlog b). lia.
Qed.

Lemma Fnv1a_range buf : is_u32 (Fnv1a buf).
Proof.
  unfold Fnv1a. destruct buf as [|b buf] using rev_ind; [by vm_compute|].
  rewrite foldl_app. simpl. apply u32_range.
Qed.
#[export] Hint Resolve Fnv1a_range : width.

Lemma Getvhash_range v : is_u16 (Getvhash v).
Proof. apply u16_range. Qed.
#[export] Hint Resolve Getvhash_range : width.

(** On 7-bit keys the hash is the published FNV-1a: the sign extension of each
    byte, the bug the source keeps for old data, changes nothing there. *)
Theorem Fnv1a_ascii buf : Forall (λ b, 0 <= b < 128) buf → Fnv1a buf = Fnv1a_std buf.
Proof.
  unfold Fnv1a, Fnv1a_std. generalize fnv_offset as h.
  induction buf as [|b buf IH]; intros h; [done|].
  intros [Hb Hbuf]%Forall_cons. simpl.
  replace (fnv_step h b) with (fnv_std_step h b); [by apply IH|].
  unfold fnv_step, fnv_std_step. replace (u32 (i8 b)) with b by width. done.
Qed.

(** ** The table and the step *)

(** The checksum is the CRC-32 of Ethernet and zlib: each of the 256 entries of
    the source's table is the remainder that eight shifts by the reversed
    polynomial 0xEDB88320 compute. *)
Theorem crc32_table_poly : crc32_table = crc_entry <$> seqZ 0 256.
Proof. vm_compute. reflexivity. Qed.

Definition crc_tab (i : Z) : Z := nth (Z.to_nat i) crc32_table 0.

Lemma land_ff_range x : 0 <= Z.land x 0xff < 256.
Proof. change 0xff with (Z.ones 8). rewrite Z.land_ones by lia. apply Z.mod_pos_bound. lia. Qed.

(** Every property of a byte index is decided by running over 0..255. *)
Lemma byte_cases (P : Z → bool) :
  forallb P (seqZ 0 256) = true → ∀ i, 0 <= i < 256 → P i = true.
Proof.
  intros H i Hi. rewrite forallb_forall in H. apply H.
  apply list_elem_of_In, elem_of_seqZ. lia.
Qed.

Lemma crc_tab_range i : 0 <= i < 256 → is_u32 (crc_tab i).
Proof.
  intros Hi.
  assert (((0 <=? crc_tab i) && (crc_tab i <? 2 ^ 32)) = true) as H.
  { apply (byte_cases (λ i, (0 <=? crc_tab i) && (crc_tab i <? 2 ^ 32))); [by vm_compute|done]. }
  apply andb_true_iff in H as [H1 H2]. split; [by apply Z.leb_le|by apply Z.ltb_lt].
Qed.

(** The top byte of an entry identifies its index. *)
Lemma crc_tab_top_inj i j :
  0 <= i < 256 → 0 <= j < 256 → Z.shiftr (crc_tab i) 24 = Z.shiftr (crc_tab j) 24 → i = j.
Proof.
  intros Hi Hj H.
  assert (forallb (λ j, negb (Z.shiftr (crc_tab i) 24 =? Z.shiftr (crc_tab j) 24) || (i =? j))
            (seqZ 0 256) = true) as Hall.
  { apply (byte_cases (λ i, forallb (λ j,
      negb (Z.shiftr (crc_tab i) 24 =? Z.shiftr (crc_tab j) 24) || (i =? j)) (seqZ 0 256)));
      [by vm_compute|done]. }
  rewrite forallb_forall in Hall. specialize (Hall j).
  rewrite <- list_elem_of_In, elem_of_seqZ in Hall. specialize (Hall ltac:(lia)).
  rewrite H, Z.eqb_refl in Hall. simpl in Hall. lia.
Qed.

Lemma crc32_step_tab crc b :
  crc32_step crc b = Z.lxor (crc_tab (Z.land (Z.lxor crc b) 0xff)) (Z.shiftr crc 8).
Proof. done. Qed.

Lemma shiftr8_range x : is_u32 x → 0 <= Z.shiftr x 8 < 2 ^ 24.
Proof. intros. rewrite Z.shiftr_div_pow2 by lia. width. Qed.

Lemma crc32_step_range crc b : is_u32 crc → is_u32 (crc32_step crc b).
Proof.
  intros Hc. rewrite crc32_step_tab. apply lxor_range; [lia| |].
  - apply crc_tab_range, land_ff_range.
  - pose proof (shiftr8_range crc Hc). lia.
Qed.

Lemma crc32_write_range crc buf : is_u32 crc → is_u32 (crc32_write crc buf).
Proof.
  revert crc. induction buf as [|b buf IH]; intros crc Hc; [done|].
  simpl. by apply IH, crc32_step_range.
Qed.

Lemma crc32_write_app crc a b :
  crc32_write crc (a ++ b) = crc32_write (crc32_write crc a) b.
Proof. apply foldl_app. Qed.

Lemma crc32_step_top crc b :
  is_u32 crc →
  Z.shiftr (crc32_step crc b) 24 = Z.shiftr (crc_tab (Z.land (Z.lxor crc b) 0xff)) 24.
Proof.
  intros Hc. rewrite crc32_step_tab, Z.shiftr_lxor, Z.shiftr_shiftr by lia.
  replace (Z.shiftr crc (8 + 24)) with 0; [apply Z.lxor_0_r|].
  rewrite Z.shiftr_div_pow2 by lia. rewrite Z.div_small; width.
Qed.

(** A step determines the table index and the upper bits of the old state. *)
Lemma crc32_step_inv c1 c2 b1 b2 :
  is_u32 c1 → is_u32 c2 → crc32_step c1 b1 = crc32_step c2 b2 →
  Z.land (Z.lxor c1 b1) 0xff = Z.land (Z.lxor c2 b2) 0xff ∧ Z.shiftr c1 8 = Z.shiftr c2 8.
Proof.
  intros H1 H2 H.
  assert (Z.land (Z.lxor c1 b1) 0xff = Z.land (Z.lxor c2 b2) 0xff) as Hidx.
  { apply crc_tab_top_inj; [apply land_ff_range..|].
    rewrite <- !crc32_step_top by done. by rewrite H. }
  split; [done|].
  rewrite !crc32_step_tab, Hidx in H.
  apply (f_equal (Z.lxor (crc_tab (Z.land (Z.lxor c2 b2) 0xff)))) in H.
  by rewrite <- !Z.lxor_assoc, !Z.lxor_nilpotent, !Z.lxor_0_l in H.
Qed.

Lemma u32_split x : x = Z.lor (Z.shiftl (Z.shiftr x 8) 8) (Z.land x 0xff).
Proof.
  apply Z.bits_inj'. intros n Hn. rewrite Z.lor_spec, Z.land_spec.
  change 0xff with (Z.ones 8). destruct (Z.ltb_spec n 8).
  - rewrite Z.shiftl_spec_low by lia. rewrite Z.ones_spec_low by lia. by rewrite andb_true_r.
  - rewrite Z.shiftl_spec_high, Z.shiftr_spec by lia. rewrite Z.ones_spec_high by lia.
    rewrite andb_false_r, orb_false_r. f_equal. lia.
Qed.

Lemma lxor_cancel_r a b c : Z.lxor a c = Z.lxor b c → a = b.
Proof.
  intros H. apply (f_equal (λ x, Z.lxor x c)) in H.
  by rewrite !Z.lxor_assoc, !Z.lxor_nilpotent, !Z.lxor_0_r in H.
Qed.

(** For a fixed byte the step is injective in the state ... *)
Lemma crc32_step_inj_state c1 c2 b :
  is_u32 c1 → is_u32 c2 → crc32_step c1 b = crc32_step c2 b → c1 = c2.
Proof.
  intros H1 H2 H. apply crc32_step_inv in H as [Hlo Hhi]; [|done..].
  rewrite (u32_split c1), (u32_split c2), Hhi. f_equal.
  assert (∀ c, Z.land (Z.lxor c b) 0xff = Z.lxor (Z.land c 0xff) (Z.land b 0xff)) as Hd.
  { intros c. apply Z.bits_inj'. intros n _.
    rewrite !Z.lxor_spec, !Z.land_spec, Z.lxor_spec.
    destruct (Z.testbit c n), (Z.testbit b n), (Z.testbit 255 n); done. }
  rewrite !Hd in Hlo. by apply lxor_cancel_r in Hlo.
Qed.

(** ... and for a fixed state it is injective in the byte. *)
Lemma crc32_step_inj_byte c b1 b2 :
  is_u32 c → is_u8 b1 → is_u8 b2 → crc32_step c b1 = crc32_step c b2 → b1 = b2.
Proof.
  intros Hc H1 H2 H. apply crc32_step_inv in H as [Hlo _]; [|done..].
  assert (∀ b, is_u8 b → Z.land (Z.lxor c b) 0xff = Z.lxor (Z.land c 0xff) b) as Hd.
  { intros b Hb. apply Z.bits_inj'. intros n Hn.
    rewrite Z.land_spec, !Z.lxor_spec, Z.land_spec. change 0xff with (Z.ones 8).
    destruct (Z.ltb_spec n 8).
    - rewrite Z.ones_spec_low by lia. by rewrite !andb_true_r.
    - rewrite Z.ones_spec_high by lia. rewrite !andb_false_r. simpl.
      symmetry. destruct (Z.eq_dec b 0) as [->|]; [apply Z.bits_0|].
      apply Z.bits_above_log2; [width|]. apply Z.log2_lt_pow2; [width|].
      apply Z.lt_le_trans with (2 ^ 8); [width|]. apply Z.pow_le_mono_r; lia. }
  rewrite !Hd in Hlo by done. rewrite !(Z.lxor_comm (Z.land c 255)) in Hlo.
  by apply lxor_cancel_r in Hlo.
Qed.

Lemma crc32_write_inj_state c1 c2 buf :
  is_u32 c1 → is_u32 c2 → crc32_write c1 buf = crc32_write c2 buf → c1 = c2.
Proof.
  revert c1 c2. induction buf as [|b buf IH]; intros c1 c2 H1 H2; [done|]. simpl.
  intros H. apply (crc32_step_inj_state c1 c2 b); [done..|].
  apply IH; [by apply crc32_step_range..|done].
Qed.

(** Changing exactly one byte of the input changes the checksum. *)
Lemma crc32_write_byte_change c pre suf x y :
  is_u32 c → is_u8 x → is_u8 y →
  crc32_write c (pre ++ x :: suf) = crc32_write c (pre ++ y :: suf) → x = y.
Proof.
  intros Hc Hx Hy. rewrite !crc32_write_app. simpl. intros H.
  assert (is_u32 (crc32_write c pre)) by by apply crc32_write_range.
  apply (crc32_step_inj_byte (crc32_write c pre)); [done..|].
  eapply crc32_write_inj_state; [by apply crc32_step_range..|done].
Qed.

Lemma Fnv1a_ascii_witness : Fnv1a (bstr "hello") = Fnv1a_std (bstr "hello").
Proof. apply Fnv1a_ascii. repeat (constructor; [by vm_compute|]). constructor. Defined.
