(* ===== verification/Strconv.v ===== *)
(** * Number formatting and parsing (Go's strconv and fmt verbs)

    The source formats and parses integers with [strconv.Itoa], [strconv.Atoi],
    [strconv.ParseInt] and the verbs [%d], [%x], [%03d], [%016x]. *)

From S2P Require Import Prelude.

(** ** Printing *)

Definition digit_char (d : Z) : Z := if d <? 10 then 48 + d else 87 + d.

Fixpoint fmt_digits (fuel : nat) (base n : Z) : bytes :=
  match fuel with
  | O => []
  | S fuel =>
      if n <? base then [digit_char n]
      else fmt_digits fuel base (n / base) ++ [digit_char (n mod base)]
  end.

(** A nonnegative number has at most [log2 n + 1] digits in any base. *)
Definition fmt_uint (base n : Z) : bytes := fmt_digits (S (Z.to_nat (Z.log2 n))) base n.

Definition Itoa (n : Z) : bytes :=
  if n <? 0 then 45 :: fmt_uint 10 (- n) else fmt_uint 10 n.

(** Left padding with zeros to a width ([%03d], [%016x], [%02x]). *)
Definition pad0 (width : nat) (b : bytes) : bytes := replicate (width - length b) 48 ++ b.

(** ** Parsing *)

Inductive num_err := ErrSyntax | ErrRange.

Definition char_digit (c : Z) : option Z :=
  if (48 <=? c) && (c <=? 57) then Some (c - 48)
  else if (97 <=? c) && (c <=? 122) then Some (c - 87)
  else if (65 <=? c) && (c <=? 90) then Some (c - 55)
  else None.

Fixpoint parse_loop (base maxVal n : Z) (s : bytes) : Z * option num_err :=
  match s with
  | [] => (n, None)
  | c :: s =>
      match char_digit c with
      | None => (0, Some ErrSyntax)
      | Some d =>
          if base <=? d then (0, Some ErrSyntax)
          else if maxVal <? n * base + d then (maxVal, Some ErrRange)
          else parse_loop base maxVal (n * base + d) s
      end
  end.

Definition ParseUint (s : bytes) (base bits : Z) : Z * option num_err :=
  match s with [] => (0, Some ErrSyntax) | _ => parse_loop base (2 ^ bits - 1) 0 s end.

(** [strconv.ParseInt]: the value is the bound when the error is a range error. *)
Definition ParseInt (s : bytes) (base bitSize : Z) : Z * option num_err :=
  let bits := if bitSize =? 0 then 64 else bitSize in
  match s with
  | [] => (0, Some ErrSyntax)
  | c :: rest =>
      let neg := c =? 45 in
      let body := if (c =? 43) || (c =? 45) then rest else s in
      match ParseUint body base bits with
      | (_, Some ErrSyntax) => (0, Some ErrSyntax)
      | (un, _) =>
          let cutoff := 2 ^ (bits - 1) in
          if negb neg && (cutoff <=? un) then (cutoff - 1, Some ErrRange)
          else if neg && (cutoff <? un) then (- cutoff, Some ErrRange)
          else (if neg then - un else un, None)
      end
  end.

Definition Atoi (s : bytes) : option Z :=
  match ParseInt s 10 0 with (n, None) => Some n | _ => None end.

(** ** Printing then parsing *)

Lemma char_digit_char d : 0 <= d < 36 → char_digit (digit_char d) = Some d.
Proof.
  intros Hd. unfold char_digit, digit_char.
  destruct (Z.ltb_spec d 10); repeat case_match; try (f_equal; lia); lia.
Qed.

Lemma parse_loop_app base m n s1 s2 n' :
  parse_loop base m n s1 = (n', None) →
  parse_loop base m n (s1 ++ s2) = parse_loop base m n' s2.
Proof.
  revert n. induction s1 as [|c s1 IH]; intros n; simpl; [congruence|].
  repeat case_match; intros; simplify_eq; by eauto.
Qed.

Lemma parse_fmt_digits fuel base m n :
  2 <= base <= 36 → 0 <= n <= m → n < 2 ^ Z.of_nat fuel → (0 < fuel)%nat →
  parse_loop base m 0 (fmt_digits fuel base n) = (n, None).
Proof.
  intros Hb. revert n. induction fuel as [|fuel IH]; intros n Hn Hf Hfuel; [lia|].
  cbn [fmt_digits].
  destruct (Z.ltb_spec n base) as [Hlt|Hge].
  - cbn [parse_loop]. rewrite char_digit_char by lia. rewrite Z.mul_0_l, Z.add_0_l.
    destruct (Z.leb_spec base n); [lia|]. destruct (Z.ltb_spec m n); [lia|]. reflexivity.
  - assert (0 <= n / base <= m).
    { split; [apply Z.div_pos; lia|]. etrans; [|apply Hn]. apply Z.div_le_upper_bound; nia. }
    rewrite Nat2Z.inj_succ, Z.pow_succ_r in Hf by lia.
    assert (n / base < 2 ^ Z.of_nat fuel).
    { apply Z.div_lt_upper_bound; [lia|]. nia. }
    assert (0 < fuel)%nat.
    { destruct fuel; [simpl in *|lia]. assert (0 < n / base); [|lia].
      apply Z.div_str_pos. lia. }
    rewrite (parse_loop_app _ _ _ _ _ (n / base)) by (by apply IH). simpl.
    pose proof (Z.mod_pos_bound n base). rewrite char_digit_char by lia.
    pose proof (Z.div_mod n base).
    destruct (Z.leb_spec base (n mod base)); [lia|].
    destruct (Z.ltb_spec m (n / base * base + n mod base)); [lia|]. f_equal. lia.
Qed.

Lemma fmt_digits_head fuel base n :
  2 <= base <= 36 → 0 <= n → (0 < fuel)%nat →
  ∃ c s, fmt_digits fuel base n = c :: s ∧ c ≠ 43 ∧ c ≠ 45.
Proof.
  intros Hb. revert n. induction fuel as [|fuel IH]; intros n Hn Hf; [lia|]. cbn [fmt_digits].
  assert (∀ d, 0 <= d → digit_char d ≠ 43 ∧ digit_char d ≠ 45) as Hd.
  { intros d. unfold digit_char. destruct (Z.ltb_spec d 10); lia. }
  destruct (Z.ltb_spec n base) as [Hlt|Hge].
  - exists (digit_char n), []. split; [done|]. by apply Hd.
  - destruct fuel.
    + simpl. eexists _, _. split; [done|]. apply Hd. apply Z.mod_pos_bound. lia.
    + destruct (IH (n / base)) as (c & s & -> & ?); [apply Z.div_pos; lia|lia|].
      exists c, (s ++ [digit_char (n mod base)]). done.
Qed.

Lemma log2_fuel n : 0 <= n → n < 2 ^ Z.of_nat (S (Z.to_nat (Z.log2 n))).
Proof.
  intros. rewrite Nat2Z.inj_succ, Z2Nat.id by apply Z.log2_nonneg.
  destruct (Z.eq_dec n 0) as [->|]; [done|]. apply Z.log2_spec. lia.
Qed.

Lemma ParseUint_fmt base bits n :
  2 <= base <= 36 → 0 <= n < 2 ^ bits → ParseUint (fmt_uint base n) base bits = (n, None).
Proof.
  intros Hb Hn. unfold ParseUint, fmt_uint.
  destruct (fmt_digits_head (S (Z.to_nat (Z.log2 n))) base n) as (c & s & Heq & _);
    [done|lia|lia|].
  rewrite Heq. rewrite <- Heq.
  apply parse_fmt_digits; [done|lia|apply log2_fuel; lia|lia].
Qed.

Lemma Atoi_Itoa n : is_i64 n → Atoi (Itoa n) = Some n.
Proof.
  intros Hn. unfold is_i64 in Hn. unfold Atoi, Itoa, ParseInt. cbn [Z.eqb].
  destruct (Z.ltb_spec n 0).
  - cbn [Z.eqb Pos.eqb orb]. rewrite ParseUint_fmt by lia. cbn [negb andb].
    destruct (Z.ltb_spec (2 ^ (64 - 1)) (- n)); [lia|]. f_equal. lia.
  - destruct (fmt_digits_head (S (Z.to_nat (Z.log2 n))) 10 n) as (c & s & Heq & H43 & H45);
      [lia..|].
    unfold fmt_uint. rewrite Heq.
    apply Z.eqb_neq in H43, H45. rewrite H43, H45. cbn [orb].
    rewrite <- Heq. fold (fmt_uint 10 n). rewrite ParseUint_fmt by lia. cbn [negb andb].
    destruct (Z.leb_spec (2 ^ (64 - 1)) n); [lia|]. done.
Qed.

(** Decimal text contains only digits and a minus sign. *)
Definition is_num_char (c : Z) : Prop := c = 45 ∨ 48 <= c <= 57.

Lemma fmt_uint10_chars n : 0 <= n → Forall is_num_char (fmt_uint 10 n).
Proof.
  unfold fmt_uint. generalize (S (Z.to_nat (Z.log2 n))) as fuel. intros fuel. revert n.
  induction fuel as [|fuel IH]; intros n Hn; cbn [fmt_digits]; [constructor|].
  assert (∀ d, 0 <= d < 10 → is_num_char (digit_char d)) as Hd.
  { intros d ?. unfold digit_char, is_num_char. destruct (Z.ltb_spec d 10); lia. }
  destruct (Z.ltb_spec n 10); [constructor; [apply Hd; lia|constructor]|].
  apply Forall_app. split; [apply IH, Z.div_pos; lia|].
  constructor; [|constructor]. apply Hd, Z.mod_pos_bound. lia.
Qed.

Lemma Itoa_chars n : Forall is_num_char (Itoa n).
Proof.
  unfold Itoa. destruct (Z.ltb_spec n 0).
  - constructor; [by left|]. apply fmt_uint10_chars. lia.
  - apply fmt_uint10_chars. lia.
Qed.

Lemma Itoa_nonempty n : Itoa n ≠ [].
Proof.
  unfold Itoa. destruct (Z.ltb_spec n 0); [done|].
  unfold fmt_uint.
  destruct (fmt_digits_head (S (Z.to_nat (Z.log2 n))) 10 n) as (c & s & -> & _); [lia..|done].
Qed.

(** The text of a 64-bit number has at most 20 characters. *)
Lemma fmt_digits_length fuel n k :
  0 <= n < 10 ^ Z.of_nat (S k) → (length (fmt_digits fuel 10 n) <= S k)%nat.
Proof.
  revert n k. induction fuel as [|fuel IH]; intros n k Hn; cbn [fmt_digits]; [simpl; lia|].
  destruct (Z.ltb_spec n 10); [simpl; lia|]. rewrite length_app. cbn [length].
  destruct k as [|k]; [simpl in Hn; lia|].
  assert (length (fmt_digits fuel 10 (n / 10)) <= S k)%nat; [|lia]. apply IH.
  rewrite (Nat2Z.inj_succ (S k)), Z.pow_succ_r in Hn by lia.
  split; [apply Z.div_pos; lia|]. apply Z.div_lt_upper_bound; lia.
Qed.

Lemma Itoa_length n : is_i64 n → zlen (Itoa n) <= 20.
Proof.
  intros Hn. unfold Itoa, fmt_uint. destruct (Z.ltb_spec n 0).
  - pose proof (fmt_digits_length (S (Z.to_nat (Z.log2 (- n)))) (- n) 18) as Hl.
    unfold zlen. cbn [length]. assert (0 <= - n < 10 ^ Z.of_nat 19) as Hr by (simpl; unfold is_i64 in Hn; lia).
    specialize (Hl Hr). lia.
  - pose proof (fmt_digits_length (S (Z.to_nat (Z.log2 n))) n 18) as Hl.
    unfold zlen. assert (0 <= n < 10 ^ Z.of_nat 19) as Hr by (simpl; unfold is_i64 in Hn; lia).
    specialize (Hl Hr). lia.
Qed.
