(* ===== verification/Config.v ===== *)
(** * Configuration

    - [MCConfig] and the size checks (src/config/mc_config.go),
    - size strings "4K", "50M" (src/utils/size.go),
    - [HStoreConfig] and the values derived from it (src/store/config.go). The
      source keeps one global [Conf]; here it is an argument of what reads it. *)

From S2P Require Import Prelude Strconv.

(** ** Size strings *)

Definition size_K : Z := 1024.
Definition size_M : Z := 1024 * size_K.
Definition size_G : Z := 1024 * size_M.

Definition sizemap (c : Z) : option Z :=
  if (c =? 75) || (c =? 107) then Some size_K
  else if (c =? 77) || (c =? 109) then Some size_M
  else if (c =? 71) || (c =? 103) then Some size_G
  else None.

(** The second component is what is stored in [LastSizeErr]. *)
Definition StrToSize (s : bytes) : Z * option num_err :=
  match last s with
  | None => (0, None)
  | Some u =>
      let plus := sizemap u in
      let s := match plus with Some _ => take (length s - 1) s | None => s end in
      match ParseInt s 10 32 with
      | (n, Some e) => (n, Some e)
      | (n, None) => (match plus with Some p => i64 (n * p) | None => n end, None)
      end
  end.

(** The loop of [SizeToStr]: [for n&1023 == 0 { n >>= 10; i++ }]. *)
Fixpoint size_shift (fuel : nat) (n i : Z) : Z * Z :=
  match fuel with
  | O => (n, i)
  | S fuel => if Z.land n 1023 =? 0 then size_shift fuel (Z.shiftr n 10) (i + 1) else (n, i)
  end.

Definition size_units : list bytes := [[]; bstr "K"; bstr "M"; bstr "G"].

(** A nonzero int64 has at most 63 trailing zero bits, so 7 rounds are enough;
    indexing [units] past its end panics. *)
Definition SizeToStr (n : Z) : option bytes :=
  if n =? 0 then Some (bstr "0")
  else
    let '(n, i) := size_shift 7 n 0 in
    unit ← zget size_units i;
    Some (Itoa n ++ unit).

(** ** The memcache limits *)

Record MCConfig := mkMCConfig {
  MaxKeyLen : Z;
  MaxReq : Z;
  BodyMax : Z;
  BodyBig : Z;
  BodyInC : Z;
  FlushMax : Z;
  TimeoutMS : Z
}.

Definition DefaultMCConfig : MCConfig := {|
  MaxReq := 16;
  MaxKeyLen := 250;
  BodyMax := (StrToSize (bstr "50M")).1;
  BodyBig := (StrToSize (bstr "1M")).1;
  BodyInC := (StrToSize (bstr "4K")).1;
  FlushMax := (StrToSize (bstr "100M")).1;
  TimeoutMS := 3000
|}.

Definition IsValidKeySize (mc : MCConfig) (ksz : Z) : bool :=
  negb (ksz =? 0) && (ksz <=? u32 (MaxKeyLen mc)).

Definition IsValidValueSize (mc : MCConfig) (vsz : Z) : bool :=
  vsz <=? u32 (BodyMax mc).

(** ** The store configuration *)

Definition KHASH_LENS : list Z := [8; 8; 7; 7; 6; 6; 5; 5].

Record HStoreConfig := mkHStoreConfig {
  (* DBRouteConfig *)
  NumBucket : Z;
  BucketsStat : list Z;
  (* DataConfig *)
  FlushWake : Z;
  DataFileMax : Z;
  CheckVHash : bool;
  FlushInterval : Z;
  NoGCDays : Z;
  NotCompress : list bytes;
  (* HintConfig *)
  NoMerged : bool;
  MergeInterval : Z;
  IndexIntervalSize : Z;
  SplitCap : Z;
  (* HTreeConfig *)
  TreeHeight : Z;
  TreeDump : Z;
  (* HtreeDerivedConfig *)
  TreeDepth : Z;
  TreeKeyHashMask : Z;
  TreeKeyHashLen : Z
}.

(** [InitDefault] followed by [InitSizesPointer], before [InitTree]. *)
Definition DefaultHStoreConfig : HStoreConfig := {|
  NumBucket := 16;
  BucketsStat := replicate 16 1;
  FlushWake := (StrToSize (bstr "0")).1;
  DataFileMax := (StrToSize (bstr "4000M")).1;
  CheckVHash := false;
  FlushInterval := 0;
  NoGCDays := 0;
  NotCompress := [bstr "audio/wave"; bstr "audio/mpeg"];
  NoMerged := false;
  MergeInterval := 1;
  IndexIntervalSize := (StrToSize (bstr "4K")).1;
  SplitCap := (StrToSize (bstr "1M")).1;
  TreeHeight := 3;
  TreeDump := 3;
  TreeDepth := 0;
  TreeKeyHashMask := 0;
  TreeKeyHashLen := 0
|}.

Definition with_tree (c : HStoreConfig) (depth len mask : Z) : HStoreConfig := {|
  NumBucket := NumBucket c; BucketsStat := BucketsStat c; FlushWake := FlushWake c;
  DataFileMax := DataFileMax c; CheckVHash := CheckVHash c; FlushInterval := FlushInterval c;
  NoGCDays := NoGCDays c; NotCompress := NotCompress c; NoMerged := NoMerged c;
  MergeInterval := MergeInterval c; IndexIntervalSize := IndexIntervalSize c;
  SplitCap := SplitCap c; TreeHeight := TreeHeight c; TreeDump := TreeDump c;
  TreeDepth := depth; TreeKeyHashMask := mask; TreeKeyHashLen := len |}.

(** [for n > 1 { TreeDepth += 1; n /= 16 }]; an int64 is below [16^16]. *)
Fixpoint tree_depth_loop (fuel : nat) (n depth : Z) : Z :=
  match fuel with
  | O => depth
  | S fuel => if 1 <? n then tree_depth_loop fuel (Z.quot n 16) (depth + 1) else depth
  end.

Definition khash_mask (len : Z) : Z :=
  let shift := u32 (64 - u32 (len * 8)) in
  Z.shiftr (u64 (Z.shiftl 0xffffffffffffffff shift)) shift.

Definition InitTree (c : HStoreConfig) : option HStoreConfig :=
  let depth := tree_depth_loop 17 (NumBucket c) 0 in
  len ← zget KHASH_LENS (depth + TreeHeight c - 1);
  Some (with_tree c depth len (khash_mask len)).

(** [GetBucketDir]: [None] is the panic on a bucket count that is not 1, 16 or 256. *)
Definition GetBucketDir (numBucket bucketID : Z) : option bytes :=
  if numBucket =? 1 then Some []
  else if numBucket =? 16 then Some (fmt_uint 16 bucketID)
  else if numBucket =? 256 then
    Some (fmt_uint 16 (bucketID `quot` 16) ++ bstr "/" ++ fmt_uint 16 (bucketID `rem` 16))
  else None.

Definition BucketIDHex (id numBucket : Z) : bytes :=
  if numBucket =? 16 then fmt_uint 16 id
  else if numBucket =? 256 then pad0 2 (fmt_uint 16 id)
  else bstr "0".

(** ** Well-formed configurations

    [tree_conf c depth height]: the tree parameters are those [InitTree]
    computes for a tree whose root is at level [depth] and which has [height]
    levels, as [newHTree] requires ([depth + height <= MAX_DEPTH]). *)

Definition MAX_DEPTH : Z := 8.

Record tree_conf (c : HStoreConfig) : Prop := {
  tc_depth : 0 <= TreeDepth c;
  tc_height : 1 <= TreeHeight c;
  tc_max : TreeDepth c + TreeHeight c <= MAX_DEPTH;
  tc_len : zget KHASH_LENS (TreeDepth c + TreeHeight c - 1) = Some (TreeKeyHashLen c);
  tc_mask : TreeKeyHashMask c = khash_mask (TreeKeyHashLen c)
}.

Lemma KHASH_LENS_cover n len :
  zget KHASH_LENS n = Some len → 5 <= len <= 8 ∧ 64 - 4 * n <= 8 * len.
Proof.
  intros H. pose proof (zget_Some_lt _ _ _ H) as Hn. unfold zlen, KHASH_LENS in Hn. simpl in Hn.
  assert (n = 0 ∨ n = 1 ∨ n = 2 ∨ n = 3 ∨ n = 4 ∨ n = 5 ∨ n = 6 ∨ n = 7) as Hc by lia.
  destruct Hc as [->|[->|[->|[->|[->|[->|[->| ->]]]]]]];
    vm_compute in H; injection H as <-; lia.
Qed.

Lemma khash_mask_ones len : 5 <= len <= 8 → khash_mask len = Z.ones (8 * len).
Proof.
  intros. assert (len = 5 ∨ len = 6 ∨ len = 7 ∨ len = 8) as [->|[->|[->| ->]]] by lia; done.
Qed.

Lemma tree_conf_len c :
  tree_conf c → 5 <= TreeKeyHashLen c <= 8
    ∧ 64 <= 8 * TreeKeyHashLen c + 4 * (TreeDepth c + TreeHeight c - 1).
Proof. intros [Hd Hh Hm Hl Hmask]. apply KHASH_LENS_cover in Hl. lia. Qed.

Lemma tree_depth_16 k :
  (k <= 15)%nat → tree_depth_loop 17 (16 ^ Z.of_nat k) 0 = Z.of_nat k.
Proof.
  intros Hk. do 16 (destruct k as [|k]; [by vm_compute|]). lia.
Qed.

Lemma InitTree_conf c c' k :
  NumBucket c = 16 ^ Z.of_nat k → (k <= 15)%nat → 1 <= TreeHeight c →
  InitTree c = Some c' → tree_conf c' ∧ TreeDepth c' = Z.of_nat k.
Proof.
  intros Hn Hk Hh. unfold InitTree. rewrite Hn, tree_depth_16 by done.
  destruct (zget KHASH_LENS _) as [len|] eqn:Hl; [|done]. intros [= <-].
  pose proof (zget_Some_lt _ _ _ Hl) as Hlt. unfold zlen, KHASH_LENS in Hlt. simpl in Hlt.
  split; [|done]. split; simpl; [lia|done|unfold MAX_DEPTH; lia|done|done].
Qed.

(** ** Size strings round trip *)

Lemma size_shift_spec fuel n i n' i' :
  size_shift fuel n i = (n', i') → i <= i' ∧ n = n' * 1024 ^ (i' - i).
Proof.
  revert n i. induction fuel as [|fuel IH]; intros n i; simpl.
  - intros [= <- <-]. rewrite Z.sub_diag. lia.
  - destruct (Z.eqb_spec (Z.land n 1023) 0) as [Hz|].
    + intros [Hle Heq]%IH. split; [lia|].
      replace (i' - i) with (Z.succ (i' - (i + 1))) by lia.
      rewrite Z.pow_succ_r by lia.
      rewrite Z.shiftr_div_pow2 in Heq by lia. change (2 ^ 10) with 1024 in Heq.
      change 1023 with (Z.ones 10) in Hz. rewrite Z.land_ones in Hz by lia.
      change (2 ^ 10) with 1024 in Hz. pose proof (Z.div_mod n 1024). nia.
    + intros [= <- <-]. rewrite Z.sub_diag. lia.
Qed.

Lemma ParseInt_Itoa bits n :
  2 <= bits <= 64 → 0 <= n < 2 ^ (bits - 1) → ParseInt (Itoa n) 10 bits = (n, None).
Proof.
  intros Hbits Hn. unfold ParseInt. destruct (Z.eqb_spec bits 0); [lia|].
  assert (2 ^ (bits - 1) < 2 ^ bits) by (apply Z.pow_lt_mono_r; lia).
  unfold Itoa. destruct (Z.ltb_spec n 0); [lia|].
  destruct (fmt_digits_head (S (Z.to_nat (Z.log2 n))) 10 n) as (c & s & Heq & H43 & H45);
    [lia..|].
  unfold fmt_uint. rewrite Heq. apply Z.eqb_neq in H43, H45. rewrite H43, H45. cbn [orb].
  rewrite <- Heq. fold (fmt_uint 10 n). rewrite ParseUint_fmt by lia. cbn [negb andb].
  destruct (Z.leb_spec (2 ^ (bits - 1)) n); [lia|]. done.
Qed.

Lemma last_num_char s c : Forall is_num_char s → last s = Some c → sizemap c = None.
Proof.
  intros Hs [l ->]%last_Some. apply Forall_app in Hs as [_ Hs].
  apply Forall_cons in Hs as [Hc _]. unfold sizemap, is_num_char in *.
  destruct (Z.eqb_spec c 75), (Z.eqb_spec c 107), (Z.eqb_spec c 77), (Z.eqb_spec c 109),
    (Z.eqb_spec c 71), (Z.eqb_spec c 103); simpl; lia || done.
Qed.

Lemma StrToSize_unit n unit p :
  0 <= n < 2 ^ 31 → sizemap unit = Some p →
  StrToSize (Itoa n ++ [unit]) = (i64 (n * p), None).
Proof.
  intros Hn Hu. unfold StrToSize. rewrite last_snoc, Hu, length_app. simpl length.
  replace (length (Itoa n) + 1 - 1)%nat with (length (Itoa n)) by lia.
  rewrite take_app_length, ParseInt_Itoa by lia. done.
Qed.

Lemma StrToSize_plain n : 0 <= n < 2 ^ 31 → StrToSize (Itoa n) = (n, None).
Proof.
  intros Hn. unfold StrToSize. destruct (last (Itoa n)) as [u|] eqn:Hl.
  - rewrite (last_num_char _ _ (Itoa_chars n) Hl), ParseInt_Itoa by lia. done.
  - apply last_None in Hl. by apply Itoa_nonempty in Hl.
Qed.

(** Printing a size and reading it back gives the size: [StrToSize] inverts
    [SizeToStr] on every positive size below 2 GB. *)
Theorem size_round_trip n s :
  0 < n < 2 ^ 31 → SizeToStr n = Some s → StrToSize s = (n, None).
Proof.
  intros Hn. unfold SizeToStr. destruct (Z.eqb_spec n 0); [lia|].
  destruct (size_shift 7 n 0) as [n' i] eqn:Hs. apply size_shift_spec in Hs as [Hi Heq].
  rewrite Z.sub_0_r in Heq.
  destruct (zget size_units i) as [u|] eqn:Hu; simpl; [|done]. intros [= <-].
  pose proof (zget_Some_lt _ _ _ Hu) as Hlt. unfold zlen in Hlt. simpl in Hlt.
  assert (0 < n' < 2 ^ 31) by (assert (0 < 1024 ^ i) by lia; nia).
  assert (i = 0 ∨ i = 1 ∨ i = 2 ∨ i = 3) as Hc by lia.
  destruct Hc as [->|[->|[->| ->]]]; vm_compute in Hu; injection Hu as <-.
  - rewrite app_nil_r, StrToSize_plain by lia. f_equal. lia.
  - rewrite (StrToSize_unit _ _ 1024) by (done || lia). f_equal. width.
  - rewrite (StrToSize_unit _ _ (1024 * 1024)) by (done || lia). f_equal. width.
  - rewrite (StrToSize_unit _ _ (1024 * 1024 * 1024)) by (done || lia). f_equal. width.
Qed.

Lemma size_round_trip_witness : StrToSize (bstr "4M") = (4194304, None).
Proof. apply (size_round_trip 4194304); [lia|by vm_compute]. Defined.
