(* ===== verification/Key.v ===== *)
(** * Keys and key paths (src/store/key.go)

    A key is hashed to 64 bits; the hash read as 16 hexadecimal digits is the
    path of the key in the tree of buckets and, below, in the bucket's own
    tree. A listing request names a path directly ([KeyIsPath]). *)

From S2P Require Import Prelude Strconv Config.

(** ** Runes of a Go string ([for _, r := range key]) *)

Definition RuneError : Z := 0xFFFD.

Definition in_range (lo hi x : Z) : bool := (lo <=? x) && (x <=? hi).
Definition is_cont (x : Z) : bool := in_range 0x80 0xBF x.

(** The value and the width of the first rune of a nonempty string; an invalid
    encoding is [RuneError] of width 1. *)
Definition decode_rune (b0 : Z) (rest : bytes) : Z * nat :=
  if b0 <? 0x80 then (b0, 1%nat)
  else if in_range 0xC2 0xDF b0 then
    match rest with
    | b1 :: _ =>
        if is_cont b1 then (Z.lor (Z.shiftl (Z.land b0 0x1F) 6) (Z.land b1 0x3F), 2%nat)
        else (RuneError, 1%nat)
    | _ => (RuneError, 1%nat)
    end
  else if in_range 0xE0 0xEF b0 then
    match rest with
    | b1 :: b2 :: _ =>
        let ok1 := if b0 =? 0xE0 then in_range 0xA0 0xBF b1
                   else if b0 =? 0xED then in_range 0x80 0x9F b1 else is_cont b1 in
        if ok1 && is_cont b2 then
          (Z.lor (Z.lor (Z.shiftl (Z.land b0 0x0F) 12) (Z.shiftl (Z.land b1 0x3F) 6))
                 (Z.land b2 0x3F), 3%nat)
        else (RuneError, 1%nat)
    | _ => (RuneError, 1%nat)
    end
  else if in_range 0xF0 0xF4 b0 then
    match rest with
    | b1 :: b2 :: b3 :: _ =>
        let ok1 := if b0 =? 0xF0 then in_range 0x90 0xBF b1
                   else if b0 =? 0xF4 then in_range 0x80 0x8F b1 else is_cont b1 in
        if ok1 && is_cont b2 && is_cont b3 then
          (Z.lor (Z.lor (Z.lor (Z.shiftl (Z.land b0 0x07) 18) (Z.shiftl (Z.land b1 0x3F) 12))
                        (Z.shiftl (Z.land b2 0x3F) 6)) (Z.land b3 0x3F), 4%nat)
        else (RuneError, 1%nat)
    | _ => (RuneError, 1%nat)
    end
  else (RuneError, 1%nat).

(** The runes of a string; every rune is at least one byte wide, so the length
    of the string is enough fuel. *)
Fixpoint runes_fuel (fuel : nat) (s : bytes) : list Z :=
  match fuel, s with
  | S fuel, b0 :: rest =>
      let '(r, w) := decode_rune b0 rest in r :: runes_fuel fuel (drop w s)
  | _, _ => []
  end.
Definition runes (s : bytes) : list Z := runes_fuel (length s) s.

(** [unicode.IsControl] and [unicode.IsSpace]. *)
Definition IsControl (r : Z) : bool := in_range 0 0x1F r || in_range 0x7F 0x9F r.
Definition IsSpace (r : Z) : bool :=
  in_range 0x09 0x0D r || (r =? 0x20) || (r =? 0x85) || (r =? 0xA0) || (r =? 0x1680)
  || in_range 0x2000 0x200A r || in_range 0x2028 0x2029 r || (r =? 0x202F)
  || (r =? 0x205F) || (r =? 0x3000).

Definition MAX_KEY_LEN : Z := 250.

Definition IsValidKeyString (key : bytes) : bool :=
  let length := zlen key in
  if (length =? 0) || (MAX_KEY_LEN <? length) then false
  else
    match key with
    | [] => false
    | k0 :: _ =>
        if (k0 <=? 32) || (k0 =? 63) || (k0 =? 64) then false
        else forallb (λ r, negb (IsControl r || IsSpace r)) (runes key)
    end.

(** ** Key information *)

Record KeyInfo := mkKeyInfo {
  ki_KeyHash : Z;
  ki_KeyIsPath : bool;
  ki_Key : bytes;
  ki_StringKey : bytes;
  ki_KeyPath : list Z;
  ki_BucketID : Z
}.

Definition ki_with_path (ki : KeyInfo) (hash : Z) (path : list Z) (bucket : Z) : KeyInfo :=
  mkKeyInfo hash (ki_KeyIsPath ki) (ki_Key ki) (ki_StringKey ki) path bucket.

(** The [i]-th digit: [int((khash >> shift)) & 0xf] with [shift = 4*(15-i)]. *)
Definition path_digit (khash : Z) (i : nat) : Z :=
  Z.land (i64 (Z.shiftr khash (4 * (15 - Z.of_nat i)))) 0xf.

Definition ParsePathUint64 (khash : Z) : list Z := path_digit khash <$> seq 0 16.

Fixpoint parse_path_chars (s : bytes) : list Z + num_err :=
  match s with
  | [] => inl []
  | c :: s =>
      match ParseInt [c] 16 0 with
      | (_, Some e) => inr e
      | (d, None) =>
          match parse_path_chars s with
          | inl p => inl (d :: p)
          | inr e => inr e
          end
      end
  end.

(** [buf[:len(pathStr)]] panics when the path is longer than the 16-element
    buffer. On an error the returned path is nil. *)
Definition ParsePathString (pathStr : bytes) : option (list Z * option num_err) :=
  if 16 <? zlen pathStr then None
  else match parse_path_chars pathStr with
       | inl p => Some (p, None)
       | inr e => Some ([], Some e)
       end.

(** [setKeyHashByPath]: or the digits in from bit 60 downwards. *)
Fixpoint hash_of_path (v : list Z) (shift acc : Z) : Z :=
  match v with
  | [] => acc
  | d :: v => hash_of_path v (shift - 4) (Z.lor acc (u64 (Z.shiftl (u64 d) shift)))
  end.
Definition setKeyHashByPath (path : list Z) : Z := hash_of_path path 60 0.

(** [BucketID] from the first [TreeDepth] digits. *)
Definition bucket_of_path (v : list Z) : Z := foldl (λ b d, Z.shiftl b 4 + d) 0 v.

(** [Prepare]: [None] is a panic; the second component is the returned error. *)
Definition Prepare (Conf : HStoreConfig) (ki : KeyInfo) : option (KeyInfo * option num_err) :=
  if ki_KeyIsPath ki then
    '(path, err) ← ParsePathString (ki_StringKey ki);
    let hash := setKeyHashByPath path in
    if zlen path <? TreeDepth Conf then Some (ki_with_path ki hash path (-1), err)
    else
      top ← zslice path 0 (TreeDepth Conf);
      Some (ki_with_path ki hash path (bucket_of_path top), err)
  else
    let path := ParsePathUint64 (ki_KeyHash ki) in
    top ← zslice path 0 (TreeDepth Conf);
    Some (ki_with_path ki (ki_KeyHash ki) path (bucket_of_path top), None).

Definition NewKeyInfoFromBytes (Conf : HStoreConfig) (key : bytes) (keyhash : Z)
    (keyIsPath : bool) : option KeyInfo :=
  '(ki, _) ← Prepare Conf (mkKeyInfo keyhash keyIsPath key key [] 0);
  Some ki.

(** A prepared key: what [Prepare] leaves for a key addressed by its hash. *)
Record prepared (Conf : HStoreConfig) (ki : KeyInfo) : Prop := {
  pr_hash : is_u64 (ki_KeyHash ki);
  pr_path : ki_KeyPath ki = ParsePathUint64 (ki_KeyHash ki)
}.

(** ** Digits *)

Lemma pow16 e : 0 <= e → 16 ^ e = 2 ^ (4 * e).
Proof. intros. change 16 with (2 ^ 4). by rewrite <- Z.pow_mul_r by lia. Qed.

Lemma path_digit_alt khash i :
  (i < 16)%nat → path_digit khash i = khash / 16 ^ (15 - Z.of_nat i) mod 16.
Proof.
  intros Hi. unfold path_digit.
  match goal with |- Z.land ?x _ = _ => change (Z.land x 0xf) with (Z.land x (Z.ones 4)) end.
  rewrite Z.land_ones, Z.shiftr_div_pow2 by lia.
  rewrite <- pow16 by lia. change (2 ^ 4) with 16.
  generalize (khash / 16 ^ (15 - Z.of_nat i)) as x. intros x. unfold i64.
  Z.div_mod_to_equations. lia.
Qed.

Lemma path_digit_range khash i : (i < 16)%nat → 0 <= path_digit khash i < 16.
Proof. intros. rewrite path_digit_alt by done. apply Z.mod_pos_bound. lia. Qed.

Lemma length_ParsePathUint64 khash : length (ParsePathUint64 khash) = 16%nat.
Proof. done. Qed.

Lemma lookup_ParsePathUint64 khash i :
  (i < 16)%nat → ParsePathUint64 khash !! i = Some (path_digit khash i).
Proof. intros. unfold ParsePathUint64. rewrite list_lookup_fmap, lookup_seq_lt by done. done. Qed.

Lemma ParsePathUint64_digits khash : Forall (λ d, 0 <= d < 16) (ParsePathUint64 khash).
Proof.
  apply Forall_lookup. intros i d Hi.
  pose proof (lookup_lt_Some _ _ _ Hi) as Hlt. rewrite length_ParsePathUint64 in Hlt.
  rewrite lookup_ParsePathUint64 in Hi by done. injection Hi as <-.
  by apply path_digit_range.
Qed.

(** The number a list of digits denotes. *)
Definition digits_val (v : list Z) : Z := foldl (λ a d, 16 * a + d) 0 v.

Lemma bucket_of_path_val v : bucket_of_path v = digits_val v.
Proof.
  unfold bucket_of_path, digits_val. generalize 0 as a.
  induction v as [|d v IH]; intros a; [done|]. cbn [foldl].
  rewrite Z.shiftl_mul_pow2 by lia. change (2 ^ 4) with 16. rewrite (Z.mul_comm a). apply IH.
Qed.

Lemma digits_val_snoc v d : digits_val (v ++ [d]) = 16 * digits_val v + d.
Proof. unfold digits_val. by rewrite foldl_app. Qed.

(** The first [n] digits denote the [n] most significant nibbles. *)
Lemma digits_val_take khash n :
  is_u64 khash → (n <= 16)%nat →
  digits_val (take n (ParsePathUint64 khash)) = khash / 16 ^ (16 - Z.of_nat n).
Proof.
  intros Hk. induction n as [|n IH]; intros Hn.
  - simpl. unfold digits_val. simpl. change (16 ^ 16) with (2 ^ 64).
    rewrite Z.div_small; [done|]. width.
  - rewrite (take_S_r _ _ (path_digit khash n)) by (apply lookup_ParsePathUint64; lia).
    rewrite digits_val_snoc, IH, path_digit_alt by lia.
    replace (16 - Z.of_nat n) with (15 - Z.of_nat n + 1) by lia.
    replace (16 - Z.of_nat (S n)) with (15 - Z.of_nat n) by lia.
    rewrite Z.pow_add_r, <- Z.div_div by lia. change (16 ^ 1) with 16.
    pose proof (Z.div_mod (khash / 16 ^ (15 - Z.of_nat n)) 16). lia.
Qed.

(** ** A path determines its hash, and back *)

Lemma lor_shift_add a d s :
  0 <= s → 0 <= d < 16 → 0 <= a → (2 ^ (s + 4) | a) → Z.lor a (Z.shiftl d s) = a + Z.shiftl d s.
Proof.
  intros Hs Hd Ha [q Hq]. symmetry.
  assert (Z.land a (Z.shiftl d s) = 0) as Hl.
  { apply Z.bits_inj'. intros n Hn. rewrite Z.land_spec, Z.bits_0, Z.shiftl_spec by lia.
    destruct (Z.ltb_spec n (s + 4)).
    - subst a. rewrite Z.mul_pow2_bits_low by lia. done.
    - replace (Z.testbit d (n - s)) with false; [apply andb_false_r|].
      symmetry. destruct (Z.eq_dec d 0) as [->|]; [apply Z.bits_0|].
      apply Z.bits_above_log2; [lia|].
      apply Z.le_lt_trans with 3; [|lia]. change 3 with (Z.log2 15). apply Z.log2_le_mono. lia. }
  rewrite <- Z.lxor_lor by done. by apply Z.add_nocarry_lxor.
Qed.

Lemma hash_of_path_spec v n acc :
  (length v <= n)%nat → Forall (λ d, 0 <= d < 16) v → 0 <= acc →
  16 ^ Z.of_nat n * (acc / 16 ^ Z.of_nat n) = acc → (n <= 16)%nat →
  hash_of_path v (4 * Z.of_nat n - 4) acc
  = acc + digits_val v * 16 ^ (Z.of_nat n - zlen v).
Proof.
  revert n acc. induction v as [|d v IH]; intros n acc Hlen Hv Hacc Hdiv Hn.
  { simpl. unfold digits_val. simpl. lia. }
  apply Forall_cons in Hv as [Hd Hv]. cbn [length] in Hlen. destruct n as [|n]; [lia|].
  cbn [hash_of_path].
  replace (4 * Z.of_nat (S n) - 4) with (4 * Z.of_nat n) by lia.
  assert (u64 d = d) as -> by width.
  assert (Hsh : Z.shiftl d (4 * Z.of_nat n) = d * 16 ^ Z.of_nat n).
  { by rewrite Z.shiftl_mul_pow2, pow16 by lia. }
  assert (16 ^ Z.of_nat (S n) = 16 * 16 ^ Z.of_nat n) as Hpow
    by (rewrite Nat2Z.inj_succ, Z.pow_succ_r; lia).
  assert (0 < 16 ^ Z.of_nat n) by lia.
  assert (16 ^ Z.of_nat n <= 16 ^ 15) by (apply Z.pow_le_mono_r; lia).
  assert (u64 (Z.shiftl d (4 * Z.of_nat n)) = d * 16 ^ Z.of_nat n) as ->.
  { rewrite Hsh. apply u64_small. unfold is_u64. change (2 ^ 64) with (16 * 16 ^ 15). nia. }
  rewrite <- Hsh, lor_shift_add; [|lia|done|done|].
  2: { exists (acc / 16 ^ Z.of_nat (S n)). rewrite Z.mul_comm.
       replace (2 ^ (4 * Z.of_nat n + 4)) with (16 ^ Z.of_nat (S n)); [lia|].
       rewrite pow16 by lia. f_equal. lia. }
  rewrite Hsh.
  rewrite (IH n) by (try done; try lia; try nia;
    assert (acc + d * 16 ^ Z.of_nat n
      = (16 * (acc / 16 ^ Z.of_nat (S n)) + d) * 16 ^ Z.of_nat n) as -> by nia;
    rewrite Z.div_mul by lia; lia).
  assert (Hval : ∀ a, foldl (λ a d, 16 * a + d) a v = a * 16 ^ zlen v + digits_val v).
  { clear. unfold digits_val, zlen. induction v as [|e v IHv] using rev_ind; intros a; [simpl; lia|].
    rewrite !foldl_app. simpl. rewrite IHv, length_app, Nat2Z.inj_add, Z.pow_add_r by lia.
    simpl length. change (16 ^ Z.of_nat 1) with 16. lia. }
  unfold digits_val at 2. cbn [foldl]. rewrite Z.mul_0_r, Z.add_0_l, Hval.
  unfold zlen in *. cbn [length] in *.
  replace (Z.of_nat (S n) - Z.of_nat (S (length v))) with (Z.of_nat n - Z.of_nat (length v)) by lia.
  rewrite Z.mul_add_distr_r, <- Z.mul_assoc, <- Z.pow_add_r by lia.
  replace (Z.of_nat (length v) + (Z.of_nat n - Z.of_nat (length v))) with (Z.of_nat n) by lia. lia.
Qed.

Lemma setKeyHashByPath_val v :
  (length v <= 16)%nat → Forall (λ d, 0 <= d < 16) v →
  setKeyHashByPath v = digits_val v * 16 ^ (16 - zlen v).
Proof.
  intros Hl Hv. unfold setKeyHashByPath. change 60 with (4 * Z.of_nat 16 - 4).
  rewrite (hash_of_path_spec v 16) by (done || lia). lia.
Qed.

(** The digits of a key's path determine its hash: splitting a 64-bit hash
    into the 16 path digits and assembling the hash from them gives it back. *)
Theorem path_hash_round_trip khash :
  is_u64 khash → setKeyHashByPath (ParsePathUint64 khash) = khash.
Proof.
  intros Hk. rewrite setKeyHashByPath_val by (apply ParsePathUint64_digits || done).
  rewrite <- (firstn_all (ParsePathUint64 khash)), length_ParsePathUint64.
  rewrite digits_val_take by done. unfold zlen. rewrite length_take, length_ParsePathUint64.
  simpl. rewrite Z.div_1_r. lia.
Qed.

(** The bucket of a key is given by the top digits of its hash, and is a valid
    bucket number. *)
Lemma Prepare_bucket Conf ki :
  ki_KeyIsPath ki = false → is_u64 (ki_KeyHash ki) → 0 <= TreeDepth Conf <= 16 →
  ∃ ki', Prepare Conf ki = Some (ki', None) ∧ prepared Conf ki'
    ∧ ki_KeyHash ki' = ki_KeyHash ki
    ∧ ki_BucketID ki' = ki_KeyHash ki / 16 ^ (16 - TreeDepth Conf)
    ∧ 0 <= ki_BucketID ki' < 16 ^ TreeDepth Conf.
Proof.
  intros Hp Hk Hd. unfold Prepare. rewrite Hp. unfold zslice.
  unfold zlen. rewrite length_ParsePathUint64.
  destruct (Z.leb_spec 0 0); [|lia]. destruct (Z.leb_spec 0 (TreeDepth Conf)); [|lia].
  destruct (Z.leb_spec (TreeDepth Conf) (Z.of_nat 16)); [|lia]. cbn [andb].
  eexists. split; [done|]. split; [by split|]. split; [done|].
  cbn [ki_with_path ki_BucketID]. rewrite bucket_of_path_val, drop_0, Z.sub_0_r.
  rewrite digits_val_take by (done || lia).
  rewrite Z2Nat.id by lia. split; [done|]. split; [apply Z.div_pos; width|].
  apply Z.div_lt_upper_bound; [lia|]. rewrite <- Z.pow_add_r by lia.
  replace (16 - TreeDepth Conf + TreeDepth Conf) with 16 by lia. width.
Qed.

(** ** Valid keys cannot be confused with protocol text *)

(** The bytes a rune consumes after its first one are not ASCII. *)
Lemma decode_rune_width b0 rest r w :
  decode_rune b0 rest = (r, w) →
  (1 <= w)%nat ∧ Forall (λ c, 0x80 <= c) (take (w - 1) rest) ∧ (b0 < 0x80 → r = b0).
Proof.
  unfold decode_rune, is_cont, in_range. intros H.
  repeat case_match; simplify_eq; simpl; repeat split; try lia; try (by constructor);
    repeat (apply Forall_cons; split); try apply Forall_nil; try done;
    repeat match goal with H : (_ && _) = true |- _ => apply andb_true_iff in H as [? ?] end; lia.
Qed.

Lemma runes_fuel_ascii fuel s c :
  (length s <= fuel)%nat → c ∈ s → c < 0x80 → c ∈ runes_fuel fuel s.
Proof.
  revert s. induction fuel as [|fuel IH]; intros [|b0 rest] Hlen Hin Hc;
    [by apply not_elem_of_nil in Hin|simpl in Hlen; lia|by apply not_elem_of_nil in Hin|].
  simpl in Hlen. cbn [runes_fuel].
  destruct (decode_rune b0 rest) as [r w] eqn:Hdec.
  apply decode_rune_width in Hdec as (Hw & Hcont & Hr).
  apply elem_of_cons in Hin as [->|Hin]; [rewrite Hr by done; by left|].
  right. destruct w as [|w]; [lia|]. cbn [drop]. replace (S w - 1)%nat with w in Hcont by lia.
  apply IH; [rewrite length_drop; lia| |done].
  rewrite <- (take_drop w rest) in Hin. apply elem_of_app in Hin as [Hin|Hin]; [|done].
  rewrite Forall_forall in Hcont. specialize (Hcont _ Hin). lia.
Qed.

(** C35. A key that [IsValidKeyString] accepts can be written into a protocol line
    and a listing: it has 1 to 250 bytes, none of them a control character, a
    space or a line break, whatever its encoding, and it does not start with the
    characters that mark the special keys. *)
Theorem valid_key_bytes key :
  is_bytes key → IsValidKeyString key = true →
  0 < zlen key <= MAX_KEY_LEN ∧ Forall (λ c, 32 < c ∧ c ≠ 127) key
  ∧ head key ≠ Some 63 ∧ head key ≠ Some 64.
Proof.
  intros Hb. unfold IsValidKeyString.
  destruct (Z.eqb_spec (zlen key) 0); [done|].
  destruct (Z.ltb_spec MAX_KEY_LEN (zlen key)); [done|]. cbn [orb].
  destruct key as [|k0 key]; [done|].
  destruct (Z.leb_spec k0 32); [done|]. destruct (Z.eqb_spec k0 63); [done|].
  destruct (Z.eqb_spec k0 64); [done|]. cbn [orb].
  rewrite forallb_forall. intros Hall.
  split; [pose proof (zlen_nonneg (k0 :: key)); lia|].
  split; [|by split; intros [= ->]].
  apply Forall_forall. intros c Hc. destruct (Z.ltb_spec c 0x80); [|lia].
  specialize (Hall c). rewrite <- list_elem_of_In in Hall.
  specialize (Hall (runes_fuel_ascii _ _ _ (le_n _) Hc H1)).
  unfold is_bytes in Hb. rewrite Forall_forall in Hb. specialize (Hb _ Hc).
  unfold IsControl, IsSpace, in_range in Hall. width.
Qed.

Lemma path_hash_round_trip_witness :
  setKeyHashByPath (ParsePathUint64 0x123456789abcdef0) = 0x123456789abcdef0.
Proof. apply path_hash_round_trip. by vm_compute. Defined.

Lemma valid_key_bytes_witness :
  0 < zlen (bstr "hello") <= MAX_KEY_LEN ∧ Forall (λ c, 32 < c ∧ c ≠ 127) (bstr "hello")
  ∧ head (bstr "hello") ≠ Some 63 ∧ head (bstr "hello") ≠ Some 64.
Proof.
  apply (valid_key_bytes (bstr "hello")); [|by vm_compute]. repeat (constructor; [by vm_compute|]). constructor.
Defined.
