(* ===== verification/Cmem.v ===== *)
(** * Memory accounting (src/cmem/cmem.go, src/cmem/beansdb.go)

    Values are kept in [CArray]s, allocated by Go below [BodyInC] bytes and by
    C's [malloc] above. Four process-wide [ResourceLimiter]s count what is being
    read, set, waiting to be flushed, and allocated in C. The C allocator is a
    parameter: the address it returns for a size (0 on failure) and what the
    fresh memory holds. *)

From S2P Require Import Prelude Config.

Record ResourceLimiter := mkRL {
  rl_Count : Z;
  rl_Size : Z;
  rl_MaxCount : Z;
  rl_MaxSize : Z
}.

Definition rl_reset : ResourceLimiter := mkRL 0 0 0 0.
Definition rl_IsZero (rl : ResourceLimiter) : bool := (rl_Count rl =? 0) && (rl_Size rl =? 0).

Definition AddSize (rl : ResourceLimiter) (size : Z) : ResourceLimiter :=
  let s := i64 (rl_Size rl + size) in
  mkRL (rl_Count rl) s (rl_MaxCount rl) (if rl_MaxSize rl <? s then s else rl_MaxSize rl).
Definition SubSize (rl : ResourceLimiter) (size : Z) : ResourceLimiter :=
  mkRL (rl_Count rl) (i64 (rl_Size rl - size)) (rl_MaxCount rl) (rl_MaxSize rl).
Definition AddCount (rl : ResourceLimiter) (count : Z) : ResourceLimiter :=
  let c := i64 (rl_Count rl + count) in
  mkRL c (rl_Size rl) (if rl_MaxCount rl <? c then c else rl_MaxCount rl) (rl_MaxSize rl).
Definition SubCount (rl : ResourceLimiter) (count : Z) : ResourceLimiter :=
  mkRL (i64 (rl_Count rl - count)) (rl_Size rl) (rl_MaxCount rl) (rl_MaxSize rl).
Definition AddSizeAndCount (rl : ResourceLimiter) (size : Z) : ResourceLimiter :=
  AddCount (AddSize rl size) 1.
Definition SubSizeAndCount (rl : ResourceLimiter) (size : Z) : ResourceLimiter :=
  SubCount (SubSize rl size) 1.

(** The limiters of the process ([DBRL], with [AllocRL]). *)
Record BeansdbRL := mkDBRL {
  AllocRL : ResourceLimiter;
  GetData : ResourceLimiter;
  SetData : ResourceLimiter;
  FlushData : ResourceLimiter
}.

Definition ResetAll : BeansdbRL := mkDBRL rl_reset rl_reset rl_reset rl_reset.
Definition IsZero (r : BeansdbRL) : bool :=
  rl_IsZero (FlushData r) && rl_IsZero (SetData r) && rl_IsZero (GetData r)
  && rl_IsZero (AllocRL r).

Definition on_alloc (f : ResourceLimiter → ResourceLimiter) (r : BeansdbRL) : BeansdbRL :=
  mkDBRL (f (AllocRL r)) (GetData r) (SetData r) (FlushData r).
Definition on_get (f : ResourceLimiter → ResourceLimiter) (r : BeansdbRL) : BeansdbRL :=
  mkDBRL (AllocRL r) (f (GetData r)) (SetData r) (FlushData r).
Definition on_set (f : ResourceLimiter → ResourceLimiter) (r : BeansdbRL) : BeansdbRL :=
  mkDBRL (AllocRL r) (GetData r) (f (SetData r)) (FlushData r).
Definition on_flush (f : ResourceLimiter → ResourceLimiter) (r : BeansdbRL) : BeansdbRL :=
  mkDBRL (AllocRL r) (GetData r) (SetData r) (f (FlushData r)).

(** ** Arrays *)

Record CHeap := mkCHeap { malloc : Z → Z; fresh_bytes : Z → bytes }.

Record CArray := mkCArray { Body : bytes; Addr : Z; Cap : Z }.
Definition nilCArray : CArray := mkCArray [] 0 0.

(** [Alloc]: [None] is the panic of [make([]byte, size)] on a negative size; the
    boolean is the result. *)
Definition Alloc (mc : MCConfig) (H : CHeap) (size : Z) (r : BeansdbRL)
    : option (CArray * bool * BeansdbRL) :=
  if size <=? BodyInC mc then
    if size <? 0 then None
    else Some (mkCArray (replicate (Z.to_nat size) 0) 0 size, true, r)
  else
    let a := malloc H size in
    if a =? 0 then Some (nilCArray, false, r)
    else Some (mkCArray (fresh_bytes H size) a size, true,
               on_alloc (λ rl, AddSizeAndCount rl size) r).

Definition Free (arr : CArray) (r : BeansdbRL) : CArray * BeansdbRL :=
  if Addr arr =? 0 then (arr, r)
  else (nilCArray, on_alloc (λ rl, SubSizeAndCount rl (Cap arr)) r).

(** [Copy]: the copy of a Go-allocated array keeps the zero value of [Cap]. *)
Definition Copy (mc : MCConfig) (H : CHeap) (arr : CArray) (r : BeansdbRL)
    : option (CArray * bool * BeansdbRL) :=
  let size := zlen (Body arr) in
  if Addr arr =? 0 then Some (mkCArray (Body arr) 0 0, true, r)
  else
    '(new, ok, r) ← Alloc mc H size r;
    if ok : bool then Some (mkCArray (Body arr) (Addr new) (Cap new), true, r)
    else Some (new, false, r).

(** Memory for [size] bytes is available. *)
Definition can_alloc (mc : MCConfig) (H : CHeap) (size : Z) : Prop :=
  size <= BodyInC mc ∨ malloc H size ≠ 0.

Lemma Alloc_ok mc H size r :
  0 <= size → can_alloc mc H size → ∃ kv r1, Alloc mc H size r = Some (kv, true, r1)
    ∧ GetData r1 = GetData r ∧ SetData r1 = SetData r ∧ FlushData r1 = FlushData r ∧ Cap kv = size.
Proof.
  intros Hs Hc. unfold Alloc. destruct (Z.leb_spec size (BodyInC mc)).
  - destruct (Z.ltb_spec size 0); [lia|]. eauto 10.
  - destruct Hc as [?|Hm%Z.eqb_neq]; [lia|]. rewrite Hm. eauto 10.
Qed.

(** ** Counting facts *)

Lemma i64_i64_add a b : i64 (i64 a + b) = i64 (a + b).
Proof. width. Qed.
Lemma i64_i64_sub a b : i64 (i64 a - b) = i64 (a - b).
Proof. width. Qed.

Lemma Size_AddSizeAndCount rl n : rl_Size (AddSizeAndCount rl n) = i64 (rl_Size rl + n).
Proof. done. Qed.
Lemma Size_SubSizeAndCount rl n : rl_Size (SubSizeAndCount rl n) = i64 (rl_Size rl - n).
Proof. done. Qed.
Lemma Count_AddSizeAndCount rl n : rl_Count (AddSizeAndCount rl n) = i64 (rl_Count rl + 1).
Proof. done. Qed.
Lemma Count_SubSizeAndCount rl n : rl_Count (SubSizeAndCount rl n) = i64 (rl_Count rl - 1).
Proof. done. Qed.

(** Two limiters that count the same load, whatever their high-water marks. *)
Definition same_load (a b : ResourceLimiter) : Prop :=
  rl_Count a = rl_Count b ∧ rl_Size a = rl_Size b.

#[export] Instance same_load_equiv : Equivalence same_load.
Proof. split; unfold same_load; repeat intro; naive_solver congruence. Qed.

Lemma add_sub_load rl n :
  is_i64 (rl_Count rl) → is_i64 (rl_Size rl) →
  same_load (SubSizeAndCount (AddSizeAndCount rl n) n) rl.
Proof.
  intros. split; [rewrite Count_SubSizeAndCount, Count_AddSizeAndCount
                 |rewrite Size_SubSizeAndCount, Size_AddSizeAndCount]; width.
Qed.

(** Memory accounting balances: freeing the array that [Alloc] returned brings
    the count and the size of the allocation limiter back to what they were, and
    the other limiters are not touched, for Go and for C memory alike. *)
Theorem alloc_free mc H size r arr r' :
  is_i64 (rl_Count (AllocRL r)) → is_i64 (rl_Size (AllocRL r)) →
  Alloc mc H size r = Some (arr, true, r') →
  same_load (AllocRL (Free arr r').2) (AllocRL r)
  ∧ GetData (Free arr r').2 = GetData r ∧ SetData (Free arr r').2 = SetData r
  ∧ FlushData (Free arr r').2 = FlushData r.
Proof.
  intros Hc Hs. unfold Alloc, Free.
  repeat case_match; intros; simplify_eq; simpl in *; try lia; try done.
  split; [|done]. by apply add_sub_load.
Qed.
