(* ===== verification/Item.v ===== *)
(** * Records, payloads and their compression

    src/store/item.go, with the header functions of src/quicklz/quicklz.go and
    the C wrapper src/quicklz/cquicklz.go. The C compressor, the content sniffer
    of net/http and the murmur3 hash are parameters ([Ext]). *)

From Stdlib Require Import SpecFloat.
From S2P Require Import Prelude Strconv Config Hashing Cmem.

(** ** Code outside the Go sources

    Among it QuickLZ, which the store calls in C (src/quicklz/quicklz.c). *)

Record Ext := mkExt {
  heap : CHeap;
  qlz_compress : bytes → bytes;
  qlz_decompress : bytes → bytes;
  DetectContentType : bytes → bytes;
  murmur : bytes → Z
}.

(** Errors the store returns. *)
Inductive StoreErr :=
  | ErrBadSizeCompressed | ErrAllocDecompress | ErrSizeDecompressed | ErrDecompressPanic
  | ErrOpen | ErrReadHead | ErrBadKeySize | ErrBadValueSize | ErrAlloc | ErrRead | ErrCrc
  | ErrUnexpectedEOF | ErrEOF | ErrNotAligned
  | ErrBufferSearch | ErrBufferMiss
  | ErrNotFound | ErrBadHtreeItem | ErrGetNothing | ErrHint | ErrBadDir | ErrAborted.

#[export] Instance StoreErr_eq_dec : EqDecision StoreErr.
Proof. solve_decision. Defined.

(** ** QuickLZ headers *)

Fixpoint fastRead_from (a : bytes) (i : Z) (j n : nat) (l : Z) : option Z :=
  match n with
  | O => Some l
  | S n => b ← zget a (i + Z.of_nat j);
           fastRead_from a i (S j) n (Z.lor l (Z.shiftl b (8 * Z.of_nat j)))
  end.
Definition fastRead (a : bytes) (i : Z) (numbytes : nat) : option Z :=
  fastRead_from a i 0 numbytes 0.

Lemma fastRead_from_le a i j n l :
  is_bytes a → 0 <= i → i + Z.of_nat (j + n) <= zlen a → 0 <= l < 2 ^ (8 * Z.of_nat j) →
  fastRead_from a i j n l
  = Some (l + 2 ^ (8 * Z.of_nat j) * le_word n (drop (Z.to_nat (i + Z.of_nat j)) a)).
Proof.
  intros Ha Hi. revert j l. induction n as [|n IH]; intros j l Hlen Hl; cbn [fastRead_from].
  { unfold le_word. rewrite take_0. simpl. f_equal. lia. }
  destruct (zget_lt a (i + Z.of_nat j)) as [b Hb]; [lia|]. rewrite Hb. simpl.
  apply zget_Some in Hb as [_ Hb].
  assert (is_u8 b) as Hu by (unfold is_bytes in Ha; rewrite Forall_lookup in Ha; by eapply Ha).
  rewrite lor_shiftl_add by width || lia. rewrite Z.shiftl_mul_pow2 by lia.
  assert (2 ^ (8 * Z.of_nat (S j)) = 2 ^ (8 * Z.of_nat j) * 256) as Hp.
  { replace (8 * Z.of_nat (S j)) with (8 * Z.of_nat j + 8) by lia. by rewrite Z.pow_add_r by lia. }
  rewrite IH; [|lia|rewrite Hp; unfold is_u8 in Hu; nia]. rewrite (drop_S a b (Z.to_nat (i + Z.of_nat j))) by done. unfold le_word. cbn [take le_get].
  replace (Z.to_nat (i + Z.of_nat (S j))) with (S (Z.to_nat (i + Z.of_nat j))) by lia.
  rewrite Hp. f_equal. lia.
Qed.

(** [fastRead] reads a little-endian word. *)
Lemma fastRead_le a i n :
  is_bytes a → 0 <= i → i + Z.of_nat n <= zlen a →
  fastRead a i n = Some (le_word n (drop (Z.to_nat i) a)).
Proof.
  intros Ha Hi Hl. unfold fastRead. rewrite fastRead_from_le by (done || simpl; lia).
  rewrite Z.add_0_r. cbn [Z.of_nat]. rewrite Z.mul_0_r, Z.pow_0_r. f_equal. lia.
Qed.

Definition headerLen (source : bytes) : option Z :=
  b ← zget source 0; Some (if Z.land b 2 =? 2 then 9 else 3).
Definition SizeDecompressed (source : bytes) : option Z :=
  h ← headerLen source;
  if h =? 9 then fastRead source 5 4 else fastRead source 2 1.
Definition SizeCompressed (source : bytes) : option Z :=
  h ← headerLen source;
  if h =? 9 then fastRead source 1 4 else fastRead source 1 1.

(** ** Data *)

Definition FLAG_INCR : Z := 0x00000204.
Definition FLAG_COMPRESS : Z := 0x00010000.
Definition FLAG_CLIENT_COMPRESS : Z := 0x00000010.
Definition TRY_COMPRESS_SIZE : nat := 1024 * 10.
Definition PADDING : Z := 256.

Record Meta := mkMeta { TS : Z; Flag : Z; Ver : Z; ValueHash : Z; RecSize : Z }.
Definition zeroMeta : Meta := mkMeta 0 0 0 0 0.

Record Position := mkPos { ChunkID : Z; Offset : Z }.
#[export] Instance Position_eq_dec : EqDecision Position.
Proof. solve_decision. Defined.

(** [CmpKey]: [(int64(ChunkID) << 32) + int64(Offset)]. *)
Definition CmpKey (pos : Position) : Z := i64 (i64 (Z.shiftl (ChunkID pos) 32) + Offset pos).

Record HintItemMeta := mkHTreeItem {
  Keyhash : Z; Pos : Position; it_Ver : Z; Vhash : Z
}.
Abbreviation HTreeItem := HintItemMeta.
#[export] Instance HintItemMeta_eq_dec : EqDecision HintItemMeta.
Proof. solve_decision. Defined.
Definition zeroItem : HTreeItem := mkHTreeItem 0 (mkPos 0 0) 0 0.

Record HintItem := mkHintItem { hi_meta : HintItemMeta; hi_Key : bytes }.
#[export] Instance HintItem_eq_dec : EqDecision HintItem.
Proof. solve_decision. Defined.

Definition newHintItem (khash ver vhash : Z) (pos : Position) (key : bytes) : HintItem :=
  mkHintItem (mkHTreeItem khash pos ver vhash) key.

Record Payload := mkPayload { p_meta : Meta; p_arr : CArray }.
Definition p_Body (p : Payload) : bytes := Body (p_arr p).

Record Record_ := mkRecord { r_Key : bytes; r_Payload : Payload }.

Definition set_flag (m : Meta) (f : Z) : Meta := mkMeta (TS m) f (Ver m) (ValueHash m) (RecSize m).
Definition set_ver (m : Meta) (v : Z) : Meta := mkMeta (TS m) (Flag m) v (ValueHash m) (RecSize m).
Definition set_vhash (m : Meta) (v : Z) : Meta := mkMeta (TS m) (Flag m) (Ver m) v (RecSize m).
Definition set_recsize (m : Meta) (v : Z) : Meta := mkMeta (TS m) (Flag m) (Ver m) (ValueHash m) v.

(** ** Sizes on disk *)

Definition recHeaderSize : Z := 24.

(** [(recSize, ((recSize + 255) >> 8) << 8)], in uint32. *)
Definition Sizes (rec : Record_) : Z * Z :=
  let recSize := u32 (24 + zlen (r_Key rec) + zlen (p_Body (r_Payload rec))) in
  (recSize, u32 (Z.shiftl (Z.shiftr (u32 (recSize + 255)) 8) 8)).
Definition rec_Size (rec : Record_) : Z := (Sizes rec).2.

Definition IsCompressed (p : Payload) : bool := negb (Z.land (Flag (p_meta p)) FLAG_COMPRESS =? 0).

Definition CalcValueHash (p : Payload) : Payload :=
  mkPayload (set_vhash (p_meta p) (Getvhash (p_Body p))) (p_arr p).

(** [float32(a)/float32(b) > 0.7]. *)
Definition f32 (n : Z) : spec_float := binary_normalize 24 128 n 0 false.
Definition ratio_limit : spec_float := SFdiv 24 128 (f32 7) (f32 10).
Definition ratio_exceeds (a b : Z) : bool := SFltb ratio_limit (SFdiv 24 128 (f32 a) (f32 b)).

Section Compression.
Context (Conf : HStoreConfig) (mc : MCConfig) (E : Ext).

Definition CompressBufferSize : Z := 528400.

(** [CCompress]: [None] is a panic ([&src[0]] on an empty slice, or a compressed
    size beyond the buffer); the boolean is the result [ok]. *)
Definition CCompress (src : bytes) (r : BeansdbRL) : option (CArray * bool * BeansdbRL) :=
  '(dst, ok, r) ← Alloc mc (heap E) (zlen src + 400) r;
  if negb ok then Some (dst, false, r)
  else if malloc (heap E) CompressBufferSize =? 0 then Some (dst, false, r)
  else
    match src with
    | [] => None
    | _ =>
        let out := qlz_compress E src in
        if zlen src + 400 <? zlen out then None
        else Some (mkCArray out (Addr dst) (Cap dst), true, r)
    end.

(** [CDecompress] and [CDecompressSafe]; the deferred [recover] turns a panic
    into an error with the zero array. *)
Definition CDecompress (src : bytes) (sizeD : Z) (r : BeansdbRL)
    : option (CArray * option StoreErr * BeansdbRL) :=
  '(dst, ok, r) ← Alloc mc (heap E) sizeD r;
  if negb ok then Some (dst, Some ErrAllocDecompress, r)
  else if sizeD =? 0 then None
  else
    let out := qlz_decompress E src in
    if negb (zlen out =? sizeD) then Some (dst, Some ErrSizeDecompressed, r)
    else Some (mkCArray out (Addr dst) (Cap dst), None, r).

Definition CDecompressSafe (src : bytes) (r : BeansdbRL) : CArray * option StoreErr * BeansdbRL :=
  match
    sizeC ← SizeCompressed src;
    if negb (zlen src =? sizeC) then Some (nilCArray, Some ErrBadSizeCompressed, r)
    else
      sizeD ← SizeDecompressed src;
      CDecompress src sizeD r
  with
  | Some res => res
  | None => (nilCArray, Some ErrDecompressPanic, r)
  end.

Definition NeedCompress (header : bytes) : bool :=
  negb (bool_decide (DetectContentType E header ∈ NotCompress Conf)).

(** [TryCompress] on a record; the payload is mutated in place in the source. *)
Definition TryCompress (rec : Record_) (r : BeansdbRL) : option (Record_ * BeansdbRL) :=
  let p := r_Payload rec in
  let flag := Flag (p_meta p) in
  if Ver (p_meta p) <? 0 then Some (rec, r)
  else if negb (Z.land flag FLAG_CLIENT_COMPRESS =? 0) || negb (Z.land flag FLAG_COMPRESS =? 0)
  then Some (rec, r)
  else if rec_Size rec <=? 256 then Some (rec, r)
  else
    let body := p_Body p in
    let try := if (TRY_COMPRESS_SIZE <? length body)%nat then take TRY_COMPRESS_SIZE body else body in
    if negb (NeedCompress try) then Some (rec, r)
    else
      '(compressed, ok, r) ← CCompress try r;
      if negb ok then Some (rec, r)
      else if ratio_exceeds (zlen (Body compressed)) (zlen try) then
        Some (rec, (Free compressed r).2)
      else
        '(compressed, ok, r) ←
          (if zlen try <? zlen body then CCompress body (Free compressed r).2
           else Some (compressed, true, r));
        if negb ok then Some (rec, r)
        else
          let r := (Free (p_arr p) r).2 in
          Some (mkRecord (r_Key rec)
                  (mkPayload (set_flag (p_meta p) (u32 (flag + FLAG_COMPRESS))) compressed), r).

(** [Decompress]: on an error the payload is left as it is. *)
Definition Decompress (p : Payload) (r : BeansdbRL) : Payload * option StoreErr * BeansdbRL :=
  if Z.land (Flag (p_meta p)) FLAG_COMPRESS =? 0 then (p, None, r)
  else
    match CDecompressSafe (p_Body p) r with
    | (_, Some e, r) => (p, Some e, r)
    | (arr, None, r) =>
        let r := (Free (p_arr p) r).2 in
        (mkPayload (set_flag (p_meta p) (u32 (Flag (p_meta p) - FLAG_COMPRESS))) arr, None, r)
    end.

(** [DiffSizeAfterDecompressed]. *)
Definition DiffSizeAfterDecompressed (p : Payload) : option Z :=
  if IsCompressed p then
    d ← SizeDecompressed (p_Body p); Some (d - Cap (p_arr p))
  else Some 0.

(** [Payload.Getvhash]: the hash of the decompressed value. *)
Definition Payload_Getvhash (p : Payload) (r : BeansdbRL) : Z * BeansdbRL :=
  if Ver (p_meta p) <? 0 then (0, r)
  else if Z.land (Flag (p_meta p)) FLAG_COMPRESS =? 0 then (Getvhash (p_Body p), r)
  else
    let '(arr, _, r) := CDecompressSafe (p_Body p) r in
    (Getvhash (Body arr), (Free arr r).2).

(** [Payload.Copy] and [Record.Copy]; a failed allocation gives a nil payload. *)
Definition Payload_Copy (p : Payload) (r : BeansdbRL) : option (option Payload * BeansdbRL) :=
  '(arr, ok, r) ← Copy mc (heap E) (p_arr p) r;
  Some (if ok : bool then Some (mkPayload (p_meta p) arr) else None, r).

End Compression.

Definition getKeyHash (E : Ext) (key : bytes) : Z := getKeyHashDefalut (murmur E) key.

(** ** Sizes *)

Lemma round_up_256 n :
  0 <= n → n + 255 < 2 ^ 32 →
  u32 (Z.shiftl (Z.shiftr (u32 (n + 255)) 8) 8) = (n + 255) / 256 * 256.
Proof.
  intros H0 H. rewrite Z.shiftl_mul_pow2, Z.shiftr_div_pow2 by lia.
  change (2 ^ 8) with 256. rewrite (u32_small (n + 255)) by width. apply u32_small. width.
Qed.

(** A record small enough for 32-bit sizes: its length on disk is the least
    multiple of 256 that holds header, key and value. *)
Definition fits32 (rec : Record_) : Prop :=
  24 + zlen (r_Key rec) + zlen (p_Body (r_Payload rec)) + 255 < 2 ^ 32.

Lemma Sizes_spec rec :
  fits32 rec →
  let n := 24 + zlen (r_Key rec) + zlen (p_Body (r_Payload rec)) in
  Sizes rec = (n, (n + 255) / 256 * 256) ∧ n <= (n + 255) / 256 * 256 < n + 256.
Proof.
  unfold fits32. intros H. cbn zeta.
  pose proof (zlen_nonneg (r_Key rec)). pose proof (zlen_nonneg (p_Body (r_Payload rec))).
  unfold Sizes. rewrite (u32_small (24 + _ + _)) by width.
  rewrite round_up_256 by lia. split; [done|]. Z.div_mod_to_equations. lia.
Qed.

(** ** Compression is invisible to the value *)

(** What the store relies on in the C compressor: it inverts itself, the sizes it
    writes in its 9-byte header are the ones the Go side reads back, and it never
    expands by more than the 400 bytes reserved. *)
Definition qlz_input (b : bytes) : Prop := b ≠ [] ∧ is_bytes b ∧ zlen b < 2 ^ 31.

Record qlz_spec (E : Ext) : Prop := {
  qlz_inverse : ∀ b, qlz_input b → qlz_decompress E (qlz_compress E b) = b;
  qlz_sizeC : ∀ b, qlz_input b →
    SizeCompressed (qlz_compress E b) = Some (zlen (qlz_compress E b));
  qlz_sizeD : ∀ b, qlz_input b → SizeDecompressed (qlz_compress E b) = Some (zlen b);
  qlz_bound : ∀ b, qlz_input b → zlen (qlz_compress E b) <= zlen b + 400;
  qlz_bytes : ∀ b, qlz_input b → is_bytes (qlz_compress E b)
}.

Lemma Alloc_total mc H size r : 0 <= size → is_Some (Alloc mc H size r).
Proof. intros. unfold Alloc. repeat case_match; eauto; lia. Qed.

Lemma CDecompressSafe_compress mc E b r :
  qlz_spec E → qlz_input b → can_alloc mc (heap E) (zlen b) →
  ∃ arr r', CDecompressSafe mc E (qlz_compress E b) r = (arr, None, r') ∧ Body arr = b.
Proof.
  intros HQ Hb Hm. unfold CDecompressSafe.
  rewrite qlz_sizeC by done. simpl. rewrite Z.eqb_refl. simpl.
  rewrite qlz_sizeD by done. simpl. unfold CDecompress.
  assert (0 < zlen b) by (destruct Hb as [Hb _]; destruct b; [done|unfold zlen; simpl; lia]).
  destruct (Alloc_ok mc (heap E) (zlen b) r) as (kv & r1 & -> & _); [lia|done|]. simpl.
  rewrite qlz_inverse by done. rewrite Z.eqb_refl.
  destruct (Z.eqb_spec (zlen b) 0); [lia|]. simpl. eauto.
Qed.

Lemma flag_add_compress f :
  is_u32 f → Z.land f FLAG_COMPRESS = 0 →
  let g := u32 (f + FLAG_COMPRESS) in
  is_u32 g ∧ Z.land g FLAG_COMPRESS ≠ 0 ∧ u32 (g - FLAG_COMPRESS) = f.
Proof.
  intros Hf Hz. cbn zeta.
  assert (f + FLAG_COMPRESS = Z.lor f FLAG_COMPRESS) as Hlor.
  { rewrite <- Z.lxor_lor by done. by apply Z.add_nocarry_lxor. }
  assert (is_u32 (f + FLAG_COMPRESS)) as Hr.
  { rewrite Hlor. rewrite <- Z.lxor_lor by done. apply lxor_range; [lia|done|by vm_compute]. }
  rewrite (u32_small (f + _)) by done. split; [done|]. split.
  - rewrite Hlor. rewrite Z.land_lor_distr_l, Z.land_diag, Hz. by vm_compute.
  - replace (f + FLAG_COMPRESS - FLAG_COMPRESS) with f by lia. by apply u32_small.
Qed.

(** [TryCompress] either leaves the record alone or replaces the body by its
    compressed form and adds the flag; nothing else changes. *)
Lemma TryCompress_cases Conf mc E rec r rec' r' :
  TryCompress Conf mc E rec r = Some (rec', r') →
  rec' = rec ∨
  (0 <= Ver (p_meta (r_Payload rec)) ∧
   Z.land (Flag (p_meta (r_Payload rec))) FLAG_COMPRESS = 0 ∧
   p_Body (r_Payload rec) ≠ [] ∧
   r_Key rec' = r_Key rec ∧
   p_Body (r_Payload rec') = qlz_compress E (p_Body (r_Payload rec)) ∧
   p_meta (r_Payload rec')
     = set_flag (p_meta (r_Payload rec)) (u32 (Flag (p_meta (r_Payload rec)) + FLAG_COMPRESS))).
Proof.
  unfold TryCompress.
  destruct (Z.ltb_spec (Ver (p_meta (r_Payload rec))) 0); [naive_solver|].
  destruct (negb _ || negb _) eqn:Hflags; [naive_solver|].
  apply orb_false_iff in Hflags as [_ Hf]. apply negb_false_iff, Z.eqb_eq in Hf.
  destruct (rec_Size rec <=? 256); [naive_solver|].
  set (body := p_Body (r_Payload rec)).
  set (try := if (TRY_COMPRESS_SIZE <? length body)%nat then take TRY_COMPRESS_SIZE body else body).
  destruct (negb (NeedCompress _ _ _)); [naive_solver|].
  destruct (CCompress mc E try r) as [[[c ok] r1]|] eqn:Hc; simpl; [|done].
  destruct ok; simpl; [|naive_solver].
  destruct (ratio_exceeds _ _); [naive_solver|].
  assert (∀ src r0 c0 r2, CCompress mc E src r0 = Some (c0, true, r2) →
          Body c0 = qlz_compress E src ∧ src ≠ []) as HCC.
  { intros src r0 c0 r2. unfold CCompress. destruct (Alloc _ _ _ _) as [[[d o] rr]|]; simpl; [|done].
    repeat case_match; intros; simplify_eq; done. }
  destruct (Z.ltb_spec (zlen try) (zlen body)) as [Hlt|Hge].
  - destruct (CCompress mc E body _) as [[[c2 ok2] r2]|] eqn:Hc2; simpl; [|done].
    destruct ok2; simpl; [|naive_solver].
    intros [= <- <-]. right. apply HCC in Hc2 as [Hb Hne]. simpl. done.
  - simpl. intros [= <- <-]. right. apply HCC in Hc as [Hb Hne]. simpl.
    assert (try = body) as Ht.
    { unfold try in *. destruct (Nat.ltb_spec TRY_COMPRESS_SIZE (length body)) as [Hl|]; [|done].
      unfold zlen in Hge. rewrite length_take in Hge. lia. }
    rewrite <- Ht. unfold p_Body; simpl. rewrite Hb, Ht. rewrite Ht in Hne. done.
Qed.

(** Compression is invisible to clients when QuickLZ does its part: whatever
    [TryCompress] does to a record whose flag does not have [FLAG_COMPRESS], [Decompress]
    gives its value, flag and metadata back. *)
Theorem compress_decompress Conf mc E rec r rec' r' r0 :
  qlz_spec E → is_bytes (p_Body (r_Payload rec)) → zlen (p_Body (r_Payload rec)) < 2 ^ 31 →
  is_u32 (Flag (p_meta (r_Payload rec))) →
  can_alloc mc (heap E) (zlen (p_Body (r_Payload rec))) →
  Z.land (Flag (p_meta (r_Payload rec))) FLAG_COMPRESS = 0 →
  TryCompress Conf mc E rec r = Some (rec', r') →
  ∃ p r'', Decompress mc E (r_Payload rec') r0 = (p, None, r'')
    ∧ p_Body p = p_Body (r_Payload rec) ∧ p_meta p = p_meta (r_Payload rec).
Proof.
  intros HQ Hb Hlen Hf Hm Hz [->|(Hv & _ & Hne & Hk & Hbody & Hmeta)]%TryCompress_cases.
  { unfold Decompress. rewrite Hz. simpl. eauto. }
  unfold Decompress. rewrite Hmeta. cbn [set_flag Flag].
  destruct (flag_add_compress _ Hf Hz) as (Hr & Hset & Hback).
  apply Z.eqb_neq in Hset. rewrite Hset, Hbody.
  destruct (CDecompressSafe_compress mc E (p_Body (r_Payload rec)) r0) as (arr & r2 & -> & Harr);
    [done|by repeat split|done|].
  eexists _, _. split; [done|]. split; [done|]. simpl. rewrite Hback.
  by destruct (p_meta (r_Payload rec)).
Qed.
