(* ===== verification/Fixtures.v ===== *)
(** * Concrete instances of the parameters

    A configuration as the server starts with it, a heap that never fails, and a
    stored-mode stand-in for the QuickLZ library that meets [qlz_spec]. They
    instantiate the theorems' parameters at concrete inputs. *)

From S2P Require Import Prelude Config Key Cmem Item.

Definition demo_heap : CHeap := mkCHeap (λ n, 4096) (λ n, replicate (Z.to_nat n) 0).

(** QuickLZ frames: flag byte, both sizes, the data. A frame that stores its input,
    and a shorter one for a run of one byte. *)
Definition frame (flag : Z) (sizeD : Z) (data : bytes) : bytes :=
  flag :: le_put 4 (zlen data + 9) ++ le_put 4 sizeD ++ data.
Definition is_run (b : bytes) : bool :=
  match b with c :: _ => bool_decide (b = replicate (length b) c) | [] => false end.
Definition demo_compress (b : bytes) : bytes :=
  if is_run b then frame 3 (zlen b) (take 1 b) else frame 2 (zlen b) b.
Definition demo_decompress (f : bytes) : bytes :=
  if nth 0 f 0 =? 3 then replicate (Z.to_nat (le_word 4 (drop 5 f))) (nth 9 f 0) else drop 9 f.

Definition demo_ext : Ext :=
  mkExt demo_heap demo_compress demo_decompress (λ _, bstr "text/plain") (λ k, u32 (zlen k * 2654435761)).

(** The default configuration after [InitTree]: 16 buckets, trees of height 3. *)
Definition demo_conf : HStoreConfig :=
  match InitTree DefaultHStoreConfig with Some c => c | None => DefaultHStoreConfig end.

(** The prepared key of a given hash. *)
Definition demo_key (key : bytes) (kh : Z) : KeyInfo :=
  match NewKeyInfoFromBytes demo_conf key kh false with
  | Some ki => ki
  | None => mkKeyInfo kh false key key (ParsePathUint64 kh) 0
  end.

(** What the frames say of themselves. *)
Lemma frame_spec flag sizeD data :
  flag = 2 ∨ flag = 3 → is_bytes data → zlen data + 9 < 2 ^ 32 → is_u32 sizeD →
  zlen (frame flag sizeD data) = zlen data + 9 ∧ is_bytes (frame flag sizeD data)
  ∧ SizeCompressed (frame flag sizeD data) = Some (zlen (frame flag sizeD data))
  ∧ SizeDecompressed (frame flag sizeD data) = Some sizeD ∧ drop 9 (frame flag sizeD data) = data
  ∧ le_word 4 (drop 5 (frame flag sizeD data)) = sizeD.
Proof.
  intros Hf Hb Hl Hs. pose proof (zlen_nonneg data).
  assert (zlen (frame flag sizeD data) = zlen data + 9) as Hz.
  { unfold zlen, frame. cbn [length]. rewrite !length_app, !length_le_put. lia. }
  assert (is_bytes (frame flag sizeD data)) as Hby.
  { constructor; [width|]. rewrite !is_bytes_app. auto with width. }
  assert (headerLen (frame flag sizeD data) = Some 9) as Hh by (destruct Hf as [->| ->]; done).
  assert (drop 5 (frame flag sizeD data) = le_put 4 sizeD ++ data) as H5.
  { unfold frame. change (drop 5 (flag :: ?x)) with (drop 4 x). apply drop_app_length'. by rewrite length_le_put. }
  assert (le_word 4 (drop 5 (frame flag sizeD data)) = sizeD) as H5'.
  { rewrite H5, le_word_put. apply Z.mod_small. change (256 ^ Z.of_nat 4) with (2 ^ 32). done. }
  split; [done|]. split; [done|].
  split; [|split; [|split; [|done]]].
  - unfold SizeCompressed. rewrite Hh. cbn [mbind option_bind]. change (9 =? 9) with true. cbn iota.
    rewrite fastRead_le by (done || lia). unfold frame at 1. change (drop (Z.to_nat 1) (flag :: ?x)) with x.
    rewrite le_word_put, Hz. f_equal. apply Z.mod_small. change (256 ^ Z.of_nat 4) with (2 ^ 32). lia.
  - unfold SizeDecompressed. rewrite Hh. cbn [mbind option_bind]. change (9 =? 9) with true. cbn iota.
    rewrite fastRead_le by (done || lia). change (Z.to_nat 5) with 5%nat. by rewrite H5'.
  - change 9%nat with (5 + 4)%nat. rewrite <- drop_drop, H5. apply drop_app_length'. by rewrite length_le_put.
Qed.

(** The stand-in compressor meets what the store relies on. *)
Lemma demo_qlz_spec : qlz_spec demo_ext.
Proof.
  assert (∀ b, qlz_input b → ∃ flag data, demo_compress b = frame flag (zlen b) data ∧ (flag = 2 ∨ flag = 3)
    ∧ is_bytes data ∧ zlen data <= zlen b
    ∧ (flag = 2 → data = b) ∧ (flag = 3 → ∃ c, data = [c] ∧ b = replicate (length b) c)) as Hc.
  { intros b (Hne & Hb & Hl). unfold demo_compress, is_run. destruct b as [|c b']; [done|].
    destruct (bool_decide_reflect (c :: b' = replicate (length (c :: b')) c)) as [Hr|Hr].
    - exists 3, [c]. split; [done|]. split; [by right|]. split; [by apply Forall_cons in Hb as [? _]; constructor|].
      split; [unfold zlen; simpl; lia|]. split; [done|]. by exists c.
    - exists 2, (c :: b'). split; [done|]. split; [by left|]. split; [done|]. split; [lia|]. by split. }
  assert (∀ b, qlz_input b → is_u32 (zlen b) ∧ zlen b + 9 < 2 ^ 32) as Hr.
  { intros b (_ & _ & Hl). pose proof (zlen_nonneg b). split; [unfold is_u32|]; lia. }
  split; intros b Hb; destruct (Hc b Hb) as (flag & data & He & Hf & Hd & Hle & H2 & H3);
    destruct (Hr b Hb) as [Hu Hl]; destruct (frame_spec flag (zlen b) data Hf Hd ltac:(lia) Hu) as (Hz & Hby & HsC & HsD & H9 & H5);
    cbn [demo_ext qlz_compress qlz_decompress]; rewrite He; try done; [|lia].
  unfold demo_decompress. rewrite H5. change (nth 0 (frame flag _ _) 0) with flag.
  destruct Hf as [-> | ->]; cbn [Z.eqb].
  - rewrite H9. by apply H2.
  - destruct (H3 eq_refl) as (c & -> & Hrun).
    assert (nth 9 (frame 3 (zlen b) [c]) 0 = c) as Hn by reflexivity.
    change (3 =? 3) with true. cbn iota. rewrite Hn. unfold zlen. rewrite Nat2Z.id. done.
Qed.

Lemma alloc_free_witness :
  ∃ arr r', Alloc DefaultMCConfig demo_heap 5000 ResetAll = Some (arr, true, r')
    ∧ same_load (AllocRL (Free arr r').2) rl_reset.
Proof.
  eexists _, _. split; [by vm_compute|].
  eapply (alloc_free DefaultMCConfig demo_heap 5000 ResetAll); by vm_compute.
Defined.

(** A record that compresses. *)
Definition demo_big : Record_ :=
  mkRecord (bstr "big") (mkPayload (mkMeta 1000 3 1 0 0) (mkCArray (replicate 300 97) 0 300)).

Lemma compress_decompress_witness :
  ∃ rec' r' p r'', TryCompress demo_conf DefaultMCConfig demo_ext demo_big ResetAll = Some (rec', r')
    ∧ zlen (p_Body (r_Payload rec')) = 10
    ∧ Decompress DefaultMCConfig demo_ext (r_Payload rec') ResetAll = (p, None, r'')
    ∧ p_Body p = replicate 300 97 ∧ p_meta p = mkMeta 1000 3 1 0 0.
Proof.
  eexists _, _.
  edestruct (compress_decompress demo_conf DefaultMCConfig demo_ext demo_big ResetAll)
    as (p & r'' & Hd & Hb & Hm).
  - apply demo_qlz_spec.
  - apply Forall_replicate. vm_compute. split; congruence.
  - vm_compute. reflexivity.
  - vm_compute. split; congruence.
  - right. vm_compute. congruence.
  - vm_compute. reflexivity.
  - vm_compute. reflexivity.
  - exists p, r''. split; [vm_compute; reflexivity|]. split; [vm_compute; reflexivity|].
    split; [exact Hd|]. split; [exact Hb|exact Hm].
Defined.
