(* ===== verification/Leaf.v ===== *)
(** * Leaves of the hash tree (src/store/leaf.go)

    A leaf is a block of C memory holding packed items: the low
    [TreeKeyHashLen] bytes of the key hash, then 11 bytes of version, value hash
    and position. A [SliceHeader] is modelled by the bytes it covers. *)

From S2P Require Import Prelude Config Cmem Key Item Fixtures.

Definition LEN_USE_C_FIND : Z := 100.
Definition TREE_ITEM_HEAD_SIZE : nat := 11.

(** ** Items and key hashes as bytes *)

Definition bytesToItem (b : bytes) (item : HTreeItem) : HTreeItem :=
  let at_ i := nth i b 0 in
  mkHTreeItem (Keyhash item)
    (mkPos (Z.lor (at_ 9%nat) (u32 (Z.shiftl (at_ 10%nat) 8)))
           (Z.lor (Z.lor (u32 (Z.shiftl (at_ 6%nat) 8)) (u32 (Z.shiftl (at_ 7%nat) 16)))
                  (u32 (Z.shiftl (at_ 8%nat) 24))))
    (i32 (le_word 4 b)) (le_word 2 (drop 4 b)).

(** The 11 bytes written over the start of [b]. *)
Definition item_bytes (item : HTreeItem) : bytes :=
  let v := Offset (Pos item) in
  let c := u32 (ChunkID (Pos item)) in
  le_put 4 (u32 (it_Ver item)) ++ le_put 2 (Vhash item) ++
  [u8 (Z.shiftr v 8); u8 (Z.shiftr v 16); u8 (Z.shiftr v 24); u8 c; u8 (Z.shiftr c 8)].
Definition itemToBytes (b : bytes) (item : HTreeItem) : bytes :=
  item_bytes item ++ drop 11 b.

Definition khashToBytes (b : bytes) (khash : Z) : bytes := le_put 8 khash ++ drop 8 b.
Definition bytesToKhash (b : bytes) : Z := le_word 8 b.

(** [getNodeKhash]: the digits of a node's path, from bit 28 of a uint32 down. *)
Definition node_digit (i : nat) (off : Z) : Z :=
  let shift := u32 (4 * (7 - Z.of_nat i)) in
  if 64 <=? shift then 0 else u32 (Z.shiftl (Z.land off 0xf) shift).
Definition getNodeKhash (path : list Z) : Z :=
  foldl (λ k d, u32 (k + d)) 0 (imap node_digit path).

(** ** Operations *)

Section Leaf.
Context (Conf : HStoreConfig) (H : CHeap).

Definition lenKHash : nat := Z.to_nat (TreeKeyHashLen Conf).
Definition lenItem : nat := (lenKHash + TREE_ITEM_HEAD_SIZE)%nat.

(** The Go loop of [findInBytes]: [for i := 0; i < size; i += lenItem]. *)
Fixpoint go_find (fuel : nat) (leaf kb : bytes) (i : nat) : Z :=
  match fuel with
  | O => -1
  | S fuel =>
      if (i <? length leaf)%nat then
        if bytes_eqb (take lenKHash (drop i leaf)) kb then Z.of_nat i
        else go_find fuel leaf kb (i + lenItem)
      else -1
  end.

(** The C loop [find]: [for (i = 0; i < n; i++, p += item_size)]. *)
Fixpoint c_find (todo : nat) (leaf kb : bytes) (i : nat) : Z :=
  match todo with
  | O => -1
  | S todo =>
      if bytes_eqb (take lenKHash (drop (i * lenItem) leaf)) kb then Z.of_nat i
      else c_find todo leaf kb (S i)
  end.

Definition findInBytes (leaf : bytes) (keyhash : Z) : Z :=
  let kb := take lenKHash (le_put 8 keyhash) in
  let n := (length leaf / lenItem)%nat in
  if Z.of_nat n <? LEN_USE_C_FIND then go_find (S (length leaf)) leaf kb 0
  else c_find n leaf kb 0 * Z.of_nat lenItem.

(** [enlarge]: the new tail is whatever the allocator left there. *)
Definition junk (n : nat) : bytes := take n (fresh_bytes H (Z.of_nat n) ++ replicate n 0).
Definition enlarge (leaf : bytes) (size : nat) : bytes :=
  take size leaf ++ junk (size - length leaf).

(** [khashToBytes(dst, kh); itemToBytes(dst[lenKHash:], item)]. *)
Definition write_entry (dst : bytes) (kh : Z) (item : HTreeItem) : bytes :=
  let d := khashToBytes dst kh in
  take lenKHash d ++ itemToBytes (drop lenKHash d) item.

Definition Leaf_Set (leaf : bytes) (kh : Z) (item : HTreeItem) : bytes * HTreeItem * bool :=
  let idx := findInBytes leaf kh in
  if 0 <=? idx then
    let i := Z.to_nat idx in
    let oldm := bytesToItem (drop (i + lenKHash) leaf) zeroItem in
    (take i leaf ++ write_entry (drop i leaf) kh item, oldm, true)
  else
    let sh := enlarge leaf (length leaf + lenKHash + TREE_ITEM_HEAD_SIZE) in
    (take (length leaf) sh ++ write_entry (drop (length leaf) sh) kh item, zeroItem, false).

(** [Remove]: remove if the offset is the same or [oldPos.ChunkID == -1]. *)
Definition Leaf_Remove (leaf : bytes) (kh : Z) (oldPos : Position) : bytes * HTreeItem * bool :=
  let idx := findInBytes leaf kh in
  if 0 <=? idx then
    let i := Z.to_nat idx in
    let oldm := bytesToItem (drop (i + lenKHash) leaf) zeroItem in
    if (ChunkID oldPos =? -1) || (Offset (Pos oldm) =? Offset oldPos)
    then (take i leaf ++ drop (i + lenItem) leaf, oldm, true)
    else (leaf, oldm, false)
  else (leaf, zeroItem, false).

(** [Get]: fills [req.item], zero before, when the key is present. *)
Definition Leaf_Get (leaf : bytes) (kh : Z) : HTreeItem * bool :=
  let idx := findInBytes leaf kh in
  if 0 <=? idx
  then (bytesToItem (drop (Z.to_nat idx + lenKHash) leaf) zeroItem, true)
  else (zeroItem, false).

(** [Iter]: the callback gets the rebuilt key hash and a pointer to one shared
    item, which it may change. *)
Fixpoint iter_loop {A} (fuel : nat) (leaf : bytes) (nodeKHash : Z)
    (f : Z → HTreeItem → A → HTreeItem * A) (i : nat) (m : HTreeItem) (acc : A) : A :=
  match fuel with
  | O => acc
  | S fuel =>
      if (i <? length leaf)%nat then
        let m := bytesToItem (drop (i + lenKHash) leaf) m in
        let khash := Z.lor (Z.land (bytesToKhash (drop i leaf)) (TreeKeyHashMask Conf)) nodeKHash in
        let '(m, acc) := f khash m acc in
        iter_loop fuel leaf nodeKHash f (i + lenItem) m acc
      else acc
  end.

Definition node_khash (path : list Z) : Z :=
  Z.ldiff (u64 (Z.shiftl (getNodeKhash path) 32)) (TreeKeyHashMask Conf).

Definition Leaf_Iter {A} (leaf : bytes) (path : list Z)
    (f : Z → HTreeItem → A → HTreeItem * A) (acc : A) : A :=
  iter_loop (S (length leaf)) leaf (node_khash path) f 0 zeroItem acc.

(** ** What a leaf stores

    A leaf is read as a list of entries, key hash and item; an item survives
    with the low byte of its offset and the high bits of its chunk dropped. *)

Definition norm (it : HTreeItem) : HTreeItem :=
  mkHTreeItem 0 (mkPos (u16 (ChunkID (Pos it))) (u32 (Offset (Pos it)) / 256 * 256))
    (i32 (it_Ver it)) (u16 (Vhash it)).

(** Items the tree keeps exactly. *)
Record item_ok (it : HTreeItem) : Prop := {
  io_chunk : 0 <= ChunkID (Pos it) < 2 ^ 16;
  io_off : is_u32 (Offset (Pos it));
  io_align : Offset (Pos it) mod 256 = 0;
  io_ver : is_i32 (it_Ver it);
  io_vhash : is_u16 (Vhash it)
}.

Definition enc (e : Z * HTreeItem) : bytes := le_put lenKHash e.1 ++ item_bytes e.2.
Definition leaf_enc (es : list (Z * HTreeItem)) : bytes := es ≫= enc.

End Leaf.

(** Association lists: first entry wins; a new key goes to the end. *)
Fixpoint assoc {V} (k : Z) (es : list (Z * V)) : option V :=
  match es with
  | [] => None
  | (k', v) :: es => if k' =? k then Some v else assoc k es
  end.
Fixpoint assoc_set {V} (k : Z) (v : V) (es : list (Z * V)) : list (Z * V) :=
  match es with
  | [] => [(k, v)]
  | (k', v') :: es => if k' =? k then (k, v) :: es else (k', v') :: assoc_set k v es
  end.
Fixpoint assoc_del {V} (k : Z) (es : list (Z * V)) : list (Z * V) :=
  match es with
  | [] => []
  | (k', v') :: es => if k' =? k then es else (k', v') :: assoc_del k es
  end.
Fixpoint assoc_idx {V} (k : Z) (es : list (Z * V)) : option nat :=
  match es with
  | [] => None
  | (k', _) :: es => if k' =? k then Some O else S <$> assoc_idx k es
  end.

(** ** Association-list lemmas *)

Section Assoc.
Context {V : Type}.
Implicit Types (es : list (Z * V)) (v : V).

Lemma assoc_idx_Some k es j :
  assoc_idx k es = Some j →
  ∃ v, es = take j es ++ (k, v) :: drop (S j) es ∧ assoc k es = Some v
    ∧ (∀ w, assoc_set k w es = take j es ++ (k, w) :: drop (S j) es)
    ∧ assoc_del k es = take j es ++ drop (S j) es.
Proof.
  revert j. induction es as [|[k' v'] es IH]; intros j; simpl; [done|].
  destruct (Z.eqb_spec k' k) as [->|Hne].
  - intros [= <-]. exists v'. simpl. by rewrite !drop_0.
  - destruct (assoc_idx k es) as [j'|]; simpl; [|done]. intros [= <-].
    destruct (IH j' eq_refl) as (v & Hes & Ha & Hs & Hd). exists v.
    simpl. rewrite <- Hes, Ha, Hd. split; [done|]. split; [done|].
    split; [|done]. intros w. by rewrite Hs.
Qed.

Lemma assoc_idx_None k es :
  assoc_idx k es = None →
  assoc k es = None ∧ (∀ w, assoc_set k w es = es ++ [(k, w)]) ∧ assoc_del k es = es
  ∧ Forall (λ e, e.1 ≠ k) es.
Proof.
  induction es as [|[k' v'] es IH]; simpl; [naive_solver constructor|].
  destruct (Z.eqb_spec k' k) as [->|Hne]; [done|].
  destruct (assoc_idx k es); simpl; [done|]. intros _.
  destruct (IH eq_refl) as (Ha & Hs & Hd & Hf). repeat split; try done.
  - intros w. by rewrite Hs.
  - by rewrite Hd.
  - by constructor.
Qed.

Lemma assoc_set_eq k v es : assoc k (assoc_set k v es) = Some v.
Proof.
  induction es as [|[k' v'] es IH]; simpl; [by rewrite Z.eqb_refl|].
  destruct (Z.eqb_spec k' k); simpl; [by rewrite Z.eqb_refl|].
  by destruct (Z.eqb_spec k' k).
Qed.

Lemma assoc_set_ne k k' v es : k ≠ k' → assoc k' (assoc_set k v es) = assoc k' es.
Proof.
  intros Hne. induction es as [|[k0 v0] es IH]; simpl.
  - by destruct (Z.eqb_spec k k').
  - destruct (Z.eqb_spec k0 k) as [->|]; simpl.
    + by destruct (Z.eqb_spec k k').
    + by rewrite IH.
Qed.

Lemma assoc_del_ne k k' es : k ≠ k' → assoc k' (assoc_del k es) = assoc k' es.
Proof.
  intros Hne. induction es as [|[k0 v0] es IH]; simpl; [done|].
  destruct (Z.eqb_spec k0 k) as [->|]; simpl.
  - by destruct (Z.eqb_spec k k').
  - by rewrite IH.
Qed.

Lemma assoc_None_Forall k es : Forall (λ e, e.1 ≠ k) es → assoc k es = None.
Proof.
  induction 1 as [|[k' v'] es Hne Hf IH]; [done|]. simpl in *.
  by destruct (Z.eqb_spec k' k).
Qed.

Lemma assoc_del_eq k es : NoDup es.*1 → assoc k (assoc_del k es) = None.
Proof.
  induction es as [|[k' v'] es IH]; [done|]. cbn [fmap list_fmap fst].
  intros [Hni Hnd]%NoDup_cons. simpl. destruct (Z.eqb_spec k' k) as [->|]; simpl.
  - apply assoc_None_Forall, Forall_forall. intros e He Heq. apply Hni, list_elem_of_fmap. by exists e.
  - destruct (Z.eqb_spec k' k); [done|]. by apply IH.
Qed.

Lemma assoc_set_keys (P : Z → Prop) k v es :
  P k → Forall (λ e, P e.1) es → Forall (λ e, P e.1) (assoc_set k v es).
Proof.
  intros Hk. induction 1 as [|[k' v'] es Hp Hf IH]; simpl; [by repeat constructor|].
  destruct (Z.eqb_spec k' k); constructor; done.
Qed.

Lemma assoc_set_NoDup k v es : NoDup es.*1 → NoDup (assoc_set k v es).*1.
Proof.
  induction es as [|[k' v'] es IH]; simpl; [intros; apply NoDup_singleton|].
  intros [Hni Hnd]%NoDup_cons. destruct (Z.eqb_spec k' k) as [->|Hne]; simpl.
  - by constructor.
  - constructor; [|by apply IH]. intros Hin. apply Hni. clear -Hin Hne.
    induction es as [|[k0 v0] es IH]; simpl in *.
    + apply list_elem_of_singleton in Hin. done.
    + destruct (Z.eqb_spec k0 k) as [->|]; simpl in *; apply elem_of_cons in Hin as [->|Hin];
        try (by left); try done; right; auto.
Qed.

Lemma assoc_del_sub k es : ∀ e, e ∈ assoc_del k es → e ∈ es.
Proof.
  induction es as [|[k' v'] es IH]; simpl; [done|]. intros e.
  destruct (Z.eqb_spec k' k); [by right|].
  intros [->|Hin]%elem_of_cons; [by left|right; auto].
Qed.

Lemma assoc_del_NoDup k es : NoDup es.*1 → NoDup (assoc_del k es).*1.
Proof.
  induction es as [|[k' v'] es IH]; simpl; [done|].
  intros [Hni Hnd]%NoDup_cons. destruct (Z.eqb_spec k' k); simpl; [done|].
  constructor; [|auto]. intros Hin. apply Hni. apply list_elem_of_fmap in Hin as (e & -> & He).
  apply list_elem_of_fmap. exists e. split; [done|]. by eapply assoc_del_sub.
Qed.

Lemma assoc_in k v es : assoc k es = Some v → (k, v) ∈ es.
Proof.
  induction es as [|[k' v'] es IH]; simpl; [done|].
  destruct (Z.eqb_spec k' k) as [->|]; [intros [= ->]; by left|right; auto].
Qed.

Lemma assoc_of_in k v es : NoDup es.*1 → (k, v) ∈ es → assoc k es = Some v.
Proof.
  induction es as [|[k' v'] es IH]; simpl; [by intros _ ?%not_elem_of_nil|].
  intros [Hni Hnd]%NoDup_cons [[= -> ->]|Hin]%elem_of_cons; [by rewrite Z.eqb_refl|].
  destruct (Z.eqb_spec k' k) as [->|]; [|auto].
  destruct Hni. apply list_elem_of_fmap. by exists (k, v).
Qed.

(** Sums over the entries of an association list. *)
Definition asum (f : Z → V → Z) es : Z := zsum ((λ e, f e.1 e.2) <$> es).

Definition opt_val (f : Z → V → Z) (k : Z) (o : option V) : Z :=
  match o with Some v => f k v | None => 0 end.

Lemma asum_cons f e es : asum f (e :: es) = f e.1 e.2 + asum f es.
Proof. done. Qed.

Lemma asum_set f k v es :
  asum f (assoc_set k v es) = asum f es + f k v - opt_val f k (assoc k es).
Proof.
  induction es as [|[k' v'] es IH]; cbn [assoc_set assoc].
  - rewrite asum_cons. simpl. lia.
  - rewrite asum_cons. destruct (Z.eqb_spec k' k) as [->|]; rewrite asum_cons; simpl; lia.
Qed.

Lemma asum_del f k es :
  asum f (assoc_del k es) = asum f es - opt_val f k (assoc k es).
Proof.
  induction es as [|[k' v'] es IH]; cbn [assoc_del assoc]; [done|].
  rewrite asum_cons. destruct (Z.eqb_spec k' k) as [->|]; rewrite ?asum_cons; simpl; lia.
Qed.

End Assoc.

(** ** The packed format *)

Lemma length_item_bytes it : length (item_bytes it) = 11%nat.
Proof. unfold item_bytes. rewrite !length_app, !length_le_put. done. Qed.

Lemma lor_bytes3 a b c :
  is_u8 a → is_u8 b → is_u8 c →
  Z.lor (Z.lor (u32 (Z.shiftl a 8)) (u32 (Z.shiftl b 16))) (u32 (Z.shiftl c 24))
  = 256 * a + 65536 * b + 16777216 * c.
Proof.
  intros Ha Hb Hc. rewrite !u32_small by (rewrite Z.shiftl_mul_pow2 by lia; width).
  rewrite (lor_shiftl_add (Z.shiftl a 8) b 16), (lor_shiftl_add _ c 24);
    rewrite ?Z.shiftl_mul_pow2 by lia; width.
Qed.

Lemma lor_bytes2 a b : is_u8 a → is_u8 b → Z.lor a (u32 (Z.shiftl b 8)) = a + 256 * b.
Proof.
  intros Ha Hb.
  assert (Z.lor (Z.lor (u32 (Z.shiftl 0 8)) (u32 (Z.shiftl a 16))) (u32 (Z.shiftl b 24))
          = 256 * 0 + 65536 * a + 16777216 * b) as H3 by (apply lor_bytes3; width).
  rewrite !u32_small in H3 by (rewrite Z.shiftl_mul_pow2 by lia; width).
  rewrite u32_small by (rewrite Z.shiftl_mul_pow2 by lia; width).
  rewrite Z.shiftl_0_l, Z.lor_0_l in H3.
  replace (Z.shiftl b 24) with (Z.shiftl (Z.shiftl b 8) 16) in H3 by (by rewrite Z.shiftl_shiftl).
  rewrite <- Z.shiftl_lor, Z.shiftl_mul_pow2 in H3 by lia. lia.
Qed.

Lemma bytes_of_offset x :
  256 * u8 (x / 2 ^ 8) + 65536 * u8 (x / 2 ^ 16) + 16777216 * u8 (x / 2 ^ 24)
  = u32 x / 256 * 256.
Proof.
  replace (x / 2 ^ 16) with (x / 2 ^ 8 / 2 ^ 8) by (by rewrite Z.div_div by lia).
  replace (x / 2 ^ 24) with (x / 2 ^ 8 / 2 ^ 8 / 2 ^ 8) by (by rewrite !Z.div_div by lia).
  replace (u32 x / 256) with ((x / 2 ^ 8) mod 2 ^ 24) by width.
  generalize (x / 2 ^ 8) as y. intros y.
  replace (y mod 2 ^ 24) with (y mod 2 ^ 8 + 2 ^ 8 * ((y / 2 ^ 8) mod 2 ^ 16))
    by (change (2 ^ 24) with (2 ^ 8 * 2 ^ 16); by rewrite Z.rem_mul_r by lia).
  generalize (y / 2 ^ 8) as z. intros z.
  replace (z mod 2 ^ 16) with (z mod 2 ^ 8 + 2 ^ 8 * ((z / 2 ^ 8) mod 2 ^ 8))
    by (change (2 ^ 16) with (2 ^ 8 * 2 ^ 8); by rewrite Z.rem_mul_r by lia).
  unfold u8. lia.
Qed.

(** Reading back what [itemToBytes] wrote. *)
Lemma bytesToItem_item_bytes it m rest :
  bytesToItem (item_bytes it ++ rest) m
  = mkHTreeItem (Keyhash m) (Pos (norm it)) (it_Ver (norm it)) (Vhash (norm it)).
Proof.
  unfold bytesToItem, item_bytes, norm. cbn [Pos it_Ver Vhash]. f_equal.
  - rewrite <- !app_assoc.
    f_equal.
    + change (Z.lor (u8 (u32 (ChunkID (Pos it))))
        (u32 (Z.shiftl (u8 (Z.shiftr (u32 (ChunkID (Pos it))) 8)) 8)) = u16 (ChunkID (Pos it))).
      rewrite lor_bytes2 by apply u8_range. rewrite Z.shiftr_div_pow2 by lia. width.
    + change (Z.lor (Z.lor (u32 (Z.shiftl (u8 (Z.shiftr (Offset (Pos it)) 8)) 8))
                (u32 (Z.shiftl (u8 (Z.shiftr (Offset (Pos it)) 16)) 16)))
                (u32 (Z.shiftl (u8 (Z.shiftr (Offset (Pos it)) 24)) 24))
              = u32 (Offset (Pos it)) / 256 * 256).
      rewrite lor_bytes3 by apply u8_range. rewrite !Z.shiftr_div_pow2 by lia.
      apply bytes_of_offset.
  - rewrite <- !app_assoc, le_word_put. change (256 ^ Z.of_nat 4) with (2 ^ 32). width.
  - rewrite <- !app_assoc, drop_app_length' by (by rewrite length_le_put).
    rewrite le_word_put. done.
Qed.

Lemma u8_offset_byte x k :
  k = 8 ∨ k = 16 ∨ k = 24 → u8 (u32 x / 256 * 256 / 2 ^ k) = u8 (x / 2 ^ k).
Proof.
  intros Hk.
  assert (u32 x / 256 * 256 / 2 ^ k = u32 x / 2 ^ k) as ->.
  { replace (2 ^ k) with (256 * 2 ^ (k - 8))
      by (change 256 with (2 ^ 8); rewrite <- Z.pow_add_r by lia; f_equal; lia).
    rewrite <- !Z.div_div, Z.div_mul by lia. done. }
  destruct Hk as [->|[->| ->]]; width.
Qed.

Lemma item_bytes_norm it : item_bytes (norm it) = item_bytes it.
Proof.
  unfold item_bytes, norm. cbn [Pos it_Ver Vhash Offset ChunkID]. f_equal; [|f_equal].
  - f_equal. width.
  - apply le_put_inj. change (256 ^ Z.of_nat 2) with (2 ^ 16). width.
  - rewrite !Z.shiftr_div_pow2 by lia. rewrite !u8_offset_byte by lia.
    f_equal. f_equal. f_equal. f_equal; [width|]. f_equal. width.
Qed.

Lemma norm_ok it : item_ok it → Keyhash it = 0 → norm it = it.
Proof.
  intros [Hc Ho Ha Hv Hh] Hk. destruct it as [k [c o] v h]. simpl in *. subst k.
  unfold norm. simpl. rewrite i32_small, !u16_small, u32_small by done.
  do 2 f_equal. Z.div_mod_to_equations. lia.
Qed.

Lemma norm_is_ok it : item_ok (norm it).
Proof.
  split; unfold norm; cbn [Pos it_Ver Vhash Offset ChunkID]; width.
Qed.

Lemma norm_norm it : norm (norm it) = norm it.
Proof. apply norm_ok; [apply norm_is_ok|done]. Qed.

Section LeafSpec.
Context (Conf : HStoreConfig) (H : CHeap).
Context (Hlk : 5 <= TreeKeyHashLen Conf <= 8).

(** The key hashes that may occur in one leaf: those are told apart by the bytes
    the leaf stores. *)
Context (P : Z → Prop).
Context (Psep : ∀ a b, P a → P b →
  le_put (lenKHash Conf) a = le_put (lenKHash Conf) b → a = b).

Abbreviation lk := (lenKHash Conf).
Abbreviation li := (lenItem Conf).
Abbreviation lenc := (leaf_enc Conf).
Implicit Types (es : list (Z * HTreeItem)) (it : HTreeItem) (kh : Z).

Lemma lk_range : (5 <= lk <= 8)%nat.
Proof. unfold lenKHash. lia. Qed.

Lemma li_pos : (16 <= li)%nat.
Proof. unfold lenItem, TREE_ITEM_HEAD_SIZE. pose proof lk_range. lia. Qed.

Lemma length_enc e : length (enc Conf e) = li.
Proof. unfold enc. rewrite length_app, length_le_put, length_item_bytes. done. Qed.

Lemma leaf_enc_app es1 es2 : lenc (es1 ++ es2) = lenc es1 ++ lenc es2.
Proof. unfold leaf_enc. apply bind_app. Qed.

Lemma leaf_enc_cons e es : lenc (e :: es) = enc Conf e ++ lenc es.
Proof. done. Qed.

Lemma length_leaf_enc es : length (lenc es) = (length es * li)%nat.
Proof.
  induction es as [|e es IH]; [done|].
  rewrite leaf_enc_cons, length_app, length_enc, IH. simpl. lia.
Qed.

Lemma drop_leaf_enc es j : drop (j * li) (lenc es) = lenc (drop j es).
Proof.
  revert es. induction j as [|j IH]; intros es; [by rewrite !drop_0|].
  destruct es as [|e es]; [apply drop_nil|].
  rewrite leaf_enc_cons. simpl.
  rewrite drop_app_add' by (by rewrite length_enc). apply IH.
Qed.

Lemma take_leaf_enc es j : take (j * li) (lenc es) = lenc (take j es).
Proof.
  revert es. induction j as [|j IH]; intros es; [done|].
  destruct es as [|e es]; [apply take_nil|].
  rewrite leaf_enc_cons. simpl.
  rewrite take_app_add' by (by rewrite length_enc). by rewrite IH.
Qed.

Lemma take_enc e rest : take lk (enc Conf e ++ rest) = le_put lk e.1.
Proof.
  unfold enc. rewrite <- app_assoc. by apply take_app_length'; rewrite length_le_put.
Qed.

Lemma kb_le_put kh : take lk (le_put 8 kh) = le_put lk kh.
Proof. apply take_le_put. apply lk_range. Qed.

Lemma key_test kh e rest :
  P kh → P e.1 →
  bytes_eqb (take lk (enc Conf e ++ rest)) (le_put lk kh) = (e.1 =? kh).
Proof.
  intros Hk He. rewrite take_enc. destruct (Z.eqb_spec e.1 kh) as [->|Hne].
  - by apply bytes_eqb_true.
  - apply bytes_eqb_false. intros Heq. by apply Hne, Psep.
Qed.

Lemma go_find_spec es kh fuel j :
  P kh → Forall (λ e, P e.1) es → (j <= length es)%nat → (length es - j < fuel)%nat →
  go_find Conf fuel (lenc es) (le_put lk kh) (j * li)
  = match assoc_idx kh (drop j es) with Some i => Z.of_nat ((j + i) * li) | None => -1 end.
Proof.
  intros Hk Hes. revert j. induction fuel as [|fuel IH]; intros j Hj Hf; [lia|].
  cbn [go_find]. rewrite length_leaf_enc. pose proof li_pos.
  destruct (Nat.ltb_spec (j * li) (length es * li)) as [Hlt|Hge].
  - assert (j < length es)%nat as Hjl by nia.
    destruct (lookup_lt_is_Some_2 es j Hjl) as [e He].
    rewrite drop_leaf_enc, (drop_S es e j He), leaf_enc_cons.
    rewrite key_test; [|done|by rewrite Forall_lookup in Hes; eapply Hes].
    destruct e as [k it]. cbn [fst assoc_idx]. destruct (Z.eqb_spec k kh).
    + f_equal. lia.
    + replace (j * li + li)%nat with (S j * li)%nat by lia.
      rewrite IH by lia. destruct (assoc_idx kh (drop (S j) es)); simpl; [|done].
      f_equal. lia.
  - assert (j = length es) as -> by nia. rewrite drop_all. done.
Qed.

Lemma c_find_spec es kh todo j :
  P kh → Forall (λ e, P e.1) es → (j + todo = length es)%nat →
  c_find Conf todo (lenc es) (le_put lk kh) j
  = match assoc_idx kh (drop j es) with Some i => Z.of_nat (j + i) | None => -1 end.
Proof.
  intros Hk Hes. revert j. induction todo as [|todo IH]; intros j Hj; cbn [c_find].
  - rewrite drop_ge by lia. done.
  - destruct (lookup_lt_is_Some_2 es j) as [e He]; [lia|].
    rewrite drop_leaf_enc, (drop_S es e j He), leaf_enc_cons.
    rewrite key_test; [|done|by rewrite Forall_lookup in Hes; eapply Hes].
    destruct e as [k it]. cbn [fst assoc_idx]. destruct (Z.eqb_spec k kh).
    + f_equal. lia.
    + rewrite IH by lia. destruct (assoc_idx kh (drop (S j) es)); simpl; [|done].
      f_equal. lia.
Qed.

(** Both loops find the first entry of the key; an absent key gives a negative
    index (-1, or -1 times the item size after the C loop). *)
Lemma findInBytes_spec es kh :
  P kh → Forall (λ e, P e.1) es →
  match assoc_idx kh es with
  | Some i => findInBytes Conf (lenc es) kh = Z.of_nat (i * li)
  | None => findInBytes Conf (lenc es) kh < 0
  end.
Proof.
  intros Hk Hes. unfold findInBytes. rewrite kb_le_put.
  pose proof li_pos. rewrite length_leaf_enc, Nat.div_mul by lia.
  destruct (_ <? LEN_USE_C_FIND).
  - replace 0%nat with (0 * li)%nat by lia.
    rewrite go_find_spec by (done || nia). rewrite drop_0.
    destruct (assoc_idx kh es); lia.
  - rewrite c_find_spec by (done || lia). rewrite drop_0.
    destruct (assoc_idx kh es); lia.
Qed.

(** C34. The fast search of a leaf is the plain one: on every leaf, the C loop used
    for large leaves finds an entry exactly when the Go loop does, and the same
    one. *)
Theorem find_loops_agree es kh :
  P kh → Forall (λ e, P e.1) es →
  let g := go_find Conf (S (length (lenc es))) (lenc es) (le_put lk kh) 0 in
  let c := c_find Conf (length es) (lenc es) (le_put lk kh) 0 * Z.of_nat li in
  (0 <= g ↔ 0 <= c) ∧ (0 <= g → g = c).
Proof.
  intros Hk Hes. cbn zeta. pose proof li_pos.
  pose proof (go_find_spec es kh (S (length (lenc es))) 0 Hk Hes) as Hg.
  rewrite length_leaf_enc in *. cbn [Nat.mul] in Hg. rewrite Hg by nia.
  rewrite c_find_spec by (done || lia). rewrite drop_0.
  destruct (assoc_idx kh es); lia.
Qed.

Lemma length_junk n : length (junk H n) = n.
Proof. unfold junk. rewrite length_take, length_app, length_replicate. lia. Qed.

(** The bytes under a written entry do not matter: the 8 bytes of the key hash
    and the 11 bytes of the item cover it. *)
Lemma write_entry_spec dst kh it :
  (li <= length dst)%nat → write_entry Conf dst kh it = enc Conf (kh, it) ++ drop li dst.
Proof.
  intros Hlen. unfold write_entry, khashToBytes, itemToBytes, enc. pose proof lk_range.
  rewrite <- app_assoc. f_equal.
  - rewrite take_app_le by (rewrite length_le_put; lia). apply kb_le_put.
  - f_equal. rewrite drop_drop. unfold lenItem, TREE_ITEM_HEAD_SIZE.
    rewrite drop_app_ge by (rewrite length_le_put; lia).
    rewrite length_le_put, drop_drop. f_equal. lia.
Qed.

Lemma read_entry es j kh it m :
  es !! j = Some (kh, it) →
  bytesToItem (drop (j * li + lk) (lenc es)) m
  = mkHTreeItem (Keyhash m) (Pos (norm it)) (it_Ver (norm it)) (Vhash (norm it)).
Proof.
  intros He. rewrite <- drop_drop, drop_leaf_enc, (drop_S es _ j He), leaf_enc_cons.
  unfold enc. rewrite <- app_assoc, drop_app_length' by (by rewrite length_le_put).
  apply bytesToItem_item_bytes.
Qed.

Definition entries_ok es : Prop := Forall (λ e, P e.1 ∧ norm e.2 = e.2) es.

Lemma entries_keys es : entries_ok es → Forall (λ e, P e.1) es.
Proof. intros He. eapply Forall_impl; [exact He|]. naive_solver. Qed.

Lemma read_entry_ok es j kh it :
  entries_ok es → es !! j = Some (kh, it) →
  bytesToItem (drop (j * li + lk) (lenc es)) zeroItem = it.
Proof.
  intros Hok He. rewrite (read_entry es j kh it) by done.
  unfold entries_ok in Hok. rewrite Forall_lookup in Hok.
  destruct (Hok _ _ He) as [_ Hn]. simpl in Hn. rewrite Hn.
  rewrite <- Hn. done.
Qed.

Lemma Leaf_Get_spec es kh :
  P kh → entries_ok es →
  Leaf_Get Conf (lenc es) kh
  = match assoc kh es with Some it => (it, true) | None => (zeroItem, false) end.
Proof.
  intros Hk Hok. unfold Leaf_Get.
  pose proof (findInBytes_spec es kh Hk (entries_keys es Hok)) as Hf.
  destruct (assoc_idx kh es) as [i|] eqn:Hi.
  - rewrite Hf. destruct (assoc_idx_Some _ _ _ Hi) as (it & Hes & -> & _).
    destruct (Z.leb_spec 0 (Z.of_nat (i * li))); [|lia]. f_equal. rewrite Nat2Z.id.
    eapply read_entry_ok; [done|]. rewrite Hes at 1.
    rewrite list_lookup_middle; [done|].
    pose proof (f_equal length Hes) as Hl. rewrite length_app, length_take in *. simpl in Hl. lia.
  - destruct (assoc_idx_None _ _ Hi) as (-> & _). destruct (Z.leb_spec 0 (findInBytes Conf (lenc es) kh)); [lia|].
    done.
Qed.

Lemma assoc_idx_lookup es kh i it :
  assoc_idx kh es = Some i → assoc kh es = Some it →
  es !! i = Some (kh, it) ∧ (i < length es)%nat.
Proof.
  intros Hi Ha. destruct (assoc_idx_Some _ _ _ Hi) as (it' & Hes & Ha' & _).
  rewrite Ha in Ha'. injection Ha' as <-.
  assert (Hlt : (i < length es)%nat).
  { pose proof (f_equal length Hes) as Hl. rewrite length_app, length_take in Hl. simpl in Hl.
    rewrite length_drop in Hl. lia. }
  split; [|done]. rewrite Hes. apply list_lookup_middle. rewrite length_take. lia.
Qed.

Lemma Leaf_Set_spec es kh it :
  P kh → entries_ok es →
  Leaf_Set Conf H (lenc es) kh it
  = (lenc (assoc_set kh (norm it) es),
     match assoc kh es with Some o => o | None => zeroItem end,
     match assoc kh es with Some _ => true | None => false end).
Proof.
  intros Hk Hok. unfold Leaf_Set. pose proof li_pos.
  pose proof (findInBytes_spec es kh Hk (entries_keys es Hok)) as Hf.
  assert (enc Conf (kh, norm it) = enc Conf (kh, it)) as Hen
    by (unfold enc; simpl; by rewrite item_bytes_norm).
  destruct (assoc_idx kh es) as [i|] eqn:Hi.
  - rewrite Hf. destruct (assoc_idx_Some _ _ _ Hi) as (old & Hes & Ha & Hset & _).
    destruct (assoc_idx_lookup _ _ _ _ Hi Ha) as [Hl Hlt]. rewrite Ha, Hset.
    destruct (Z.leb_spec 0 (Z.of_nat (i * li))); [|lia]. rewrite Nat2Z.id.
    rewrite (read_entry_ok es i kh old) by done. f_equal. f_equal.
    rewrite drop_leaf_enc, write_entry_spec.
    + rewrite take_leaf_enc, leaf_enc_app, leaf_enc_cons, Hen. do 2 f_equal.
      replace li with (1 * li)%nat at 1 by lia.
      rewrite drop_leaf_enc, drop_drop. f_equal. f_equal. lia.
    + rewrite length_leaf_enc, length_drop. nia.
  - destruct (assoc_idx_None _ _ Hi) as (-> & Hset & _). rewrite Hset.
    destruct (Z.leb_spec 0 (findInBytes Conf (lenc es) kh)); [lia|].
    f_equal. f_equal. unfold enlarge. rewrite (take_ge (lenc es)) by lia. rewrite take_app_length, drop_app_length.
    rewrite write_entry_spec by (rewrite length_junk; unfold lenItem; lia).
    rewrite drop_ge by (rewrite length_junk; unfold lenItem; lia).
    by rewrite app_nil_r, leaf_enc_app, leaf_enc_cons, Hen, app_nil_r.
Qed.

(** The condition under which [Remove] drops a present item. *)
Definition removable (oldPos : Position) (it : HTreeItem) : bool :=
  (ChunkID oldPos =? -1) || (Offset (Pos it) =? Offset oldPos).

Lemma Leaf_Remove_spec es kh oldPos :
  P kh → entries_ok es →
  Leaf_Remove Conf (lenc es) kh oldPos
  = match assoc kh es with
    | Some it => if removable oldPos it then (lenc (assoc_del kh es), it, true)
                 else (lenc es, it, false)
    | None => (lenc es, zeroItem, false)
    end.
Proof.
  intros Hk Hok. unfold Leaf_Remove. pose proof li_pos.
  pose proof (findInBytes_spec es kh Hk (entries_keys es Hok)) as Hf.
  destruct (assoc_idx kh es) as [i|] eqn:Hi.
  - rewrite Hf. destruct (assoc_idx_Some _ _ _ Hi) as (old & Hes & Ha & _ & Hdel).
    destruct (assoc_idx_lookup _ _ _ _ Hi Ha) as [Hl Hlt]. rewrite Ha, Hdel.
    destruct (Z.leb_spec 0 (Z.of_nat (i * li))); [|lia]. rewrite Nat2Z.id.
    rewrite (read_entry_ok es i kh old) by done. unfold removable.
    destruct (_ || _); [|done]. f_equal. f_equal.
    replace (i * li + li)%nat with (S i * li)%nat by lia.
    by rewrite take_leaf_enc, drop_leaf_enc, leaf_enc_app.
  - destruct (assoc_idx_None _ _ Hi) as (-> & _).
    by destruct (Z.leb_spec 0 (findInBytes Conf (lenc es) kh)); [lia|].
Qed.

Lemma entries_ok_set es kh it :
  P kh → entries_ok es → entries_ok (assoc_set kh (norm it) es).
Proof.
  intros Hk. unfold entries_ok. induction 1 as [|[k' v'] es Hp Hf IH]; simpl.
  - constructor; [|constructor]. split; [done|]. apply norm_norm.
  - destruct (Z.eqb_spec k' kh); constructor; try done. split; [done|]. apply norm_norm.
Qed.

Lemma entries_ok_del es kh : entries_ok es → entries_ok (assoc_del kh es).
Proof.
  unfold entries_ok. rewrite !Forall_forall. intros Hf e He. apply Hf.
  by eapply assoc_del_sub.
Qed.

(** ** Iteration *)

Lemma iter_loop_spec {A} es nk (f : Z → HTreeItem → A → HTreeItem * A) fuel j m acc :
  (∀ k it m' a, f k (mkHTreeItem (Keyhash m') (Pos it) (it_Ver it) (Vhash it)) a
              = (mkHTreeItem (Keyhash (f k (mkHTreeItem (Keyhash m') (Pos it) (it_Ver it) (Vhash it)) a).1)
                   (Pos it) (it_Ver it) (Vhash it), (f k it a).2)) →
  entries_ok es → (j <= length es)%nat → (length es - j < fuel)%nat →
  (∀ k rest it, (k, it) ∈ es →
     Z.lor (Z.land (bytesToKhash (enc Conf (k, it) ++ rest)) (TreeKeyHashMask Conf)) nk = k) →
  iter_loop Conf fuel (lenc es) nk f (j * li) m acc
  = foldl (λ a e, (f e.1 e.2 a).2) acc (drop j es).
Proof.
  intros Hf Hok. revert j m acc. induction fuel as [|fuel IH]; intros j m acc Hj Hfu Hk; [lia|].
  cbn [iter_loop]. rewrite length_leaf_enc. pose proof li_pos.
  destruct (Nat.ltb_spec (j * li) (length es * li)) as [Hlt|Hge].
  - assert (j < length es)%nat as Hjl by nia.
    destruct (lookup_lt_is_Some_2 es j Hjl) as [[k it] He].
    rewrite (read_entry es j k it) by done.
    assert (norm it = it) as Hn.
    { unfold entries_ok in Hok. rewrite Forall_lookup in Hok. by destruct (Hok _ _ He). }
    rewrite Hn, drop_leaf_enc, (drop_S es _ j He), leaf_enc_cons.
    rewrite Hk by (by eapply list_elem_of_lookup_2).
    rewrite Hf. cbn [foldl fst snd].
    replace (j * li + li)%nat with (S j * li)%nat by lia. apply IH; [lia|lia|done].
  - assert (j = length es) as -> by nia. rewrite drop_all. done.
Qed.

End LeafSpec.

(** ** A concrete leaf *)

Definition demo_entries : list (Z * HTreeItem) :=
  [(0x123456, mkHTreeItem 0 (mkPos 1 512) 1 7); (0x654321, mkHTreeItem 0 (mkPos 2 256) (-4) 0)].

Lemma find_loops_agree_witness :
  let g := go_find demo_conf (S (length (leaf_enc demo_conf demo_entries))) (leaf_enc demo_conf demo_entries)
             (le_put (lenKHash demo_conf) 0x654321) 0 in
  let c := c_find demo_conf 2 (leaf_enc demo_conf demo_entries) (le_put (lenKHash demo_conf) 0x654321) 0
           * Z.of_nat (lenItem demo_conf) in
  (0 <= g ↔ 0 <= c) ∧ (0 <= g → g = c).
Proof.
  apply (find_loops_agree demo_conf ltac:(by vm_compute) (λ k, k = 0x123456 ∨ k = 0x654321)).
  - intros a b [->| ->] [->| ->]; [done| | |done]; intros Hc; by vm_compute in Hc.
  - by right.
  - constructor; [by left|]. constructor; [by right|]. constructor.
Defined.
