(* ===== verification/HTree.v ===== *)
(** * The hash tree of a bucket (src/store/htree.go): definitions

    [levels] holds the 16-ary tree of summary nodes, level by level; the nodes
    of the last level summarise the leaves, which hold the items. A node pointer
    is a pair of level and offset. [None] is a run-time panic (an index out of
    range); the mutex is not modelled, each operation is atomic. *)

From S2P Require Import Prelude Strconv Config Key Cmem Item Leaf.

Record Node := mkNode { count : Z; hash : Z; isHashUpdated : bool }.

Record HTree := mkHTree {
  ht_depth : Z;
  ht_bucketID : Z;
  levels : list (list Node);
  leafs : list bytes
}.

Record NodeInfo := mkNodeInfo { ni_level : Z; ni_offset : Z; ni_path : list Z }.

Definition ThresholdBigHash : Z := 64 * 4.
Definition ThresholdListKeyDefault : Z := 64 * 4.

Definition with_levels (t : HTree) (ls : list (list Node)) : HTree :=
  mkHTree (ht_depth t) (ht_bucketID t) ls (leafs t).

(** ** Node access *)

Definition get_node (t : HTree) (level offset : Z) : option Node :=
  ns ← zget (levels t) level; zget ns offset.

Definition upd_node (t : HTree) (level offset : Z) (f : Node → Node) : option HTree :=
  ns ← zget (levels t) level;
  n ← zget ns offset;
  ns' ← zset ns offset (f n);
  ls ← zset (levels t) level ns';
  Some (with_levels t ls).

Definition invalidate (n : Node) : Node := mkNode (count n) (hash n) false.

(** ** Construction *)

(** The level sizes are 1, 16, 256, ...; the nodes of the last level start
    updated. *)
Definition newHTree (depth bucketID height : Z) : option HTree :=
  if MAX_DEPTH <? depth + height then None
  else if height <=? 0 then None
  else
    let h := Z.to_nat height in
    Some (mkHTree depth bucketID
      ((λ i, replicate (16 ^ i) (mkNode 0 0 (Nat.eqb i (h - 1)))) <$> seq 0 h)
      (replicate (16 ^ (h - 1)) [])).

Definition getHex (t : HTree) (khash level : Z) : Z :=
  let shift := (16 - (level + ht_depth t) - 1) * 4 in
  Z.land 0xf (Z.shiftr khash (u32 shift)).

(** ** Locating a leaf *)

(** [for level := 1; level < n; level++ { offset = offset*16 + path[level-1] }] *)
Fixpoint walk (path : list Z) (todo : nat) (level offset : Z) : option Z :=
  match todo with
  | O => Some offset
  | S todo =>
      d ← zget path (level - 1);
      walk path todo (level + 1) (offset * 16 + d)
  end.

Definition nlevels (t : HTree) : Z := zlen (levels t).

Definition getLeaf (t : HTree) (ki : KeyInfo) : option NodeInfo :=
  let level := nlevels t - 1 in
  path ← zfrom (ki_KeyPath ki) (ht_depth t);
  offset ← walk path (Z.to_nat level) 1 0;
  _ ← get_node t level offset;
  p ← zslice (ki_KeyPath ki) 0 (ht_depth t + level);
  Some (mkNodeInfo level offset p).

(** The inner levels on the way are marked not updated. *)
Fixpoint walk_invalid (t : HTree) (path : list Z) (todo : nat) (level offset : Z)
    : option (HTree * Z) :=
  match todo with
  | O => Some (t, offset)
  | S todo =>
      d ← zget path (level - 1);
      let offset := offset * 16 + d in
      t ← upd_node t level offset invalidate;
      walk_invalid t path todo (level + 1) offset
  end.

Definition getLeafAndInvalidNodes (t : HTree) (ki : KeyInfo) : option (HTree * NodeInfo) :=
  let level := nlevels t - 1 in
  path ← zfrom (ki_KeyPath ki) (ht_depth t);
  t ← upd_node t 0 0 invalidate;
  '(t, offset) ← walk_invalid t path (Z.to_nat (nlevels t - 2)) 1 0;
  d ← zget path (level - 1);
  let offset := offset * 16 + d in
  _ ← get_node t level offset;
  p ← zslice (ki_KeyPath ki) 0 (ht_depth t + level);
  Some (t, mkNodeInfo level offset p).

Fixpoint walk_node (path : list Z) (todo : nat) (h offset : Z) : option Z :=
  match todo with
  | O => Some offset
  | S todo => d ← zget path h; walk_node path todo (h + 1) (offset * 16 + d)
  end.

Definition getNode (t : HTree) (ki : KeyInfo) : option NodeInfo :=
  let l := Z.min (ht_depth t + nlevels t - 1) (zlen (ki_KeyPath ki)) in
  offset ← walk_node (ki_KeyPath ki) (Z.to_nat (l - ht_depth t)) (ht_depth t) 0;
  let level := l - ht_depth t in
  _ ← get_node t level offset;
  p ← zslice (ki_KeyPath ki) 0 (ht_depth t + level);
  Some (mkNodeInfo level offset p).

(** ** Set, remove, get *)

Section Ops.
Context (Conf : HStoreConfig) (H : CHeap).

(** The high half of the key hash weighs a value hash in a node's hash. *)
Definition khash_weight (kh : Z) : Z := u16 (Z.shiftr kh 32).

Definition setToLeaf (t : HTree) (ni : NodeInfo) (kh : Z) (item : HTreeItem) : option HTree :=
  leaf ← zget (leafs t) (ni_offset ni);
  let '(leaf, oldm, exist_) := Leaf_Set Conf H leaf kh item in
  ls ← zset (leafs t) (ni_offset ni) leaf;
  let t := mkHTree (ht_depth t) (ht_bucketID t) (levels t) ls in
  upd_node t (ni_level ni) (ni_offset ni) (λ node,
    let '(vhash, cnt) := (0, count node) in
    let '(vhash, cnt) :=
      if 0 <? it_Ver item then (u16 (vhash + Vhash item), u32 (cnt + 1)) else (vhash, cnt) in
    let '(vhash, cnt) :=
      if exist_ && (0 <? it_Ver oldm) then (u16 (vhash - Vhash oldm), u32 (cnt - 1))
      else (vhash, cnt) in
    mkNode cnt (u16 (hash node + u16 (vhash * khash_weight kh))) (isHashUpdated node)).

Definition remvoeFromLeaf (t : HTree) (ni : NodeInfo) (kh : Z) (oldPos : Position)
    : option HTree :=
  leaf ← zget (leafs t) (ni_offset ni);
  let '(leaf, oldm, removed) := Leaf_Remove Conf leaf kh oldPos in
  ls ← zset (leafs t) (ni_offset ni) leaf;
  let t := mkHTree (ht_depth t) (ht_bucketID t) (levels t) ls in
  upd_node t (ni_level ni) (ni_offset ni) (λ node,
    if removed && (0 <? it_Ver oldm) then
      mkNode (u32 (count node - 1))
        (u16 (hash node - u16 (Vhash oldm * khash_weight kh))) (isHashUpdated node)
    else node).

Definition setReq (t : HTree) (ki : KeyInfo) (item : HTreeItem) : option HTree :=
  '(t, ni) ← getLeafAndInvalidNodes t ki;
  setToLeaf t ni (ki_KeyHash ki) item.

Definition ht_set (t : HTree) (ki : KeyInfo) (meta : Meta) (pos : Position) : option HTree :=
  setReq t ki (mkHTreeItem (ki_KeyHash ki) pos (Ver meta) (ValueHash meta)).

Definition ht_remove (t : HTree) (ki : KeyInfo) (oldPos : Position) : option HTree :=
  '(t, ni) ← getLeafAndInvalidNodes t ki;
  remvoeFromLeaf t ni (ki_KeyHash ki) oldPos.

Definition getReq (t : HTree) (ki : KeyInfo) : option (HTreeItem * bool) :=
  ni ← getLeaf t ki;
  leaf ← zget (leafs t) (ni_offset ni);
  Some (Leaf_Get Conf leaf (ki_KeyHash ki)).

Definition ht_get (t : HTree) (ki : KeyInfo) : option (Meta * Position * bool) :=
  '(item, found) ← getReq t ki;
  Some (mkMeta 0 0 (it_Ver item) (Vhash item) 0, Pos item, found).

End Ops.

(** ** Updating the summaries *)

(** The hash of a node from its count and the hashes of its 16 children. *)
Definition node_hash (cnt : Z) (hashs : list Z) : Z :=
  foldl (λ h c,
    let h := if ThresholdBigHash <? cnt then u16 (h * 97) else h in u16 (h + c)) 0 hashs.

Fixpoint updateNodes (fuel : nat) (t : HTree) (level offset : Z) : option (HTree * Node) :=
  match fuel with
  | O => None
  | S fuel =>
      node ← get_node t level offset;
      if isHashUpdated node then Some (t, node)
      else
        '(t, cnt, hashs) ←
          foldl (λ acc i,
            '(t, cnt, hashs) ← acc;
            '(t, cnode) ← updateNodes fuel t (level + 1) (offset * 16 + Z.of_nat i);
            Some (t, u32 (cnt + count cnode), hashs ++ [hash cnode]))
          (Some (t, 0, [])) (seq 0 16);
        let node := mkNode cnt (node_hash cnt hashs) true in
        t ← upd_node t level offset (λ _, node);
        Some (t, node)
  end.

(** Each call goes one level down and a node of the last level is always
    updated: the number of levels is enough fuel. *)
Definition Update (t : HTree) : option (HTree * Node) :=
  updateNodes (length (levels t)) t 0 0.
