(* ===== verification/HTreeSpec.v ===== *)
(** * The hash tree refines a finite map

    The abstract state of a tree is a map from 64-bit key hashes to items. This
    file relates the byte-level tree of [HTree] to it: every operation succeeds
    on a well-formed tree, and sets, removes and gets are the map's insert,
    delete and lookup. *)

From S2P Require Import Prelude Config Key Cmem Item Leaf HTree.

(** ** Node access *)

Lemma get_node_upd t l o f n :
  get_node t l o = Some n →
  ∃ t', upd_node t l o f = Some t' ∧ ht_depth t' = ht_depth t ∧ ht_bucketID t' = ht_bucketID t
    ∧ nlevels t' = nlevels t ∧ leafs t' = leafs t
    ∧ get_node t' l o = Some (f n)
    ∧ ∀ l' o', (l', o') ≠ (l, o) → get_node t' l' o' = get_node t l' o'.
Proof.
  unfold get_node, upd_node. destruct (zget (levels t) l) as [ns|] eqn:Hl; simpl; [|done].
  intros Hn. rewrite Hn. simpl. pose proof (zget_Some_lt _ _ _ Hl). pose proof (zget_Some_lt _ _ _ Hn).
  unfold zset. destruct (Z.leb_spec 0 o); [|lia]. destruct (Z.ltb_spec o (zlen ns)); [|lia].
  destruct (Z.leb_spec 0 l); [|lia]. destruct (Z.ltb_spec l (zlen (levels t))); [|lia]. simpl.
  apply zget_Some in Hl as [_ Hl]. apply zget_Some in Hn as [_ Hn].
  unfold zlen in *. eexists. split; [done|]. cbn [ht_depth ht_bucketID leafs with_levels levels].
  do 2 (split; [done|]). split; [unfold nlevels, zlen; simpl; by rewrite length_insert|].
  split; [done|]. unfold zget.
  destruct (Z.ltb_spec l 0); [lia|]. destruct (Z.ltb_spec o 0); [lia|]. split.
  - rewrite list_lookup_insert_eq by lia. simpl. by rewrite list_lookup_insert_eq by lia.
  - intros l' o' Hne. destruct (Z.ltb_spec l' 0); [done|].
    destruct (Z.eq_dec l' l) as [->|Hl'].
    + rewrite list_lookup_insert_eq, Hl by lia. simpl. destruct (Z.ltb_spec o' 0); [done|].
      rewrite list_lookup_insert_ne; [done|]. intros Heq. apply Hne. f_equal. lia.
    + rewrite list_lookup_insert_ne by lia. done.
Qed.

(** Changing the leaves does not touch the nodes. *)
Lemma get_node_leafs t ls l o :
  get_node (mkHTree (ht_depth t) (ht_bucketID t) (levels t) ls) l o = get_node t l o.
Proof. done. Qed.

Lemma digits_val_app a b : digits_val (a ++ b) = digits_val a * 16 ^ zlen b + digits_val b.
Proof.
  induction b as [|d b IH] using rev_ind.
  - rewrite app_nil_r. unfold digits_val at 3, zlen. simpl. lia.
  - rewrite app_assoc, !digits_val_snoc, IH, zlen_app, Z.pow_add_r by (apply zlen_nonneg || done).
    change (16 ^ zlen [d]) with 16. lia.
Qed.

Lemma digits_val_range v :
  Forall (λ d, 0 <= d < 16) v → 0 <= digits_val v < 16 ^ zlen v.
Proof.
  induction v as [|d v IH] using rev_ind; [by vm_compute|].
  intros [Hv Hd]%Forall_app. apply Forall_cons in Hd as [Hd _].
  rewrite digits_val_snoc, zlen_app, Z.pow_add_r by (apply zlen_nonneg || done).
  change (16 ^ zlen [d]) with 16. specialize (IH Hv). lia.
Qed.

Section Spec.
Context (Conf : HStoreConfig) (H : CHeap).

Definition height (t : HTree) : nat := length (levels t).

(** The size of everything, as [newHTree] lays it out for a tree of at least two
    levels, and the key-hash length the configuration derives for it. *)
Record shape (t : HTree) : Prop := {
  sh_height : 2 <= nlevels t;
  sh_depth : 0 <= ht_depth t;
  sh_max : ht_depth t + nlevels t <= MAX_DEPTH;
  sh_nodes : ∀ l o, 0 <= l < nlevels t → 0 <= o < 16 ^ l → is_Some (get_node t l o);
  sh_leafs : zlen (leafs t) = 16 ^ (nlevels t - 1);
  sh_len : zget KHASH_LENS (ht_depth t + nlevels t - 1) = Some (TreeKeyHashLen Conf);
  sh_out : ∀ l o, 0 <= l < nlevels t → 16 ^ l <= o → get_node t l o = None
}.

(** The key hashes routed to this bucket, and the node of level [l] above one. *)
Definition in_bucket (t : HTree) (kh : Z) : Prop :=
  is_u64 kh ∧ kh / 16 ^ (16 - ht_depth t) = ht_bucketID t.
Definition anc (t : HTree) (kh l : Z) : Z :=
  kh / 16 ^ (16 - ht_depth t - l) - ht_bucketID t * 16 ^ l.
Definition leaf_of (t : HTree) (kh : Z) : Z := anc t kh (nlevels t - 1).
Definition in_leaf (t : HTree) (o : Z) (kh : Z) : Prop := in_bucket t kh ∧ leaf_of t kh = o.

(** Trees that differ in nodes and leaves only. *)
Definition same_frame (t t' : HTree) : Prop :=
  ht_depth t' = ht_depth t ∧ ht_bucketID t' = ht_bucketID t ∧ nlevels t' = nlevels t.

(** Changing one node, and the contents of leaves, keeps the shape. *)
Lemma shape_upd t t' l o :
  shape t → same_frame t t' → zlen (leafs t') = zlen (leafs t) →
  is_Some (get_node t l o) → is_Some (get_node t' l o) →
  (∀ l' o', (l', o') ≠ (l, o) → get_node t' l' o' = get_node t l' o') → shape t'.
Proof.
  intros [Hh Hd Hm Hn Hl Hk Ho] (Hd' & Hb' & Hn') Hlf [n Hsome] Hsome' Hkeep.
  split; rewrite ?Hn', ?Hd', ?Hlf; try done; intros l0 o0 Hl0 Ho0;
    destruct (decide ((l0, o0) = (l, o))) as [[= -> ->]|Hne]; try done.
  - rewrite Hkeep by done. by apply Hn.
  - rewrite Ho in Hsome by done. done.
  - rewrite Hkeep by done. by apply Ho.
Qed.

Lemma same_frame_in_leaf t t' o kh : same_frame t t' → in_leaf t o kh ↔ in_leaf t' o kh.
Proof. intros (Hd & Hb & Hn). unfold in_leaf, in_bucket, leaf_of, anc. by rewrite Hd, Hb, Hn. Qed.

Lemma anc_range t kh l :
  in_bucket t kh → 0 <= ht_depth t → 0 <= l → ht_depth t + l <= 16 → 0 <= anc t kh l < 16 ^ l.
Proof.
  intros [Hk Hb] Hd Hl Hm. unfold anc. rewrite <- Hb.
  assert (kh / 16 ^ (16 - ht_depth t) = kh / 16 ^ (16 - ht_depth t - l) / 16 ^ l) as ->.
  { rewrite Z.div_div, <- Z.pow_add_r by lia. do 2 f_equal. lia. }
  generalize (kh / 16 ^ (16 - ht_depth t - l)) as x. intros x.
  pose proof (Z.div_mod x (16 ^ l) ltac:(lia)). pose proof (Z.mod_pos_bound x (16 ^ l) ltac:(lia)).
  lia.
Qed.

(** The leaf's bytes tell the keys of one leaf apart. *)
Lemma in_leaf_sep t o a b :
  shape t → in_leaf t o a → in_leaf t o b →
  le_put (lenKHash Conf) a = le_put (lenKHash Conf) b → a = b.
Proof.
  intros Hs [[Ha Hba] Hla] [[Hb Hbb] Hlb] Heq%le_put_inj.
  destruct (KHASH_LENS_cover _ _ (sh_len t Hs)) as [Hlen Hcov].
  destruct Hs as [Hh Hd Hm _ _ _ _]. unfold MAX_DEPTH in Hm.
  unfold leaf_of, anc in Hla, Hlb.
  set (e := 16 - ht_depth t - (nlevels t - 1)) in *.
  assert (a / 16 ^ e = b / 16 ^ e) as Htop by lia.
  unfold lenKHash in Heq. rewrite Z2Nat.id in Heq by lia.
  assert (256 ^ TreeKeyHashLen Conf
          = 16 ^ e * 16 ^ (2 * TreeKeyHashLen Conf - e)) as Hp.
  { change 256 with (16 ^ 2). rewrite <- Z.pow_mul_r, <- Z.pow_add_r by lia. f_equal. lia. }
  rewrite Hp in Heq.
  apply (f_equal (λ x, x mod 16 ^ e)) in Heq.
  rewrite !Z.mod_mod_divide in Heq by apply Z.divide_factor_l.
  rewrite (Z.div_mod a (16 ^ e)), (Z.div_mod b (16 ^ e)) by lia. lia.
Qed.

(** ** Paths of prepared keys *)

Lemma walk_spec path todo level offset :
  1 <= level → level - 1 + Z.of_nat todo <= zlen path →
  walk path todo level offset
  = Some (offset * 16 ^ Z.of_nat todo
          + digits_val (take todo (drop (Z.to_nat (level - 1)) path))).
Proof.
  revert level offset. induction todo as [|todo IH]; intros level offset Hl Hlen.
  { simpl. f_equal. unfold digits_val. simpl. lia. }
  cbn [walk]. destruct (zget_lt path (level - 1)) as [d Hd]; [lia|]. rewrite Hd. simpl.
  rewrite IH by lia. apply zget_Some in Hd as [_ Hd].
  rewrite (drop_S path d (Z.to_nat (level - 1))) by done.
  replace (Z.to_nat (level + 1 - 1)) with (S (Z.to_nat (level - 1))) by lia.
  cbn [take]. change (d :: ?v) with ([d] ++ v). rewrite digits_val_app.
  assert (zlen (take todo (drop (S (Z.to_nat (level - 1))) path)) = Z.of_nat todo) as ->.
  { unfold zlen in *. rewrite length_take, length_drop. lia. }
  replace (Z.of_nat (S todo)) with (Z.succ (Z.of_nat todo)) by lia. rewrite Z.pow_succ_r by lia.
  unfold digits_val at 2. simpl. f_equal. lia.
Qed.

Lemma anc_digits t ki l :
  prepared Conf ki → in_bucket t (ki_KeyHash ki) → 0 <= ht_depth t → 0 <= l →
  ht_depth t + l <= 16 →
  digits_val (take (Z.to_nat l) (drop (Z.to_nat (ht_depth t)) (ki_KeyPath ki)))
  = anc t (ki_KeyHash ki) l.
Proof.
  intros [Hk Hp] [_ Hb] Hd Hl Hm. rewrite Hp. unfold anc.
  pose proof (digits_val_take (ki_KeyHash ki) (Z.to_nat (ht_depth t + l)) Hk ltac:(lia)) as Ha.
  pose proof (digits_val_take (ki_KeyHash ki) (Z.to_nat (ht_depth t)) Hk ltac:(lia)) as Ht.
  rewrite Z2Nat.inj_add, <- take_take_drop in Ha by lia. rewrite digits_val_app in Ha.
  rewrite <- Hb. rewrite Z2Nat.id in Ht by lia. rewrite Ht in Ha.
  assert (zlen (take (Z.to_nat l) (drop (Z.to_nat (ht_depth t)) (ParsePathUint64 (ki_KeyHash ki)))) = l) as Hz.
  { unfold zlen. rewrite length_take, length_drop, length_ParsePathUint64. lia. }
  rewrite Hz, <- Z2Nat.inj_add, Z2Nat.id in Ha by lia.
  replace (16 - ht_depth t - l) with (16 - (ht_depth t + l)) by lia. lia.
Qed.

Lemma prepared_path_len ki : prepared Conf ki → zlen (ki_KeyPath ki) = 16.
Proof. intros [_ ->]. done. Qed.

Lemma path_suffix ki d :
  prepared Conf ki → 0 <= d <= 16 →
  zfrom (ki_KeyPath ki) d = Some (drop (Z.to_nat d) (ki_KeyPath ki)).
Proof.
  intros Hp Hd. pose proof (prepared_path_len ki Hp) as Hl. unfold zfrom, zslice. rewrite Hl.
  destruct (Z.leb_spec 0 d), (Z.leb_spec d 16), (Z.leb_spec 16 16); try lia. simpl.
  f_equal. apply take_ge. unfold zlen in Hl. rewrite length_drop. lia.
Qed.

Lemma path_prefix ki n :
  prepared Conf ki → 0 <= n <= 16 →
  zslice (ki_KeyPath ki) 0 n = Some (take (Z.to_nat n) (ki_KeyPath ki)).
Proof.
  intros Hp Hn. pose proof (prepared_path_len ki Hp) as Hl. unfold zslice. rewrite Hl.
  destruct (Z.leb_spec 0 0), (Z.leb_spec 0 n), (Z.leb_spec n 16); try lia. simpl.
  by rewrite Z.sub_0_r, drop_0.
Qed.

Lemma getLeaf_spec t ki :
  shape t → prepared Conf ki → in_bucket t (ki_KeyHash ki) →
  getLeaf t ki = Some (mkNodeInfo (nlevels t - 1) (leaf_of t (ki_KeyHash ki))
                        (take (Z.to_nat (ht_depth t + (nlevels t - 1))) (ki_KeyPath ki))).
Proof.
  intros Hs Hp Hb. pose proof (prepared_path_len ki Hp) as Hlen.
  destruct (Hs) as [Hh Hd Hm Hnodes _ _ _]. unfold MAX_DEPTH in Hm. unfold getLeaf.
  rewrite path_suffix by (done || lia). simpl.
  rewrite walk_spec; [|lia|].
  2: { unfold zlen in *. rewrite length_drop. lia. }
  simpl. rewrite drop_0, anc_digits by (done || lia).
  fold (leaf_of t (ki_KeyHash ki)). change (0 * ?x) with 0. rewrite Z.add_0_l.
  destruct (Hnodes (nlevels t - 1) (leaf_of t (ki_KeyHash ki))) as [n ->];
    [lia|apply anc_range; done || lia|]. simpl.
  by rewrite path_prefix by (done || lia).
Qed.

(** What [walk_invalid] does, level by level. *)
Lemma walk_invalid_spec t0 ki todo t level :
  shape t → same_frame t0 t → prepared Conf ki → in_bucket t0 (ki_KeyHash ki) →
  1 <= level → level + Z.of_nat todo <= nlevels t - 1 →
  ∃ t', walk_invalid t (drop (Z.to_nat (ht_depth t)) (ki_KeyPath ki)) todo level
          (anc t0 (ki_KeyHash ki) (level - 1))
        = Some (t', anc t0 (ki_KeyHash ki) (level - 1 + Z.of_nat todo))
    ∧ shape t' ∧ same_frame t t' ∧ leafs t' = leafs t
    ∧ ∀ l o, get_node t' l o =
        if decide (level <= l < level + Z.of_nat todo ∧ o = anc t0 (ki_KeyHash ki) l)
        then invalidate <$> get_node t l o else get_node t l o.
Proof.
  intros Hs Hfr Hp Hb. revert t level Hs Hfr.
  induction todo as [|todo IH]; intros t level Hs Hfr Hl Htodo; cbn [walk_invalid].
  { exists t. rewrite Z.add_0_r. split; [done|]. split; [done|]. split; [done|]. split; [done|].
    intros l o. rewrite decide_False by lia. done. }
  pose proof (prepared_path_len ki Hp) as Hlen. destruct (Hs) as [Hh Hd Hm Hnodes Hleafs Hkl _].
  unfold MAX_DEPTH in Hm. destruct Hfr as (Hfd & Hfb & Hfn).
  set (path := drop (Z.to_nat (ht_depth t)) (ki_KeyPath ki)).
  destruct (zget_lt path (level - 1)) as [d Hdg].
  { unfold path, zlen in *. rewrite length_drop. lia. }
  rewrite Hdg. simpl.
  assert (anc t0 (ki_KeyHash ki) (level - 1) * 16 + d = anc t0 (ki_KeyHash ki) level) as Hanc.
  { rewrite <- !(anc_digits t0) by (done || lia). rewrite <- Hfd. fold path.
    apply zget_Some in Hdg as [_ Hdg].
    replace (Z.to_nat level) with (S (Z.to_nat (level - 1))) by lia.
    rewrite (take_S_r _ _ d) by done. rewrite digits_val_snoc. lia. }
  rewrite Hanc.
  assert (0 <= anc t0 (ki_KeyHash ki) level < 16 ^ level) by (apply anc_range; done || lia).
  destruct (Hnodes level (anc t0 (ki_KeyHash ki) level)) as [n Hn]; [lia|done|].
  destruct (get_node_upd _ _ _ invalidate _ Hn) as (t1 & Hup & Hd1 & Hb1 & Hn1 & Hlf1 & Hg1 & Ho1).
  rewrite Hup. simpl.
  assert (shape t1) as Hs1.
  { eapply (shape_upd t); [done|done|by rewrite Hlf1|by rewrite Hn|by rewrite Hg1|done]. }
  destruct (IH t1 (level + 1)) as (t' & Hw & Hs' & (Hd' & Hb' & Hn') & Hlf' & Hg').
  { done. } { by repeat split; congruence. } { lia. } { lia. }
  replace (level + 1 - 1) with level in Hw by lia.
  exists t'. unfold path. rewrite <- Hd1. rewrite Hw. split.
  { do 2 f_equal. f_equal. lia. }
  split; [done|]. split; [by repeat split; congruence|]. split; [congruence|].
  intros l o. rewrite Hg'.
  destruct (decide ((l, o) = (level, anc t0 (ki_KeyHash ki) level))) as [[= -> ->]|Hne].
  - rewrite decide_False by lia. rewrite decide_True by lia. by rewrite Hg1, Hn.
  - rewrite Ho1 by done.
    destruct (decide (level + 1 <= l < level + 1 + Z.of_nat todo ∧ o = anc t0 (ki_KeyHash ki) l)) as [Hc|Hc].
    + rewrite decide_True; [done|]. lia.
    + rewrite decide_False; [done|]. intros [Hl' ->]. apply Hc. split; [|done].
      destruct (Z.eq_dec l level) as [->|]; [|lia]. by exfalso; apply Hne.
Qed.

Lemma getLeafAndInvalidNodes_spec t ki :
  shape t → prepared Conf ki → in_bucket t (ki_KeyHash ki) →
  ∃ t' p, getLeafAndInvalidNodes t ki
        = Some (t', mkNodeInfo (nlevels t - 1) (leaf_of t (ki_KeyHash ki)) p)
    ∧ shape t' ∧ same_frame t t' ∧ leafs t' = leafs t
    ∧ ∀ l o, get_node t' l o =
        if decide (0 <= l < nlevels t - 1 ∧ o = anc t (ki_KeyHash ki) l)
        then invalidate <$> get_node t l o else get_node t l o.
Proof.
  intros Hs Hp Hb. pose proof (prepared_path_len ki Hp) as Hlen.
  destruct (Hs) as [Hh Hd Hm Hnodes Hleafs Hkl _]. unfold MAX_DEPTH in Hm.
  unfold getLeafAndInvalidNodes. rewrite path_suffix by (done || lia). simpl.
  assert (anc t (ki_KeyHash ki) 0 = 0) as Hanc0.
  { destruct (anc_range t (ki_KeyHash ki) 0); [done|lia..|]. lia. }
  destruct (Hnodes 0 0) as [n Hn]; [lia|lia|].
  destruct (get_node_upd _ _ _ invalidate _ Hn) as (t1 & Hup & Hd1 & Hb1 & Hn1 & Hlf1 & Hg1 & Ho1).
  rewrite Hup. simpl.
  assert (shape t1) as Hs1.
  { eapply (shape_upd t); [done|done|by rewrite Hlf1|by rewrite Hn|by rewrite Hg1|done]. }
  destruct (walk_invalid_spec t ki (Z.to_nat (nlevels t1 - 2)) t1 1)
    as (t' & Hw & Hs' & (Hd' & Hb' & Hn') & Hlf' & Hg');
    [done|by repeat split; congruence|done|done|lia|lia|].
  change (1 - 1) with 0 in Hw. rewrite Z.add_0_l, Hanc0 in Hw. rewrite Hd1 in Hw. rewrite Hw. simpl.
  destruct (zget_lt (drop (Z.to_nat (ht_depth t)) (ki_KeyPath ki)) (nlevels t - 1 - 1)) as [d Hdg].
  { unfold zlen in *. rewrite length_drop. lia. }
  rewrite Hdg. simpl.
  assert (anc t (ki_KeyHash ki) (Z.of_nat (Z.to_nat (nlevels t1 - 2))) * 16 + d
          = leaf_of t (ki_KeyHash ki)) as Hleaf.
  { unfold leaf_of. rewrite <- !anc_digits by (done || lia).
    apply zget_Some in Hdg as [_ Hdg].
    replace (Z.to_nat (nlevels t - 1)) with (S (Z.to_nat (nlevels t - 1 - 1))) by lia.
    rewrite (take_S_r _ _ d) by done. rewrite digits_val_snoc, Hn1.
    replace (Z.to_nat (Z.of_nat (Z.to_nat (nlevels t - 2)))) with (Z.to_nat (nlevels t - 1 - 1)) by lia.
    lia. }
  rewrite Hleaf.
  destruct (sh_nodes _ Hs' (nlevels t - 1) (leaf_of t (ki_KeyHash ki))) as [nl Hnl];
    [lia|apply anc_range; done || lia|]. rewrite Hnl. simpl.
  replace (ht_depth t') with (ht_depth t) by congruence.
  rewrite path_prefix by (done || lia). simpl.
  eexists _, _. split; [done|]. split; [done|]. split; [by repeat split; congruence|].
  split; [congruence|].
  intros l o. rewrite Hg'. destruct (decide ((l, o) = (0, 0))) as [[= -> ->]|Hne].
  - rewrite decide_False by lia. rewrite decide_True by lia. by rewrite Hg1, Hn.
  - rewrite Ho1 by done.
    destruct (decide (1 <= l < 1 + _ ∧ o = anc t (ki_KeyHash ki) l)) as [Hc|Hc].
    + rewrite decide_True; [done|]. lia.
    + rewrite decide_False; [done|]. intros [Hl' ->]. apply Hc. split; [|done].
      destruct (Z.eq_dec l 0) as [->|]; [|lia]. exfalso; apply Hne. by rewrite Hanc0.
Qed.

End Spec.

(** ** The representation relation *)

(** What an item adds to the count and to the hash of its leaf's node. *)
Definition live (k : Z) (it : HTreeItem) : Z := if 0 <? it_Ver it then 1 else 0.
Definition contrib (k : Z) (it : HTreeItem) : Z :=
  if 0 <? it_Ver it then Vhash it * khash_weight k else 0.

Section Rep.
Context (Conf : HStoreConfig) (H : CHeap).

Abbreviation entry := (Z * HTreeItem)%type.
Abbreviation lenc := (leaf_enc Conf).

(** [t] stores the entries [ess], one list per leaf, and the summary node of
    every leaf is exact. *)
Record rep (t : HTree) (ess : list (list entry)) : Prop := {
  rep_shape : shape Conf t;
  rep_leafs : leafs t = lenc <$> ess;
  rep_entries : ∀ o es, ess !! o = Some es →
    entries_ok (in_leaf t (Z.of_nat o)) es ∧ NoDup es.*1;
  rep_nodes : ∀ o es, ess !! o = Some es → ∃ n,
    get_node t (nlevels t - 1) (Z.of_nat o) = Some n
    ∧ count n = u32 (asum live es) ∧ hash n = u16 (asum contrib es)
    ∧ isHashUpdated n = true
}.

(** The inner nodes after an operation on key [kh]: those above its leaf are
    marked, the others are as they were. *)
Definition inner_marked (t t' : HTree) (kh : Z) : Prop :=
  ∀ l o, 0 <= l < nlevels t - 1 →
    get_node t' l o = if decide (o = anc t kh l) then invalidate <$> get_node t l o
                      else get_node t l o.

Lemma rep_leaf t ess kh :
  rep t ess → in_bucket t kh →
  ∃ es, ess !! Z.to_nat (leaf_of t kh) = Some es ∧ in_leaf t (leaf_of t kh) kh
    ∧ 0 <= leaf_of t kh ∧ Z.of_nat (Z.to_nat (leaf_of t kh)) = leaf_of t kh.
Proof.
  intros Hr Hb. destruct (rep_shape _ _ Hr) as [Hh Hd Hm _ Hl _ _]. unfold MAX_DEPTH in Hm.
  destruct (anc_range t kh (nlevels t - 1)) as [H0 H1]; [done|lia..|].
  fold (leaf_of t kh) in H0, H1. rewrite (rep_leafs _ _ Hr) in Hl. unfold zlen in Hl.
  rewrite length_fmap in Hl. destruct (lookup_lt_is_Some_2 ess (Z.to_nat (leaf_of t kh))) as [es He].
  { assert (16 ^ (nlevels t - 1) = Z.of_nat (length ess)) by lia. lia. }
  exists es. split; [done|]. split; [by split|]. lia.
Qed.

Lemma zget_leafs t ess o es :
  leafs t = lenc <$> ess → ess !! o = Some es → zget (leafs t) (Z.of_nat o) = Some (lenc es).
Proof. intros -> He. rewrite zget_nat, list_lookup_fmap, He. done. Qed.

Lemma KHASH_bounds t : shape Conf t → 5 <= TreeKeyHashLen Conf <= 8.
Proof. intros Hs. by destruct (KHASH_LENS_cover _ _ (sh_len _ _ Hs)). Qed.

(** Replacing the entries of one leaf and fixing its node. *)
Lemma leaf_step t ess ki es es' (nf : Node → Node) :
  rep t ess → prepared Conf ki → in_bucket t (ki_KeyHash ki) →
  ess !! Z.to_nat (leaf_of t (ki_KeyHash ki)) = Some es →
  entries_ok (in_leaf t (leaf_of t (ki_KeyHash ki))) es' → NoDup es'.*1 →
  (∀ n, count n = u32 (asum live es) → hash n = u16 (asum contrib es) →
        count (nf n) = u32 (asum live es') ∧ hash (nf n) = u16 (asum contrib es')
        ∧ isHashUpdated (nf n) = isHashUpdated n) →
  ∃ t1 p, getLeafAndInvalidNodes t ki
            = Some (t1, mkNodeInfo (nlevels t - 1) (leaf_of t (ki_KeyHash ki)) p)
    ∧ zget (leafs t1) (leaf_of t (ki_KeyHash ki)) = Some (lenc es)
    ∧ ∃ ls t', zset (leafs t1) (leaf_of t (ki_KeyHash ki)) (lenc es') = Some ls
      ∧ upd_node (mkHTree (ht_depth t1) (ht_bucketID t1) (levels t1) ls)
          (nlevels t - 1) (leaf_of t (ki_KeyHash ki)) nf = Some t'
      ∧ rep t' (<[Z.to_nat (leaf_of t (ki_KeyHash ki)) := es']> ess)
      ∧ same_frame t t' ∧ inner_marked t t' (ki_KeyHash ki).
Proof.
  intros Hr Hp Hb He Hok' Hnd' Hnf.
  destruct (rep_leaf t ess _ Hr Hb) as (es0 & He0 & Hin & Hpos & Hid).
  rewrite He in He0. injection He0 as <-.
  destruct (getLeafAndInvalidNodes_spec Conf t ki) as (t1 & p & Hg & Hs1 & Hfr & Hlf & Hnodes);
    [by eapply rep_shape|done|done|].
  set (o := leaf_of t (ki_KeyHash ki)) in *.
  exists t1, p. split; [done|].
  split. { rewrite <- Hid. rewrite Hlf. by eapply (zget_leafs t ess); [apply (rep_leafs _ _ Hr)|]. }
  destruct (rep_nodes _ _ Hr _ _ He) as (n & Hn & Hc & Hh & Hu). rewrite Hid in Hn.
  pose proof (rep_leafs _ _ Hr) as Hlfs.
  assert (Z.to_nat o < length ess)%nat as Hlt by (by eapply lookup_lt_Some).
  exists (<[Z.to_nat o := lenc es']> (leafs t1)).
  assert (get_node (mkHTree (ht_depth t1) (ht_bucketID t1) (levels t1)
            (<[Z.to_nat o := lenc es']> (leafs t1))) (nlevels t - 1) o = Some n) as Hn1.
  { rewrite get_node_leafs, Hnodes, decide_False by lia. done. }
  destruct (get_node_upd _ _ _ nf _ Hn1) as (t' & Hup & Hd' & Hb' & Hnl' & Hlf' & Hg' & Ho').
  exists t'. split.
  { unfold zset. rewrite Hlf, Hlfs. unfold zlen. rewrite length_fmap.
    destruct (Z.leb_spec 0 o); [|lia]. destruct (Z.ltb_spec o (Z.of_nat (length ess))); [done|lia]. }
  split; [done|]. destruct Hfr as (Hfd & Hfb & Hfn). cbn [ht_depth ht_bucketID leafs] in *.
  assert (Hfr' : same_frame t t').
  { change (nlevels t' = nlevels t1) in Hnl'. repeat split; congruence. }
  split; [|split; [done|]].
  - assert (Hkeep : ∀ l' o', (l', o') ≠ (nlevels t - 1, o) → nlevels t - 1 <= l' →
                    get_node t' l' o' = get_node t l' o').
    { intros l' o' Hne Hl'. rewrite Ho' by done. rewrite get_node_leafs, Hnodes, decide_False by lia. done. }
    split.
    + eapply (shape_upd Conf t1 t' (nlevels t - 1) o); [done|by repeat split|by rewrite Hlf'; unfold zlen; rewrite length_insert
        |by rewrite get_node_leafs in Hn1; rewrite Hn1|by rewrite Hg'|exact Ho'].
    + rewrite Hlf', Hlf, Hlfs. by rewrite list_fmap_insert.
    + intros o0 es0 Hl0. destruct (decide (o0 = Z.to_nat o)) as [->|Hne].
      * rewrite list_lookup_insert_eq in Hl0 by done. injection Hl0 as <-. split; [|done].
        rewrite Hid. eapply Forall_impl; [exact Hok'|]. intros e [H1 H2]. split; [|done].
        by apply (same_frame_in_leaf t t').
      * rewrite list_lookup_insert_ne in Hl0 by done.
        destruct (rep_entries _ _ Hr _ _ Hl0) as [He1 He2]. split; [|done].
        eapply Forall_impl; [exact He1|]. intros e [H1 H2]. split; [|done].
        by apply (same_frame_in_leaf t t').
    + intros o0 es0 Hl0. destruct Hfr' as (_ & _ & Hn2). rewrite Hn2.
      destruct (decide (o0 = Z.to_nat o)) as [->|Hne].
      * rewrite list_lookup_insert_eq in Hl0 by done. injection Hl0 as <-.
        destruct (Hnf n Hc Hh) as (H1 & H2 & H3). exists (nf n). rewrite Hid, Hg'.
        rewrite H3. done.
      * rewrite list_lookup_insert_ne in Hl0 by done. rewrite Hkeep; [by apply (rep_nodes _ _ Hr)| |lia].
        intros [= Heq]. lia.
  - intros l0 o0 Hl0. rewrite Ho'; [|intros [= -> _]; lia].
    rewrite get_node_leafs, Hnodes.
    destruct (decide (o0 = anc t (ki_KeyHash ki) l0)) as [Ha|Ha];
      [rewrite decide_True by done|rewrite decide_False by naive_solver]; done.
Qed.

(** ** Set, remove and get on a represented tree *)

Lemma u16_fold a b c w :
  u16 (u16 a + u16 (u16 (u16 (0 + b) - c) * w)) = u16 (a + b * w - c * w).
Proof.
  unfold u16. rewrite Z.add_0_l.
  rewrite Zplus_mod_idemp_l, Zplus_mod_idemp_r.
  rewrite (Zplus_mod a), Zmult_mod_idemp_l.
  rewrite Z.mul_sub_distr_r, (Zminus_mod (b mod 2 ^ 16 * w)), Zmult_mod_idemp_l.
  rewrite <- Zminus_mod, <- Zplus_mod. f_equal. lia.
Qed.

Lemma set_node_exact es kh item n :
  is_i32 (it_Ver item) → is_u16 (Vhash item) →
  count n = u32 (asum live es) → hash n = u16 (asum contrib es) →
  let old := assoc kh es in
  let oldm := match old with Some o => o | None => zeroItem end in
  let ex := match old with Some _ => true | None => false end in
  let n' :=
    (let '(vhash, cnt) := (0, count n) in
     let '(vhash, cnt) :=
       if 0 <? it_Ver item then (u16 (vhash + Vhash item), u32 (cnt + 1)) else (vhash, cnt) in
     let '(vhash, cnt) :=
       if ex && (0 <? it_Ver oldm) then (u16 (vhash - Vhash oldm), u32 (cnt - 1))
       else (vhash, cnt) in
     mkNode cnt (u16 (hash n + u16 (vhash * khash_weight kh))) (isHashUpdated n)) in
  count n' = u32 (asum live (assoc_set kh (norm item) es))
  ∧ hash n' = u16 (asum contrib (assoc_set kh (norm item) es))
  ∧ isHashUpdated n' = isHashUpdated n.
Proof.
  intros Hv Hh Hc Hhash. cbn zeta. rewrite !asum_set, Hc, Hhash.
  assert (live kh (norm item) = live kh item) as ->
    by (unfold live, norm; simpl; by rewrite i32_small).
  assert (contrib kh (norm item) = contrib kh item) as ->
    by (unfold contrib, norm; simpl; by rewrite i32_small, u16_small).
  generalize (asum live es) as a, (asum contrib es) as b. intros a b.
  set (w := khash_weight kh).
  assert (∀ x y, u16 (u16 b + u16 (u16 (u16 (0 + x) - y) * w)) = u16 (b + x * w - y * w)) as Hf
    by (intros; apply u16_fold).
  assert (∀ x, u16 (u16 b + u16 (u16 (0 + x) * w)) = u16 (b + x * w)) as Hf1.
  { intros x. replace (u16 (0 + x)) with (u16 (u16 (0 + x) - 0)) by width. rewrite Hf. f_equal; lia. }
  assert (H0 : u16 0 = 0) by done.
  destruct (assoc kh es) as [o|]; cbn [opt_val andb]; unfold live, contrib; fold w;
    destruct (0 <? it_Ver item); try destruct (0 <? it_Ver o); cbn [count hash isHashUpdated];
    (split; [width|split; [|done]]).
  - apply Hf.
  - rewrite Hf1. f_equal; lia.
  - replace (u16 (0 - Vhash o)) with (u16 (u16 (0 + 0) - Vhash o)) by done.
    rewrite Hf. f_equal; lia.
  - rewrite Z.mul_0_l, H0. width.
  - rewrite Hf1. f_equal; lia.
  - rewrite Z.mul_0_l, H0. width.
Qed.

Lemma ht_set_rep t ess ki meta pos :
  rep t ess → prepared Conf ki → in_bucket t (ki_KeyHash ki) →
  is_i32 (Ver meta) → is_u16 (ValueHash meta) →
  ∃ es t', ess !! Z.to_nat (leaf_of t (ki_KeyHash ki)) = Some es
    ∧ ht_set Conf H t ki meta pos = Some t'
    ∧ rep t' (<[Z.to_nat (leaf_of t (ki_KeyHash ki)) :=
         assoc_set (ki_KeyHash ki)
           (norm (mkHTreeItem (ki_KeyHash ki) pos (Ver meta) (ValueHash meta))) es]> ess)
    ∧ same_frame t t' ∧ inner_marked t t' (ki_KeyHash ki).
Proof.
  intros Hr Hp Hb Hv Hh.
  destruct (rep_leaf t ess _ Hr Hb) as (es & He & Hin & Hpos & Hid).
  set (item := mkHTreeItem (ki_KeyHash ki) pos (Ver meta) (ValueHash meta)).
  destruct (rep_entries _ _ Hr _ _ He) as [Hok Hnd]. rewrite Hid in Hok.
  pose proof (rep_shape _ _ Hr) as Hs.
  edestruct (leaf_step t ess ki es (assoc_set (ki_KeyHash ki) (norm item) es))
    as (t1 & p & Hg & Hz & ls & t' & Hzs & Hup & Hr' & Hfr & Him); [done..| | | |].
  { by apply entries_ok_set. }
  { by apply assoc_set_NoDup. }
  { intros n Hc Hhh. exact (set_node_exact es (ki_KeyHash ki) item n Hv Hh Hc Hhh). }
  exists es, t'. split; [done|]. split; [|done].
  unfold ht_set, setReq. rewrite Hg. simpl. unfold setToLeaf. cbn [ni_offset ni_level].
  rewrite Hz. simpl.
  rewrite (Leaf_Set_spec Conf H (KHASH_bounds t Hs) (in_leaf t (leaf_of t (ki_KeyHash ki))))
    by (done || (intros a b; by apply in_leaf_sep)).
  fold item. rewrite Hzs. simpl. exact Hup.
Qed.

Lemma ht_remove_rep t ess ki oldPos :
  rep t ess → prepared Conf ki → in_bucket t (ki_KeyHash ki) →
  ∃ es t', ess !! Z.to_nat (leaf_of t (ki_KeyHash ki)) = Some es
    ∧ ht_remove Conf t ki oldPos = Some t'
    ∧ rep t' (<[Z.to_nat (leaf_of t (ki_KeyHash ki)) :=
         match assoc (ki_KeyHash ki) es with
         | Some it => if removable oldPos it then assoc_del (ki_KeyHash ki) es else es
         | None => es
         end]> ess)
    ∧ same_frame t t' ∧ inner_marked t t' (ki_KeyHash ki).
Proof.
  intros Hr Hp Hb.
  destruct (rep_leaf t ess _ Hr Hb) as (es & He & Hin & Hpos & Hid).
  destruct (rep_entries _ _ Hr _ _ He) as [Hok Hnd]. rewrite Hid in Hok.
  pose proof (rep_shape _ _ Hr) as Hs. set (kh := ki_KeyHash ki) in *.
  set (es' := match assoc kh es with
              | Some it => if removable oldPos it then assoc_del kh es else es | None => es end).
  set (oldm := match assoc kh es with Some it => it | None => zeroItem end).
  set (rm := match assoc kh es with Some it => removable oldPos it | None => false end).
  edestruct (leaf_step t ess ki es es' (λ node,
    if rm && (0 <? it_Ver oldm) then
      mkNode (u32 (count node - 1))
        (u16 (hash node - u16 (Vhash oldm * khash_weight kh))) (isHashUpdated node)
    else node)) as (t1 & p & Hg & Hz & ls & t' & Hzs & Hup & Hr' & Hfr & Him); [done..| | | |].
  { unfold es'. repeat case_match; [by apply entries_ok_del|done..]. }
  { unfold es'. repeat case_match; [by apply assoc_del_NoDup|done..]. }
  { intros n Hc Hhh. unfold es', rm, oldm. destruct (assoc kh es) as [it|] eqn:Ha; [|done].
    destruct (removable oldPos it); [|done].
    rewrite !asum_del, Ha. cbn [opt_val andb]. unfold live at 2, contrib at 2.
    destruct (0 <? it_Ver it); cbn [count hash isHashUpdated]; rewrite Hc, Hhh;
      (split; [width|split; [|done]]); width. }
  exists es, t'. split; [done|]. split; [|done].
  fold kh in Hg, Hz, Hzs, Hup. unfold ht_remove. rewrite Hg. simpl. unfold remvoeFromLeaf.
  cbn [ni_offset ni_level]. fold kh. rewrite Hz. simpl.
  rewrite (Leaf_Remove_spec Conf (KHASH_bounds t Hs) (in_leaf t (leaf_of t kh)))
    by (done || (intros a b; by apply in_leaf_sep)).
  unfold rm, oldm, es' in *.
  destruct (assoc kh es) as [it|]; [destruct (removable oldPos it)|];
    rewrite Hzs; simpl; exact Hup.
Qed.

Lemma ht_get_rep t ess ki es :
  rep t ess → prepared Conf ki → in_bucket t (ki_KeyHash ki) →
  ess !! Z.to_nat (leaf_of t (ki_KeyHash ki)) = Some es →
  ht_get Conf t ki = Some (match assoc (ki_KeyHash ki) es with
    | Some it => (mkMeta 0 0 (it_Ver it) (Vhash it) 0, Pos it, true)
    | None => (zeroMeta, mkPos 0 0, false)
    end).
Proof.
  intros Hr Hp Hb He.
  destruct (rep_leaf t ess _ Hr Hb) as (es0 & He0 & Hin & Hpos & Hid).
  rewrite He in He0. injection He0 as <-.
  destruct (rep_entries _ _ Hr _ _ He) as [Hok Hnd]. rewrite Hid in Hok.
  pose proof (rep_shape _ _ Hr) as Hs. unfold ht_get, getReq.
  rewrite (getLeaf_spec Conf) by done. simpl. rewrite <- Hid.
  rewrite (zget_leafs t ess _ es) by (done || apply (rep_leafs _ _ Hr)). simpl.
  rewrite (Leaf_Get_spec Conf (KHASH_bounds t Hs) (in_leaf t (leaf_of t (ki_KeyHash ki))))
    by (done || (intros a b; by apply in_leaf_sep)).
  by destruct (assoc (ki_KeyHash ki) es).
Qed.

End Rep.
