(* ===== verification/HTreeMerkle.v ===== *)
(** * The hash tree as a finite map and as a Merkle tree

    [models t m]: the tree [t] stores the map [m]. [cached t]: every inner node
    marked updated holds the count and hash of the leaves under it. The
    operations of [HTree] preserve both, and [Update] computes the summary. *)

From S2P Require Import Prelude Config Key Cmem Item Leaf HTree HTreeSpec.

Section Models.
Context (Conf : HStoreConfig) (H : CHeap).

Definition stored (t : HTree) (ess : list (list (Z * HTreeItem))) (m : gmap Z HTreeItem) : Prop :=
  ∀ kh it, m !! kh = Some it ↔
    in_bucket t kh ∧ ∃ es, ess !! Z.to_nat (leaf_of t kh) = Some es ∧ assoc kh es = Some it.

(** The summary of the leaves, from the nodes of the last level. *)
Definition leaf_summary (t : HTree) (o : Z) : Z * Z :=
  match get_node t (nlevels t - 1) o with Some n => (count n, hash n) | None => (0, 0) end.

(** The summary a node [k] levels above the leaves has to hold. *)
Fixpoint summary (lv : Z → Z * Z) (k : nat) (o : Z) : Z * Z :=
  match k with
  | O => lv o
  | S k =>
      let cs := (λ i, summary lv k (o * 16 + Z.of_nat i)) <$> seq 0 16 in
      let cnt := foldl (λ c s, u32 (c + s.1)) 0 cs in
      (cnt, node_hash cnt (snd <$> cs))
  end.

Definition node_ok (t : HTree) (l o : Z) (n : Node) : Prop :=
  (count n, hash n) = summary (leaf_summary t) (Z.to_nat (nlevels t - 1 - l)) o.

Definition cached (t : HTree) : Prop :=
  ∀ l o n, 0 <= l < nlevels t → 0 <= o < 16 ^ l →
    get_node t l o = Some n → isHashUpdated n = true → node_ok t l o n.

(** The whole relation between a tree and the map it stores. *)
Definition models (t : HTree) (m : gmap Z HTreeItem) : Prop :=
  cached t ∧ ∃ ess, rep Conf t ess ∧ stored t ess m.

(** The live keys of a map: those whose version is positive. *)
Definition live_keys (m : gmap Z HTreeItem) : gmap Z HTreeItem :=
  filter (λ kv, 0 < it_Ver kv.2) m.

(** ** Stored maps *)

Lemma stored_lookup t ess m kh es :
  stored t ess m → in_bucket t kh → ess !! Z.to_nat (leaf_of t kh) = Some es →
  m !! kh = assoc kh es.
Proof.
  intros Hst Hb He. destruct (assoc kh es) as [it|] eqn:Ha.
  - apply Hst. eauto.
  - destruct (m !! kh) as [it|] eqn:Hm; [|done]. apply Hst in Hm as (_ & es' & He' & Ha').
    congruence.
Qed.

Lemma stored_update t t' ess m kh es es' m' :
  same_frame t t' → stored t ess m → in_bucket t kh →
  ess !! Z.to_nat (leaf_of t kh) = Some es →
  (∀ kh', kh' ≠ kh → assoc kh' es' = assoc kh' es) →
  (∀ kh', kh' ≠ kh → m' !! kh' = m !! kh') → m' !! kh = assoc kh es' →
  stored t' (<[Z.to_nat (leaf_of t kh) := es']> ess) m'.
Proof.
  intros (Hd & Hbk & Hn) Hst Hb He Hes Hm Hmk kh' it.
  assert (in_bucket t' kh' ↔ in_bucket t kh') as -> by (unfold in_bucket; by rewrite Hd, Hbk).
  assert (leaf_of t' kh' = leaf_of t kh') as -> by (unfold leaf_of, anc; by rewrite Hd, Hbk, Hn).
  assert (Z.to_nat (leaf_of t kh) < length ess)%nat as Hlt by (by eapply lookup_lt_Some).
  destruct (decide (kh' = kh)) as [->|Hne].
  - rewrite Hmk, list_lookup_insert_eq by done. naive_solver.
  - rewrite Hm by done. rewrite (Hst kh' it).
    destruct (decide (Z.to_nat (leaf_of t kh') = Z.to_nat (leaf_of t kh))) as [Heq|Hneq].
    + rewrite Heq, list_lookup_insert_eq, He by done. split; intros (? & ? & [= <-] & Ha).
      * split; [done|]. eexists. split; [done|]. by rewrite Hes.
      * split; [done|]. eexists. split; [done|]. by rewrite <- Hes.
    + rewrite list_lookup_insert_ne by done. done.
Qed.

(** ** Summaries *)

Lemma summary_ext lv lv' k o :
  (∀ j, o * 16 ^ Z.of_nat k <= j < (o + 1) * 16 ^ Z.of_nat k → lv j = lv' j) →
  summary lv k o = summary lv' k o.
Proof.
  revert o. induction k as [|k IH]; intros o Hlv; cbn [summary].
  { apply Hlv. simpl. lia. }
  assert ((λ i, summary lv k (o * 16 + Z.of_nat i)) <$> seq 0 16
        = (λ i, summary lv' k (o * 16 + Z.of_nat i)) <$> seq 0 16) as ->; [|done].
  apply list_fmap_ext. intros idx i Hi. apply IH. intros j Hj. apply Hlv.
  apply lookup_seq in Hi as [-> Hi].
  replace (Z.of_nat (S k)) with (Z.succ (Z.of_nat k)) by lia. rewrite Z.pow_succ_r by lia.
  assert (0 < 16 ^ Z.of_nat k) by lia. nia.
Qed.

Lemma anc_div t kh l :
  in_bucket t kh → 0 <= ht_depth t → 0 <= l <= nlevels t - 1 →
  ht_depth t + nlevels t <= MAX_DEPTH →
  leaf_of t kh / 16 ^ (nlevels t - 1 - l) = anc t kh l.
Proof.
  intros Hb Hd Hl Hm. unfold MAX_DEPTH in Hm. unfold leaf_of, anc.
  set (k := nlevels t - 1 - l).
  replace (nlevels t - 1) with (l + k) by lia.
  replace (16 - ht_depth t - l) with (16 - ht_depth t - (l + k) + k) by lia.
  rewrite (Z.pow_add_r 16 (16 - ht_depth t - (l + k)) k), <- Z.div_div by lia.
  generalize (kh / 16 ^ (16 - ht_depth t - (l + k))) as x. intros x.
  rewrite Z.pow_add_r, Z.mul_assoc by lia.
  replace (x - ht_bucketID t * 16 ^ l * 16 ^ k)
    with (x + (- (ht_bucketID t * 16 ^ l)) * 16 ^ k) by lia.
  rewrite Z.div_add by lia. lia.
Qed.

(** A step that marks the nodes above one leaf and changes no other leaf keeps
    the remaining cached summaries right. *)
Lemma cached_step t t' kh :
  shape Conf t → cached t → in_bucket t kh → same_frame t t' → inner_marked t t' kh →
  (∀ o, 0 <= o < 16 ^ (nlevels t - 1) → o ≠ leaf_of t kh →
     leaf_summary t' o = leaf_summary t o) → cached t'.
Proof.
  intros [Hh Hd Hm _ _ _ _] Hc Hb (Hfd & Hfb & Hfn) Him Hlv l o n Hl Ho Hn Hu.
  rewrite Hfn in *. unfold node_ok. rewrite Hfn.
  destruct (Z.eq_dec l (nlevels t - 1)) as [->|Hne].
  { rewrite Z.sub_diag. simpl. unfold leaf_summary. rewrite Hfn, Hn. done. }
  rewrite Him in Hn by lia.
  destruct (decide (o = anc t kh l)) as [->|Hoa].
  { destruct (get_node t l (anc t kh l)); simpl in Hn; [|done]. by injection Hn as <-. }
  rewrite (Hc l o n) by (done || lia). apply summary_ext. intros j Hj. symmetry.
  rewrite Z2Nat.id in Hj by lia. apply Hlv.
  { replace (nlevels t - 1) with (l + (nlevels t - 1 - l)) by lia.
    rewrite Z.pow_add_r by lia. nia. }
  intros ->. apply Hoa. rewrite <- (anc_div t kh l) by (done || lia).
  apply Z.div_unique with (leaf_of t kh - o * 16 ^ (nlevels t - 1 - l)); lia.
Qed.

Lemma leaf_summary_rep t ess o es :
  rep Conf t ess → ess !! o = Some es →
  leaf_summary t (Z.of_nat o) = (u32 (asum live es), u16 (asum contrib es)).
Proof.
  intros Hr He. destruct (rep_nodes _ _ _ Hr _ _ He) as (n & Hn & Hc & Hh & _).
  unfold leaf_summary. rewrite Hn. congruence.
Qed.

Lemma rep_len t ess : rep Conf t ess → zlen ess = 16 ^ (nlevels t - 1).
Proof.
  intros Hr. rewrite <- (sh_leafs _ _ (rep_shape _ _ _ Hr)), (rep_leafs _ _ _ Hr).
  unfold zlen. by rewrite length_fmap.
Qed.

(** A leaf other than the changed one keeps its summary. *)
Lemma leaf_summary_frame t t' ess o es es' :
  same_frame t t' → rep Conf t ess → rep Conf t' (<[o := es']> ess) → ess !! o = Some es →
  ∀ o', 0 <= o' < zlen ess → o' ≠ Z.of_nat o → leaf_summary t' o' = leaf_summary t o'.
Proof.
  intros Hf Hr Hr' He o' Ho' Hne. unfold zlen in Ho'.
  destruct (lookup_lt_is_Some_2 ess (Z.to_nat o')) as [e2 He2]; [lia|].
  replace o' with (Z.of_nat (Z.to_nat o')) by lia.
  rewrite (leaf_summary_rep t ess _ e2) by done.
  apply (leaf_summary_rep t' (<[o := es']> ess)); [done|].
  rewrite list_lookup_insert_ne by lia. done.
Qed.

(** ** Operations *)

(** Every operation on one leaf, at the level of maps. *)
Lemma models_leaf_step t t' ess m kh es es' m' :
  cached t → rep Conf t ess → stored t ess m → in_bucket t kh →
  ess !! Z.to_nat (leaf_of t kh) = Some es →
  rep Conf t' (<[Z.to_nat (leaf_of t kh) := es']> ess) →
  same_frame t t' → inner_marked t t' kh →
  (∀ kh', kh' ≠ kh → assoc kh' es' = assoc kh' es) →
  (∀ kh', kh' ≠ kh → m' !! kh' = m !! kh') → m' !! kh = assoc kh es' →
  models t' m'.
Proof.
  intros Hc Hr Hst Hb He Hr' Hfr Him Hes Hm Hmk.
  destruct (rep_leaf Conf t ess kh Hr Hb) as (es0 & He0 & _ & Hpos & Hid).
  split.
  - apply (cached_step t t' kh); try done; [by apply (rep_shape Conf t ess)|].
    intros o Ho Hne. eapply leaf_summary_frame; [done..| |lia].
    by rewrite (rep_len t ess).
  - eexists. split; [done|]. by apply (stored_update t t' ess m kh es es' m').
Qed.
(** Set, remove and get, as operations on the stored map. *)
Lemma ht_set_models t m ki meta pos :
  models t m → prepared Conf ki → in_bucket t (ki_KeyHash ki) →
  is_i32 (Ver meta) → is_u16 (ValueHash meta) →
  ∃ t', ht_set Conf H t ki meta pos = Some t' ∧ same_frame t t'
    ∧ models t' (<[ki_KeyHash ki :=
        norm (mkHTreeItem (ki_KeyHash ki) pos (Ver meta) (ValueHash meta))]> m).
Proof.
  intros (Hc & ess & Hr & Hst) Hp Hb Hv Hh.
  destruct (ht_set_rep Conf H t ess ki meta pos) as (es & t' & He & Hset & Hr' & Hfr & Him); try done.
  exists t'. split; [done|]. split; [done|].
  eapply models_leaf_step; try done.
  - intros kh' Hne. by apply assoc_set_ne.
  - intros kh' Hne. by rewrite lookup_insert_ne.
  - by rewrite lookup_insert_eq, assoc_set_eq.
Qed.

Definition after_remove (m : gmap Z HTreeItem) (kh : Z) (oldPos : Position) : gmap Z HTreeItem :=
  match m !! kh with
  | Some it => if removable oldPos it then delete kh m else m
  | None => m
  end.

Lemma ht_remove_models t m ki oldPos :
  models t m → prepared Conf ki → in_bucket t (ki_KeyHash ki) →
  ∃ t', ht_remove Conf t ki oldPos = Some t' ∧ same_frame t t'
    ∧ models t' (after_remove m (ki_KeyHash ki) oldPos).
Proof.
  intros (Hc & ess & Hr & Hst) Hp Hb.
  destruct (ht_remove_rep Conf t ess ki oldPos) as (es & t' & He & Hset & Hr' & Hfr & Him); try done.
  exists t'. split; [done|]. split; [done|].
  destruct (rep_entries _ _ _ Hr _ _ He) as [_ Hnd].
  unfold after_remove. rewrite (stored_lookup t ess m _ es) by done.
  eapply models_leaf_step; try done.
  - intros kh' Hne. repeat case_match; [by apply assoc_del_ne|done..].
  - intros kh' Hne. repeat case_match; [by rewrite lookup_delete_ne|done..].
  - pose proof (stored_lookup t ess m _ es Hst Hb He) as Hl.
    destruct (assoc (ki_KeyHash ki) es) as [it|] eqn:Ha; [|congruence].
    destruct (removable oldPos it); [|congruence].
    by rewrite lookup_delete_eq, assoc_del_eq.
Qed.

Lemma ht_get_models t m ki :
  models t m → prepared Conf ki → in_bucket t (ki_KeyHash ki) →
  ht_get Conf t ki = Some (match m !! ki_KeyHash ki with
    | Some it => (mkMeta 0 0 (it_Ver it) (Vhash it) 0, Pos it, true)
    | None => (zeroMeta, mkPos 0 0, false)
    end).
Proof.
  intros (Hc & ess & Hr & Hst) Hp Hb.
  destruct (rep_leaf Conf t ess _ Hr Hb) as (es & He & _).
  rewrite (ht_get_rep Conf t ess ki es) by done.
  by rewrite (stored_lookup t ess m _ es).
Qed.

(** ** Update *)

Definition leaves_updated (t : HTree) : Prop :=
  ∀ o, 0 <= o < 16 ^ (nlevels t - 1) → ∃ n,
    get_node t (nlevels t - 1) o = Some n ∧ isHashUpdated n = true.

(** What an update keeps. *)
Record upd_frame (t t' : HTree) : Prop := {
  uf_frame : same_frame t t';
  uf_leafs : leafs t' = leafs t;
  uf_shape : shape Conf t';
  uf_cached : cached t';
  uf_last : ∀ o, get_node t' (nlevels t - 1) o = get_node t (nlevels t - 1) o
}.

Lemma upd_frame_refl t : shape Conf t → cached t → upd_frame t t.
Proof. intros Hs Hc. split; [by repeat split|done..]. Qed.

Lemma upd_frame_trans t1 t2 t3 : upd_frame t1 t2 → upd_frame t2 t3 → upd_frame t1 t3.
Proof.
  intros [(a1 & b1 & c1) d1 e1 f1 g1] [(a2 & b2 & c2) d2 e2 f2 g2].
  split; [by repeat split; congruence|congruence|done|done|].
  intros o. rewrite <- c1, g2, c1. done.
Qed.

Lemma upd_frame_summary t t' : upd_frame t t' → ∀ o, leaf_summary t' o = leaf_summary t o.
Proof. intros [(_ & _ & Hn) _ _ _ Hl] o. unfold leaf_summary. by rewrite Hn, Hl. Qed.

Lemma upd_frame_leaves t t' : upd_frame t t' → leaves_updated t → leaves_updated t'.
Proof.
  intros [(_ & _ & Hn) _ _ _ Hl] Hu o Ho. rewrite Hn in *. rewrite Hl. by apply Hu.
Qed.

Lemma upd_frame_node_ok t t' l o n : upd_frame t t' → node_ok t' l o n ↔ node_ok t l o n.
Proof.
  intros Hf. unfold node_ok. destruct (uf_frame _ _ Hf) as (_ & _ & Hn). rewrite Hn.
  rewrite (summary_ext (leaf_summary t') (leaf_summary t)); [done|].
  intros. by apply upd_frame_summary.
Qed.

(** Writing the right summary into an inner node. *)
Lemma write_summary t l o n n0 :
  shape Conf t → cached t → 0 <= l < nlevels t - 1 → 0 <= o < 16 ^ l →
  get_node t l o = Some n0 → node_ok t l o n →
  ∃ t', upd_node t l o (λ _, n) = Some t' ∧ upd_frame t t' ∧ get_node t' l o = Some n.
Proof.
  intros Hs Hc Hl Ho Hn0 Hok.
  destruct (get_node_upd t l o (λ _, n) n0 Hn0) as (t' & Hup & Hd & Hb & Hnl & Hlf & Hg & Hk).
  exists t'. split; [done|]. split; [|done].
  assert (Hlast : ∀ o', get_node t' (nlevels t - 1) o' = get_node t (nlevels t - 1) o').
  { intros o'. apply Hk. intros [= Heq _]. lia. }
  assert (Hsum : ∀ o', leaf_summary t' o' = leaf_summary t o').
  { intros o'. unfold leaf_summary. by rewrite Hnl, Hlast. }
  split; [by repeat split|done| | |done].
  - eapply (shape_upd Conf t); [done|done|by rewrite Hlf|by rewrite Hn0|by rewrite Hg|done].
  - intros l' o' n' Hl' Ho' Hn' Hu'. unfold node_ok.
    rewrite (summary_ext (leaf_summary t') (leaf_summary t)) by auto. rewrite Hnl in *.
    destruct (decide ((l', o') = (l, o))) as [[= -> ->]|Hne].
    + rewrite Hg in Hn'. injection Hn' as <-. exact Hok.
    + rewrite Hk in Hn' by done. by apply (Hc l' o' n').
Qed.

Lemma updateNodes_spec fuel t l o :
  shape Conf t → cached t → leaves_updated t →
  0 <= l < nlevels t → 0 <= o < 16 ^ l → nlevels t - 1 - l < Z.of_nat fuel →
  ∃ t' n, updateNodes fuel t l o = Some (t', n) ∧ upd_frame t t'
    ∧ node_ok t l o n ∧ get_node t' l o = Some n ∧ isHashUpdated n = true.
Proof.
  revert t l o. induction fuel as [|fuel IH]; intros t l o Hs Hc Hu Hl Ho Hf; [lia|].
  cbn [updateNodes]. destruct (sh_nodes _ _ Hs l o Hl Ho) as [n Hn]. rewrite Hn.
  cbn [mbind option_bind].
  destruct (isHashUpdated n) eqn:Hup.
  { exists t, n. split; [done|]. split; [by apply upd_frame_refl|]. split; [by apply Hc|done]. }
  assert (l < nlevels t - 1) as Hlt.
  { destruct (decide (l = nlevels t - 1)) as [->|]; [|lia].
    destruct (Hu o Ho) as (n' & Hn' & Hu'). congruence. }
  set (step := λ acc i, '(t, cnt, hashs) ← acc;
       '(t, cnode) ← updateNodes fuel t (l + 1) (o * 16 + Z.of_nat i);
       Some (t, u32 (cnt + count cnode), hashs ++ [hash cnode])).
  assert (Hfold : ∀ il t0 cnt hs, upd_frame t t0 → Forall (λ i, (i < 16)%nat) il →
    let cs := (λ i, summary (leaf_summary t) (Z.to_nat (nlevels t - 1 - (l + 1)))
                      (o * 16 + Z.of_nat i)) <$> il in
    ∃ t1, foldl step (Some (t0, cnt, hs)) il
          = Some (t1, foldl (λ c s, u32 (c + s.1)) cnt cs, hs ++ cs.*2) ∧ upd_frame t t1).
  { induction il as [|i il IHis]; intros t0 cnt hs Hf0 His; cbn zeta.
    - exists t0. simpl. by rewrite app_nil_r.
    - apply Forall_cons in His as [Hi His]. cbn [foldl fmap list_fmap].
      destruct (uf_frame _ _ Hf0) as (Hd0 & Hb0 & Hn0).
      destruct (IH t0 (l + 1) (o * 16 + Z.of_nat i)) as (t1 & c & Hupd & Hf1 & Hok & Hg & _).
      { apply Hf0. } { apply Hf0. } { by apply (upd_frame_leaves t). } { lia. }
      { rewrite Z.pow_add_r by lia. change (16 ^ 1) with 16. lia. } { lia. }
      assert (step (Some (t0, cnt, hs)) i = Some (t1, u32 (cnt + count c), hs ++ [hash c])) as ->
        by (unfold step; simpl; by rewrite Hupd).
      apply (upd_frame_node_ok t t0) in Hok; [|done]. unfold node_ok in Hok.
      rewrite <- Hok. cbn [fst snd].
      destruct (IHis t1 (u32 (cnt + count c)) (hs ++ [hash c])) as (t2 & Hr & Hf2);
        [by eapply upd_frame_trans|done|].
      exists t2. split; [|done]. rewrite Hr.
      rewrite <- app_assoc. done. }
  destruct (Hfold (seq 0 16) t 0 []) as (t1 & Hr & Hf1).
  { by apply upd_frame_refl. } { by repeat (constructor; [lia|]); constructor. }
  rewrite Hr. cbn [mbind option_bind app].
  destruct (uf_frame _ _ Hf1) as (Hd1 & Hb1 & Hn1).
  match goal with |- context [upd_node t1 l o (λ _, ?n')] => set (nn := n') end.
  destruct (sh_nodes _ _ (uf_shape _ _ Hf1) l o) as [n1 Hg1]; [lia|done|].
  assert (Hok : node_ok t l o nn).
  { unfold node_ok, nn.
    replace (Z.to_nat (nlevels t - 1 - l)) with (S (Z.to_nat (nlevels t - 1 - (l + 1)))) by lia.
    done. }
  destruct (write_summary t1 l o nn n1) as (t2 & Hw & Hf2 & Hg2);
    [apply Hf1|apply Hf1|lia|done|done|by apply (upd_frame_node_ok t t1)|].
  rewrite Hw. simpl. exists t2, nn. split; [done|]. split; [by eapply upd_frame_trans|done].
Qed.

Lemma rep_upd t t' ess : rep Conf t ess → upd_frame t t' → rep Conf t' ess.
Proof.
  intros Hr Hf. destruct (uf_frame _ _ Hf) as (Hd & Hb & Hn). split.
  - apply Hf.
  - rewrite (uf_leafs _ _ Hf). apply Hr.
  - intros o es He. destruct (rep_entries _ _ _ Hr _ _ He) as [Hok Hnd]. split; [|done].
    eapply Forall_impl; [exact Hok|]. intros e [H1 H2]. split; [|done].
    by apply (same_frame_in_leaf t t'); [apply Hf|].
  - intros o es He. rewrite Hn, (uf_last _ _ Hf). by apply (rep_nodes _ _ _ Hr).
Qed.

Lemma rep_leaves_updated t ess : rep Conf t ess → leaves_updated t.
Proof.
  intros Hr o Ho. pose proof (rep_len t ess Hr) as Hl. unfold zlen in Hl.
  destruct (lookup_lt_is_Some_2 ess (Z.to_nat o)) as [es He]; [lia|].
  destruct (rep_nodes _ _ _ Hr _ _ He) as (n & Hn & _ & _ & Hu).
  exists n. by rewrite Z2Nat.id in Hn by lia.
Qed.

(** [Update] succeeds, keeps the stored map, and returns the summary of all the
    leaves. *)
Lemma Update_models t m :
  models t m → ∃ t' n, Update t = Some (t', n) ∧ models t' m ∧ same_frame t t'
    ∧ node_ok t 0 0 n.
Proof.
  intros (Hc & ess & Hr & Hst). pose proof (rep_shape _ _ _ Hr) as Hs.
  pose proof (sh_height _ _ Hs) as Hh.
  destruct (updateNodes_spec (length (levels t)) t 0 0) as (t' & n & Hu & Hf & Hok & _ & _);
    [done|done|by eapply rep_leaves_updated|lia|lia|unfold nlevels, zlen; lia|].
  exists t', n. split; [done|]. destruct (uf_frame _ _ Hf) as (Hd & Hb & Hn).
  split; [|split; [apply Hf|done]].
  split; [apply Hf|]. exists ess. split; [by eapply rep_upd|].
  intros kh it. unfold in_bucket, leaf_of, anc. rewrite Hd, Hb, Hn. apply Hst.
Qed.

(** ** What a summary is, in terms of the map *)

(** The sum of [f] over the items of [m] below the node [o], [k] levels above
    the leaves. *)
Definition under (t : HTree) (m : gmap Z HTreeItem) (f : Z → HTreeItem → Z) (k : nat) (o : Z) : Z :=
  zsum ((λ e, if leaf_of t e.1 / 16 ^ Z.of_nat k =? o then f e.1 e.2 else 0) <$> map_to_list m).

Lemma leaf_entries_perm t ess m o es :
  rep Conf t ess → stored t ess m → ess !! o = Some es →
  es ≡ₚ filter (λ e, leaf_of t e.1 = Z.of_nat o) (map_to_list m).
Proof.
  intros Hr Hst He. destruct (rep_entries _ _ _ Hr _ _ He) as [Hok Hnd].
  apply NoDup_Permutation.
  - by eapply NoDup_fmap_1.
  - apply NoDup_filter, NoDup_map_to_list.
  - intros [k it]. rewrite list_elem_of_filter, elem_of_map_to_list. simpl. rewrite (Hst k it). split.
    + intros Hin. unfold entries_ok in Hok. rewrite Forall_forall in Hok.
      destruct (Hok _ Hin) as [[Hb Hl] _]. simpl in Hb, Hl. split; [done|]. split; [done|].
      exists es. rewrite Hl, Nat2Z.id. split; [done|]. by apply assoc_of_in.
    + intros (Hl & _ & es' & He' & Ha). rewrite Hl, Nat2Z.id in He'.
      assert (es' = es) as -> by congruence. by apply assoc_in.
Qed.

Lemma zsum_filter {A} (P : A → Prop) `{!∀ x, Decision (P x)} (f : A → Z) l :
  zsum (f <$> filter P l) = zsum ((λ x, if decide (P x) then f x else 0) <$> l).
Proof.
  induction l as [|x l IH]; [done|]. rewrite filter_cons.
  destruct (decide (P x)) as [Hp|Hp]; cbn [fmap list_fmap]; rewrite ?zsum_cons.
  - rewrite decide_True by done. lia.
  - rewrite decide_False by done. lia.
Qed.

Lemma zsum_perm l l' : l ≡ₚ l' → zsum l = zsum l'.
Proof. induction 1; rewrite ?zsum_cons; lia. Qed.

Lemma asum_under t ess m o es f :
  rep Conf t ess → stored t ess m → ess !! o = Some es →
  asum f es = under t m f 0 (Z.of_nat o).
Proof.
  intros Hr Hst He. unfold asum, under.
  rewrite (zsum_perm _ _ (fmap_Permutation _ _ _ (leaf_entries_perm t ess m o es Hr Hst He))).
  rewrite zsum_filter. f_equal. apply list_fmap_ext. intros i [k it] _. simpl.
  rewrite Z.div_1_r. destruct (Z.eqb_spec (leaf_of t k) (Z.of_nat o));
    [by rewrite decide_True|by rewrite decide_False].
Qed.

Lemma zsum_pick x v o (g : nat → Z) n :
  zsum ((λ i, (if x =? o + Z.of_nat i then v else 0) + g i) <$> seq 0 n)
  = (if (o <=? x) && (x <? o + Z.of_nat n) then v else 0) + zsum (g <$> seq 0 n).
Proof.
  induction n as [|n IHn].
  - replace (o + Z.of_nat 0) with o by lia.
    destruct (Z.leb_spec o x), (Z.ltb_spec x o); cbn; lia.
  - rewrite seq_S, !fmap_app, !zsum_app, IHn. cbn [fmap list_fmap]. rewrite !zsum_cons.
    destruct (Z.leb_spec o x), (Z.ltb_spec x (o + Z.of_nat n)),
      (Z.ltb_spec x (o + Z.of_nat (S n))), (Z.eqb_spec x (o + Z.of_nat (0 + n)));
      cbn [andb]; lia.
Qed.

(** Counting below a node is counting below its sixteen children. *)
Lemma under_children t m f k o :
  under t m f (S k) o
  = zsum ((λ i, under t m f k (o * 16 + Z.of_nat i)) <$> seq 0 16).
Proof.
  unfold under. induction (map_to_list m) as [|[kh it] l IH]; [done|].
  cbn [fmap list_fmap]. rewrite zsum_cons, IH. cbn [fst snd].
  replace (Z.of_nat (S k)) with (Z.of_nat k + 1) by lia.
  rewrite Z.pow_add_r, <- Z.div_div by lia. change (16 ^ 1) with 16.
  generalize (leaf_of t kh / 16 ^ Z.of_nat k) as x. intros x.
  set (v := f kh it).
  assert ((if x / 16 =? o then v else 0)
          = if (o * 16 <=? x) && (x <? o * 16 + Z.of_nat 16) then v else 0) as ->.
  { destruct (Z.eqb_spec (x / 16) o), (Z.leb_spec (o * 16) x),
      (Z.ltb_spec x (o * 16 + Z.of_nat 16)); cbn [andb]; try done;
      exfalso; Z.div_mod_to_equations; lia. }
  match goal with |- _ + zsum (?g <$> _) = _ => rewrite <- (zsum_pick x v (o * 16) g 16) end.
  done.
Qed.

Lemma foldl_u32_sum (cs : list (Z * Z)) c :
  foldl (λ c s, u32 (c + s.1)) (u32 c) cs = u32 (c + zsum cs.*1).
Proof.
  revert c. induction cs as [|[a b] cs IH]; intros c.
  - simpl. f_equal. lia.
  - cbn [foldl fmap list_fmap fst]. replace (u32 (u32 c + a)) with (u32 (c + a)) by width.
    rewrite IH, zsum_cons. f_equal. lia.
Qed.

Lemma zsum_u32 l : u32 (zsum (u32 <$> l)) = u32 (zsum l).
Proof.
  induction l as [|x l IH]; [done|]. cbn [fmap list_fmap]. rewrite !zsum_cons.
  unfold u32 in *. by rewrite Zplus_mod, Z.mod_mod, IH, <- Zplus_mod by lia.
Qed.

(** The leaves' summaries, and every count above them, are functions of the map. *)
Definition map_summary (t : HTree) (m : gmap Z HTreeItem) (o : Z) : Z * Z :=
  (u32 (under t m live 0 o), u16 (under t m contrib 0 o)).

Lemma leaf_summary_map t ess m o :
  rep Conf t ess → stored t ess m → 0 <= o < 16 ^ (nlevels t - 1) →
  leaf_summary t o = map_summary t m o.
Proof.
  intros Hr Hst Ho. pose proof (rep_len t ess Hr) as Hl. unfold zlen in Hl.
  destruct (lookup_lt_is_Some_2 ess (Z.to_nat o)) as [es He]; [lia|].
  replace o with (Z.of_nat (Z.to_nat o)) by lia.
  rewrite (leaf_summary_rep t ess _ es) by done. unfold map_summary.
  by rewrite <- !(asum_under t ess m (Z.to_nat o) es).
Qed.

Lemma summary_count t m k o :
  (summary (map_summary t m) k o).1 = u32 (under t m live k o).
Proof.
  revert o. induction k as [|k IH]; intros o; [done|]. cbn [summary fst].
  rewrite (foldl_u32_sum _ 0), under_children, Z.add_0_l.
  rewrite <- list_fmap_compose.
  rewrite (list_fmap_ext _ (u32 ∘ (λ i, under t m live k (o * 16 + Z.of_nat i)))).
  - rewrite list_fmap_compose. apply zsum_u32.
  - intros i j _. simpl. apply IH.
Qed.

Lemma map_to_list_filter (P : Z * HTreeItem → Prop) `{!∀ x, Decision (P x)} (m : gmap Z HTreeItem) :
  map_to_list (filter P m) ≡ₚ filter P (map_to_list m).
Proof.
  apply NoDup_Permutation; [apply NoDup_map_to_list|apply NoDup_filter, NoDup_map_to_list|].
  intros [k it]. rewrite list_elem_of_filter, !elem_of_map_to_list, map_lookup_filter_Some.
  naive_solver.
Qed.

Lemma under_root t ess m :
  rep Conf t ess → stored t ess m →
  under t m live (Z.to_nat (nlevels t - 1)) 0 = Z.of_nat (size (live_keys m)).
Proof.
  intros Hr Hst. destruct (rep_shape _ _ _ Hr) as [Hh Hd Hm _ _ _ _]. unfold MAX_DEPTH in Hm.
  unfold live_keys, under. rewrite <- length_map_to_list.
  transitivity (zsum ((λ _, 1) <$> map_to_list (filter (λ kv : Z * HTreeItem, 0 < it_Ver kv.2) m))).
  - symmetry. etrans; [apply zsum_perm, fmap_Permutation, map_to_list_filter|].
    rewrite zsum_filter. f_equal. apply list_fmap_ext. intros i [k it] Hi. simpl.
    apply list_elem_of_lookup_2, elem_of_map_to_list, Hst in Hi as [Hb _].
    rewrite Z2Nat.id, Z.div_small by (lia || (apply anc_range; done || lia)).
    unfold live. simpl. destruct (Z.ltb_spec 0 (it_Ver it));
      [by rewrite decide_True|by rewrite decide_False by lia].
  - generalize (map_to_list (filter (λ kv : Z * HTreeItem, 0 < it_Ver kv.2) m)) as l.
    induction l as [|x l IH]; [done|]. cbn [fmap list_fmap length]. rewrite zsum_cons, IH. lia.
Qed.

End Models.
