(* ===== verification/HTreeProps.v ===== *)
(** * What the hash tree guarantees

    The theorems of the tree (src/store/htree.go) over whole histories: any
    sequence of sets, removes and updates from an empty tree behaves as the same
    sequence on a finite map; the root of an updated tree counts the live keys
    and depends on the stored map only. *)

From S2P Require Import Prelude Config Key Cmem Item Fixtures Leaf HTree HTreeSpec HTreeMerkle.

(** ** Histories *)

Inductive tree_op :=
| OpSet (ki : KeyInfo) (meta : Meta) (pos : Position)
| OpRemove (ki : KeyInfo) (oldPos : Position)
| OpUpdate.

Section Histories.
Context (Conf : HStoreConfig) (H : CHeap).

Definition run_op (t : HTree) (op : tree_op) : option HTree :=
  match op with
  | OpSet ki meta pos => ht_set Conf H t ki meta pos
  | OpRemove ki oldPos => ht_remove Conf t ki oldPos
  | OpUpdate => fst <$> Update t
  end.
Definition run_ops (t : HTree) (ops : list tree_op) : option HTree :=
  foldl (λ acc op, t ← acc; run_op t op) (Some t) ops.

(** The same operations on a map from key hashes to items. *)
Definition abs_op (m : gmap Z HTreeItem) (op : tree_op) : gmap Z HTreeItem :=
  match op with
  | OpSet ki meta pos =>
      <[ki_KeyHash ki := norm (mkHTreeItem (ki_KeyHash ki) pos (Ver meta) (ValueHash meta))]> m
  | OpRemove ki oldPos => after_remove m (ki_KeyHash ki) oldPos
  | OpUpdate => m
  end.
Definition abs_ops (m : gmap Z HTreeItem) (ops : list tree_op) : gmap Z HTreeItem :=
  foldl abs_op m ops.

(** The operations [bucket.go] issues: prepared keys of this bucket, fields in
    the range of their Go types. *)
Definition op_ok (t : HTree) (op : tree_op) : Prop :=
  match op with
  | OpSet ki meta pos =>
      prepared Conf ki ∧ in_bucket t (ki_KeyHash ki) ∧ is_i32 (Ver meta) ∧ is_u16 (ValueHash meta)
  | OpRemove ki _ => prepared Conf ki ∧ in_bucket t (ki_KeyHash ki)
  | OpUpdate => True
  end.

Lemma op_ok_frame t t' op : same_frame t t' → op_ok t op → op_ok t' op.
Proof.
  intros (Hd & Hb & _). destruct op; simpl; [| |done]; unfold in_bucket; by rewrite Hd, Hb.
Qed.

Lemma same_frame_trans t1 t2 t3 : same_frame t1 t2 → same_frame t2 t3 → same_frame t1 t3.
Proof. intros (? & ? & ?) (? & ? & ?). repeat split; congruence. Qed.

Lemma run_op_models t m op :
  models Conf t m → op_ok t op →
  ∃ t', run_op t op = Some t' ∧ same_frame t t' ∧ models Conf t' (abs_op m op).
Proof.
  intros Hm Hok. destruct op as [ki meta pos|ki oldPos|]; simpl in *.
  - destruct Hok as (? & ? & ? & ?). by apply ht_set_models.
  - destruct Hok as (? & ?). by apply ht_remove_models.
  - destruct (Update_models Conf t m Hm) as (t' & n & -> & ? & ? & _). simpl. eauto.
Qed.

Lemma run_ops_models t m ops :
  models Conf t m → Forall (op_ok t) ops →
  ∃ t', run_ops t ops = Some t' ∧ same_frame t t' ∧ models Conf t' (abs_ops m ops).
Proof.
  revert t m. induction ops as [|op ops IH]; intros t m Hm Hok.
  { exists t. by repeat split; try apply Hm. }
  apply Forall_cons in Hok as [Hop Hops].
  destruct (run_op_models t m op Hm Hop) as (t1 & Hr1 & Hf1 & Hm1).
  destruct (IH t1 (abs_op m op) Hm1) as (t2 & Hr2 & Hf2 & Hm2).
  { eapply Forall_impl; [exact Hops|]. intros o. by apply op_ok_frame. }
  exists t2. unfold run_ops in *. cbn [foldl]. simpl. rewrite Hr1.
  split; [done|]. split; [by eapply same_frame_trans|done].
Qed.

(** ** The empty tree *)

Lemma newHTree_node t d b h l o :
  newHTree d b h = Some t → 0 <= l < h → 0 <= o < 16 ^ l →
  get_node t l o = Some (mkNode 0 0 (l =? h - 1)).
Proof.
  unfold newHTree. destruct (Z.ltb_spec MAX_DEPTH (d + h)); [done|].
  destruct (Z.leb_spec h 0); [done|]. intros [= <-] Hl Ho.
  unfold get_node, zget. destruct (Z.ltb_spec l 0); [lia|]. cbn [levels].
  rewrite list_lookup_fmap, lookup_seq_lt by lia. simpl.
  destruct (Z.ltb_spec o 0); [lia|].
  assert (16 ^ l = Z.of_nat (16 ^ Z.to_nat l)) as Hp by (rewrite Nat2Z.inj_pow; f_equal; lia).
  rewrite lookup_replicate_2 by lia. do 2 f_equal.
  destruct (Z.eqb_spec l (h - 1)), (Nat.eqb_spec (Z.to_nat l) (Z.to_nat h - 1)); lia || done.
Qed.

Lemma newHTree_out t d b h l o :
  newHTree d b h = Some t → 0 <= l < h → 16 ^ l <= o → get_node t l o = None.
Proof.
  unfold newHTree. destruct (Z.ltb_spec MAX_DEPTH (d + h)); [done|].
  destruct (Z.leb_spec h 0); [done|]. intros [= <-] Hl Ho.
  unfold get_node, zget. destruct (Z.ltb_spec l 0); [lia|]. cbn [levels].
  rewrite list_lookup_fmap, lookup_seq_lt by lia. simpl.
  destruct (Z.ltb_spec o 0); [done|].
  assert (16 ^ l = Z.of_nat (16 ^ Z.to_nat l)) as Hp by (rewrite Nat2Z.inj_pow; f_equal; lia).
  apply lookup_replicate_None. lia.
Qed.

Lemma newHTree_frame t d b h :
  newHTree d b h = Some t →
  ht_depth t = d ∧ ht_bucketID t = b ∧ nlevels t = h ∧ d + h <= MAX_DEPTH ∧ 0 < h
  ∧ leafs t = replicate (16 ^ (Z.to_nat h - 1)) [].
Proof.
  unfold newHTree. destruct (Z.ltb_spec MAX_DEPTH (d + h)); [done|].
  destruct (Z.leb_spec h 0); [done|]. intros [= <-]. unfold nlevels, zlen.
  cbn [ht_depth ht_bucketID levels leafs]. rewrite length_fmap, length_seq. lia || (repeat split; try done; lia).
Qed.

(** The configuration's key-hash length is the one [InitTree] derives for trees
    of this depth and height. *)
Definition conf_for (d h : Z) : Prop :=
  0 <= d ∧ 2 <= h ∧ zget KHASH_LENS (d + h - 1) = Some (TreeKeyHashLen Conf).

Lemma newHTree_models t d b h :
  newHTree d b h = Some t → conf_for d h → models Conf t ∅.
Proof.
  intros Ht (Hd & Hh & Hlen). pose proof (λ l o, newHTree_node t d b h l o Ht) as Hnode.
  destruct (newHTree_frame t d b h Ht) as (Etd & Etb & Etn & Hmax & _ & Elf).
  assert (Hp : Z.of_nat (16 ^ (Z.to_nat h - 1)) = 16 ^ (h - 1)).
  { rewrite Nat2Z.inj_pow. f_equal. lia. }
  split.
  { intros l o n Hl Ho Hn Hu. rewrite Etn in *. rewrite Hnode in Hn by done. injection Hn as <-.
    simpl in Hu. apply Z.eqb_eq in Hu as ->. unfold node_ok. rewrite Etn, Z.sub_diag. simpl.
    unfold leaf_summary. rewrite Etn, Hnode by lia. done. }
  exists (replicate (16 ^ (Z.to_nat h - 1)) []). split; [split|].
  - split; rewrite ?Etn, ?Etd; try done.
    + intros l o Hl Ho. rewrite Hnode by done. done.
    + rewrite Elf. unfold zlen. by rewrite length_replicate.
    + intros l o Hl Ho. eapply newHTree_out; [done|lia|done].
  - by rewrite Elf, fmap_replicate.
  - intros o es [-> _]%lookup_replicate. split; constructor.
  - intros o es [-> Ho]%lookup_replicate. rewrite Etn, Hnode by lia.
    eexists. split; [done|]. simpl. by rewrite Z.eqb_refl.
  - intros kh it. rewrite lookup_empty. split; [done|].
    intros (_ & es & [-> _]%lookup_replicate & Ha). done.
Qed.

(** ** Claims *)

(** The root a map determines, for trees of one depth, bucket and height. *)
Lemma Update_root t m :
  models Conf t m →
  ∃ t' n, Update t = Some (t', n) ∧ models Conf t' m
    ∧ (count n, hash n) = summary (map_summary t m) (Z.to_nat (nlevels t - 1)) 0
    ∧ count n = u32 (Z.of_nat (size (live_keys m))).
Proof.
  intros Hm. destruct (Update_models Conf t m Hm) as (t' & n & Hu & Hm' & _ & Hok).
  exists t', n. split; [done|]. split; [done|].
  destruct Hm as (_ & ess & Hr & Hst). unfold node_ok in Hok. rewrite Z.sub_0_r in Hok.
  rewrite (summary_ext _ (map_summary t m)) in Hok.
  - split; [done|]. pose proof (f_equal fst Hok) as Hc. simpl in Hc.
    rewrite Hc, summary_count, (under_root Conf t ess m); done.
  - intros j Hj. pose proof (sh_height _ _ (rep_shape _ _ _ Hr)). rewrite Z2Nat.id in Hj by lia.
    eapply leaf_summary_map; [done|done|lia].
Qed.

Lemma map_summary_frame t t' m o : same_frame t t' → map_summary t' m o = map_summary t m o.
Proof.
  intros (Hd & Hb & Hn). unfold map_summary, under, leaf_of, anc. by rewrite Hd, Hb, Hn.
Qed.

(** Trees of one frame that store one map get one root. *)
Lemma Update_unique t1 t2 m :
  models Conf t1 m → models Conf t2 m → same_frame t1 t2 → ∀ t1' n1 t2' n2,
  Update t1 = Some (t1', n1) → Update t2 = Some (t2', n2) →
  count n2 = count n1 ∧ hash n2 = hash n1.
Proof.
  intros Hm1 Hm2 Hf t1' n1 t2' n2 H1 H2.
  destruct (Update_root t1 m Hm1) as (? & m1 & Hu1 & _ & Hs1 & _).
  destruct (Update_root t2 m Hm2) as (? & m2 & Hu2 & _ & Hs2 & _).
  rewrite H1 in Hu1. injection Hu1 as <- <-. rewrite H2 in Hu2. injection Hu2 as <- <-.
  destruct (Hf) as (_ & _ & Hn). rewrite Hn in Hs2.
  rewrite (summary_ext _ (map_summary t1 m)) in Hs2 by (intros; by apply map_summary_frame).
  rewrite <- Hs1 in Hs2. by injection Hs2.
Qed.

(** C12. The hash tree of a bucket refines a finite map from key hashes to items:
    any sequence of [set], [remove] and [Update] calls on a new tree runs
    without a panic, and afterwards every [get] answers what the map answers
    after the same inserts and conditional deletes. *)
Theorem htree_refines_map d b h t0 ops :
  newHTree d b h = Some t0 → conf_for d h → Forall (op_ok t0) ops →
  ∃ t, run_ops t0 ops = Some t ∧
    ∀ ki, prepared Conf ki → in_bucket t0 (ki_KeyHash ki) →
      ht_get Conf t ki = Some (match abs_ops ∅ ops !! ki_KeyHash ki with
        | Some it => (mkMeta 0 0 (it_Ver it) (Vhash it) 0, Pos it, true)
        | None => (zeroMeta, mkPos 0 0, false)
        end).
Proof.
  intros Ht Hc Hok. pose proof (newHTree_models _ _ _ _ Ht Hc) as Hm0.
  destruct (run_ops_models t0 ∅ ops Hm0 Hok) as (t & Hr & (Hd & Hb & Hn) & Hm).
  exists t. split; [done|]. intros ki Hp Hk. apply ht_get_models; [done|done|].
  unfold in_bucket in *. by rewrite Hd, Hb.
Qed.

(** After any history, [Update] returns a root whose count is the number of
    keys with a positive version (in 32 bits), and updating again changes
    neither the answer nor the stored items. *)
Theorem htree_root_count d b h t0 ops :
  newHTree d b h = Some t0 → conf_for d h → Forall (op_ok t0) ops →
  ∃ t t' n, run_ops t0 ops = Some t ∧ Update t = Some (t', n)
    ∧ count n = u32 (Z.of_nat (size (live_keys (abs_ops ∅ ops))))
    ∧ ∃ t'' n'', Update t' = Some (t'', n'') ∧ count n'' = count n ∧ hash n'' = hash n.
Proof.
  intros Ht Hc Hok. pose proof (newHTree_models _ _ _ _ Ht Hc) as Hm0.
  destruct (run_ops_models t0 ∅ ops Hm0 Hok) as (t & Hr & _ & Hm).
  destruct (Update_models Conf t _ Hm) as (t1 & n1 & Hu1 & Hm1 & Hfr & _).
  destruct (Update_root t _ Hm) as (t' & n & Hu & _ & _ & Hcnt).
  rewrite Hu1 in Hu. injection Hu as <- <-.
  destruct (Update_models Conf t1 _ Hm1) as (t2 & n2 & Hu2 & _).
  exists t, t1, n1. do 3 (split; [done|]). exists t2, n2. split; [done|].
  destruct (Update_unique t t1 _ Hm Hm1 Hfr _ _ _ _ Hu1 Hu2) as [-> ->]. done.
Qed.

(** C13. Two replicas of a bucket whose histories leave the same stored map
    agree on the summary of every history: [Update] gives both roots the same
    count and the same hash, whatever the order, the overwrites and the removes
    of the two histories. *)
Theorem htree_convergence d b h t0 ops1 ops2 :
  newHTree d b h = Some t0 → conf_for d h →
  Forall (op_ok t0) ops1 → Forall (op_ok t0) ops2 → abs_ops ∅ ops1 = abs_ops ∅ ops2 →
  ∃ t1 t2 t1' t2' n1 n2, run_ops t0 ops1 = Some t1 ∧ run_ops t0 ops2 = Some t2
    ∧ Update t1 = Some (t1', n1) ∧ Update t2 = Some (t2', n2)
    ∧ count n1 = count n2 ∧ hash n1 = hash n2.
Proof.
  intros Ht Hc Hok1 Hok2 Heq. pose proof (newHTree_models _ _ _ _ Ht Hc) as Hm0.
  destruct (run_ops_models t0 ∅ ops1 Hm0 Hok1) as (t1 & Hr1 & Hf1 & Hm1).
  destruct (run_ops_models t0 ∅ ops2 Hm0 Hok2) as (t2 & Hr2 & Hf2 & Hm2). rewrite <- Heq in Hm2.
  destruct (Update_models Conf t1 _ Hm1) as (t1' & n1 & Hu1 & _).
  destruct (Update_models Conf t2 _ Hm2) as (t2' & n2 & Hu2 & _).
  exists t1, t2, t1', t2', n1, n2. do 4 (split; [done|]).
  assert (same_frame t1 t2) as Hf.
  { destruct Hf1 as (? & ? & ?), Hf2 as (? & ? & ?). repeat split; congruence. }
  destruct (Update_unique t1 t2 _ Hm1 Hm2 Hf _ _ _ _ Hu1 Hu2) as [-> ->]. done.
Qed.

End Histories.

(** ** Concrete histories *)

Definition demo_tree : HTree :=
  match newHTree 1 5 3 with Some t => t | None => mkHTree 0 0 [] [] end.

Definition demo_ki (kh : Z) : KeyInfo := demo_key (bstr "k") kh.

Definition demo_ops : list tree_op :=
  [OpSet (demo_ki 0x5123456789abcdef) (mkMeta 0 0 1 77 0) (mkPos 3 512);
   OpSet (demo_ki 0x5123456789abcdee) (mkMeta 0 0 (-2) 0 0) (mkPos 0 256);
   OpUpdate;
   OpSet (demo_ki 0x5fffffffffffffff) (mkMeta 0 0 4 9 0) (mkPos 0 768);
   OpRemove (demo_ki 0x5fffffffffffffff) (mkPos 1 0);
   OpSet (demo_ki 0x5123456789abcdef) (mkMeta 0 0 2 78 0) (mkPos 4 0)].
Definition demo_ops' : list tree_op :=
  [OpSet (demo_ki 0x5fffffffffffffff) (mkMeta 0 0 4 9 0) (mkPos 0 768);
   OpSet (demo_ki 0x5123456789abcdef) (mkMeta 0 0 2 78 0) (mkPos 4 0);
   OpSet (demo_ki 0x5123456789abcdee) (mkMeta 0 0 (-2) 0 0) (mkPos 0 256)].

Lemma demo_ki_prepared kh : is_u64 kh → prepared demo_conf (demo_ki kh) ∧ ki_KeyHash (demo_ki kh) = kh.
Proof.
  intros Hk. unfold demo_ki, demo_key, NewKeyInfoFromBytes.
  destruct (Prepare_bucket demo_conf (mkKeyInfo kh false (bstr "k") (bstr "k") [] 0))
    as (ki & -> & Hp & He & _); [done|done|by vm_compute|]. done.
Qed.

Lemma demo_in_bucket kh :
  is_u64 kh → kh / 16 ^ 15 = 5 → in_bucket demo_tree (ki_KeyHash (demo_ki kh)).
Proof. intros Hk Hb. destruct (demo_ki_prepared kh Hk) as [_ ->]. by split. Qed.

Lemma demo_set_ok kh meta pos :
  is_u64 kh → kh / 16 ^ 15 = 5 → is_i32 (Ver meta) → is_u16 (ValueHash meta) →
  op_ok demo_conf demo_tree (OpSet (demo_ki kh) meta pos).
Proof. intros. split; [by apply demo_ki_prepared|]. split; [by apply demo_in_bucket|done]. Qed.

Lemma demo_remove_ok kh pos :
  is_u64 kh → kh / 16 ^ 15 = 5 → op_ok demo_conf demo_tree (OpRemove (demo_ki kh) pos).
Proof. intros. split; [by apply demo_ki_prepared|by apply demo_in_bucket]. Qed.

Ltac demo_ops_ok :=
  repeat first [apply Forall_nil; done
    | apply Forall_cons; split;
      [first [exact I | apply demo_set_ok; by vm_compute | apply demo_remove_ok; by vm_compute]|]].

Lemma htree_refines_map_witness :
  ∃ t, run_ops demo_conf demo_heap demo_tree demo_ops = Some t
    ∧ ht_get demo_conf t (demo_ki 0x5123456789abcdef) = Some (mkMeta 0 0 2 78 0, mkPos 4 0, true).
Proof.
  destruct (htree_refines_map demo_conf demo_heap 1 5 3 demo_tree demo_ops) as (t & Hr & Hg).
  - by vm_compute.
  - by vm_compute.
  - demo_ops_ok.
  - exists t. split; [exact Hr|]. rewrite Hg; [by vm_compute| |].
    + refine (proj1 (demo_ki_prepared _ _)); clear; by vm_compute.
    + apply demo_in_bucket; clear; by vm_compute.
Defined.

Lemma htree_root_count_witness :
  ∃ t t' n, run_ops demo_conf demo_heap demo_tree demo_ops = Some t ∧ Update t = Some (t', n)
    ∧ count n = 2.
Proof.
  destruct (htree_root_count demo_conf demo_heap 1 5 3 demo_tree demo_ops)
    as (t & t' & n & Hr & Hu & Hc & _); [by vm_compute|by vm_compute|demo_ops_ok|].
  exists t, t', n. split; [exact Hr|]. split; [exact Hu|]. rewrite Hc. by vm_compute.
Defined.

Lemma htree_convergence_witness :
  ∃ t1 t2 t1' t2' n1 n2, run_ops demo_conf demo_heap demo_tree demo_ops = Some t1
    ∧ run_ops demo_conf demo_heap demo_tree demo_ops' = Some t2
    ∧ Update t1 = Some (t1', n1) ∧ Update t2 = Some (t2', n2)
    ∧ count n1 = count n2 ∧ hash n1 = hash n2.
Proof.
  apply (htree_convergence demo_conf demo_heap 1 5 3);
    [by vm_compute|by vm_compute|demo_ops_ok|demo_ops_ok|by vm_compute].
Defined.
