(* ===== verification/HTreeDisk.v ===== *)
(** * Listing, dumping and loading the hash tree (src/store/htree.go)

    [ListDir] prints the items or the child nodes below a path; [dump] writes
    the leaf summaries and the leaves to a file, [load] reads them back into a
    new tree. Files are byte sequences; writing never fails in the model. *)

From S2P Require Import Prelude Strconv Config Key Cmem Item Fixtures.
From S2P Require Import Leaf HTree HTreeSpec HTreeMerkle HTreeProps.

Section Disk.
Context (Conf : HStoreConfig) (H : CHeap).

(** ** Listing *)

(** The callback of [collectItems]: it writes the key hash into the shared item. *)
Definition collect_item (filterkeyhash filtermask : Z) (h : Z) (m : HTreeItem)
    (items : list HTreeItem) : HTreeItem * list HTreeItem :=
  if Z.land filtermask h =? filterkeyhash then
    let m := mkHTreeItem h (Pos m) (it_Ver m) (Vhash m) in (m, items ++ [m])
  else (m, items).

(** [c.path = cpathBuf[:depth+c.level]; copy(c.path, ni.path); c.path[depth+ni.level] = i]. *)
Definition child_path (t : HTree) (ni : NodeInfo) (i : nat) : list Z :=
  take (Z.to_nat (ht_depth t + ni_level ni)) (ni_path ni ++ replicate 8 0) ++ [Z.of_nat i].

Fixpoint collectItems (fuel : nat) (t : HTree) (ni : NodeInfo) (items : list HTreeItem)
    (filterkeyhash filtermask : Z) : option (list HTreeItem) :=
  match fuel with
  | O => None
  | S fuel =>
      if nlevels t - 1 <=? ni_level ni then
        leaf ← zget (leafs t) (ni_offset ni);
        Some (Leaf_Iter Conf leaf (ni_path ni) (collect_item filterkeyhash filtermask) items)
      else
        foldl (λ acc i,
          items ← acc;
          let c := mkNodeInfo (ni_level ni + 1) (ni_offset ni * 16 + Z.of_nat i) (child_path t ni i) in
          _ ← get_node t (ni_level c) (ni_offset c);
          collectItems fuel t c items filterkeyhash filtermask)
        (Some items) (seq 0 16)
  end.

(** [shift := uint(64 - len(StringKey)*4); (filtermask >> shift) << shift]; a
    negative difference is a huge unsigned shift. *)
Definition list_mask (n : Z) : Z :=
  let shift := u64 (64 - n * 4) in
  if 64 <=? shift then 0
  else u64 (Z.shiftl (Z.shiftr 0xffffffffffffffff shift) shift).

Definition listDir (t : HTree) (ki : KeyInfo)
    : option (HTree * (list HTreeItem + list Node)) :=
  ni ← (if zlen (ki_KeyPath ki) =? ht_depth t
        then _ ← get_node t 0 0; Some (mkNodeInfo 0 0 (ki_KeyPath ki))
        else getNode t ki);
  '(t, _) ← updateNodes (length (levels t)) t (ni_level ni) (ni_offset ni);
  node ← get_node t (ni_level ni) (ni_offset ni);
  if (nlevels t - 1 <=? ni_level ni) || (count node <? ThresholdListKeyDefault) then
    items ← collectItems (length (levels t)) t ni [] (ki_KeyHash ki)
              (list_mask (zlen (ki_StringKey ki)));
    Some (t, inl items)
  else
    nodes ← mapM (λ i, get_node t (ni_level ni + 1) (ni_offset ni * 16 + Z.of_nat i)) (seq 0 16);
    Some (t, inr nodes).

(** ["%016x %d %d\n"] and ["%x/ %d %d\n"]. *)
Definition item_line (it : HTreeItem) : bytes :=
  pad0 16 (fmt_uint 16 (Keyhash it)) ++ bstr " " ++ Itoa (Vhash it) ++ bstr " "
  ++ Itoa (it_Ver it) ++ [10].
Definition node_line (i : nat) (n : Node) : bytes :=
  fmt_uint 16 (Z.of_nat i) ++ bstr "/ " ++ Itoa (hash n) ++ bstr " " ++ Itoa (count n) ++ [10].

Definition ListDir (t : HTree) (ki : KeyInfo) : option (HTree * (bytes + StoreErr)) :=
  if zlen (ki_Key ki) <? ht_depth t then Some (t, inr ErrBadDir)
  else
    '(t, res) ← listDir t ki;
    Some (t, inl (match res with
                  | inl items => items ≫= item_line
                  | inr nodes => concat (imap node_line nodes)
                  end)).

(** [ListTop] logs the listing of the bucket's root; what is left of it is the
    update of the nodes. *)
Definition top_key (t : HTree) : KeyInfo :=
  let path := fmt_uint 16 (ht_bucketID t) in mkKeyInfo 0 true path path [] 0.
Definition ListTop (t : HTree) : option HTree :=
  '(ki, _) ← Prepare Conf (top_key t);
  '(t, _) ← ListDir t ki;
  Some t.

(** ** Dump *)

Definition dump_node (n : Node) : bytes := le_put 4 (count n) ++ le_put 2 (hash n).
Definition dump_leaf (leaf : bytes) : bytes := le_put 4 (u32 (zlen leaf)) ++ leaf.

(** The file [dump] leaves at its path, and the tree after [ListTop]. *)
Definition dump (t : HTree) : option (HTree * bytes) :=
  t ← ListTop t;
  leafnodes ← zget (levels t) (TreeHeight Conf - 1);
  ls ← zslice (leafs t) 0 (zlen leafnodes);
  Some (t, (leafnodes ≫= dump_node) ++ (ls ≫= dump_leaf)).

(** ** Load *)

(** [io.ReadFull] of [n] bytes: the bytes read and the rest of the file, or an
    error with what was left. *)
Definition ReadFull (n : nat) (f : bytes) : (bytes * bytes) + bytes :=
  if (n <=? length f)%nat then inl (take n f, drop n f) else inr f.

(** The first loop of [load]: counts and hashes; [isHashUpdated] is kept. *)
Fixpoint load_nodes (ns : list Node) (f : bytes) : list Node * bytes * bool :=
  match ns with
  | [] => ([], f, true)
  | n :: ns =>
      match ReadFull 6 f with
      | inr f => (n :: ns, f, false)
      | inl (buf, f) =>
          let n := mkNode (le_word 4 buf) (le_word 2 (drop 4 buf)) (isHashUpdated n) in
          let '(ns, f, ok) := load_nodes ns f in (n :: ns, f, ok)
      end
  end.

(** The second loop: the leaves. A short read leaves a partly filled leaf. *)
Fixpoint load_leafs (ls : list bytes) (f : bytes) : list bytes * bytes * bool :=
  match ls with
  | [] => ([], f, true)
  | leaf :: ls =>
      match ReadFull 4 f with
      | inr f => (leaf :: ls, f, false)
      | inl (buf, f) =>
          let l := Z.to_nat (le_word 4 buf) in
          if (0 <? l)%nat then
            let leaf := enlarge H leaf l in
            match ReadFull l f with
            | inr f => ((f ++ drop (length f) leaf) :: ls, [], false)
            | inl (b, f) => let '(ls, f, ok) := load_leafs ls f in (b :: ls, f, ok)
            end
          else let '(ls, f, ok) := load_leafs ls f in (leaf :: ls, f, ok)
      end
  end.

(** [load]; the boolean is [err == nil]. *)
Definition load (t : HTree) (f : bytes) : option (HTree * bool) :=
  leafnodes ← zget (levels t) (TreeHeight Conf - 1);
  let '(ns, f, ok) := load_nodes leafnodes f in
  lv ← zset (levels t) (TreeHeight Conf - 1) ns;
  let t := with_levels t lv in
  if negb ok then Some (t, false)
  else
    ls ← zslice (leafs t) 0 (zlen leafnodes);
    let '(ls', f, ok) := load_leafs ls f in
    let t := mkHTree (ht_depth t) (ht_bucketID t) (levels t)
               (ls' ++ drop (length ls') (leafs t)) in
    if negb ok then Some (t, false)
    else
      t ← ListTop t;
      Some (t, true).

(** ** Listing never panics and only updates summaries *)

Lemma walk_node_spec path todo h offset :
  0 <= h → h + Z.of_nat todo <= zlen path →
  walk_node path todo h offset
  = Some (offset * 16 ^ Z.of_nat todo + digits_val (take todo (drop (Z.to_nat h) path))).
Proof.
  intros Hh Hl. replace (Z.to_nat h) with (Z.to_nat (h + 1 - 1)) by lia.
  rewrite <- (walk_spec path todo (h + 1) offset) by lia.
  revert h offset Hh Hl. induction todo as [|todo IH]; intros h offset Hh Hl; [done|].
  cbn [walk walk_node]. rewrite Z.add_simpl_r. destruct (zget path h); [|done]. simpl.
  apply IH; lia.
Qed.

Definition path_ok (t : HTree) (ki : KeyInfo) : Prop :=
  Forall (λ d, 0 <= d < 16) (ki_KeyPath ki) ∧ ht_depth t <= zlen (ki_KeyPath ki).

Lemma getNode_spec t ki :
  shape Conf t → path_ok t ki →
  let level := Z.min (nlevels t - 1) (zlen (ki_KeyPath ki) - ht_depth t) in
  ∃ o p, getNode t ki = Some (mkNodeInfo level o p) ∧ 0 <= level < nlevels t ∧ 0 <= o < 16 ^ level
    ∧ o = digits_val (take (Z.to_nat level) (drop (Z.to_nat (ht_depth t)) (ki_KeyPath ki)))
    ∧ p = take (Z.to_nat (ht_depth t + level)) (ki_KeyPath ki).
Proof.
  intros Hs [Hp Hl]. cbn zeta. destruct Hs as [Hh Hd _ Hn _ _ _]. unfold getNode.
  set (l := Z.min (ht_depth t + nlevels t - 1) (zlen (ki_KeyPath ki))).
  assert (l - ht_depth t = Z.min (nlevels t - 1) (zlen (ki_KeyPath ki) - ht_depth t)) as Hlev by lia.
  rewrite walk_node_spec by lia. rewrite Hlev. cbn [mbind option_bind].
  set (level := Z.min (nlevels t - 1) _) in *. rewrite Z.mul_0_l, Z.add_0_l.
  set (o := digits_val _).
  assert (0 <= o < 16 ^ level) as Ho.
  { pose proof (digits_val_range (take (Z.to_nat level) (drop (Z.to_nat (ht_depth t)) (ki_KeyPath ki)))
      ltac:(by apply Forall_take, Forall_drop)) as Hr.
    fold o in Hr. replace (zlen (take _ _)) with level in Hr; [done|].
    unfold zlen at 1. rewrite length_take, length_drop. unfold level, zlen in *. lia. }
  destruct (Hn level o) as [n ->]; [lia|done|]. cbn [mbind option_bind].
  unfold zslice. destruct (Z.leb_spec 0 0); [|lia]. destruct (Z.leb_spec 0 (ht_depth t + level)); [|lia].
  destruct (Z.leb_spec (ht_depth t + level) (zlen (ki_KeyPath ki))); [|lia]. cbn [andb mbind option_bind].
  eexists _, _. split; [done|]. rewrite drop_0, Z.sub_0_r. split; [lia|]. done.
Qed.

Lemma collectItems_total fuel t ni items fk fm :
  shape Conf t → 0 <= ni_level ni < nlevels t → 0 <= ni_offset ni < 16 ^ ni_level ni →
  nlevels t - 1 - ni_level ni < Z.of_nat fuel →
  is_Some (collectItems fuel t ni items fk fm).
Proof.
  intros Hs. revert ni items. induction fuel as [|fuel IH]; intros ni items Hl Ho Hf; [lia|].
  cbn [collectItems]. destruct (Z.leb_spec (nlevels t - 1) (ni_level ni)) as [Hle|Hlt].
  - destruct (zget_lt (leafs t) (ni_offset ni)) as [leaf ->]; [|done].
    rewrite (sh_leafs _ _ Hs). by replace (nlevels t - 1) with (ni_level ni) by lia.
  - assert (Hil : Forall (λ i, (i < 16)%nat) (seq 0 16))
      by (apply Forall_forall; intros i Hi; apply elem_of_seq in Hi; lia).
    revert items. induction Hil as [|i il Hi Hil IHil]; intros items; [done|].
    cbn [foldl]. set (c := mkNodeInfo _ _ _). cbn [mbind option_bind].
    assert (0 <= ni_offset c < 16 ^ ni_level c) as Hoc.
    { unfold c. cbn [ni_offset ni_level]. rewrite Z.pow_add_r by lia. change (16 ^ 1) with 16. lia. }
    destruct (sh_nodes _ _ Hs (ni_level c) (ni_offset c)) as [n ->]; [unfold c; simpl; lia|done|].
    cbn [mbind option_bind]. destruct (IH c items) as [items' ->]; [unfold c; simpl; lia|done|unfold c; simpl; lia|].
    apply IHil.
Qed.

Lemma listDir_safe t m ki :
  models Conf t m → path_ok t ki →
  ∃ t' res, listDir t ki = Some (t', res) ∧ upd_frame Conf t t' ∧ models Conf t' m.
Proof.
  intros (Hc & ess & Hr & Hst) Hp. pose proof (rep_shape _ _ _ Hr) as Hs.
  pose proof (sh_height _ _ Hs) as Hh. unfold listDir.
  assert (∃ ni, (if zlen (ki_KeyPath ki) =? ht_depth t
        then _ ← get_node t 0 0; Some (mkNodeInfo 0 0 (ki_KeyPath ki)) else getNode t ki) = Some ni
    ∧ 0 <= ni_level ni < nlevels t ∧ 0 <= ni_offset ni < 16 ^ ni_level ni) as (ni & -> & Hl & Ho).
  { destruct (Z.eqb_spec (zlen (ki_KeyPath ki)) (ht_depth t)).
    - destruct (sh_nodes _ _ Hs 0 0) as [n ->]; [lia|done|]. eexists. split; [done|]. simpl. lia.
    - destruct (getNode_spec t ki Hs Hp) as (o & p & -> & ? & ? & _). eexists. split; [done|done]. }
  cbn [mbind option_bind].
  destruct (updateNodes_spec Conf (length (levels t)) t (ni_level ni) (ni_offset ni))
    as (t' & n & -> & Hf & _ & Hg & _); [done|done|by eapply rep_leaves_updated|done|done
    |unfold nlevels, zlen in *; lia|].
  cbn [mbind option_bind]. rewrite Hg. cbn [mbind option_bind].
  destruct (uf_frame _ _ _ Hf) as (Hd & Hb & Hn).
  assert (Hlen : length (levels t') = length (levels t)) by (unfold nlevels, zlen in Hn; lia).
  assert (Hm' : models Conf t' m).
  { split; [apply Hf|]. exists ess. split; [by eapply rep_upd|].
    intros kh it. unfold in_bucket, leaf_of, anc. rewrite Hd, Hb, Hn. apply Hst. }
  destruct (_ || _) eqn:Hor.
  - destruct (collectItems_total (length (levels t')) t' ni [] (ki_KeyHash ki)
      (list_mask (zlen (ki_StringKey ki)))) as [items ->]; [apply Hf|lia|done|unfold nlevels, zlen in *; lia|].
    cbn [mbind option_bind]. eauto.
  - apply orb_false_iff in Hor as [Hle%Z.leb_gt _].
    assert (∃ ns, mapM (λ i, get_node t' (ni_level ni + 1) (ni_offset ni * 16 + Z.of_nat i)) (seq 0 16)
      = Some ns) as [ns ->].
    { apply mapM_is_Some, Forall_forall. intros i Hi%elem_of_seq.
      apply (sh_nodes _ _ (uf_shape _ _ _ Hf)); [lia|]. rewrite Z.pow_add_r by lia.
      change (16 ^ 1) with 16. lia. }
    cbn [mbind option_bind]. eauto.
Qed.

(** The bucket of a tree is named by the digits of its path; bucket counts are
    1, 16 or 256 ([GetBucketDir]). *)
Definition bucket_ok (t : HTree) : Prop :=
  ht_depth t = TreeDepth Conf ∧ nlevels t = TreeHeight Conf ∧ 0 <= ht_depth t <= 2
  ∧ 0 <= ht_bucketID t < 16 ^ ht_depth t.

Definition top_path_ok (b : Z) : bool :=
  match ParsePathString (fmt_uint 16 b) with
  | Some (p, None) =>
      forallb (in_range 0 15) p && (zlen p =? zlen (fmt_uint 16 b))
  | _ => false
  end.

Lemma top_paths : forallb (λ i, top_path_ok (Z.of_nat i)) (seq 0 256) = true.
Proof. by vm_compute. Qed.

Lemma top_path b :
  0 <= b < 256 → ∃ p, ParsePathString (fmt_uint 16 b) = Some (p, None)
    ∧ Forall (λ d, 0 <= d < 16) p ∧ zlen p = zlen (fmt_uint 16 b).
Proof.
  intros Hb. pose proof top_paths as Ht. rewrite forallb_forall in Ht.
  specialize (Ht (Z.to_nat b)). rewrite Z2Nat.id in Ht by lia.
  unfold top_path_ok in Ht. specialize (Ht ltac:(apply in_seq; lia)).
  destruct (ParsePathString (fmt_uint 16 b)) as [[p [e|]]|]; try done.
  apply andb_true_iff in Ht as [Hd Hl%Z.eqb_eq]. exists p. split; [done|]. split; [|done].
  rewrite forallb_forall in Hd. apply Forall_forall. intros d Hin%list_elem_of_In.
  specialize (Hd d Hin). unfold in_range in Hd. lia.
Qed.

Lemma upd_frame_models t t' m : models Conf t m → upd_frame Conf t t' → models Conf t' m.
Proof.
  intros (Hc & ess & Hr & Hst) Hf. destruct (uf_frame _ _ _ Hf) as (Hd & Hb & Hn).
  split; [apply Hf|]. exists ess. split; [by eapply rep_upd|].
  intros kh it. unfold in_bucket, leaf_of, anc. rewrite Hd, Hb, Hn. apply Hst.
Qed.

Lemma ListTop_spec t m :
  models Conf t m → bucket_ok t →
  ∃ t', ListTop t = Some t' ∧ upd_frame Conf t t' ∧ models Conf t' m.
Proof.
  intros Hm (Hd & Hh & Hd2 & Hb). unfold ListTop, top_key, Prepare. cbn [ki_KeyIsPath ki_StringKey].
  destruct (top_path (ht_bucketID t)) as (p & -> & Hp & Hl).
  { assert (16 ^ ht_depth t <= 16 ^ 2) by (apply Z.pow_le_mono_r; lia). lia. }
  cbn [mbind option_bind]. rewrite <- Hd.
  destruct (Z.ltb_spec (zlen p) (ht_depth t)) as [Hlt|Hge].
  - cbn [mbind option_bind]. unfold ListDir. cbn [ki_with_path ki_Key].
    rewrite <- Hl. destruct (Z.ltb_spec (zlen p) (ht_depth t)); [|lia].
    exists t. split; [done|]. split; [|done]. apply upd_frame_refl; [|apply Hm].
    destruct Hm as (_ & ess & Hr & _). by apply (rep_shape Conf t ess).
  - unfold zslice. destruct (Z.leb_spec 0 0); [|lia]. destruct (Z.leb_spec 0 (ht_depth t)); [|lia].
    destruct (Z.leb_spec (ht_depth t) (zlen p)); [|lia]. cbn [andb mbind option_bind].
    unfold ListDir. cbn [ki_with_path ki_Key]. rewrite <- Hl.
    destruct (Z.ltb_spec (zlen p) (ht_depth t)); [lia|].
    match goal with |- context [listDir t ?ki] => set (k := ki) end.
    destruct (listDir_safe t m k Hm) as (t' & res & -> & Hf & Hm'); [by split|]. eauto.
Qed.

(** ** The file format *)

Definition node_in_range (n : Node) : Prop :=
  is_u32 (count n) ∧ is_u16 (hash n) ∧ isHashUpdated n = true.

Lemma ReadFull_app n a b : length a = n → ReadFull n (a ++ b) = inl (a, b).
Proof.
  intros <-. unfold ReadFull. rewrite length_app.
  destruct (Nat.leb_spec (length a) (length a + length b)); [|lia].
  by rewrite take_app_length, drop_app_length.
Qed.

Lemma load_nodes_dump ns0 ns rest :
  length ns0 = length ns → Forall (λ n, isHashUpdated n = true) ns0 → Forall node_in_range ns →
  load_nodes ns0 ((ns ≫= dump_node) ++ rest) = (ns, rest, true).
Proof.
  revert ns. induction ns0 as [|n0 ns0 IH]; intros [|n ns] Hl H0 Hn; try done.
  apply Forall_cons in H0 as [Hu0 H0], Hn as [(Hc & Hh & Hu) Hn]. injection Hl as Hl.
  cbn [load_nodes mbind list_bind]. unfold dump_node at 1. rewrite <- app_assoc.
  rewrite ReadFull_app by (by rewrite length_app, !length_le_put).
  change (list_bind _ ?f ?l) with (l ≫= f). rewrite IH by done.
  rewrite le_word_put, drop_app_length' by (by rewrite length_le_put).
  replace (le_word 2 (le_put 2 (hash n))) with (le_word 2 (le_put 2 (hash n) ++ []))
    by (by rewrite app_nil_r).
  rewrite le_word_put, Hu0. destruct n as [c h u]. simpl in *. subst u.
  rewrite !Z.mod_small by (simpl; width). done.
Qed.

Lemma load_leafs_dump ls rest :
  Forall (λ leaf : bytes, zlen leaf < 2 ^ 32) ls →
  load_leafs (replicate (length ls) []) ((ls ≫= dump_leaf) ++ rest) = (ls, rest, true).
Proof.
  induction 1 as [|leaf ls Hl Hls IH]; [done|].
  cbn [load_leafs mbind list_bind length replicate]. unfold dump_leaf at 1. rewrite <- !app_assoc.
  rewrite ReadFull_app by (by rewrite length_le_put).
  change (list_bind _ ?f ?l) with (l ≫= f).
  assert (Z.to_nat (le_word 4 (le_put 4 (u32 (zlen leaf)))) = length leaf) as ->.
  { rewrite <- (app_nil_r (le_put 4 _)), le_word_put.
    rewrite Z.mod_small, u32_small by (pose proof (zlen_nonneg leaf); simpl; width).
    unfold zlen. lia. }
  destruct (Nat.ltb_spec 0 (length leaf)) as [Hpos|Hz].
  - rewrite ReadFull_app, IH by done. done.
  - destruct leaf; [|simpl in Hz; lia]. simpl. by rewrite IH.
Qed.

(** The last level of a represented tree: its length and the range of its nodes. *)
Lemma last_level t ess :
  rep Conf t ess → ∃ ns, zget (levels t) (nlevels t - 1) = Some ns
    ∧ zlen ns = 16 ^ (nlevels t - 1) ∧ zlen ns = zlen (leafs t) ∧ Forall node_in_range ns.
Proof.
  intros Hr. destruct (rep_shape _ _ _ Hr) as [Hh Hd Hm Hn Hl Hk Ho].
  destruct (zget_lt (levels t) (nlevels t - 1)) as [ns Hns]; [unfold nlevels in *; lia|].
  assert (Hg : ∀ o, get_node t (nlevels t - 1) o = zget ns o)
    by (intros o; unfold get_node; by rewrite Hns).
  assert (zlen ns = 16 ^ (nlevels t - 1)) as Hlen.
  { apply Z.le_antisymm.
    - destruct (Z.le_gt_cases (zlen ns) (16 ^ (nlevels t - 1))) as [|Hgt]; [done|].
      destruct (zget_lt ns (16 ^ (nlevels t - 1))) as [n Hz]; [lia|].
      rewrite <- Hg, Ho in Hz by lia. done.
    - destruct (Hn (nlevels t - 1) (16 ^ (nlevels t - 1) - 1)) as [n Hz]; [lia|lia|].
      rewrite Hg in Hz. apply zget_Some_lt in Hz. lia. }
  exists ns. split; [done|]. split; [done|]. split; [congruence|].
  apply Forall_lookup. intros o n Hon.
  pose proof (lookup_lt_Some _ _ _ Hon) as Hlt.
  destruct (lookup_lt_is_Some_2 ess o) as [es He].
  { pose proof (rep_len Conf t ess Hr) as He. unfold zlen in *. lia. }
  destruct (rep_nodes _ _ _ Hr _ _ He) as (n' & Hn' & Hc & Hhh & Hu).
  rewrite Hg, zget_nat, Hon in Hn'. injection Hn' as <-.
  split; [rewrite Hc; auto with width|]. split; [rewrite Hhh; auto with width|done].
Qed.

(** A new tree whose last level and leaves are replaced by those of [t] stores
    what [t] stores. *)
Lemma loaded_models t m ns t0 lv :
  models Conf t m → zget (levels t) (nlevels t - 1) = Some ns →
  newHTree (ht_depth t) (ht_bucketID t) (nlevels t) = Some t0 →
  zset (levels t0) (nlevels t - 1) ns = Some lv →
  models Conf (mkHTree (ht_depth t0) (ht_bucketID t0) lv (leafs t)) m.
Proof.
  intros (Hc & ess & Hr & Hst) Hns Ht0 Hlv. pose proof (rep_shape _ _ _ Hr) as Hs.
  destruct (newHTree_frame _ _ _ _ Ht0) as (Hd0 & Hb0 & Hn0 & _ & _ & _).
  set (t2 := mkHTree _ _ _ _).
  unfold zset in Hlv. destruct ((0 <=? nlevels t - 1) && _) eqn:Hrange; [|done].
  apply andb_true_iff in Hrange as [Hge%Z.leb_le Hlt%Z.ltb_lt]. injection Hlv as <-.
  assert (Hfr : same_frame t t2).
  { repeat split; [exact Hd0|exact Hb0|]. unfold t2, nlevels, zlen. simpl.
    rewrite length_insert. unfold nlevels, zlen in Hn0. exact Hn0. }
  assert (Hlast : ∀ o, get_node t2 (nlevels t - 1) o = get_node t (nlevels t - 1) o).
  { intros o. unfold get_node, t2. rewrite Hns. cbn [levels]. unfold zget at 2.
    destruct (Z.ltb_spec (nlevels t - 1) 0); [lia|].
    rewrite list_lookup_insert_eq by (unfold zlen in Hlt; lia). done. }
  assert (Hrest : ∀ l o, l ≠ nlevels t - 1 → get_node t2 l o = get_node t0 l o).
  { intros l o Hne. unfold get_node, t2, zget at 2. unfold zget at 3. cbn [levels].
    destruct (Z.ltb_spec l 0); [done|]. by rewrite list_lookup_insert_ne by lia. }
  destruct Hfr as (Hfd & Hfb & Hfn). destruct Hs as [Hh Hd Hm Hn Hl Hk Ho].
  split; [|exists ess; split; [split|]].
  - intros l o n Hlo Hoo Hn' Hu. rewrite Hfn in Hlo.
    destruct (Z.eq_dec l (nlevels t - 1)) as [->|Hne].
    + unfold node_ok. rewrite Hfn, Z.sub_diag. simpl. unfold leaf_summary. by rewrite Hfn, Hn'.
    + rewrite Hrest, (newHTree_node _ _ _ _ _ _ Ht0) in Hn' by (done || lia).
      injection Hn' as <-. simpl in Hu. lia.
  - split; rewrite ?Hfn, ?Hfd; try done; intros l o Hlo Hoo;
      (destruct (Z.eq_dec l (nlevels t - 1)) as [->|Hne];
       [rewrite Hlast; auto|rewrite Hrest by done]).
    + rewrite (newHTree_node _ _ _ _ _ _ Ht0) by (done || lia). done.
    + by apply (newHTree_out _ _ _ _ _ _ Ht0).
  - apply Hr.
  - intros o es He. destruct (rep_entries _ _ _ Hr _ _ He) as [Hok Hnd]. split; [|done].
    eapply Forall_impl; [exact Hok|]. intros e [H1 H2]. split; [|done].
    by apply (same_frame_in_leaf t t2).
  - intros o es He. rewrite Hfn, Hlast. by apply (rep_nodes _ _ _ Hr).
  - intros kh it. unfold in_bucket, leaf_of, anc. rewrite Hfd, Hfb, Hfn. apply Hst.
Qed.

Lemma newHTree_last d b h t0 :
  newHTree d b h = Some t0 →
  zget (levels t0) (h - 1) = Some (replicate (16 ^ (Z.to_nat h - 1)) (mkNode 0 0 true)).
Proof.
  unfold newHTree. destruct (_ <? _); [done|]. destruct (Z.leb_spec h 0); [done|].
  intros [= <-]. cbn [levels]. unfold zget. destruct (Z.ltb_spec (h - 1) 0); [lia|].
  rewrite list_lookup_fmap, lookup_seq_lt by lia.
  replace (Z.to_nat (h - 1)) with (Z.to_nat h - 1)%nat by lia. simpl. by rewrite Nat.eqb_refl.
Qed.

Lemma dump_spec t m :
  models Conf t m → bucket_ok t →
  ∃ t1 ns, dump t = Some (t1, (ns ≫= dump_node) ++ (leafs t ≫= dump_leaf))
    ∧ models Conf t1 m ∧ upd_frame Conf t t1 ∧ zget (levels t1) (nlevels t - 1) = Some ns
    ∧ zlen ns = 16 ^ (nlevels t - 1) ∧ zlen (leafs t) = zlen ns ∧ Forall node_in_range ns.
Proof.
  intros Hm Hbk. destruct (ListTop_spec t m Hm Hbk) as (t1 & Htop & Hf & Hm1).
  destruct (uf_frame _ _ _ Hf) as (Hd & Hb & Hn). destruct Hbk as (_ & Hht & _).
  assert (∃ ess, rep Conf t1 ess) as [ess Hr1] by (destruct Hm1 as (_ & ess & ? & _); eauto).
  destruct (last_level t1 ess Hr1) as (ns & Hns & Hnl & Hnlf & Hrange). rewrite Hn in Hns, Hnl.
  unfold dump. rewrite Htop. cbn [mbind option_bind]. rewrite <- Hht, Hns. cbn [mbind option_bind].
  rewrite (uf_leafs _ _ _ Hf) in Hnlf |- *. rewrite zslice_all by congruence.
  exists t1, ns. done.
Qed.

Lemma load_dumped t m ns t0 :
  models Conf t m → bucket_ok t → zget (levels t) (nlevels t - 1) = Some ns →
  zlen ns = 16 ^ (nlevels t - 1) → zlen (leafs t) = zlen ns → Forall node_in_range ns →
  Forall (λ leaf : bytes, zlen leaf < 2 ^ 32) (leafs t) →
  newHTree (ht_depth t) (ht_bucketID t) (nlevels t) = Some t0 →
  ∃ t2, load t0 ((ns ≫= dump_node) ++ (leafs t ≫= dump_leaf)) = Some (t2, true) ∧ models Conf t2 m ∧ same_frame t0 t2.
Proof.
  intros Hm (Hdp & Hht & Hd2 & Hbid) Hns Hnl Hlf Hrange Hsz Ht0.
  pose proof (newHTree_last _ _ _ _ Ht0) as Hns0.
  destruct (newHTree_frame _ _ _ _ Ht0) as (Hd0 & Hb0 & Hn0 & _ & Hpos & Hlf0).
  assert (Hpow : Z.of_nat (16 ^ (Z.to_nat (nlevels t) - 1)) = 16 ^ (nlevels t - 1))
    by (rewrite Nat2Z.inj_pow; f_equal; lia).
  destruct (zset_ok (levels t0) (nlevels t - 1) ns) as [lv Hset]; [unfold nlevels in *; lia|].
  pose proof (loaded_models t m ns t0 lv Hm Hns Ht0 Hset) as Hm2.
  destruct (ListTop_spec _ m Hm2) as (t2 & Htop2 & Hf3 & Hm3).
  { repeat split; cbn [ht_depth ht_bucketID]; try lia; [|by rewrite Hd0, Hb0; apply Hbid].
    rewrite <- Hht, <- Hn0. unfold nlevels, zlen. cbn [levels]. apply zset_length in Hset.
    by rewrite Hset. }
  exists t2. split; [|split; [done|]].
  2:{ destruct (uf_frame _ _ _ Hf3) as (Hd3 & Hb3 & Hn3). cbn [ht_depth ht_bucketID] in Hd3, Hb3. split; [done|]. split; [done|].
    rewrite Hn3. unfold nlevels, zlen. cbn [levels]. by rewrite (zset_length _ _ _ _ Hset). }
  unfold load. rewrite <- Hht, Hns0. cbn [mbind option_bind].
  rewrite load_nodes_dump; [|rewrite length_replicate; unfold zlen in *; lia
    |by apply Forall_replicate|done].
  rewrite Hset. cbn [mbind option_bind negb with_levels leafs].
  rewrite Hlf0, zslice_all by (unfold zlen; by rewrite !length_replicate). cbn [mbind option_bind].
  replace (16 ^ (Z.to_nat (nlevels t) - 1))%nat with (length (leafs t)) by (unfold zlen in *; lia).
  rewrite <- (app_nil_r (leafs t ≫= dump_leaf)), load_leafs_dump by done. cbn [negb].
  rewrite drop_ge, app_nil_r by (by rewrite length_replicate).
  cbn [ht_depth ht_bucketID levels with_levels]. by rewrite Htop2.
Qed.

(** The file of a dump loads as the tree that was dumped. *)
Lemma dump_loads t m t0 :
  models Conf t m → bucket_ok t → Forall (λ leaf : bytes, zlen leaf < 2 ^ 32) (leafs t) →
  newHTree (ht_depth t) (ht_bucketID t) (nlevels t) = Some t0 →
  ∃ t1 f t2, dump t = Some (t1, f) ∧ models Conf t1 m ∧ load t0 f = Some (t2, true) ∧ models Conf t2 m ∧ same_frame t0 t2.
Proof.
  intros Hm Hbk Hsz Ht0.
  destruct (dump_spec t m Hm Hbk) as (t1 & ns & Hdump & Hm1 & Hf & Hns & Hnl & Hlf & Hr).
  destruct (uf_frame _ _ _ Hf) as (Hd & Hb & Hn). pose proof (uf_leafs _ _ _ Hf) as Hlfs.
  destruct (load_dumped t1 m ns t0) as (t2 & Hload & Hm2 & Hf2);
    rewrite ?Hd, ?Hb, ?Hn, ?Hlfs; try done.
  { destruct Hbk as (? & ? & ? & ?). split; [congruence|]. split; [congruence|]. rewrite Hd, Hb. done. }
  rewrite Hlfs in Hload. eauto 10.
Qed.

(** C30. Dumping a tree to disk and loading the file into a new tree of the same
    bucket succeeds and gives back a tree that stores the same items; the dump
    itself leaves the stored items alone. *)
Theorem dump_load_round_trip t m t0 :
  models Conf t m → bucket_ok t → Forall (λ leaf : bytes, zlen leaf < 2 ^ 32) (leafs t) →
  newHTree (ht_depth t) (ht_bucketID t) (nlevels t) = Some t0 →
  ∃ t1 f t2, dump t = Some (t1, f) ∧ models Conf t1 m
    ∧ load t0 f = Some (t2, true) ∧ models Conf t2 m.
Proof.
  intros Hm Hbk Hsz Ht0. destruct (dump_loads t m t0 Hm Hbk Hsz Ht0) as (t1 & f & t2 & H1 & H2 & H3 & H4 & _).
  by exists t1, f, t2.
Qed.

End Disk.

Definition demo_tree1 : HTree :=
  match run_ops demo_conf demo_heap demo_tree demo_ops with Some t => t | None => demo_tree end.

Lemma demo_tree1_models : models demo_conf demo_tree1 (abs_ops ∅ demo_ops) ∧ same_frame demo_tree demo_tree1.
Proof.
  destruct (run_ops_models demo_conf demo_heap demo_tree ∅ demo_ops) as (t & Hr & Hf & Hm).
  - apply (newHTree_models demo_conf demo_tree 1 5 3); by vm_compute.
  - demo_ops_ok.
  - unfold demo_tree1. rewrite Hr. split; [exact Hm|exact Hf].
Qed.

Lemma dump_load_round_trip_witness :
  ∃ t1 f t2, dump demo_conf demo_tree1 = Some (t1, f)
    ∧ load demo_conf demo_heap demo_tree f = Some (t2, true)
    ∧ models demo_conf t2 (abs_ops ∅ demo_ops).
Proof.
  destruct (dump_load_round_trip demo_conf demo_heap demo_tree1 (abs_ops ∅ demo_ops) demo_tree)
    as (t1 & f & t2 & Hd & _ & Hl & Hm).
  - apply demo_tree1_models.
  - by vm_compute.
  - apply Forall_forall. intros leaf Hin%list_elem_of_In.
    assert (forallb (λ l : bytes, zlen l <? 2 ^ 32) (leafs demo_tree1) = true) as Hall by (by vm_compute).
    rewrite forallb_forall in Hall. by apply Z.ltb_lt, Hall.
  - by vm_compute.
  - exists t1, f, t2. split; [exact Hd|]. split; [exact Hl|exact Hm].
Defined.
