(* ===== verification/DataFile.v ===== *)
(** * Records on disk (src/store/datafile.go)

    A record is a 24-byte header (CRC, timestamp, flag, version, key and value
    size), the key, the value and zeros up to a multiple of 256. Files are byte
    sequences; a write that fails is fatal in the source and is not modelled. *)

From S2P Require Import Prelude Config Hashing Cmem Item Fixtures.

Record WriteRecord := mkWriteRecord {
  w_rec : Record_;
  w_crc : Z;
  w_ksz : Z;
  w_vsz : Z;
  w_pos : Position;
  w_header : bytes
}.

Definition zero_header : bytes := replicate 24 0.

(** [wrapRecord] also sets the record's [RecSize]. *)
Definition set_rec_size (rec : Record_) : Record_ :=
  mkRecord (r_Key rec)
    (mkPayload (set_recsize (p_meta (r_Payload rec)) (rec_Size rec)) (p_arr (r_Payload rec))).
Definition wrapRecord (rec : Record_) : WriteRecord :=
  mkWriteRecord (set_rec_size rec) 0 (u32 (zlen (r_Key rec)))
    (u32 (zlen (p_Body (r_Payload rec)))) (mkPos 0 0) zero_header.

(** The header fields, in file order after the CRC. *)
Definition header_fields (m : Meta) (ksz vsz : Z) : bytes :=
  le_put 4 (TS m) ++ le_put 4 (Flag m) ++ le_put 4 (u32 (Ver m)) ++ le_put 4 ksz ++ le_put 4 vsz.

(** [hasher.write] is only called on nonempty slices. *)
Definition crc_if (h : Z) (data : bytes) : Z :=
  if 0 <? zlen data then crc32_write h data else h.
Definition getCRC (header : bytes) (rec : Record_) : Z :=
  crc_get (crc_if (crc_if (crc32_write newCrc32 (drop 4 header)) (r_Key rec))
             (p_Body (r_Payload rec))).

Definition encodeHeader (w : WriteRecord) : WriteRecord :=
  let m := p_meta (r_Payload (w_rec w)) in
  let h := take 4 (w_header w) ++ header_fields m (w_ksz w) (w_vsz w) in
  let crc := getCRC h (w_rec w) in
  mkWriteRecord (w_rec w) (w_crc w) (w_ksz w) (w_vsz w) (w_pos w) (le_put 4 crc ++ drop 4 h).

(** [decodeHeader] on a new record. *)
Definition decodeHeader (h : bytes) : WriteRecord :=
  let word i := le_word 4 (drop i h) in
  mkWriteRecord
    (mkRecord [] (mkPayload (mkMeta (word 4%nat) (word 8%nat) (i32 (word 12%nat)) 0 0) nilCArray))
    (word 0%nat) (word 16%nat) (word 20%nat) (mkPos 0 0) h.

(** [WriteRecord.append]: the bytes it writes. *)
Definition wrec_append (w : WriteRecord) (dopadding : bool) : bytes :=
  let w := encodeHeader w in
  let '(size, sizeall) := Sizes (w_rec w) in
  let npad := u32 (sizeall - size) in
  w_header w ++ r_Key (w_rec w) ++ p_Body (r_Payload (w_rec w))
  ++ (if dopadding && negb (npad =? 0) then replicate (Z.to_nat npad) 0 else []).

(** ** Reading *)

(** [f.ReadAt] of [n] bytes: a short read is an error. *)
Definition ReadAt (f : bytes) (off n : Z) : option bytes :=
  if off + n <=? zlen f then Some (take (Z.to_nat n) (drop (Z.to_nat off) f)) else None.

Section Read.
Context (mc : MCConfig) (E : Ext).

(** [readRecordAt]: [None] is a panic; an error frees the payload. When the body
    cannot be read the payload does not own the buffer yet, so it is not freed. *)
Definition readRecordAt (f : bytes) (offset : Z) (r : BeansdbRL)
    : option ((WriteRecord + StoreErr) * BeansdbRL) :=
  match ReadAt f offset recHeaderSize with
  | None => Some (inr ErrReadHead, r)
  | Some h =>
      let w := decodeHeader h in
      if negb (IsValidKeySize mc (w_ksz w)) then Some (inr ErrBadKeySize, r)
      else if negb (IsValidValueSize mc (w_vsz w)) then Some (inr ErrBadValueSize, r)
      else
        let kvSize := u32 (w_ksz w + w_vsz w) in
        '(kv, ok, r) ← Alloc mc (heap E) kvSize r;
        if negb ok then Some (inr ErrAlloc, r)
        else
          let r := on_get (λ rl, AddSizeAndCount rl (Cap kv)) r in
          match ReadAt f (offset + recHeaderSize) kvSize with
          | None => Some (inr ErrRead, on_get (λ rl, SubSizeAndCount rl (Cap kv)) r)
          | Some body =>
              key ← zslice body 0 (w_ksz w);
              val ← zfrom body (w_ksz w);
              let rec := mkRecord key
                (mkPayload (set_recsize (p_meta (r_Payload (w_rec w))) (w_vsz w))
                           (mkCArray val (Addr kv) (Cap kv))) in
              let w := mkWriteRecord rec (w_crc w) (w_ksz w) (w_vsz w) (w_pos w) h in
              if negb (w_crc w =? getCRC h rec) then
                let r := on_get (λ rl, SubSizeAndCount rl (Cap kv)) r in
                Some (inr ErrCrc, (Free (p_arr (r_Payload rec)) r).2)
              else Some (inl w, r)
          end
  end.

(** ** Reading a file record by record *)

(** The reader's logical position in the file and its record offset. *)
Record DataStreamReader := mkReader { sr_file : bytes; sr_pos : nat; sr_offset : Z }.

Definition newDataStreamReader (f : bytes) : DataStreamReader := mkReader f 0 0.
Definition sr_seek (s : DataStreamReader) (offset : Z) : DataStreamReader :=
  mkReader (sr_file s) (Z.to_nat offset) offset.

(** [io.ReadFull] from the buffered reader: [inr true] is a clean end of file. *)
Definition stream_read (s : DataStreamReader) (n : nat) : (bytes + bool) * DataStreamReader :=
  let avail := drop (sr_pos s) (sr_file s) in
  if (n <=? length avail)%nat
  then (inl (take n avail), mkReader (sr_file s) (sr_pos s + n) (sr_offset s))
  else (inr (length avail =? 0)%nat, mkReader (sr_file s) (length (sr_file s)) (sr_offset s)).

Record NextRes := mkNext { n_rec : option Record_; n_offset : Z; n_broken : Z; n_err : option StoreErr }.

(** The loop of [nextValid], a step of 256 bytes at a time. *)
Fixpoint next_valid_loop (fuel : nat) (s : DataStreamReader) (offset2 sizeBroken : Z) (r : BeansdbRL)
    : option (NextRes * DataStreamReader * BeansdbRL) :=
  match fuel with
  | O => None
  | S fuel =>
      if offset2 <? zlen (sr_file s) then
        '(res, r) ← readRecordAt (sr_file s) offset2 r;
        match res with
        | inl w =>
            let rsize := rec_Size (w_rec w) in
            let offset3 := u32 (offset2 + rsize) in
            Some (mkNext (Some (w_rec w)) offset2 sizeBroken None,
                  mkReader (sr_file s) (Z.to_nat offset3) offset3, r)
        | inr _ =>
            let offset2 := u32 (offset2 + 256) in
            next_valid_loop fuel (mkReader (sr_file s) (sr_pos s) offset2) offset2
              (u32 (sizeBroken + 256)) r
        end
      else Some (mkNext None offset2 sizeBroken None, s, r)
  end.

(** A file has at most [len / 256 + 1] aligned offsets. *)
Definition nextValid (s : DataStreamReader) (r : BeansdbRL)
    : option (NextRes * DataStreamReader * BeansdbRL) :=
  next_valid_loop (S (length (sr_file s) / 256 + 1)) s (Z.land (sr_offset s) 0xffffff00) 0 r.

Definition next_err (e : StoreErr) : NextRes := mkNext None 0 0 (Some e).

Definition Next (s : DataStreamReader) (r : BeansdbRL)
    : option (NextRes * DataStreamReader * BeansdbRL) :=
  match stream_read s 24 with
  | (inr true, s) => Some (mkNext None 0 0 None, s, r)
  | (inr false, s) => Some (next_err ErrUnexpectedEOF, s, r)
  | (inl h, s) =>
      let w := decodeHeader h in
      if negb (IsValidKeySize mc (w_ksz w)) then nextValid s r
      else if negb (IsValidValueSize mc (w_vsz w)) then nextValid s r
      else
        match stream_read s (Z.to_nat (w_ksz w)) with
        | (inr _, s) => Some (next_err ErrRead, s, r)
        | (inl key, s) =>
            match stream_read s (Z.to_nat (w_vsz w)) with
            | (inr _, s) => Some (next_err ErrRead, s, r)
            | (inl body, s) =>
                let rec := mkRecord key
                  (mkPayload (p_meta (r_Payload (w_rec w))) (mkCArray body 0 0)) in
                let '(recsizereal, recsize) := Sizes rec in
                let tail := Z.land recsizereal 0xff in
                let s := if tail =? 0 then s else
                  mkReader (sr_file s)
                    (Nat.min (length (sr_file s)) (sr_pos s + Z.to_nat (PADDING - tail))) (sr_offset s) in
                if negb (w_crc w =? getCRC h rec) then nextValid s r
                else
                  let rec := mkRecord key
                    (mkPayload (set_recsize (p_meta (r_Payload (w_rec w))) recsize) (mkCArray body 0 0)) in
                  Some (mkNext (Some rec) (sr_offset s) 0 None,
                        mkReader (sr_file s) (sr_pos s) (u32 (sr_offset s + recsize)), r)
            end
        end
  end.

End Read.

(** ** Writing a stream *)

(** The writer's file position is the file's end when appending and may lie
    before it when a chunk is rewritten in place. *)
Record DataStreamWriter := mkWriter { sw_pos : Z; sw_offset : Z }.

(** A write at [pos] overwrites and extends. *)
Definition write_at (f : bytes) (pos : Z) (data : bytes) : bytes :=
  let f := f ++ replicate (Z.to_nat pos - length f) 0 in
  take (Z.to_nat pos) f ++ data ++ drop (Z.to_nat pos + length data) f.

Definition sw_append (w : DataStreamWriter) (f : bytes) (wr : WriteRecord)
    : DataStreamWriter * bytes * Z :=
  let data := wrec_append wr true in
  (mkWriter (sw_pos w + zlen data) (u32 (sw_offset w + RecSize (p_meta (r_Payload (w_rec wr))))),
   write_at f (sw_pos w) data, sw_offset w).

(** ** Encoding and decoding *)

Section Codec.
Context (mc : MCConfig) (E : Ext).

(** Records the store accepts: fields in the range of their Go types, sizes
    accepted by the configuration, no 32-bit overflow in the padded size. *)
Record rec_ok (rec : Record_) : Prop := {
  ro_ts : is_u32 (TS (p_meta (r_Payload rec)));
  ro_flag : is_u32 (Flag (p_meta (r_Payload rec)));
  ro_ver : is_i32 (Ver (p_meta (r_Payload rec)));
  ro_key : is_bytes (r_Key rec);
  ro_body : is_bytes (p_Body (r_Payload rec));
  ro_ksz : IsValidKeySize mc (zlen (r_Key rec)) = true;
  ro_vsz : IsValidValueSize mc (zlen (p_Body (r_Payload rec))) = true;
  ro_fits : fits32 rec
}.

(** What the CRC covers, the CRC, and the record on disk. *)
Definition rec_data (rec : Record_) : bytes :=
  header_fields (p_meta (r_Payload rec)) (zlen (r_Key rec)) (zlen (p_Body (r_Payload rec)))
  ++ r_Key rec ++ p_Body (r_Payload rec).
Definition data_crc (data : bytes) : Z := crc_get (crc32_write newCrc32 data).
Definition rec_pad (rec : Record_) : bytes :=
  replicate (Z.to_nat (rec_Size rec - zlen (rec_data rec) - 4)) 0.

Lemma length_header_fields m k v : length (header_fields m k v) = 20%nat.
Proof. unfold header_fields. by rewrite !length_app, !length_le_put. Qed.

Lemma zlen_rec_data rec :
  zlen (rec_data rec) = 20 + zlen (r_Key rec) + zlen (p_Body (r_Payload rec)).
Proof. unfold rec_data, zlen. rewrite !length_app, length_header_fields. lia. Qed.

Lemma crc_if_write h data : crc_if h data = crc32_write h data.
Proof.
  unfold crc_if. destruct (Z.ltb_spec 0 (zlen data)); [done|].
  destruct data; [done|unfold zlen in *; simpl in *; lia].
Qed.

Lemma getCRC_data h rec :
  getCRC h rec = data_crc (drop 4 h ++ r_Key rec ++ p_Body (r_Payload rec)).
Proof. unfold getCRC, data_crc. by rewrite !crc_if_write, !crc32_write_app. Qed.

Lemma data_crc_range data : is_u32 (data_crc data).
Proof.
  unfold data_crc, crc_get. apply lxor_range; [lia| |by vm_compute].
  apply crc32_write_range. by vm_compute.
Qed.

Lemma data_crc_change pre suf x y :
  is_u8 x → is_u8 y → x ≠ y → data_crc (pre ++ x :: suf) ≠ data_crc (pre ++ y :: suf).
Proof.
  intros Hx Hy Hne Heq%lxor_cancel_r. apply Hne.
  by eapply (crc32_write_byte_change newCrc32); [by vm_compute|..].
Qed.

(** The encoder: CRC, header fields, key, value, padding. *)
Lemma wrec_append_spec rec :
  fits32 rec →
  wrec_append (wrapRecord rec) true
  = le_put 4 (data_crc (rec_data rec)) ++ rec_data rec ++ rec_pad rec
  ∧ zlen (wrec_append (wrapRecord rec) true) = rec_Size rec.
Proof.
  intros Hf. destruct (Sizes_spec rec Hf) as [Hs Hb]. cbn zeta in *.
  pose proof (zlen_nonneg (r_Key rec)) as Hk0. pose proof (zlen_nonneg (p_Body (r_Payload rec))) as Hv0.
  unfold fits32 in Hf.
  assert (wrec_append (wrapRecord rec) true
    = le_put 4 (data_crc (rec_data rec)) ++ rec_data rec ++ rec_pad rec) as Henc.
  { unfold wrec_append, encodeHeader, wrapRecord. cbn [w_rec w_ksz w_vsz w_header w_crc w_pos].
    change (Sizes (set_rec_size rec)) with (Sizes rec). rewrite getCRC_data.
    change (p_Body (r_Payload (set_rec_size rec))) with (p_Body (r_Payload rec)).
    cbn [set_rec_size r_Key r_Payload p_meta].
    rewrite !u32_small by width.
    rewrite !drop_app_length' by done.
    change (header_fields (set_recsize ?m _) ?k ?v) with (header_fields m k v).
    fold (rec_data rec). rewrite Hs. rewrite <- !app_assoc. f_equal. unfold rec_data at 1.
    rewrite <- !app_assoc. do 3 f_equal. unfold rec_pad, rec_Size. rewrite Hs, zlen_rec_data. cbn [snd].
    rewrite u32_small by width.
    set (n := (24 + zlen (r_Key rec) + zlen (p_Body (r_Payload rec)) + 255) / 256 * 256) in *.
    destruct (Z.eqb_spec (n - (24 + zlen (r_Key rec) + zlen (p_Body (r_Payload rec)))) 0) as [Hz|Hnz];
      cbn [andb negb]; [|f_equal; lia].
    replace (Z.to_nat _) with 0%nat by lia. done. }
  split; [done|]. rewrite Henc. rewrite !zlen_app, zlen_rec_data.
  unfold rec_pad, rec_Size. rewrite Hs. cbn [snd]. unfold zlen at 1 4. rewrite length_le_put, length_replicate.
  rewrite zlen_rec_data. lia.
Qed.

Lemma ReadAt_app a b c off n :
  off = zlen a → n = zlen b → ReadAt (a ++ b ++ c) off n = Some b.
Proof.
  intros -> ->. unfold ReadAt. rewrite !zlen_app. pose proof (zlen_nonneg c).
  destruct (Z.leb_spec (zlen a + zlen b) (zlen a + (zlen b + zlen c))); [|lia].
  unfold zlen. by rewrite !Nat2Z.id, drop_app_length, take_app_length.
Qed.

(** The record that 4 bytes of CRC and [data] decode to. *)
Definition raw_record (data : bytes) (k v : Z) (kv : CArray) : Record_ :=
  mkRecord (take (Z.to_nat k) (drop 20 data))
    (mkPayload (mkMeta (le_word 4 data) (le_word 4 (drop 4 data)) (i32 (le_word 4 (drop 8 data))) 0 v)
               (mkCArray (drop (Z.to_nat k) (drop 20 data)) (Addr kv) (Cap kv))).

(** Reading succeeds exactly when the stored CRC is the CRC of the bytes read. *)
Lemma readRecordAt_raw pre c data post k v r kv r1 :
  is_u32 c → is_bytes data → zlen data = 20 + k + v → k + v < 2 ^ 32 →
  le_word 4 (drop 12 data) = k → le_word 4 (drop 16 data) = v →
  IsValidKeySize mc k = true → IsValidValueSize mc v = true →
  Alloc mc (heap E) (k + v) r = Some (kv, true, r1) →
  readRecordAt mc E (pre ++ (le_put 4 c ++ data) ++ post) (zlen pre) r
  = let rec := raw_record data k v kv in
    let r2 := on_get (λ rl, AddSizeAndCount rl (Cap kv)) r1 in
    Some (if c =? data_crc data
          then (inl (mkWriteRecord rec c k v (mkPos 0 0) (le_put 4 c ++ take 20 data)), r2)
          else (inr ErrCrc, (Free (p_arr (r_Payload rec))
                 (on_get (λ rl, SubSizeAndCount rl (Cap kv)) r2)).2)).
Proof.
  intros Hc Hbytes Hlen Hkv Hk Hv Hvk Hvv Hal. cbn zeta.
  assert (0 <= k ∧ 0 <= v) as [Hk0 Hv0].
  { pose proof (le_get_range (take 4 (drop 12 data)) ltac:(auto with width)).
    pose proof (le_get_range (take 4 (drop 16 data)) ltac:(auto with width)).
    unfold le_word in *. lia. }
  assert (length (take 20 data) = 20%nat) as Ht by (unfold zlen in Hlen; rewrite length_take; lia).
  set (h := le_put 4 c ++ take 20 data).
  assert (zlen h = 24) as Hh by (unfold h, zlen; rewrite length_app, length_le_put; lia).
  assert (pre ++ (le_put 4 c ++ data) ++ post = pre ++ h ++ drop 20 data ++ post) as Hf.
  { unfold h. rewrite <- (take_drop 20 data) at 1. by rewrite <- !app_assoc. }
  rewrite Hf. unfold readRecordAt. rewrite ReadAt_app by done.
  assert (∀ i, (i + 4 <= 20)%nat → le_word 4 (drop (4 + i) h) = le_word 4 (drop i data)) as Hw.
  { intros i Hi. unfold h. rewrite <- drop_drop, drop_app_length' by (by rewrite length_le_put).
    unfold le_word. rewrite !take_drop_commute, take_take. do 2 f_equal. f_equal. lia. }
  assert (decodeHeader h = mkWriteRecord (mkRecord [] (mkPayload (mkMeta (le_word 4 data)
    (le_word 4 (drop 4 data)) (i32 (le_word 4 (drop 8 data))) 0 0) nilCArray)) c k v (mkPos 0 0) h) as ->.
  { pose proof (Hw 0%nat) as H0. pose proof (Hw 4%nat) as H4. pose proof (Hw 8%nat) as H8.
    pose proof (Hw 12%nat) as H12. pose proof (Hw 16%nat) as H16. cbn [Nat.add] in *.
    unfold decodeHeader. rewrite H0, H4, H8, H12, H16, Hk, Hv, !drop_0 by lia.
    f_equal. unfold h. rewrite le_word_put, Z.mod_small; [done|exact Hc]. }
  cbn [w_ksz w_vsz w_rec w_crc w_pos r_Payload p_meta set_recsize TS Flag Ver ValueHash].
  rewrite Hvk, Hvv. cbn [negb]. rewrite u32_small, Hal by width. cbn [mbind option_bind negb].
  assert (zlen (drop 20 data) = k + v) as Hkvl by (unfold zlen in *; rewrite length_drop; lia).
  rewrite (app_assoc pre h), ReadAt_app by (rewrite ?zlen_app, ?Hh; done).
  unfold zfrom. rewrite (zslice_spec (drop 20 data) 0 k), zslice_spec by lia. cbn [mbind option_bind].
  rewrite Z.sub_0_r, drop_0. rewrite (take_ge (drop (Z.to_nat k) _)) by (rewrite length_drop; unfold zlen in *; lia).
  fold (raw_record data k v kv). rewrite getCRC_data. cbn [raw_record r_Key r_Payload p_Body p_arr Body].
  assert (drop 4 h = take 20 data) as -> by (unfold h; by rewrite drop_app_length' by (by rewrite length_le_put)).
  rewrite take_drop, take_drop. by destruct (c =? data_crc data).
Qed.

(** The record as it comes back from disk: same key, value and header fields; the
    value hash is not stored and [RecSize] is the value size. *)
Definition disk_form (rec : Record_) (kv : CArray) : Record_ :=
  let m := p_meta (r_Payload rec) in
  mkRecord (r_Key rec)
    (mkPayload (mkMeta (TS m) (Flag m) (Ver m) 0 (zlen (p_Body (r_Payload rec))))
               (mkCArray (p_Body (r_Payload rec)) (Addr kv) (Cap kv))).

Lemma rec_sizes rec :
  rec_ok rec → 0 < zlen (r_Key rec) ∧ 0 <= zlen (p_Body (r_Payload rec))
    ∧ 24 + zlen (r_Key rec) + zlen (p_Body (r_Payload rec)) + 255 < 2 ^ 32.
Proof.
  intros Hok. pose proof (ro_fits _ Hok) as Hf. unfold fits32 in Hf.
  pose proof (ro_ksz _ Hok) as Hk. unfold IsValidKeySize in Hk.
  pose proof (zlen_nonneg (r_Key rec)). pose proof (zlen_nonneg (p_Body (r_Payload rec))). lia.
Qed.

Lemma rec_data_bytes rec : rec_ok rec → is_bytes (rec_data rec).
Proof.
  intros Hok. unfold rec_data, header_fields. rewrite !is_bytes_app.
  pose proof (ro_key _ Hok). pose proof (ro_body _ Hok). auto 10 with width.
Qed.

(** The words of the header fields. *)
Lemma header_words m k v rest :
  is_u32 (TS m) → is_u32 (Flag m) → is_i32 (Ver m) → is_u32 k → is_u32 v →
  let d := header_fields m k v ++ rest in
  le_word 4 d = TS m ∧ le_word 4 (drop 4 d) = Flag m ∧ i32 (le_word 4 (drop 8 d)) = Ver m
  ∧ le_word 4 (drop 12 d) = k ∧ le_word 4 (drop 16 d) = v.
Proof.
  intros Ht Hf Hv Hk Hvs. cbn zeta. unfold header_fields. rewrite <- !app_assoc.
  assert (∀ x, is_u32 x → x mod 256 ^ Z.of_nat 4 = x) as Hsmall
    by (intros; rewrite Z.mod_small; [done|simpl; width]).
  assert (∀ (a : bytes) b, length a = 4%nat → drop 4 (a ++ b) = b) as Hd
    by (intros a b <-; apply drop_app_length).
  change 16%nat with (4 + (4 + (4 + 4)))%nat. change 12%nat with (4 + (4 + 4))%nat.
  change 8%nat with (4 + 4)%nat. rewrite <- !drop_drop.
  rewrite !Hd by apply length_le_put. rewrite !le_word_put.
  rewrite !Hsmall by (done || apply u32_range). by rewrite i32_u32.
Qed.

Lemma raw_record_data rec kv :
  rec_ok rec →
  raw_record (rec_data rec) (zlen (r_Key rec)) (zlen (p_Body (r_Payload rec))) kv = disk_form rec kv
  ∧ le_word 4 (drop 12 (rec_data rec)) = zlen (r_Key rec)
  ∧ le_word 4 (drop 16 (rec_data rec)) = zlen (p_Body (r_Payload rec)).
Proof.
  intros Hok. destruct (rec_sizes rec Hok) as (Hk & Hv & Hkv). unfold rec_data.
  set (m := p_meta (r_Payload rec)).
  destruct (header_words m (zlen (r_Key rec)) (zlen (p_Body (r_Payload rec)))
    (r_Key rec ++ p_Body (r_Payload rec))) as (H0 & H4 & H8 & H12 & H16);
    [apply Hok|apply Hok|apply Hok|width|width|].
  split; [|done]. unfold raw_record, disk_form. rewrite H0, H4, H8. fold m.
  rewrite drop_app_length' by (by rewrite length_header_fields).
  unfold zlen. rewrite Nat2Z.id, take_app_length, drop_app_length. done.
Qed.

Lemma readRecordAt_enc pre rec post r :
  rec_ok rec → can_alloc mc (heap E) (zlen (r_Key rec) + zlen (p_Body (r_Payload rec))) →
  ∃ w kv r', readRecordAt mc E (pre ++ wrec_append (wrapRecord rec) true ++ post) (zlen pre) r
      = Some (inl w, r') ∧ w_rec w = disk_form rec kv
    ∧ Cap kv = zlen (r_Key rec) + zlen (p_Body (r_Payload rec))
    ∧ GetData r' = AddSizeAndCount (GetData r) (Cap kv)
    ∧ SetData r' = SetData r ∧ FlushData r' = FlushData r.
Proof.
  intros Hok Hal. destruct (rec_sizes rec Hok) as (Hk & Hv & Hkv).
  destruct (wrec_append_spec rec (ro_fits _ Hok)) as [-> _].
  destruct (Alloc_ok mc (heap E) (zlen (r_Key rec) + zlen (p_Body (r_Payload rec))) r) as (kv & r1 & Ha & Hg & Hs & Hf & Hc);
    [lia|done|].
  destruct (raw_record_data rec kv Hok) as (Hraw & H12 & H16).
  rewrite (app_assoc (le_put 4 _) (rec_data rec)), <- (app_assoc _ (rec_pad rec) post).
  rewrite (readRecordAt_raw pre _ (rec_data rec) _ (zlen (r_Key rec)) (zlen (p_Body (r_Payload rec))) r kv r1);
    [|apply data_crc_range|by apply rec_data_bytes|by rewrite zlen_rec_data|lia|done|done
     |apply Hok|apply Hok|done].
  rewrite Z.eqb_refl, Hraw. eexists _, kv, _. split; [done|]. split; [done|]. split; [done|].
  cbn [on_get GetData SetData FlushData]. by rewrite Hg, Hs, Hf.
Qed.

(** C15. A record appended to a data file is read back from its offset whatever
    surrounds it: the key, the value, the timestamp, the flag and the version are
    those written, and the memory taken is charged to [GetData]. *)
Theorem record_round_trip pre rec post r :
  rec_ok rec → can_alloc mc (heap E) (zlen (r_Key rec) + zlen (p_Body (r_Payload rec))) →
  ∃ w kv r', readRecordAt mc E (pre ++ wrec_append (wrapRecord rec) true ++ post) (zlen pre) r
      = Some (inl w, r') ∧ w_rec w = disk_form rec kv
    ∧ GetData r' = AddSizeAndCount (GetData r) (Cap kv).
Proof.
  intros Hok Hal. destruct (readRecordAt_enc pre rec post r Hok Hal) as (w & kv & r' & ? & ? & _ & ? & _).
  eauto 10.
Qed.

(** Overwriting a byte outside a word leaves the word alone. *)
Lemma le_word_insert n k l i y :
  (i < k)%nat ∨ (k + n <= i)%nat → le_word n (drop k (<[i := y]> l)) = le_word n (drop k l).
Proof.
  intros Hi. unfold le_word. f_equal. destruct Hi as [Hi|Hi].
  - by rewrite drop_insert_lt.
  - by rewrite !take_drop_commute, take_insert_ge.
Qed.

Lemma data_crc_insert data i x y :
  is_bytes data → data !! i = Some x → is_u8 y → x ≠ y → data_crc (<[i := y]> data) ≠ data_crc data.
Proof.
  intros Hb Hi Hy Hne. pose proof (lookup_lt_Some _ _ _ Hi) as Hlt.
  assert (is_u8 x) by (unfold is_bytes in Hb; rewrite Forall_lookup in Hb; by eapply Hb).
  rewrite insert_take_drop by done. rewrite <- (take_drop_middle data i x) at 3 by done.
  apply not_eq_sym. by apply data_crc_change.
Qed.

Lemma is_bytes_insert l i y : is_bytes l → is_u8 y → is_bytes (<[i := y]> l).
Proof. intros. by apply Forall_insert. Qed.

(** A record whose CRC field and data disagree is refused, when its sizes are the
    ones it had. *)
Lemma readRecordAt_altered pre rec post r c' data' :
  rec_ok rec → can_alloc mc (heap E) (zlen (r_Key rec) + zlen (p_Body (r_Payload rec))) →
  is_u32 c' → is_bytes data' → zlen data' = zlen (rec_data rec) → c' ≠ data_crc data' →
  le_word 4 (drop 12 data') = le_word 4 (drop 12 (rec_data rec)) →
  le_word 4 (drop 16 data') = le_word 4 (drop 16 (rec_data rec)) →
  ∃ r', readRecordAt mc E (pre ++ ((le_put 4 c' ++ data') ++ rec_pad rec) ++ post) (zlen pre) r
        = Some (inr ErrCrc, r').
Proof.
  intros Hok Hal Hc' Hdb' Hl' Hcrc Hw12 Hw16. destruct (rec_sizes rec Hok) as (Hk & Hv & Hkv).
  destruct (Alloc_ok mc (heap E) (zlen (r_Key rec) + zlen (p_Body (r_Payload rec))) r) as (kv & r1 & Ha & _);
    [lia|done|].
  destruct (raw_record_data rec kv Hok) as (_ & H12 & H16). pose proof (zlen_rec_data rec) as Hdl.
  rewrite <- (app_assoc _ (rec_pad rec) post).
  rewrite (readRecordAt_raw pre c' data' _ (zlen (r_Key rec)) (zlen (p_Body (r_Payload rec))) r kv r1);
    [|done|done|lia|lia|congruence|congruence|apply Hok|apply Hok|done].
  apply Z.eqb_neq in Hcrc. rewrite Hcrc. eauto.
Qed.

(** C28. A single corrupted byte of a record on disk is detected when it is one of the
    bytes that hold the CRC, the timestamp, the flag or the version (0 to 15) or of the key
    or the value (from 24 to their end): the read reports a CRC error instead of returning
    a record. The sizes of key and value (16 to 23), which decide what is read, and the
    padding up to the multiple of 256, which the CRC does not cover, are not among them. *)
Theorem record_corruption_detected pre rec post r i x y :
  rec_ok rec → can_alloc mc (heap E) (zlen (r_Key rec) + zlen (p_Body (r_Payload rec))) →
  let b := wrec_append (wrapRecord rec) true in
  Z.of_nat i < 16 ∨ 24 <= Z.of_nat i < 24 + zlen (r_Key rec) + zlen (p_Body (r_Payload rec)) →
  b !! i = Some x → is_u8 y → x ≠ y →
  ∃ r', readRecordAt mc E (pre ++ <[i := y]> b ++ post) (zlen pre) r = Some (inr ErrCrc, r').
Proof.
  intros Hok Hal b Hi Hx Hy Hne. destruct (rec_sizes rec Hok) as (Hk & Hv & Hkv).
  destruct (wrec_append_spec rec (ro_fits _ Hok)) as [Hb _]. fold b in Hb.
  pose proof (rec_data_bytes rec Hok) as Hdb. pose proof (zlen_rec_data rec) as Hdl.
  set (c := data_crc (rec_data rec)) in *. set (data := rec_data rec) in *.
  pose proof (λ c' data', readRecordAt_altered pre rec post r c' data' Hok Hal) as Hgo.
  rewrite Hb, app_assoc in Hx.
  destruct (decide (i < 4)%nat) as [Hlt|Hge].
  - set (cb := <[i := y]> (le_put 4 c)).
    assert (is_bytes cb) as Hcb by (apply is_bytes_insert; auto with width).
    assert (length cb = 4%nat) as Hcl by (unfold cb; by rewrite length_insert, length_le_put).
    assert (le_put 4 (le_get cb) = cb) as Hput by (rewrite <- Hcl; by apply le_put_get).
    rewrite lookup_app_l, lookup_app_l in Hx by (rewrite ?length_app, length_le_put; lia).
    rewrite Hb, (app_assoc (le_put 4 c) data), !insert_app_l by (rewrite ?length_app, length_le_put; lia).
    fold cb. rewrite <- Hput. apply (Hgo (le_get cb) data); try done.
    + pose proof (le_get_range cb Hcb) as Hr. unfold zlen in Hr. rewrite Hcl in Hr. exact Hr.
    + fold c. intros Heq. rewrite Heq in Hput.
      assert (cb !! i = Some y) as Hcy by (apply list_lookup_insert_eq; rewrite length_le_put; lia).
      rewrite <- Hput in Hcy. congruence.
  - assert (i - 4 < length data)%nat as Hlt by (unfold zlen at 1 in Hdl; lia).
    rewrite lookup_app_l, lookup_app_r in Hx by (rewrite ?length_app, length_le_put; lia).
    rewrite length_le_put in Hx.
    rewrite Hb, (app_assoc (le_put 4 c) data), insert_app_l by (rewrite ?length_app, length_le_put; lia).
    rewrite insert_app_r_alt, length_le_put by (rewrite length_le_put; lia).
    apply (Hgo c (<[(i - 4)%nat := y]> data)); try done.
    + apply data_crc_range.
    + by apply is_bytes_insert.
    + unfold zlen. by rewrite length_insert.
    + apply not_eq_sym. by eapply data_crc_insert.
    + apply le_word_insert. lia.
    + apply le_word_insert. lia.
Qed.

(** ** Scanning a file *)

(** A record as [Next] returns it: the value lives in the reader's buffer. *)
Definition stream_form (rec : Record_) : Record_ :=
  let m := p_meta (r_Payload rec) in
  mkRecord (r_Key rec)
    (mkPayload (mkMeta (TS m) (Flag m) (Ver m) 0 (rec_Size rec))
               (mkCArray (p_Body (r_Payload rec)) 0 0)).

Lemma stream_read_app pre b post pos off n :
  pos = length pre → length b = n →
  stream_read (mkReader (pre ++ b ++ post) pos off) n
  = (inl b, mkReader (pre ++ b ++ post) (pos + n) off).
Proof.
  intros -> <-. unfold stream_read. cbn [sr_pos sr_file sr_offset].
  rewrite drop_app_length, length_app.
  destruct (Nat.leb_spec (length b) (length b + length post)); [|lia]. by rewrite take_app_length.
Qed.

Lemma land_ff_mod x : 0 <= x → Z.land x 0xff = x mod 256.
Proof. intros. change 0xff with (Z.ones 8). by rewrite Z.land_ones. Qed.

Definition rec_header (rec : Record_) : bytes :=
  le_put 4 (data_crc (rec_data rec)) ++
  header_fields (p_meta (r_Payload rec)) (zlen (r_Key rec)) (zlen (p_Body (r_Payload rec))).

Lemma rec_header_spec rec :
  rec_ok rec →
  let m := p_meta (r_Payload rec) in
  length (rec_header rec) = 24%nat
  ∧ wrec_append (wrapRecord rec) true
    = rec_header rec ++ r_Key rec ++ p_Body (r_Payload rec) ++ rec_pad rec
  ∧ drop 4 (rec_header rec) ++ r_Key rec ++ p_Body (r_Payload rec) = rec_data rec
  ∧ decodeHeader (rec_header rec)
    = mkWriteRecord (mkRecord [] (mkPayload (mkMeta (TS m) (Flag m) (Ver m) 0 0) nilCArray))
        (data_crc (rec_data rec)) (zlen (r_Key rec)) (zlen (p_Body (r_Payload rec))) (mkPos 0 0)
        (rec_header rec).
Proof.
  intros Hok m. destruct (rec_sizes rec Hok) as (Hk & Hv & Hkv).
  destruct (wrec_append_spec rec (ro_fits _ Hok)) as [Henc _].
  assert (∀ i, drop (4 + i) (rec_header rec)
    = drop i (header_fields m (zlen (r_Key rec)) (zlen (p_Body (r_Payload rec))))) as Hd.
  { intros i. unfold rec_header. by rewrite <- drop_drop, drop_app_length' by (by rewrite length_le_put). }
  split; [unfold rec_header; by rewrite length_app, length_le_put, length_header_fields|].
  split; [rewrite Henc; unfold rec_header, rec_data; by rewrite <- !app_assoc|].
  pose proof (Hd 0%nat) as D0. pose proof (Hd 4%nat) as D4. pose proof (Hd 8%nat) as D8.
  pose proof (Hd 12%nat) as D12. pose proof (Hd 16%nat) as D16. cbn [Nat.add] in *.
  split; [by rewrite D0, drop_0|].
  destruct (header_words m (zlen (r_Key rec)) (zlen (p_Body (r_Payload rec))) [])
    as (H0 & H4 & H8 & H12 & H16); [apply Hok|apply Hok|apply Hok|width|width|]. rewrite app_nil_r in *.
  unfold decodeHeader. rewrite D0, D4, D8, D12, D16, !drop_0, H0, H4, H8, H12, H16.
  f_equal. unfold rec_header. rewrite le_word_put, Z.mod_small; [done|]. apply data_crc_range.
Qed.

(** [Next] at the start of a well-formed record returns it and moves past it. *)
Lemma Next_record pre rec post r :
  rec_ok rec → zlen pre + rec_Size rec < 2 ^ 32 →
  let f := pre ++ wrec_append (wrapRecord rec) true ++ post in
  Next mc E (mkReader f (length pre) (zlen pre)) r
  = Some (mkNext (Some (stream_form rec)) (zlen pre) 0 None,
          mkReader f (length pre + Z.to_nat (rec_Size rec)) (zlen pre + rec_Size rec), r).
Proof.
  intros Hok Hoff. cbn zeta. destruct (rec_sizes rec Hok) as (Hk & Hv & Hkv).
  destruct (Sizes_spec rec (ro_fits _ Hok)) as [Hs Hsb]. cbn zeta in *.
  destruct (rec_header_spec rec Hok) as (Hh & Henc & Hdata & Hdec).
  rewrite Henc. rewrite <- !app_assoc.
  unfold Next. rewrite stream_read_app by done. rewrite Hdec.
  cbn [w_ksz w_vsz w_crc w_rec r_Payload p_meta].
  rewrite (ro_ksz _ Hok), (ro_vsz _ Hok). cbn [negb].
  rewrite (app_assoc pre), stream_read_app by (rewrite ?length_app; unfold zlen; lia).
  rewrite (app_assoc (pre ++ _) (r_Key rec)), stream_read_app by (rewrite ?length_app; unfold zlen; lia).
  rewrite <- !app_assoc.
  match goal with |- context [Sizes ?rc] => change (Sizes rc) with (Sizes rec) end.
  rewrite Hs. rewrite getCRC_data. cbn [r_Key r_Payload p_Body p_arr Body].
  rewrite Hdata, Z.eqb_refl. cbn [negb sr_file sr_pos sr_offset].
  assert (rec_Size rec = (24 + zlen (r_Key rec) + zlen (p_Body (r_Payload rec)) + 255) / 256 * 256)
    as Hrs by (unfold rec_Size; by rewrite Hs).
  pose proof (zlen_nonneg pre) as Hp0.
  rewrite land_ff_mod by lia.
  assert (length (pre ++ rec_header rec ++ r_Key rec ++ p_Body (r_Payload rec) ++ rec_pad rec ++ post)
    = (length pre + Z.to_nat (rec_Size rec) + length post)%nat) as Hlen.
  { destruct (wrec_append_spec rec (ro_fits _ Hok)) as [_ Hz]. rewrite Henc in Hz. unfold zlen in Hz.
    rewrite !length_app in *. lia. }
  unfold stream_form. rewrite Hrs in *. rewrite Hlen.
  set (n := 24 + _ + _) in *.
  destruct (Z.eqb_spec (n mod 256) 0); cbn [sr_file sr_pos sr_offset];
    rewrite (u32_small (zlen pre + _)) by (unfold is_u32; lia); do 4 f_equal;
    unfold PADDING, n, zlen in *; Z.div_mod_to_equations; lia.
Qed.

(** The loop every reader of a data file runs: [Next] until it returns no
    record or an error; the records, and the bytes it reported as broken. *)
Fixpoint scan (fuel : nat) (s : DataStreamReader) (r : BeansdbRL)
    : option (list (Z * Record_) * Z * option StoreErr * BeansdbRL) :=
  match fuel with
  | O => None
  | S fuel =>
      '(res, s, r) ← Next mc E s r;
      match n_err res, n_rec res with
      | Some e, _ => Some ([], n_broken res, Some e, r)
      | None, None => Some ([], n_broken res, None, r)
      | None, Some rec =>
          '(l, broken, e, r) ← scan fuel s r;
          Some ((n_offset res, rec) :: l, n_broken res + broken, e, r)
      end
  end.

Definition enc_rec (rec : Record_) : bytes := wrec_append (wrapRecord rec) true.
Definition file_of (recs : list Record_) : bytes := recs ≫= enc_rec.

(** The records of a file with their offsets. *)
Fixpoint placed (off : Z) (recs : list Record_) : list (Z * Record_) :=
  match recs with
  | [] => []
  | rec :: recs => (off, rec) :: placed (off + rec_Size rec) recs
  end.

Lemma zlen_enc rec : rec_ok rec → zlen (enc_rec rec) = rec_Size rec.
Proof. intros Hok. apply (wrec_append_spec rec (ro_fits _ Hok)). Qed.

Lemma scan_S fuel s r :
  scan (S fuel) s r =
    '(res, s, r) ← Next mc E s r;
    match n_err res, n_rec res with
    | Some e, _ => Some ([], n_broken res, Some e, r)
    | None, None => Some ([], n_broken res, None, r)
    | None, Some rec => '(l, broken, e, r) ← scan fuel s r; Some ((n_offset res, rec) :: l, n_broken res + broken, e, r)
    end.
Proof. done. Qed.

Lemma scan_from pre recs r :
  Forall rec_ok recs → zlen (pre ++ file_of recs) < 2 ^ 32 →
  scan (S (length recs)) (mkReader (pre ++ file_of recs) (length pre) (zlen pre)) r
  = Some (prod_map id stream_form <$> placed (zlen pre) recs, 0, None, r).
Proof.
  intros Hok. revert pre. induction Hok as [|rec recs Hr Hrs IH]; intros pre Hlen.
  - cbn [length scan]. unfold file_of. cbn [mbind list_bind]. rewrite app_nil_r. unfold Next, stream_read.
    cbn [sr_pos sr_file]. rewrite drop_all. done.
  - cbn [length]. rewrite scan_S. unfold file_of in *. cbn [mbind list_bind] in *.
    change (list_bind _ ?f ?l) with (l ≫= f) in *.
    pose proof (zlen_enc rec Hr) as He. rewrite !zlen_app, He in Hlen.
    pose proof (zlen_nonneg (recs ≫= enc_rec)).
    rewrite (Next_record pre rec _ r Hr) by lia. cbn [mbind option_bind n_err n_rec n_offset].
    specialize (IH (pre ++ enc_rec rec)). rewrite (zlen_app pre (enc_rec rec)), He, <- !app_assoc, length_app in IH.
    unfold zlen in He. replace (length (enc_rec rec)) with (Z.to_nat (rec_Size rec)) in IH by lia.
    fold (enc_rec rec). rewrite IH by (rewrite !zlen_app; unfold zlen at 2; lia). done.
Qed.

(** C27. Scanning a data file made of any sequence of well-formed records returns
    every record, in order, with the offset at which it was appended, and ends
    cleanly; nothing is skipped, and no byte is reported broken. *)
Theorem scan_complete recs r :
  Forall rec_ok recs → zlen (file_of recs) < 2 ^ 32 →
  scan (S (length recs)) (newDataStreamReader (file_of recs)) r
  = Some (prod_map id stream_form <$> placed 0 recs, 0, None, r).
Proof. intros Hok Hl. by apply (scan_from []). Qed.

(** ** Resynchronisation after a broken record *)

(** Whether a record can be read at an offset does not depend on the counters. *)
Definition read_result (f : bytes) (off : Z) : option (WriteRecord + StoreErr) :=
  fst <$> readRecordAt mc E f off ResetAll.

Lemma Alloc_indep size r r' :
  (λ x, x.1) <$> Alloc mc (heap E) size r = (λ x, x.1) <$> Alloc mc (heap E) size r'.
Proof. unfold Alloc. by repeat case_match. Qed.

Lemma read_result_any f off r : fst <$> readRecordAt mc E f off r = read_result f off.
Proof.
  unfold read_result, readRecordAt. destruct (ReadAt f off recHeaderSize) as [h|]; [|done].
  destruct (negb _); [done|]. destruct (negb _); [done|].
  set (k := u32 _). pose proof (Alloc_indep k r ResetAll) as Ha.
  destruct (Alloc mc (heap E) k r) as [[[kv ok] r1]|], (Alloc mc (heap E) k ResetAll) as [[[kv' ok'] r1']|];
    simpl in Ha; try done.
  injection Ha as -> ->. cbn [mbind option_bind]. destruct (negb ok'); [done|].
  destruct (ReadAt f (off + recHeaderSize) k) as [body|]; [|done].
  destruct (zslice body 0 _); [|done]. cbn [mbind option_bind].
  destruct (zfrom body _); [|done]. cbn [mbind option_bind]. by destruct (negb _).
Qed.

(** Configurations under which sizes cannot overflow 32 bits. *)
Definition mc_ok : Prop := 0 <= MaxKeyLen mc ∧ 0 <= BodyMax mc ∧ MaxKeyLen mc + BodyMax mc < 2 ^ 32.

Lemma readRecordAt_total f off r :
  mc_ok → is_bytes f → 0 <= off → is_Some (readRecordAt mc E f off r).
Proof.
  intros (Hm1 & Hm2 & Hm3) Hb Hoff. unfold readRecordAt.
  destruct (ReadAt f off recHeaderSize) as [h|] eqn:Hh; [|done].
  assert (is_bytes h) as Hhb.
  { unfold ReadAt in Hh. destruct (_ <=? _); [|done]. injection Hh as <-. auto with width. }
  assert (∀ i, 0 <= le_word 4 (drop i h)) as Hw.
  { intros i. apply (le_get_range (take 4 (drop i h))). auto with width. }
  destruct (IsValidKeySize mc _) eqn:Hk; [|done]. destruct (IsValidValueSize mc _) eqn:Hv; [|done].
  unfold IsValidKeySize, IsValidValueSize in *. cbn [decodeHeader w_ksz w_vsz negb] in *.
  pose proof (Hw 16%nat) as Hw16. pose proof (Hw 20%nat) as Hw20.
  set (k := le_word 4 (drop 16 h)) in *. set (v := le_word 4 (drop 20 h)) in *.
  assert (u32 (MaxKeyLen mc) = MaxKeyLen mc ∧ u32 (BodyMax mc) = BodyMax mc) as [Hu1 Hu2] by width.
  rewrite Hu1 in Hk. rewrite Hu2 in Hv. rewrite u32_small by (unfold is_u32; lia).
  destruct (Alloc_total mc (heap E) (k + v) r) as [[[kv ok] r1] ->]; [lia|]. cbn [mbind option_bind].
  destruct ok; [|done]. cbn [negb]. destruct (ReadAt f (off + recHeaderSize) (k + v)) as [body|] eqn:Hbd; [|done].
  assert (zlen body = k + v) as Hbl.
  { unfold ReadAt in Hbd. destruct (Z.leb_spec (off + recHeaderSize + (k + v)) (zlen f)); [|done].
    injection Hbd as <-. unfold zlen in *. unfold recHeaderSize in *. rewrite length_take, length_drop. lia. }
  unfold zfrom. rewrite (zslice_spec body 0 k), (zslice_spec body k) by lia. cbn [mbind option_bind].
  match goal with |- is_Some (if ?b then _ else _) => by destruct b end.
Qed.

(** The outcome of [nextValid] from [off], [broken] bytes after the start. *)
Definition resynced (f : bytes) (off broken : Z) (res : NextRes) (s : DataStreamReader) : Prop :=
  n_err res = None ∧ ∃ k : nat,
    n_offset res = off + 256 * Z.of_nat k ∧ n_broken res = broken + 256 * Z.of_nat k
    ∧ (∀ j : nat, (j < k)%nat → ∃ e, read_result f (off + 256 * Z.of_nat j) = Some (inr e))
    ∧ match n_rec res with
      | Some rec => ∃ w, read_result f (n_offset res) = Some (inl w) ∧ rec = w_rec w
          ∧ sr_offset s = u32 (n_offset res + rec_Size rec)
          ∧ sr_pos s = Z.to_nat (sr_offset s)
      | None => zlen f <= n_offset res
      end.

Lemma next_valid_loop_spec fuel s off broken r :
  mc_ok → is_bytes (sr_file s) → zlen (sr_file s) + 256 <= 2 ^ 32 →
  0 <= broken <= off → off <= zlen (sr_file s) + 255 →
  zlen (sr_file s) - off < 256 * (Z.of_nat fuel - 1) →
  ∃ res s' r', next_valid_loop mc E fuel s off broken r = Some (res, s', r')
    ∧ resynced (sr_file s) off broken res s'.
Proof.
  intros Hmc Hb Hsz. revert s off broken r Hb Hsz.
  induction fuel as [|fuel IH]; intros s off broken r Hb Hsz Hbr Hoff Hf; [lia|].
  cbn [next_valid_loop]. destruct (Z.ltb_spec off (zlen (sr_file s))) as [Hlt|Hge].
  - destruct (readRecordAt_total (sr_file s) off r) as [[res r1] Hrd]; [done|done|lia|].
    pose proof (read_result_any (sr_file s) off r) as Hany. rewrite Hrd in Hany. simpl in Hany.
    rewrite Hrd. cbn [mbind option_bind]. destruct res as [w|e].
    + eexists _, _, _. split; [done|]. split; [done|]. exists 0%nat. cbn [n_offset n_broken n_rec].
      rewrite !Z.add_0_r. do 2 (split; [done|]). split; [lia|]. exists w. by split.
    + rewrite !u32_small by (unfold is_u32; lia).
      destruct (IH (mkReader (sr_file s) (sr_pos s) (off + 256)) (off + 256) (broken + 256) r1)
        as (res & s' & r' & Hn & Herr & k & Ho & Hbk & Hfail & Hrec); cbn [sr_file] in *; [done|lia..|].
      exists res, s', r'. split; [done|]. split; [done|]. exists (S k).
      split; [lia|]. split; [lia|]. split; [|done]. intros j Hj. destruct j as [|j].
      * exists e. by rewrite Z.add_0_r.
      * destruct (Hfail j) as [e' He']; [lia|]. exists e'. rewrite <- He'. f_equal. lia.
  - eexists _, _, _. split; [done|]. split; [done|]. exists 0%nat. cbn [n_offset n_broken n_rec].
    rewrite !Z.add_0_r. do 2 (split; [done|]). split; [lia|done].
Qed.

(** C32. After a broken record the reader resynchronises: [nextValid] always
    returns, with the first 256-aligned position at or after the current record
    at which a record can be read, or with none when there is none to the end of
    the file; the number of bytes it reports broken is the distance skipped. *)
Theorem nextValid_first_readable s r :
  mc_ok → is_bytes (sr_file s) → zlen (sr_file s) + 256 <= 2 ^ 32 →
  0 <= sr_offset s <= zlen (sr_file s) →
  ∃ res s' r', nextValid mc E s r = Some (res, s', r')
    ∧ resynced (sr_file s) (sr_offset s / 256 * 256) 0 res s'.
Proof.
  intros Hmc Hb Hsz Hoff. unfold nextValid.
  assert (Z.land (sr_offset s) 0xffffff00 = sr_offset s / 256 * 256) as ->.
  { change 0xffffff00 with (Z.shiftl (Z.ones 24) 8).
    rewrite <- (Z.shiftl_mul_pow2 _ 8), <- (Z.shiftr_div_pow2 _ 8) by lia.
    apply Z.bits_inj'. intros i Hi. rewrite Z.land_spec, !Z.shiftl_spec by lia.
    destruct (Z.ltb_spec i 8).
    - rewrite !(Z.testbit_neg_r _ (i - 8)) by lia. apply andb_false_r.
    - rewrite Z.shiftr_spec by lia. replace (i - 8 + 8) with i by lia.
      rewrite Z.testbit_ones by lia. destruct (Z.ltb_spec (i - 8) 24).
      + destruct (Z.leb_spec 0 (i - 8)); [|lia]. by rewrite andb_true_r.
      + rewrite (Z.bits_above_log2 (sr_offset s)); [done|lia|].
        destruct (Z.eq_dec (sr_offset s) 0) as [->|]; [simpl; lia|].
        apply Z.log2_lt_pow2; [lia|]. apply Z.lt_le_trans with (2 ^ 32); [lia|].
        apply Z.pow_le_mono_r; lia. }
  apply next_valid_loop_spec; try done; try (Z.div_mod_to_equations; lia).
  unfold zlen in *. rewrite !Nat2Z.inj_succ, Nat2Z.inj_add, Nat2Z.inj_div.
  Z.div_mod_to_equations. lia.
Qed.

End Codec.

(** ** Concrete records *)

Definition demo_rec (key body : bytes) (ts flag ver : Z) : Record_ :=
  mkRecord key (mkPayload (mkMeta ts flag ver 0 0) (mkCArray body 0 (zlen body))).
Definition demo_a : Record_ := demo_rec (bstr "alpha") (bstr "value one") 1500000000 0 1.
Definition demo_b : Record_ := demo_rec (bstr "beta") (replicate 300 7) 1500000001 16 (-3).

Definition rec_okb (mc : MCConfig) (rec : Record_) : bool :=
  let m := p_meta (r_Payload rec) in
  let isb b := forallb (λ x, (0 <=? x) && (x <? 256)) b in
  (0 <=? TS m) && (TS m <? 2 ^ 32) && (0 <=? Flag m) && (Flag m <? 2 ^ 32)
  && (- 2 ^ 31 <=? Ver m) && (Ver m <? 2 ^ 31) && isb (r_Key rec) && isb (p_Body (r_Payload rec))
  && IsValidKeySize mc (zlen (r_Key rec)) && IsValidValueSize mc (zlen (p_Body (r_Payload rec)))
  && (24 + zlen (r_Key rec) + zlen (p_Body (r_Payload rec)) + 255 <? 2 ^ 32).

Lemma forallb_is_bytes b : forallb (λ x, (0 <=? x) && (x <? 256)) b = true → is_bytes b.
Proof.
  rewrite forallb_forall. intros Hb. apply Forall_forall. intros x Hx%list_elem_of_In.
  specialize (Hb x Hx). width.
Qed.

Lemma rec_okb_ok mc rec : rec_okb mc rec = true → rec_ok mc rec.
Proof.
  unfold rec_okb. intros Hb. repeat (apply andb_true_iff in Hb as [Hb ?]).
  split; try done; try (by apply forallb_is_bytes); unfold is_u32, is_i32, fits32; lia.
Qed.

Lemma demo_alloc size : can_alloc DefaultMCConfig (heap demo_ext) size.
Proof. right. done. Qed.

Lemma record_round_trip_witness :
  ∃ w kv r', readRecordAt DefaultMCConfig demo_ext (bstr "xyz" ++ enc_rec demo_b ++ bstr "end") 3 ResetAll
      = Some (inl w, r') ∧ w_rec w = disk_form demo_b kv
    ∧ GetData r' = AddSizeAndCount (GetData ResetAll) (Cap kv).
Proof.
  apply (record_round_trip DefaultMCConfig demo_ext (bstr "xyz") demo_b (bstr "end") ResetAll);
    [apply rec_okb_ok; by vm_compute|apply demo_alloc].
Defined.

Lemma record_corruption_detected_witness :
  ∃ r', readRecordAt DefaultMCConfig demo_ext (bstr "" ++ <[30%nat := 8]> (enc_rec demo_b) ++ []) 0 ResetAll
    = Some (inr ErrCrc, r').
Proof.
  apply (record_corruption_detected DefaultMCConfig demo_ext (bstr "") demo_b [] ResetAll 30 7 8);
    [apply rec_okb_ok; by vm_compute|apply demo_alloc|right; by vm_compute|by vm_compute..].
Defined.

Lemma scan_complete_witness :
  scan DefaultMCConfig demo_ext 3 (newDataStreamReader (file_of [demo_a; demo_b])) ResetAll
  = Some ([(0, stream_form demo_a); (256, stream_form demo_b)], 0, None, ResetAll).
Proof.
  apply (scan_complete DefaultMCConfig demo_ext [demo_a; demo_b] ResetAll); [|by vm_compute].
  repeat (apply Forall_cons; split; [apply rec_okb_ok; by vm_compute|]). done.
Defined.

(** The first record is damaged; the second is found 256 bytes on. *)
Definition demo_broken : DataStreamReader :=
  mkReader (<[5%nat := 1]> (file_of [demo_a; demo_b])) 24 0.

Lemma nextValid_first_readable_witness :
  ∃ res s' r', nextValid DefaultMCConfig demo_ext demo_broken ResetAll = Some (res, s', r')
    ∧ resynced DefaultMCConfig demo_ext (sr_file demo_broken) 0 0 res s'.
Proof.
  apply (nextValid_first_readable DefaultMCConfig demo_ext demo_broken ResetAll); [by vm_compute| |by vm_compute..].
  apply forallb_is_bytes. by vm_compute.
Defined.
