(* ===== verification/Data.v ===== *)
(** * Data chunks and the data store (src/store/datachunk.go, src/store/data.go)

    A bucket keeps its records in up to 998 data files. New records go to the
    write buffer of the head chunk and are flushed to its file later; garbage
    collection appends to or rewrites a file through its own writer. The
    directory is a map from chunk number to file contents. [None] is a panic or a
    fatal error (the process stops); every mutex-protected method is atomic. *)

From S2P Require Import Prelude Strconv Config Hashing Cmem Item Fixtures DataFile.

Definition MAX_NUM_CHUNK : Z := 998.

Record dataChunk := mkChunk {
  dc_chunkid : Z;
  dc_size : Z;
  dc_writingHead : Z;
  dc_wbuf : list WriteRecord;
  dc_rewriting : bool;
  dc_gcWriter : option DataStreamWriter
}.

Abbreviation Disk := (gmap Z bytes).

Record dataStore := mkStore {
  ds_newHead : Z;
  ds_chunks : list dataChunk;
  ds_wbufSize : Z;
  ds_lastFlushTime : Z;
  ds_disk : Disk
}.

Definition new_chunk (i : nat) : dataChunk := mkChunk (Z.of_nat i) 0 0 [] false None.
Definition NewdataStore (disk : Disk) : dataStore :=
  mkStore 0 (new_chunk <$> seq 0 (Z.to_nat MAX_NUM_CHUNK)) 0 0 disk.

Definition genDataPath (home : bytes) (chunkID : Z) : bytes :=
  home ++ bstr "/" ++ pad0 3 (fmt_uint 10 chunkID) ++ bstr ".data".

Definition with_chunk (ds : dataStore) (i : Z) (dc : dataChunk) : option dataStore :=
  cs ← zset (ds_chunks ds) i dc;
  Some (mkStore (ds_newHead ds) cs (ds_wbufSize ds) (ds_lastFlushTime ds) (ds_disk ds)).
Definition with_disk (ds : dataStore) (disk : Disk) : dataStore :=
  mkStore (ds_newHead ds) (ds_chunks ds) (ds_wbufSize ds) (ds_lastFlushTime ds) disk.

(** ** Chunks *)

(** [Clear]: the chunk is emptied and its file removed. *)
Definition dc_Clear (dc : dataChunk) (disk : Disk) : dataChunk * Disk :=
  (mkChunk (dc_chunkid dc) 0 0 [] false None, delete (dc_chunkid dc) disk).

Definition wrec_RecSize (w : WriteRecord) : Z := RecSize (p_meta (r_Payload (w_rec w))).
Definition wrec_set_pos (w : WriteRecord) (pos : Position) : WriteRecord :=
  mkWriteRecord (w_rec w) (w_crc w) (w_ksz w) (w_vsz w) pos (w_header w).

Definition dc_AppendRecord (dc : dataChunk) (w : WriteRecord) : dataChunk :=
  let head := u32 (dc_writingHead dc + wrec_RecSize w) in
  mkChunk (dc_chunkid dc) head head (dc_wbuf dc ++ [w]) (dc_rewriting dc) (dc_gcWriter dc).

Definition file_at (disk : Disk) (i : Z) : bytes := default [] (disk !! i).

(** [AppendRecordGC]: the record goes straight to the file. *)
Definition AppendRecordGC (dc : dataChunk) (disk : Disk) (w : WriteRecord)
    : option (dataChunk * Disk * Z) :=
  let offset := dc_writingHead dc in
  let w := wrec_set_pos w (mkPos (dc_chunkid dc) offset) in
  let head := u32 (dc_writingHead dc + wrec_RecSize w) in
  let size := if dc_size dc <=? head then head else dc_size dc in
  writer ← dc_gcWriter dc;
  let '(writer, f, _) := sw_append writer (file_at disk (dc_chunkid dc)) w in
  Some (mkChunk (dc_chunkid dc) size head (dc_wbuf dc) (dc_rewriting dc) (Some writer),
        <[dc_chunkid dc := f]> disk, offset).

Definition getDiskFileSize (dc : dataChunk) : Z :=
  match dc_wbuf dc with
  | w :: _ => Offset (w_pos w)
  | [] => dc_size dc
  end.

(** The first half of [flush]: the records in the buffer are written out. The
    buffer is left alone, so readers still find them there. *)
Fixpoint flush_write (ws : list WriteRecord) (gc : bool) (writer : DataStreamWriter) (f : bytes)
    (flushed : Z) (r : BeansdbRL) : DataStreamWriter * bytes * Z * BeansdbRL :=
  match ws with
  | [] => (writer, f, flushed, r)
  | w :: ws =>
      let '(writer, f, _) := sw_append writer f w in
      let r := if negb gc && (0 <? Ver (p_meta (r_Payload (w_rec w))))
               then on_flush (λ rl, SubSizeAndCount rl (Cap (p_arr (r_Payload (w_rec w))))) r else r in
      flush_write ws gc writer f (u32 (flushed + wrec_RecSize w)) r
  end.

(** The second half: the [n] records written leave the buffer and are freed. *)
Definition free_all (ws : list WriteRecord) (r : BeansdbRL) : BeansdbRL :=
  foldl (λ r w, (Free (p_arr (r_Payload (w_rec w))) r).2) r ws.
Definition flush_drop (dc : dataChunk) (n : nat) (r : BeansdbRL) : dataChunk * BeansdbRL :=
  (mkChunk (dc_chunkid dc) (dc_size dc) (dc_writingHead dc) (drop n (dc_wbuf dc))
     (dc_rewriting dc) (dc_gcWriter dc),
   free_all (take n (dc_wbuf dc)) r).

(** ** sort.Search *)

(** [for i < j { h := i + (j-i)/2; if !f(h) { i = h + 1 } else { j = h } }] *)
Fixpoint search_loop (fuel : nat) (f : nat → bool) (i j : nat) : nat :=
  match fuel with
  | O => i
  | S fuel =>
      if (i <? j)%nat then
        let h := (i + (j - i) / 2)%nat in
        if f h then search_loop fuel f i h else search_loop fuel f (S h) j
      else i
  end.
Definition Search (n : nat) (f : nat → bool) : nat := search_loop n f 0 n.

Section Store.
Context (Conf : HStoreConfig) (mc : MCConfig) (E : Ext).

Definition Record_Copy (rec : Record_) (r : BeansdbRL) : option (Record_ * BeansdbRL) :=
  '(p, r) ← Payload_Copy mc E (r_Payload rec) r;
  p ← p;
  Some (mkRecord (r_Key rec) p, r).

(** [GetRecordByOffsetInBuffer]: [inl None] is [(nil, nil)], not in the buffer. *)
Definition GetRecordByOffsetInBuffer (dc : dataChunk) (offset : Z) (r : BeansdbRL)
    : option ((option Record_ + StoreErr) * BeansdbRL) :=
  match dc_wbuf dc with
  | [] => Some (inl None, r)
  | w0 :: _ =>
      if (offset <? Offset (w_pos w0)) || (dc_writingHead dc <=? offset) then Some (inl None, r)
      else
        let n := length (dc_wbuf dc) in
        let off i := Offset (w_pos (nth i (dc_wbuf dc) w0)) in
        let idx := Search n (λ i, offset <=? off i) in
        if (n <=? idx)%nat then Some (inr ErrBufferSearch, r)
        else
          let w := nth idx (dc_wbuf dc) w0 in
          if Offset (w_pos w) =? offset then
            '(res, r) ← Record_Copy (w_rec w) r;
            Some (inl (Some res),
                  on_get (λ rl, AddSizeAndCount rl (Cap (p_arr (r_Payload res)))) r)
          else Some (inr ErrBufferMiss, r)
  end.

(** Decompression for the reader; an error leaves the payload compressed. *)
Definition for_reader (rec : Record_) (r : BeansdbRL) : option (Record_ * BeansdbRL) :=
  diff ← DiffSizeAfterDecompressed (r_Payload rec);
  let r := on_get (λ rl, AddSize rl diff) r in
  let '(p, _, r) := Decompress mc E (r_Payload rec) r in
  Some (mkRecord (r_Key rec) p, r).

(** [GetRecordByOffset]: the record, whether it came from the buffer, or an error. *)
Definition GetRecordByOffset (dc : dataChunk) (disk : Disk) (offset : Z) (r : BeansdbRL)
    : option ((Record_ * bool + StoreErr * bool) * BeansdbRL) :=
  '(res, r) ← GetRecordByOffsetInBuffer dc offset r;
  match res with
  | inr e => Some (inr (e, true), r)
  | inl (Some rec) => '(rec, r) ← for_reader rec r; Some (inl (rec, true), r)
  | inl None =>
      match disk !! dc_chunkid dc with
      | None => Some (inr (ErrOpen, false), r)
      | Some f =>
          '(res, r) ← readRecordAt mc E f offset r;
          match res with
          | inr e => Some (inr (e, false), r)
          | inl w => '(rec, r) ← for_reader (w_rec w) r; Some (inl (rec, false), r)
          end
      end
  end.

(** [Truncate]: [false] is an error (no such file). *)
Definition Truncate (chunkid : Z) (disk : Disk) (size : Z) : Disk * bool :=
  match disk !! chunkid with
  | None => (disk, false)
  | Some f =>
      if size =? 0 then (delete chunkid disk, true)
      else (<[chunkid := take (Z.to_nat size) (f ++ replicate (Z.to_nat size - length f) 0)]> disk, true)
  end.

(** [GetStreamWriter]: [None] is the fatal error on a file that is not aligned. *)
Definition GetStreamWriter (chunkid : Z) (disk : Disk) (isappend : bool)
    : option (DataStreamWriter * Disk) :=
  match disk !! chunkid with
  | Some f =>
      if isappend then
        if Z.rem (zlen f) PADDING =? 0 then Some (mkWriter (zlen f) (u32 (zlen f)), disk) else None
      else Some (mkWriter 0 0, disk)
  | None => Some (mkWriter 0 0, <[chunkid := []]> disk)
  end.

Definition beginGCWriting (dc : dataChunk) (disk : Disk) (srcChunk : Z) : option (dataChunk * Disk) :=
  let '(rewriting, head) :=
    if dc_chunkid dc =? srcChunk then (true, 0) else (dc_rewriting dc, dc_size dc) in
  '(w, disk) ← GetStreamWriter (dc_chunkid dc) disk (negb rewriting);
  Some (mkChunk (dc_chunkid dc) (dc_size dc) head (dc_wbuf dc) rewriting (Some w), disk).

Definition endGCWriting (dc : dataChunk) (disk : Disk) : dataChunk * Disk :=
  let '(size, disk) :=
    if dc_rewriting dc && (dc_writingHead dc <? dc_size dc)
    then (dc_writingHead dc, (Truncate (dc_chunkid dc) disk (dc_writingHead dc)).1)
    else (dc_size dc, disk) in
  (mkChunk (dc_chunkid dc) size (dc_writingHead dc) (dc_wbuf dc) false None, disk).

(** [getFirstRecTs]. *)
Definition getFirstRecTs (chunkid : Z) (disk : Disk) : Z + StoreErr :=
  match disk !! chunkid with
  | None => inr ErrOpen
  | Some f =>
      match ReadAt f 0 recHeaderSize with
      | None => inr ErrReadHead
      | Some h => inl (TS (p_meta (r_Payload (w_rec (decodeHeader h)))))
      end
  end.

(** ** The store *)

(** [AppendRecord]; the result names the chunk whose flush it starts in the
    background, if it rotates. *)
Definition AppendRecord (ds : dataStore) (rec : Record_) (r : BeansdbRL)
    : option (dataStore * Position * option Z * BeansdbRL) :=
  let oldCap := Cap (p_arr (r_Payload rec)) in
  '(rec, r) ← TryCompress Conf mc E rec r;
  let cap := Cap (p_arr (r_Payload rec)) in
  let r := on_set (λ rl, AddSize rl (cap - oldCap)) r in
  let w := wrapRecord rec in
  let size := wrec_RecSize w in
  dc ← zget (ds_chunks ds) (ds_newHead ds);
  let currOffset := dc_writingHead dc in
  let '(head, currOffset, spawn) :=
    if u32 (DataFileMax Conf) <? u32 (currOffset + size)
    then (ds_newHead ds + 1, 0, Some (ds_newHead ds)) else (ds_newHead ds, currOffset, None) in
  let pos := mkPos head currOffset in
  dc ← zget (ds_chunks ds) head;
  cs ← zset (ds_chunks ds) head (dc_AppendRecord dc (wrec_set_pos w pos));
  let ds := mkStore head cs (u32 (ds_wbufSize ds + size)) (ds_lastFlushTime ds) (ds_disk ds) in
  let r := if 0 <? Ver (p_meta (r_Payload rec))
           then on_set (λ rl, SubSizeAndCount rl cap) (on_flush (λ rl, AddSizeAndCount rl cap) r) else r in
  Some (ds, pos, spawn, r).

(** Whether [flush] does anything: data waiting, and forced, due or over 1 MB. *)
Definition flush_due (ds : dataStore) (force : bool) (now : Z) : bool :=
  negb (ds_wbufSize ds =? 0)
  && (force || (FlushInterval Conf <=? now - ds_lastFlushTime ds) || (2 ^ 20 <=? ds_wbufSize ds)).

(** [flush] up to the write: the store, and what is left to do once the data is
    on disk (the chunk, the number of records and their size). *)
Definition flush_begin (ds : dataStore) (chunk : Z) (force : bool) (now : Z) (r : BeansdbRL)
    : option (dataStore * option (Z * nat * Z) * BeansdbRL) :=
  if negb (flush_due ds force now) then Some (ds, None, r)
  else
    let chunk := if chunk <? 0 then ds_newHead ds else chunk in
    '(w, disk) ← GetStreamWriter chunk (ds_disk ds) true;
    dc ← zget (ds_chunks ds) chunk;
    if negb (sw_offset w =? getDiskFileSize dc) then None
    else
      let '(_, f, flushed, r) := flush_write (dc_wbuf dc) false w (file_at disk chunk) 0 r in
      Some (mkStore (ds_newHead ds) (ds_chunks ds) (ds_wbufSize ds) now (<[chunk := f]> disk),
            Some (chunk, length (dc_wbuf dc), flushed), r).

Definition flush_end (ds : dataStore) (todo : option (Z * nat * Z)) (r : BeansdbRL)
    : option (dataStore * BeansdbRL) :=
  match todo with
  | None => Some (ds, r)
  | Some (chunk, n, flushed) =>
      dc ← zget (ds_chunks ds) chunk;
      let '(dc, r) := flush_drop dc n r in
      cs ← zset (ds_chunks ds) chunk dc;
      Some (mkStore (ds_newHead ds) cs (u32 (ds_wbufSize ds - flushed)) (ds_lastFlushTime ds)
              (ds_disk ds), r)
  end.

Definition ds_flush (ds : dataStore) (chunk : Z) (force : bool) (now : Z) (r : BeansdbRL)
    : option (dataStore * BeansdbRL) :=
  '(ds, todo, r) ← flush_begin ds chunk force now r;
  flush_end ds todo r.

Definition GetRecordByPos (ds : dataStore) (pos : Position) (r : BeansdbRL)
    : option ((Record_ * bool + StoreErr * bool) * BeansdbRL) :=
  dc ← zget (ds_chunks ds) (ChunkID pos);
  GetRecordByOffset dc (ds_disk ds) (Offset pos) r.

(** [ListFiles]: sizes from the directory; [inr] when a file is not aligned. *)
Fixpoint list_files (cs : list dataChunk) (disk : Disk) (max : Z)
    : list dataChunk * (Z + StoreErr) :=
  match cs with
  | [] => ([], inl max)
  | dc :: cs =>
      match disk !! dc_chunkid dc with
      | None =>
          let dc := mkChunk (dc_chunkid dc) 0 (dc_writingHead dc) (dc_wbuf dc) (dc_rewriting dc) (dc_gcWriter dc) in
          let '(cs, res) := list_files cs disk max in (dc :: cs, res)
      | Some f =>
          let sz := u32 (zlen f) in
          if negb (Z.land sz 0xff =? 0) then (dc :: cs, inr ErrNotAligned)
          else
            let dc := mkChunk (dc_chunkid dc) sz sz (dc_wbuf dc) (dc_rewriting dc) (dc_gcWriter dc) in
            let '(cs, res) := list_files cs disk (dc_chunkid dc) in (dc :: cs, res)
      end
  end.
Definition ListFiles (ds : dataStore) : dataStore * (Z + StoreErr) :=
  let '(cs, res) := list_files (ds_chunks ds) (ds_disk ds) (-1) in
  let head := match res with inl max => max + 1 | inr _ => ds_newHead ds end in
  (mkStore head cs (ds_wbufSize ds) (ds_lastFlushTime ds) (ds_disk ds), res).

End Store.
