(* ===== verification/DataSpec.v ===== *)
(** * The data store is an append-only log

    The abstract state of a chunk is the list of records appended to it; a
    position names one of them. The write buffer, the file and a flush in
    progress are representation: reading a position gives the record appended
    there whether it is still buffered, being flushed, or on disk. *)

From S2P Require Import Prelude Config Hashing Cmem Item Fixtures DataFile Data.

(** ** sort.Search *)

Lemma search_loop_spec fuel f i j n :
  (i <= j <= n)%nat → (j - i <= fuel)%nat →
  (∀ k, (k < i)%nat → f k = false) → (∀ k, (j <= k < n)%nat → f k = true) →
  (∀ a b, (a <= b < n)%nat → f a = true → f b = true) →
  let k := search_loop fuel f i j in
  (k <= n)%nat ∧ (∀ a, (a < k)%nat → f a = false) ∧ (∀ a, (k <= a < n)%nat → f a = true).
Proof.
  intros Hij. revert i j Hij. induction fuel as [|fuel IH]; intros i j Hij Hf Hlo Hhi Hmono; cbn zeta.
  - cbn [search_loop]. assert (i = j) as -> by lia. split; [lia|done].
  - cbn [search_loop]. destruct (Nat.ltb_spec i j) as [Hlt|Hge].
    + assert ((j - i) / 2 < j - i)%nat by (apply Nat.div_lt; lia).
      destruct (f (i + (j - i) / 2)%nat) eqn:Hfh.
      * apply IH; [lia|lia|done| |done]. intros k Hk.
        destruct (decide (j <= k)%nat); [apply Hhi; lia|]. eapply Hmono; [|exact Hfh]. lia.
      * apply IH; [lia|lia| |done|done]. intros k Hk.
        destruct (f k) eqn:Hfk; [|done].
        rewrite (Hmono k (i + (j - i) / 2)%nat) in Hfh; [done|lia|done].
    + assert (i = j) as -> by lia. split; [lia|done].
Qed.

(** [Search] finds the first index where a monotone predicate holds. *)
Lemma Search_first n f idx :
  (∀ a b, (a <= b < n)%nat → f a = true → f b = true) →
  (idx < n)%nat → f idx = true → (∀ a, (a < idx)%nat → f a = false) → Search n f = idx.
Proof.
  intros Hmono Hi Ht Hf. unfold Search.
  destruct (search_loop_spec n f 0 n n) as (Hk & Hlo & Hhi); [lia|lia|lia|lia|done|].
  set (k := search_loop n f 0 n) in *.
  destruct (Nat.lt_trichotomy k idx) as [Hlt|[?|Hgt]]; [|done|].
  - specialize (Hhi k ltac:(lia)). by rewrite Hf in Hhi.
  - rewrite Hlo in Ht by lia. done.
Qed.

(** ** Records in a chunk *)

Definition sizes (recs : list Record_) : Z := zsum (rec_Size <$> recs).

Lemma sizes_app a b : sizes (a ++ b) = sizes a + sizes b.
Proof. unfold sizes. by rewrite fmap_app, zsum_app. Qed.

Lemma sizes_cons rec recs : sizes (rec :: recs) = rec_Size rec + sizes recs.
Proof. done. Qed.

Lemma placed_lookup off recs i :
  placed off recs !! i = (λ rec, (off + sizes (take i recs), rec)) <$> recs !! i.
Proof.
  revert off i. induction recs as [|rec recs IH]; intros off i; [done|].
  destruct i as [|i]; simpl; [unfold sizes; simpl; by rewrite Z.add_0_r|].
  rewrite IH. destruct (recs !! i); simpl; [|done]. by rewrite sizes_cons, Z.add_assoc.
Qed.

Lemma length_placed off recs : length (placed off recs) = length recs.
Proof. revert off. induction recs; intros; simpl; congruence. Qed.

Lemma placed_app off a b : placed off (a ++ b) = placed off a ++ placed (off + sizes a) b.
Proof.
  revert off. induction a as [|rec a IH]; intros off; simpl.
  - unfold sizes. simpl. by rewrite Z.add_0_r.
  - by rewrite IH, sizes_cons, Z.add_assoc.
Qed.

Lemma file_of_app a b : file_of (a ++ b) = file_of a ++ file_of b.
Proof. unfold file_of. apply bind_app. Qed.

(** The same record for a client: key, value, timestamp, flag and version. *)
Definition same_record (a b : Record_) : Prop :=
  r_Key a = r_Key b ∧ p_Body (r_Payload a) = p_Body (r_Payload b)
  ∧ TS (p_meta (r_Payload a)) = TS (p_meta (r_Payload b))
  ∧ Flag (p_meta (r_Payload a)) = Flag (p_meta (r_Payload b))
  ∧ Ver (p_meta (r_Payload a)) = Ver (p_meta (r_Payload b)).

#[export] Instance same_record_equiv : Equivalence same_record.
Proof.
  split; unfold same_record.
  - by intros a.
  - intros a b (? & ? & ? & ? & ?). by repeat split.
  - intros a b c (? & ? & ? & ? & ?) (? & ? & ? & ? & ?). repeat split; congruence.
Qed.

Section Log.
Context (Conf : HStoreConfig) (mc : MCConfig) (E : Ext).

Lemma rec_Size_range rec : rec_ok mc rec → 256 <= rec_Size rec ∧ rec_Size rec mod 256 = 0.
Proof.
  intros Hok. destruct (Sizes_spec rec (ro_fits _ _ Hok)) as [Hs Hb]. cbn zeta in *.
  destruct (rec_sizes mc rec Hok) as (Hk & Hv & _). unfold rec_Size. rewrite Hs. cbn [snd].
  split; Z.div_mod_to_equations; lia.
Qed.

Lemma sizes_range recs : Forall (rec_ok mc) recs → 0 <= sizes recs ∧ sizes recs mod 256 = 0.
Proof.
  induction 1 as [|rec recs Hr Hrs [IH0 IH1]]; [done|]. rewrite sizes_cons.
  destruct (rec_Size_range rec Hr) as [H0 H1]. split; [lia|].
  rewrite Z.add_mod, H1, IH1 by lia. done.
Qed.

Lemma zlen_file_of recs : Forall (rec_ok mc) recs → zlen (file_of recs) = sizes recs.
Proof.
  induction 1 as [|rec recs Hr Hrs IH]; [done|].
  change (file_of (rec :: recs)) with (enc_rec rec ++ file_of recs).
  by rewrite zlen_app, (zlen_enc mc), IH, sizes_cons.
Qed.

(** Offsets grow along a chunk. *)
Lemma sizes_take_lt recs i j :
  Forall (rec_ok mc) recs → (i < j <= length recs)%nat →
  sizes (take i recs) + 256 <= sizes (take j recs).
Proof.
  intros Hok Hij. replace j with (i + (j - i))%nat by lia. rewrite <- take_take_drop, sizes_app.
  destruct (drop i recs) as [|rec l] eqn:Hd.
  { apply (f_equal length) in Hd. rewrite length_drop in Hd. simpl in Hd. lia. }
  replace (j - i)%nat with (S (j - i - 1)) by lia.
  assert (Forall (rec_ok mc) (rec :: l)) as Hok' by (rewrite <- Hd; by apply Forall_drop).
  apply Forall_cons in Hok' as [Hr Hl]. destruct (rec_Size_range rec Hr) as [Hs _].
  destruct (sizes_range (take (j - i - 1) l)) as [H0 _]; [by apply Forall_take|].
  cbn [take]. rewrite sizes_cons. lia.
Qed.

(** ** The representation of a chunk *)

(** What a chunk holds: the records appended, how many of those have left the
    buffer and how many are on disk. A chunk that garbage collection rewrites has
    after them a gap of old bytes and the records that are left to be read. *)
Record ghost := mkGhost {
  g_recs : list Record_; g_drop : nat; g_done : nat; g_gap : bytes; g_left : list Record_
}.
Definition plain (g : ghost) : Prop := g_gap g = [] ∧ g_left g = [].

Definition buffered (id : Z) (e : Z * Record_) : WriteRecord :=
  wrec_set_pos (wrapRecord e.2) (mkPos id e.1).

Record chunk_inv (dc : dataChunk) (disk : Disk) (g : ghost) : Prop := {
  ci_recs : Forall (rec_ok mc) (g_recs g);
  ci_left : Forall (rec_ok mc) (g_left g);
  ci_order : (g_drop g <= g_done g <= length (g_recs g))%nat;
  ci_wbuf : dc_wbuf dc = buffered (dc_chunkid dc) <$> drop (g_drop g) (placed 0 (g_recs g));
  ci_head : dc_writingHead dc = sizes (g_recs g);
  ci_size : dc_size dc = dc_writingHead dc + zlen (g_gap g) + sizes (g_left g);
  ci_max : dc_size dc < 2 ^ 32;
  ci_gap : zlen (g_gap g) mod 256 = 0;
  ci_busy : plain g ∨ g_drop g = length (g_recs g);
  ci_file : file_at disk (dc_chunkid dc) = file_of (take (g_done g) (g_recs g)) ++ g_gap g ++ file_of (g_left g)
}.

Definition offset_of (g : ghost) (i : nat) : Z := sizes (take i (g_recs g)).
Definition left_offset (g : ghost) (j : nat) : Z := sizes (g_recs g) + zlen (g_gap g) + sizes (take j (g_left g)).

(** The record at an offset of a chunk. *)
Definition held (g : ghost) (off : Z) (rec : Record_) : Prop :=
  (∃ i, g_recs g !! i = Some rec ∧ off = offset_of g i) ∨ (∃ j, g_left g !! j = Some rec ∧ off = left_offset g j).

Lemma chunk_bounds dc disk g :
  chunk_inv dc disk g → 0 <= dc_writingHead dc <= dc_size dc ∧ dc_writingHead dc mod 256 = 0 ∧ 0 <= sizes (g_left g).
Proof.
  intros Hi. pose proof (sizes_range _ (ci_recs _ _ _ Hi)) as [? ?]. pose proof (sizes_range _ (ci_left _ _ _ Hi)) as [? ?].
  pose proof (zlen_nonneg (g_gap g)). rewrite (ci_size _ _ _ Hi), (ci_head _ _ _ Hi). split_and!; lia.
Qed.

Lemma wbuf_lookup dc disk g i rec :
  chunk_inv dc disk g → g_recs g !! i = Some rec → (g_drop g <= i)%nat →
  dc_wbuf dc !! (i - g_drop g)%nat = Some (buffered (dc_chunkid dc) (offset_of g i, rec)).
Proof.
  intros Hi Hr Hd. rewrite (ci_wbuf _ _ _ Hi), list_lookup_fmap, lookup_drop.
  replace (g_drop g + (i - g_drop g))%nat with i by lia. by rewrite placed_lookup, Hr.
Qed.

Lemma wbuf_lookup_inv dc disk g j w :
  chunk_inv dc disk g → dc_wbuf dc !! j = Some w →
  ∃ rec, g_recs g !! (g_drop g + j)%nat = Some rec
    ∧ w = buffered (dc_chunkid dc) (offset_of g (g_drop g + j), rec).
Proof.
  intros Hi Hw. rewrite (ci_wbuf _ _ _ Hi), list_lookup_fmap, lookup_drop, placed_lookup in Hw.
  destruct (g_recs g !! (g_drop g + j)%nat) as [rec|]; [|done]. simpl in Hw. injection Hw as <-. eauto.
Qed.

Lemma length_wbuf dc disk g :
  chunk_inv dc disk g → length (dc_wbuf dc) = (length (g_recs g) - g_drop g)%nat.
Proof. intros Hi. rewrite (ci_wbuf _ _ _ Hi), length_fmap, length_drop, length_placed. done. Qed.

(** ** Reading *)

(** Memory is available. *)
Definition mem_ok : Prop := ∀ n, 0 <= n → can_alloc mc (heap E) n.

Lemma Record_Copy_spec rec r :
  mem_ok → ∃ rec' r', Record_Copy mc E rec r = Some (rec', r') ∧ same_record rec rec'
    ∧ p_meta (r_Payload rec') = p_meta (r_Payload rec).
Proof.
  intros Hm. unfold Record_Copy, Payload_Copy, Copy.
  destruct (Z.eqb_spec (Addr (p_arr (r_Payload rec))) 0) as [Hz|Hnz].
  - cbn [mbind option_bind]. eexists _, _. split; [done|]. by split.
  - destruct (Alloc_ok mc (heap E) (zlen (Body (p_arr (r_Payload rec)))) r) as (kv & r1 & Ha & _);
      [apply zlen_nonneg|apply Hm, zlen_nonneg|].
    rewrite Ha. cbn [mbind option_bind]. eexists _, _. split; [done|]. by split.
Qed.

Lemma read_buffered dc disk g i rec r :
  mem_ok → chunk_inv dc disk g → g_recs g !! i = Some rec → (g_drop g <= i)%nat →
  ∃ base r', GetRecordByOffsetInBuffer mc E dc (offset_of g i) r = Some (inl (Some base), r')
    ∧ same_record rec base.
Proof.
  intros Hm Hi Hr Hd. pose proof (ci_recs _ _ _ Hi) as Hoks.
  pose proof (lookup_lt_Some _ _ _ Hr) as Hlt. pose proof (length_wbuf _ _ _ Hi) as Hlw.
  pose proof (wbuf_lookup _ _ _ _ _ Hi Hr Hd) as Hw. unfold GetRecordByOffsetInBuffer.
  destruct (dc_wbuf dc) as [|w0 ws] eqn:Hbuf; [simpl in Hlw; lia|].
  destruct (wbuf_lookup_inv dc disk g 0 w0) as (rec0 & Hr0 & ->); [done|by rewrite Hbuf|].
  rewrite Nat.add_0_r in *. rewrite <- Hbuf in *. set (w0 := buffered _ (offset_of g (g_drop g), rec0)) in *.
  assert (∀ j, (j < length (dc_wbuf dc))%nat →
    Offset (w_pos (nth j (dc_wbuf dc) w0)) = offset_of g (g_drop g + j)) as Hoff.
  { intros j Hj. destruct (lookup_lt_is_Some_2 _ _ Hj) as [w Hwj].
    destruct (wbuf_lookup_inv _ _ _ _ _ Hi Hwj) as (recj & _ & ->).
    rewrite (nth_lookup_Some _ _ _ _ Hwj). done. }
  assert (∀ a b, (a < b <= length (g_recs g))%nat → offset_of g a + 256 <= offset_of g b) as Hinc.
  { intros a b Hab. unfold offset_of. pose proof (sizes_take_lt (g_recs g) a b Hoks Hab). lia. }
  assert (offset_of g (length (g_recs g)) = dc_writingHead dc) as Hend.
  { unfold offset_of. rewrite take_ge by lia. by rewrite (ci_head _ _ _ Hi). }
  destruct (Z.ltb_spec (offset_of g i) (Offset (w_pos w0))) as [Hbad|_].
  { change (Offset (w_pos w0)) with (offset_of g (g_drop g)) in Hbad.
    destruct (decide (g_drop g = i)) as [Heq|]; [rewrite Heq in Hbad; lia|].
    pose proof (Hinc (g_drop g) i ltac:(lia)). lia. }
  destruct (Z.leb_spec (dc_writingHead dc) (offset_of g i)) as [Hbad|_].
  { pose proof (Hinc i (length (g_recs g)) ltac:(lia)). lia. }
  cbn [orb].
  assert (Search (length (dc_wbuf dc)) (λ i0, offset_of g i <=? Offset (w_pos (nth i0 (dc_wbuf dc) w0)))
    = (i - g_drop g)%nat) as ->.
  { apply Search_first.
    - intros a b Hab. rewrite !Hoff by lia. intros Ha%Z.leb_le. apply Z.leb_le.
      destruct (decide (a = b)) as [->|]; [done|].
      pose proof (Hinc (g_drop g + a)%nat (g_drop g + b)%nat ltac:(lia)). lia.
    - lia.
    - rewrite Hoff by lia. replace (g_drop g + (i - g_drop g))%nat with i by lia. apply Z.leb_refl.
    - intros a Ha. rewrite Hoff by lia. apply Z.leb_gt.
      pose proof (Hinc (g_drop g + a)%nat i ltac:(lia)). lia. }
  destruct (Nat.leb_spec (length (dc_wbuf dc)) (i - g_drop g)); [lia|].
  rewrite (nth_lookup_Some _ _ _ _ Hw). cbn [buffered wrec_set_pos w_pos Offset fst].
  rewrite Z.eqb_refl. change (w_rec (buffered _ (_, ?x))) with (set_rec_size x).
  destruct (Record_Copy_spec (set_rec_size rec) r Hm) as (rec' & r' & -> & Hsame & _).
  cbn [mbind option_bind]. eexists _, _. split; [done|]. exact Hsame.
Qed.

Lemma not_buffered dc disk g i rec r :
  chunk_inv dc disk g → g_recs g !! i = Some rec → (i < g_drop g)%nat →
  GetRecordByOffsetInBuffer mc E dc (offset_of g i) r = Some (inl None, r).
Proof.
  intros Hi Hr Hd. unfold GetRecordByOffsetInBuffer.
  destruct (dc_wbuf dc) as [|w0 ws] eqn:Hbuf; [done|].
  destruct (wbuf_lookup_inv dc disk g 0 w0) as (rec0 & Hr0 & ->); [done|by rewrite Hbuf|].
  pose proof (sizes_take_lt (g_recs g) i (g_drop g) (ci_recs _ _ _ Hi)) as Hlt.
  pose proof (ci_order _ _ _ Hi). specialize (Hlt ltac:(lia)).
  rewrite Nat.add_0_r. cbn [buffered wrec_set_pos w_pos Offset fst]. unfold offset_of.
  destruct (Z.ltb_spec (sizes (take i (g_recs g))) (sizes (take (g_drop g) (g_recs g)))); [done|lia].
Qed.

(** A file that is not empty is there. *)
Lemma file_there disk c pre rec post :
  rec_ok mc rec → file_at disk c = pre ++ enc_rec rec ++ post → disk !! c = Some (pre ++ enc_rec rec ++ post).
Proof.
  intros Hr Hf. unfold file_at in Hf. destruct (disk !! c) as [f|]; cbn [default from_option id] in Hf; [by rewrite Hf|].
  apply (f_equal zlen) in Hf. rewrite !zlen_app, (zlen_enc mc) in Hf by done. destruct (rec_Size_range rec Hr) as [Hs _].
  pose proof (zlen_nonneg pre). pose proof (zlen_nonneg post). change (zlen []) with 0 in Hf. lia.
Qed.

Lemma file_of_middle recs i rec :
  recs !! i = Some rec → file_of recs = file_of (take i recs) ++ enc_rec rec ++ file_of (drop (S i) recs).
Proof. intros Hr. by rewrite <- (take_drop_middle _ _ _ Hr) at 1; rewrite file_of_app. Qed.

(** The file of a chunk around one of its flushed records, and around one that is
    left. *)
Lemma file_around dc disk g i rec :
  chunk_inv dc disk g → g_recs g !! i = Some rec → (i < g_done g)%nat →
  ∃ pre post, disk !! dc_chunkid dc = Some (pre ++ enc_rec rec ++ post) ∧ zlen pre = offset_of g i.
Proof.
  intros Hi Hr Hd. pose proof (ci_recs _ _ _ Hi) as Hoks.
  assert (take (g_done g) (g_recs g) !! i = Some rec) as Ht by (by rewrite lookup_take_lt).
  pose proof (ci_file _ _ _ Hi) as Hf. rewrite (file_of_middle _ _ _ Ht), <- !app_assoc in Hf.
  rewrite take_take in Hf. replace (i `min` g_done g)%nat with i in Hf by lia.
  eexists _, _. split; [apply file_there; [|exact Hf]|].
  - rewrite Forall_lookup in Hoks. by eapply Hoks.
  - rewrite zlen_file_of by (by apply Forall_take). done.
Qed.

Lemma file_around_left dc disk g j rec :
  chunk_inv dc disk g → g_left g !! j = Some rec →
  dc_wbuf dc = [] ∧ ∃ pre post, disk !! dc_chunkid dc = Some (pre ++ enc_rec rec ++ post) ∧ zlen pre = left_offset g j.
Proof.
  intros Hi Hr. pose proof (ci_left _ _ _ Hi) as Hoks. pose proof (ci_order _ _ _ Hi) as Hord.
  destruct (ci_busy _ _ _ Hi) as [[_ Hn]|Hall]; [by rewrite Hn in Hr|].
  split; [rewrite (ci_wbuf _ _ _ Hi), drop_ge by (rewrite length_placed; lia); done|].
  pose proof (ci_file _ _ _ Hi) as Hf. rewrite (file_of_middle _ _ _ Hr), take_ge, (app_assoc _ (g_gap g)) in Hf by lia.
  rewrite (app_assoc _ (file_of (take j _))) in Hf. eexists _, _. split; [apply file_there; [|exact Hf]|].
  - rewrite Forall_lookup in Hoks. by eapply Hoks.
  - rewrite !zlen_app, !zlen_file_of by (apply Hi || by apply Forall_take). done.
Qed.

Lemma read_from_file dc disk pre rec post r :
  mem_ok → rec_ok mc rec → disk !! dc_chunkid dc = Some (pre ++ enc_rec rec ++ post) →
  GetRecordByOffsetInBuffer mc E dc (zlen pre) r = Some (inl None, r) →
  ∃ base inb r1, same_record rec base
    ∧ GetRecordByOffset mc E dc disk (zlen pre) r = '(x, r) ← for_reader mc E base r1; Some (inl (x, inb), r).
Proof.
  intros Hm Hok Hf Hbuf. unfold GetRecordByOffset. rewrite Hbuf. cbn [mbind option_bind]. rewrite Hf. unfold enc_rec.
  destruct (readRecordAt_enc mc E pre rec post r) as (w & kv & r' & -> & Hw & _); [done| |].
  { apply Hm. pose proof (zlen_nonneg (r_Key rec)). pose proof (zlen_nonneg (p_Body (r_Payload rec))). lia. }
  cbn [mbind option_bind]. rewrite Hw. exists (disk_form rec kv). do 2 eexists. by split.
Qed.

(** Reading a record of a chunk, from wherever it is. *)
Lemma chunk_read dc disk g off rec r :
  mem_ok → chunk_inv dc disk g → held g off rec →
  ∃ base inb r1, same_record rec base
    ∧ GetRecordByOffset mc E dc disk off r = '(x, r) ← for_reader mc E base r1; Some (inl (x, inb), r).
Proof.
  intros Hm Hi [(i & Hr & ->)|(j & Hr & ->)].
  - pose proof (Forall_lookup_1 _ _ _ _ (ci_recs _ _ _ Hi) Hr) as Hok.
    destruct (decide (g_drop g <= i)%nat) as [Hle|Hgt].
    + unfold GetRecordByOffset. destruct (read_buffered dc disk g i rec r Hm Hi Hr Hle) as (base & r' & -> & Hs).
      cbn [mbind option_bind]. eauto.
    + destruct (file_around dc disk g i rec Hi Hr) as (pre & post & Hf & Hz); [pose proof (ci_order _ _ _ Hi); lia|].
      rewrite <- Hz. apply (read_from_file dc disk pre rec post r Hm Hok Hf). rewrite Hz.
      apply (not_buffered dc disk g i rec r Hi Hr). lia.
  - pose proof (Forall_lookup_1 _ _ _ _ (ci_left _ _ _ Hi) Hr) as Hok.
    destruct (file_around_left dc disk g j rec Hi Hr) as (Hb & pre & post & Hf & Hz).
    rewrite <- Hz. apply (read_from_file dc disk pre rec post r Hm Hok Hf). unfold GetRecordByOffsetInBuffer. by rewrite Hb.
Qed.

(** ** What is stored for a record *)

(** Records [AppendRecord] stores and gives back: not flagged as compressed by
    the client, an empty value only with a short key, and room for the 400 bytes
    the compressor may add. *)
Record append_ok (rec : Record_) : Prop := {
  ao_ok : rec_ok mc rec;
  ao_plain : Z.land (Flag (p_meta (r_Payload rec))) FLAG_COMPRESS = 0;
  ao_body : p_Body (r_Payload rec) = [] → rec_Size rec <= 256;
  ao_small : zlen (p_Body (r_Payload rec)) < 2 ^ 31;
  ao_room : IsValidValueSize mc (zlen (p_Body (r_Payload rec)) + 400) = true;
  ao_fit : 24 + zlen (r_Key rec) + zlen (p_Body (r_Payload rec)) + 655 <= DataFileMax Conf;
  ao_sum : DataFileMax Conf + (24 + zlen (r_Key rec) + zlen (p_Body (r_Payload rec)) + 655) < 2 ^ 32
}.

Lemma ao_input rec b :
  append_ok rec → b ≠ [] → is_bytes b → zlen b <= zlen (p_Body (r_Payload rec)) → qlz_input b.
Proof. intros Ha Hne Hb Hl. pose proof (ao_small _ Ha). split; [done|]. split; [done|lia]. Qed.

Lemma CCompress_total src r :
  qlz_spec E → qlz_input src → is_Some (CCompress mc E src r).
Proof.
  intros HQ Hin. unfold CCompress.
  destruct (Alloc_total mc (heap E) (zlen src + 400) r) as [[[d ok] r1] ->];
    [pose proof (zlen_nonneg src); lia|]. cbn [mbind option_bind].
  destruct (negb ok); [done|]. destruct (malloc _ _ =? 0); [done|].
  pose proof (qlz_bound _ HQ src Hin). destruct src; [by destruct Hin|].
  destruct (Z.ltb_spec (zlen (z :: src) + 400) (zlen (qlz_compress E (z :: src)))); [lia|done].
Qed.

Lemma TryCompress_total rec r :
  qlz_spec E → append_ok rec → is_Some (TryCompress Conf mc E rec r).
Proof.
  intros HQ Ha. unfold TryCompress.
  destruct (_ <? 0); [done|]. destruct (_ || _); [done|].
  destruct (Z.leb_spec (rec_Size rec) 256) as [|Hbig]; [done|].
  assert (p_Body (r_Payload rec) ≠ []) as Hne by (intros Hz; pose proof (ao_body _ Ha Hz); lia).
  set (body := p_Body (r_Payload rec)) in *.
  set (try := if (TRY_COMPRESS_SIZE <? length body)%nat then take TRY_COMPRESS_SIZE body else body).
  pose proof (ro_body _ _ (ao_ok _ Ha)) as Hbb. fold body in Hbb.
  assert (qlz_input body) as Hib by (apply (ao_input rec); [done|done|done|unfold body; lia]).
  assert (qlz_input try) as Hit.
  { unfold try. destruct (Nat.ltb_spec TRY_COMPRESS_SIZE (length body)); [|done].
    apply (ao_input rec); [done| |by apply is_bytes_take|].
    - intros Hz. apply (f_equal length) in Hz. rewrite length_take in Hz. simpl in Hz.
      unfold TRY_COMPRESS_SIZE in *. destruct body; [done|simpl in Hz]. lia.
    - unfold zlen. rewrite length_take. fold body. lia. }
  destruct (negb _); [done|].
  destruct (CCompress_total try r HQ Hit) as [[[c ok] r1] ->]. cbn [mbind option_bind].
  destruct (negb ok); [done|]. destruct (ratio_exceeds _ _); [done|].
  destruct (zlen try <? zlen body).
  - destruct (CCompress_total body (Free c r1).2 HQ Hib) as [[[c2 ok2] r2] ->]. cbn [mbind option_bind].
    destruct (negb ok2); done.
  - done.
Qed.

(** [rec'] is [rec] as it may be kept: the same record, or its value compressed
    and flagged so. *)
Definition packed (rec rec' : Record_) : Prop :=
  r_Key rec' = r_Key rec
  ∧ TS (p_meta (r_Payload rec')) = TS (p_meta (r_Payload rec))
  ∧ Ver (p_meta (r_Payload rec')) = Ver (p_meta (r_Payload rec))
  ∧ ((p_Body (r_Payload rec') = p_Body (r_Payload rec)
      ∧ Flag (p_meta (r_Payload rec')) = Flag (p_meta (r_Payload rec)))
     ∨ (p_Body (r_Payload rec) ≠ []
        ∧ p_Body (r_Payload rec') = qlz_compress E (p_Body (r_Payload rec))
        ∧ Flag (p_meta (r_Payload rec')) = u32 (Flag (p_meta (r_Payload rec)) + FLAG_COMPRESS))).

Lemma packed_refl rec : packed rec rec.
Proof. repeat split. by left. Qed.

(** A record that keeps key, value, flag and version is as good to append. *)
Lemma append_ok_same rec x :
  append_ok rec → r_Key x = r_Key rec → p_Body (r_Payload x) = p_Body (r_Payload rec) →
  TS (p_meta (r_Payload x)) = TS (p_meta (r_Payload rec)) →
  Flag (p_meta (r_Payload x)) = Flag (p_meta (r_Payload rec)) →
  is_i32 (Ver (p_meta (r_Payload x))) → append_ok x.
Proof.
  intros [[] Hp Hb Hsm Hr Hf Hs] Hk Hbd Hts Hfl Hv. unfold rec_Size, Sizes, fits32 in *.
  split; [split; [by rewrite Hts|by rewrite Hfl|done|by rewrite Hk|by rewrite Hbd|by rewrite Hk|by rewrite Hbd|]|..];
    unfold rec_Size, Sizes, fits32; rewrite ?Hk, ?Hbd, ?Hfl; done.
Qed.

Lemma packed_total rec x r :
  qlz_spec E → append_ok rec → packed rec x → is_Some (TryCompress Conf mc E x r).
Proof.
  intros HQ Ha (Hk & Hts & Hv & [[Hb Hf]|(Hne & Hb & Hf)]).
  - apply TryCompress_total; [done|]. apply (append_ok_same rec); try done.
    rewrite Hv. apply (ro_ver _ _ (ao_ok _ Ha)).
  - destruct (flag_add_compress _ (ro_flag _ _ (ao_ok _ Ha)) (ao_plain _ Ha)) as (_ & Hset & _).
    unfold TryCompress. destruct (_ <? 0); [done|]. rewrite Hf.
    apply Z.eqb_neq in Hset. by rewrite Hset, orb_true_r.
Qed.

Lemma packed_try rec x r y r' :
  append_ok rec → packed rec x → TryCompress Conf mc E x r = Some (y, r') → packed rec y.
Proof.
  intros Ha (Hk & Hts & Hv & Hc) [->|(_ & Hz & Hne & Hky & Hby & Hmy)]%TryCompress_cases; [done|].
  destruct (flag_add_compress _ (ro_flag _ _ (ao_ok _ Ha)) (ao_plain _ Ha)) as (_ & Hset & _).
  destruct Hc as [[Hb Hf]|(_ & _ & Hf)]; [|by rewrite Hf in Hz].
  unfold packed. rewrite Hky, Hby, Hmy, Hb, Hf in *. cbn [set_flag TS Ver Flag]. repeat split; try done. by right.
Qed.

(** The stored record is well-formed and fits a file. *)
Lemma stored_ok rec rec' :
  qlz_spec E → append_ok rec → packed rec rec' →
  rec_ok mc rec' ∧ rec_Size rec' <= DataFileMax Conf ∧ DataFileMax Conf + rec_Size rec' < 2 ^ 32.
Proof.
  intros HQ Ha (Hk & Hts & Hv & Hc). pose proof (ao_ok _ Ha) as Hok. pose proof (ao_fit _ Ha).
  pose proof (ao_sum _ Ha) as Hsum.
  assert (∀ x, rec_ok mc x → r_Key x = r_Key rec →
    zlen (p_Body (r_Payload x)) <= zlen (p_Body (r_Payload rec)) + 400 →
    rec_Size x <= 24 + zlen (r_Key rec) + zlen (p_Body (r_Payload rec)) + 655) as Hsz.
  { intros x Hx Hkx Hb. destruct (Sizes_spec x (ro_fits _ _ Hx)) as [Hs Hbd]. cbn zeta in *.
    unfold rec_Size. rewrite Hs. cbn [snd]. rewrite Hkx in *. lia. }
  destruct Hc as [[Hb Hf]|(Hne & Hbody & Hf)].
  { assert (rec_ok mc rec') as Hok'.
    { apply ao_ok, (append_ok_same rec); try done. rewrite Hv. apply (ro_ver _ _ Hok). }
    split; [done|]. pose proof (Hsz rec' Hok' Hk). rewrite Hb in *. lia. }
  assert (qlz_input (p_Body (r_Payload rec))) as Hin
    by (apply (ao_input rec); [done|done|apply (ro_body _ _ Hok)|lia]).
  pose proof (qlz_bound _ HQ _ Hin) as Hbound.
  destruct (flag_add_compress _ (ro_flag _ _ Hok) (ao_plain _ Ha)) as (Hfr & _ & _).
  pose proof (ao_room _ Ha) as Hroom. unfold IsValidValueSize in Hroom.
  assert (rec_ok mc rec') as Hok'.
  { split; rewrite ?Hts, ?Hv, ?Hf, ?Hk, ?Hbody.
    - apply Hok. - apply Hfr. - apply Hok. - apply Hok.
    - by apply (qlz_bytes _ HQ).
    - apply Hok.
    - unfold IsValidValueSize. lia.
    - unfold fits32. rewrite Hk, Hbody. lia. }
  split; [done|]. pose proof (Hsz rec' Hok' Hk). rewrite Hbody in *. lia.
Qed.

(** A stored record, as read, decompresses to the record that was appended. *)
Lemma reader_gets_original rec rec' base r1 :
  qlz_spec E → mem_ok → append_ok rec → packed rec rec' → same_record rec' base →
  ∃ x r2, for_reader mc E base r1 = Some (x, r2) ∧ same_record rec x.
Proof.
  intros HQ Hm Ha (Hk' & Hts' & Hv' & Hc) (Hk & Hb & Hts & Hf & Hv). pose proof (ao_ok _ Ha) as Hok.
  unfold for_reader, DiffSizeAfterDecompressed, IsCompressed, Decompress. rewrite <- Hf, <- Hb.
  destruct Hc as [[Hbody Hfl]|(Hne & Hbody & Hfl)]; rewrite Hbody, Hfl in *.
  - rewrite (ao_plain _ Ha). cbn [negb Z.eqb mbind option_bind]. eexists _, _. split; [done|].
    unfold same_record. cbn [r_Key r_Payload]. repeat split; congruence.
  - destruct (flag_add_compress _ (ro_flag _ _ Hok) (ao_plain _ Ha)) as (_ & Hset & Hback).
    apply Z.eqb_neq in Hset. rewrite Hset. cbn [negb].
    assert (qlz_input (p_Body (r_Payload rec))) as Hin
      by (apply (ao_input rec); [done|done|apply (ro_body _ _ Hok)|lia]).
    rewrite (qlz_sizeD _ HQ) by done. cbn [mbind option_bind].
    set (r3 := on_get _ r1).
    destruct (CDecompressSafe_compress mc E (p_Body (r_Payload rec)) r3) as (arr & r4 & -> & Harr);
      [done|done|apply Hm, zlen_nonneg|].
    eexists _, _. split; [done|]. 
    unfold same_record, p_Body. cbn [r_Key r_Payload p_meta p_arr set_flag TS Flag Ver].
    rewrite Hback, Harr. repeat split; congruence.
Qed.

(** ** Appending and flushing, chunk by chunk *)

Lemma append_chunk dc disk g rec :
  chunk_inv dc disk g → plain g → rec_ok mc rec → dc_writingHead dc + rec_Size rec < 2 ^ 32 →
  chunk_inv (dc_AppendRecord dc (buffered (dc_chunkid dc) (dc_writingHead dc, rec))) disk
    (mkGhost (g_recs g ++ [rec]) (g_drop g) (g_done g) [] []).
Proof.
  intros Hi [Hgap Hleft] Hr Hlt. destruct (rec_Size_range rec Hr) as [Hs Hs2].
  destruct (chunk_bounds _ _ _ Hi) as ([H0 _] & _ & _).
  assert (u32 (dc_writingHead dc + rec_Size rec) = dc_writingHead dc + rec_Size rec) as Hu
    by (apply u32_small; unfold is_u32; lia).
  pose proof (ci_order _ _ _ Hi) as Hord.
  split; cbn [g_recs g_drop g_done g_gap g_left dc_AppendRecord dc_wbuf dc_chunkid dc_writingHead dc_size];
    change (wrec_RecSize (buffered _ (_, ?x))) with (rec_Size x).
  - apply Forall_app. split; [apply Hi|]. by constructor.
  - done.
  - rewrite length_app. simpl. lia.
  - rewrite (ci_wbuf _ _ _ Hi), placed_app. rewrite drop_app_le by (rewrite length_placed; lia).
    by rewrite fmap_app, (ci_head _ _ _ Hi).
  - rewrite Hu, sizes_app, sizes_cons, (ci_head _ _ _ Hi). change (sizes []) with 0. lia.
  - change (sizes []) with 0. change (zlen []) with 0. lia.
  - by rewrite Hu.
  - done.
  - by left.
  - rewrite take_app_le by lia. rewrite (ci_file _ _ _ Hi), Hgap, Hleft. done.
Qed.

Lemma write_at_end f data : write_at f (zlen f) data = f ++ data.
Proof.
  unfold write_at, zlen. rewrite Nat2Z.id, Nat.sub_diag. cbn [replicate]. rewrite app_nil_r.
  rewrite take_ge by lia. by rewrite drop_ge, app_nil_r by lia.
Qed.

Lemma flush_write_spec id off recs gc f o n r :
  ∃ w n' r', flush_write (buffered id <$> placed off recs) gc (mkWriter (zlen f) o) f n r
    = (w, f ++ file_of recs, n', r').
Proof.
  revert off f o n r. induction recs as [|rec recs IH]; intros off f o n r.
  - unfold file_of. cbn [mbind list_bind]. rewrite app_nil_r. cbn. eauto.
  - cbn [placed fmap list_fmap flush_write]. unfold sw_append. cbn [sw_pos sw_offset].
    change (wrec_append (buffered id (off, rec)) true) with (enc_rec rec).
    rewrite write_at_end.
    replace (zlen f + zlen (enc_rec rec)) with (zlen (f ++ enc_rec rec)) by apply zlen_app.
    change (file_of (rec :: recs)) with (enc_rec rec ++ file_of recs). rewrite app_assoc. apply IH.
Qed.

(** What flushing writes: the part of the log that is not on disk yet. *)
Lemma flush_chunk_file dc disk g gc o n r :
  chunk_inv dc disk g → g_done g = g_drop g →
  ∃ w n' r', flush_write (dc_wbuf dc) gc (mkWriter (zlen (file_at disk (dc_chunkid dc))) o)
      (file_at disk (dc_chunkid dc)) n r
    = (w, file_of (g_recs g) ++ g_gap g ++ file_of (g_left g), n', r').
Proof.
  intros Hi Hd. rewrite (ci_wbuf _ _ _ Hi). pose proof (ci_order _ _ _ Hi) as Hord.
  assert (drop (g_drop g) (placed 0 (g_recs g))
    = placed (offset_of g (g_drop g)) (drop (g_drop g) (g_recs g))) as ->.
  { rewrite <- (take_drop (g_drop g) (g_recs g)) at 1. rewrite placed_app.
    rewrite drop_app_length' by (rewrite length_placed, length_take; lia).
    done. }
  destruct (flush_write_spec (dc_chunkid dc) (offset_of g (g_drop g)) (drop (g_drop g) (g_recs g)) gc
    (file_at disk (dc_chunkid dc)) o n r) as (w & n' & r' & ->).
  eexists _, _, _. f_equal. f_equal. f_equal. rewrite (ci_file _ _ _ Hi), Hd. destruct (ci_busy _ _ _ Hi) as [[-> ->]|Hall].
  - change (file_of []) with (@nil Z). rewrite !app_nil_r, <- file_of_app, take_drop. done.
  - rewrite drop_ge, take_ge by lia. change (file_of []) with (@nil Z). by rewrite app_nil_r.
Qed.

(** The file has the size [flush] expects, so it never stops the process. *)
Lemma flush_size_agrees dc disk g :
  chunk_inv dc disk g → g_done g = g_drop g →
  zlen (file_at disk (dc_chunkid dc)) = getDiskFileSize dc
  ∧ zlen (file_at disk (dc_chunkid dc)) mod 256 = 0
  ∧ zlen (file_at disk (dc_chunkid dc)) < 2 ^ 32.
Proof.
  intros Hi Hd. pose proof (ci_order _ _ _ Hi) as Hord. pose proof (ci_recs _ _ _ Hi) as Hoks.
  assert (Forall (rec_ok mc) (take (g_drop g) (g_recs g))) as Hokt by (by apply Forall_take).
  pose proof (sizes_range _ Hokt) as [H0 Hm]. pose proof (sizes_range _ (ci_left _ _ _ Hi)) as [H1 Hm1].
  pose proof (sizes_range _ Hoks) as [H2 Hm2]. pose proof (ci_gap _ _ _ Hi) as Hgap. pose proof (zlen_nonneg (g_gap g)).
  assert (zlen (file_at disk (dc_chunkid dc)) = offset_of g (g_drop g) + zlen (g_gap g) + sizes (g_left g)) as Hz.
  { rewrite (ci_file _ _ _ Hi), Hd, !zlen_app, !zlen_file_of by (done || apply (ci_left _ _ _ Hi)). unfold offset_of. lia. }
  assert (offset_of g (g_drop g) <= sizes (g_recs g)) as Hle.
  { unfold offset_of. rewrite <- (take_drop (g_drop g) (g_recs g)) at 2. rewrite sizes_app.
    pose proof (sizes_range (drop (g_drop g) (g_recs g)) ltac:(by apply Forall_drop)). lia. }
  rewrite Hz. split; [|split].
  - unfold getDiskFileSize. destruct (dc_wbuf dc) as [|w ws] eqn:Hbuf.
    + pose proof (length_wbuf _ _ _ Hi) as Hl. rewrite Hbuf in Hl. simpl in Hl.
      rewrite (ci_size _ _ _ Hi), (ci_head _ _ _ Hi). unfold offset_of. rewrite take_ge by lia. done.
    + destruct (wbuf_lookup_inv dc disk g 0 w) as (rec & Hr0 & ->); [done|by rewrite Hbuf|].
      apply lookup_lt_Some in Hr0. rewrite Nat.add_0_r. destruct (ci_busy _ _ _ Hi) as [[-> ->]|Hall]; [|lia].
      cbn [buffered wrec_set_pos w_pos Offset fst]. change (zlen []) with 0. change (sizes []) with 0. lia.
  - unfold offset_of. Z.div_mod_to_equations. lia.
  - pose proof (ci_max _ _ _ Hi) as Hmax. rewrite (ci_size _ _ _ Hi), (ci_head _ _ _ Hi) in Hmax. lia.
Qed.

End Log.
