(* ===== verification/DataLog.v ===== *)
(** * The data store over whole histories

    Appends, the two halves of a flush and reads interleave freely. Every record
    appended can be read back at its position after any such history. *)

From S2P Require Import Prelude Config Hashing Cmem Item Fixtures DataFile Data DataSpec.

Section Histories.
Context (Conf : HStoreConfig) (mc : MCConfig) (E : Ext).

Abbreviation flush_job := (option (Z * nat * Z)).

(** The records of chunk [i] that a flush in progress has written. *)
Definition in_flight (todo : flush_job) (i : nat) : nat :=
  match todo with
  | Some (c, n, _) => if c =? Z.of_nat i then n else 0%nat
  | None => 0%nat
  end.

Record store_inv (ds : dataStore) (gs : list ghost) (todo : flush_job) : Prop := {
  si_len : length (ds_chunks ds) = length gs;
  si_chunks : ∀ i dc g, ds_chunks ds !! i = Some dc → gs !! i = Some g →
    dc_chunkid dc = Z.of_nat i ∧ chunk_inv mc dc (ds_disk ds) g
    ∧ g_done g = (g_drop g + in_flight todo i)%nat;
  si_head : 0 <= ds_newHead ds < zlen gs;
  si_room : ∀ dc, zget (ds_chunks ds) (ds_newHead ds) = Some dc → dc_writingHead dc <= DataFileMax Conf;
  si_empty : ∀ i dc, ds_newHead ds < Z.of_nat i → ds_chunks ds !! i = Some dc → dc_writingHead dc = 0;
  si_plain : ∀ i g, ds_newHead ds <= Z.of_nat i → gs !! i = Some g → plain g;
  si_todo : match todo with Some (c, _, _) => 0 <= c < zlen gs | None => True end
}.

(** [gs] holds the stored record [rec] at [pos]. *)
Definition holds (gs : list ghost) (pos : Position) (rec : Record_) : Prop :=
  ∃ g, zget gs (ChunkID pos) = Some g ∧ held g (Offset pos) rec.

(** A log that only grows at the end of its chunks. *)
Definition grows (gs gs' : list ghost) : Prop :=
  ∀ i g, gs !! i = Some g → ∃ g' l, gs' !! i = Some g' ∧ g_recs g' = g_recs g ++ l
    ∧ g_gap g' = g_gap g ∧ g_left g' = g_left g ∧ (l = [] ∨ plain g).

#[export] Instance grows_preorder : PreOrder grows.
Proof.
  split.
  - intros gs i g Hg. exists g, []. rewrite app_nil_r. split_and!; try done. by left.
  - intros a b c Hab Hbc i g Hg. destruct (Hab i g Hg) as (g' & l & Hg' & Hr & Hp & Hl & Hpl).
    destruct (Hbc i g' Hg') as (g'' & l' & Hg'' & Hr' & Hp' & Hl' & Hpl').
    exists g'', (l ++ l'). rewrite Hr', Hr, app_assoc. split_and!; try congruence.
    unfold plain in *. rewrite Hp, Hl in Hpl'. destruct Hpl as [->|]; [|by right]. by rewrite app_nil_l.
Qed.

Lemma holds_grows gs gs' pos rec : grows gs gs' → holds gs pos rec → holds gs' pos rec.
Proof.
  intros Hg (g & [H0 Hz]%zget_Some & Hh). destruct (Hg _ _ Hz) as (g' & l & Hz' & Hrecs & Hgap & Hleft & Hpl).
  exists g'. split; [by apply zget_Some|]. destruct Hh as [(i & Hr & Ho)|(j & Hr & Ho)].
  - left. pose proof (lookup_lt_Some _ _ _ Hr) as Hlt. exists i. rewrite Hrecs. split; [by apply lookup_app_l_Some|].
    unfold offset_of in *. rewrite Hrecs, take_app_le by lia. done.
  - right. exists j. destruct Hpl as [->|[_ Hn]]; [|by rewrite Hn in Hr]. rewrite app_nil_r in Hrecs.
    unfold left_offset in *. by rewrite Hleft, Hgap, Hrecs.
Qed.

(** Changing one chunk and its ghost. *)
Lemma grows_insert gs i g g' l :
  gs !! i = Some g → g_recs g' = g_recs g ++ l → g_gap g' = g_gap g → g_left g' = g_left g → l = [] ∨ plain g →
  grows gs (<[i := g']> gs).
Proof.
  intros Hg Hr Hgap Hleft Hpl j gj Hj. pose proof (lookup_lt_Some _ _ _ Hg).
  destruct (decide (j = i)) as [->|Hne].
  - rewrite list_lookup_insert_eq by done. exists g', l. assert (gj = g) as -> by congruence. done.
  - rewrite list_lookup_insert_ne by done. exists gj, []. rewrite app_nil_r. split_and!; try done. by left.
Qed.

(** What a write or a flush leaves alone: the records of the chunks below [h], and
    in every chunk what garbage collection keeps there. *)
Record ds_frame (h : Z) (ds : dataStore) (gs : list ghost) (ds' : dataStore) (gs' : list ghost) : Prop := {
  df_head : ds_newHead ds <= ds_newHead ds';
  df_chunk i dc : ds_chunks ds !! i = Some dc → ∃ dc', ds_chunks ds' !! i = Some dc'
    ∧ dc_rewriting dc' = dc_rewriting dc ∧ dc_gcWriter dc' = dc_gcWriter dc
    ∧ (Z.of_nat i < h → dc_writingHead dc' = dc_writingHead dc ∧ dc_size dc' = dc_size dc);
  df_ghost i g : gs !! i = Some g → ∃ g', gs' !! i = Some g' ∧ (plain g → plain g') ∧ (Z.of_nat i < h →
    g_recs g' = g_recs g ∧ g_gap g' = g_gap g ∧ g_left g' = g_left g ∧ (g_drop g <= g_drop g')%nat)
}.

Lemma ds_frame_refl h ds gs : ds_frame h ds gs ds gs.
Proof. split; [lia| |]; intros i x Hx; exists x; by split_and!. Qed.

Lemma ds_frame_insert h ds gs i dc dc' g g' head n t disk :
  ds_chunks ds !! i = Some dc → gs !! i = Some g → ds_newHead ds <= head →
  dc_rewriting dc' = dc_rewriting dc → dc_gcWriter dc' = dc_gcWriter dc → (plain g → plain g') →
  (Z.of_nat i < h → dc_writingHead dc' = dc_writingHead dc ∧ dc_size dc' = dc_size dc
     ∧ g_recs g' = g_recs g ∧ g_gap g' = g_gap g ∧ g_left g' = g_left g ∧ (g_drop g <= g_drop g')%nat) →
  ds_frame h ds gs (mkStore head (<[i := dc']> (ds_chunks ds)) n t disk) (<[i := g']> gs).
Proof.
  intros Hdc Hg Hh Hrw Hw Hpl Hlow. pose proof (lookup_lt_Some _ _ _ Hdc). pose proof (lookup_lt_Some _ _ _ Hg). split; [done| |].
  - intros j x Hx. cbn [ds_chunks]. destruct (decide (j = i)) as [->|Hne].
    + rewrite list_lookup_insert_eq by done. simplify_eq. exists dc'. split_and!; try done. intros Hj. by destruct (Hlow Hj) as (? & ? & _).
    + rewrite list_lookup_insert_ne by done. exists x. by split_and!.
  - intros j x Hx. destruct (decide (j = i)) as [->|Hne].
    + rewrite list_lookup_insert_eq by done. simplify_eq. exists g'. split_and!; [done|by simplify_eq|]. intros Hj. by destruct (Hlow Hj) as (_ & _ & ?).
    + rewrite list_lookup_insert_ne by done. exists x. by split_and!.
Qed.

(** Reading what the log holds. *)
Lemma read_held ds gs todo pos rec' rec r :
  qlz_spec E → mem_ok mc E → store_inv ds gs todo → holds gs pos rec' →
  append_ok Conf mc rec → packed E rec rec' →
  ∃ res inb r', GetRecordByPos mc E ds pos r = Some (inl (res, inb), r') ∧ same_record rec res.
Proof.
  intros HQ Hm Hs (g & [H0 Hg]%zget_Some & Hh) Ha Ht. unfold GetRecordByPos.
  destruct (lookup_lt_is_Some_2 (ds_chunks ds) (Z.to_nat (ChunkID pos))) as [dc Hdc].
  { rewrite (si_len _ _ _ Hs). by eapply lookup_lt_Some. }
  destruct (si_chunks _ _ _ Hs _ _ _ Hdc Hg) as (_ & Hi & _).
  assert (zget (ds_chunks ds) (ChunkID pos) = Some dc) as -> by (by apply zget_Some).
  cbn [mbind option_bind].
  destruct (chunk_read mc E dc (ds_disk ds) g (Offset pos) rec' r Hm Hi Hh) as (base & inb & r1 & Hsame & ->).
  destruct (reader_gets_original Conf mc E rec rec' base r1 HQ Hm Ha Ht Hsame) as (x & r2 & -> & Hx).
  cbn [mbind option_bind]. eauto.
Qed.

(** ** Updating one chunk *)

Lemma chunk_inv_disk dc disk disk' g :
  chunk_inv mc dc disk g → file_at disk' (dc_chunkid dc) = file_at disk (dc_chunkid dc) →
  chunk_inv mc dc disk' g.
Proof. intros [] Hf. split; try done. by rewrite Hf. Qed.

Lemma store_inv_upd ds gs todo i dc' g' head n t disk' todo' :
  store_inv ds gs todo → (i < length gs)%nat →
  dc_chunkid dc' = Z.of_nat i → chunk_inv mc dc' disk' g' →
  g_done g' = (g_drop g' + in_flight todo' i)%nat →
  (∀ j, j ≠ i → file_at disk' (Z.of_nat j) = file_at (ds_disk ds) (Z.of_nat j)
                ∧ in_flight todo' j = in_flight todo j) →
  ds_newHead ds <= head < zlen gs →
  (if decide (head = Z.of_nat i) then dc_writingHead dc' <= DataFileMax Conf else head = ds_newHead ds) →
  (head < Z.of_nat i → dc_writingHead dc' = 0) →
  (ds_newHead ds <= Z.of_nat i → plain g') →
  match todo' with Some (c, _, _) => 0 <= c < zlen gs | None => True end →
  store_inv (mkStore head (<[i := dc']> (ds_chunks ds)) n t disk') (<[i := g']> gs) todo'.
Proof.
  intros Hs Hlt Hid Hi Hfl Hoth Hh Hroom Hemp Hpl Htd. pose proof (si_len _ _ _ Hs) as Hlen.
  pose proof (si_head _ _ _ Hs) as Hhd. split; cbn [ds_chunks ds_newHead ds_disk].
  - by rewrite !length_insert.
  - intros j dc g Hdc Hg. destruct (decide (j = i)) as [->|Hne].
    + rewrite list_lookup_insert_eq in Hdc by lia. rewrite list_lookup_insert_eq in Hg by lia.
      by simplify_eq.
    + rewrite list_lookup_insert_ne in Hdc by done. rewrite list_lookup_insert_ne in Hg by done.
      destruct (si_chunks _ _ _ Hs _ _ _ Hdc Hg) as (H1 & H2 & H3). destruct (Hoth j Hne) as [Hf Ht].
      split; [done|]. split; [|by rewrite Ht]. eapply chunk_inv_disk; [done|]. by rewrite H1.
  - unfold zlen in *. rewrite length_insert. lia.
  - intros dc [_ Hdc]%zget_Some. destruct (decide (head = Z.of_nat i)) as [->|Hne].
    + rewrite Nat2Z.id, list_lookup_insert_eq in Hdc by lia. by injection Hdc as <-.
    + rewrite list_lookup_insert_ne in Hdc by lia. apply (si_room _ _ _ Hs). apply zget_Some.
      rewrite Hroom in Hdc. split; [lia|done].
  - intros j dc Hj Hdc. destruct (decide (j = i)) as [->|Hne].
    + rewrite list_lookup_insert_eq in Hdc by lia. injection Hdc as <-. by apply Hemp.
    + rewrite list_lookup_insert_ne in Hdc by done. apply (si_empty _ _ _ Hs j); [lia|done].
  - intros j g Hj Hg. destruct (decide (j = i)) as [->|Hne].
    + rewrite list_lookup_insert_eq in Hg by lia. injection Hg as <-. apply Hpl. lia.
    + rewrite list_lookup_insert_ne in Hg by done. apply (si_plain _ _ _ Hs j); [lia|done].
  - unfold zlen in *. by rewrite length_insert.
Qed.

(** ** Appending *)

Definition append_ghost (gs : list ghost) (head : Z) (rec : Record_) : list ghost :=
  match gs !! Z.to_nat head with
  | Some g => <[Z.to_nat head := mkGhost (g_recs g ++ [rec]) (g_drop g) (g_done g) [] []]> gs
  | None => gs
  end.

(** The record lands in chunk [head], which is the head or the next one. *)
Lemma store_append ds gs todo head dc rec :
  store_inv ds gs todo → ds_newHead ds <= head < zlen gs →
  zget (ds_chunks ds) head = Some dc → rec_ok mc rec →
  dc_writingHead dc + rec_Size rec <= DataFileMax Conf → dc_writingHead dc + rec_Size rec < 2 ^ 32 →
  ∃ cs, zset (ds_chunks ds) head
      (dc_AppendRecord dc (wrec_set_pos (wrapRecord rec) (mkPos head (dc_writingHead dc)))) = Some cs
    ∧ (∀ n t, store_inv (mkStore head cs n t (ds_disk ds)) (append_ghost gs head rec) todo)
    ∧ holds (append_ghost gs head rec) (mkPos head (dc_writingHead dc)) rec
    ∧ (∀ x, ¬ holds gs (mkPos head (dc_writingHead dc)) x)
    ∧ grows gs (append_ghost gs head rec)
    ∧ ∀ n t, ds_frame (ds_newHead ds) ds gs (mkStore head cs n t (ds_disk ds)) (append_ghost gs head rec).
Proof.
  intros Hs Hh Hz Hr Hmax H32. pose proof (si_head _ _ _ Hs) as Hhd.
  apply zget_Some in Hz as [H0 Hdc]. unfold zlen in Hh.
  destruct (lookup_lt_is_Some_2 gs (Z.to_nat head)) as [g Hg]; [lia|].
  destruct (si_chunks _ _ _ Hs _ _ _ Hdc Hg) as (Hid & Hi & Hfl).
  assert (plain g) as Hpl by (apply (si_plain _ _ _ Hs (Z.to_nat head)); [lia|done]).
  pose proof (append_chunk mc dc (ds_disk ds) g rec Hi Hpl Hr H32) as Hi'.
  rewrite Hid, Z2Nat.id in Hi' by done. unfold buffered in Hi'. cbn [fst snd] in Hi'.
  set (dc' := dc_AppendRecord dc _) in *. set (g' := mkGhost (_ ++ [rec]) _ _ _ _) in *.
  assert (offset_of g (length (g_recs g)) = dc_writingHead dc) as Hoff.
  { unfold offset_of. rewrite take_ge by lia. symmetry. apply (ci_head _ _ _ _ Hi). }
  destruct (rec_Size_range mc rec Hr) as [Hsz _].
  assert (dc_writingHead dc' <= DataFileMax Conf) as Hhead'.
  { rewrite (ci_head _ _ _ _ Hi'). cbn [g' g_recs].
    rewrite sizes_app, sizes_cons. change (sizes []) with 0.
    pose proof (ci_head _ _ _ _ Hi). lia. }
  unfold append_ghost. rewrite Hg. fold g'.
  exists (<[Z.to_nat head := dc']> (ds_chunks ds)). split; [|split; [|split; [|split; [|split]]]].
  - unfold zset. pose proof (lookup_lt_Some _ _ _ Hdc). unfold zlen.
    destruct (Z.leb_spec 0 head); [|lia]. by destruct (Z.ltb_spec head (Z.of_nat (length (ds_chunks ds)))); [|lia].
  - intros n t. eapply store_inv_upd; [done|lia|exact Hid|exact Hi'|exact Hfl|done|unfold zlen; lia| |lia|by split|].
    + rewrite decide_True by lia. done.
    + apply (si_todo _ _ _ Hs).
  - exists g'. split; [apply zget_Some; split; [done|]; apply list_lookup_insert_eq; lia|]. left. exists (length (g_recs g)). split.
    + cbn [g' g_recs]. by apply list_lookup_middle.
    + cbn [Offset]. rewrite <- Hoff. unfold offset_of. cbn [g' g_recs]. by rewrite take_app_le by lia.
  - intros x (g2 & [_ Hg2]%zget_Some & Hh2). cbn [ChunkID Offset] in *. assert (g2 = g) as -> by congruence.
    destruct Hh2 as [(i & Hri & Ho)|(j & Hrj & _)]; [|destruct Hpl as [_ Hn]; by rewrite Hn in Hrj].
    pose proof (lookup_lt_Some _ _ _ Hri) as Hlt.
    pose proof (sizes_take_lt mc (g_recs g) i (length (g_recs g)) (ci_recs _ _ _ _ Hi) ltac:(lia)).
    unfold offset_of in *. lia.
  - destruct Hpl as [Hgap Hleft]. eapply (grows_insert gs _ g g' [rec]); try done. by right.
  - intros n t. eapply ds_frame_insert; [done|done|lia|done|done|done|]. lia.
Qed.

(** Where [AppendRecord] puts a record and what it counts. *)
Record append_at (ds : dataStore) (gs : list ghost) (x : Record_) (r : BeansdbRL) (ds' : dataStore) (pos : Position)
    (rec' : Record_) : Prop := {
  aa_form : ∃ r1, TryCompress Conf mc E x r = Some (rec', r1);
  aa_head : ds_newHead ds' = ChunkID pos;
  aa_disk : ds_disk ds' = ds_disk ds;
  aa_size : ds_wbufSize ds' = u32 (ds_wbufSize ds + rec_Size rec');
  aa_off : ∃ g, zget gs (ChunkID pos) = Some g ∧ Offset pos = sizes (g_recs g);
  aa_chunk : ∃ dc dc' w, zget (ds_chunks ds) (ChunkID pos) = Some dc
    ∧ ds_chunks ds' = <[Z.to_nat (ChunkID pos) := dc']> (ds_chunks ds)
    ∧ dc_wbuf dc' = dc_wbuf dc ++ [w] ∧ wrec_RecSize w = rec_Size rec' ∧ dc_writingHead dc' = dc_writingHead dc + rec_Size rec'
}.

Lemma append_at_intro ds gs todo x r r1 head dc rec' cs t :
  store_inv ds gs todo → TryCompress Conf mc E x r = Some (rec', r1) → zget (ds_chunks ds) head = Some dc →
  zset (ds_chunks ds) head (dc_AppendRecord dc (wrec_set_pos (wrapRecord rec') (mkPos head (dc_writingHead dc)))) = Some cs →
  is_u32 (dc_writingHead dc + rec_Size rec') →
  append_at ds gs x r (mkStore head cs (u32 (ds_wbufSize ds + rec_Size rec')) t (ds_disk ds)) (mkPos head (dc_writingHead dc)) rec'.
Proof.
  intros Hs Ht Hdc Hcs Hu. pose proof (zget_Some_lt _ _ _ Hdc) as Hlt. apply zget_Some in Hdc as [H0 Hdc].
  destruct (lookup_lt_is_Some_2 gs (Z.to_nat head)) as [g Hg].
  { rewrite <- (si_len _ _ _ Hs). unfold zlen in Hlt. lia. }
  destruct (si_chunks _ _ _ Hs _ _ _ Hdc Hg) as (_ & Hi & _).
  unfold zset in Hcs. destruct ((0 <=? head) && _); [|done]. injection Hcs as <-.
  split; cbn [ds_newHead ChunkID Offset ds_disk ds_wbufSize ds_chunks]; [by eexists|done..| |].
  - exists g. split; [by apply zget_Some|]. apply (ci_head _ _ _ _ Hi).
  - eexists dc, _, _. split; [by apply zget_Some|]. split; [done|]. split; [done|]. split; [done|].
    cbn [dc_AppendRecord dc_writingHead]. by rewrite u32_small.
Qed.

Lemma append_spec ds gs todo rec x r :
  qlz_spec E → store_inv ds gs todo → append_ok Conf mc rec → packed E rec x → ds_newHead ds + 1 < zlen gs →
  ∃ ds' pos spawn r' gs' rec', AppendRecord Conf mc E ds x r = Some (ds', pos, spawn, r')
    ∧ packed E rec rec'
    ∧ store_inv ds' gs' todo ∧ holds gs' pos rec' ∧ (∀ x, ¬ holds gs pos x) ∧ grows gs gs'
    ∧ length gs' = length gs ∧ ds_newHead ds' <= ds_newHead ds + 1
    ∧ ds_frame (ds_newHead ds) ds gs ds' gs' ∧ ds_newHead ds <= ChunkID pos ∧ gs' = append_ghost gs (ChunkID pos) rec'
    ∧ append_at ds gs x r ds' pos rec'.
Proof.
  intros HQ Hs Ha Hx Hroom. unfold AppendRecord.
  destruct (packed_total Conf mc E rec x r HQ Ha Hx) as [[rec' r1] Ht]. rewrite Ht. cbn [mbind option_bind].
  pose proof (packed_try Conf mc E rec x r rec' r1 Ha Hx Ht) as Hp.
  destruct (stored_ok Conf mc E rec rec' HQ Ha Hp) as (Hok & Hsz & Hsum).
  change (wrec_RecSize (wrapRecord rec')) with (rec_Size rec').
  pose proof (si_head _ _ _ Hs) as Hhd. pose proof (si_len _ _ _ Hs) as Hlen.
  destruct (rec_Size_range mc rec' Hok) as [Hs256 _].
  assert (∀ h, 0 <= h < zlen gs → ∃ dc, zget (ds_chunks ds) h = Some dc ∧ 0 <= dc_writingHead dc) as Hget.
  { intros h Hh. destruct (zget_lt (ds_chunks ds) h) as [dc Hdc]; [unfold zlen in *; lia|].
    destruct (zget_lt gs h Hh) as [g Hg]. exists dc. split; [done|].
    apply zget_Some in Hdc as [_ Hdc], Hg as [_ Hg].
    destruct (si_chunks _ _ _ Hs _ _ _ Hdc Hg) as (_ & Hi & _).
    apply (chunk_bounds _ _ _ _ Hi). }
  destruct (Hget (ds_newHead ds)) as (dc & Hdc & Hw0); [lia|]. rewrite Hdc. cbn [mbind option_bind].
  pose proof (si_room _ _ _ Hs dc Hdc) as Hr.
  rewrite !(u32_small (dc_writingHead dc + _)) by (unfold is_u32; lia).
  rewrite (u32_small (DataFileMax Conf)) by (unfold is_u32; lia).
  assert (Hlg : ∀ h, length (append_ghost gs h rec') = length gs).
  { intros h. unfold append_ghost. case_match; [apply length_insert|done]. }
  destruct (Z.ltb_spec (DataFileMax Conf) (dc_writingHead dc + rec_Size rec')) as [Hrot|Hfit].
  - destruct (Hget (ds_newHead ds + 1)) as (dc2 & Hdc2 & _); [lia|]. rewrite Hdc2. cbn [mbind option_bind].
    assert (dc_writingHead dc2 = 0) as Hz.
    { apply zget_Some in Hdc2 as [_ Hdc2]. eapply (si_empty _ _ _ Hs); [|exact Hdc2]. lia. }
    destruct (store_append ds gs todo (ds_newHead ds + 1) dc2 rec') as (cs & Hcs & Hinv & Hh & Hfresh & Hg & Hfrm);
      [done|lia|done|done|lia|lia|]. rewrite Hz in *. rewrite Hcs. cbn [mbind option_bind].
    eexists _, _, _, _, _, _. do 2 (split; [done|]). split; [apply Hinv|]. cbn [ds_newHead ChunkID].
    split_and!; try done; try lia.
    rewrite <- Hz. eapply append_at_intro; [done|done|done|by rewrite Hz|]. rewrite Hz. unfold is_u32. lia.
  - rewrite Hdc. cbn [mbind option_bind].
    destruct (store_append ds gs todo (ds_newHead ds) dc rec') as (cs & Hcs & Hinv & Hh & Hfresh & Hg & Hfrm);
      [done|lia|done|done|lia|lia|]. rewrite Hcs. cbn [mbind option_bind].
    eexists _, _, _, _, _, _. do 2 (split; [done|]). split; [apply Hinv|]. cbn [ds_newHead ChunkID].
    split_and!; try done; try lia. eapply append_at_intro; [done|done|done|done|]. unfold is_u32. lia.
Qed.

(** ** Flushing *)

Lemma GetStreamWriter_append chunk disk :
  zlen (file_at disk chunk) mod 256 = 0 → zlen (file_at disk chunk) < 2 ^ 32 →
  ∃ disk', GetStreamWriter chunk disk true
      = Some (mkWriter (zlen (file_at disk chunk)) (zlen (file_at disk chunk)), disk')
    ∧ ∀ c, file_at disk' c = file_at disk c.
Proof.
  intros Hm H32. unfold GetStreamWriter, file_at in *. destruct (disk !! chunk) as [f|] eqn:Hf.
  - cbn [from_option id default] in *. pose proof (zlen_nonneg f).
    rewrite Z.rem_mod_nonneg by (done || unfold PADDING; lia). unfold PADDING. rewrite Hm.
    cbn [Z.eqb]. rewrite u32_small by (unfold is_u32; lia). eauto.
  - eexists. split; [done|]. intros c. destruct (decide (c = chunk)) as [->|].
    + by rewrite lookup_insert_eq, Hf.
    + by rewrite lookup_insert_ne.
Qed.

Lemma GetStreamWriter_other chunk disk isappend w disk' i :
  GetStreamWriter chunk disk isappend = Some (w, disk') → i ≠ chunk → disk' !! i = disk !! i.
Proof.
  unfold GetStreamWriter. intros Hg Hne. repeat case_match; simplify_eq; try done. by apply lookup_insert_ne.
Qed.

(** The size of the records of a chunk that are still in its buffer. *)
Definition unflushed (g : ghost) : Z := sizes (drop (g_drop g) (g_recs g)).

Lemma flush_write_count ws gc : ∀ w f fl r w' f' fl' r',
  flush_write ws gc w f fl r = (w', f', fl', r') → is_u32 fl → fl' = u32 (fl + zsum (wrec_RecSize <$> ws)).
Proof.
  induction ws as [|x ws IH]; intros w f fl r w' f' fl' r' Hw Hu; cbn [flush_write] in Hw.
  - injection Hw as _ _ <- _. change (zsum (wrec_RecSize <$> [])) with 0. rewrite Z.add_0_r. by rewrite u32_small.
  - destruct (sw_append w f x) as [[w1 f1] e]. apply IH in Hw; [|apply u32_range]. rewrite Hw, fmap_cons, zsum_cons.
    unfold u32. rewrite Zplus_mod_idemp_l. f_equal. lia.
Qed.

Lemma wbuf_size dc disk g : chunk_inv mc dc disk g → zsum (wrec_RecSize <$> dc_wbuf dc) = unflushed g.
Proof.
  intros Hi. rewrite (ci_wbuf _ _ _ _ Hi), <- list_fmap_compose. unfold unflushed, sizes.
  assert (∀ l off, (wrec_RecSize ∘ buffered (dc_chunkid dc)) <$> placed off l = rec_Size <$> l) as Hp.
  { induction l as [|rec l IH]; intros off; [done|]. cbn [placed fmap list_fmap]. by rewrite IH. }
  by rewrite fmap_drop, Hp, <- fmap_drop.
Qed.

(** What the first half of a flush changes. *)
Definition flush_begun (ds : dataStore) (gs : list ghost) (chunk : Z) (force : bool) (now : Z)
    (ds' : dataStore) (gs' : list ghost) (todo : flush_job) : Prop :=
  ds' = ds ∧ gs' = gs ∧ todo = None ∧ flush_due Conf ds force now = false
  ∨ ∃ c g, c = (if chunk <? 0 then ds_newHead ds else chunk) ∧ zget gs c = Some g ∧ flush_due Conf ds force now = true
      ∧ gs' = <[Z.to_nat c := mkGhost (g_recs g) (g_drop g) (length (g_recs g)) (g_gap g) (g_left g)]> gs
      ∧ todo = Some (c, length (drop (g_drop g) (g_recs g)), u32 (unflushed g))
      ∧ ds_wbufSize ds' = ds_wbufSize ds ∧ ds_chunks ds' = ds_chunks ds
      ∧ ∀ i, i ≠ c → ds_disk ds' !! i = ds_disk ds !! i.

Lemma flush_begin_log ds gs chunk force now r :
  store_inv ds gs None → chunk < zlen gs →
  ∃ ds' todo r' gs', flush_begin Conf ds chunk force now r = Some (ds', todo, r')
    ∧ store_inv ds' gs' todo ∧ grows gs gs' ∧ length gs' = length gs ∧ ds_newHead ds' = ds_newHead ds
    ∧ ds_frame MAX_NUM_CHUNK ds gs ds' gs' ∧ flush_begun ds gs chunk force now ds' gs' todo.
Proof.
  intros Hs Hc. unfold flush_begin. destruct (flush_due Conf ds force now) eqn:Hdue; cbn [negb].
  2:{ exists ds, None, r, gs. split_and!; try done; [apply ds_frame_refl|by left]. }
  set (c := if chunk <? 0 then ds_newHead ds else chunk).
  pose proof (si_head _ _ _ Hs) as Hhd. pose proof (si_len _ _ _ Hs) as Hlen.
  assert (0 <= c < zlen gs) as Hcr by (unfold c; destruct (Z.ltb_spec chunk 0); lia).
  destruct (zget_lt (ds_chunks ds) c) as [dc Hdc]; [unfold zlen in *; lia|].
  destruct (zget_lt gs c Hcr) as [g Hg].
  pose proof (proj1 (zget_Some _ _ _) Hdc) as [_ Hdc']. pose proof (proj1 (zget_Some _ _ _) Hg) as [_ Hg'].
  destruct (si_chunks _ _ _ Hs _ _ _ Hdc' Hg') as (Hid & Hi & Hfl). cbn [in_flight] in Hfl.
  rewrite Z2Nat.id in Hid by lia. rewrite Nat.add_0_r in Hfl.
  destruct (flush_size_agrees mc dc (ds_disk ds) g Hi Hfl) as (Hsz & Hal & H32). rewrite Hid in *.
  destruct (GetStreamWriter_append c (ds_disk ds) Hal H32) as (disk' & Hw & Hsame).
  rewrite Hw. cbn [mbind option_bind]. rewrite Hdc. cbn [mbind option_bind sw_offset].
  rewrite Hsz, Z.eqb_refl. cbn [negb].
  destruct (flush_chunk_file mc dc (ds_disk ds) g false (getDiskFileSize dc) 0 r Hi Hfl)
    as (w & n' & r' & Hfw). rewrite Hid, Hsz in Hfw. rewrite Hsame, Hfw.
  apply flush_write_count in Hfw as Hn'; [|done]. rewrite (wbuf_size _ _ _ Hi), Z.add_0_l in Hn'.
  set (g' := mkGhost (g_recs g) (g_drop g) (length (g_recs g)) (g_gap g) (g_left g)).
  eexists _, _, _, (<[Z.to_nat c := g']> gs). split; [done|]. split; [|split; [|split; [|split; [|split]]]].
  - rewrite <- (list_insert_id (ds_chunks ds) (Z.to_nat c) dc) by done.
    pose proof (ci_order _ _ _ _ Hi).
    eapply store_inv_upd; [exact Hs|unfold zlen in Hcr; lia|lia| | | |lia| | | |lia].
    + destruct Hi as [H1 H2 H3 H4 H5 H6 H7 H8 H9 H10]. split; try done; [cbn; lia|].
      cbn [g' g_recs g_done g_gap g_left]. rewrite Hid. unfold file_at. rewrite lookup_insert_eq.
      by rewrite (take_ge (g_recs g)) by lia.
    + cbn [g' g_done g_drop in_flight]. rewrite Z2Nat.id, Z.eqb_refl by lia.
      rewrite (length_wbuf _ _ _ _ Hi). lia.
    + intros j Hne. split.
      * unfold file_at. rewrite lookup_insert_ne by lia. apply Hsame.
      * cbn [in_flight]. destruct (Z.eqb_spec c (Z.of_nat j)); [lia|done].
    + case_decide; [|done]. apply (si_room _ _ _ Hs). by replace (ds_newHead ds) with c by lia.
    + intros Hlt. eapply (si_empty _ _ _ Hs); [|exact Hdc']. lia.
    + intros Hle. apply (si_plain _ _ _ Hs _ _ Hle Hg').
  - eapply (grows_insert gs _ g g' []); [done|by rewrite app_nil_r|done|done|by left].
  - apply length_insert.
  - done.
  - erewrite <- (list_insert_id (ds_chunks ds) (Z.to_nat c) dc) by done. eapply ds_frame_insert; [done|done|lia|done|done|done|].
    intros _. by split_and!.
  - right. exists c, g. split; [done|]. split; [done|]. split; [done|]. split; [done|]. split; [|split; [done|split; [done|]]].
    + by rewrite (length_wbuf _ _ _ _ Hi), length_drop, Hn'.
    + intros i Hne. cbn [ds_disk]. rewrite lookup_insert_ne by done. by eapply GetStreamWriter_other.
Qed.

Lemma flush_begin_spec ds gs chunk force now r :
  store_inv ds gs None → chunk < zlen gs →
  ∃ ds' todo r' gs', flush_begin Conf ds chunk force now r = Some (ds', todo, r')
    ∧ store_inv ds' gs' todo ∧ grows gs gs' ∧ length gs' = length gs ∧ ds_newHead ds' = ds_newHead ds
    ∧ ds_frame MAX_NUM_CHUNK ds gs ds' gs'.
Proof.
  intros Hs Hc. destruct (flush_begin_log ds gs chunk force now r Hs Hc) as (ds' & todo & r' & gs' & H1 & H2 & H3 & H4 & H5 & H6 & _).
  by exists ds', todo, r', gs'.
Qed.

(** What the second half changes. *)
Definition flush_ended (ds : dataStore) (gs : list ghost) (todo : flush_job) (ds' : dataStore) (gs' : list ghost) : Prop :=
  match todo with
  | None => ds' = ds ∧ gs' = gs
  | Some (c, n, fl) => ∃ g, zget gs c = Some g
      ∧ gs' = <[Z.to_nat c := mkGhost (g_recs g) (g_drop g + n) (g_done g) (g_gap g) (g_left g)]> gs
      ∧ ds_wbufSize ds' = u32 (ds_wbufSize ds - fl) ∧ ds_disk ds' = ds_disk ds
  end.

Lemma flush_end_log ds gs todo r :
  store_inv ds gs todo →
  ∃ ds' r' gs', flush_end ds todo r = Some (ds', r') ∧ store_inv ds' gs' None ∧ grows gs gs'
    ∧ length gs' = length gs ∧ ds_newHead ds' = ds_newHead ds ∧ ds_frame MAX_NUM_CHUNK ds gs ds' gs'
    ∧ flush_ended ds gs todo ds' gs'.
Proof.
  intros Hs. destruct todo as [[[c n] fl]|]; cbn [flush_end]; [|exists ds, r, gs; split_and!; try done; apply ds_frame_refl].
  pose proof (si_todo _ _ _ Hs) as Hcr. cbn in Hcr.
  pose proof (si_head _ _ _ Hs) as Hhd. pose proof (si_len _ _ _ Hs) as Hlen.
  destruct (zget_lt (ds_chunks ds) c) as [dc Hdc]; [unfold zlen in *; lia|].
  destruct (zget_lt gs c Hcr) as [g Hg]. rewrite Hdc. cbn [mbind option_bind flush_drop].
  pose proof (proj1 (zget_Some _ _ _) Hdc) as [_ Hdc']. pose proof (proj1 (zget_Some _ _ _) Hg) as [_ Hg'].
  destruct (si_chunks _ _ _ Hs _ _ _ Hdc' Hg') as (Hid & Hi & Hfl). cbn [in_flight] in Hfl.
  rewrite Z2Nat.id, Z.eqb_refl in Hfl by lia.
  set (dc' := mkChunk _ _ _ _ _ _).
  unfold zset. destruct (Z.leb_spec 0 c); [|lia].
  destruct (Z.ltb_spec c (zlen (ds_chunks ds))); [|unfold zlen in *; lia]. cbn [andb mbind option_bind].
  set (g' := mkGhost (g_recs g) (g_drop g + n) (g_done g) (g_gap g) (g_left g)).
  eexists _, _, (<[Z.to_nat c := g']> gs). split; [done|]. split; [|split; [|split; [|split; [|split]]]].
  - pose proof (ci_order _ _ _ _ Hi).
    eapply store_inv_upd; [exact Hs|unfold zlen in Hcr; lia|exact Hid| | | |lia| | | |done].
    + destruct Hi as [H1' H2 H3 H4 H5 H6 H7 H8 H9 H10]. split; try done; [cbn; lia| |].
      * cbn [dc' dc_wbuf dc_chunkid g' g_drop g_recs]. rewrite H4, fmap_drop, drop_drop, fmap_drop. done.
      * destruct H9 as [?|?]; [by left|]. right. cbn. lia.
    + cbn. lia.
    + intros j Hne. split; [done|]. cbn [in_flight]. destruct (Z.eqb_spec c (Z.of_nat j)); [lia|done].
    + case_decide; [|done]. change (dc_writingHead dc') with (dc_writingHead dc).
      apply (si_room _ _ _ Hs). by replace (ds_newHead ds) with c by lia.
    + intros Hlt. change (dc_writingHead dc') with (dc_writingHead dc). eapply (si_empty _ _ _ Hs); [|exact Hdc']. lia.
    + intros Hle. apply (si_plain _ _ _ Hs _ _ Hle Hg').
  - eapply (grows_insert gs _ g g' []); [done|by rewrite app_nil_r|done|done|by left].
  - apply length_insert.
  - done.
  - eapply ds_frame_insert; [done|done|lia|done|done|done|]. intros _. split_and!; try done. cbn. lia.
  - by exists g.
Qed.

Lemma flush_end_spec ds gs todo r :
  store_inv ds gs todo →
  ∃ ds' r' gs', flush_end ds todo r = Some (ds', r') ∧ store_inv ds' gs' None ∧ grows gs gs'
    ∧ length gs' = length gs ∧ ds_newHead ds' = ds_newHead ds ∧ ds_frame MAX_NUM_CHUNK ds gs ds' gs'.
Proof.
  intros Hs. destruct (flush_end_log ds gs todo r Hs) as (ds' & r' & gs' & H1 & H2 & H3 & H4 & H5 & H6 & _). by exists ds', r', gs'.
Qed.

(** ** Histories *)

Inductive ds_event :=
| EvAppend (rec : Record_)
| EvFlushBegin (chunk : Z) (force : bool) (now : Z)
| EvFlushEnd.

(** The store, the flush in progress, the counters, and the records appended so
    far with the positions returned for them. *)
Record run_state := mkRun {
  rs_ds : dataStore; rs_todo : flush_job; rs_rl : BeansdbRL; rs_log : list (Position * Record_)
}.

(** One event. A flush that finds another one in progress waits for it
    ([flushLock]); it is then offered again later. *)
Definition ds_step (s : run_state) (ev : ds_event) : option run_state :=
  match ev with
  | EvAppend rec =>
      '(ds, pos, _, r) ← AppendRecord Conf mc E (rs_ds s) rec (rs_rl s);
      Some (mkRun ds (rs_todo s) r (rs_log s ++ [(pos, rec)]))
  | EvFlushBegin chunk force now =>
      match rs_todo s with
      | Some _ => Some s
      | None =>
          '(ds, todo, r) ← flush_begin Conf (rs_ds s) chunk force now (rs_rl s);
          Some (mkRun ds todo r (rs_log s))
      end
  | EvFlushEnd =>
      '(ds, r) ← flush_end (rs_ds s) (rs_todo s) (rs_rl s);
      Some (mkRun ds None r (rs_log s))
  end.
Definition ds_run (s : run_state) (evs : list ds_event) : option run_state :=
  foldl (λ acc ev, s ← acc; ds_step s ev) (Some s) evs.

Definition ev_ok (n : Z) (ev : ds_event) : Prop :=
  match ev with
  | EvAppend rec => append_ok Conf mc rec
  | EvFlushBegin chunk _ _ => chunk < n
  | EvFlushEnd => True
  end.

(** What holds of a run: every logged record is held, compressed or not. *)
Record run_inv (s : run_state) (gs : list ghost) : Prop := {
  ri_store : store_inv (rs_ds s) gs (rs_todo s);
  ri_log : ∀ pos rec, (pos, rec) ∈ rs_log s → append_ok Conf mc rec ∧
    ∃ rec', packed E rec rec' ∧ holds gs pos rec';
  ri_nodup : NoDup (rs_log s).*1
}.

Lemma run_inv_grows s gs ds' todo' r' gs' :
  run_inv s gs → store_inv ds' gs' todo' → grows gs gs' → run_inv (mkRun ds' todo' r' (rs_log s)) gs'.
Proof.
  intros [Hs Hl Hn] Hs' Hg. split; [done| |done]. intros pos rec Hin.
  destruct (Hl pos rec Hin) as (Ha & rec' & Ht & Hh). split; [done|].
  exists rec'. split; [done|]. by eapply holds_grows.
Qed.

Lemma ds_step_inv s gs ev :
  qlz_spec E → run_inv s gs → ev_ok (zlen gs) ev → ds_newHead (rs_ds s) + 1 < zlen gs →
  ∃ s' gs', ds_step s ev = Some s' ∧ run_inv s' gs' ∧ length gs' = length gs
    ∧ ds_newHead (rs_ds s') <= ds_newHead (rs_ds s) + 1
    ∧ (rs_log s').*2 = (rs_log s).*2 ++ (if ev is EvAppend rec then [rec] else []).
Proof.
  intros HQ Hi Hok Hroom. pose proof (ri_store _ _ Hi) as Hs. destruct ev as [rec|chunk force now|]; cbn [ds_step].
  - destruct (append_spec (rs_ds s) gs (rs_todo s) rec rec (rs_rl s) HQ Hs Hok (packed_refl E rec) Hroom)
      as (ds' & pos & sp & r' & gs' & rec' & -> & Ht & Hs' & Hh & Hfresh & Hg & Hlen & Hhead & _).
    cbn [mbind option_bind]. eexists _, gs'. split; [done|].
    destruct (run_inv_grows s gs ds' (rs_todo s) r' gs' Hi Hs' Hg) as [_ Hl Hn].
    split; [|split; [done|split; [done|by cbn [rs_log]; rewrite fmap_app]]].
    split; cbn [rs_ds rs_log rs_todo] in *; [done| |].
    + intros p x [Hin|Hin]%elem_of_app; [by apply Hl|]. apply list_elem_of_singleton in Hin as [= -> ->]. eauto 10.
    + rewrite fmap_app. apply NoDup_app. split; [done|]. split; [|apply NoDup_singleton].
      intros p Hin Hp. apply list_elem_of_singleton in Hp as ->. simpl in Hin.
      apply list_elem_of_fmap in Hin as ([p x] & [= ->] & Hin).
      destruct (ri_log _ _ Hi _ _ Hin) as (_ & x' & _ & Hx). by apply (Hfresh x').
  - destruct (rs_todo s) as [job|] eqn:Htd.
    + exists s, gs. rewrite app_nil_r. split; [done|]. split; [done|]. split; [done|]. split; [lia|done].
    + destruct (flush_begin_spec (rs_ds s) gs chunk force now (rs_rl s) Hs Hok)
        as (ds' & todo & r' & gs' & -> & Hs' & Hg & Hlen & Hhead & _).
      cbn [mbind option_bind]. eexists _, gs'. split; [done|]. split; [by eapply run_inv_grows|].
      cbn [rs_ds rs_log]. rewrite app_nil_r. split; [done|]. split; [lia|done].
  - destruct (flush_end_spec (rs_ds s) gs (rs_todo s) (rs_rl s) Hs) as (ds' & r' & gs' & -> & Hs' & Hg & Hlen & Hhead & _).
    cbn [mbind option_bind]. eexists _, gs'. split; [done|]. split; [by eapply run_inv_grows|].
    cbn [rs_ds rs_log]. rewrite app_nil_r. split; [done|]. split; [lia|done].
Qed.

Definition appended (evs : list ds_event) : list Record_ :=
  evs ≫= λ ev, if ev is EvAppend rec then [rec] else [].

(** ** An empty store *)

Definition no_ghost : ghost := mkGhost [] 0 0 [] [].

Lemma new_store_inv :
  0 <= DataFileMax Conf →
  store_inv (NewdataStore ∅) (replicate (Z.to_nat MAX_NUM_CHUNK) no_ghost) None.
Proof.
  intros Hmax. assert (∀ i dc, ds_chunks (NewdataStore ∅) !! i = Some dc → dc = new_chunk i) as Hnew.
  { intros i dc Hi. unfold NewdataStore in Hi. cbn [ds_chunks] in Hi.
    rewrite list_lookup_fmap in Hi. destruct (seq 0 _ !! i) as [k|] eqn:Hk; [|done].
    apply lookup_seq in Hk as [-> _]. by injection Hi as <-. }
  split.
  - unfold NewdataStore. cbn [ds_chunks]. by rewrite length_fmap, length_seq, length_replicate.
  - intros i dc g ->%Hnew [-> _]%lookup_replicate. split; [done|]. split; [|done]. split; try done. by left.
  - unfold zlen. rewrite length_replicate. by vm_compute.
  - intros dc [_ ->%Hnew]%zget_Some. done.
  - intros i dc _ ->%Hnew. done.
  - intros i g _ [-> _]%lookup_replicate. done.
  - done.
Qed.

(** The states a data store can reach from an empty one: a step is any event, as
    long as there is a chunk left to rotate to. *)
Inductive ds_reach (r : BeansdbRL) : run_state → Prop :=
| reach_init : ds_reach r (mkRun (NewdataStore ∅) None r [])
| reach_step s ev s' :
    ds_reach r s → ev_ok MAX_NUM_CHUNK ev → ds_newHead (rs_ds s) + 1 < MAX_NUM_CHUNK →
    ds_step s ev = Some s' → ds_reach r s'.

Lemma ds_reach_inv r s :
  qlz_spec E → 0 <= DataFileMax Conf → ds_reach r s → ∃ gs, run_inv s gs ∧ zlen gs = MAX_NUM_CHUNK.
Proof.
  intros HQ Hmax. induction 1 as [|s ev s' Hr (gs & Hi & Hz) Hok Hroom Hst].
  - exists (replicate (Z.to_nat MAX_NUM_CHUNK) no_ghost).
    split; [|unfold zlen; by rewrite length_replicate].
    split; [by apply new_store_inv| |constructor]. intros pos rec Hin. by apply not_elem_of_nil in Hin.
  - destruct (ds_step_inv s gs ev HQ Hi) as (s1 & gs1 & Hst1 & Hi1 & Hl & _); [by rewrite Hz..|].
    rewrite Hst in Hst1. injection Hst1 as <-. exists gs1. split; [done|]. unfold zlen in *. by rewrite Hl.
Qed.

(** Short histories reach a state. *)
Lemma ds_run_reach evs r s :
  qlz_spec E → 0 <= DataFileMax Conf → ds_reach r s → Forall (ev_ok MAX_NUM_CHUNK) evs →
  ds_newHead (rs_ds s) + zlen evs < MAX_NUM_CHUNK →
  ∃ s', ds_run s evs = Some s' ∧ ds_reach r s' ∧ (rs_log s').*2 = (rs_log s).*2 ++ appended evs.
Proof.
  intros HQ Hmax. revert s. induction evs as [|ev evs IH]; intros s Hr Hok Hlen.
  { exists s. split; [done|]. split; [done|]. by rewrite app_nil_r. }
  apply Forall_cons in Hok as [Hev Hevs]. unfold zlen in Hlen. cbn [length] in Hlen.
  destruct (ds_reach_inv r s HQ Hmax Hr) as (gs & Hi & Hz).
  destruct (ds_step_inv s gs ev HQ Hi) as (s1 & gs1 & Hst & Hi1 & _ & Hhead & Hlog); [by rewrite Hz|rewrite Hz; lia|].
  destruct (IH s1) as (s2 & Hrun & Hr2 & Hlog2); [|done|unfold zlen; lia|].
  { eapply reach_step; [done..|lia|done]. }
  exists s2. unfold ds_run in *. cbn [foldl]. cbn [mbind option_bind]. rewrite Hst.
  split; [done|]. split; [done|]. rewrite Hlog2, Hlog, <- app_assoc. done.
Qed.

(** C11. The data store gives back what was put in. In every state reached from an
    empty store by appends interleaved with the two halves of flushes: each
    appended record is returned at the position [AppendRecord] gave for it (same
    key, value, timestamp, flag and version, whether it was compressed, buffered,
    in the middle of a flush or on disk), no two records share a position, and
    any further event is carried out without a panic and logs what it appends. *)
Theorem data_read_your_writes r s :
  qlz_spec E → mem_ok mc E → 0 <= DataFileMax Conf → ds_reach r s →
  NoDup (rs_log s).*1
  ∧ (∀ pos rec, (pos, rec) ∈ rs_log s → ∀ r1, ∃ res inb r2,
       GetRecordByPos mc E (rs_ds s) pos r1 = Some (inl (res, inb), r2) ∧ same_record rec res)
  ∧ (∀ ev, ev_ok MAX_NUM_CHUNK ev → ds_newHead (rs_ds s) + 1 < MAX_NUM_CHUNK →
       ∃ s', ds_step s ev = Some s'
         ∧ (rs_log s').*2 = (rs_log s).*2 ++ (if ev is EvAppend rec then [rec] else [])).
Proof.
  intros HQ Hm Hmax Hr. destruct (ds_reach_inv r s HQ Hmax Hr) as (gs & Hi & Hz).
  split; [apply (ri_nodup _ _ Hi)|]. split.
  - intros pos rec Hin r1. destruct (ri_log _ _ Hi _ _ Hin) as (Ha & rec' & Ht & Hh).
    by eapply read_held; try done; apply (ri_store _ _ Hi).
  - intros ev Hok Hroom. destruct (ds_step_inv s gs ev HQ Hi) as (s1 & gs1 & Hst & _ & _ & _ & Hlog);
      [by rewrite Hz..|]. eauto.
Qed.

End Histories.

Definition append_okb (Conf : HStoreConfig) (mc : MCConfig) (rec : Record_) : bool :=
  let k := zlen (r_Key rec) in
  let v := zlen (p_Body (r_Payload rec)) in
  rec_okb mc rec && (Z.land (Flag (p_meta (r_Payload rec))) FLAG_COMPRESS =? 0)
  && ((0 <? v) || (rec_Size rec <=? 256)) && (v <? 2 ^ 31) && IsValidValueSize mc (v + 400)
  && (24 + k + v + 655 <=? DataFileMax Conf) && (DataFileMax Conf + (24 + k + v + 655) <? 2 ^ 32).

Lemma append_okb_ok Conf mc rec : append_okb Conf mc rec = true → append_ok Conf mc rec.
Proof.
  unfold append_okb. intros Hb. do 6 (apply andb_true_iff in Hb as [Hb ?]).
  split; try done; try lia; [by apply rec_okb_ok|].
  intros Hz. rewrite Hz in *. change (zlen []) with 0 in *. lia.
Qed.

Definition demo_events : list ds_event :=
  [EvAppend demo_a; EvAppend demo_b; EvFlushBegin (-1) true 10;
   EvAppend (demo_rec (bstr "gamma") (bstr "late") 3 0 7); EvFlushEnd].

Lemma data_read_your_writes_witness :
  ∃ s, ds_reach demo_conf DefaultMCConfig demo_ext ResetAll s ∧ (rs_log s).*2 = appended demo_events
    ∧ ∀ pos rec, (pos, rec) ∈ rs_log s → ∃ res inb r2,
        GetRecordByPos DefaultMCConfig demo_ext (rs_ds s) pos ResetAll = Some (inl (res, inb), r2)
        ∧ same_record rec res.
Proof.
  destruct (ds_run_reach demo_conf DefaultMCConfig demo_ext demo_events ResetAll
    (mkRun (NewdataStore ∅) None ResetAll [])) as (s & _ & Hr & Hl).
  { apply demo_qlz_spec. } { by vm_compute. } { apply reach_init. }
  { repeat (apply Forall_cons; split; [first [apply append_okb_ok; by vm_compute | by vm_compute]|]). done. }
  { by vm_compute. }
  destruct (data_read_your_writes demo_conf DefaultMCConfig demo_ext ResetAll s) as (_ & Hread & _).
  { apply demo_qlz_spec. } { intros n _. apply demo_alloc. } { by vm_compute. } { exact Hr. }
  exists s. split; [exact Hr|]. split; [exact Hl|]. intros pos rec Hin. exact (Hread pos rec Hin ResetAll).
Defined.
