(* ===== verification/HintFile.v ===== *)
(** * Hint files (src/store/hintfile.go, src/store/hintindex.go)

    A hint file lists the items of a split sorted by key hash: a 16-byte header,
    the items, and a sparse index of (key hash, offset) pairs at the end. Files
    are byte sequences. *)

From stdpp Require Import sorting.
From S2P Require Import Prelude Config Cmem Item Fixtures DataFile Data DataSpec.

Definition HINTFILE_HEAD_SIZE : Z := 16.
Definition HINTITEM_HEAD_SIZE : Z := 23.
Definition HINTINDEX_ROW_SIZE : nat := 4096.

Record hintFileMeta := mkHintMeta { numKey : Z; indexOffset : Z; datasize : Z }.

Definition meta_Dumps (fm : hintFileMeta) : bytes :=
  le_put 8 (u64 (indexOffset fm)) ++ le_put 4 (u32 (numKey fm)) ++ le_put 4 (datasize fm).
Definition meta_Loads (buf : bytes) : hintFileMeta :=
  mkHintMeta (le_word 4 (drop 8 buf)) (i64 (le_word 8 buf)) (le_word 4 (drop 12 buf)).

(** ** The index being built *)

Record hintIndexItem := mkIndexItem { ii_keyhash : Z; ii_offset : Z }.

(** Full rows of 4096 entries and the current row. *)
Record hintFileIndexBuffer := mkIndexBuffer {
  ib_rows : list (list hintIndexItem);
  ib_cur : list hintIndexItem;
  ib_lastoffset : Z
}.
Definition newHintFileIndex : hintFileIndexBuffer := mkIndexBuffer [] [] 0.

Definition toIndex (b : hintFileIndexBuffer) : list hintIndexItem := concat (ib_rows b) ++ ib_cur b.

(** [append]: [None] is the panic when the 4096 rows are full. *)
Definition ib_append (b : hintFileIndexBuffer) (keyhash offset : Z) : option hintFileIndexBuffer :=
  let cur := ib_cur b ++ [mkIndexItem keyhash offset] in
  if (HINTINDEX_ROW_SIZE - 1 <=? length (ib_cur b))%nat then
    if (4096 <=? S (length (ib_rows b)))%nat then None
    else Some (mkIndexBuffer (ib_rows b ++ [cur]) [] offset)
  else Some (mkIndexBuffer (ib_rows b) cur offset).

(** ** Writing *)

Record hintFileWriter := mkHintWriter {
  hw_index : hintFileIndexBuffer;
  hw_numKey : Z;
  hw_datasize : Z;
  hw_items : bytes;
  hw_offset : Z
}.

Definition newHintFileWriter (maxOffset : Z) : hintFileWriter :=
  mkHintWriter newHintFileIndex 0 maxOffset [] HINTFILE_HEAD_SIZE.

Definition hint_item_bytes (item : HintItem) : bytes :=
  let m := hi_meta item in
  le_put 8 (Keyhash m) ++ le_put 4 (u32 (ChunkID (Pos m))) ++ le_put 4 (Offset (Pos m))
  ++ le_put 4 (u32 (it_Ver m)) ++ le_put 2 (Vhash m) ++ [u8 (zlen (hi_Key item))] ++ hi_Key item.

Section Hint.
Context (Conf : HStoreConfig).

Definition writeItem (w : hintFileWriter) (item : HintItem) : option hintFileWriter :=
  index ←
    (if IndexIntervalSize Conf - HINTITEM_HEAD_SIZE - 256 <? hw_offset w - ib_lastoffset (hw_index w)
     then ib_append (hw_index w) (Keyhash (hi_meta item)) (hw_offset w)
     else Some (hw_index w));
  Some (mkHintWriter index (hw_numKey w + 1) (hw_datasize w) (hw_items w ++ hint_item_bytes item)
          (hw_offset w + HINTITEM_HEAD_SIZE + zlen (hi_Key item))).

Definition hw_meta (w : hintFileWriter) : hintFileMeta :=
  mkHintMeta (hw_numKey w) (hw_offset w) (hw_datasize w).
Definition index_bytes (it : hintIndexItem) : bytes :=
  le_put 8 (ii_keyhash it) ++ le_put 8 (u64 (ii_offset it)).

(** [close]: the file that is renamed into place. *)
Definition hw_close (w : hintFileWriter) : bytes :=
  meta_Dumps (hw_meta w) ++ hw_items w ++ (toIndex (hw_index w) ≫= index_bytes).

(** ** Reading *)

Record hintFileReader := mkHintReader {
  hr_meta : hintFileMeta;
  hr_file : bytes;
  hr_pos : nat;
  hr_offset : Z
}.

Definition hr_ReadFull (r : hintFileReader) (n : nat) : option (bytes * hintFileReader) :=
  let avail := drop (hr_pos r) (hr_file r) in
  if (n <=? length avail)%nat
  then Some (take n avail, mkHintReader (hr_meta r) (hr_file r) (hr_pos r + n) (hr_offset r))
  else None.

Definition hr_open (f : bytes) : hintFileReader + StoreErr :=
  match hr_ReadFull (mkHintReader (mkHintMeta 0 0 0) f 0 0) 16 with
  | None => inr ErrHint
  | Some (h, r) =>
      let m := meta_Loads h in
      let m := if indexOffset m =? 0 then mkHintMeta (numKey m) (zlen f) (datasize m) else m in
      inl (mkHintReader m f (hr_pos r) HINTFILE_HEAD_SIZE)
  end.

(** [next]: [inl None] is the end of the items. *)
Definition hr_next (r : hintFileReader) : (option HintItem + StoreErr) * hintFileReader :=
  if indexOffset (hr_meta r) <=? hr_offset r then (inl None, r)
  else
    match hr_ReadFull r 23 with
    | None => (inr ErrHint, r)
    | Some (h, r) =>
        let ksz := nth 22 h 0 in
        match hr_ReadFull r (Z.to_nat ksz) with
        | None => (inr ErrHint, r)
        | Some (key, r) =>
            let item := mkHintItem
              (mkHTreeItem (le_word 8 h) (mkPos (le_word 4 (drop 8 h)) (le_word 4 (drop 12 h)))
                 (i32 (le_word 4 (drop 16 h))) (le_word 2 (drop 20 h))) key in
            (inl (Some item),
             mkHintReader (hr_meta r) (hr_file r) (hr_pos r) (hr_offset r + HINTITEM_HEAD_SIZE + ksz))
        end
    end.

(** ** The sparse index *)

Record hintFileIndex := mkHintIndex {
  hx_index : list hintIndexItem;
  hx_file : bytes;
  hx_meta : hintFileMeta
}.

(** The loop of [get]. *)
Fixpoint index_scan (fuel : nat) (r : hintFileReader) (keyhash : Z) (key : bytes)
    : option (option HintItem + StoreErr) :=
  match fuel with
  | O => None
  | S fuel =>
      match hr_next r with
      | (inr e, _) => Some (inr e)
      | (inl None, _) => Some (inl None)
      | (inl (Some it), r) =>
          let kh := Keyhash (hi_meta it) in
          if kh <? keyhash then index_scan fuel r keyhash key
          else if keyhash <? kh then Some (inl None)
          else if bytes_eqb (hi_Key it) key then Some (inl (Some it))
          else index_scan fuel r keyhash key
      end
  end.

(** [hintFileIndex.get]: after the seek the reader's [offset] still counts from
    the start of the items. Every item takes at least 23 bytes of the file. *)
Definition index_get (idx : hintFileIndex) (keyhash : Z) (key : bytes)
    : option (option HintItem + StoreErr) :=
  let arr := hx_index idx in
  let j := Search (length arr) (λ i, keyhash <=? ii_keyhash (nth i arr (mkIndexItem 0 0))) in
  let offset := if (1 <? j)%nat then ii_offset (nth (j - 1) arr (mkIndexItem 0 0)) else HINTFILE_HEAD_SIZE in
  match hr_open (hx_file idx) with
  | inr e => Some (inr e)
  | inl r =>
      index_scan (S (length (hx_file idx)))
        (mkHintReader (hr_meta r) (hr_file r) (Z.to_nat offset) (hr_offset r)) keyhash key
  end.

(** [loadHintIndex]: [None] is a panic: an index area that is not whole, that starts
    past the end, or that is longer than a slice can be. A negative start, from a corrupt
    header, cannot be sought, so the read goes on after the header; it is short when the
    slice could be made (the memory for it is taken to be there). *)
Fixpoint parse_index (n : nat) (raw : bytes) : list hintIndexItem :=
  match n with
  | O => []
  | S n => mkIndexItem (le_word 8 raw) (i64 (le_word 8 (drop 8 raw))) :: parse_index n (drop 16 raw)
  end.
Definition loadHintIndex (f : bytes) : option (hintFileIndex + StoreErr) :=
  if (length f <? 16)%nat then Some (inr ErrHint)
  else
    let m := meta_Loads (take 16 f) in
    let num := zlen f - indexOffset m in
    if indexOffset m <? 0 then if (i64 num <? 0) || (2 ^ 48 <? i64 num) then None else Some (inr ErrHint)
    else if num <? 0 then None
    else if negb (num mod 16 =? 0) then None
    else Some (inl (mkHintIndex (parse_index (Z.to_nat (num / 16)) (drop (Z.to_nat (indexOffset m)) f)) f m)).

(** A file that is shorter than its header is an error. *)
Lemma loadHintIndex_short f : (length f < 16)%nat → loadHintIndex f = Some (inr ErrHint).
Proof. intros Hf. unfold loadHintIndex. by destruct (Nat.ltb_spec (length f) 16); [|lia]. Qed.

(** A file that is cut off behind its header, before its index: loading it panics. *)
Lemma loadHintIndex_cut f : (16 <= length f)%nat → zlen f < indexOffset (meta_Loads (take 16 f)) → loadHintIndex f = None.
Proof.
  intros Hf Hi. unfold loadHintIndex. destruct (Nat.ltb_spec (length f) 16); [lia|]. unfold zlen in *.
  by destruct (Z.ltb_spec (indexOffset (meta_Loads (take 16 f))) 0), (Z.ltb_spec (Z.of_nat (length f) - indexOffset (meta_Loads (take 16 f))) 0); try lia.
Qed.

(** Writing a whole list of items, as [Dump] and [merge] do. *)
Fixpoint writeItems (w : hintFileWriter) (items : list HintItem) : option hintFileWriter :=
  match items with
  | [] => Some w
  | it :: items => w ← writeItem w it; writeItems w items
  end.

(** Reading all the items, as every scan of a hint file does. *)
Fixpoint readItems (fuel : nat) (r : hintFileReader) : option (list HintItem + StoreErr) :=
  match fuel with
  | O => None
  | S fuel =>
      match hr_next r with
      | (inr e, _) => Some (inr e)
      | (inl None, _) => Some (inl [])
      | (inl (Some it), r) =>
          res ← readItems fuel r;
          Some (match res with inl l => inl (it :: l) | inr e => inr e end)
      end
  end.

(** ** Items in a file *)

Record hint_ok (it : HintItem) : Prop := {
  ho_kh : is_u64 (Keyhash (hi_meta it));
  ho_chunk : is_u32 (ChunkID (Pos (hi_meta it)));
  ho_off : is_u32 (Offset (Pos (hi_meta it)));
  ho_ver : is_i32 (it_Ver (hi_meta it));
  ho_vh : is_u16 (Vhash (hi_meta it));
  ho_key : zlen (hi_Key it) < 256
}.

Definition hint_size (it : HintItem) : Z := 23 + zlen (hi_Key it).
Definition hints_bytes (items : list HintItem) : bytes := items ≫= hint_item_bytes.
Definition hint_sizes (items : list HintItem) : Z := zsum (hint_size <$> items).

Lemma zlen_hint_item it : zlen (hint_item_bytes it) = hint_size it.
Proof.
  unfold hint_item_bytes, hint_size, zlen. rewrite !length_app, !length_le_put. simpl. lia.
Qed.

Lemma hint_sizes_cons it items : hint_sizes (it :: items) = hint_size it + hint_sizes items.
Proof. done. Qed.
Lemma hint_sizes_app a b : hint_sizes (a ++ b) = hint_sizes a + hint_sizes b.
Proof. unfold hint_sizes. by rewrite fmap_app, zsum_app. Qed.
Lemma hint_size_pos it : 23 <= hint_size it.
Proof. unfold hint_size. pose proof (zlen_nonneg (hi_Key it)). lia. Qed.
Lemma hint_sizes_nonneg items : 0 <= hint_sizes items.
Proof.
  induction items as [|it items IH]; [done|]. rewrite hint_sizes_cons.
  pose proof (hint_size_pos it). lia.
Qed.
Lemma zlen_hints_bytes items : zlen (hints_bytes items) = hint_sizes items.
Proof.
  induction items as [|it items IH]; [done|].
  change (hints_bytes (it :: items)) with (hint_item_bytes it ++ hints_bytes items).
  by rewrite zlen_app, zlen_hint_item, IH.
Qed.

Lemma hr_ReadFull_app pre b post m pos off n :
  pos = length pre → length b = n →
  hr_ReadFull (mkHintReader m (pre ++ b ++ post) pos off) n
  = Some (b, mkHintReader m (pre ++ b ++ post) (pos + n) off).
Proof.
  intros -> <-. unfold hr_ReadFull. cbn [hr_pos hr_file hr_meta hr_offset].
  rewrite drop_app_length, length_app.
  destruct (Nat.leb_spec (length b) (length b + length post)); [|lia]. by rewrite take_app_length.
Qed.

(** The 23 bytes before the key. *)
Definition hint_head (it : HintItem) : bytes :=
  let m := hi_meta it in
  le_put 8 (Keyhash m) ++ le_put 4 (u32 (ChunkID (Pos m))) ++ le_put 4 (Offset (Pos m))
  ++ le_put 4 (u32 (it_Ver m)) ++ le_put 2 (Vhash m) ++ [u8 (zlen (hi_Key it))].

Lemma hint_head_spec it :
  hint_ok it → let h := hint_head it in
  length h = 23%nat ∧ hint_item_bytes it = h ++ hi_Key it
  ∧ le_word 8 h = Keyhash (hi_meta it) ∧ le_word 4 (drop 8 h) = ChunkID (Pos (hi_meta it))
  ∧ le_word 4 (drop 12 h) = Offset (Pos (hi_meta it)) ∧ i32 (le_word 4 (drop 16 h)) = it_Ver (hi_meta it)
  ∧ le_word 2 (drop 20 h) = Vhash (hi_meta it) ∧ nth 22 h 0 = zlen (hi_Key it).
Proof.
  intros [Hkh Hc Ho Hv Hvh Hk]. cbn zeta. unfold hint_head, hint_item_bytes.
  set (m := hi_meta it) in *. pose proof (zlen_nonneg (hi_Key it)) as Hk0.
  split; [by rewrite !length_app, !length_le_put|]. split; [by rewrite <- !app_assoc|].
  assert (∀ n (a b : bytes), length a = n → drop n (a ++ b) = b) as Hd
    by (intros n a b <-; apply drop_app_length).
  assert (∀ k x, 0 <= x < 256 ^ Z.of_nat k → x mod 256 ^ Z.of_nat k = x) as Hsm
    by (intros; by apply Z.mod_small).
  change 22%nat with (8 + (4 + (4 + (4 + (2 + 0)))))%nat. change 20%nat with (8 + (4 + (4 + 4)))%nat.
  change 16%nat with (8 + (4 + 4))%nat. change 12%nat with (8 + 4)%nat.
  rewrite <- !drop_drop. rewrite !Hd by apply length_le_put. rewrite !le_word_put.
  rewrite !Hsm by (simpl; width). rewrite u32_small, i32_u32 by done.
  split; [done|]. split; [done|]. split; [done|]. split; [done|]. split; [done|].
  cbn [le_put app nth Nat.add]. width.
Qed.

(** Reading one item. *)
Lemma hr_next_item pre it post m off :
  hint_ok it → off < indexOffset m →
  hr_next (mkHintReader m (pre ++ hint_item_bytes it ++ post) (length pre) off)
  = (inl (Some it), mkHintReader m (pre ++ hint_item_bytes it ++ post)
                      (length pre + Z.to_nat (hint_size it)) (off + hint_size it)).
Proof.
  intros Hok Hoff. destruct (hint_head_spec it Hok) as (Hl & Hb & H0 & H8 & H12 & H16 & H20 & H22).
  unfold hr_next. cbn [hr_meta hr_offset]. destruct (Z.leb_spec (indexOffset m) off); [lia|].
  rewrite Hb, <- app_assoc, hr_ReadFull_app by done. rewrite H22.
  rewrite app_assoc, hr_ReadFull_app by (rewrite ?length_app; unfold zlen; lia).
  rewrite H0, H8, H12, H16, H20. unfold hint_size, HINTITEM_HEAD_SIZE. cbn [hr_meta hr_file hr_pos hr_offset].
  rewrite <- !app_assoc.
  destruct it as [[kh [c o] v vh] key]. cbn [hi_meta hi_Key Pos ChunkID Offset it_Ver Vhash Keyhash].
  f_equal. f_equal; unfold zlen; lia.
Qed.

(** ** The writer *)

(** The items with their offsets, and the index entry of each. *)
Fixpoint hplaced (off : Z) (items : list HintItem) : list hintIndexItem :=
  match items with
  | [] => []
  | it :: items => mkIndexItem (Keyhash (hi_meta it)) off :: hplaced (off + hint_size it) items
  end.

Definition ib_wf (b : hintFileIndexBuffer) : Prop :=
  Forall (λ row, length row = HINTINDEX_ROW_SIZE) (ib_rows b) ∧ (length (ib_cur b) < HINTINDEX_ROW_SIZE)%nat.

Lemma length_toIndex b :
  ib_wf b → length (toIndex b) = (length (ib_rows b) * HINTINDEX_ROW_SIZE + length (ib_cur b))%nat.
Proof.
  intros [Hr _]. unfold toIndex. rewrite length_app. f_equal.
  induction Hr as [|row rows Hl Hrs IH]; [done|]. cbn [concat length]. rewrite length_app, IH, Hl. lia.
Qed.

Lemma ib_append_spec b kh off :
  ib_wf b → zlen (toIndex b) < 4095 * 4096 →
  ∃ b', ib_append b kh off = Some b' ∧ ib_wf b' ∧ toIndex b' = toIndex b ++ [mkIndexItem kh off].
Proof.
  intros Hwf Hlen. pose proof (length_toIndex b Hwf) as Hl. destruct Hwf as [Hr Hc].
  unfold ib_append, HINTINDEX_ROW_SIZE, zlen in *.
  destruct (Nat.leb_spec (4096 - 1) (length (ib_cur b))) as [Hfull|Hroom].
  - destruct (Nat.leb_spec 4096 (S (length (ib_rows b)))); [lia|].
    eexists. split; [done|]. split.
    + split; cbn [ib_rows ib_cur]; [|unfold HINTINDEX_ROW_SIZE; simpl; lia]. apply Forall_app. split; [done|].
      constructor; [|done]. rewrite length_app. simpl. unfold HINTINDEX_ROW_SIZE. lia.
    + unfold toIndex. cbn [ib_rows ib_cur]. rewrite concat_app. cbn [concat].
      by rewrite !app_nil_r, app_assoc.
  - eexists. split; [done|]. split.
    + split; cbn [ib_rows ib_cur]; [done|]. rewrite length_app. simpl. unfold HINTINDEX_ROW_SIZE. lia.
    + unfold toIndex. cbn [ib_rows ib_cur]. by rewrite app_assoc.
Qed.

(** The writer's offset, items and index after a list of items. *)
Lemma writeItems_spec w items :
  ib_wf (hw_index w) → zlen (toIndex (hw_index w)) + zlen items < 4095 * 4096 →
  ∃ w' l, writeItems w items = Some w' ∧ hw_items w' = hw_items w ++ hints_bytes items
    ∧ hw_offset w' = hw_offset w + hint_sizes items ∧ hw_datasize w' = hw_datasize w
    ∧ hw_numKey w' = hw_numKey w + zlen items
    ∧ toIndex (hw_index w') = toIndex (hw_index w) ++ l ∧ l `sublist_of` hplaced (hw_offset w) items.
Proof.
  revert w. induction items as [|it items IH]; intros w Hwf Hlen.
  { exists w, []. unfold hints_bytes, hint_sizes. cbn [mbind list_bind fmap list_fmap hplaced].
    rewrite !app_nil_r. change (zsum []) with 0. change (zlen []) with 0. rewrite !Z.add_0_r.
    repeat (split; [done|]). constructor. }
  unfold zlen in Hlen. cbn [length] in Hlen. cbn [writeItems]. unfold writeItem.
  assert (∃ ix l0, (if IndexIntervalSize Conf - HINTITEM_HEAD_SIZE - 256 <? hw_offset w - ib_lastoffset (hw_index w)
     then ib_append (hw_index w) (Keyhash (hi_meta it)) (hw_offset w) else Some (hw_index w)) = Some ix
    ∧ ib_wf ix ∧ toIndex ix = toIndex (hw_index w) ++ l0 ∧ (length l0 <= 1)%nat
    ∧ l0 `sublist_of` [mkIndexItem (Keyhash (hi_meta it)) (hw_offset w)])
    as (ix & l0 & Hix & Hwf' & Hto & Hl0 & Hsub).
  { destruct (_ <? _).
    - destruct (ib_append_spec (hw_index w) (Keyhash (hi_meta it)) (hw_offset w)) as (b & Hb & Hbwf & Hbt);
        [done|unfold zlen; lia|]. exists b, [mkIndexItem (Keyhash (hi_meta it)) (hw_offset w)]. split; [done|]. split; [done|]. split; [done|]. split; [simpl; lia|done].
    - exists (hw_index w), []. rewrite app_nil_r. split; [done|]. split; [done|]. split; [done|].
      split; [simpl; lia|]. apply sublist_nil_l. }
  rewrite Hix. cbn [mbind option_bind].
  match goal with |- context [writeItems ?w1 items] => set (w2 := w1) end.
  destruct (IH w2) as (w' & l & Hw & Hit & Hoff & Hds & Hnk & Hidx & Hsub2).
  { done. } { cbn [w2 hw_index]. unfold zlen. rewrite Hto, length_app. lia. }
  exists w', (l0 ++ l). split; [done|]. cbn [w2 hw_items hw_offset hw_datasize hw_numKey hw_index] in *.
  rewrite Hit, Hoff, Hds, Hnk, Hidx, Hto, hint_sizes_cons.
  change (hints_bytes (it :: items)) with (hint_item_bytes it ++ hints_bytes items).
  rewrite <- !app_assoc. unfold hint_size, HINTITEM_HEAD_SIZE in *. unfold zlen. cbn [length].
  repeat (split; [done || lia|]). cbn [hplaced].
  apply (sublist_app l0 [mkIndexItem (Keyhash (hi_meta it)) (hw_offset w)]); [done|].
  unfold hint_size. by replace (hw_offset w + (23 + zlen (hi_Key it))) with (hw_offset w + 23 + zlen (hi_Key it)) by lia.
Qed.

Lemma meta_round_trip fm :
  0 <= indexOffset fm < 2 ^ 63 → is_u32 (numKey fm) → is_u32 (datasize fm) →
  length (meta_Dumps fm) = 16%nat ∧ meta_Loads (meta_Dumps fm) = fm.
Proof.
  intros Hi Hn Hd. unfold meta_Dumps, meta_Loads.
  split; [by rewrite !length_app, !length_le_put|].
  rewrite !u64_small, u32_small by width.
  change 12%nat with (8 + 4)%nat. rewrite <- drop_drop.
  assert (∀ n (a b : bytes), length a = n → drop n (a ++ b) = b) as Hdr
    by (intros n a b <-; apply drop_app_length).
  rewrite !Hdr by apply length_le_put. rewrite !le_word_put. rewrite <- (app_nil_r (le_put 4 (datasize fm))), le_word_put.
  rewrite !Z.mod_small by (simpl; width). destruct fm as [n i d]. cbn in *. f_equal. width.
Qed.

(** ** Whole files *)

(** A list of items that fits a hint file. *)
Record hints_fit (items : list HintItem) (max : Z) : Prop := {
  hf_ok : Forall hint_ok items;
  hf_len : zlen items < 4095 * 4096;
  hf_max : is_u32 max
}.

Lemma hints_fit_sizes items max : hints_fit items max → hint_sizes items < 2 ^ 60 ∧ zlen items < 2 ^ 32.
Proof.
  intros [Hok Hlen _]. split.
  - assert (hint_sizes items <= 279 * zlen items) as Hs.
    { clear Hlen. induction Hok as [|it items Hit Hits IH]; [done|]. rewrite hint_sizes_cons.
      pose proof (ho_key _ Hit). unfold hint_size, zlen in *. cbn [length]. lia. }
    lia.
  - lia.
Qed.

Lemma hint_file_layout items max :
  hints_fit items max →
  ∃ w, writeItems (newHintFileWriter max) items = Some w
    ∧ hw_meta w = mkHintMeta (zlen items) (16 + hint_sizes items) max
    ∧ hw_close w = meta_Dumps (hw_meta w) ++ hints_bytes items ++ (toIndex (hw_index w) ≫= index_bytes)
    ∧ toIndex (hw_index w) `sublist_of` hplaced 16 items
    ∧ hr_open (hw_close w) = inl (mkHintReader (hw_meta w) (hw_close w) 16 16).
Proof.
  intros Hf. destruct (hints_fit_sizes items max Hf) as [Hs Hn]. pose proof (hint_sizes_nonneg items) as H0.
  destruct (writeItems_spec (newHintFileWriter max) items) as (w & l & Hw & Hit & Hoff & Hds & Hnk & Hidx & Hsub).
  { split; [constructor|]. unfold HINTINDEX_ROW_SIZE. simpl. lia. }
  { cbn [newHintFileWriter hw_index]. change (zlen (toIndex newHintFileIndex)) with 0. apply (hf_len _ _ Hf). }
  cbn [newHintFileWriter hw_items hw_offset hw_datasize hw_numKey hw_index app] in *.
  assert (hw_meta w = mkHintMeta (zlen items) (16 + hint_sizes items) max) as Hm.
  { unfold hw_meta. rewrite Hnk, Hoff, Hds. done. }
  exists w. split; [done|]. split; [done|]. unfold hw_close. rewrite Hit. split; [done|].
  split; [by rewrite Hidx|].
  destruct (meta_round_trip (hw_meta w)) as [Hl Hld];
    [rewrite Hm; cbn; lia|rewrite Hm; cbn; pose proof (zlen_nonneg items); width|rewrite Hm; apply (hf_max _ _ Hf)|].
  unfold hr_open.
  pose proof (hr_ReadFull_app [] (meta_Dumps (hw_meta w))
    (hints_bytes items ++ (toIndex (hw_index w) ≫= index_bytes)) (mkHintMeta 0 0 0) 0 0 16 eq_refl Hl) as Hrf.
  rewrite app_nil_l in Hrf. rewrite Hrf, Hld. cbn [hr_pos].
  destruct (Z.eqb_spec (indexOffset (hw_meta w)) 0) as [Hz|]; [rewrite Hm in Hz; cbn in Hz; lia|]. done.
Qed.

Lemma readItems_spec fuel pre items post m off :
  Forall hint_ok items → off + hint_sizes items = indexOffset m → (length items < fuel)%nat →
  readItems fuel (mkHintReader m (pre ++ hints_bytes items ++ post) (length pre) off)
  = Some (inl items).
Proof.
  intros Hok. revert fuel pre off. induction Hok as [|it items Hit Hits IH]; intros fuel pre off Hoff Hfu;
    (destruct fuel as [|fuel]; [cbn [length] in Hfu; lia|]).
  - cbn. unfold hr_next. cbn [hr_meta hr_offset]. change (hint_sizes []) with 0 in Hoff.
    destruct (Z.leb_spec (indexOffset m) off); [done|lia].
  - cbn [length] in Hfu. rewrite hint_sizes_cons in Hoff. pose proof (hint_sizes_nonneg items).
    pose proof (hint_size_pos it).
    change (hints_bytes (it :: items)) with (hint_item_bytes it ++ hints_bytes items).
    cbn [readItems]. rewrite <- app_assoc, hr_next_item by (done || lia).
    specialize (IH fuel (pre ++ hint_item_bytes it) (off + hint_size it) ltac:(lia) ltac:(lia)).
    rewrite <- app_assoc, length_app in IH. pose proof (zlen_hint_item it) as Hz. unfold zlen in Hz.
    replace (length (hint_item_bytes it)) with (Z.to_nat (hint_size it)) in IH by lia.
    rewrite IH. done.
Qed.

Lemma hint_file_reads items max w fuel :
  hints_fit items max → writeItems (newHintFileWriter max) items = Some w → (length items < fuel)%nat →
  readItems fuel (mkHintReader (hw_meta w) (hw_close w) 16 16) = Some (inl items).
Proof.
  intros Hf Hw Hfu. destruct (hint_file_layout items max Hf) as (w' & Hw' & Hm & Hc & _).
  rewrite Hw in Hw'. injection Hw' as <-.
  destruct (hints_fit_sizes items max Hf) as [Hs Hn]. pose proof (hint_sizes_nonneg items).
  destruct (meta_round_trip (hw_meta w)) as [Hl _];
    [rewrite Hm; cbn; lia|rewrite Hm; cbn; pose proof (zlen_nonneg items); width|rewrite Hm; apply (hf_max _ _ Hf)|].
  rewrite Hc. rewrite <- Hl. apply readItems_spec; [apply (hf_ok _ _ Hf)|by rewrite Hm|done].
Qed.

(** Writing any list of items to a hint file and scanning the file returns
    exactly the items written, in order; the header records their number and the
    data size. *)
Theorem hint_file_round_trip items max :
  hints_fit items max →
  ∃ w r, writeItems (newHintFileWriter max) items = Some w ∧ hr_open (hw_close w) = inl r
    ∧ hr_meta r = mkHintMeta (zlen items) (16 + hint_sizes items) max
    ∧ readItems (S (length items)) r = Some (inl items).
Proof.
  intros Hf. destruct (hint_file_layout items max Hf) as (w & Hw & Hm & Hc & _ & Ho).
  eexists w, _. split; [done|]. split; [done|]. split; [by rewrite <- Hm|].
  apply (hint_file_reads items max); [done..|lia].
Qed.

(** ** Looking up through the index *)

(** What the loop of [get] computes on a list of items; [None] when it runs past
    the last one. *)
Fixpoint list_scan (items : list HintItem) (keyhash : Z) (key : bytes) : option (option HintItem) :=
  match items with
  | [] => None
  | it :: items =>
      let kh := Keyhash (hi_meta it) in
      if kh <? keyhash then list_scan items keyhash key
      else if keyhash <? kh then Some None
      else if bytes_eqb (hi_Key it) key then Some (Some it)
      else list_scan items keyhash key
  end.

Lemma index_scan_list fuel pre items post m off kh key res :
  Forall hint_ok items → off + hint_sizes items <= indexOffset m → (length items < fuel)%nat →
  list_scan items kh key = Some res →
  index_scan fuel (mkHintReader m (pre ++ hints_bytes items ++ post) (length pre) off) kh key
  = Some (inl res).
Proof.
  intros Hok. revert fuel pre off. induction Hok as [|it items Hit Hits IH]; intros fuel pre off Hoff Hfu Hsc; [done|].
  destruct fuel as [|fuel]; [lia|]. cbn [length] in Hfu. rewrite hint_sizes_cons in Hoff.
  pose proof (hint_sizes_nonneg items). pose proof (hint_size_pos it).
  change (hints_bytes (it :: items)) with (hint_item_bytes it ++ hints_bytes items).
  cbn [index_scan list_scan] in *. rewrite <- app_assoc, hr_next_item by (done || lia).
  specialize (IH fuel (pre ++ hint_item_bytes it) (off + hint_size it) ltac:(lia) ltac:(lia)).
  rewrite <- app_assoc, length_app in IH. pose proof (zlen_hint_item it) as Hz. unfold zlen in Hz.
  replace (length (hint_item_bytes it)) with (Z.to_nat (hint_size it)) in IH by lia.
  destruct (Keyhash (hi_meta it) <? kh); [by apply IH|].
  destruct (kh <? Keyhash (hi_meta it)); [by simplify_eq|].
  destruct (bytes_eqb (hi_Key it) key); [by simplify_eq|by apply IH].
Qed.

(** The order of [byKeyHash]. *)
Definition hint_lt (a b : HintItem) : Prop :=
  Keyhash (hi_meta a) < Keyhash (hi_meta b)
  ∨ (Keyhash (hi_meta a) = Keyhash (hi_meta b) ∧ bytes_ltb (hi_Key a) (hi_Key b) = true).

Lemma list_scan_found items it :
  StronglySorted hint_lt items → it ∈ items →
  list_scan items (Keyhash (hi_meta it)) (hi_Key it) = Some (Some it).
Proof.
  induction 1 as [|x items Hs IH Hx]; [by intros ?%not_elem_of_nil|].
  intros [->|Hin]%elem_of_cons; cbn [list_scan].
  - rewrite Z.ltb_irrefl. assert (bytes_eqb (hi_Key x) (hi_Key x) = true) as -> by (by apply bytes_eqb_true). done.
  - rewrite Forall_forall in Hx. destruct (Hx it Hin) as [Hlt|[Heq Hk]].
    + destruct (Z.ltb_spec (Keyhash (hi_meta x)) (Keyhash (hi_meta it))); [by apply IH|lia].
    + rewrite Heq, Z.ltb_irrefl. destruct (bytes_eqb (hi_Key x) (hi_Key it)) eqn:He; [|by apply IH].
      apply bytes_eqb_true in He. rewrite He, bytes_ltb_irrefl in Hk. done.
Qed.

Lemma hplaced_elem off items e :
  e ∈ hplaced off items → ∃ s it, items !! s = Some it
    ∧ ii_keyhash e = Keyhash (hi_meta it) ∧ ii_offset e = off + hint_sizes (take s items).
Proof.
  revert off. induction items as [|x items IH]; intros off; cbn [hplaced]; [by intros ?%not_elem_of_nil|].
  intros [->|Hin]%elem_of_cons.
  - exists 0%nat, x. cbn. unfold hint_sizes. cbn. split; [done|]. split; [done|lia].
  - destruct (IH _ Hin) as (s & it & Hs & Hk & Ho). exists (S s), it. split; [done|]. split; [done|].
    cbn [take]. rewrite hint_sizes_cons. lia.
Qed.

Lemma hplaced_sorted off items :
  StronglySorted hint_lt items → StronglySorted (λ a b, ii_keyhash a <= ii_keyhash b) (hplaced off items).
Proof.
  intros Hs. revert off. induction Hs as [|x items Hs IH Hx]; intros off; cbn [hplaced]; [constructor|].
  constructor; [apply IH|]. apply Forall_forall. intros e He. cbn.
  destruct (hplaced_elem _ _ _ He) as (s & it & Hl & -> & _).
  rewrite Forall_lookup in Hx. destruct (Hx _ _ Hl); lia.
Qed.

Lemma StronglySorted_sublist {A} (R : A → A → Prop) l k :
  l `sublist_of` k → StronglySorted R k → StronglySorted R l.
Proof.
  induction 1 as [|x l k Hs IH|x l k Hs IH]; intros Hk; [constructor| |].
  - apply StronglySorted_inv in Hk as [Hk Hf]. constructor; [by apply IH|].
    rewrite !Forall_forall in *. intros y Hy. apply Hf. by eapply elem_of_sublist.
  - apply StronglySorted_inv in Hk as [Hk _]. by apply IH.
Qed.

Lemma sorted_nth arr a b :
  StronglySorted (λ a b, ii_keyhash a <= ii_keyhash b) arr → (a <= b < length arr)%nat →
  ii_keyhash (nth a arr (mkIndexItem 0 0)) <= ii_keyhash (nth b arr (mkIndexItem 0 0)).
Proof.
  intros Hs. revert a b. induction Hs as [|x arr Hs IH Hx]; intros a b Hab; cbn [length] in Hab; [lia|].
  destruct b as [|b]; [replace a with 0%nat by lia; lia|]. destruct a as [|a]; cbn [nth].
  - rewrite Forall_forall in Hx. apply Hx. apply list_elem_of_In, nth_In. lia.
  - apply IH. lia.
Qed.

(** Where [get] starts to read: at an item no later than any item of the key
    hash looked up. *)
Lemma index_start items arr kh :
  StronglySorted hint_lt items → arr `sublist_of` hplaced 16 items →
  let j := Search (length arr) (λ i, kh <=? ii_keyhash (nth i arr (mkIndexItem 0 0))) in
  let offset := if (1 <? j)%nat then ii_offset (nth (j - 1) arr (mkIndexItem 0 0)) else HINTFILE_HEAD_SIZE in
  ∃ s, (s <= length items)%nat ∧ offset = 16 + hint_sizes (take s items)
    ∧ (∀ it, it ∈ items → kh <= Keyhash (hi_meta it) → it ∈ drop s items)
    ∧ ((length arr <= 1)%nat → s = 0%nat).
Proof.
  intros Hs Hsub. cbn zeta. pose proof (StronglySorted_sublist _ _ _ Hsub (hplaced_sorted 16 items Hs)) as Harr.
  set (f := λ i, kh <=? ii_keyhash (nth i arr (mkIndexItem 0 0))).
  destruct (search_loop_spec (length arr) f 0 (length arr) (length arr)) as (Hj & Hlo & _);
    [lia|lia|lia|lia| |].
  { intros a b Hab. unfold f. pose proof (sorted_nth arr a b Harr Hab). lia. }
  fold (Search (length arr) f) in Hj, Hlo. set (j := Search (length arr) f) in *.
  destruct (Nat.ltb_spec 1 j) as [Hgt|Hle].
  - specialize (Hlo (j - 1)%nat ltac:(lia)). unfold f in Hlo. apply Z.leb_gt in Hlo.
    destruct (hplaced_elem 16 items (nth (j - 1) arr (mkIndexItem 0 0))) as (s & x & Hx & Hk & Ho).
    { eapply elem_of_sublist; [|exact Hsub]. apply list_elem_of_In, nth_In. lia. }
    exists s. pose proof (lookup_lt_Some _ _ _ Hx). split; [lia|]. split; [done|]. split; [|lia].
    intros it Hin Hkh. rewrite <- (take_drop s items) in Hin. apply elem_of_app in Hin as [Hin|Hin]; [|done].
    exfalso. assert (hint_lt it x) as Hlt.
    { rewrite <- (take_drop_middle items s x Hx) in Hs.
      eapply StronglySorted_app_1_elem_of; [exact Hs|done|by left]. }
    destruct Hlt as [?|[? _]]; lia.
  - exists 0%nat. split; [lia|]. split; [done|]. split; [|done]. intros it Hin _. by rewrite drop_0.
Qed.

(** The scan of [get], from some item on, over the rest of the file. *)
Lemma index_get_scan items max w kh key :
  hints_fit items max → StronglySorted hint_lt items →
  writeItems (newHintFileWriter max) items = Some w →
  ∃ s pre post, (∀ it, it ∈ items → kh <= Keyhash (hi_meta it) → it ∈ drop s items)
    ∧ ((length (toIndex (hw_index w)) <= 1)%nat → s = 0%nat)
    ∧ index_get (mkHintIndex (toIndex (hw_index w)) (hw_close w) (hw_meta w)) kh key
      = index_scan (S (length (pre ++ hints_bytes (drop s items) ++ post)))
          (mkHintReader (hw_meta w) (pre ++ hints_bytes (drop s items) ++ post) (length pre) 16) kh key
    ∧ indexOffset (hw_meta w) = 16 + hint_sizes (take s items) + hint_sizes (drop s items).
Proof.
  intros Hf Hs Hw. destruct (hint_file_layout items max Hf) as (w' & Hw' & Hm & Hc & Hsub & Ho).
  rewrite Hw in Hw'. injection Hw' as <-.
  unfold index_get. cbn [hx_index hx_file]. rewrite Ho. cbn [hr_meta hr_file hr_offset].
  destruct (index_start items (toIndex (hw_index w)) kh Hs Hsub) as (s & Hsl & -> & Hafter & Hs0).
  destruct (hints_fit_sizes items max Hf) as [Hsz Hn]. pose proof (hint_sizes_nonneg items).
  destruct (meta_round_trip (hw_meta w)) as [Hl _];
    [rewrite Hm; cbn; lia|rewrite Hm; cbn; pose proof (zlen_nonneg items); width|rewrite Hm; apply (hf_max _ _ Hf)|].
  pose proof (hint_sizes_app (take s items) (drop s items)) as Hsplit. rewrite take_drop in Hsplit.
  pose proof (hint_sizes_nonneg (take s items)).
  assert (hints_bytes items = hints_bytes (take s items) ++ hints_bytes (drop s items)) as Hb.
  { unfold hints_bytes. by rewrite <- bind_app, take_drop. }
  exists s, (meta_Dumps (hw_meta w) ++ hints_bytes (take s items)), (toIndex (hw_index w) ≫= index_bytes).
  split; [done|]. split; [done|]. split; [|rewrite Hm; cbn; lia].
  rewrite Hc, Hb, <- !app_assoc. f_equal. f_equal.
  rewrite length_app, Hl. pose proof (zlen_hints_bytes (take s items)) as Hz. unfold zlen in Hz. lia.
Qed.

Lemma length_hints_le l : Z.of_nat (length l) <= hint_sizes l.
Proof.
  induction l as [|x l IH]; [done|]. rewrite hint_sizes_cons. cbn [length]. pose proof (hint_size_pos x). lia.
Qed.

Lemma index_get_some items max w kh key res :
  hints_fit items max → StronglySorted hint_lt items →
  writeItems (newHintFileWriter max) items = Some w →
  (∀ s, (∀ it, it ∈ items → kh <= Keyhash (hi_meta it) → it ∈ drop s items) →
     StronglySorted hint_lt (drop s items) → list_scan (drop s items) kh key = Some res) →
  index_get (mkHintIndex (toIndex (hw_index w)) (hw_close w) (hw_meta w)) kh key = Some (inl res).
Proof.
  intros Hf Hs Hw Hscan.
  destruct (index_get_scan items max w kh key Hf Hs Hw) as (s & pre & post & Hafter & _ & -> & Hm).
  pose proof (hint_sizes_nonneg (take s items)).
  apply index_scan_list; [apply Forall_drop, (hf_ok _ _ Hf)|lia| |].
  - rewrite !length_app. pose proof (zlen_hints_bytes (drop s items)) as Hz. unfold zlen in Hz.
    pose proof (length_hints_le (drop s items)). lia.
  - apply Hscan; [done|]. rewrite <- (take_drop s items) in Hs. by eapply StronglySorted_app_1_r.
Qed.

Lemma index_get_found items max w it :
  hints_fit items max → StronglySorted hint_lt items →
  writeItems (newHintFileWriter max) items = Some w → it ∈ items →
  index_get (mkHintIndex (toIndex (hw_index w)) (hw_close w) (hw_meta w))
    (Keyhash (hi_meta it)) (hi_Key it) = Some (inl (Some it)).
Proof.
  intros Hf Hs Hw Hin. eapply index_get_some; [done..|]. intros s Hafter Hsd.
  apply list_scan_found; [done|]. apply Hafter; [done|lia].
Qed.

(** C29. A lookup through the sparse index of a hint file finds every item of the
    file: for a file written from items sorted by key hash and key, [get] on the
    key hash and key of any of them returns it. *)
Theorem hint_index_finds items max w it :
  hints_fit items max → StronglySorted hint_lt items →
  writeItems (newHintFileWriter max) items = Some w → it ∈ items →
  index_get (mkHintIndex (toIndex (hw_index w)) (hw_close w) (hw_meta w))
    (Keyhash (hi_meta it)) (hi_Key it) = Some (inl (Some it)).
Proof. apply index_get_found. Qed.

(** The items of a file. *)
Definition file_items (f : bytes) : list HintItem :=
  match hr_open f with
  | inl r => match readItems (S (length f)) r with Some (inl l) => l | _ => [] end
  | inr _ => []
  end.

Lemma file_items_written items max w :
  hints_fit items max → writeItems (newHintFileWriter max) items = Some w → file_items (hw_close w) = items.
Proof.
  intros Hf Hw. destruct (hint_file_layout items max Hf) as (w' & Hw' & Hm & Hc & _ & Ho).
  rewrite Hw in Hw'. injection Hw' as <-. unfold file_items. rewrite Ho.
  rewrite (hint_file_reads items max w) by (try done; rewrite Hc, !length_app;
    pose proof (zlen_hints_bytes items) as Hz; unfold zlen in Hz; pose proof (length_hints_le items); lia).
  done.
Qed.

(** A lookup of an absent key stays within the items when an item has a larger
    key hash, or when the file is small enough for the scan to start at its first
    item. *)
Definition file_safe (idx : hintFileIndex) (kh : Z) : bool :=
  (length (hx_index idx) <=? 1)%nat || existsb (λ it, kh <? Keyhash (hi_meta it)) (file_items (hx_file idx)).
Definition miss_safe (items : list HintItem) (arr : list hintIndexItem) (kh : Z) : Prop :=
  (∃ it, it ∈ items ∧ kh < Keyhash (hi_meta it)) ∨ (length arr <= 1)%nat.

Lemma list_scan_larger items kh key :
  (∀ it, it ∈ items → Keyhash (hi_meta it) = kh → hi_Key it ≠ key) →
  (∃ it, it ∈ items ∧ kh < Keyhash (hi_meta it)) → list_scan items kh key = Some None.
Proof.
  induction items as [|x items IH]; intros Hno (it & Hin & Hlt); [by apply not_elem_of_nil in Hin|].
  cbn [list_scan].
  assert (Keyhash (hi_meta x) <= kh → list_scan items kh key = Some None) as Hrec.
  { intros Hx. apply IH; [intros i Hi; apply Hno; by right|]. exists it.
    apply elem_of_cons in Hin as [->|Hin]; [lia|]. by split. }
  destruct (Z.ltb_spec (Keyhash (hi_meta x)) kh); [apply Hrec; lia|].
  destruct (Z.ltb_spec kh (Keyhash (hi_meta x))); [done|].
  assert (bytes_eqb (hi_Key x) key = false) as ->.
  { apply bytes_eqb_false, Hno; [by left|lia]. }
  apply Hrec. lia.
Qed.

Lemma index_scan_end fuel pre items post m off kh key :
  Forall hint_ok items → off + hint_sizes items = indexOffset m → (length items < fuel)%nat →
  (∀ it, it ∈ items → Keyhash (hi_meta it) = kh → hi_Key it ≠ key) →
  index_scan fuel (mkHintReader m (pre ++ hints_bytes items ++ post) (length pre) off) kh key
  = Some (inl None).
Proof.
  intros Hok. revert fuel pre off. induction Hok as [|it items Hit Hits IH]; intros fuel pre off Hoff Hfu Hno;
    (destruct fuel as [|fuel]; [cbn [length] in Hfu; lia|]).
  - change (hint_sizes []) with 0 in Hoff. cbn [index_scan]. unfold hr_next. cbn [hr_meta hr_offset].
    destruct (Z.leb_spec (indexOffset m) off); [done|lia].
  - cbn [length] in Hfu. rewrite hint_sizes_cons in Hoff.
    pose proof (hint_sizes_nonneg items). pose proof (hint_size_pos it).
    change (hints_bytes (it :: items)) with (hint_item_bytes it ++ hints_bytes items).
    cbn [index_scan]. rewrite <- app_assoc, hr_next_item by (done || lia).
    specialize (IH fuel (pre ++ hint_item_bytes it) (off + hint_size it) ltac:(lia) ltac:(lia)).
    rewrite <- app_assoc, length_app in IH. pose proof (zlen_hint_item it) as Hz. unfold zlen in Hz.
    replace (length (hint_item_bytes it)) with (Z.to_nat (hint_size it)) in IH by lia.
    specialize (IH ltac:(intros i Hi; apply Hno; by right)).
    destruct (Z.ltb_spec (Keyhash (hi_meta it)) kh); [done|].
    destruct (Z.ltb_spec kh (Keyhash (hi_meta it))); [done|].
    assert (bytes_eqb (hi_Key it) key = false) as ->; [|done].
    apply bytes_eqb_false, Hno; [by left|lia].
Qed.

Lemma index_get_miss items max w kh key :
  hints_fit items max → StronglySorted hint_lt items →
  writeItems (newHintFileWriter max) items = Some w →
  (∀ it, it ∈ items → Keyhash (hi_meta it) = kh → hi_Key it ≠ key) →
  miss_safe items (toIndex (hw_index w)) kh →
  index_get (mkHintIndex (toIndex (hw_index w)) (hw_close w) (hw_meta w)) kh key = Some (inl None).
Proof.
  intros Hf Hs Hw Hno [(it & Hin & Hlt)|Hsmall].
  - eapply index_get_some; [done..|]. intros s Hafter Hsd. apply list_scan_larger.
    + intros i Hi. apply Hno. rewrite <- (take_drop s items). apply elem_of_app. by right.
    + exists it. split; [apply Hafter; [done|lia]|done].
  - destruct (index_get_scan items max w kh key Hf Hs Hw) as (s & pre & post & _ & Hs0 & -> & Hm).
    rewrite (Hs0 Hsmall) in Hm |- *. rewrite drop_0, take_0 in *. change (hint_sizes []) with 0 in Hm.
    apply index_scan_end; [apply (hf_ok _ _ Hf)|lia| |done].
    rewrite !length_app. pose proof (zlen_hints_bytes items) as Hz. unfold zlen in Hz.
    pose proof (length_hints_le items). lia.
Qed.

(** ** Loading the index back *)

Definition index_ok (e : hintIndexItem) : Prop := is_u64 (ii_keyhash e) ∧ 0 <= ii_offset e < 2 ^ 63.

Lemma length_index_bytes l : length (l ≫= index_bytes) = (16 * length l)%nat.
Proof.
  induction l as [|e l IH]; [done|]. cbn [mbind list_bind length]. rewrite length_app.
  change (list_bind _ ?f ?x) with (x ≫= f). rewrite IH. unfold index_bytes.
  rewrite length_app, !length_le_put. lia.
Qed.

Lemma parse_index_bytes l :
  Forall index_ok l → parse_index (length l) (l ≫= index_bytes) = l.
Proof.
  induction 1 as [|e l [Hk Ho] Hl IH]; [done|]. cbn [length parse_index mbind list_bind].
  change (list_bind _ ?f ?x) with (x ≫= f). 
  change (index_bytes e) with (le_put 8 (ii_keyhash e) ++ le_put 8 (u64 (ii_offset e))).
  rewrite <- !app_assoc.
  assert (∀ n (a b : bytes), length a = n → drop n (a ++ b) = b) as Hd
    by (intros n a b <-; apply drop_app_length).
  change 16%nat with (8 + 8)%nat. rewrite <- drop_drop. rewrite !Hd by apply length_le_put.
  rewrite !le_word_put, u64_small by width. rewrite !Z.mod_small by (simpl; width).
  rewrite IH. destruct e. cbn in *. f_equal. f_equal. width.
Qed.

Lemma hplaced_ok items max :
  hints_fit items max → Forall index_ok (hplaced 16 items).
Proof.
  intros Hf. destruct (hints_fit_sizes _ _ Hf) as [Hs _]. apply Forall_forall. intros e He.
  destruct (hplaced_elem _ _ _ He) as (s & it & Hl & Hk & Ho).
  pose proof (hint_sizes_nonneg (take s items)). pose proof (hint_sizes_nonneg (drop s items)).
  pose proof (hint_sizes_app (take s items) (drop s items)) as Hsp. rewrite take_drop in Hsp.
  split; [|lia]. rewrite Hk. pose proof (hf_ok _ _ Hf) as Hok. rewrite Forall_lookup in Hok. by apply (Hok _ _ Hl).
Qed.

Lemma hint_index_load items max w :
  hints_fit items max → writeItems (newHintFileWriter max) items = Some w →
  loadHintIndex (hw_close w)
  = Some (inl (mkHintIndex (toIndex (hw_index w)) (hw_close w) (hw_meta w))).
Proof.
  intros Hf Hw. destruct (hint_file_layout items max Hf) as (w' & Hw' & Hm & Hc & Hsub & _).
  rewrite Hw in Hw'. injection Hw' as <-.
  destruct (hints_fit_sizes items max Hf) as [Hsz Hn]. pose proof (hint_sizes_nonneg items).
  destruct (meta_round_trip (hw_meta w)) as [Hl Hld];
    [rewrite Hm; cbn; lia|rewrite Hm; cbn; pose proof (zlen_nonneg items); width|rewrite Hm; apply (hf_max _ _ Hf)|].
  set (ix := toIndex (hw_index w)) in *.
  pose proof (zlen_hints_bytes items) as Hz. unfold zlen in Hz.
  assert (Z.of_nat (length (hw_close w)) = 16 + hint_sizes items + 16 * Z.of_nat (length ix)) as Hlen.
  { rewrite Hc, !length_app, length_index_bytes, Hl. lia. }
  unfold loadHintIndex. destruct (Nat.ltb_spec (length (hw_close w)) 16); [lia|].
  assert (take 16 (hw_close w) = meta_Dumps (hw_meta w)) as -> by (rewrite Hc; by apply take_app_length').
  rewrite Hld. rewrite Hm. cbn [indexOffset]. destruct (Z.ltb_spec (16 + hint_sizes items) 0); [lia|].
  unfold zlen at 1 2 3. rewrite Hlen.
  replace (16 + hint_sizes items + 16 * Z.of_nat (length ix) - (16 + hint_sizes items))
    with (Z.of_nat (length ix) * 16) by lia.
  destruct (Z.ltb_spec (Z.of_nat (length ix) * 16) 0); [lia|]. rewrite Z.mod_mul, Z.div_mul by lia.
  cbn [Z.eqb negb]. rewrite Nat2Z.id. do 3 f_equal.
  assert (drop (Z.to_nat (16 + hint_sizes items)) (hw_close w) = ix ≫= index_bytes) as ->.
  { rewrite Hc, app_assoc. apply drop_app_length'. rewrite length_app, Hl. lia. }
  apply parse_index_bytes. apply Forall_forall. intros e He.
  pose proof (hplaced_ok items max Hf) as Hok. rewrite Forall_forall in Hok. apply Hok.
  by eapply elem_of_sublist.
Qed.

(** Loading the index of a hint file from disk gives the index the writer
    kept in memory when it dumped the file, with the same header. *)
Theorem hint_index_reload items max w :
  hints_fit items max → writeItems (newHintFileWriter max) items = Some w →
  loadHintIndex (hw_close w)
  = Some (inl (mkHintIndex (toIndex (hw_index w)) (hw_close w) (hw_meta w))).
Proof. apply hint_index_load. Qed.

End Hint.

(** ** Concrete hint files *)

Definition demo_hint (kh : Z) (key : bytes) (off ver : Z) : HintItem :=
  newHintItem kh ver 5 (mkPos 0 off) key.
Definition demo_hints : list HintItem :=
  [demo_hint 1 (bstr "a") 0 1; demo_hint 2 (bstr "b") 256 (-2); demo_hint 2 (bstr "c") 512 3;
   demo_hint 9 (bstr "d") 768 1].

(** The default configuration with an index entry for every item. *)
Definition dense_conf : HStoreConfig := {|
  NumBucket := NumBucket demo_conf; BucketsStat := BucketsStat demo_conf; FlushWake := FlushWake demo_conf;
  DataFileMax := DataFileMax demo_conf; CheckVHash := CheckVHash demo_conf;
  FlushInterval := FlushInterval demo_conf;
  NoGCDays := NoGCDays demo_conf; NotCompress := NotCompress demo_conf; NoMerged := NoMerged demo_conf;
  MergeInterval := MergeInterval demo_conf; IndexIntervalSize := 280;
  SplitCap := SplitCap demo_conf; TreeHeight := TreeHeight demo_conf; TreeDump := TreeDump demo_conf;
  TreeDepth := TreeDepth demo_conf; TreeKeyHashMask := TreeKeyHashMask demo_conf;
  TreeKeyHashLen := TreeKeyHashLen demo_conf |}.

Definition hint_okb (it : HintItem) : bool :=
  let m := hi_meta it in
  (0 <=? Keyhash m) && (Keyhash m <? 2 ^ 64) && (0 <=? ChunkID (Pos m)) && (ChunkID (Pos m) <? 2 ^ 32)
  && (0 <=? Offset (Pos m)) && (Offset (Pos m) <? 2 ^ 32) && (- 2 ^ 31 <=? it_Ver m) && (it_Ver m <? 2 ^ 31)
  && (0 <=? Vhash m) && (Vhash m <? 2 ^ 16) && (zlen (hi_Key it) <? 256).
Lemma hint_okb_ok it : hint_okb it = true → hint_ok it.
Proof.
  unfold hint_okb. intros Hb. repeat (apply andb_true_iff in Hb as [Hb ?]).
  split; unfold is_u64, is_u32, is_i32, is_u16; lia.
Qed.

Lemma demo_hints_fit : hints_fit demo_hints 1024.
Proof.
  split; [|by vm_compute..]. repeat (apply Forall_cons; split; [apply hint_okb_ok; by vm_compute|]). done.
Qed.

Definition demo_hint_writer : hintFileWriter :=
  match writeItems dense_conf (newHintFileWriter 1024) demo_hints with
  | Some w => w | None => newHintFileWriter 0 end.

Lemma hint_file_round_trip_witness :
  ∃ w r, writeItems dense_conf (newHintFileWriter 1024) demo_hints = Some w ∧ hr_open (hw_close w) = inl r
    ∧ readItems 5 r = Some (inl demo_hints).
Proof.
  destruct (hint_file_round_trip dense_conf demo_hints 1024 demo_hints_fit) as (w & r & Hw & Hr & _ & Hrd).
  exists w, r. split; [exact Hw|]. split; [exact Hr|exact Hrd].
Defined.

Lemma demo_hints_sorted : StronglySorted hint_lt demo_hints.
Proof.
  repeat (constructor; [|repeat (apply Forall_cons; split; [first [by left | by right]|]); by constructor]).
  constructor.
Qed.

Lemma hint_index_finds_witness :
  index_get (mkHintIndex (toIndex (hw_index demo_hint_writer)) (hw_close demo_hint_writer)
      (hw_meta demo_hint_writer)) 2 (bstr "c") = Some (inl (Some (demo_hint 2 (bstr "c") 512 3))).
Proof.
  apply (hint_index_finds dense_conf demo_hints 1024 demo_hint_writer (demo_hint 2 (bstr "c") 512 3)).
  - apply demo_hints_fit.
  - apply demo_hints_sorted.
  - by vm_compute.
  - by right; right; left.
Defined.

Lemma hint_index_reload_witness :
  loadHintIndex (hw_close demo_hint_writer)
  = Some (inl (mkHintIndex (toIndex (hw_index demo_hint_writer)) (hw_close demo_hint_writer)
                 (hw_meta demo_hint_writer))).
Proof.
  apply (hint_index_reload dense_conf demo_hints 1024); [apply demo_hints_fit|by vm_compute].
Defined.

(** A key hash above every item of a file is looked up past the end of the
    items: the reader's offset is not moved by the seek, the index area is read
    as items, and the lookup of an absent key ends in an error instead of a
    miss. *)
Theorem hint_index_miss_reads_past_items :
  (∀ it, it ∈ demo_hints → Keyhash (hi_meta it) < 2 ^ 63)
  ∧ index_get (mkHintIndex (toIndex (hw_index demo_hint_writer)) (hw_close demo_hint_writer)
      (hw_meta demo_hint_writer)) (2 ^ 63) (bstr "z") = Some (inr ErrHint).
Proof.
  split; [|by vm_compute].
  intros it Hin. unfold demo_hints in Hin. repeat (apply elem_of_cons in Hin as [->|Hin]; [by vm_compute|]).
  by apply not_elem_of_nil in Hin.
Qed.
