(* ===== verification/Hint.v ===== *)
(** * Hint buffers, splits and chunks (src/store/hint.go, src/store/collision.go)

    A chunk's hints are kept in splits: a buffer in memory while it fills, an
    index over a hint file once it is dumped. The manager keeps the splits of the
    chunks, the merged file and the collision table. *)

From stdpp Require Import gmap sorting.
From S2P Require Import Prelude Config Cmem Key Item Fixtures DataFile Data DataSpec HintFile.

(** ** The buffer of a split *)

(** [items] is preallocated with [hb_cap] slots, of which the first [num] are
    filled: [hb_items] are these. *)
Record HintBuffer := mkHintBuffer {
  hb_maxoffset : Z;
  hb_index : gmap Z nat;
  hb_collisions : gmap Z (gmap bytes nat);
  hb_items : list HintItem;
  hb_cap : Z
}.

Definition NewHintBuffer : HintBuffer := mkHintBuffer 0 ∅ ∅ [] 0.
Definition SetMaxOffset (h : HintBuffer) (offset : Z) : HintBuffer :=
  mkHintBuffer offset (hb_index h) (hb_collisions h) (hb_items h) (hb_cap h).

Section Hint.
Context (Conf : HStoreConfig).

(** The part of [Set] after the slot is looked up. *)
Definition hb_place (h : HintBuffer) (it : HintItem) (recSize : Z) (slot : option nat) (iscollision : bool)
    : bool * HintBuffer :=
  let kh := Keyhash (hi_meta it) in
  let off := Offset (Pos (hi_meta it)) in
  let num := length (hb_items h) in
  match slot with
  | None =>
      if hb_cap h <=? Z.of_nat num then
        (false, if hb_maxoffset h <? off then SetMaxOffset h off else h)
      else
        let coll := if iscollision
          then <[kh := <[hi_Key it := num]> (default ∅ (hb_collisions h !! kh))]> (hb_collisions h)
          else hb_collisions h in
        let end_ := u32 (off + recSize) in
        (true, mkHintBuffer (if hb_maxoffset h <? end_ then end_ else hb_maxoffset h)
                 (<[kh := num]> (hb_index h)) coll (hb_items h ++ [it]) (hb_cap h))
  | Some idx =>
      let coll := if iscollision
        then <[kh := <[hi_Key it := idx]> (default ∅ (hb_collisions h !! kh))]> (hb_collisions h)
        else hb_collisions h in
      let end_ := u32 (off + recSize) in
      (true, mkHintBuffer (if hb_maxoffset h <? end_ then end_ else hb_maxoffset h)
               (<[kh := idx]> (hb_index h)) coll (<[idx := it]> (hb_items h)) (hb_cap h))
  end.

(** [HintBuffer.Set]; [None] is a panic on a slot that is not filled. *)
Definition hb_Set (h : HintBuffer) (it : HintItem) (recSize : Z) : option (bool * HintBuffer) :=
  let kh := Keyhash (hi_meta it) in
  let h := if decide (hb_index h = ∅)
    then mkHintBuffer (hb_maxoffset h) (hb_index h) (hb_collisions h) (hb_items h) (SplitCap Conf) else h in
  match hb_index h !! kh with
  | None => Some (hb_place h it recSize None false)
  | Some idx =>
      old ← hb_items h !! idx;
      if bytes_eqb (hi_Key it) (hi_Key old) then Some (hb_place h it recSize (Some idx) false)
      else
        match hb_collisions h !! kh with
        | Some keys => Some (hb_place h it recSize (keys !! hi_Key it) true)
        | None =>
            let h := mkHintBuffer (hb_maxoffset h) (hb_index h)
              (<[kh := {[hi_Key old := idx]}]> (hb_collisions h)) (hb_items h) (hb_cap h) in
            Some (hb_place h it recSize None true)
        end
  end.

(** [HintBuffer.Get]: the item and [iscollision]. *)
Definition hb_Get (h : HintBuffer) (keyhash : Z) (key : bytes) : option (option HintItem * bool) :=
  match hb_index h !! keyhash with
  | None => Some (None, false)
  | Some idx =>
      old ← hb_items h !! idx;
      if bytes_eqb key (hi_Key old) then Some (Some old, false)
      else
        match hb_collisions h !! keyhash ≫= (.!! key) with
        | None => Some (None, true)
        | Some idx => it ← hb_items h !! idx; Some (Some it, true)
        end
  end.

(** [byKeyHash.Less]. *)
Definition hint_less (a b : HintItem) : bool :=
  let ka := Keyhash (hi_meta a) in let kb := Keyhash (hi_meta b) in
  if ka <? kb then true else if kb <? ka then false else bytes_ltb (hi_Key a) (hi_Key b).
Definition hint_le (a b : HintItem) : Prop := hint_less b a = false.
#[global] Instance hint_le_dec : RelDecision hint_le.
Proof. intros a b. unfold hint_le. apply _. Defined.

(** [HintBuffer.Dump]: the items in the order of [sort.Sort], written to the
    file of [path]; [None] is the panic of a full index. *)
Definition hb_Dump (h : HintBuffer) : option hintFileIndex :=
  w ← writeItems Conf (newHintFileWriter (hb_maxoffset h)) (merge_sort hint_le (hb_items h));
  Some (mkHintIndex (toIndex (hw_index w)) (hw_close w)
          (mkHintMeta (zlen (hb_items h)) 0 (hb_maxoffset h))).

(** ** Splits and chunks *)

Record hintSplit := mkSplit { sp_buf : option HintBuffer; sp_file : option hintFileIndex }.
Definition newhintSplit : hintSplit := mkSplit (Some NewHintBuffer) None.

(** [needDump]: [None] is the panic on a split with neither file nor buffer. *)
Definition needDump (h : hintSplit) : option bool :=
  match sp_file h with
  | Some _ => Some false
  | None => b ← sp_buf h; Some (0 <? zlen (hb_items b))
  end.

Record hintChunk := mkHintChunk { hc_id : Z; hc_splits : list hintSplit; hc_lastTS : Z }.

Definition rotate (c : hintChunk) : hintChunk :=
  mkHintChunk (hc_id c) (hc_splits c ++ [newhintSplit]) (hc_lastTS c).
Definition newHintChunk (id : Z) : hintChunk := rotate (mkHintChunk id [] 0).

(** [hintChunk.setItem] at time [now]; [rotated] and the chunk. *)
Definition hc_setItem (c : hintChunk) (it : HintItem) (recSize now : Z) : option (bool * hintChunk) :=
  sp ← last (hc_splits c);
  buf ← sp_buf sp;
  match hb_Set buf it recSize with
  | None => None
  | Some (ok, buf') =>
      let front := take (length (hc_splits c) - 1) (hc_splits c) in
      let splits := front ++ [mkSplit (Some buf') (sp_file sp)] in
      if ok then Some (false, mkHintChunk (hc_id c) splits now)
      else
        res ← hb_Set NewHintBuffer it recSize;
        Some (true, mkHintChunk (hc_id c) (splits ++ [mkSplit (Some (snd res)) None]) now)
  end.

(** [getMemOnly]: the loop from the last split down, on the reversed splits; the
    item and the split it stopped at (-1 when it ran through). *)
Fixpoint mem_loop (rsplits : list hintSplit) (keyhash : Z) (key : bytes) : option (option HintItem * Z) :=
  match rsplits with
  | [] => Some (None, -1)
  | sp :: rest =>
      match sp_buf sp with
      | None => Some (None, zlen rest)
      | Some buf =>
          res ← hb_Get buf keyhash key;
          match fst res with
          | Some it => Some (Some it, zlen rest)
          | None => mem_loop rest keyhash key
          end
      end
  end.
Definition getMemOnly (c : hintChunk) (keyhash : Z) (key : bytes) : option (option HintItem * Z) :=
  mem_loop (rev (hc_splits c)) keyhash key.

(** The loop of [get] over the files, from the split [getMemOnly] stopped at
    down. *)
Fixpoint file_loop (rsplits : list hintSplit) (keyhash : Z) (key : bytes) : option (option HintItem + StoreErr) :=
  match rsplits with
  | [] => Some (inl None)
  | sp :: rest =>
      match sp_file sp with
      | None => file_loop rest keyhash key
      | Some file =>
          res ← index_get file keyhash key;
          match res with
          | inl None => file_loop rest keyhash key
          | res => Some res
          end
      end
  end.

Definition hc_get (c : hintChunk) (keyhash : Z) (key : bytes) (memOnly : bool)
    : option (option HintItem + StoreErr) :=
  res ← getMemOnly c keyhash key;
  match res with
  | (Some it, _) => Some (inl (Some it))
  | (None, split) =>
      if memOnly then Some (inl None)
      else file_loop (rev (take (Z.to_nat (split + 1)) (hc_splits c))) keyhash key
  end.

Definition SecsBeforeDump : Z := 5.
Definition silenceTime (c : hintChunk) (now : Z) : Z := hc_lastTS c + SecsBeforeDump - now.

(** [hintChunk.getItemCollision]: the item, its chunk, [collision] and [stop]. *)
Fixpoint collision_loop (id : Z) (rsplits : list hintSplit) (keyhash : Z) (key : bytes) (coll : bool)
    : option (option HintItem * Z * bool * bool) :=
  match rsplits with
  | [] => Some (None, 0, coll, false)
  | sp :: rest =>
      match sp_buf sp with
      | None => Some (None, 0, coll, true)
      | Some buf =>
          res ← hb_Get buf keyhash key;
          match res with
          | (Some it, coll) => Some (Some it, id, coll, false)
          | (None, coll) => collision_loop id rest keyhash key coll
          end
      end
  end.
Definition hc_getItemCollision (c : hintChunk) (keyhash : Z) (key : bytes) :=
  collision_loop (hc_id c) (rev (hc_splits c)) keyhash key false.

(** ** The collision table (src/store/collision.go) *)

Record HintID := mkHintID { id_Chunk : Z; id_Split : Z }.
#[global] Instance HintID_eq_dec : EqDecision HintID.
Proof. solve_decision. Defined.

Definition isLarger (id : HintID) (ck sp : Z) : bool :=
  (id_Chunk id <? ck) || ((ck =? id_Chunk id) && (id_Split id <=? sp)).
Definition setIfLarger (id : HintID) (ck sp : Z) : HintID :=
  if isLarger id ck sp then mkHintID ck sp else id.

Record CollisionTable := mkCollisionTable {
  ct_HintID : HintID;
  ct_Items : gmap Z (gmap bytes HintItem)
}.
Definition newCollisionTable : CollisionTable := mkCollisionTable (mkHintID 0 0) ∅.

(** [CollisionTable.get]: the item, if the key is there, and whether the key hash
    is. *)
Definition ct_get (t : CollisionTable) (keyhash : Z) (key : bytes) : option HintItem * bool :=
  match ct_Items t !! keyhash with
  | Some items => (items !! key, true)
  | None => (None, false)
  end.

(** [compareAndSet]; [gc] is [reason == "gc"]. *)
Definition compareAndSet (t : CollisionTable) (it : HintItem) (gc : bool) : CollisionTable :=
  let kh := Keyhash (hi_meta it) in
  match ct_Items t !! kh with
  | Some items =>
      let put := match items !! hi_Key it with
        | None => true
        | Some old => gc || (CmpKey (Pos (hi_meta old)) <=? CmpKey (Pos (hi_meta it)))
        end in
      if put then mkCollisionTable (ct_HintID t) (<[kh := <[hi_Key it := it]> items]> (ct_Items t)) else t
  | None => mkCollisionTable (ct_HintID t) (<[kh := {[hi_Key it := it]}]> (ct_Items t))
  end.

(** ** The manager *)

(** [hm_disk] holds the hint files of the bucket by chunk and split, [hm_mdisk]
    the merged ones; [hm_mergeChan] is whether there is a merge channel. *)
Record hintMgr := mkHintMgr {
  hm_maxChunkID : Z;
  hm_chunks : list hintChunk;
  hm_maxDumpedHintID : HintID;
  hm_maxDumpableChunkID : Z;
  hm_merged : option hintFileIndex;
  hm_state : Z;
  hm_collisions : CollisionTable;
  hm_mergeChan : bool;
  hm_disk : gmap (Z * Z) bytes;
  hm_mdisk : gmap (Z * Z) bytes
}.

Definition hm_with (h : hintMgr) (chunks : list hintChunk) (dumped : HintID) (disk : gmap (Z * Z) bytes) : hintMgr :=
  mkHintMgr (hm_maxChunkID h) chunks dumped (hm_maxDumpableChunkID h) (hm_merged h) (hm_state h)
    (hm_collisions h) (hm_mergeChan h) disk (hm_mdisk h).
Definition hm_with_chunks (h : hintMgr) (chunks : list hintChunk) : hintMgr :=
  hm_with h chunks (hm_maxDumpedHintID h) (hm_disk h).
Definition hm_with_max (h : hintMgr) (max : Z) : hintMgr :=
  mkHintMgr max (hm_chunks h) (hm_maxDumpedHintID h) (hm_maxDumpableChunkID h) (hm_merged h) (hm_state h)
    (hm_collisions h) (hm_mergeChan h) (hm_disk h) (hm_mdisk h).
Definition hm_with_collisions (h : hintMgr) (t : CollisionTable) : hintMgr :=
  mkHintMgr (hm_maxChunkID h) (hm_chunks h) (hm_maxDumpedHintID h) (hm_maxDumpableChunkID h) (hm_merged h)
    (hm_state h) t (hm_mergeChan h) (hm_disk h) (hm_mdisk h).

(** [newHintMgr] over the files found in its directory. *)
Definition newHintMgr (mergeChan : bool) (disk mdisk : gmap (Z * Z) bytes) : hintMgr :=
  mkHintMgr 0 (newHintChunk <$> seqZ 0 MAX_NUM_CHUNK) (mkHintID 0 0) (MAX_NUM_CHUNK - 1) None 0
    newCollisionTable mergeChan disk mdisk.

(** [dump]: the split's buffer becomes a file. *)
Definition hm_dump (h : hintMgr) (chunkID splitID : Z) : option hintMgr :=
  ck ← zget (hm_chunks h) chunkID;
  sp ← zget (hc_splits ck) splitID;
  buf ← sp_buf sp;
  idx ← hb_Dump buf;
  splits ← zset (hc_splits ck) splitID (mkSplit None (Some idx));
  chunks ← zset (hm_chunks h) chunkID (mkHintChunk (hc_id ck) splits (hc_lastTS ck));
  Some (hm_with h chunks (setIfLarger (hm_maxDumpedHintID h) chunkID splitID)
          (<[(chunkID, splitID) := hx_file idx]> (hm_disk h))).

(** The loop over the old splits, [n] of them from [j] on. *)
Fixpoint dump_old (h : hintMgr) (chunkID j : Z) (n : nat) : option hintMgr :=
  match n with
  | O => Some h
  | S n =>
      ck ← zget (hm_chunks h) chunkID;
      sp ← zget (hc_splits ck) j;
      nd ← needDump sp;
      h ← (if nd : bool then hm_dump h chunkID j else Some h);
      dump_old h chunkID (j + 1) n
  end.

(** [trydump] at time [now]: the silence and the manager. *)
Definition trydump (h : hintMgr) (chunkID : Z) (dumplast : bool) (now : Z) : option (Z * hintMgr) :=
  ck ← zget (hm_chunks h) chunkID;
  let l := zlen (hc_splits ck) in
  h ← dump_old h chunkID 0 (Z.to_nat (l - 1));
  ck ← zget (hm_chunks h) chunkID;
  if negb dumplast && (chunkID =? hm_maxChunkID h) then Some (0, h)
  else if hc_lastTS ck =? 0 then Some (0, h)
  else
    let s := silenceTime ck now in
    if dumplast || (s <=? 0) then
      sp ← zget (hc_splits ck) (Z.max 0 (l - 1));
      nd ← needDump sp;
      if (nd : bool) then
        let ck' := rotate ck in
        chunks ← zset (hm_chunks h) chunkID (mkHintChunk (hc_id ck') (hc_splits ck') 0);
        h ← hm_dump (hm_with_chunks h chunks) chunkID (Z.max 0 (l - 1));
        Some (0, h)
      else Some (0, h)
    else Some (s, h).

(** [hintMgr.setItem]. *)
Definition hm_setItem (h : hintMgr) (it : HintItem) (chunkID recSize now : Z) : option (bool * hintMgr) :=
  ck ← zget (hm_chunks h) chunkID;
  match hc_setItem ck it recSize now with
  | None => None
  | Some (rotated, ck') =>
      chunks ← zset (hm_chunks h) chunkID ck';
      let h := hm_with_chunks h chunks in
      h ← (if rotated && negb (hm_mergeChan h && (hm_maxChunkID h <=? chunkID))
           then res ← trydump h chunkID false now; Some (snd res) else Some h);
      Some (rotated, if hm_maxChunkID h <? chunkID then hm_with_max h chunkID else h)
  end.

(** [hintMgr.set]: the collision table first, then the chunk of the position;
    [gc] is [reason == "gc"]. *)
Definition hm_set (h : hintMgr) (ki : KeyInfo) (meta : Meta) (pos : Position) (recSize : Z) (gc : bool) (now : Z)
    : option (bool * hintMgr) :=
  let it := newHintItem (ki_KeyHash ki) (Ver meta) (ValueHash meta) (mkPos 0 (Offset pos)) (ki_StringKey ki) in
  let h := if snd (ct_get (hm_collisions h) (ki_KeyHash ki) (ki_StringKey ki))
    then hm_with_collisions h
           (compareAndSet (hm_collisions h)
              (newHintItem (ki_KeyHash ki) (Ver meta) (ValueHash meta) pos (ki_StringKey ki)) gc)
    else h in
  hm_setItem h it (ChunkID pos) recSize now.

(** The loop of [getItem] from chunk [i] down. *)
Fixpoint get_item_loop (h : hintMgr) (n : nat) (keyhash : Z) (key : bytes) (memOnly : bool)
    : option (option HintItem * Z + StoreErr) :=
  match n with
  | O => Some (inl (None, 0))
  | S n =>
      let i := Z.of_nat n in
      let chunk :=
        ck ← zget (hm_chunks h) i;
        res ← hc_get ck keyhash key memOnly;
        match res with
        | inr e => Some (inr e)
        | inl (Some it) => Some (inl (Some it, i))
        | inl None => get_item_loop h n keyhash key memOnly
        end in
      match hm_merged h with
      | Some merged =>
          if negb memOnly && (i <=? id_Chunk (ct_HintID (hm_collisions h))) then
            res ← index_get merged keyhash key;
            match res with
            | inr e => Some (inr e)
            | inl None => Some (inl (None, 0))
            | inl (Some it) =>
                let m := hi_meta it in
                Some (inl (Some (newHintItem (Keyhash m) (it_Ver m) (Vhash m) (mkPos 0 (Offset (Pos m))) (hi_Key it)),
                           ChunkID (Pos m)))
            end
          else chunk
      | None => chunk
      end
  end.

(** [hintMgr.getItem]: the item and its chunk. *)
Definition getItem (h : hintMgr) (keyhash : Z) (key : bytes) (memOnly : bool) :=
  get_item_loop h (Z.to_nat (hm_maxChunkID h + 1)) keyhash key memOnly.

(** [hintMgr.get]. *)
Definition hm_get (h : hintMgr) (keyhash : Z) (key : bytes) : option (Meta * Position + StoreErr) :=
  res ← getItem h keyhash key false;
  Some (match res with
        | inr e => inr e
        | inl (None, _) => inr ErrHint
        | inl (Some it, ck) =>
            inl (mkMeta 0 0 (it_Ver (hi_meta it)) (Vhash (hi_meta it)) 0,
                 mkPos ck (Offset (Pos (hi_meta it))))
        end).

Definition forceRotateSplit (h : hintMgr) : option hintMgr :=
  ck ← zget (hm_chunks h) (hm_maxChunkID h);
  chunks ← zset (hm_chunks h) (hm_maxChunkID h) (rotate ck);
  Some (hm_with_chunks h chunks).

(** [hintMgr.getItemCollision]. *)
Fixpoint coll_loop (h : hintMgr) (n : nat) (keyhash : Z) (key : bytes) (last : option HintItem * Z * bool)
    : option (option HintItem * Z * bool) :=
  match n with
  | O => Some last
  | S n =>
      ck ← zget (hm_chunks h) (Z.of_nat n);
      match hc_getItemCollision ck keyhash key with
      | None => None
      | Some (it, ckid, collision, stop) =>
          if collision || stop then Some (it, ckid, collision)
          else coll_loop h n keyhash key (it, ckid, collision)
      end
  end.
Definition hm_getItemCollision (h : hintMgr) (keyhash : Z) (key : bytes) :=
  coll_loop h (Z.to_nat (hm_maxChunkID h + 1)) keyhash key (None, 0, false).

(** [getCollisionGC]: a key hash in the table without the key is a nil
    dereference. *)
Definition getCollisionGC (h : hintMgr) (ki : KeyInfo) : option (option HintItem * Z * bool) :=
  match ct_get (hm_collisions h) (ki_KeyHash ki) (ki_StringKey ki) with
  | (Some it, true) => Some (Some it, ChunkID (Pos (hi_meta it)), true)
  | (None, true) => None
  | (_, false) => hm_getItemCollision h (ki_KeyHash ki) (ki_StringKey ki)
  end.

End Hint.
