(* ===== verification/HintSpec.v ===== *)
(** * Hint buffers and chunks refine a map

    A buffer represents a finite map from (key hash, key) to items; a chunk,
    through rotations and dumps, represents the map of the items last set. *)

From stdpp Require Import gmap sorting.
From S2P Require Import Prelude Config Cmem Key Item Fixtures DataFile Data DataSpec HintFile Hint.

Definition hint_key (it : HintItem) : Z * bytes := (Keyhash (hi_meta it), hi_Key it).

(** The map a list of items stands for. *)
Definition hint_map (items : list HintItem) : gmap (Z * bytes) HintItem :=
  list_to_map ((λ it, (hint_key it, it)) <$> items).

Section Spec.
Context (Conf : HStoreConfig).

(** ** The buffer's maps *)

(** The index and the collision maps against the keys of the filled slots. *)
Record keys_ok (ks : list (Z * bytes)) (index : gmap Z nat) (coll : gmap Z (gmap bytes nat)) : Prop := {
  ko_nodup : NoDup ks;
  ko_index kh idx : index !! kh = Some idx → ∃ key, ks !! idx = Some (kh, key);
  ko_has i kh key : ks !! i = Some (kh, key) → is_Some (index !! kh);
  ko_single kh idx i key :
    coll !! kh = None → index !! kh = Some idx → ks !! i = Some (kh, key) → i = idx;
  ko_coll kh keys key i : coll !! kh = Some keys → keys !! key = Some i ↔ ks !! i = Some (kh, key);
  ko_live kh : is_Some (coll !! kh) → is_Some (index !! kh)
}.

Record buf_ok (h : HintBuffer) : Prop := {
  bo_keys : keys_ok (hint_key <$> hb_items h) (hb_index h) (hb_collisions h);
  bo_cap : hb_index h = ∅ ∨ hb_cap h = SplitCap Conf
}.

Lemma NewHintBuffer_ok : buf_ok NewHintBuffer.
Proof. split; [|by left]. split; try done; [constructor|intros kh [? ?]; done]. Qed.

Lemma hint_map_lookup items k it :
  NoDup (hint_key <$> items) → hint_map items !! k = Some it ↔ it ∈ items ∧ hint_key it = k.
Proof.
  intros Hnd. unfold hint_map. rewrite <- elem_of_list_to_map.
  - rewrite list_elem_of_fmap. split; [intros (x & Heq & Hx); by simplify_eq|]. intros [Hin <-]. by exists it.
  - by rewrite <- list_fmap_compose.
Qed.

Lemma hint_map_lookup_idx items i it :
  NoDup (hint_key <$> items) → items !! i = Some it → hint_map items !! hint_key it = Some it.
Proof. intros Hnd Hi. apply hint_map_lookup; [done|]. split; [by eapply list_elem_of_lookup_2|done]. Qed.

Lemma hint_map_lookup_None items k :
  hint_map items !! k = None ↔ k ∉ (hint_key <$> items).
Proof.
  unfold hint_map. rewrite <- not_elem_of_list_to_map. by rewrite <- list_fmap_compose.
Qed.

Lemma hint_map_snoc items it :
  hint_key it ∉ (hint_key <$> items) → hint_map (items ++ [it]) = <[hint_key it := it]> (hint_map items).
Proof.
  intros Hni. unfold hint_map. rewrite fmap_app. cbn. rewrite list_to_map_app. cbn.
  rewrite insert_empty. symmetry. apply insert_union_singleton_r. by apply hint_map_lookup_None.
Qed.

Lemma keys_update (items : list HintItem) (idx : nat) it old :
  items !! idx = Some old → hint_key old = hint_key it → hint_key <$> <[idx := it]> items = hint_key <$> items.
Proof. intros Hi Hk. rewrite list_fmap_insert, <- Hk. apply list_insert_id. by rewrite list_lookup_fmap, Hi. Qed.

Lemma hint_map_update items idx it old :
  NoDup (hint_key <$> items) → items !! idx = Some old → hint_key old = hint_key it →
  hint_map (<[idx := it]> items) = <[hint_key it := it]> (hint_map items).
Proof.
  intros Hnd Hi Hk. pose proof (keys_update items idx it old Hi Hk) as Hks.
  assert (NoDup (hint_key <$> <[idx := it]> items)) as Hnd' by (by rewrite Hks).
  pose proof (lookup_lt_Some _ _ _ Hi) as Hlt.
  apply map_eq. intros k. apply option_eq. intros x. rewrite hint_map_lookup by done.
  rewrite lookup_insert_Some, hint_map_lookup by done. split.
  - intros [[i Hx]%list_elem_of_lookup Hkx]. destruct (decide (hint_key it = k)) as [Hit|Hit].
    + left. split; [done|]. destruct (decide (i = idx)) as [->|Hne].
      * rewrite list_lookup_insert_eq in Hx by done. by simplify_eq.
      * rewrite list_lookup_insert_ne in Hx by done. exfalso. apply Hne.
        eapply (NoDup_lookup _ _ _ k Hnd); rewrite list_lookup_fmap; [rewrite Hx|rewrite Hi]; cbn; congruence.
    + right. split; [done|]. split; [|done]. destruct (decide (i = idx)) as [->|Hne].
      * rewrite list_lookup_insert_eq in Hx by done. simplify_eq.
      * rewrite list_lookup_insert_ne in Hx by done. by eapply list_elem_of_lookup_2.
  - intros [[<- <-]|(Hne & [i Hx]%list_elem_of_lookup & <-)]; (split; [|done]).
    + apply (list_elem_of_lookup_2 _ idx). by apply list_lookup_insert_eq.
    + apply (list_elem_of_lookup_2 _ i). rewrite list_lookup_insert_ne; [done|]. intros ->. congruence.
Qed.

(** Appending a key whose hash is new, and one whose hash is in the buffer. *)
Lemma keys_append_new ks (index : gmap Z nat) coll kh key :
  keys_ok ks index coll → index !! kh = None → keys_ok (ks ++ [(kh, key)]) (<[kh := length ks]> index) coll.
Proof.
  intros [Hnd Hidx Hhas Hsing Hcoll Hlive] Hnew.
  assert (∀ i key', ks !! i = Some (kh, key') → False) as Hno.
  { intros i key' Hi. destruct (Hhas _ _ _ Hi). congruence. }
  assert (coll !! kh = None) as Hcn.
  { destruct (coll !! kh) eqn:Hc; [|done]. destruct (Hlive kh); [by eexists|]. congruence. }
  split.
  - apply NoDup_app. split; [done|]. split; [|apply NoDup_singleton].
    intros x [i Hx]%list_elem_of_lookup ->%list_elem_of_singleton. by eapply Hno.
  - intros kh' idx [[<- <-]|[Hne Hi]]%lookup_insert_Some.
    + exists key. by apply list_lookup_middle.
    + destruct (Hidx _ _ Hi) as [k Hk]. exists k. by apply lookup_app_l_Some.
  - intros i kh' key' Hi. apply lookup_insert_is_Some'. apply lookup_app_Some in Hi as [Hi|[_ Hi]].
    + right. by eapply Hhas.
    + apply list_lookup_singleton_Some in Hi as [_ [= <- <-]]. by left.
  - intros kh' idx i key' Hc Hix Hi. apply lookup_insert_Some in Hix as [[<- <-]|[Hne Hix]].
    + apply lookup_app_Some in Hi as [Hi|[Hge Hi]]; [by eapply Hno in Hi|].
      apply list_lookup_singleton_Some in Hi as [Hz _]. lia.
    + apply lookup_app_Some in Hi as [Hi|[_ Hi]]; [by eapply Hsing|].
      apply list_lookup_singleton_Some in Hi as [_ [= <- <-]]. done.
  - intros kh' keys key' i Hc. rewrite Hcoll by done. split; [intros ?; by apply lookup_app_l_Some|].
    intros [Hi|[_ Hi]]%lookup_app_Some; [done|]. apply list_lookup_singleton_Some in Hi as [_ [= <- <-]]. congruence.
  - intros kh' Hc. apply lookup_insert_is_Some'. right. by apply Hlive.
Qed.

Lemma keys_append_coll ks index coll kh key keys :
  keys_ok ks index coll → coll !! kh = Some keys → keys !! key = None →
  keys_ok (ks ++ [(kh, key)]) (<[kh := length ks]> index) (<[kh := <[key := length ks]> keys]> coll).
Proof.
  intros [Hnd Hidx Hhas Hsing Hcoll Hlive] Hc Hk.
  assert (∀ i, ks !! i = Some (kh, key) → False) as Hno.
  { intros i Hi. apply (Hcoll _ _ _ _ Hc) in Hi. congruence. }
  split.
  - apply NoDup_app. split; [done|]. split; [|apply NoDup_singleton].
    intros x [i Hx]%list_elem_of_lookup ->%list_elem_of_singleton. by eapply Hno.
  - intros kh' idx [[<- <-]|[Hne Hi]]%lookup_insert_Some.
    + exists key. by apply list_lookup_middle.
    + destruct (Hidx _ _ Hi) as [k Hk']. exists k. by apply lookup_app_l_Some.
  - intros i kh' key' Hi. apply lookup_insert_is_Some'. apply lookup_app_Some in Hi as [Hi|[_ Hi]].
    + right. by eapply Hhas.
    + apply list_lookup_singleton_Some in Hi as [_ [= <- <-]]. by left.
  - intros kh' idx i key' Hc' Hix Hi. apply lookup_insert_None in Hc' as [Hc' Hne].
    rewrite lookup_insert_ne in Hix by done. apply lookup_app_Some in Hi as [Hi|[_ Hi]]; [by eapply Hsing|].
    apply list_lookup_singleton_Some in Hi as [_ [= <- <-]]. done.
  - intros kh' keys' key' i [[<- <-]|[Hne Hc']]%lookup_insert_Some.
    + rewrite lookup_insert_Some, (Hcoll _ _ _ _ Hc), lookup_app_Some, list_lookup_singleton_Some. split.
      * intros [[<- <-]|[? ?]]; [right; split; [lia|]; split; [lia|done]|by left].
      * intros [Hi|(Hge & Hz & [= ->])]; [|left; split; [done|lia]]. right. split; [|done].
        intros ->. by eapply Hno.
    + rewrite (Hcoll _ _ _ _ Hc'), lookup_app_Some, list_lookup_singleton_Some. split; [by left|].
      intros [Hi|(_ & _ & [= ->])]; [done|]. by destruct Hne.
  - intros kh' Hc'. apply lookup_insert_is_Some'. destruct (decide (kh = kh')); [by left|]. right.
    apply Hlive. by rewrite lookup_insert_ne in Hc' by done.
Qed.

(** The collision map that [Set] starts for a second key of a hash. *)
Lemma keys_start_coll ks index coll kh key idx :
  keys_ok ks index coll → coll !! kh = None → index !! kh = Some idx → ks !! idx = Some (kh, key) →
  keys_ok ks index (<[kh := {[key := idx]}]> coll).
Proof.
  intros [Hnd Hidx Hhas Hsing Hcoll Hlive] Hc Hi Hk. split; try done.
  - intros kh' idx' i key' Hc'. apply lookup_insert_None in Hc' as [Hc' _]. by apply Hsing.
  - intros kh' keys' key' i [[<- <-]|[Hne Hc']]%lookup_insert_Some; [|by apply Hcoll].
    rewrite lookup_singleton_Some. split; [by intros [<- <-]|]. intros Hi'.
    pose proof (Hsing _ _ _ _ Hc Hi Hi') as ->. rewrite Hk in Hi'. by simplify_eq.
  - intros kh' Hc'. destruct (decide (kh = kh')) as [<-|Hne]; [by eexists|]. apply Hlive.
    by rewrite lookup_insert_ne in Hc' by done.
Qed.

(** ** Lookups and updates of a buffer *)

Lemma hb_slot h kh idx :
  buf_ok h → hb_index h !! kh = Some idx →
  ∃ old, hb_items h !! idx = Some old ∧ Keyhash (hi_meta old) = kh
    ∧ (hint_key <$> hb_items h) !! idx = Some (kh, hi_Key old).
Proof.
  intros [Hk _] Hi. destruct (ko_index _ _ _ Hk _ _ Hi) as [key Hl].
  pose proof Hl as Hl'. rewrite list_lookup_fmap in Hl'. destruct (hb_items h !! idx) as [old|]; [|done].
  cbn in Hl'. injection Hl' as He1 He2. exists old. subst. done.
Qed.

Lemma hb_Get_spec h kh key :
  buf_ok h →
  ∃ coll, hb_Get h kh key = Some (hint_map (hb_items h) !! (kh, key), coll)
    ∧ (coll = true → ∃ it, it ∈ hb_items h ∧ Keyhash (hi_meta it) = kh ∧ hi_Key it ≠ key).
Proof.
  intros Hok. pose proof (bo_keys _ Hok) as Hk. pose proof (ko_nodup _ _ _ Hk) as Hnd. unfold hb_Get.
  destruct (hb_index h !! kh) as [idx|] eqn:Hi.
  - destruct (hb_slot h kh idx Hok Hi) as (old & Ho & Hkh & Hl). rewrite Ho. cbn [mbind option_bind].
    destruct (bytes_eqb key (hi_Key old)) eqn:He.
    + apply bytes_eqb_true in He as ->. exists false. split; [|done]. do 2 f_equal. symmetry.
      rewrite <- Hkh. by eapply hint_map_lookup_idx.
    + apply bytes_eqb_false in He. exists true. split.
      2:{ intros _. exists old. split; [by eapply list_elem_of_lookup_2|by split]. }
      destruct (hb_collisions h !! kh) as [keys|] eqn:Hc; cbn [mbind option_bind].
      * destruct (keys !! key) as [i|] eqn:Hki.
        -- apply (ko_coll _ _ _ Hk _ _ _ _ Hc) in Hki. pose proof Hki as Hki'.
           rewrite list_lookup_fmap in Hki'. destruct (hb_items h !! i) as [it|] eqn:Hit; [|done].
           injection Hki' as Hk1 Hk2. cbn. do 2 f_equal. symmetry. rewrite <- Hk1, <- Hk2.
           by eapply hint_map_lookup_idx.
        -- do 2 f_equal. symmetry. apply hint_map_lookup_None. intros [i Hx]%list_elem_of_lookup.
           apply (ko_coll _ _ _ Hk _ _ _ _ Hc) in Hx. congruence.
      * do 2 f_equal. symmetry. apply hint_map_lookup_None. intros [i Hx]%list_elem_of_lookup.
        pose proof (ko_single _ _ _ Hk _ _ _ _ Hc Hi Hx) as ->. congruence.
  - exists false. split; [|done]. do 2 f_equal. symmetry. apply hint_map_lookup_None.
    intros [i Hx]%list_elem_of_lookup. destruct (ko_has _ _ _ Hk _ _ _ Hx). congruence.
Qed.

(** What [Set] does: it puts the item, or finds the buffer full and the key not
    in it. *)
Record set_result (h : HintBuffer) (it : HintItem) (recSize : Z) (b : bool) (h' : HintBuffer) : Prop := {
  sr_ok : buf_ok h';
  sr_off : hb_maxoffset h <= hb_maxoffset h';
  sr_put : b = true → hint_map (hb_items h') = <[hint_key it := it]> (hint_map (hb_items h))
    ∧ u32 (Offset (Pos (hi_meta it)) + recSize) <= hb_maxoffset h';
  sr_full : b = false → hb_items h' = hb_items h ∧ hint_map (hb_items h) !! hint_key it = None
    ∧ SplitCap Conf <= zlen (hb_items h);
  sr_fit : hint_ok it → SplitCap Conf < 4095 * 4096 → hints_fit (hb_items h) (hb_maxoffset h) →
    hints_fit (hb_items h') (hb_maxoffset h');
  sr_room : b = true → is_Some (hint_map (hb_items h) !! hint_key it) ∨ zlen (hb_items h) < SplitCap Conf
}.

(** The larger of two offsets. *)
Ltac bump := match goal with |- context [?a <? ?b] => destruct (Z.ltb_spec a b); lia end.

Lemma hb_place_update h it recSize idx old c :
  buf_ok h → hb_items h !! idx = Some old → hint_key old = hint_key it → hb_index h ≠ ∅ →
  (c = true → ∃ keys, hb_collisions h !! Keyhash (hi_meta it) = Some keys) →
  (c = false → hb_index h !! Keyhash (hi_meta it) = Some idx) →
  ∃ h', hb_place h it recSize (Some idx) c = (true, h') ∧ set_result h it recSize true h'.
Proof.
  intros Hok Hi Hkey Hne Hct Hcf. pose proof (bo_keys _ Hok) as Hk. pose proof (ko_nodup _ _ _ Hk) as Hnd.
  assert ((hint_key <$> hb_items h) !! idx = Some (Keyhash (hi_meta it), hi_Key it)) as Hl.
  { rewrite list_lookup_fmap, Hi. cbn. by rewrite Hkey. }
  eexists. split; [done|]. split; cbn [hb_maxoffset hb_items hb_index hb_collisions hb_cap]; [|bump| |done| |].
  2:{ intros _. split; [by eapply hint_map_update|]. bump. }
  3:{ intros _. left. rewrite <- Hkey. eexists. by eapply hint_map_lookup_idx. }
  2:{ intros Hhi Hcap [Hfo Hfl Hfm]. split; [by apply Forall_insert|unfold zlen in *; by rewrite length_insert|].
      case_match; [apply u32_range|done]. }
  split; cbn [hb_items hb_index hb_collisions hb_cap].
  - rewrite (keys_update _ _ _ old) by done.
    assert ((if c then <[Keyhash (hi_meta it):=<[hi_Key it:=idx]> (default ∅ (hb_collisions h !! Keyhash (hi_meta it)))]>
             (hb_collisions h) else hb_collisions h) = hb_collisions h) as ->.
    { destruct c; [|done]. destruct (Hct eq_refl) as [keys Hc]. rewrite Hc. cbn. apply insert_id. rewrite Hc.
      f_equal. symmetry. apply insert_id. by apply (ko_coll _ _ _ Hk _ _ _ _ Hc). }
    destruct Hk as [_ Hidx Hhas Hsing Hcoll Hlive]. split; try done.
    + intros kh i [[<- <-]|[_ Hx]]%lookup_insert_Some; [by eexists|by apply Hidx].
    + intros i kh key Hx. apply lookup_insert_is_Some'. right. by eapply Hhas.
    + intros kh j i key Hc Hx Hik. apply lookup_insert_Some in Hx as [[<- <-]|[_ Hx]]; [|by eapply Hsing].
      destruct c; [destruct (Hct eq_refl); congruence|]. eapply Hsing; [done|by apply Hcf|done].
    + intros kh Hc. apply lookup_insert_is_Some'. right. by apply Hlive.
  - right. by destruct (bo_cap _ Hok).
Qed.

Lemma hb_place_append h it recSize (c : bool) :
  buf_ok h → hb_cap h = SplitCap Conf →
  hint_key it ∉ hint_key <$> hb_items h →
  (if c then ∃ keys, hb_collisions h !! Keyhash (hi_meta it) = Some keys
   else hb_index h !! Keyhash (hi_meta it) = None) →
  ∃ b h', hb_place h it recSize None c = (b, h') ∧ set_result h it recSize b h'.
Proof.
  intros Hok Hcap Hni Hc. pose proof (bo_keys _ Hok) as Hk. unfold hb_place. rewrite Hcap.
  destruct (Z.leb_spec (SplitCap Conf) (Z.of_nat (length (hb_items h)))) as [Hfull|Hroom].
  - eexists _, _. split; [done|]. split; [| |done| | |done].
    + destruct (_ <? _); [|done]. split; [apply Hk|by right].
    + destruct (Z.ltb_spec (hb_maxoffset h) (Offset (Pos (hi_meta it)))); cbn [SetMaxOffset hb_maxoffset]; lia.
    + intros _. split; [by destruct (_ <? _)|]. split; [by apply hint_map_lookup_None|done].
    + intros Hhi _ [Hfo Hfl Hfm]. destruct (_ <? _); [|done]. split; [done..|apply (ho_off _ Hhi)].
  - eexists _, _. split; [done|]. split; cbn [hb_maxoffset hb_items hb_index hb_collisions hb_cap];
      [|bump| |done| |by right].
    2:{ intros _. split; [by apply hint_map_snoc|]. bump. }
    2:{ intros Hhi Hlim [Hfo Hfl Hfm]. split.
        - apply Forall_app. split; [done|]. by apply Forall_singleton.
        - unfold zlen. rewrite length_app. simpl. lia.
        - destruct (_ <? _); [apply u32_range|done]. }
    split; cbn [hb_items hb_index hb_collisions hb_cap]; [|by right].
    rewrite fmap_app. cbn [fmap list_fmap].
    replace (length (hb_items h)) with (length (hint_key <$> hb_items h)) by apply length_fmap.
    destruct c.
    + destruct Hc as [keys Hc]. rewrite Hc. cbn [default]. apply keys_append_coll; [done..|].
      destruct (keys !! hi_Key it) as [i|] eqn:Hki; [|done]. exfalso. apply Hni.
      apply (ko_coll _ _ _ Hk _ _ _ _ Hc) in Hki. by eapply list_elem_of_lookup_2.
    + by apply keys_append_new.
Qed.

Lemma hb_Set_spec h it recSize :
  buf_ok h → ∃ b h', hb_Set Conf h it recSize = Some (b, h') ∧ set_result h it recSize b h'.
Proof.
  intros Hok0. unfold hb_Set.
  set (h1 := if decide (hb_index h = ∅) then _ else h).
  assert (buf_ok h1 ∧ hb_cap h1 = SplitCap Conf ∧ hb_items h1 = hb_items h ∧ hb_maxoffset h1 = hb_maxoffset h)
    as (Hok & Hcap & Hit & Hmax).
  { unfold h1. destruct (decide _) as [He|He]; [|destruct (bo_cap _ Hok0); by try done].
    split; [|done]. split; [apply (bo_keys _ Hok0)|by right]. }
  assert (∀ h2 b h', hb_items h2 = hb_items h → hb_maxoffset h2 = hb_maxoffset h →
    set_result h2 it recSize b h' → set_result h it recSize b h') as Htr.
  { intros h2 b h' H1 H2 [? ? ? ? ? ?]. rewrite H1, ?H2 in *. split; try done. }
  clearbody h1. pose proof (bo_keys _ Hok) as Hk.
  destruct (hb_index h1 !! Keyhash (hi_meta it)) as [idx|] eqn:Hi.
  - destruct (hb_slot h1 _ idx Hok Hi) as (old & Ho & Hkh & Hl). rewrite Ho. cbn [mbind option_bind].
    assert (hb_index h1 ≠ ∅) as Hne by (intros He; rewrite He, lookup_empty in Hi; done).
    destruct (bytes_eqb (hi_Key it) (hi_Key old)) eqn:He.
    + apply bytes_eqb_true in He.
      destruct (hb_place_update h1 it recSize idx old false) as (h' & -> & Hr);
        [done|done|by unfold hint_key; congruence|done|done|done|]. eexists _, _. split; [done|]. by eapply Htr.
    + apply bytes_eqb_false in He.
      destruct (hb_collisions h1 !! Keyhash (hi_meta it)) as [keys|] eqn:Hc.
      * destruct (keys !! hi_Key it) as [i|] eqn:Hki.
        -- apply (ko_coll _ _ _ Hk _ _ _ _ Hc) in Hki. pose proof Hki as Hki'. rewrite list_lookup_fmap in Hki'.
           destruct (hb_items h1 !! i) as [x|] eqn:Hx; [|done].
           destruct (hb_place_update h1 it recSize i x true) as (h' & -> & Hr);
             [done|done|by injection Hki' as ?; unfold hint_key; congruence|done|by eexists|done|].
           eexists _, _. split; [done|]. by eapply Htr.
        -- destruct (hb_place_append h1 it recSize true) as (b & h' & -> & Hr); [done|done| |by eexists|].
           { intros [i Hx]%list_elem_of_lookup. apply (ko_coll _ _ _ Hk _ _ _ _ Hc) in Hx. congruence. }
           eexists _, _. split; [done|]. by eapply Htr.
      * set (h2 := mkHintBuffer _ _ (<[_ := _]> _) _ _).
        assert (buf_ok h2) as Hok2.
        { split; [|by right]. apply keys_start_coll; try done. }
        destruct (hb_place_append h2 it recSize true) as (b & h' & -> & Hr); [done|done| | |].
        { change (hb_items h2) with (hb_items h1). intros [i Hx]%list_elem_of_lookup. pose proof (ko_single _ _ _ Hk _ _ _ _ Hc Hi Hx) as ->. rewrite Hl in Hx. injection Hx as Hx. by destruct He. }
        { unfold h2. cbn [hb_collisions]. rewrite lookup_insert_eq. by eexists. }
        eexists _, _. split; [done|]. by eapply Htr; [..|exact Hr].
  - destruct (hb_place_append h1 it recSize false) as (b & h' & -> & Hr); [done|done| |done|].
    { intros [i Hx]%list_elem_of_lookup. destruct (ko_has _ _ _ Hk _ _ _ Hx). congruence. }
    eexists _, _. split; [done|]. by eapply Htr.
Qed.

(** Every item of a buffer was put there. *)
Lemma set_result_Forall (P : HintItem → Prop) h it recSize b h' :
  set_result h it recSize b h' → P it → buf_ok h → Forall P (hb_items h) → Forall P (hb_items h').
Proof.
  intros Hr Hit Hok Hall. destruct b; [|by destruct (sr_full _ _ _ _ _ Hr eq_refl) as (-> & _)].
  destruct (sr_put _ _ _ _ _ Hr eq_refl) as [Hm _]. rewrite Forall_forall in Hall |- *. intros x Hx.
  assert (hint_map (hb_items h') !! hint_key x = Some x) as Hl.
  { apply hint_map_lookup; [apply (ko_nodup _ _ _ (bo_keys _ (sr_ok _ _ _ _ _ Hr)))|done]. }
  rewrite Hm in Hl. apply lookup_insert_Some in Hl as [[_ <-]|[_ Hl]]; [done|].
  apply hint_map_lookup in Hl as [Hin _]; [by apply Hall|apply (ko_nodup _ _ _ (bo_keys _ Hok))].
Qed.

(** ** Dumping a buffer *)

Lemma hint_less_lt a b : hint_less a b = true ↔ hint_lt a b.
Proof.
  unfold hint_less, hint_lt. destruct (Z.ltb_spec (Keyhash (hi_meta a)) (Keyhash (hi_meta b))); [naive_solver|].
  destruct (Z.ltb_spec (Keyhash (hi_meta b)) (Keyhash (hi_meta a))); [naive_solver lia|]. naive_solver lia.
Qed.

Lemma hint_lt_trans a b c : hint_lt a b → hint_lt b c → hint_lt a c.
Proof.
  intros [?|[? ?]] [?|[? ?]]; [left; lia..|right]. split; [lia|]. by eapply bytes_ltb_trans.
Qed.

Lemma hint_lt_total a b : hint_key a ≠ hint_key b → hint_lt a b ∨ hint_lt b a.
Proof.
  intros Hk. destruct (Z.lt_total (Keyhash (hi_meta a)) (Keyhash (hi_meta b))) as [?|[Heq|?]];
    [by left; left| |by right; left].
  destruct (bytes_ltb (hi_Key a) (hi_Key b)) eqn:H1; [by left; right|].
  destruct (bytes_ltb (hi_Key b) (hi_Key a)) eqn:H2; [by right; right|].
  exfalso. apply Hk. unfold hint_key. f_equal; [done|]. by apply bytes_ltb_total.
Qed.

Lemma hint_lt_irrefl a : ¬ hint_lt a a.
Proof. intros [?|[_ H]]; [lia|]. by rewrite bytes_ltb_irrefl in H. Qed.

Lemma hint_le_alt a b : hint_le a b ↔ ¬ hint_lt b a.
Proof. unfold hint_le. rewrite <- hint_less_lt. by destruct (hint_less b a). Qed.

Lemma hint_le_cases a b : hint_le a b ↔ hint_key a = hint_key b ∨ hint_lt a b.
Proof.
  rewrite hint_le_alt. split.
  - intros Hn. destruct (decide (hint_key a = hint_key b)) as [|Hk]; [by left|]. right.
    by destruct (hint_lt_total a b Hk).
  - intros [Hk|Hlt] Hba.
    + apply (hint_lt_irrefl b). unfold hint_lt, hint_key in *. injection Hk as H1 H2. by rewrite H1, H2 in Hba.
    + by eapply hint_lt_irrefl, hint_lt_trans.
Qed.

Instance hint_le_total : Total hint_le.
Proof.
  intros a b. rewrite !hint_le_cases. destruct (decide (hint_key a = hint_key b)) as [|Hk]; [by left; left|].
  destruct (hint_lt_total a b Hk); [left|right]; by right.
Qed.

Instance hint_le_trans : Transitive hint_le.
Proof.
  intros a b c. rewrite !hint_le_cases. unfold hint_lt, hint_key.
  intros [[= H1 H2]|Hab] [[= H3 H4]|Hbc]; [left; congruence|right; by rewrite H1, H2|right; by rewrite <- H3, <- H4|]. right.
  by eapply hint_lt_trans.
Qed.

Lemma sort_hints items :
  NoDup (hint_key <$> items) →
  StronglySorted hint_lt (merge_sort hint_le items) ∧ merge_sort hint_le items ≡ₚ items.
Proof.
  intros Hnd. assert (merge_sort hint_le items ≡ₚ items) as Hp by apply merge_sort_Permutation.
  split; [|done]. assert (NoDup (hint_key <$> merge_sort hint_le items)) as Hnd' by (by rewrite Hp).
  pose proof (StronglySorted_merge_sort hint_le items) as Hs. clear Hp. revert Hnd'.
  induction Hs as [|x l Hs IH Hx]; intros Hnd'; [constructor|]. rewrite fmap_cons in Hnd'.
  apply NoDup_cons in Hnd' as [Hni Hnd']. constructor; [by apply IH|].
  rewrite Forall_forall in Hx |- *. intros y Hy. specialize (Hx y Hy). apply hint_le_cases in Hx as [Heq|]; [|done].
  exfalso. apply Hni. rewrite Heq. by apply list_elem_of_fmap_2.
Qed.

(** A file that holds a list of items, as lookups see it. *)
Record file_holds (idx : hintFileIndex) (items : list HintItem) : Prop := {
  fh_hit kh key it : hint_map items !! (kh, key) = Some it → index_get idx kh key = Some (inl (Some it));
  fh_miss kh key : hint_map items !! (kh, key) = None → file_safe idx kh = true →
    index_get idx kh key = Some (inl None);
  fh_scan : ∃ rd srt, hr_open (hx_file idx) = inl rd ∧ readItems (S (length (hx_file idx))) rd = Some (inl srt)
    ∧ srt ≡ₚ items;
  fh_nodup : NoDup (hint_key <$> items);
  fh_ok : Forall hint_ok items
}.

Lemma hints_fit_perm items items' max : items ≡ₚ items' → hints_fit items max → hints_fit items' max.
Proof.
  intros Hp [Hok Hl Hm]. split; [by rewrite <- Hp|unfold zlen in *; by rewrite <- Hp|done].
Qed.

Lemma hb_Dump_spec h :
  buf_ok h → hints_fit (hb_items h) (hb_maxoffset h) →
  ∃ idx, hb_Dump Conf h = Some idx ∧ file_holds idx (hb_items h)
    ∧ numKey (hx_meta idx) = zlen (hb_items h) ∧ datasize (hx_meta idx) = hb_maxoffset h
    ∧ loadHintIndex (hx_file idx) = Some (inl (mkHintIndex (hx_index idx) (hx_file idx)
        (mkHintMeta (zlen (hb_items h)) (16 + hint_sizes (merge_sort hint_le (hb_items h))) (hb_maxoffset h)))).
Proof.
  intros Hok Hf. pose proof (ko_nodup _ _ _ (bo_keys _ Hok)) as Hnd.
  destruct (sort_hints _ Hnd) as [Hs Hp]. set (srt := merge_sort hint_le (hb_items h)) in *.
  assert (hints_fit srt (hb_maxoffset h)) as Hf' by (by eapply hints_fit_perm).
  destruct (hint_file_layout Conf srt _ Hf') as (w & Hw & Hm & Hc & _ & Ho).
  unfold hb_Dump. fold srt. rewrite Hw. cbn [mbind option_bind]. eexists. split; [done|].
  split; [|split; [done|]; split; [done|]].
  2:{ cbn [hx_index hx_file]. rewrite (hint_index_load Conf srt _ w Hf' Hw). unfold zlen. by rewrite <- Hp, Hm. }
  split; cbn [hx_index].
  - intros kh key it Hit. apply hint_map_lookup in Hit as [Hin [= <- <-]]; [|done].
    apply (index_get_found Conf srt _ w it Hf' Hs Hw). by rewrite Hp.
  - intros kh key Hno Hsafe. apply (index_get_miss Conf srt _ w kh key Hf' Hs Hw).
    + intros x Hx Hkh <-. apply hint_map_lookup_None in Hno. apply Hno. rewrite <- Hkh.
      change (Keyhash (hi_meta x), hi_Key x) with (hint_key x). apply list_elem_of_fmap_2. by rewrite <- Hp.
    + unfold file_safe in Hsafe. cbn [hx_index hx_file] in Hsafe. rewrite (file_items_written Conf srt _ w Hf' Hw) in Hsafe.
      apply orb_true_iff in Hsafe as [Hsm|(it & Hin & Hlt)%existsb_exists]; [right; by apply Nat.leb_le|left].
      exists it. split; [by apply list_elem_of_In|lia].
  - eexists _, srt. cbn [hx_file]. rewrite Ho. split; [done|]. split; [|done].
    apply (hint_file_reads Conf srt (hb_maxoffset h) w); [done|done|].
    rewrite Hc, !length_app. pose proof (zlen_hints_bytes srt) as Hz. unfold zlen in Hz.
    pose proof (length_hints_le srt). lia.
  - done.
  - apply (hf_ok _ _ Hf).
Qed.

(** A dumped buffer loads back as a file with its items. *)
Lemma hb_Dump_loads h d :
  buf_ok h → hints_fit (hb_items h) (hb_maxoffset h) → hb_Dump Conf h = Some d →
  ∃ idx, loadHintIndex (hx_file d) = Some (inl idx) ∧ hx_file idx = hx_file d ∧ file_holds idx (hb_items h)
    ∧ datasize (hx_meta idx) = hb_maxoffset h.
Proof.
  intros Hok Hfit Hd. destruct (hb_Dump_spec h Hok Hfit) as (d' & Hd' & Hfh & _ & _ & Hl). rewrite Hd in Hd'. injection Hd' as <-.
  eexists. split; [exact Hl|]. split; [done|]. split; [|done]. destruct Hfh as [H1 H2 H3 H4 H5]. by split.
Qed.

(** ** Chunks *)

(** Layers of items, the newest first. *)
Definition layered (rgs : list (list HintItem)) : gmap (Z * bytes) HintItem :=
  foldr (λ items acc, hint_map items ∪ acc) ∅ rgs.
Definition chunk_map (gs : list (list HintItem)) : gmap (Z * bytes) HintItem := layered (rev gs).

Inductive split_holds : hintSplit → list HintItem → Prop :=
  | holds_buf b : buf_ok b → hints_fit (hb_items b) (hb_maxoffset b) →
      split_holds (mkSplit (Some b) None) (hb_items b)
  | holds_file idx items : file_holds idx items → split_holds (mkSplit None (Some idx)) items.

(** A split that the search through the files may pass: a file, or an empty
    buffer. *)
Definition settled (sp : hintSplit) (items : list HintItem) : Prop := sp_buf sp = None ∨ items = [].

Record chunk_rep (c : hintChunk) (gs : list (list HintItem)) : Prop := {
  cr_holds : Forall2 split_holds (hc_splits c) gs;
  cr_order i j sp sp' items : (i < j)%nat → hc_splits c !! j = Some sp' → sp_buf sp' = None →
    hc_splits c !! i = Some sp → gs !! i = Some items → settled sp items;
  cr_last : ∃ front b, hc_splits c = front ++ [mkSplit (Some b) None]
}.

(** The lookup of an absent key stays inside every dumped file of the chunk. *)
Definition chunk_safe (c : hintChunk) (kh : Z) : bool :=
  forallb (λ sp, match sp_file sp with Some idx => file_safe idx kh | None => true end) (hc_splits c).

Lemma newHintChunk_rep id : chunk_rep (newHintChunk id) [[]].
Proof.
  split; cbn.
  - constructor; [|constructor]. apply (holds_buf NewHintBuffer); [apply NewHintBuffer_ok|].
    split; [by apply Forall_nil|done|cbn; width].
  - intros i j sp sp' items Hij Hj. apply list_lookup_singleton_Some in Hj as [-> _]. lia.
  - by exists [], NewHintBuffer.
Qed.

Lemma layered_cons items rgs k :
  layered (items :: rgs) !! k = match hint_map items !! k with Some it => Some it | None => layered rgs !! k end.
Proof.
  change (layered (items :: rgs)) with (hint_map items ∪ layered rgs). rewrite lookup_union.
  by destruct (hint_map items !! k), (layered rgs !! k).
Qed.

(** The search through the buffers: it finds the newest item, or stops at a file
    with nothing newer. *)
Lemma mem_loop_spec rsplits rgs kh key :
  Forall2 split_holds rsplits rgs →
  ∃ r, mem_loop rsplits kh key = Some r ∧
    match r with
    | (Some it, _) => layered rgs !! (kh, key) = Some it
    | (None, n) => ∃ pre rs rpre rg, rsplits = pre ++ rs ∧ rgs = rpre ++ rg ∧ length pre = length rpre
        ∧ n = zlen rs - 1 ∧ layered rgs !! (kh, key) = layered rg !! (kh, key)
        ∧ (∀ sp, head rs = Some sp → sp_buf sp = None)
    end.
Proof.
  induction 1 as [|sp items rsplits rgs Hsp Hrest IH]; cbn [mem_loop].
  - eexists. split; [done|]. exists [], [], [], []. done.
  - destruct Hsp as [b Hok Hfit|idx items Hfh]; cbn [sp_buf].
    + destruct (hb_Get_spec b kh key Hok) as (coll & -> & _). cbn [mbind option_bind fst].
      destruct (hint_map (hb_items b) !! (kh, key)) as [it|] eqn:Hm.
      * eexists. split; [done|]. by rewrite layered_cons, Hm.
      * destruct IH as (r & Hr & Hpost). exists r. split; [done|]. destruct r as [[it|] n].
        -- by rewrite layered_cons, Hm.
        -- destruct Hpost as (pre & rs & rpre & rg & -> & -> & Hl & Hn & Hlay & Hh).
           exists (mkSplit (Some b) None :: pre), rs, (hb_items b :: rpre), rg.
           split; [done|]. split; [done|]. split; [cbn; lia|]. split; [done|]. split; [|done].
           by rewrite layered_cons, Hm.
    + eexists. split; [done|]. exists [], (mkSplit None (Some idx) :: rsplits), [], (items :: rgs).
      split; [done|]. split; [done|]. split; [done|]. split; [unfold zlen; cbn [length]; lia|].
      split; [done|]. intros sp [= <-]. done.
Qed.

Lemma file_loop_spec rs rg kh key :
  Forall2 split_holds rs rg →
  (∀ i sp items, rs !! i = Some sp → rg !! i = Some items → settled sp items) →
  (∀ i idx, rs !! i = Some (mkSplit None (Some idx)) → file_safe idx kh = true) →
  file_loop rs kh key = Some (inl (layered rg !! (kh, key))).
Proof.
  induction 1 as [|sp items rs rg Hsp Hrest IH]; intros Hset Hsafe; [done|].
  specialize (IH (λ i, Hset (S i)) (λ i, Hsafe (S i))).
  pose proof (Hset 0%nat sp items eq_refl eq_refl) as H0. cbn [file_loop]. rewrite layered_cons.
  destruct Hsp as [b Hok Hfit|idx items Hfh]; cbn [sp_file].
  - destruct H0 as [?|H0]; [done|]. rewrite IH, H0. done.
  - destruct (hint_map items !! (kh, key)) as [it|] eqn:Hm.
    + rewrite (fh_hit _ _ Hfh _ _ _ Hm). done.
    + rewrite (fh_miss _ _ Hfh _ _ Hm) by (by apply (Hsafe 0%nat)). cbn. by rewrite IH.
Qed.

Lemma rev_lookup {A} (l : list A) i : (i < length l)%nat → rev l !! i = l !! (length l - S i)%nat.
Proof. intros Hi. rewrite rev_alt. by apply reverse_lookup. Qed.

Lemma hc_get_spec c gs kh key :
  chunk_rep c gs → chunk_safe c kh = true →
  hc_get c kh key false = Some (inl (chunk_map gs !! (kh, key))).
Proof.
  intros [Hh Ho _] Hsafe. unfold hc_get, getMemOnly, chunk_map.
  pose proof (Forall2_length _ _ _ Hh) as Hlen.
  assert (Forall2 split_holds (rev (hc_splits c)) (rev gs)) as Hr by (rewrite !rev_alt; by apply Forall2_reverse).
  destruct (mem_loop_spec _ _ kh key Hr) as ([[it|] n] & -> & Hpost); cbn [mbind option_bind].
  { by rewrite Hpost. }
  destruct Hpost as (pre & rs & rpre & rg & Hs & Hg & Hl & -> & -> & Hhead).
  assert (hc_splits c = rev rs ++ rev pre) as Hs' by (by rewrite <- rev_app_distr, <- Hs, rev_involutive).
  assert (gs = rev rg ++ rev rpre) as Hg' by (by rewrite <- rev_app_distr, <- Hg, rev_involutive).
  assert (Forall2 split_holds rs rg) as Hrs.
  { rewrite Hs, Hg in Hr. by apply Forall2_app_inv in Hr as [_ Hr]. }
  assert (length rs = length rg) as Hl2 by (by eapply Forall2_length).
  assert (take (Z.to_nat (zlen rs - 1 + 1)) (hc_splits c) = rev rs) as ->.
  { rewrite Hs'. apply take_app_length'. rewrite length_rev. unfold zlen. lia. }
  rewrite rev_involutive. apply file_loop_spec; [done| |].
  - intros i sp items Hi Hgi. destruct (decide (i = 0%nat)) as [->|Hne].
    { left. apply Hhead. by destruct rs; cbn in *; simplify_eq. }
    pose proof (lookup_lt_Some _ _ _ Hi) as Hlt. destruct rs as [|sp0 rs]; [done|].
    apply (Ho (length rs - i)%nat (length rs) sp sp0 items).
    + cbn [length] in Hlt. lia.
    + rewrite Hs', lookup_app_l by (rewrite length_rev; cbn; lia). rewrite rev_lookup by (cbn; lia). cbn [length]. by replace (S (length rs) - S (length rs))%nat with 0%nat by lia.
    + by apply Hhead.
    + rewrite Hs', lookup_app_l by (rewrite length_rev; cbn; lia). rewrite rev_lookup by (cbn; lia). cbn [length] in *. by replace (S (length rs) - S (length rs - i))%nat with i by lia.
    + rewrite Hg', lookup_app_l by (rewrite length_rev, <- Hl2; cbn; lia). rewrite rev_lookup by (rewrite <- Hl2; cbn; lia). rewrite <- Hl2. cbn [length] in *.
      by replace (S (length rs) - S (length rs - i))%nat with i by lia.
  - intros i idx Hi. unfold chunk_safe in Hsafe. rewrite forallb_forall in Hsafe.
    apply (Hsafe (mkSplit None (Some idx))). apply list_elem_of_In. rewrite Hs'. apply elem_of_app. left.
    apply list_elem_of_In, in_rev. rewrite rev_involutive. apply list_elem_of_In. by eapply list_elem_of_lookup_2.
Qed.

(** ** Setting an item *)

Lemma chunk_map_snoc gs items : chunk_map (gs ++ [items]) = hint_map items ∪ chunk_map gs.
Proof. unfold chunk_map. by rewrite rev_app_distr. Qed.

(** The last split of a chunk and the layer it holds. *)
Lemma chunk_last c gs :
  chunk_rep c gs →
  ∃ front b gfront, hc_splits c = front ++ [mkSplit (Some b) None] ∧ gs = gfront ++ [hb_items b]
    ∧ Forall2 split_holds front gfront ∧ buf_ok b ∧ hints_fit (hb_items b) (hb_maxoffset b).
Proof.
  intros [Hh _ (front & b & Hs)]. rewrite Hs in Hh.
  apply Forall2_app_inv_l in Hh as (gfront & gl & Hf & Hl & ->). inversion_clear Hl as [|? items ? ? Hsp Hnil].
  inversion Hnil; subst. inversion Hsp; subst. by exists front, b, gfront.
Qed.

(** Replacing the last split, and the splits after it, by buffers. *)
Lemma chunk_rep_tail c gs front gfront b items bufs gbufs id ts :
  chunk_rep c gs → hc_splits c = front ++ [mkSplit (Some b) None] → gs = gfront ++ [items] →
  Forall2 split_holds front gfront → Forall2 split_holds bufs gbufs →
  Forall (λ sp, sp_buf sp ≠ None) bufs →
  (∃ f b', bufs = f ++ [mkSplit (Some b') None]) →
  chunk_rep (mkHintChunk id (front ++ bufs) ts) (gfront ++ gbufs).
Proof.
  intros [_ Ho _] Hs -> Hf Hb Hbufs (f & b' & Hlast). pose proof (Forall2_length _ _ _ Hf) as Hlf.
  split; cbn [hc_splits].
  - by apply Forall2_app.
  - intros i j sp sp' its Hij Hj Hnone Hi Hg. rewrite Hs in Ho.
    destruct (decide (j < length front)%nat) as [Hjf|Hjf].
    + rewrite lookup_app_l in Hj, Hi by lia. rewrite lookup_app_l in Hg by lia.
      by apply (Ho i j sp sp'); rewrite ?lookup_app_l by lia.
    + exfalso. rewrite lookup_app_r in Hj by lia. rewrite Forall_lookup in Hbufs. by eapply Hbufs.
  - exists (front ++ f), b'. by rewrite Hlast, app_assoc.
Qed.

(** Only the last layer may be empty, and it is when nothing was set since it was
    begun. *)
Definition tidy (c : hintChunk) (gs : list (list HintItem)) : Prop :=
  ∃ gfront items, gs = gfront ++ [items] ∧ Forall (λ l, l ≠ []) gfront ∧ (hc_lastTS c = 0 → items = []).
(** Everything set is in files. *)
Definition dumped (c : hintChunk) (gs : list (list HintItem)) : Prop :=
  ∃ gfront, gs = gfront ++ [[]] ∧ Forall (λ l, l ≠ []) gfront
    ∧ ∀ i sp items, (i < length gfront)%nat → hc_splits c !! i = Some sp → gfront !! i = Some items → settled sp items.

(** Setting items never drops a layer and leaves something in the last one. *)
Definition grown (gs gs' : list (list HintItem)) : Prop :=
  (length gs < length gs')%nat ∨ (length gs' = length gs ∧ last gs' ≠ Some []).

Lemma grown_trans gs1 gs2 gs3 : grown gs1 gs2 → grown gs2 gs3 → grown gs1 gs3.
Proof. unfold grown. intros [?|[? ?]] [?|[? ?]]; solve [left; lia|right; split; [lia|done]]. Qed.

Lemma grown_snoc gs gs' : grown gs gs' → grown gs (gs' ++ [[]]).
Proof. unfold grown. rewrite length_app. cbn [length]. intros [?|[? _]]; left; lia. Qed.

Lemma tidy_inv c gfront items : tidy c (gfront ++ [items]) → Forall (λ l, l ≠ []) gfront ∧ (hc_lastTS c = 0 → items = []).
Proof. intros (gf & its & Heq & Hne & Hts). apply app_inj_2 in Heq as [-> [= ->]]; done. Qed.

Lemma newHintChunk_tidy id : tidy (newHintChunk id) [[]].
Proof. by exists [], []. Qed.

Lemma hc_setItem_spec c gs it recSize now :
  chunk_rep c gs → hint_ok it → 0 < SplitCap Conf < 4095 * 4096 →
  ∃ rotated c' gs', hc_setItem Conf c it recSize now = Some (rotated, c') ∧ chunk_rep c' gs'
    ∧ chunk_map gs' = <[hint_key it := it]> (chunk_map gs) ∧ hc_id c' = hc_id c
    ∧ (tidy c gs → now ≠ 0 → tidy c' gs')
    ∧ (∀ P : HintItem → Prop, P it → Forall (Forall P) gs → Forall (Forall P) gs') ∧ grown gs gs'.
Proof.
  intros Hrep Hit Hcap. destruct (chunk_last c gs Hrep) as (front & b & gfront & Hs & Hg & Hf & Hok & Hfit).
  unfold hc_setItem. assert (last (hc_splits c) = Some (mkSplit (Some b) None)) as -> by (by rewrite Hs, last_snoc). cbn [mbind option_bind sp_buf].
  destruct (hb_Set_spec b it recSize Hok) as (ok & b' & -> & Hr).
  assert (take (length (hc_splits c) - 1) (hc_splits c) = front) as ->.
  { rewrite Hs, length_app. cbn [length]. apply take_app_length'. lia. }
  cbn [sp_file]. pose proof (sr_fit _ _ _ _ _ Hr Hit ltac:(lia) Hfit) as Hfit'. destruct ok.
  - eexists _, _, (gfront ++ [hb_items b']). split; [done|].
    split; [|split; [|split; [done|split; [|split]]]].
    + eapply chunk_rep_tail; [done..| | |by exists [], b'].
      * constructor; [|constructor]. apply holds_buf; [apply Hr|done].
      * by constructor.
    + destruct (sr_put _ _ _ _ _ Hr eq_refl) as [Hm _].
      by rewrite Hg, !chunk_map_snoc, Hm, insert_union_l.
    + rewrite Hg. intros [Hne _]%tidy_inv Hnow. by exists gfront, (hb_items b').
    + intros P HP. rewrite Hg, !Forall_app, !Forall_singleton. intros [? ?]. split; [done|]. by eapply set_result_Forall.
    + right. rewrite Hg, !length_app, last_snoc. split; [done|]. intros [= He].
      destruct (sr_put _ _ _ _ _ Hr eq_refl) as [Hm _]. rewrite He in Hm. by apply (insert_non_empty (hint_map (hb_items b)) (hint_key it) it).
  - destruct (hb_Set_spec NewHintBuffer it recSize NewHintBuffer_ok) as (ok & b2 & Hset & Hr2).
    rewrite Hset. cbn [mbind option_bind snd].
    destruct ok; [|destruct (sr_full _ _ _ _ _ Hr2 eq_refl) as (_ & _ & Hz); change (SplitCap Conf <= 0) in Hz; lia].
    destruct (sr_full _ _ _ _ _ Hr eq_refl) as (Hitems & Hmiss & Hfull).
    destruct (sr_put _ _ _ _ _ Hr2 eq_refl) as [Hm _].
    eexists _, _, (gfront ++ [hb_items b'; hb_items b2]). split; [done|]. split; [|split; [|split; [done|split; [|split]]]].
    + rewrite <- app_assoc. cbn [app]. eapply chunk_rep_tail; [done..| | |by exists [mkSplit (Some b') None], b2].
      * constructor; [|constructor; [|constructor]]; apply holds_buf;
          [apply Hr|done|apply Hr2|]. apply Hr2; [done|lia|]. split; [by apply Forall_nil|done|cbn; width].
      * by repeat constructor.
    + change (gfront ++ [hb_items b'; hb_items b2]) with (gfront ++ ([hb_items b'] ++ [hb_items b2])).
      rewrite app_assoc, !chunk_map_snoc, Hm, Hitems, Hg, chunk_map_snoc.
      change (hint_map (hb_items NewHintBuffer)) with (∅ : gmap (Z * bytes) HintItem).
      by rewrite <- insert_union_l, map_empty_union.
    + rewrite Hg. intros [Hne _]%tidy_inv Hnow. exists (gfront ++ [hb_items b']), (hb_items b2).
      split; [by rewrite <- app_assoc|]. split; [|done]. apply Forall_app. split; [done|]. apply Forall_cons. split; [|done].
      rewrite Hitems. intros He. rewrite He in Hfull. change (zlen []) with 0 in Hfull. lia.
    + intros P HP. rewrite Hg, !Forall_app, Forall_singleton, !Forall_cons. intros [? ?]. split; [done|]. split; [by rewrite Hitems|].
      split; [|done]. eapply set_result_Forall; [exact Hr2|done|apply NewHintBuffer_ok|by apply Forall_nil].
    + left. rewrite Hg, !length_app. cbn [length]. lia.
Qed.

Lemma chunk_rep_rotate c gs : chunk_rep c gs → chunk_rep (rotate c) (gs ++ [[]]).
Proof.
  intros Hrep. destruct (chunk_last c gs Hrep) as (front & b & gfront & Hs & Hg & Hf & Hok & Hfit).
  unfold rotate. rewrite Hs, Hg, <- !app_assoc. eapply chunk_rep_tail; [done..| | |].
  - constructor; [by constructor|]. constructor; [|constructor]. apply (holds_buf NewHintBuffer);
      [apply NewHintBuffer_ok|]. split; [by apply Forall_nil|done|cbn; width].
  - by repeat constructor.
  - by exists [mkSplit (Some b) None], NewHintBuffer.
Qed.

(** ** Dumping splits *)

Lemma split_dump sp items :
  split_holds sp items →
  (needDump sp = Some true ∧ ∃ b idx, sp_buf sp = Some b ∧ hb_Dump Conf b = Some idx
     ∧ split_holds (mkSplit None (Some idx)) items)
  ∨ (needDump sp = Some false ∧ settled sp items).
Proof.
  intros [b Hok Hfit|idx its Hf]; [|right; split; [done|by left]]. cbn [needDump sp_file sp_buf mbind option_bind].
  destruct (Z.ltb_spec 0 (zlen (hb_items b))) as [Hpos|Hz].
  - left. destruct (hb_Dump_spec b Hok Hfit) as (idx & Hd & Hfh & _). split; [done|]. exists b, idx.
    split; [done|]. split; [done|]. by constructor.
  - right. split; [done|]. right. destruct (hb_items b); [done|]. unfold zlen in Hz. cbn [length] in Hz. lia.
Qed.

(** The part of the manager that dumping leaves alone. *)
Definition same_mgr (h h' : hintMgr) : Prop :=
  hm_maxChunkID h' = hm_maxChunkID h ∧ hm_merged h' = hm_merged h ∧ hm_collisions h' = hm_collisions h
  ∧ hm_mergeChan h' = hm_mergeChan h ∧ hm_state h' = hm_state h
  ∧ hm_maxDumpableChunkID h' = hm_maxDumpableChunkID h.

Instance same_mgr_preorder : PreOrder same_mgr.
Proof. split; [done|]. intros a b c (?&?&?&?&?&?) (?&?&?&?&?&?). repeat split; congruence. Qed.

Lemma zset_lookup {A} (l : list A) (i : Z) (x y : A) :
  zget l i = Some y → zset l i x = Some (<[Z.to_nat i := x]> l).
Proof.
  intros Hg. pose proof (zget_Some_lt _ _ _ Hg). unfold zset.
  destruct (Z.leb_spec 0 i), (Z.ltb_spec i (zlen l)); cbn; (done || lia).
Qed.

Lemma zget_insert {A} (l : list A) (i : Z) (x y : A) :
  zget l i = Some y → zget (<[Z.to_nat i := x]> l) i = Some x.
Proof.
  intros Hg. pose proof (zget_Some_lt _ _ _ Hg) as Hlt. unfold zget, zlen in *.
  destruct (Z.ltb_spec i 0); [lia|]. apply list_lookup_insert_eq. lia.
Qed.

Lemma hm_dump_spec h chunkID (j : nat) ck gs b :
  zget (hm_chunks h) chunkID = Some ck →
  Forall2 split_holds (hc_splits ck) gs →
  hc_splits ck !! j = Some (mkSplit (Some b) None) →
  ∃ h' idx, hm_dump Conf h chunkID (Z.of_nat j) = Some h' ∧ same_mgr h h'
    ∧ hm_chunks h' = <[Z.to_nat chunkID := mkHintChunk (hc_id ck)
         (<[j := mkSplit None (Some idx)]> (hc_splits ck)) (hc_lastTS ck)]> (hm_chunks h)
    ∧ Forall2 split_holds (<[j := mkSplit None (Some idx)]> (hc_splits ck)) gs.
Proof.
  intros Hck Hh Hj. destruct (Forall2_lookup_l _ _ _ _ _ Hh Hj) as (items & Hg & Hsp).
  inversion Hsp as [b' Hok Hfit Hb Hi|]; subst b' items.
  destruct (hb_Dump_spec b Hok Hfit) as (idx & Hd & Hfh & _).
  unfold hm_dump. rewrite Hck. cbn [mbind option_bind]. rewrite zget_nat, Hj. cbn [mbind option_bind sp_buf].
  rewrite Hd. cbn [mbind option_bind].
  rewrite (zset_lookup _ _ _ (mkSplit (Some b) None)) by (by rewrite zget_nat). cbn [mbind option_bind].
  rewrite (zset_lookup _ _ _ ck) by done. cbn [mbind option_bind]. rewrite Nat2Z.id.
  eexists _, idx. split; [done|]. split; [by repeat split|]. split; [done|].
  rewrite <- (list_insert_id gs j (hb_items b)) by done. apply Forall2_insert; [done|by constructor].
Qed.

Lemma dump_old_spec n : ∀ h chunkID (j : nat) ck gs,
  zget (hm_chunks h) chunkID = Some ck → Forall2 split_holds (hc_splits ck) gs →
  (j + n <= length (hc_splits ck))%nat →
  ∃ h' splits', dump_old Conf h chunkID (Z.of_nat j) n = Some h' ∧ same_mgr h h'
    ∧ hm_chunks h' = <[Z.to_nat chunkID := mkHintChunk (hc_id ck) splits' (hc_lastTS ck)]> (hm_chunks h)
    ∧ Forall2 split_holds splits' gs
    ∧ (∀ i sp items, (j <= i < j + n)%nat → splits' !! i = Some sp → gs !! i = Some items → settled sp items)
    ∧ (∀ i, ¬ (j <= i < j + n)%nat → splits' !! i = hc_splits ck !! i).
Proof.
  induction n as [|n IH]; intros h chunkID j ck gs Hck Hh Hlen.
  - exists h, (hc_splits ck). split; [done|]. split; [done|]. split.
    { symmetry. apply list_insert_id. pose proof (zget_Some_lt _ _ _ Hck). unfold zget in Hck.
      destruct (Z.ltb_spec chunkID 0); [lia|]. rewrite Hck. by destruct ck. }
    split; [done|]. split; [lia|done].
  - destruct (lookup_lt_is_Some_2 (hc_splits ck) j ltac:(lia)) as [sp Hsp].
    destruct (Forall2_lookup_l _ _ _ _ _ Hh Hsp) as (items & Hg & Hsh).
    assert (∃ h1 splits1, (if match needDump sp with Some true => true | _ => false end
        then hm_dump Conf h chunkID (Z.of_nat j) else Some h) = Some h1 ∧ same_mgr h h1
      ∧ hm_chunks h1 = <[Z.to_nat chunkID := mkHintChunk (hc_id ck) splits1 (hc_lastTS ck)]> (hm_chunks h)
      ∧ Forall2 split_holds splits1 gs ∧ (∃ sp1, splits1 !! j = Some sp1 ∧ settled sp1 items)
      ∧ (∀ i, i ≠ j → splits1 !! i = hc_splits ck !! i) ∧ length splits1 = length (hc_splits ck)
      ∧ is_Some (needDump sp)) as (h1 & splits1 & Hst & Hsame & Hch & Hh1 & (sp1 & Hsp1 & Hset) & Hoth & Hl1 & [nd Hnd]).
    { destruct (split_dump sp items Hsh) as [(-> & b & idx & Hb & Hd & _)|[-> Hset]].
      - inversion Hsh as [b' Hok Hfit He1 He2|]; subst sp; [|done]. 
        destruct (hm_dump_spec h chunkID j ck gs b' Hck Hh Hsp) as (h1 & idx1 & -> & Hsm & Hch & Hh1).
        eexists h1, _. split; [done|]. split; [done|]. split; [done|]. split; [done|].
        split; [|split; [|split; [by rewrite length_insert|done]]].
        + eexists. split; [apply list_lookup_insert_eq; lia|by left].
        + intros i Hi. by apply list_lookup_insert_ne.
      - exists h, (hc_splits ck). split; [done|]. split; [done|]. split.
        { symmetry. apply list_insert_id. pose proof (zget_Some_lt _ _ _ Hck). unfold zget in Hck.
          destruct (Z.ltb_spec chunkID 0); [lia|]. rewrite Hck. by destruct ck. }
        split; [done|]. split; [by eexists|done]. }
    destruct (IH h1 chunkID (S j) (mkHintChunk (hc_id ck) splits1 (hc_lastTS ck)) gs)
      as (h' & splits' & Hd & Hsame' & Hch' & Hh' & Hset' & Hoth').
    { rewrite Hch. by eapply zget_insert. }
    { done. }
    { cbn [hc_splits]. lia. }
    exists h', splits'. split.
    { cbn [dump_old]. rewrite Hck. cbn [mbind option_bind]. rewrite zget_nat, Hsp. cbn [mbind option_bind].
      rewrite Hnd in Hst |- *. cbn [mbind option_bind].
      assert ((if nd then hm_dump Conf h chunkID (Z.of_nat j) else Some h) = Some h1) as -> by (by destruct nd).
      cbn [mbind option_bind]. replace (Z.of_nat j + 1) with (Z.of_nat (S j)) by lia. done. }
    split; [by etrans|]. split.
    { rewrite Hch', Hch. cbn [hc_id hc_lastTS]. by rewrite list_insert_insert_eq. }
    split; [done|]. cbn [hc_splits] in Hoth'. split.
    + intros i sp' its Hi Hspi Hgi. destruct (decide (i = j)) as [->|Hne].
      * rewrite Hoth', Hsp1 in Hspi by lia. rewrite Hg in Hgi. by simplify_eq.
      * apply (Hset' i); [lia|done..].
    + intros i Hi. rewrite Hoth' by lia. apply Hoth. lia.
Qed.

Lemma trydump_spec h chunkID dumplast now ck gs :
  zget (hm_chunks h) chunkID = Some ck → chunk_rep ck gs →
  ∃ s h' ck' gs', trydump Conf h chunkID dumplast now = Some (s, h') ∧ same_mgr h h'
    ∧ hm_chunks h' = <[Z.to_nat chunkID := ck']> (hm_chunks h) ∧ chunk_rep ck' gs'
    ∧ chunk_map gs' = chunk_map gs ∧ hc_id ck' = hc_id ck
    ∧ (tidy ck gs → tidy ck' gs' ∧ (dumplast = true ∨ last gs = Some [] → dumped ck' gs')) ∧ (gs' = gs ∨ gs' = gs ++ [[]]).
Proof.
  intros Hck Hrep. destruct (chunk_last ck gs Hrep) as (front & b & gfront & Hs & Hg & _).
  set (l := length (hc_splits ck)) in *. assert (l = S (length front)) as Hl.
  { unfold l. rewrite Hs, length_app. cbn. lia. }
  pose proof (Forall2_length _ _ _ (cr_holds _ _ Hrep)) as Hlg. fold l in Hlg.
  destruct (dump_old_spec (length front) h chunkID 0 ck gs Hck (cr_holds _ _ Hrep))
    as (h1 & splits1 & Hd & Hsame & Hch & Hh1 & Hset & Hoth); [fold l; lia|].
  pose proof (Forall2_length _ _ _ Hh1) as Hl1.
  assert (splits1 !! length front = Some (mkSplit (Some b) None)) as Hlast.
  { rewrite Hoth by lia. rewrite Hs. by apply list_lookup_middle. }
  assert (∃ f, splits1 = f ++ [mkSplit (Some b) None] ∧ length f = length front) as (f & Hf & Hlf).
  { exists (take (length front) splits1). split; [|rewrite length_take; lia].
    rewrite <- (take_drop_middle _ _ _ Hlast) at 1. do 2 f_equal. rewrite drop_ge by lia. done. }
  set (ck1 := mkHintChunk (hc_id ck) splits1 (hc_lastTS ck)) in *.
  assert (chunk_rep ck1 gs) as Hrep1.
  { split; [done| |by eexists f, b]. cbn [hc_splits ck1]. intros i j sp sp' items Hij Hj Hn Hi Hgi.
    pose proof (lookup_lt_Some _ _ _ Hj). destruct (decide (j = length front)) as [->|]; [rewrite Hlast in Hj; by simplify_eq|].
    apply (Hset i); [lia|done..]. }
  assert (zget (hm_chunks h1) chunkID = Some ck1) as Hck1 by (rewrite Hch; by eapply zget_insert).
  assert (∀ s : Z, (dumplast = true → tidy ck gs → hb_items b = []) →
    ∃ s' h' ck' gs', Some (s, h1) = Some (s', h') ∧ same_mgr h h'
    ∧ hm_chunks h' = <[Z.to_nat chunkID := ck']> (hm_chunks h) ∧ chunk_rep ck' gs'
    ∧ chunk_map gs' = chunk_map gs ∧ hc_id ck' = hc_id ck
    ∧ (tidy ck gs → tidy ck' gs' ∧ (dumplast = true ∨ last gs = Some [] → dumped ck' gs')) ∧ (gs' = gs ∨ gs' = gs ++ [[]])) as Hstay.
  { intros s Hlst. exists s, h1, ck1, gs. split_and!; try done; [|by left]. intros Ht. split; [exact Ht|]. intros Hdl.
    assert (hb_items b = []) as Hb0.
    { destruct Hdl as [Hdl|Hl0]; [by apply Hlst|]. rewrite Hg, last_snoc in Hl0. by injection Hl0. }
    rewrite Hg in Ht |- *. apply tidy_inv in Ht as [Hne Hts]. exists gfront. rewrite Hb0.
    split; [done|]. split; [done|]. intros i sp items Hi Hspi Hgi. apply (Hset i); [|done|by rewrite Hg, lookup_app_l by done].
    rewrite Hg, length_app in Hlg. cbn [length] in Hlg. lia. }
  unfold trydump. rewrite Hck. cbn [mbind option_bind].
  replace (Z.to_nat (zlen (hc_splits ck) - 1)) with (length front) by (unfold zlen; fold l; lia).
  change (Z.of_nat 0) with 0 in Hd. rewrite Hd. cbn [mbind option_bind]. rewrite Hck1. cbn [mbind option_bind].
  destruct (negb dumplast && _) eqn:Hnl; [apply Hstay; intros ->; done|].
  destruct (Z.eqb_spec (hc_lastTS ck1) 0) as [Hts|Hts]; [apply Hstay; rewrite Hg; intros _ [_ Hi]%tidy_inv; by apply Hi|].
  destruct (dumplast || _) eqn:Hdl; [|apply Hstay; intros ->; done].
  replace (Z.max 0 (zlen (hc_splits ck) - 1)) with (Z.of_nat (length front)) by (unfold zlen; fold l; lia).
  rewrite zget_nat. cbn [ck1 hc_splits]. rewrite Hlast. cbn [mbind option_bind].
  destruct (Forall2_lookup_l _ _ _ _ _ Hh1 Hlast) as (items & Hgi & Hsp).
  assert (items = hb_items b) as -> by (by inversion Hsp).
  destruct (split_dump _ _ Hsp) as [(Hnd & _)|[-> Hstl]]; cbn [mbind option_bind];
    [|apply Hstay; intros _ _; by destruct Hstl].
  assert (hb_items b ≠ []) as Hnb by (intros He; cbn in Hnd; by rewrite He in Hnd). rewrite Hnd. cbn [mbind option_bind].
  rewrite (zset_lookup _ _ _ ck1) by done. cbn [mbind option_bind rotate hc_id hc_splits ck1].
  set (ck2 := mkHintChunk (hc_id ck) (splits1 ++ [newhintSplit]) 0).
  set (h2 := hm_with_chunks h1 _).
  assert (zget (hm_chunks h2) chunkID = Some ck2) as Hck2 by (by eapply zget_insert).
  assert (Forall2 split_holds (hc_splits ck2) (gs ++ [[]])) as Hh2.
  { apply Forall2_app; [done|]. constructor; [|constructor]. apply (holds_buf NewHintBuffer);
      [apply NewHintBuffer_ok|]. split; [by apply Forall_nil|done|cbn; width]. }
  destruct (hm_dump_spec h2 chunkID (length front) ck2 _ b Hck2 Hh2) as (h3 & idx & -> & Hsame3 & Hch3 & Hh3).
  { cbn [hc_splits ck2]. rewrite lookup_app_l by (apply lookup_lt_Some in Hlast; lia). done. }
  cbn [mbind option_bind]. eexists 0, h3, _, (gs ++ [[]]). split; [done|].
  split; [etrans; [exact Hsame|]; etrans; [|exact Hsame3]; by repeat split|].
  split; [rewrite Hch3; unfold h2; cbn [hm_with_chunks hm_with hm_chunks]; rewrite Hch, !list_insert_insert_eq; done|].
  split; [|split; [|split; [done|split; [|by right]]]].
  - split; cbn [hc_splits]; [done| |].
    + intros i j sp sp' its Hij Hj Hn Hi Hgs.
      pose proof (lookup_lt_Some _ _ _ Hj) as Hlt. rewrite length_insert in Hlt. cbn [ck2 hc_splits] in *.
      rewrite length_app in Hlt. cbn [length] in Hlt.
      destruct (decide (j = S (length front))) as [->|Hne].
      { rewrite list_lookup_insert_ne in Hj by lia. rewrite lookup_app_r in Hj by lia.
        replace (S (length front) - length splits1)%nat with 0%nat in Hj by lia. cbn in Hj. by simplify_eq. }
      rewrite list_lookup_insert_ne, lookup_app_l in Hi by lia. rewrite lookup_app_l in Hgs by lia.
      apply (Hset i); [lia|done..].
    + exists (<[length front := mkSplit None (Some idx)]> splits1), NewHintBuffer. cbn [ck2 hc_splits].
      by rewrite insert_app_l by lia.
  - rewrite chunk_map_snoc. change (hint_map []) with (∅ : gmap (Z * bytes) HintItem). apply map_empty_union.
  - intros Ht. rewrite Hg in Ht. apply tidy_inv in Ht as [Hnf _].
    assert (Forall (λ l, l ≠ []) gs) as Hngs by (rewrite Hg; apply Forall_app; split; [done|by apply Forall_cons]).
    split; [by exists gs, []|]. intros _. exists gs. split; [done|]. split; [done|].
    intros i sp its Hi Hspi Hgi2. cbn [hc_splits ck2] in Hspi. destruct (decide (i = length front)) as [->|Hni].
    + rewrite list_lookup_insert_eq in Hspi by (rewrite length_app; cbn; lia). simplify_eq. by left.
    + rewrite list_lookup_insert_ne, lookup_app_l in Hspi by lia. apply (Hset i); [lia|done..].
Qed.

End Spec.
