(* ===== verification/HintProps.v ===== *)
(** * Properties of the hint manager and the collision table *)

From stdpp Require Import gmap sorting.
From S2P Require Import Prelude Config Cmem Key Item Fixtures DataFile Data DataSpec HintFile Hint HintSpec.

Section Props.
Context (Conf : HStoreConfig).

(** ** One buffer *)

(** A run of [Set]s with their results. *)
Fixpoint run_sets (h : HintBuffer) (sets : list (HintItem * Z)) : option (list bool * HintBuffer) :=
  match sets with
  | [] => Some ([], h)
  | (it, recSize) :: sets =>
      match hb_Set Conf h it recSize with
      | None => None
      | Some (b, h) => match run_sets h sets with Some (bs, h) => Some (b :: bs, h) | None => None end
      end
  end.

(** A map of bounded size: a new key is refused when it is full. *)
Fixpoint abs_sets (m : gmap (Z * bytes) HintItem) (sets : list (HintItem * Z))
    : list bool * gmap (Z * bytes) HintItem :=
  match sets with
  | [] => ([], m)
  | (it, _) :: sets =>
      let ok := bool_decide (is_Some (m !! hint_key it)) || (Z.of_nat (size m) <? SplitCap Conf) in
      let '(bs, m) := abs_sets (if ok then <[hint_key it := it]> m else m) sets in
      (ok :: bs, m)
  end.

Lemma size_hint_map items : NoDup (hint_key <$> items) → size (hint_map items) = length items.
Proof.
  intros Hnd. unfold hint_map. rewrite map_size_list_to_map; [by rewrite length_fmap|].
  by rewrite <- list_fmap_compose.
Qed.

Lemma run_sets_spec sets : ∀ h,
  buf_ok Conf h → ∃ h', run_sets h sets = Some (fst (abs_sets (hint_map (hb_items h)) sets), h')
    ∧ buf_ok Conf h' ∧ hint_map (hb_items h') = snd (abs_sets (hint_map (hb_items h)) sets).
Proof.
  induction sets as [|[it recSize] sets IH]; intros h Hok; [by exists h|].
  destruct (hb_Set_spec Conf h it recSize Hok) as (b & h1 & Hs & Hr).
  pose proof (size_hint_map _ (ko_nodup _ _ _ (bo_keys _ _ Hok))) as Hsz.
  cbn [run_sets abs_sets]. rewrite Hs.
  assert (bool_decide (is_Some (hint_map (hb_items h) !! hint_key it))
    || (Z.of_nat (size (hint_map (hb_items h))) <? SplitCap Conf) = b) as ->.
  { destruct b.
    - destruct (sr_room _ _ _ _ _ _ Hr eq_refl) as [?|Hlt]; [by rewrite bool_decide_eq_true_2|].
      rewrite Hsz. apply orb_true_intro. right. by apply Z.ltb_lt.
    - destruct (sr_full _ _ _ _ _ _ Hr eq_refl) as (_ & Hn & Hge). rewrite Hn, bool_decide_eq_false_2 by (by intros []).
      rewrite Hsz. by apply Z.ltb_ge. }
  destruct (IH h1 (sr_ok _ _ _ _ _ _ Hr)) as (h' & -> & Hok' & Hm').
  assert (hint_map (hb_items h1) = if b then <[hint_key it := it]> (hint_map (hb_items h)) else hint_map (hb_items h)) as <-.
  { destruct b; [apply (sr_put _ _ _ _ _ _ Hr eq_refl)|]. by destruct (sr_full _ _ _ _ _ _ Hr eq_refl) as (-> & _). }
  destruct (abs_sets (hint_map (hb_items h1)) sets) as [bs m]. cbn in *. by exists h'.
Qed.

(** C33. A hint buffer is a finite map from (key hash, key) to items of at most
    [SplitCap] entries: over any run of [Set]s from an empty buffer, a [Set] is
    refused exactly when the key is new and the buffer full, nothing panics, and
    [Get] returns the item last set for the key, keys that share a hash kept
    apart; [iscollision] is only reported when another key of the hash is there. *)
Theorem hint_buffer_refines_map sets kh key :
  ∃ h coll, run_sets NewHintBuffer sets = Some (fst (abs_sets ∅ sets), h)
    ∧ hb_Get h kh key = Some (snd (abs_sets ∅ sets) !! (kh, key), coll)
    ∧ (coll = true → ∃ key' it, snd (abs_sets ∅ sets) !! (kh, key') = Some it ∧ key' ≠ key).
Proof.
  destruct (run_sets_spec sets NewHintBuffer (NewHintBuffer_ok Conf)) as (h & Hrun & Hok & Hm).
  change (hint_map (hb_items NewHintBuffer)) with (∅ : gmap (Z * bytes) HintItem) in *.
  destruct (hb_Get_spec Conf h kh key Hok) as (coll & Hget & Hcoll). exists h, coll.
  rewrite <- Hm. split; [done|]. split; [done|]. intros Hc. destruct (Hcoll Hc) as (it & Hin & Hkh & Hk).
  exists (hi_Key it), it. split; [|done].
  apply hint_map_lookup; [apply (ko_nodup _ _ _ (bo_keys _ _ Hok))|]. split; [done|]. by rewrite <- Hkh.
Qed.

(** ** The manager *)

Inductive hint_event :=
  | HSetItem (it : HintItem) (chunkID recSize now : Z)
  | HTryDump (chunkID : Z) (dumplast : bool) (now : Z)
  | HRotate.

Definition hint_step (h : hintMgr) (e : hint_event) : option hintMgr :=
  match e with
  | HSetItem it chunkID recSize now => snd <$> hm_setItem Conf h it chunkID recSize now
  | HTryDump chunkID dumplast now => snd <$> trydump Conf h chunkID dumplast now
  | HRotate => forceRotateSplit h
  end.
Definition hint_run (h : hintMgr) (es : list hint_event) : option hintMgr :=
  foldl (λ h e, h ← h; hint_step h e) (Some h) es.

Definition hint_event_ok (e : hint_event) : Prop :=
  match e with
  | HSetItem it chunkID _ _ => hint_ok it ∧ 0 <= chunkID < MAX_NUM_CHUNK
  | HTryDump chunkID _ _ => 0 <= chunkID < MAX_NUM_CHUNK
  | HRotate => True
  end.

(** What a history stores: for each chunk the items last set in it, and the
    largest chunk written. *)
Definition abs_hints : Type := gmap Z (gmap (Z * bytes) HintItem) * Z.
Definition abs_hint (a : abs_hints) (e : hint_event) : abs_hints :=
  match e with
  | HSetItem it chunkID _ _ =>
      (<[chunkID := <[hint_key it := it]> (default ∅ (fst a !! chunkID))]> (fst a), Z.max (snd a) chunkID)
  | _ => a
  end.
Definition abs_hint_run (es : list hint_event) : abs_hints := foldl abs_hint (∅, 0) es.

(** The newest chunk, from [n - 1] down, that has the key. *)
Fixpoint newest (a : gmap Z (gmap (Z * bytes) HintItem)) (n : nat) (k : Z * bytes) : option HintItem * Z :=
  match n with
  | O => (None, 0)
  | S n =>
      match default ∅ (a !! Z.of_nat n) !! k with
      | Some it => (Some it, Z.of_nat n)
      | None => newest a n k
      end
  end.

(** The layers of every chunk of a manager. *)
Record mgr_rep (h : hintMgr) (G : list (list (list HintItem))) (a : abs_hints) : Prop := {
  mr_chunks : Forall2 (chunk_rep Conf) (hm_chunks h) G;
  mr_len : zlen G = MAX_NUM_CHUNK;
  mr_map i gs : G !! i = Some gs → default ∅ (fst a !! Z.of_nat i) = chunk_map gs;
  mr_max : hm_maxChunkID h = snd a;
  mr_range : 0 <= snd a < MAX_NUM_CHUNK;
  mr_merged : hm_merged h = None
}.

(** Lookups of absent keys stay inside every dumped file. *)
Definition mgr_safe (h : hintMgr) (kh : Z) : bool := forallb (λ c, chunk_safe c kh) (hm_chunks h).

Lemma newHintMgr_rep mergeChan disk mdisk :
  mgr_rep (newHintMgr mergeChan disk mdisk) (replicate (Z.to_nat MAX_NUM_CHUNK) [[]]) (∅, 0).
Proof.
  split; cbn [newHintMgr hm_chunks hm_maxChunkID hm_merged fst snd]; try done.
  - apply Forall2_same_length_lookup_2; [by rewrite length_fmap, length_seqZ, length_replicate|].
    intros i c gs Hc Hg. apply lookup_replicate in Hg as [-> _]. rewrite list_lookup_fmap in Hc.
    destruct (seqZ 0 MAX_NUM_CHUNK !! i) as [id|]; cbn in Hc; simplify_eq. apply newHintChunk_rep.
  - intros i gs Hg. apply lookup_replicate in Hg as [-> _]. done.
Qed.

(** Replacing one chunk by one that represents other layers. *)
Lemma mgr_rep_upd h G a h' i c' gs' m :
  mgr_rep h G a → (i < length G)%nat → hm_chunks h' = <[i := c']> (hm_chunks h) → chunk_rep Conf c' gs' →
  default ∅ (m !! Z.of_nat i) = chunk_map gs' → (∀ j, j ≠ Z.of_nat i → m !! j = fst a !! j) →
  hm_merged h' = hm_merged h → 0 <= hm_maxChunkID h' < MAX_NUM_CHUNK →
  mgr_rep h' (<[i := gs']> G) (m, hm_maxChunkID h').
Proof.
  intros [Hc Hl Hm Hx Hr Hn] Hi Hch Hrep Hmi Hmo Hmg Hmax. split; cbn [fst snd]; try done.
  - rewrite Hch. by apply Forall2_insert.
  - unfold zlen in *. by rewrite length_insert.
  - intros j gs Hj. destruct (decide (j = i)) as [->|Hne].
    + rewrite list_lookup_insert_eq in Hj by done. by simplify_eq.
    + rewrite list_lookup_insert_ne in Hj by done. rewrite Hmo by lia. by apply Hm.
  - by rewrite Hmg.
Qed.

Lemma mgr_chunk h G a chunkID :
  mgr_rep h G a → 0 <= chunkID < MAX_NUM_CHUNK →
  ∃ c gs, zget (hm_chunks h) chunkID = Some c ∧ G !! Z.to_nat chunkID = Some gs ∧ chunk_rep Conf c gs
    ∧ (Z.to_nat chunkID < length G)%nat ∧ default ∅ (fst a !! chunkID) = chunk_map gs.
Proof.
  intros Hrep Hid. pose proof (mr_len _ _ _ Hrep) as Hl. unfold zlen in Hl.
  destruct (lookup_lt_is_Some_2 G (Z.to_nat chunkID)) as [gs Hg]; [lia|].
  destruct (Forall2_lookup_r _ _ _ _ _ (mr_chunks _ _ _ Hrep) Hg) as (c & Hc & Hcr).
  exists c, gs. unfold zget. destruct (Z.ltb_spec chunkID 0); [lia|]. split; [done|]. split; [done|].
  split; [done|]. split; [lia|]. rewrite <- (mr_map _ _ _ Hrep _ _ Hg). by rewrite Z2Nat.id by lia.
Qed.

(** Setting an item in a chunk, with the dump it may start. *)
Lemma hm_setItem_spec h G a it chunkID recSize now c gs :
  0 < SplitCap Conf < 4095 * 4096 → mgr_rep h G a → hint_ok it → 0 <= chunkID < MAX_NUM_CHUNK →
  zget (hm_chunks h) chunkID = Some c → G !! Z.to_nat chunkID = Some gs →
  ∃ rot h' c' gs', hm_setItem Conf h it chunkID recSize now = Some (rot, h')
    ∧ mgr_rep h' (<[Z.to_nat chunkID := gs']> G) (abs_hint a (HSetItem it chunkID recSize now))
    ∧ hm_chunks h' = <[Z.to_nat chunkID := c']> (hm_chunks h) ∧ hm_collisions h' = hm_collisions h
    ∧ (tidy c gs → now ≠ 0 → tidy c' gs')
    ∧ (∀ P : HintItem → Prop, P it → Forall (Forall P) gs → Forall (Forall P) gs') ∧ grown gs gs'.
Proof.
  intros Hcap Hrep Hit Hid Hc Hg. pose proof (mr_max _ _ _ Hrep) as Hmax. pose proof (mr_range _ _ _ Hrep) as Hrange.
  destruct (mgr_chunk h G a chunkID Hrep Hid) as (c0 & gs0 & Hc0 & Hg0 & Hcr & Hlt & Hdm).
  rewrite Hc in Hc0. rewrite Hg in Hg0. simplify_eq.
  destruct (hc_setItem_spec Conf c0 gs0 it recSize now Hcr Hit Hcap) as (rot & c1 & gs1 & Hset & Hcr1 & Hm1 & _ & Ht1 & HP1 & Hgr1).
  unfold hm_setItem. rewrite Hc. cbn [mbind option_bind]. rewrite Hset.
  rewrite (zset_lookup _ _ _ c0) by done. cbn [mbind option_bind].
  set (h1 := hm_with_chunks h _).
  assert (∃ h2 c2 gs2, (if rot && negb (hm_mergeChan h1 && (hm_maxChunkID h1 <=? chunkID))
      then res ← trydump Conf h1 chunkID false now; Some (snd res) else Some h1) = Some h2
    ∧ same_mgr h1 h2 ∧ hm_chunks h2 = <[Z.to_nat chunkID := c2]> (hm_chunks h) ∧ chunk_rep Conf c2 gs2
    ∧ chunk_map gs2 = chunk_map gs1 ∧ (tidy c1 gs1 → tidy c2 gs2) ∧ (gs2 = gs1 ∨ gs2 = gs1 ++ [[]]))
    as (h2 & c2 & gs2 & -> & Hsame & Hch2 & Hcr2 & Hm2 & Ht2 & Hgs2).
  { destruct (rot && _); [|by exists h1, c1, gs1; split_and!; try done; left].
    destruct (trydump_spec Conf h1 chunkID false now c1 gs1) as (s & h2 & c2 & gs2 & -> & Hs & Hch & Hcr2 & Hm2 & _ & Ht2 & Hgs2);
      [by eapply zget_insert|done|]. exists h2, c2, gs2. split; [done|]. split; [done|]. split; [|split; [done|split; [done|split; [|done]]]].
    - rewrite Hch. cbn [h1 hm_with_chunks hm_with hm_chunks]. by rewrite list_insert_insert_eq.
    - intros Ht. by apply Ht2. }
  cbn [mbind option_bind fmap option_fmap option_map snd]. destruct Hsame as (Hmx & Hmg & Hcl & _).
  set (h3 := if hm_maxChunkID h2 <? chunkID then hm_with_max h2 chunkID else h2).
  assert (hm_chunks h3 = hm_chunks h2 ∧ hm_merged h3 = hm_merged h2
    ∧ hm_maxChunkID h3 = Z.max (hm_maxChunkID h2) chunkID ∧ hm_collisions h3 = hm_collisions h2)
    as (H3a & H3b & H3c & H3d).
  { unfold h3. destruct (Z.ltb_spec (hm_maxChunkID h2) chunkID); cbn; repeat split; lia. }
  exists rot, h3, c2, gs2. split; [done|]. split; [|split; [by rewrite H3a|split; [by rewrite H3d, Hcl|split; [auto|split]]]].
  3:{ destruct Hgs2 as [->| ->]; [done|by apply grown_snoc]. }
  2:{ intros P HP HPs. apply (HP1 P HP) in HPs. destruct Hgs2 as [->| ->]; [done|]. apply Forall_app. by repeat constructor. }
  cbn [abs_hint]. replace (Z.max (snd a) chunkID) with (hm_maxChunkID h3) by (rewrite H3c, Hmx, <- Hmax; done).
  apply (mgr_rep_upd h G a h3 (Z.to_nat chunkID) c2 gs2); try done.
  - by rewrite H3a.
  - rewrite Z2Nat.id, lookup_insert_eq by lia. cbn [default]. by rewrite Hm2, Hm1, Hdm.
  - intros j Hj. apply lookup_insert_ne. lia.
  - by rewrite H3b, Hmg.
  - rewrite H3c, Hmx. cbn [h1 hm_with_chunks hm_with hm_maxChunkID]. lia.
Qed.

Lemma hm_trydump_spec h G a chunkID dumplast now c gs :
  mgr_rep h G a → 0 <= chunkID < MAX_NUM_CHUNK →
  zget (hm_chunks h) chunkID = Some c → G !! Z.to_nat chunkID = Some gs →
  ∃ s h' c' gs', trydump Conf h chunkID dumplast now = Some (s, h') ∧ mgr_rep h' (<[Z.to_nat chunkID := gs']> G) a
    ∧ hm_chunks h' = <[Z.to_nat chunkID := c']> (hm_chunks h) ∧ hm_collisions h' = hm_collisions h
    ∧ (tidy c gs → tidy c' gs' ∧ (dumplast = true ∨ last gs = Some [] → dumped c' gs')) ∧ (gs' = gs ∨ gs' = gs ++ [[]]).
Proof.
  intros Hrep He Hc Hg. pose proof (mr_max _ _ _ Hrep) as Hmax. pose proof (mr_range _ _ _ Hrep) as Hrange.
  destruct (mgr_chunk h G a chunkID Hrep He) as (c0 & gs0 & Hc0 & Hg0 & Hcr & Hlt & Hdm).
  rewrite Hc in Hc0. rewrite Hg in Hg0. simplify_eq.
  destruct (trydump_spec Conf h chunkID dumplast now c0 gs0 Hc Hcr)
    as (s & h2 & c2 & gs2 & -> & (Hmx & Hmg & Hcl & _) & Hch & Hcr2 & Hm2 & _ & Ht).
  exists s, h2, c2, gs2. split; [done|]. split; [|done].
  rewrite (surjective_pairing a), <- Hmax, <- Hmx.
  apply (mgr_rep_upd h G a h2 (Z.to_nat chunkID) c2 gs2); try done.
  - rewrite Z2Nat.id by lia. by rewrite Hm2.
  - rewrite Hmx. lia.
Qed.

Lemma hint_step_spec h G a e :
  0 < SplitCap Conf < 4095 * 4096 → mgr_rep h G a → hint_event_ok e →
  ∃ h' G', hint_step h e = Some h' ∧ mgr_rep h' G' (abs_hint a e) ∧ hm_collisions h' = hm_collisions h.
Proof.
  intros Hcap Hrep He. pose proof (mr_max _ _ _ Hrep) as Hmax. pose proof (mr_range _ _ _ Hrep) as Hrange.
  destruct e as [it chunkID recSize now|chunkID dumplast now|]; cbn [hint_step].
  - destruct He as [Hit Hid]. destruct (mgr_chunk h G a chunkID Hrep Hid) as (c & gs & Hc & Hg & _).
    destruct (hm_setItem_spec h G a it chunkID recSize now c gs Hcap Hrep Hit Hid Hc Hg)
      as (rot & h' & c' & gs' & -> & Hrep' & _ & Hcl & _). by eexists h', _.
  - change (0 <= chunkID < MAX_NUM_CHUNK) in He. destruct (mgr_chunk h G a chunkID Hrep He) as (c & gs & Hc & Hg & _).
    destruct (hm_trydump_spec h G a chunkID dumplast now c gs Hrep He Hc Hg)
      as (s & h' & c' & gs' & -> & Hrep' & _ & Hcl & _). by eexists h', _.
  - cbn [abs_hint]. destruct (mgr_chunk h G a (hm_maxChunkID h) Hrep ltac:(lia)) as (c & gs & Hc & Hg & Hcr & Hlt & Hdm).
    unfold forceRotateSplit. rewrite Hc. cbn [mbind option_bind]. rewrite (zset_lookup _ _ _ c) by done.
    cbn [mbind option_bind]. set (h' := hm_with_chunks h _).
    exists h', (<[Z.to_nat (hm_maxChunkID h) := gs ++ [[]]]> G). split; [done|]. split; [|done].
    rewrite (surjective_pairing a), <- Hmax. change (hm_maxChunkID h) with (hm_maxChunkID h') at 2.
    apply (mgr_rep_upd h G a h' (Z.to_nat (hm_maxChunkID h)) (rotate c)); try done.
    + by apply chunk_rep_rotate.
    + rewrite Z2Nat.id by lia. rewrite Hdm, chunk_map_snoc.
      change (hint_map []) with (∅ : gmap (Z * bytes) HintItem). by rewrite map_empty_union.
    + change (hm_maxChunkID h') with (hm_maxChunkID h). lia.
Qed.

Lemma hint_run_spec es : ∀ h G a,
  0 < SplitCap Conf < 4095 * 4096 → mgr_rep h G a → Forall hint_event_ok es →
  ∃ h' G', hint_run h es = Some h' ∧ mgr_rep h' G' (foldl abs_hint a es).
Proof.
  induction es as [|e es IH]; intros h G a Hcap Hrep Hok; [by exists h, G|].
  apply Forall_cons in Hok as [He Hok]. destruct (hint_step_spec h G a e Hcap Hrep He) as (h1 & G1 & Hs & Hrep1 & _).
  destruct (IH h1 G1 _ Hcap Hrep1 Hok) as (h' & G' & Hr & Hrep').
  exists h', G'. split; [|done]. unfold hint_run in *. cbn [foldl mbind option_bind]. by rewrite Hs.
Qed.

Lemma getItem_spec h G a kh key n :
  mgr_rep h G a → mgr_safe h kh = true → (n <= length G)%nat →
  get_item_loop h n kh key false = Some (inl (newest (fst a) n (kh, key))).
Proof.
  intros Hrep Hsafe. induction n as [|n IH]; intros Hn; [done|]. cbn [get_item_loop newest].
  rewrite (mr_merged _ _ _ Hrep).
  destruct (lookup_lt_is_Some_2 G n ltac:(lia)) as [gs Hg].
  destruct (Forall2_lookup_r _ _ _ _ _ (mr_chunks _ _ _ Hrep) Hg) as (c & Hc & Hcr).
  rewrite zget_nat, Hc. cbn [mbind option_bind].
  rewrite (hc_get_spec Conf c gs kh key Hcr) by (unfold mgr_safe in Hsafe; rewrite forallb_forall in Hsafe;
    apply Hsafe, list_elem_of_In; by eapply list_elem_of_lookup_2). cbn [mbind option_bind].
  rewrite (mr_map _ _ _ Hrep _ _ Hg). destruct (chunk_map gs !! (kh, key)); [done|]. apply IH. lia.
Qed.

(** C14. The hint manager keeps the newest item of every key: over any history of
    item sets, forced rotations and dumps of any chunks at any times, from a new
    manager, nothing panics, and [getItem] returns the item last set for the key
    in the newest chunk that has it, with that chunk, whether it is still in a
    buffer or in a dumped file. This holds for the key hashes that are safe in the state
    reached ([mgr_safe]): every dumped file has an item with a larger hash, or at most one
    entry in its index. For another hash the search of a file runs past its items into its
    index and ends with an error or a wrong item instead of going on to the other files.
    Items fit their fields, chunks are within range, and [SplitCap] is below 4095 * 4096. *)
Theorem hint_mgr_newest mergeChan disk mdisk es :
  0 < SplitCap Conf < 4095 * 4096 → Forall hint_event_ok es →
  ∃ h, hint_run (newHintMgr mergeChan disk mdisk) es = Some h
    ∧ ∀ kh key, mgr_safe h kh = true →
        getItem h kh key false
        = Some (inl (newest (fst (abs_hint_run es)) (Z.to_nat (snd (abs_hint_run es) + 1)) (kh, key))).
Proof.
  intros Hcap Hok. destruct (hint_run_spec es _ _ _ Hcap (newHintMgr_rep mergeChan disk mdisk) Hok) as (h & G & Hr & Hrep).
  exists h. split; [done|]. intros kh key Hsafe. unfold getItem.
  rewrite (mr_max _ _ _ Hrep). apply (getItem_spec h G); [done|done|].
  pose proof (mr_len _ _ _ Hrep) as Hl. pose proof (mr_range _ _ _ Hrep). unfold zlen, abs_hint_run in *. lia.
Qed.

End Props.

(** ** The collision table *)

(** What non-gc updates of one key leave: the item of the largest position, the
    later one among equals. *)
Definition latest (old : option HintItem) (it : HintItem) : option HintItem :=
  match old with
  | Some o => if CmpKey (Pos (hi_meta o)) <=? CmpKey (Pos (hi_meta it)) then Some it else Some o
  | None => Some it
  end.

Lemma ct_get_alt t kh key :
  ct_get t kh key = (ct_Items t !! kh ≫= (.!! key), bool_decide (is_Some (ct_Items t !! kh))).
Proof. unfold ct_get. by destruct (ct_Items t !! kh). Qed.

Lemma compareAndSet_spec t it gc kh key :
  fst (ct_get (compareAndSet t it gc) kh key)
  = if bool_decide (hint_key it = (kh, key))
    then (if gc then Some it else latest (fst (ct_get t kh key)) it)
    else fst (ct_get t kh key).
Proof.
  rewrite !ct_get_alt. cbn [fst]. unfold compareAndSet, hint_key.
  destruct (ct_Items t !! Keyhash (hi_meta it)) as [items|] eqn:Hk.
  - destruct (bool_decide_reflect ((Keyhash (hi_meta it), hi_Key it) = (kh, key))) as [[= <- <-]|Hne].
    + rewrite Hk. cbn [mbind option_bind]. destruct (items !! hi_Key it) as [old|] eqn:Ho; cbn [latest].
      * destruct gc; cbn [orb ct_Items]; [by rewrite lookup_insert_eq; cbn; rewrite lookup_insert_eq|].
        destruct (_ <=? _); cbn [ct_Items]; [rewrite lookup_insert_eq; cbn; by rewrite lookup_insert_eq|].
        rewrite Hk. done.
      * cbn [ct_Items]. rewrite lookup_insert_eq. cbn. rewrite lookup_insert_eq. by destruct gc.
    + assert (∀ put : bool, ct_Items (if put
        then mkCollisionTable (ct_HintID t) (<[Keyhash (hi_meta it) := <[hi_Key it := it]> items]> (ct_Items t))
        else t) !! kh ≫= (.!! key) = ct_Items t !! kh ≫= (.!! key)) as Hput; [|by apply Hput].
      intros [|]; [|done]. cbn [ct_Items]. destruct (decide (Keyhash (hi_meta it) = kh)) as [<-|?].
      * rewrite lookup_insert_eq, Hk. cbn. apply lookup_insert_ne. congruence.
      * by rewrite lookup_insert_ne by done.
  - cbn [ct_Items]. destruct (bool_decide_reflect ((Keyhash (hi_meta it), hi_Key it) = (kh, key))) as [[= <- <-]|Hne].
    + rewrite lookup_insert_eq, Hk. cbn. rewrite lookup_singleton_eq. by destruct gc.
    + destruct (decide (Keyhash (hi_meta it) = kh)) as [<-|?].
      * rewrite lookup_insert_eq, Hk. cbn. apply lookup_singleton_ne. congruence.
      * by rewrite lookup_insert_ne by done.
Qed.

(** The collision table holds for each key the newest item it was given:
    after any sequence of [compareAndSet]s from requests and merges, [get]
    returns, of the items set for the key, the one of the largest position (the
    last among those at it), and keys that share a hash do not disturb each
    other. *)
Theorem collision_table_latest its kh key :
  fst (ct_get (foldl (λ t it, compareAndSet t it false) newCollisionTable its) kh key)
  = foldl latest None (filter (λ it, hint_key it = (kh, key)) its).
Proof.
  assert (∀ t, fst (ct_get (foldl (λ t it, compareAndSet t it false) t its) kh key)
    = foldl latest (fst (ct_get t kh key)) (filter (λ it, hint_key it = (kh, key)) its)) as H; [|by rewrite H].
  induction its as [|it its IH]; intros t; [done|]. cbn [foldl]. rewrite IH, compareAndSet_spec.
  destruct (decide (hint_key it = (kh, key))) as [Heq|Hne].
  - rewrite bool_decide_eq_true_2, filter_cons_True by done. done.
  - rewrite bool_decide_eq_false_2, filter_cons_False by done. done.
Qed.

(** ** Concrete managers *)

Definition small_conf : HStoreConfig := {|
  NumBucket := NumBucket demo_conf; BucketsStat := BucketsStat demo_conf; FlushWake := FlushWake demo_conf;
  DataFileMax := DataFileMax demo_conf; CheckVHash := CheckVHash demo_conf;
  FlushInterval := FlushInterval demo_conf;
  NoGCDays := NoGCDays demo_conf; NotCompress := NotCompress demo_conf; NoMerged := NoMerged demo_conf;
  MergeInterval := MergeInterval demo_conf; IndexIntervalSize := 4096;
  SplitCap := 2; TreeHeight := TreeHeight demo_conf; TreeDump := TreeDump demo_conf;
  TreeDepth := TreeDepth demo_conf; TreeKeyHashMask := TreeKeyHashMask demo_conf;
  TreeKeyHashLen := TreeKeyHashLen demo_conf |}.

(** Two splits of chunk 0 dumped, an item of chunk 1 in its buffer. *)
Definition demo_hint_events : list hint_event :=
  [HSetItem (demo_hint 7 (bstr "a") 0 1) 0 256 100; HSetItem (demo_hint 7 (bstr "b") 256 1) 0 256 101;
   HSetItem (demo_hint 8 (bstr "c") 512 1) 0 256 102; HSetItem (demo_hint 7 (bstr "a") 768 2) 0 256 103;
   HTryDump 0 true 110; HSetItem (demo_hint 9 (bstr "d") 0 1) 1 256 111].

Lemma demo_hint_events_ok : Forall hint_event_ok demo_hint_events.
Proof.
  repeat (apply Forall_cons; split; [first [done | split; [apply hint_okb_ok; by vm_compute|done]]|]). done.
Qed.

Lemma hint_mgr_newest_witness :
  ∃ h, hint_run small_conf (newHintMgr false ∅ ∅) demo_hint_events = Some h
    ∧ getItem h 7 (bstr "a") false = Some (inl (Some (demo_hint 7 (bstr "a") 768 2), 0)).
Proof.
  destruct (hint_mgr_newest small_conf false ∅ ∅ demo_hint_events) as (h & Hrun & Hget).
  - split; by vm_compute.
  - apply demo_hint_events_ok.
  - exists h. split; [exact Hrun|]. rewrite (Hget 7 (bstr "a")); [by vm_compute|].
    assert (match hint_run small_conf (newHintMgr false ∅ ∅) demo_hint_events with
            | Some h => mgr_safe h 7 | None => false end = true) as Hs by (by vm_compute).
    rewrite Hrun in Hs. exact Hs.
Defined.

(** [getItemCollision] goes on to older chunks after it found the key without
    a collision, and returns what the oldest chunk says: for a key whose only
    item is in the buffer of a newer chunk it returns nothing. *)
Theorem getItemCollision_loses_item :
  ∃ h, hint_run small_conf (newHintMgr false ∅ ∅) [HSetItem (demo_hint 9 (bstr "d") 0 1) 1 256 100] = Some h
    ∧ getItem h 9 (bstr "d") true = Some (inl (Some (demo_hint 9 (bstr "d") 0 1), 1))
    ∧ hm_getItemCollision h 9 (bstr "d") = Some (None, 0, false).
Proof.
  assert (match hint_run small_conf (newHintMgr false ∅ ∅) [HSetItem (demo_hint 9 (bstr "d") 0 1) 1 256 100] with
    | Some h => bool_decide (getItem h 9 (bstr "d") true = Some (inl (Some (demo_hint 9 (bstr "d") 0 1), 1)))
        && bool_decide (hm_getItemCollision h 9 (bstr "d") = Some (None, 0, false))
    | None => false end = true) as H by (by vm_compute).
  destruct (hint_run _ _ _) as [h|]; [|done]. exists h. split; [done|].
  apply andb_true_iff in H as [H1 H2]. by apply bool_decide_eq_true_1 in H1, H2.
Qed.
