(* ===== verification/Heap.v ===== *)
(** * Binary heaps (Go's container/heap)

    The operations of the standard library the merge of hint files uses, on a
    slice of elements with a [Less], and the facts that make them a priority
    queue. *)

From S2P Require Import Prelude.

Section Heap.
Context {A : Type} (less : A → A → bool).

Definition heap_swap (h : list A) (i j : nat) : list A :=
  match h !! i, h !! j with
  | Some a, Some b => <[i := b]> (<[j := a]> h)
  | _, _ => h
  end.
Definition heap_less (h : list A) (i j : nat) : bool :=
  match h !! i, h !! j with
  | Some a, Some b => less a b
  | _, _ => false
  end.

(** Every step goes at least one index further: [n] steps are enough. *)
Fixpoint heap_down (fuel : nat) (h : list A) (i n : nat) : list A :=
  match fuel with
  | O => h
  | S fuel =>
      let j1 := (2 * i + 1)%nat in
      if (n <=? j1)%nat then h
      else
        let j := if (j1 + 1 <? n)%nat && heap_less h (j1 + 1) j1 then (j1 + 1)%nat else j1 in
        if negb (heap_less h j i) then h
        else heap_down fuel (heap_swap h i j) j n
  end.
Fixpoint heap_up (fuel : nat) (h : list A) (j : nat) : list A :=
  match fuel with
  | O => h
  | S fuel =>
      let i := ((j - 1) / 2)%nat in
      if (i =? j)%nat || negb (heap_less h j i) then h
      else heap_up fuel (heap_swap h i j) i
  end.

Fixpoint heap_init (k : nat) (h : list A) : list A :=
  match k with
  | O => h
  | S i => heap_init i (heap_down (length h) h i (length h))
  end.
Definition heap_Init (h : list A) : list A := heap_init (length h / 2) h.
Definition heap_Push (h : list A) (x : A) : list A := heap_up (S (length h)) (h ++ [x]) (length h).

(** [Pop] of an empty heap panics. *)
Definition heap_Pop (h : list A) : option (A * list A) :=
  match length h with
  | O => None
  | S n =>
      let h := heap_down n (heap_swap h 0 n) 0 n in
      x ← h !! n; Some (x, take n h)
  end.

(** ** Correctness *)

Definition le (a b : A) : Prop := less b a = false.
Hypothesis (less_asym : ∀ a b, less a b = true → less b a = false).
Hypothesis (le_trans : ∀ a b c, le a b → le b c → le a c).

Definition child (p c : nat) : Prop := c = (2 * p + 1)%nat ∨ c = (2 * p + 2)%nat.

(** Parents from [k] on are at most their children, within the first [n], except
    where [skip] says. *)
Definition ordered (h : list A) (n : nat) (keep : nat → nat → Prop) : Prop :=
  ∀ p c a b, child p c → (c < n)%nat → keep p c → h !! p = Some a → h !! c = Some b → le a b.
Definition heap_ok (h : list A) : Prop := ordered h (length h) (λ _ _, True).

Lemma le_refl a : le a a.
Proof. unfold le. destruct (less a a) eqn:E; [|done]. rewrite (less_asym a a E) in E. done. Qed.

Lemma swap_lookup h i j k :
  (i < length h)%nat → (j < length h)%nat →
  heap_swap h i j !! k = if decide (k = i) then h !! j else if decide (k = j) then h !! i else h !! k.
Proof.
  intros [a Ha]%lookup_lt_is_Some [b Hb]%lookup_lt_is_Some. unfold heap_swap. rewrite Ha, Hb.
  assert (i < length h ∧ j < length h)%nat as [??] by (split; by eapply lookup_lt_Some).
  destruct (decide (k = i)) as [->|]; [rewrite list_lookup_insert_eq by (rewrite length_insert; lia); done|].
  rewrite list_lookup_insert_ne by done.
  destruct (decide (k = j)) as [->|]; [by apply list_lookup_insert_eq|by apply list_lookup_insert_ne].
Qed.

Lemma length_swap h i j : length (heap_swap h i j) = length h.
Proof. unfold heap_swap. repeat case_match; by rewrite ?length_insert. Qed.

Lemma swap_perm h i j : heap_swap h i j ≡ₚ h.
Proof.
  destruct (decide (i < length h ∧ j < length h)%nat) as [[Hi Hj]|Hn].
  - apply Permutation_inj. split; [apply length_swap|].
    exists (λ k, if decide (k = i) then j else if decide (k = j) then i else k). split.
    + intros x y. repeat case_decide; lia.
    + intros k. rewrite swap_lookup by done. by repeat case_decide.
  - unfold heap_swap. destruct (h !! i) eqn:Hi; [|done]. destruct (h !! j) eqn:Hj; [|done].
    apply lookup_lt_Some in Hi, Hj. lia.
Qed.

Lemma less_lookup h i j a b : h !! i = Some a → h !! j = Some b → heap_less h i j = less a b.
Proof. unfold heap_less. by intros -> ->. Qed.

(** What [down] needs at [i]: only the pairs below [i] may be out of order. *)
Definition down_pre (h : list A) (n k i : nat) : Prop :=
  ordered h n (λ p _, (k <= p)%nat ∧ p ≠ i)
  ∧ ∀ p c a b, (k <= p)%nat → child p i → child i c → (c < n)%nat → h !! p = Some a → h !! c = Some b → le a b.

Lemma min_child h n i :
  (2 * i + 1 < n)%nat → (n <= length h)%nat →
  let j := if (2 * i + 1 + 1 <? n)%nat && heap_less h (2 * i + 1 + 1) (2 * i + 1)
           then (2 * i + 1 + 1)%nat else (2 * i + 1)%nat in
  child i j ∧ (j < n)%nat
  ∧ ∀ c a b, child i c → (c < n)%nat → h !! j = Some a → h !! c = Some b → c ≠ j → le a b.
Proof.
  intros H1 Hn j. subst j. unfold child.
  destruct (2 * i + 1 + 1 <? n)%nat eqn:H2; cbn [andb].
  - apply Nat.ltb_lt in H2.
    destruct (lookup_lt_is_Some_2 h (2 * i + 1)) as [x Hx]; [lia|].
    destruct (lookup_lt_is_Some_2 h (2 * i + 1 + 1)) as [y Hy]; [lia|].
    rewrite (less_lookup h _ _ y x) by done. destruct (less y x) eqn:Hl.
    + split_and!; [lia|lia|]. intros c a b [->| ->] ? Ha Hb Hne; [|lia].
      simplify_eq. by apply less_asym.
    + split_and!; [lia|lia|]. intros c a b [->| ->] ? Ha Hb Hne; [lia|].
      replace (2 * i + 1 + 1)%nat with (2 * i + 2)%nat in Hy by lia. simplify_eq. done.
  - apply Nat.ltb_ge in H2. split_and!; [lia|lia|]. intros; lia.
Qed.

Lemma down_spec fuel h n k i :
  (n <= fuel + i)%nat → (i < n)%nat → (k <= i)%nat → (n <= length h)%nat → down_pre h n k i →
  let h' := heap_down fuel h i n in
  h' ≡ₚ h ∧ (∀ m, (n <= m)%nat → h' !! m = h !! m) ∧ ordered h' n (λ p _, (k <= p)%nat).
Proof.
  revert h i. induction fuel as [|fuel IH]; intros h i Hf Hi Hk Hn [Ho Hg]; [lia|].
  cbn [heap_down]. destruct (n <=? 2 * i + 1)%nat eqn:Hc.
  { apply Nat.leb_le in Hc. split_and!; [done|done|]. intros p c a b Hpc Hcn Hkp Ha Hb.
    apply (Ho p c a b); try done. split; [done|]. unfold child in Hpc. lia. }
  apply Nat.leb_gt in Hc. pose proof (min_child h n i Hc Hn) as Hmin. cbv zeta in Hmin. revert Hmin.
  set (j := if _ && _ then _ else _). intros (Hij & Hj & Hmin).
  destruct (lookup_lt_is_Some_2 h i) as [x Hx]; [lia|]. destruct (lookup_lt_is_Some_2 h j) as [y Hy]; [lia|].
  rewrite (less_lookup h j i y x) by done. destruct (less y x) eqn:Hl; cbn [negb].
  - assert (∀ q, heap_swap h i j !! q = if decide (q = i) then Some y else if decide (q = j) then Some x else h !! q) as Hsw.
    { intros q. rewrite swap_lookup by lia. by rewrite Hx, Hy. }
    destruct (IH (heap_swap h i j) j) as (Hp & Hsame & Hord);
      [unfold child in Hij; lia|done|unfold child in Hij; lia|by rewrite length_swap| |].
    + split.
      * intros p c a b Hpc Hcn [Hkp Hpj] Ha Hb. rewrite Hsw in Ha, Hb.
        rewrite (decide_False (P := p = j)) in Ha by done.
        destruct (decide (p = i)) as [->|Hpi].
        -- simplify_eq. destruct (decide (c = i)); [unfold child in Hpc; lia|].
           destruct (decide (c = j)) as [->|]; [simplify_eq; by apply less_asym|by apply (Hmin c)].
        -- destruct (decide (c = i)) as [->|]; [simplify_eq; by apply (Hg p j a b)|].
           destruct (decide (c = j)) as [->|]; [unfold child in *; lia|]. by apply (Ho p c a b).
      * intros p c a b Hkp Hpj Hjc Hcn Ha Hb. assert (p = i) as -> by (unfold child in *; lia).
        rewrite Hsw in Ha, Hb. rewrite decide_True in Ha by done.
        rewrite (decide_False (P := c = i)), (decide_False (P := c = j)) in Hb by (unfold child in *; lia).
        simplify_eq. apply (Ho j c a b); [done|done|unfold child in *; lia|done|done].
    + split_and!; [by rewrite Hp, swap_perm| |done]. intros m Hm. rewrite Hsame, Hsw by done.
      by rewrite !decide_False by lia.
  - split_and!; [done|done|]. intros p c a b Hpc Hcn Hkp Ha Hb.
    destruct (decide (p = i)) as [->|]; [|by apply (Ho p c a b)]. simplify_eq.
    destruct (decide (c = j)) as [->|]; [by simplify_eq|].
    apply (le_trans _ y); [done|by apply (Hmin c)].
Qed.

(** What [up] needs at [j]: only the pair above [j] may be out of order. *)
Definition up_pre (h : list A) (j : nat) : Prop :=
  ordered h (length h) (λ _ c, c ≠ j)
  ∧ ∀ p c a b, child p j → child j c → (c < length h)%nat → h !! p = Some a → h !! c = Some b → le a b.

Lemma up_spec fuel h j :
  (j < fuel)%nat → (j < length h)%nat → up_pre h j →
  heap_up fuel h j ≡ₚ h ∧ heap_ok (heap_up fuel h j).
Proof.
  revert h j. induction fuel as [|fuel IH]; intros h j Hf Hj [Ho Hg]; [lia|].
  cbn [heap_up]. set (i := ((j - 1) / 2)%nat).
  assert (j = 0 ∧ i = 0 ∨ child i j ∧ i < j)%nat as Hi.
  { subst i. unfold child. destruct j as [|j']; [by left|right]. replace (S j' - 1)%nat with j' by lia.
    pose proof (Nat.div_mod j' 2). pose proof (Nat.mod_upper_bound j' 2). lia. }
  destruct (decide (i = j)) as [Hij|Hij].
  { rewrite (proj2 (Nat.eqb_eq i j)) by done. split; [done|]. intros p c a b Hpc Hcn _.
    apply Ho; [done|done|]. unfold child in *. lia. }
  rewrite (proj2 (Nat.eqb_neq i j)) by done. destruct Hi as [|[Hc Hlt]]; [lia|].
  destruct (lookup_lt_is_Some_2 h i) as [x Hx]; [lia|]. destruct (lookup_lt_is_Some_2 h j) as [y Hy]; [lia|].
  rewrite (less_lookup h j i y x) by done. destruct (less y x) eqn:Hl; cbn [negb orb].
  - assert (∀ q, heap_swap h i j !! q = if decide (q = i) then Some y else if decide (q = j) then Some x else h !! q) as Hsw.
    { intros q. rewrite swap_lookup by lia. by rewrite Hx, Hy. }
    assert (∀ c b, child i c → (c < length h)%nat → c ≠ j → h !! c = Some b → le x b) as Hsib.
    { intros c b ????. by apply (Ho i c x b). }
    destruct (IH (heap_swap h i j) i) as [Hp Hok]; [lia|rewrite length_swap; lia| |].
    + split; rewrite length_swap.
      * intros p c a b Hpc Hcn Hci Ha Hb. rewrite Hsw in Ha, Hb. rewrite (decide_False (P := c = i)) in Hb by done.
        destruct (decide (c = j)) as [->|Hcj].
        -- assert (p = i) as -> by (unfold child in *; lia). rewrite decide_True in Ha by done. simplify_eq.
           by apply less_asym.
        -- destruct (decide (p = i)) as [->|]; [simplify_eq; apply (le_trans _ x); [by apply less_asym|by apply (Hsib c)]|].
           destruct (decide (p = j)) as [->|]; [simplify_eq; by apply (Hg i c a b)|]. by apply (Ho p c a b).
      * intros p c a b Hpi Hic Hcn Ha Hb. rewrite Hsw in Ha, Hb.
        rewrite (decide_False (P := p = i)), (decide_False (P := p = j)) in Ha by (unfold child in *; lia).
        rewrite (decide_False (P := c = i)) in Hb by (unfold child in *; lia).
        assert (le a x) by (apply (Ho p i a x); [done|lia|lia|done|done]).
        destruct (decide (c = j)); [by simplify_eq|]. apply (le_trans _ x); [done|by apply (Hsib c)].
    + split; [by rewrite Hp, swap_perm|done].
  - split; [done|]. intros p c a b Hpc Hcn _ Ha Hb. destruct (decide (c = j)) as [->|]; [|by apply (Ho p c a b)].
    assert (p = i) as -> by (unfold child in *; lia). by simplify_eq.
Qed.

(** ** The three operations *)

Lemma heap_Init_spec h : heap_Init h ≡ₚ h ∧ heap_ok (heap_Init h).
Proof.
  assert (∀ k h, (k <= length h / 2)%nat → ordered h (length h) (λ p _, (k <= p)%nat) →
    heap_init k h ≡ₚ h ∧ heap_ok (heap_init k h)) as Hgen.
  { clear h. induction k as [|k IH]; intros h Hk Ho; cbn [heap_init].
    { split; [done|]. intros p c a b Hpc Hcn _. apply Ho; [done|done|lia]. }
    pose proof (Nat.div_mod (length h) 2) as Hd.
    destruct (down_spec (length h) h (length h) k k) as (Hp & _ & Hord); [lia|lia|lia|lia| |].
    { split.
      - intros p c a b Hpc Hcn [? ?]. apply Ho; [done|done|lia].
      - unfold child. intros; lia. }
    assert (length (heap_down (length h) h k (length h)) = length h) as Hl by by rewrite Hp.
    destruct (IH (heap_down (length h) h k (length h))) as [Hp2 Hok]; [rewrite Hl; lia|by rewrite Hl|].
    split; [by rewrite Hp2|done]. }
  apply Hgen; [done|]. intros p c a b Hpc Hcn Hp. unfold child in Hpc.
  pose proof (Nat.div_mod (length h) 2). pose proof (Nat.mod_upper_bound (length h) 2). lia.
Qed.

Lemma heap_Push_spec h x : heap_ok h → heap_Push h x ≡ₚ x :: h ∧ heap_ok (heap_Push h x).
Proof.
  intros Hok. unfold heap_Push.
  destruct (up_spec (S (length h)) (h ++ [x]) (length h)) as [Hp Ho]; [lia|rewrite length_app; simpl; lia| |].
  - split; rewrite length_app; simpl.
    + intros p c a b Hpc Hcn Hcl Ha Hb. rewrite lookup_app_l in Ha, Hb by (unfold child in Hpc; lia).
      apply (Hok p c a b); [done|lia|done|done|done].
    + unfold child. intros; lia.
  - split; [|done]. rewrite Hp. rewrite Permutation_app_comm. done.
Qed.

Lemma heap_min h i a b : heap_ok h → h !! 0%nat = Some a → h !! i = Some b → le a b.
Proof.
  intros Hok Ha. revert b. induction (lt_wf i) as [i _ IH]. intros b Hb.
  destruct i as [|i]; [simplify_eq; apply le_refl|].
  assert (S i < length h)%nat as Hlt by (by eapply lookup_lt_Some).
  pose proof (Nat.div_mod i 2) as Hd. pose proof (Nat.mod_upper_bound i 2) as Hm.
  assert (i / 2 < S i)%nat as Hp by lia. destruct (lookup_lt_is_Some_2 h (i / 2)) as [c Hc]; [lia|].
  apply (le_trans _ c); [by apply (IH (i / 2)%nat)|].
  apply (Hok (i / 2)%nat (S i) c b); [unfold child; lia|done|done|done|done].
Qed.

Lemma heap_Pop_spec h :
  heap_ok h → h ≠ [] →
  ∃ x h', heap_Pop h = Some (x, h') ∧ h ≡ₚ x :: h' ∧ heap_ok h' ∧ ∀ y, y ∈ h → le x y.
Proof.
  intros Hok Hne. unfold heap_Pop. destruct (length h) as [|n] eqn:Hl; [by destruct h|].
  destruct (lookup_lt_is_Some_2 h 0) as [x Hx]; [lia|]. set (hs := heap_swap h 0 n).
  assert (∀ k, hs !! k = if decide (k = 0%nat) then h !! n else if decide (k = n) then h !! 0%nat else h !! k) as Hsw
    by (intros k; apply swap_lookup; lia).
  assert (length hs = S n) as Hls by (unfold hs; by rewrite length_swap).
  assert (heap_down n hs 0 n ≡ₚ hs ∧ (∀ m, (n <= m)%nat → heap_down n hs 0 n !! m = hs !! m)
    ∧ ordered (heap_down n hs 0 n) n (λ _ _, True)) as (Hp & Hsame & Hord).
  { destruct (decide (n = 0%nat)) as [->|]; [split_and!; [done|done|]; intros ?????; lia|].
    destruct (down_spec n hs n 0 0) as (? & ? & Ho); [lia|lia|lia|lia| |].
    - split; [|unfold child; intros; lia].
      intros p c a b Hpc Hcn [_ Hp0] Ha Hb. rewrite Hsw in Ha, Hb. unfold child in Hpc.
      rewrite !decide_False in Ha by lia; rewrite !decide_False in Hb by lia. apply (Hok p c a b); [done|lia|done|done|done].
    - split_and!; [done|done|]. intros p c a b ?? _. apply Ho; [done|done|lia]. }
  assert (hs !! n = Some x) as Hn.
  { rewrite Hsw. destruct (decide (n = 0%nat)) as [->|]; [done|]. by rewrite decide_True. }
  rewrite Hsame, Hn by done. simpl. eexists _, _. split_and!; [done| | |].
  - transitivity (heap_down n hs 0 n); [symmetry; rewrite Hp; apply swap_perm|].
    rewrite <- (take_drop n (heap_down n hs 0 n)) at 1.
    rewrite (drop_S _ x) by (by rewrite Hsame). rewrite drop_ge by (rewrite Hp; lia).
    by rewrite Permutation_app_comm.
  - intros p c a b Hpc Hcn _ Ha Hb. rewrite length_take in Hcn.
    rewrite lookup_take_lt in Ha, Hb by (unfold child in Hpc; lia). apply (Hord p c a b); [done|lia|done|done|done].
  - intros y [i Hi]%list_elem_of_lookup. by apply (heap_min h i).
Qed.

End Heap.
