(* ===== verification/HintMerge.v ===== *)
(** * Merging hint files (src/store/hintmerge.go, and its callers in hint.go)

    The hint files of a bucket are merged into one by a heap of readers. For each
    key the item of the largest position survives, and the keys that share a hash
    with another go to the collision table. *)

From stdpp Require Import gmap sorting.
From S2P Require Import Prelude Config Cmem Key Item Fixtures DataFile Data DataSpec HintFile Hint HintSpec HintProps.
From S2P Require Import Heap.

(** ** Readers and their order *)

Record mergeReader := mkMergeReader { mr_r : hintFileReader; mr_chunkID : Z; mr_curr : HintItem }.

(** [curr.Pos.ChunkID = chunkID]. *)
Definition at_chunk (chunkID : Z) (it : HintItem) : HintItem :=
  newHintItem (Keyhash (hi_meta it)) (it_Ver (hi_meta it)) (Vhash (hi_meta it))
    (mkPos chunkID (Offset (Pos (hi_meta it)))) (hi_Key it).

(** [mergeHeap.Less]. *)
Definition item_less (a b : HintItem) : bool :=
  if negb (Keyhash (hi_meta a) =? Keyhash (hi_meta b)) then Keyhash (hi_meta a) <? Keyhash (hi_meta b)
  else if negb (bytes_eqb (hi_Key a) (hi_Key b)) then bytes_ltb (hi_Key a) (hi_Key b)
  else CmpKey (Pos (hi_meta a)) <? CmpKey (Pos (hi_meta b)).
Definition merge_less (a b : mergeReader) : bool := item_less (mr_curr a) (mr_curr b).

(** ** The writer *)

(** [mw_buf] is [buf[:num]]: the items of one key hash, not written yet. *)
Record mergeWriter := mkMergeWriter {
  mw_w : option hintFileWriter;
  mw_buf : list HintItem;
  mw_ct : CollisionTable
}.

Definition set_all (ct : CollisionTable) (its : list HintItem) : CollisionTable :=
  foldl (λ t it, compareAndSet t it false) ct its.

Section Merge.
Context (Conf : HStoreConfig).

(** [flush]; [false] is the panic of a full index, after the table is updated. *)
Definition mw_flush (mw : mergeWriter) : mergeWriter * bool :=
  let ct := if (1 <? length (mw_buf mw))%nat then set_all (mw_ct mw) (mw_buf mw) else mw_ct mw in
  match mw_w mw with
  | None => (mkMergeWriter None (mw_buf mw) ct, true)
  | Some w =>
      match writeItems Conf w (mw_buf mw) with
      | Some w => (mkMergeWriter (Some w) (mw_buf mw) ct, true)
      | None => (mkMergeWriter (Some w) (mw_buf mw) ct, false)
      end
  end.

Definition mw_write (mw : mergeWriter) (it : HintItem) : mergeWriter * bool :=
  match last (mw_buf mw) with
  | None => (mkMergeWriter (mw_w mw) [it] (mw_ct mw), true)
  | Some old =>
      if negb (Keyhash (hi_meta old) =? Keyhash (hi_meta it)) then
        let '(mw, ok) := mw_flush mw in (mkMergeWriter (mw_w mw) [it] (mw_ct mw), ok)
      else if negb (bytes_eqb (hi_Key old) (hi_Key it)) then
        (mkMergeWriter (mw_w mw) (mw_buf mw ++ [it]) (mw_ct mw), true)
      else (mkMergeWriter (mw_w mw) (take (length (mw_buf mw) - 1) (mw_buf mw) ++ [it]) (mw_ct mw), true)
  end.

(** ** The merge *)

(** How the loop ends, and what [merge] returns. *)
Inductive merge_end := EndDone | EndErr (e : StoreErr) | EndPanic.
Inductive merge_result := MergeOk (idx : option hintFileIndex) | MergeErr (e : StoreErr) | MergePanic.

(** The first loop: every source opened and its first item read. [inr None] is the
    nil dereference on a file without items. *)
Fixpoint merge_open (srcs : list (Z * bytes)) (datasz : Z) : list mergeReader * Z + option StoreErr :=
  match srcs with
  | [] => inl ([], datasz)
  | (chunkID, f) :: srcs =>
      match hr_open f with
      | inr e => inr (Some e)
      | inl r =>
          match hr_next r with
          | (inr e, _) => inr (Some e)
          | (inl None, _) => inr None
          | (inl (Some it), r) =>
              let size := datasize (hr_meta r) in
              match merge_open srcs (if datasz <? size then size else datasz) with
              | inr e => inr e
              | inl (hp, size) => inl (mkMergeReader r chunkID (at_chunk chunkID it) :: hp, size)
              end
          end
      end
  end.

(** The merge loop; [aborts i] is whether the GC bit of the state is set when the
    [i]-th round starts. *)
Fixpoint merge_loop (aborts : nat → bool) (forGC : bool) (fuel i : nat) (h : list mergeReader) (mw : mergeWriter)
    : option (mergeWriter * merge_end) :=
  match fuel with
  | O => None
  | S fuel =>
      match h with
      | [] => Some (mw, EndDone)
      | _ :: _ =>
          if aborts i && negb forGC then Some (mw, EndErr ErrAborted)
          else
            '(mr, h) ← heap_Pop merge_less h;
            let '(mw, ok) := mw_write mw (mr_curr mr) in
            if negb ok then Some (mw, EndPanic)
            else
              match hr_next (mr_r mr) with
              | (inr e, _) => Some (mw, EndErr e)
              | (inl None, _) => merge_loop aborts forGC fuel (S i) h mw
              | (inl (Some it), r) =>
                  merge_loop aborts forGC fuel (S i)
                    (heap_Push merge_less h (mkMergeReader r (mr_chunkID mr) (at_chunk (mr_chunkID mr) it))) mw
              end
      end
  end.

(** After the loop: the last buffer is flushed, the file closed, and removed again
    if there was an error. *)
Definition merge_close (mw : mergeWriter) (fin : merge_end) : merge_result * CollisionTable :=
  match fin with
  | EndPanic => (MergePanic, mw_ct mw)
  | _ =>
      let '(mw, ok) := mw_flush mw in
      (if negb ok then MergePanic
       else match fin with
            | EndErr e => MergeErr e
            | _ => MergeOk (match mw_w mw with
                            | None => None
                            | Some w => Some (mkHintIndex (toIndex (hw_index w)) (hw_close w) (hw_meta w))
                            end)
            end, mw_ct mw)
  end.

(** Every round reads an item, of at least 23 bytes. *)
Definition merge_fuel (srcs : list (Z * bytes)) : nat := S (sum_list_with (λ s, length (snd s)) srcs).

Definition merge (srcs : list (Z * bytes)) (ct : CollisionTable) (aborts : nat → bool) (forGC : bool)
    : option (merge_result * CollisionTable) :=
  match merge_open srcs 0 with
  | inr (Some e) => Some (MergeErr e, ct)
  | inr None => Some (MergePanic, ct)
  | inl (hp, datasz) =>
      let w := if negb (NoMerged Conf) && negb forGC then Some (newHintFileWriter datasz) else None in
      '(mw, fin) ← merge_loop aborts forGC (merge_fuel srcs) 0 (heap_Init merge_less hp) (mkMergeWriter w [] ct);
      Some (merge_close mw fin)
  end.

(** ** The manager's side *)

Definition HintStateDump : Z := 1.
Definition HintStateMerge : Z := 2.
Definition HintStateGC : Z := 4.

Definition hm_with_state (h : hintMgr) (st : Z) : hintMgr :=
  mkHintMgr (hm_maxChunkID h) (hm_chunks h) (hm_maxDumpedHintID h) (hm_maxDumpableChunkID h) (hm_merged h) st
    (hm_collisions h) (hm_mergeChan h) (hm_disk h) (hm_mdisk h).
Definition hm_with_merged (h : hintMgr) (merged : option hintFileIndex) (mdisk : gmap (Z * Z) bytes) : hintMgr :=
  mkHintMgr (hm_maxChunkID h) (hm_chunks h) (hm_maxDumpedHintID h) (hm_maxDumpableChunkID h) merged (hm_state h)
    (hm_collisions h) (hm_mergeChan h) (hm_disk h) mdisk.

Definition RemoveMerged (h : hintMgr) : hintMgr := hm_with_merged h None ∅.

(** The hint files sorted by name, that is by chunk and split. *)
Definition id_le (a b : (Z * Z) * bytes) : Prop :=
  fst (fst a) < fst (fst b) ∨ (fst (fst a) = fst (fst b) ∧ snd (fst a) <= snd (fst b)).
#[global] Instance id_le_dec : RelDecision id_le.
Proof. intros a b. unfold id_le. apply _. Defined.
#[global] Instance id_le_trans : Transitive id_le.
Proof. intros a b c. unfold id_le. lia. Qed.
#[global] Instance id_le_total : Total id_le.
Proof. intros a b. unfold id_le. lia. Qed.
Definition hint_paths (disk : gmap (Z * Z) bytes) : list ((Z * Z) * bytes) := merge_sort id_le (map_to_list disk).

(** [Merge]; [oldchunk] is the merged chunk read before the lock was taken. A
    panic of [merge] is recovered. *)
Definition Merge (h : hintMgr) (oldchunk : Z) (aborts : nat → bool) (forGC : bool)
    : option (hintMgr * option StoreErr) :=
  let done h := hm_with_state h (Z.ldiff (hm_state h) HintStateMerge) in
  let h := hm_with_state h (Z.lor (hm_state h) HintStateMerge) in
  if negb (oldchunk =? id_Chunk (ct_HintID (hm_collisions h))) then Some (done h, None)
  else
    let h := RemoveMerged h in
    let paths := hint_paths (hm_disk h) in
    let maxid := foldl (λ id p, setIfLarger id (fst (fst p)) (snd (fst p))) (mkHintID 0 0) paths in
    '(res, ct) ← merge ((λ p, (fst (fst p), snd p)) <$> paths) (hm_collisions h) aborts forGC;
    match res with
    | MergeErr e => Some (done (hm_with_collisions h ct), Some e)
    | MergePanic => Some (done (hm_with_collisions h ct), None)
    | MergeOk idx =>
        let mdisk := match idx with
          | Some i => {[(id_Chunk maxid, id_Split maxid) := hx_file i]} | None => ∅ end in
        Some (done (hm_with_collisions (hm_with_merged h idx mdisk) (mkCollisionTable maxid (ct_Items ct))), None)
    end.

(** The dump loop of [dumpAndMerge] over chunks [i], ..., [i + n - 1]. *)
Fixpoint dump_chunks (h : hintMgr) (i : Z) (n : nat) (now maxSilence : Z) : option (Z * hintMgr) :=
  match n with
  | O => Some (maxSilence, h)
  | S n =>
      '(silence, h) ← trydump Conf h i false now;
      dump_chunks h (i + 1) n now (if maxSilence <? silence then silence else maxSilence)
  end.

(** [dumpAndMerge]: the silence, the manager, and whether it starts a merge. *)
Definition dumpAndMerge (h : hintMgr) (forGC : bool) (now : Z) : option (Z * hintMgr * bool) :=
  let done h := hm_with_state h (Z.ldiff (hm_state h) HintStateDump) in
  let h := hm_with_state h (Z.lor (hm_state h) HintStateDump) in
  let max := if forGC then MAX_NUM_CHUNK - 1 else hm_maxDumpableChunkID h in
  '(silence, h) ← dump_chunks h 0 (Z.to_nat (max + 1)) now 0;
  if negb (Z.land (hm_state h) HintStateDump =? 0) then Some (silence, done h, false)
  else
    let start := (Z.land (hm_state h) HintStateMerge =? 0) && negb forGC
      && (MergeInterval Conf <? hm_maxChunkID h - id_Chunk (ct_HintID (hm_collisions h))) in
    Some (silence, done h, start).

(** [hintMgr.close]. *)
Fixpoint close_chunks (h : hintMgr) (i : Z) (n : nat) (now : Z) : option hintMgr :=
  match n with
  | O => Some h
  | S n => '(_, h) ← trydump Conf h i true now; close_chunks h (i + 1) n now
  end.
Definition hm_close (h : hintMgr) (now : Z) : option hintMgr :=
  close_chunks h 0 (Z.to_nat (hm_maxChunkID h + 1)) now.

Definition hm_with_disk (h : hintMgr) (disk : gmap (Z * Z) bytes) : hintMgr :=
  hm_with h (hm_chunks h) (hm_maxDumpedHintID h) disk.
Definition RemoveHintfilesByChunk (h : hintMgr) (chunkID : Z) : hintMgr :=
  hm_with_disk h (filter (λ p : (Z * Z) * bytes, fst (fst p) ≠ chunkID) (hm_disk h)).
Definition ClearChunk (h : hintMgr) (chunkID : Z) : option hintMgr :=
  chunks ← zset (hm_chunks h) chunkID (newHintChunk chunkID);
  Some (RemoveHintfilesByChunk (hm_with_chunks h chunks) chunkID).

(** [findValidPaths]: the files numbered from 0 without a gap; the others are
    removed. *)
Fixpoint valid_paths (paths : list ((Z * Z) * bytes)) (n : Z) (disk : gmap (Z * Z) bytes)
    : list ((Z * Z) * bytes) * gmap (Z * Z) bytes :=
  match paths with
  | [] => ([], disk)
  | p :: paths =>
      if snd (fst p) =? n
      then let '(l, disk) := valid_paths paths (n + 1) disk in (p :: l, disk)
      else valid_paths paths n (delete (fst p) disk)
  end.
Definition findValidPaths (h : hintMgr) (chunkID : Z) : list ((Z * Z) * bytes) * hintMgr :=
  let paths := filter (λ p, fst (fst p) = chunkID) (hint_paths (hm_disk h)) in
  let '(l, disk) := valid_paths paths 0 (hm_disk h) in (l, hm_with_disk h disk).

(** The loop of [loadHintsByChunk]: the splits loaded go before the last one;
    after a failure the rest is removed. *)
Fixpoint load_splits (paths : list ((Z * Z) * bytes)) (failed : bool) (ck : hintChunk) (disk : gmap (Z * Z) bytes)
    (datasz : Z) : option (hintChunk * gmap (Z * Z) bytes * Z) :=
  match paths with
  | [] => Some (ck, disk, datasz)
  | p :: paths =>
      if failed then load_splits paths true ck (delete (fst p) disk) datasz
      else
        res ← loadHintIndex (snd p);
        match res with
        | inr _ => load_splits paths true ck (delete (fst p) disk) datasz
        | inl idx =>
            bufsp ← last (hc_splits ck);
            let front := take (length (hc_splits ck) - 1) (hc_splits ck) in
            load_splits paths false
              (mkHintChunk (hc_id ck) (front ++ [mkSplit None (Some idx); bufsp]) (hc_lastTS ck)) disk
              (if datasize (hx_meta idx) <? datasz then datasz else datasize (hx_meta idx))
        end
  end.
Definition loadHintsByChunk (h : hintMgr) (chunkID : Z) : option (Z * hintMgr) :=
  let '(paths, h) := findValidPaths h chunkID in
  match paths with
  | [] => Some (0, h)
  | _ :: _ =>
      ck ← zget (hm_chunks h) chunkID;
      '(ck, disk, datasz) ← load_splits paths false ck (hm_disk h) 0;
      chunks ← zset (hm_chunks h) chunkID ck;
      Some (if (length (hc_splits ck) <? 2)%nat then 0 else datasz,
            hm_with h chunks (hm_maxDumpedHintID h) disk)
  end.

End Merge.
