(* ===== verification/HintMergeSpec.v ===== *)
(** * What merging hint files computes

    The merge writes, sorted, the item of the largest position of every key of its
    sources, and puts the keys that share a hash into the collision table. *)

From stdpp Require Import gmap sorting.
From S2P Require Import Prelude Config Cmem Key Item Fixtures DataFile Data DataSpec HintFile Hint HintSpec HintProps.
From S2P Require Import Heap HintMerge.

(** ** The order of the heap *)

Definition item_le (a b : HintItem) : Prop := item_less b a = false.
Definition item_pos (it : HintItem) : Z := CmpKey (Pos (hi_meta it)).

Lemma item_less_alt a b :
  item_less a b = true ↔ hint_lt a b ∨ (hint_key a = hint_key b ∧ item_pos a < item_pos b).
Proof.
  unfold item_less, hint_lt, hint_key, item_pos.
  destruct (Z.eqb_spec (Keyhash (hi_meta a)) (Keyhash (hi_meta b))) as [He|He]; cbn [negb].
  - destruct (bytes_eqb (hi_Key a) (hi_Key b)) eqn:Hk; cbn [negb].
    + apply bytes_eqb_true in Hk. rewrite Z.ltb_lt, Hk, bytes_ltb_irrefl, He. naive_solver lia.
    + apply bytes_eqb_false in Hk. naive_solver lia.
  - rewrite Z.ltb_lt. naive_solver lia.
Qed.

Lemma hint_lt_key a b : hint_lt a b → hint_key a ≠ hint_key b.
Proof.
  unfold hint_lt, hint_key. intros [?|[? Hlt]] [= ? Hk]; [lia|]. by rewrite Hk, bytes_ltb_irrefl in Hlt.
Qed.

Lemma hint_lt_same_l a b c : hint_key a = hint_key b → hint_lt a c ↔ hint_lt b c.
Proof. unfold hint_lt, hint_key. intros [= H1 H2]. by rewrite H1, H2. Qed.
Lemma hint_lt_same_r a b c : hint_key a = hint_key b → hint_lt c a ↔ hint_lt c b.
Proof. unfold hint_lt, hint_key. intros [= H1 H2]. by rewrite H1, H2. Qed.

Lemma item_le_alt a b : item_le a b ↔ hint_lt a b ∨ (hint_key a = hint_key b ∧ item_pos a <= item_pos b).
Proof.
  unfold item_le. split.
  - intros Hf. destruct (decide (hint_key a = hint_key b)) as [Hk|Hk].
    + right. split; [done|]. destruct (Z.le_gt_cases (item_pos a) (item_pos b)) as [|Hgt]; [done|].
      assert (item_less b a = true) by (apply item_less_alt; right; split; [done|lia]). congruence.
    + left. destruct (hint_lt_total a b Hk) as [|Hba]; [done|].
      assert (item_less b a = true) by (apply item_less_alt; by left). congruence.
  - intros Hle. destruct (item_less b a) eqn:Hl; [|done]. exfalso.
    apply item_less_alt in Hl as [Hba|[Hk Hp]]; destruct Hle as [Hab|[Hk' Hp']]; [|..|lia].
    + by eapply hint_lt_irrefl, hint_lt_trans.
    + by apply hint_lt_key in Hba.
    + by apply hint_lt_key in Hab.
Qed.

Lemma item_less_asym a b : item_less a b = true → item_less b a = false.
Proof.
  intros Hl. change (item_le a b). apply item_le_alt. apply item_less_alt in Hl as [?|[? ?]]; [by left|right].
  split; [done|lia].
Qed.

Lemma item_le_trans a b c : item_le a b → item_le b c → item_le a c.
Proof.
  rewrite !item_le_alt. intros [Hab|[Hab Hp]] [Hbc|[Hbc Hq]].
  - left. by eapply hint_lt_trans.
  - left. by rewrite <- (hint_lt_same_r b c).
  - left. by rewrite (hint_lt_same_l a b).
  - right. split; [congruence|lia].
Qed.

(** ** What a reader has left *)

Definition reads (r : hintFileReader) (items : list HintItem) : Prop :=
  ∃ m pre post off, r = mkHintReader m (pre ++ hints_bytes items ++ post) (length pre) off
    ∧ Forall hint_ok items ∧ off + hint_sizes items = indexOffset m.

(** The items still to be read. *)
Definition rest (r : hintFileReader) : list HintItem :=
  match readItems (S (length (hr_file r))) r with Some (inl l) => l | _ => [] end.

Lemma reads_rest r items : reads r items → rest r = items.
Proof.
  intros (m & pre & post & off & -> & Hok & Hoff). unfold rest. cbn [hr_file].
  rewrite readItems_spec; [done|done|done|]. rewrite !length_app.
  pose proof (length_hints_le items). pose proof (zlen_hints_bytes items) as Hz. unfold zlen in Hz. lia.
Qed.

Lemma reads_nil r : reads r [] → hr_next r = (inl None, r).
Proof.
  intros (m & pre & post & off & -> & _ & Hoff). change (hint_sizes []) with 0 in Hoff. unfold hr_next.
  cbn [hr_meta hr_offset]. destruct (Z.leb_spec (indexOffset m) off); [done|lia].
Qed.

Lemma reads_cons r it items :
  reads r (it :: items) → ∃ r', hr_next r = (inl (Some it), r') ∧ reads r' items ∧ hr_meta r' = hr_meta r.
Proof.
  intros (m & pre & post & off & -> & Hok & Hoff). apply Forall_cons in Hok as [Hit Hok].
  rewrite hint_sizes_cons in Hoff. pose proof (hint_size_pos it). pose proof (hint_sizes_nonneg items).
  change (hints_bytes (it :: items)) with (hint_item_bytes it ++ hints_bytes items).
  rewrite <- (app_assoc (hint_item_bytes it)). rewrite hr_next_item by (try done; lia).
  eexists. split; [done|]. split; [|done]. exists m, (pre ++ hint_item_bytes it), post, (off + hint_size it).
  split; [|split; [done|lia]]. rewrite <- app_assoc. f_equal. rewrite length_app. f_equal.
  pose proof (zlen_hint_item it) as Hz. unfold zlen in Hz. lia.
Qed.

(** ** The loop writes the sources in order *)

Definition pending (mr : mergeReader) : list HintItem :=
  mr_curr mr :: (at_chunk (mr_chunkID mr) <$> rest (mr_r mr)).
Definition pool (h : list mergeReader) : list HintItem := h ≫= pending.
Definition reader_ok (mr : mergeReader) : Prop :=
  reads (mr_r mr) (rest (mr_r mr)) ∧ StronglySorted hint_lt (pending mr).

#[global] Instance pool_proper : Proper ((≡ₚ) ==> (≡ₚ)) pool.
Proof. intros h h' Hp. unfold pool. by rewrite Hp. Qed.

Lemma pool_cons mr h : pool (mr :: h) = pending mr ++ pool h.
Proof. done. Qed.

Lemma at_chunk_key c it : hint_key (at_chunk c it) = hint_key it.
Proof. done. Qed.

Lemma pending_le mr y : reader_ok mr → y ∈ pending mr → item_le (mr_curr mr) y.
Proof.
  intros [_ Hs] Hy. apply item_le_alt. unfold pending in *. apply StronglySorted_inv in Hs as [_ Hf].
  apply elem_of_cons in Hy as [->|Hy]; [right; split; [done|lia]|left]. rewrite Forall_forall in Hf. by apply Hf.
Qed.

(** The heap facts at the order of the merge. *)
Lemma merge_pop h :
  heap_ok merge_less h → h ≠ [] →
  ∃ mr h', heap_Pop merge_less h = Some (mr, h') ∧ h ≡ₚ mr :: h' ∧ heap_ok merge_less h'
    ∧ ∀ mr', mr' ∈ h → item_le (mr_curr mr) (mr_curr mr').
Proof.
  apply heap_Pop_spec.
  - intros a b. apply item_less_asym.
  - intros a b c. apply item_le_trans.
Qed.
Lemma merge_push h mr :
  heap_ok merge_less h → heap_Push merge_less h mr ≡ₚ mr :: h ∧ heap_ok merge_less (heap_Push merge_less h mr).
Proof.
  apply heap_Push_spec.
  - intros a b. apply item_less_asym.
  - intros a b c. apply item_le_trans.
Qed.
Lemma merge_init h : heap_Init merge_less h ≡ₚ h ∧ heap_ok merge_less (heap_Init merge_less h).
Proof.
  apply heap_Init_spec.
  - intros a b. apply item_less_asym.
  - intros a b c. apply item_le_trans.
Qed.

(** Reading on in the reader that was popped: the heap of the next round. *)
Definition push_next (h : list mergeReader) (mr : mergeReader) : list mergeReader :=
  match hr_next (mr_r mr) with
  | (inl (Some it), r) => heap_Push merge_less h (mkMergeReader r (mr_chunkID mr) (at_chunk (mr_chunkID mr) it))
  | _ => h
  end.

Lemma reader_next h mr :
  heap_ok merge_less h → Forall reader_ok h → reader_ok mr →
  heap_ok merge_less (push_next h mr) ∧ Forall reader_ok (push_next h mr)
  ∧ mr_curr mr :: pool (push_next h mr) ≡ₚ pool (mr :: h)
  ∧ ∃ res, hr_next (mr_r mr) = (inl res, (hr_next (mr_r mr)).2).
Proof.
  intros Hh Hf [Hr Hs]. rewrite pool_cons. unfold push_next. unfold pending in Hs |- *.
  destruct (rest (mr_r mr)) as [|it l] eqn:Hrest.
  - rewrite (reads_nil _ Hr). split_and!; [done|done|done|by eexists].
  - destruct (reads_cons _ _ _ Hr) as (r' & -> & Hr' & _). cbn [snd].
    set (mr' := mkMergeReader r' (mr_chunkID mr) (at_chunk (mr_chunkID mr) it)).
    destruct (merge_push h mr' Hh) as [Hp Hok]. pose proof (reads_rest _ _ Hr') as Hl.
    assert (pending mr' = at_chunk (mr_chunkID mr) <$> it :: l) as Hpend
      by (unfold pending, mr'; cbn [mr_r mr_chunkID mr_curr]; by rewrite Hl).
    split_and!; [done| | |by eexists].
    + rewrite Hp. apply Forall_cons. split; [|done]. split; [cbn [mr_r mr']; by rewrite Hl|].
      rewrite Hpend. by apply StronglySorted_inv in Hs as [Hs _].
    + by rewrite Hp, pool_cons, Hpend.
Qed.

(** ** The items that survive *)

(** One more item: it replaces the last one of the same key. *)
Definition keep (acc : list HintItem) (it : HintItem) : list HintItem :=
  match last acc with
  | Some old => if decide (hint_key old = hint_key it) then take (length acc - 1) acc ++ [it] else acc ++ [it]
  | None => [it]
  end.
Definition survivors (out : list HintItem) : list HintItem := foldl keep [] out.

Lemma keep_snoc a old it :
  keep (a ++ [old]) it = if decide (hint_key old = hint_key it) then a ++ [it] else a ++ [old; it].
Proof.
  unfold keep. rewrite last_snoc. case_decide; [|by rewrite <- app_assoc].
  rewrite length_app. cbn [length]. by rewrite Nat.add_sub, take_app_length.
Qed.

(** What the survivors of a sorted list are: in strict order, from the list, and
    at least as new as every item of their key. *)
Record survive (out acc : list HintItem) : Prop := {
  sv_sorted : StronglySorted hint_lt acc;
  sv_from x : x ∈ acc → x ∈ out;
  sv_newest x : x ∈ out → ∃ y, y ∈ acc ∧ hint_key y = hint_key x ∧ item_pos x <= item_pos y;
  sv_len : (length acc <= length out)%nat
}.

Lemma sorted_snoc l x : StronglySorted hint_lt l → (∀ y, y ∈ l → hint_lt y x) → StronglySorted hint_lt (l ++ [x]).
Proof.
  intros Hs Hx. apply StronglySorted_app_2; [|done|repeat constructor].
  intros y z Hy ->%list_elem_of_singleton. by apply Hx.
Qed.

Lemma elem_of_sorted_key l x y :
  StronglySorted hint_lt l → x ∈ l → y ∈ l → hint_key x = hint_key y → x = y.
Proof.
  induction 1 as [|z l Hs IH Hz]; [by intros ?%not_elem_of_nil|]. rewrite Forall_forall in Hz.
  intros [->|Hx]%elem_of_cons [->|Hy]%elem_of_cons Hk; [done| | |by apply IH].
  - by apply Hz, hint_lt_key in Hy.
  - apply Hz, hint_lt_key in Hx. congruence.
Qed.

Lemma survive_snoc out acc it :
  survive out acc → (∀ x, x ∈ out → item_le x it) → survive (out ++ [it]) (keep acc it).
Proof.
  intros [Hs Hfr Hnw Hl] Hle. destruct acc as [|old a _] using rev_ind.
  { split; cbn.
    - repeat constructor.
    - intros x ->%list_elem_of_singleton. apply elem_of_app. right. by left.
    - intros x [Hx| ->%list_elem_of_singleton]%elem_of_app.
      + destruct (Hnw x Hx) as (y & Hy & _). by apply not_elem_of_nil in Hy.
      + exists it. split; [by left|]. split; [done|lia].
    - rewrite length_app. simpl. lia. }
  apply StronglySorted_app in Hs as (Hlt & Ha & _).
  assert (∀ y, y ∈ a → hint_lt y old) as Hold by (intros y Hy; apply Hlt; [done|by left]).
  assert (item_le old it) as Hoi by (apply Hle, Hfr, elem_of_app; right; by left).
  rewrite length_app in Hl. cbn [length] in Hl. rewrite keep_snoc. case_decide as Hk.
  - split.
    + apply sorted_snoc; [done|]. intros y Hy. rewrite <- (hint_lt_same_r old it) by done. by apply Hold.
    + intros x [Hx| ->%list_elem_of_singleton]%elem_of_app; apply elem_of_app; [left; apply Hfr, elem_of_app; by left|right; by left].
    + intros x [Hx| ->%list_elem_of_singleton]%elem_of_app.
      * destruct (Hnw x Hx) as (y & [Hy| ->%list_elem_of_singleton]%elem_of_app & Hky & Hp).
        -- exists y. split; [apply elem_of_app; by left|done].
        -- exists it. split; [apply elem_of_app; right; by left|]. split; [congruence|].
           apply Hle, item_le_alt in Hx as [Hx%hint_lt_key|[_ ?]]; [congruence|done].
      * exists it. split; [apply elem_of_app; right; by left|]. split; [done|lia].
    + rewrite !length_app. simpl. lia.
  - assert (hint_lt old it) as Hlt' by (apply item_le_alt in Hoi as [|[? _]]; [done|congruence]).
    change [old; it] with ([old] ++ [it]). rewrite app_assoc. split.
    + apply sorted_snoc; [by apply sorted_snoc|]. intros y [Hy| ->%list_elem_of_singleton]%elem_of_app; [|done].
      eapply hint_lt_trans; [by apply Hold|done].
    + intros x [Hx|Hx]%elem_of_app; apply elem_of_app; [left; by apply Hfr|by right].
    + intros x [Hx| ->%list_elem_of_singleton]%elem_of_app.
      * destruct (Hnw x Hx) as (y & Hy & ?). exists y. split; [apply elem_of_app; by left|done].
      * exists it. split; [apply elem_of_app; right; by left|]. split; [done|lia].
    + rewrite !length_app. simpl. lia.
Qed.

Lemma survivors_spec out : StronglySorted item_le out → survive out (survivors out).
Proof.
  induction out as [|it out IH] using rev_ind; intros Hs.
  { split; [constructor|by intros ? ?%not_elem_of_nil|by intros ? ?%not_elem_of_nil|done]. }
  apply StronglySorted_app in Hs as (Hlt & Hs & _). unfold survivors. rewrite foldl_app. cbn [foldl].
  apply survive_snoc; [by apply IH|]. intros x Hx. apply Hlt; [done|by left].
Qed.

(** ** The collision table after a merge *)

Definition of_hash (kh : Z) (its : list HintItem) : list HintItem := filter (λ it, Keyhash (hi_meta it) = kh) its.
Definition of_key (kh : Z) (key : bytes) (its : list HintItem) : list HintItem :=
  filter (λ it, hint_key it = (kh, key)) its.

(** [ct] is [ct0] with the items of [its] whose hash several have. *)
Definition table_after (ct0 : CollisionTable) (its : list HintItem) (ct : CollisionTable) : Prop :=
  ∀ kh key, ct_get ct kh key =
    if decide (2 <= length (of_hash kh its))%nat
    then (foldl latest (fst (ct_get ct0 kh key)) (of_key kh key its), true) else ct_get ct0 kh key.

Lemma compareAndSet_get t it kh key :
  ct_get (compareAndSet t it false) kh key =
    if decide (Keyhash (hi_meta it) = kh)
    then (if decide (hint_key it = (kh, key)) then latest (fst (ct_get t kh key)) it else fst (ct_get t kh key), true)
    else ct_get t kh key.
Proof.
  rewrite (surjective_pairing (ct_get _ _ _)). rewrite compareAndSet_spec.
  assert (snd (ct_get (compareAndSet t it false) kh key)
    = bool_decide (Keyhash (hi_meta it) = kh) || snd (ct_get t kh key)) as ->.
  { rewrite !ct_get_alt. cbn [snd]. unfold compareAndSet.
    destruct (ct_Items t !! Keyhash (hi_meta it)) as [items|] eqn:Hk;
      [destruct (match items !! hi_Key it with None => true | Some _ => _ end)|]; cbn [ct_Items];
      (destruct (bool_decide_reflect (Keyhash (hi_meta it) = kh)) as [<-|]); cbn [orb];
      rewrite ?lookup_insert_eq, ?lookup_insert_ne by done;
      try done; apply bool_decide_eq_true_2; by eexists. }
  case_decide as Hh.
  - rewrite (bool_decide_eq_true_2 (Keyhash _ = _)) by done. cbn [orb]. case_bool_decide; case_decide; try done; congruence.
  - rewrite (bool_decide_eq_false_2 (Keyhash _ = _)) by done. cbn [orb].
    rewrite bool_decide_eq_false_2 by (unfold hint_key; congruence). by destruct (ct_get t kh key).
Qed.

Lemma set_all_get k its : ∀ t kh key,
  (∀ it, it ∈ its → Keyhash (hi_meta it) = k) →
  ct_get (set_all t its) kh key =
    if decide (kh = k ∧ its ≠ []) then (foldl latest (fst (ct_get t kh key)) (of_key kh key its), true)
    else ct_get t kh key.
Proof.
  induction its as [|it its IH]; intros t kh key Hk; [by rewrite decide_False by naive_solver|].
  unfold set_all in *. cbn [foldl]. rewrite IH by (intros; apply Hk; by right). rewrite compareAndSet_get.
  rewrite (Hk it) by (by left). unfold of_key. rewrite filter_cons.
  destruct (decide (kh = k)) as [->|Hne].
  - rewrite (decide_True (P := k = k)) by done. rewrite (decide_True (P := k = k ∧ it :: its ≠ [])) by done.
    case_decide as H1; case_decide as H2; try done.
    + destruct its as [|? ?]; [|naive_solver]. done.
    + destruct its as [|? ?]; [|naive_solver]. done.
  - by rewrite !decide_False by naive_solver.
Qed.

Section Merge.
Context (Conf : HStoreConfig).

(** The writer fed with a list of items. *)
Fixpoint mw_run (mw : mergeWriter) (out : list HintItem) : mergeWriter * merge_end :=
  match out with
  | [] => (mw, EndDone)
  | it :: out => let '(mw, ok) := mw_write Conf mw it in if negb ok then (mw, EndPanic) else mw_run mw out
  end.

Lemma merge_loop_run aborts forGC fuel : ∀ i h mw,
  heap_ok merge_less h → Forall reader_ok h → (length (pool h) < fuel)%nat → (forGC = true ∨ ∀ n, aborts n = false) →
  ∃ out, out ≡ₚ pool h ∧ StronglySorted item_le out
    ∧ merge_loop Conf aborts forGC fuel i h mw = Some (mw_run mw out).
Proof.
  induction fuel as [|fuel IH]; intros i h mw Hok Hf Hfu Hna; [lia|]. cbn [merge_loop].
  destruct h as [|m0 h0]; [by exists []; split_and!; [|constructor|]|]. set (h := m0 :: h0) in *.
  replace (aborts i && negb forGC) with false by (destruct Hna as [->|Hna]; [by destruct (aborts i)|by rewrite Hna]).
  destruct (merge_pop h Hok ltac:(done)) as (mr & h' & Hpop & Hp & Hok' & Hmin). rewrite Hpop. cbn [mbind option_bind].
  rewrite Hp in Hf. apply Forall_cons in Hf as [Hmr Hf'].
  destruct (reader_next h' mr Hok' Hf' Hmr) as (Hokn & Hfn & Hpn & res & Hnext).
  destruct (IH (S i) (push_next h' mr) (mw_write Conf mw (mr_curr mr)).1 Hokn Hfn) as (out & Hout & Hs & Hrun);
    [apply Permutation_length in Hpn; rewrite <- Hp in Hpn; cbn [length] in Hpn; lia|done|].
  exists (mr_curr mr :: out). split_and!.
  - by rewrite Hout, Hpn, Hp.
  - constructor; [done|]. apply Forall_forall. intros y Hy. rewrite Hout in Hy.
    assert (y ∈ pool h) as Hyh by (rewrite Hp, <- Hpn; by right).
    apply list_elem_of_bind in Hyh as (mr' & Hy' & Hin). apply (item_le_trans _ (mr_curr mr')); [by apply Hmin|].
    apply pending_le; [|done]. rewrite Hp in Hin. apply elem_of_cons in Hin as [->|Hin]; [done|].
    rewrite Forall_forall in Hf'. by apply Hf'.
  - cbn [mw_run]. destruct (mw_write Conf mw (mr_curr mr)) as [mw' ok] eqn:Hw. cbn [fst] in Hrun.
    destruct ok; cbn [negb]; [|done]. rewrite <- Hrun. unfold push_next. rewrite Hnext. by destruct res.
Qed.

(** ** The writer *)

Lemma writeItems_app w a b :
  writeItems Conf w (a ++ b) = (w' ← writeItems Conf w a; writeItems Conf w' b).
Proof.
  revert w. induction a as [|x a IH]; intros w; [done|]. cbn [app writeItems].
  destruct (writeItem Conf w x) as [w1|]; [|done]. cbn [mbind option_bind]. apply IH.
Qed.

(** A writer started on [w0] that has written [its]. *)
Definition has_written (w0 : option hintFileWriter) (its : list HintItem) (w : option hintFileWriter) : Prop :=
  match w0 with
  | None => w = None
  | Some w0 => ∃ w', writeItems Conf w0 its = Some w' ∧ w = Some w'
  end.

(** The state of a merge writer whose survivors so far are [wr], written out, and
    the buffer. *)
Record writer_inv (w0 : option hintFileWriter) (ct0 : CollisionTable) (mw : mergeWriter)
    (wr acc : list HintItem) : Prop := {
  wi_acc : acc = wr ++ mw_buf mw;
  wi_buf x y : x ∈ mw_buf mw → y ∈ mw_buf mw → Keyhash (hi_meta x) = Keyhash (hi_meta y);
  wi_wr x y : x ∈ wr → y ∈ mw_buf mw → Keyhash (hi_meta x) < Keyhash (hi_meta y);
  wi_none : mw_buf mw = [] → wr = [];
  wi_w : has_written w0 wr (mw_w mw);
  wi_ct : table_after ct0 wr (mw_ct mw)
}.

Lemma of_hash_none kh its : (∀ x, x ∈ its → Keyhash (hi_meta x) ≠ kh) → of_hash kh its = [].
Proof.
  intros Hn. unfold of_hash. induction its as [|x its IH]; [done|]. rewrite filter_cons_False by (apply Hn; by left).
  apply IH. intros y Hy. apply Hn. by right.
Qed.
Lemma of_hash_all kh its : (∀ x, x ∈ its → Keyhash (hi_meta x) = kh) → of_hash kh its = its.
Proof.
  intros Hn. unfold of_hash. induction its as [|x its IH]; [done|]. rewrite filter_cons_True by (apply Hn; by left).
  f_equal. apply IH. intros y Hy. apply Hn. by right.
Qed.
Lemma of_key_none kh key its : of_hash kh its = [] → of_key kh key its = [].
Proof.
  unfold of_hash, of_key. induction its as [|x its IH]; [done|]. rewrite !filter_cons.
  case_decide as Hk; [done|]. intros Hn. rewrite decide_False by (unfold hint_key; congruence). by apply IH.
Qed.

Lemma of_hash_app kh a b : of_hash kh (a ++ b) = of_hash kh a ++ of_hash kh b.
Proof. apply filter_app. Qed.
Lemma of_key_app kh key a b : of_key kh key (a ++ b) = of_key kh key a ++ of_key kh key b.
Proof. apply filter_app. Qed.

Lemma flush_table ct0 wr buf ct k :
  (∀ x, x ∈ buf → Keyhash (hi_meta x) = k) → (∀ x, x ∈ wr → Keyhash (hi_meta x) ≠ k) →
  table_after ct0 wr ct →
  table_after ct0 (wr ++ buf) (if (1 <? length buf)%nat then set_all ct buf else ct).
Proof.
  intros Hb Hw Ht kh key. rewrite of_hash_app, of_key_app.
  assert (ct_get (if (1 <? length buf)%nat then set_all ct buf else ct) kh key =
    if decide (kh = k ∧ (2 <= length buf)%nat) then (foldl latest (fst (ct_get ct kh key)) (of_key kh key buf), true)
    else ct_get ct kh key) as ->.
  { destruct (Nat.ltb_spec 1 (length buf)) as [Hl|Hl]; [|rewrite decide_False by lia; done].
    rewrite (set_all_get k) by done.
    destruct (decide (kh = k)) as [->|]; [|by rewrite !decide_False by naive_solver].
    rewrite !decide_True; [done|done|]. split; [done|]. intros ->. cbn in Hl. lia. }
  destruct (decide (kh = k)) as [->|Hne].
  - rewrite Ht, (of_hash_none k wr) by done. rewrite (of_key_none k key wr) by (by apply of_hash_none).
    rewrite (of_hash_all k buf) by done. cbn [app length]. rewrite (decide_False (P := 2 <= 0)%nat) by lia.
    by destruct (decide (2 <= length buf)%nat); [rewrite !decide_True|rewrite !decide_False by lia].
  - rewrite (of_hash_none kh buf) by (intros x Hx; rewrite (Hb x Hx); done).
    rewrite (of_key_none kh key buf) by (apply of_hash_none; intros x Hx; rewrite (Hb x Hx); done).
    rewrite !app_nil_r, decide_False by naive_solver. apply Ht.
Qed.

Lemma mw_flush_inv w0 ct0 mw wr acc max :
  writer_inv w0 ct0 mw wr acc → hints_fit acc max → (∀ w, w0 = Some w → w = newHintFileWriter max) →
  ∃ mw', mw_flush Conf mw = (mw', true) ∧ mw_buf mw' = mw_buf mw
    ∧ has_written w0 acc (mw_w mw') ∧ table_after ct0 acc (mw_ct mw').
Proof.
  intros [Ha Hb Hw Hn Hwr Ht] Hfit Hw0. unfold mw_flush.
  assert (table_after ct0 acc (if (1 <? length (mw_buf mw))%nat then set_all (mw_ct mw) (mw_buf mw) else mw_ct mw)) as Ht'.
  { rewrite Ha. destruct (mw_buf mw) as [|b bs] eqn:Hbuf; [by rewrite Hn in Ht |- * by done|].
    apply (flush_table _ _ _ _ (Keyhash (hi_meta b))); [| |done].
    - intros x Hx. apply Hb; [done|by left].
    - intros x Hx Heq. specialize (Hw x b Hx ltac:(by left)). lia. }
  destruct w0 as [w0|]; cbn [has_written] in Hwr.
  - rewrite (Hw0 w0) in * by done. destruct Hwr as (w1 & Hw1 & ->).
    destruct (hint_file_layout Conf acc max Hfit) as (w2 & Hw2 & _).
    pose proof Hw2 as Hw3. rewrite Ha, writeItems_app, Hw1 in Hw3. cbn [mbind option_bind] in Hw3. rewrite Hw3.
    eexists. split; [done|]. split; [done|]. split; [by exists w2|done].
  - rewrite Hwr. eexists. split; [done|]. by split.
Qed.

Lemma mw_write_inv w0 ct0 mw wr acc it max :
  writer_inv w0 ct0 mw wr acc → hints_fit acc max → (∀ w, w0 = Some w → w = newHintFileWriter max) →
  (∀ x, x ∈ acc → item_le x it) →
  ∃ mw' wr', mw_write Conf mw it = (mw', true) ∧ writer_inv w0 ct0 mw' wr' (keep acc it).
Proof.
  intros Hinv Hfit Hw0 Hle. pose proof Hinv as [Ha Hb Hw Hn Hwr Ht]. unfold mw_write.
  destruct (mw_buf mw) as [|old buf _] eqn:Hbuf using rev_ind.
  { rewrite Hn in * by done. exists (mkMergeWriter (mw_w mw) [it] (mw_ct mw)), []. split; [done|].
    rewrite Ha. split; cbn; try done.
    - by intros x y ->%list_elem_of_singleton ->%list_elem_of_singleton.
    - by intros x y ?%not_elem_of_nil. }
  rewrite last_snoc. assert (item_le old it) as Hoi.
  { apply Hle. rewrite Ha. apply elem_of_app. right. apply elem_of_app. right. by left. }
  assert (Keyhash (hi_meta old) <= Keyhash (hi_meta it)) as Hkh.
  { apply item_le_alt in Hoi as [[?|[? _]]|[Hk _]]; [lia|lia|]. unfold hint_key in Hk. injection Hk as ? ?. lia. }
  assert (old ∈ buf ++ [old]) as Hin by (apply elem_of_app; right; by left).
  destruct (Z.eqb_spec (Keyhash (hi_meta old)) (Keyhash (hi_meta it))) as [He|He]; cbn [negb].
  - assert (keep acc it = wr ++ if bytes_eqb (hi_Key old) (hi_Key it) then buf ++ [it] else buf ++ [old; it]) as Hkeep.
    { rewrite Ha, (app_assoc wr buf), keep_snoc. unfold hint_key. destruct (bytes_eqb _ _) eqn:Hk.
      - apply bytes_eqb_true in Hk. rewrite decide_True by congruence. by rewrite <- app_assoc.
      - apply bytes_eqb_false in Hk. rewrite decide_False by congruence. by rewrite <- app_assoc. }
    assert (∀ x, x ∈ buf ++ [old; it] → Keyhash (hi_meta x) = Keyhash (hi_meta old)) as Hsame.
    { intros x [Hx|[->|[->|?%not_elem_of_nil]%elem_of_cons]%elem_of_cons]%elem_of_app; try done.
      apply Hb; [|done]. apply elem_of_app. by left. }
    set (buf' := if bytes_eqb (hi_Key old) (hi_Key it) then buf ++ [it] else buf ++ [old; it]) in *.
    assert (∀ x, x ∈ buf' → x ∈ buf ++ [old; it]) as Hsub.
    { intros x. unfold buf'. destruct (bytes_eqb _ _); [|done]. rewrite !elem_of_app, !elem_of_cons. tauto. }
    exists (mkMergeWriter (mw_w mw) buf' (mw_ct mw)), wr. split.
    { unfold buf'. destruct (bytes_eqb (hi_Key old) (hi_Key it)); cbn [negb].
      - rewrite length_app. cbn [length]. by rewrite Nat.add_sub, take_app_length.
      - by rewrite <- app_assoc. }
    rewrite Hkeep. split; cbn [mw_buf mw_w mw_ct]; try done.
    + intros x y Hx%Hsub Hy%Hsub. rewrite (Hsame x), (Hsame y); done.
    + intros x y Hx Hy%Hsub. rewrite (Hsame y Hy). by apply Hw.
    + unfold buf'. destruct (bytes_eqb _ _); by destruct buf.
  - destruct (mw_flush_inv w0 ct0 mw wr acc max Hinv Hfit Hw0) as (mw' & -> & _ & Hw' & Ht').
    exists (mkMergeWriter (mw_w mw') [it] (mw_ct mw')), acc. split; [done|].
    assert (keep acc it = acc ++ [it]) as ->.
    { rewrite Ha, (app_assoc wr buf), keep_snoc. rewrite decide_False by (unfold hint_key; congruence).
      by rewrite <- !app_assoc. }
    split; cbn [mw_buf mw_w mw_ct]; try done.
    + by intros x y ->%list_elem_of_singleton ->%list_elem_of_singleton.
    + intros x y Hx ->%list_elem_of_singleton. rewrite Ha in Hx. apply elem_of_app in Hx as [Hx|Hx].
      * specialize (Hw x old Hx Hin). lia.
      * rewrite (Hb x old Hx Hin). lia.
Qed.

End Merge.
