(* ===== verification/HintMergeProps.v ===== *)
(** * Properties of the merge of hint files *)

From stdpp Require Import gmap sorting.
From S2P Require Import Prelude Config Cmem Key Item Fixtures DataFile Data DataSpec HintFile Hint HintSpec HintProps.
From S2P Require Import Heap HintMerge HintMergeSpec.

Section Props.
Context (Conf : HStoreConfig).

(** A source: a file that holds a sorted, non-empty list of items. *)
Record src_ok (s : Z * bytes) : Prop := {
  so_chunk : is_u32 (fst s);
  so_file : ∃ items max w, items ≠ [] ∧ StronglySorted hint_lt items ∧ hints_fit items max
    ∧ writeItems Conf (newHintFileWriter max) items = Some w ∧ snd s = hw_close w
}.

(** The items of the sources, each with the chunk its file is of. *)
Definition src_items (s : Z * bytes) : list HintItem := at_chunk (fst s) <$> file_items (snd s).
Definition merge_items (srcs : list (Z * bytes)) : list HintItem := srcs ≫= src_items.

Lemma src_open s :
  src_ok s →
  ∃ r it r', hr_open (snd s) = inl r ∧ hr_next r = (inl (Some it), r') ∧ is_u32 (datasize (hr_meta r'))
    ∧ reader_ok (mkMergeReader r' (fst s) (at_chunk (fst s) it))
    ∧ pending (mkMergeReader r' (fst s) (at_chunk (fst s) it)) = src_items s
    ∧ Forall hint_ok (src_items s) ∧ (length (src_items s) <= length (snd s))%nat.
Proof.
  intros [Hc (items & max & w & Hne & Hs & Hfit & Hw & Hf)]. unfold src_items.
  rewrite Hf, (file_items_written Conf items max w) by done.
  destruct (hint_file_layout Conf items max Hfit) as (w' & Hw' & Hm & Hcl & _ & Ho).
  rewrite Hw in Hw'. injection Hw' as <-. rewrite Ho. destruct (hints_fit_sizes _ _ Hfit) as [Hsz Hn].
  pose proof (hint_sizes_nonneg items) as Hnn. destruct (meta_round_trip (hw_meta w)) as [Hl _];
    [rewrite Hm; cbn; lia|rewrite Hm; cbn; unfold is_u32, zlen in *; lia|rewrite Hm; apply Hfit|].
  assert (reads (mkHintReader (hw_meta w) (hw_close w) 16 16) items) as Hr.
  { exists (hw_meta w), (meta_Dumps (hw_meta w)), (toIndex (hw_index w) ≫= index_bytes), 16.
    rewrite Hcl, Hl. split; [done|]. split; [apply Hfit|]. by rewrite Hm. }
  destruct items as [|it items]; [done|]. destruct (reads_cons _ _ _ Hr) as (r' & Hnx & Hr' & Hmeta).
  eexists _, it, r'. split; [done|]. split; [done|]. rewrite Hmeta. cbn [hr_meta]. rewrite Hm.
  split; [apply Hfit|]. unfold reader_ok, pending. cbn [mr_r mr_chunkID mr_curr].
  rewrite (reads_rest _ _ Hr'). split_and!; [done| |done| |].
  - change (StronglySorted hint_lt (at_chunk (fst s) <$> it :: items)).
    clear -Hs. induction Hs as [|x l Hs IH Hx]; [constructor|]. rewrite fmap_cons. constructor; [done|].
    apply Forall_fmap. apply (Forall_impl _ _ _ Hx). done.
  - apply Forall_fmap. apply (Forall_impl _ _ _ (hf_ok _ _ Hfit)). intros x [? ? ? ? ? ?]. by split.
  - rewrite length_fmap, Hcl, !length_app. pose proof (zlen_hints_bytes (it :: items)) as Hz.
    pose proof (length_hints_le (it :: items)). unfold zlen in Hz. lia.
Qed.

Lemma merge_open_spec srcs : ∀ d,
  Forall src_ok srcs → is_u32 d →
  ∃ hp d', merge_open srcs d = inl (hp, d') ∧ Forall reader_ok hp ∧ pool hp = merge_items srcs ∧ is_u32 d'
    ∧ Forall hint_ok (merge_items srcs) ∧ (length (merge_items srcs) < merge_fuel srcs)%nat.
Proof.
  induction srcs as [|[c f] srcs IH]; intros d Hok Hd.
  { exists [], d. unfold merge_fuel. cbn. split_and!; try done. lia. }
  apply Forall_cons in Hok as [Hs Hok]. destruct (src_open _ Hs) as (r & it & r' & Ho & Hn & Hsz & Hr & Hp & Hh & Hl).
  cbn [fst snd] in *. cbn [merge_open]. rewrite Ho, Hn.
  destruct (IH (if d <? datasize (hr_meta r') then datasize (hr_meta r') else d) Hok) as (hp & d' & -> & Hf & Hpool & Hd' & Hho & Hlen);
    [by destruct (_ <? _)|].
  eexists _, d'. split; [done|]. unfold merge_items in *. cbn [mbind list_bind].
  change (list_bind _ ?g ?x) with (x ≫= g). split_and!.
  - by apply Forall_cons.
  - rewrite pool_cons, Hp. by f_equal.
  - done.
  - by apply Forall_app.
  - rewrite length_app. unfold merge_fuel in *. cbn [sum_list_with snd]. lia.
Qed.

Lemma mw_run_inv w0 ct0 max out : ∀ p acc mw wr,
  writer_inv Conf w0 ct0 mw wr acc → survive p acc → StronglySorted item_le (p ++ out) →
  hints_fit (p ++ out) max → (∀ w, w0 = Some w → w = newHintFileWriter max) →
  ∃ mw' wr' acc', mw_run Conf mw out = (mw', EndDone) ∧ writer_inv Conf w0 ct0 mw' wr' acc' ∧ survive (p ++ out) acc'.
Proof.
  induction out as [|it out IH]; intros p acc mw wr Hinv Hsv Hs Hfit Hw0.
  { exists mw, wr, acc. rewrite app_nil_r in *. done. }
  apply StronglySorted_app in Hs as Hs'. destruct Hs' as (Hlt & _ & _).
  assert (hints_fit acc max) as Hfa.
  { destruct Hfit as [Hok Hl Hm]. apply Forall_app in Hok as [Hok _]. split; [|unfold zlen in *|done].
    - apply Forall_forall. intros x Hx. rewrite Forall_forall in Hok. by apply Hok, (sv_from _ _ Hsv).
    - rewrite length_app in Hl. pose proof (sv_len _ _ Hsv). lia. }
  assert (∀ x, x ∈ p → item_le x it) as Hle by (intros x Hx; apply Hlt; [done|by left]).
  destruct (mw_write_inv Conf w0 ct0 mw wr acc it max Hinv Hfa Hw0) as (mw1 & wr1 & Hwr & Hinv1);
    [intros x Hx; by apply Hle, (sv_from _ _ Hsv)|].
  cbn [mw_run]. rewrite Hwr. cbn [negb]. change (it :: out) with ([it] ++ out) in *. rewrite (app_assoc p) in *.
  apply (IH _ (keep acc it) mw1 wr1); try done. by apply survive_snoc.
Qed.

(** ** The merge *)

(** C19. Merging hint files keeps the newest item of every key. Without an abort by
    garbage collection, [merge] of sorted, non-empty hint files succeeds; its items
    are in strict order of (key hash, key), one for every key of the sources, each
    the item of the largest position the sources have for its key; the merged
    file, when one is written, lists exactly these items and its index finds each
    of them; and the collision table gains exactly the keys whose hash another key
    shares, without losing a newer position it had. *)
Theorem merge_newest srcs ct aborts forGC :
  Forall src_ok srcs → zlen (merge_items srcs) < 4095 * 4096 → (forGC = true ∨ ∀ n, aborts n = false) →
  ∃ out ct' res, merge Conf srcs ct aborts forGC = Some (MergeOk res, ct')
    ∧ StronglySorted hint_lt out
    ∧ (∀ it, it ∈ out → it ∈ merge_items srcs
        ∧ ∀ it', it' ∈ merge_items srcs → hint_key it' = hint_key it → item_pos it' <= item_pos it)
    ∧ (∀ it', it' ∈ merge_items srcs → ∃ it, it ∈ out ∧ hint_key it = hint_key it')
    ∧ table_after ct out ct'
    ∧ (if NoMerged Conf || forGC then res = None
       else ∃ idx, res = Some idx ∧ file_items (hx_file idx) = out
         ∧ ∀ it, it ∈ out → index_get idx (Keyhash (hi_meta it)) (hi_Key it) = Some (inl (Some it))).
Proof.
  intros Hok Hlen Hna. unfold merge.
  destruct (merge_open_spec srcs 0 Hok ltac:(done)) as (hp & d & -> & Hf & Hpool & Hd & Hho & Hfuel).
  destruct (merge_init hp) as [Hp Hheap].
  set (w0 := if negb (NoMerged Conf) && negb forGC then _ else _). set (mw0 := mkMergeWriter w0 [] ct).
  destruct (merge_loop_run Conf aborts forGC (merge_fuel srcs) 0 (heap_Init merge_less hp) mw0)
    as (all & Hall & Hs & ->); [done|by rewrite Hp|by rewrite Hp, Hpool|done|].
  cbn [mbind option_bind]. rewrite Hp, Hpool in Hall.
  assert (hints_fit all d) as Hfit by (split; [by rewrite Hall|unfold zlen in *; by rewrite Hall|done]).
  assert (∀ w, w0 = Some w → w = newHintFileWriter d) as Hw0
    by (intros w; unfold w0; destruct (_ && _); congruence).
  assert (writer_inv Conf w0 ct mw0 [] []) as Hinv.
  { split; cbn; try done; try (by intros ? ? ?%not_elem_of_nil). unfold w0. destruct (_ && _); cbn; eauto. }
  destruct (mw_run_inv w0 ct d all [] [] mw0 [] Hinv) as (mw & wr & out & -> & Hinv' & Hsv); try done.
  { split; [constructor|by intros ? ?%not_elem_of_nil|by intros ? ?%not_elem_of_nil|done]. }
  destruct Hsv as [Hst Hfr Hnw Hl]. cbn [app] in *.
  assert (hints_fit out d) as Hfo.
  { destruct Hfit as [Hok' Hl' Hm]. split; [|unfold zlen in *; lia|done].
    apply Forall_forall. intros x Hx. rewrite Forall_forall in Hok'. by apply Hok', Hfr. }
  unfold merge_close. destruct (mw_flush_inv Conf w0 ct mw wr out d Hinv' Hfo Hw0) as (mw' & -> & _ & Hw & Ht).
  cbn [negb]. eexists out, (mw_ct mw'), _. split; [done|]. split_and!; try done.
  - intros it Hit. split; [rewrite <- Hall; by apply Hfr|]. intros it' Hit' Hk. rewrite <- Hall in Hit'.
    destruct (Hnw it' Hit') as (y & Hy & Hky & Hpos). assert (y = it) as ->; [|done].
    apply (elem_of_sorted_key out); [done|done|done|congruence].
  - intros it' Hit'. rewrite <- Hall in Hit'. destruct (Hnw it' Hit') as (y & Hy & Hky & _). by exists y.
  - unfold w0 in Hw. destruct (NoMerged Conf), forGC; cbn [negb andb orb has_written] in *; try by rewrite Hw.
    destruct Hw as (w & Hw & ->). eexists. split; [done|].
    split; [by apply (file_items_written Conf out d)|]. intros it Hit. by apply (index_get_found Conf out d).
Qed.

(** ** Dumping never starts a merge *)

Lemma hm_dump_state h i j h' : hm_dump Conf h i j = Some h' → hm_state h' = hm_state h.
Proof. unfold hm_dump. intros Hd. by simplify_option_eq. Qed.

Lemma dump_old_state i n : ∀ h j h', dump_old Conf h i j n = Some h' → hm_state h' = hm_state h.
Proof.
  induction n as [|n IH]; intros h j h' Hd; cbn [dump_old] in Hd; [by simplify_eq|].
  destruct (zget (hm_chunks h) i) as [ck|]; [|done]. cbn [mbind option_bind] in Hd.
  destruct (zget (hc_splits ck) j) as [sp|]; [|done]. cbn [mbind option_bind] in Hd.
  destruct (needDump sp) as [nd|]; [|done]. cbn [mbind option_bind] in Hd.
  destruct nd; cbn [mbind option_bind] in Hd; [|by apply IH in Hd].
  destruct (hm_dump Conf h i j) as [h1|] eqn:H1; [|done]. apply IH in Hd. rewrite Hd. by eapply hm_dump_state.
Qed.

Lemma trydump_state h i dumplast now s h' : trydump Conf h i dumplast now = Some (s, h') → hm_state h' = hm_state h.
Proof.
  unfold trydump. intros Ht. destruct (zget (hm_chunks h) i) as [ck|]; [|done]. cbn [mbind option_bind] in Ht.
  destruct (dump_old _ _ _ _ _) as [h1|] eqn:Ho; [|done]. apply dump_old_state in Ho. cbn [mbind option_bind] in Ht.
  destruct (zget (hm_chunks h1) i) as [ck1|]; [|done]. cbn [mbind option_bind] in Ht.
  destruct (negb dumplast && _); [by simplify_eq|]. destruct (hc_lastTS ck1 =? 0); [by simplify_eq|].
  destruct (dumplast || _); [|by simplify_eq].
  destruct (zget (hc_splits ck1) _) as [sp|]; [|done]. cbn [mbind option_bind] in Ht.
  destruct (needDump sp) as [nd|]; [|done]. cbn [mbind option_bind] in Ht. destruct nd; [|by simplify_eq].
  destruct (zset _ _ _) as [cs|]; [|done]. cbn [mbind option_bind] in Ht.
  destruct (hm_dump _ _ _ _) as [h2|] eqn:Hd; [|done]. apply hm_dump_state in Hd. cbn in Ht. simplify_eq. by rewrite Hd.
Qed.

Lemma dump_chunks_state now n : ∀ h i m s h', dump_chunks Conf h i n now m = Some (s, h') → hm_state h' = hm_state h.
Proof.
  induction n as [|n IH]; intros h i m s h' Hd; cbn [dump_chunks] in Hd; [by simplify_eq|].
  destruct (trydump Conf h i false now) as [[s1 h1]|] eqn:Ht; [|done]. cbn [mbind option_bind] in Hd.
  apply IH in Hd. rewrite Hd. by eapply trydump_state.
Qed.

(** The dump round of a bucket never starts a merge, whatever the merge
    interval and the chunks dumped: [dumpAndMerge] sets the dump bit of the state
    and then leaves because the bit is set. *)
Theorem dumpAndMerge_never_merges h forGC now :
  match dumpAndMerge Conf h forGC now with Some (_, _, start) => start = false | None => True end.
Proof.
  unfold dumpAndMerge. set (h1 := hm_with_state h _).
  destruct (dump_chunks Conf h1 _ _ _ _) as [[s h2]|] eqn:Hd; [|done]. cbn [mbind option_bind].
  apply dump_chunks_state in Hd. rewrite Hd. cbn [h1 hm_with_state hm_state].
  assert (Z.land (Z.lor (hm_state h) HintStateDump) HintStateDump = HintStateDump) as ->; [|done].
  rewrite Z.land_lor_distr_l, Z.land_diag. apply Z.bits_inj'. intros n Hn.
  rewrite Z.lor_spec, Z.land_spec. destruct (Z.testbit (hm_state h) n), (Z.testbit HintStateDump n); done.
Qed.

End Props.

(** ** A concrete merge *)

(** Chunk 0 has keys a and b, chunk 1 a newer a and a key that collides with b. *)
Definition merge_src (chunkID : Z) (items : list HintItem) : Z * bytes :=
  (chunkID, match writeItems small_conf (newHintFileWriter 1024) items with Some w => hw_close w | None => [] end).
Definition demo_items0 : list HintItem := [demo_hint 1 (bstr "a") 0 1; demo_hint 2 (bstr "b") 256 1].
Definition demo_items1 : list HintItem := [demo_hint 1 (bstr "a") 512 2; demo_hint 2 (bstr "c") 0 1].
Definition demo_srcs : list (Z * bytes) := [merge_src 0 demo_items0; merge_src 1 demo_items1].

Lemma demo_items_sorted k1 k2 a b c d o1 o2 :
  k1 < k2 → StronglySorted hint_lt [demo_hint k1 a o1 c; demo_hint k2 b o2 d].
Proof.
  intros Hk. constructor; [repeat constructor|]. apply Forall_singleton. by left.
Qed.

Lemma demo_srcs_ok : Forall (src_ok small_conf) demo_srcs.
Proof.
  assert (∀ c items w, (forallb hint_okb items && (length items <? 10)%nat) = true → items ≠ [] →
    StronglySorted hint_lt items → is_u32 c →
    writeItems small_conf (newHintFileWriter 1024) items = Some w → src_ok small_conf (merge_src c items)) as Hsrc.
  { intros c items w Hb Hne Hs Hc Hw. split; [done|]. exists items, 1024, w. unfold merge_src. rewrite Hw.
    apply andb_true_iff in Hb as [Hb Hl]. split_and!; try done. split; [|unfold zlen; apply Nat.ltb_lt in Hl; lia|done].
    apply Forall_forall. intros x Hx. apply hint_okb_ok. rewrite forallb_forall in Hb. by apply Hb, list_elem_of_In. }
  apply Forall_cons. split; [|apply Forall_singleton].
  - eapply Hsrc; [by vm_compute|done|by apply demo_items_sorted|done|by vm_compute].
  - eapply Hsrc; [by vm_compute|done|by apply demo_items_sorted|done|by vm_compute].
Qed.

Lemma merge_newest_witness :
  ∃ out ct' idx, merge small_conf demo_srcs newCollisionTable (λ _, false) false = Some (MergeOk (Some idx), ct')
    ∧ file_items (hx_file idx) = out ∧ table_after newCollisionTable out ct'
    ∧ ∀ it, it ∈ out → it ∈ merge_items demo_srcs.
Proof.
  destruct (merge_newest small_conf demo_srcs newCollisionTable (λ _, false) false)
    as (out & ct' & res & Hm & _ & Hnew & _ & Ht & idx & -> & Hf & _).
  - apply demo_srcs_ok.
  - by vm_compute.
  - by right.
  - exists out, ct', idx. split; [exact Hm|]. split; [exact Hf|]. split; [exact Ht|].
    intros it Hit. by apply Hnew.
Defined.

(** The same merge, evaluated: key a from chunk 1, both colliding keys in the table. *)
Example demo_merge_result :
  match merge small_conf demo_srcs newCollisionTable (λ _, false) false with
  | Some (MergeOk (Some idx), ct') =>
      file_items (hx_file idx)
        = [at_chunk 1 (demo_hint 1 (bstr "a") 512 2); at_chunk 0 (demo_hint 2 (bstr "b") 256 1);
           at_chunk 1 (demo_hint 2 (bstr "c") 0 1)]
      ∧ ct_get ct' 2 (bstr "b") = (Some (at_chunk 0 (demo_hint 2 (bstr "b") 256 1)), true)
      ∧ ct_get ct' 1 (bstr "a") = (None, false)
  | _ => False
  end.
Proof. vm_compute. by split_and!. Qed.
