(* ===== verification/Paths.v ===== *)
(** * File names (src/store/hint.go, data.go and bucket.go)

    Index files are named by the numbers of their chunk and split, three digits each. The
    components keep their files by these numbers and take the order of the numbers for the
    order of the names; here the names are written and parsed, and the two orders agree.
    [None] is a run-time panic. *)

From stdpp Require Import gmap sorting.
From S2P Require Import Prelude Strconv Config Key Cmem Item DataFile Data HintFile Hint HintMerge.

(** [filepath.Base]. *)
Fixpoint cut_slashes (s : bytes) : bytes :=
  match s with c :: s' => if c =? 47 then cut_slashes s' else s | [] => [] end.
Fixpoint upto_slash (s : bytes) : bytes :=
  match s with c :: s' => if c =? 47 then [] else c :: upto_slash s' | [] => [] end.
Definition Base (path : bytes) : bytes :=
  match path with
  | [] => bstr "."
  | _ => match rev (upto_slash (cut_slashes (rev path))) with [] => bstr "/" | s => s end
  end.


(** ** Names of index files *)

Definition MAX_NUM_SPLIT : Z := 998.

Definition idToStr (id : Z) : bytes := if id <? 0 then bstr "*" else pad0 3 (fmt_uint 10 id).

Definition getIndexPath (home : bytes) (chunkID splitID : Z) (suffix : bytes) : bytes :=
  home ++ bstr "/" ++ idToStr chunkID ++ bstr "." ++ idToStr splitID ++ bstr ".idx." ++ suffix.
Definition getPath (home : bytes) (chunkID splitID : Z) (merged : bool) : bytes :=
  getIndexPath home chunkID splitID (if merged then bstr "m" else bstr "s").
Definition getHtreePath (home : bytes) (chunkID splitID : Z) : bytes := getIndexPath home chunkID splitID (bstr "hash").

Definition parseChunkIDFromName (name : bytes) : option (option Z) := s ← zslice name 0 3; Some (Atoi s).
Definition parseSplitIDFromName (name : bytes) : option (option Z) := s ← zslice name 4 7; Some (Atoi s).
Definition parseIDFromName (name : bytes) : option (option (Z * Z)) :=
  ck ← parseChunkIDFromName name;
  sp ← parseSplitIDFromName name;
  Some (match ck, sp with
        | Some ck, Some sp => if (ck <? MAX_NUM_CHUNK) && (sp <? MAX_NUM_SPLIT) then Some (ck, sp) else None
        | _, _ => None
        end).
Definition parseIDFromPath (path : bytes) : option (option (Z * Z)) := parseIDFromName (Base path).

(** [getAllIndex] on the paths that [Glob] finds, in any order. *)
Definition name_le (a b : bytes) : Prop := bytes_ltb b a = false.
#[export] Instance name_le_dec : RelDecision name_le.
Proof. intros a b. unfold name_le. apply _. Defined.
Fixpoint parse_all (paths : list bytes) : option (list bytes * list (Z * Z)) :=
  match paths with
  | [] => Some ([], [])
  | p :: paths =>
      id ← parseIDFromPath p;
      '(ps, ids) ← parse_all paths;
      Some (match id with Some id => (p :: ps, id :: ids) | None => (ps, ids) end)
  end.
Definition getAllIndex (globbed : list bytes) : option (list bytes * list (Z * Z)) := parse_all (merge_sort name_le globbed).

(** ** Reading names back *)

Lemma upto_slash_app s rest : Forall (λ c, c ≠ 47) s → upto_slash (s ++ 47 :: rest) = s.
Proof. induction 1 as [|c s Hc Hs IH]; [done|]. cbn [app upto_slash]. rewrite (proj2 (Z.eqb_neq _ _) Hc). by f_equal. Qed.

(** [Base] takes the last component. *)
Lemma Base_last dir s : s ≠ [] → Forall (λ c, c ≠ 47) s → Base (dir ++ 47 :: s) = s.
Proof.
  intros Hs Hc. unfold Base. destruct (dir ++ 47 :: s) as [|x l] eqn:Hp; [by destruct dir|]. rewrite <- Hp.
  rewrite rev_app_distr. cbn [rev]. rewrite <- app_assoc. cbn [app].
  assert (Forall (λ c, c ≠ 47) (rev s)) as Hr by (rewrite rev_alt; by rewrite <- rev_alt; apply Forall_rev).
  assert (cut_slashes (rev s ++ 47 :: rev dir) = rev s ++ 47 :: rev dir) as ->.
  { destruct (rev s) as [|c r] eqn:Hrev.
    - exfalso. apply Hs. rewrite <- (rev_involutive s), Hrev. done.
    - inversion Hr as [|? ? Hc0 _]; subst. cbn [app cut_slashes]. by rewrite (proj2 (Z.eqb_neq _ _) Hc0). }
  rewrite (upto_slash_app _ _ Hr), rev_involutive. by destruct s.
Qed.


(** Three digits. *)
Definition digits3 (n : Z) : bytes := [48 + n / 100; 48 + n / 10 mod 10; 48 + n mod 10].
Lemma idToStr_digits n : 0 <= n < 1000 → idToStr n = digits3 n ∧ Atoi (digits3 n) = Some n.
Proof.
  assert (forallb (λ n, bool_decide (idToStr n = digits3 n ∧ Atoi (digits3 n) = Some n)) (Z.of_nat <$> seq 0 1000) = true) as H by (by vm_compute).
  intros Hn. rewrite forallb_forall in H. specialize (H n). rewrite bool_decide_eq_true in H. apply H, list_elem_of_In, list_elem_of_fmap.
  exists (Z.to_nat n). split; [lia|]. apply elem_of_seq. lia.
Qed.

(** The numbers of a file that the program writes. *)
Definition id_ok (id : Z * Z) : Prop := 0 <= id.1 < MAX_NUM_CHUNK ∧ 0 <= id.2 < MAX_NUM_SPLIT.

Lemma getIndexPath_digits home ck sp suffix :
  id_ok (ck, sp) → getIndexPath home ck sp suffix = home ++ 47 :: digits3 ck ++ 46 :: digits3 sp ++ bstr ".idx." ++ suffix.
Proof.
  intros [H1 H2]. cbn in H1, H2. unfold MAX_NUM_CHUNK, MAX_NUM_SPLIT in *. unfold getIndexPath.
  rewrite (proj1 (idToStr_digits ck ltac:(lia))), (proj1 (idToStr_digits sp ltac:(lia))). done.
Qed.

Lemma digits3_no_slash n : 0 <= n < 1000 → Forall (λ c, c ≠ 47) (digits3 n).
Proof. intros Hn. unfold digits3. repeat (apply Forall_cons_2; [cbn beta; Z.div_mod_to_equations; lia|]). apply Forall_nil_2. Qed.

Lemma parse_getIndexPath home ck sp suffix :
  id_ok (ck, sp) → Forall (λ c, c ≠ 47) suffix → parseIDFromPath (getIndexPath home ck sp suffix) = Some (Some (ck, sp)).
Proof.
  intros Hid Hs. rewrite getIndexPath_digits by done. destruct Hid as [H1 H2]. cbn in H1, H2. unfold MAX_NUM_CHUNK, MAX_NUM_SPLIT in *.
  unfold parseIDFromPath. rewrite Base_last; [|done|].
  - unfold parseIDFromName, parseChunkIDFromName, parseSplitIDFromName.
    assert (zslice (digits3 ck ++ 46 :: digits3 sp ++ bstr ".idx." ++ suffix) 0 3 = Some (digits3 ck)) as ->.
    { unfold zslice, zlen. rewrite length_app. cbn [length digits3 app]. rewrite length_app. cbn [length].
      rewrite (proj2 (Z.leb_le _ _)), (proj2 (Z.leb_le 0 3)), (proj2 (Z.leb_le 3 _)) by lia. done. }
    assert (zslice (digits3 ck ++ 46 :: digits3 sp ++ bstr ".idx." ++ suffix) 4 7 = Some (digits3 sp)) as ->.
    { unfold zslice, zlen. rewrite length_app. cbn [length digits3 app]. rewrite length_app. cbn [length].
      rewrite (proj2 (Z.leb_le 0 4)), (proj2 (Z.leb_le 4 7)), (proj2 (Z.leb_le 7 _)) by lia. done. }
    cbn [mbind option_bind]. rewrite (proj2 (idToStr_digits ck ltac:(lia))), (proj2 (idToStr_digits sp ltac:(lia))).
    rewrite (proj2 (Z.ltb_lt ck _)), (proj2 (Z.ltb_lt sp _)) by (unfold MAX_NUM_CHUNK, MAX_NUM_SPLIT; lia). done.
  - rewrite Forall_app. split; [apply digits3_no_slash; lia|]. constructor; [done|]. rewrite Forall_app. split; [apply digits3_no_slash; lia|].
    rewrite Forall_app. split; [|done]. apply (bool_decide_unpack _). by vm_compute.
Qed.

(** ** The order of names *)

Lemma bytes_ltb_common p a b : bytes_ltb (p ++ a) (p ++ b) = bytes_ltb a b.
Proof. induction p as [|c p IH]; [done|]. cbn. by rewrite Z.ltb_irrefl, Z.eqb_refl, IH. Qed.

#[local] Ltac solve_digits := Z.div_mod_to_equations; lia.

Lemma digits3_order x y a b :
  0 <= x < 1000 → 0 <= y < 1000 →
  bytes_ltb (digits3 x ++ a) (digits3 y ++ b) = (x <? y) || ((x =? y) && bytes_ltb a b).
Proof.
  intros Hx Hy. unfold digits3. cbn [app bytes_ltb].
  destruct (Z.ltb_spec x y) as [Hlt|Hge].
  - cbn [orb]. destruct (Z.ltb_spec (48 + x / 100) (48 + y / 100)); [done|]. destruct (Z.eqb_spec (48 + x / 100) (48 + y / 100)); [|solve_digits].
    cbn [orb andb]. destruct (Z.ltb_spec (48 + (x / 10) mod 10) (48 + (y / 10) mod 10)); [done|].
    destruct (Z.eqb_spec (48 + (x / 10) mod 10) (48 + (y / 10) mod 10)); [|solve_digits]. cbn [orb andb].
    destruct (Z.ltb_spec (48 + x mod 10) (48 + y mod 10)); [done|solve_digits].
  - cbn [orb]. destruct (Z.eqb_spec x y) as [->|Hne]; cbn [andb]; [by rewrite !Z.ltb_irrefl, !Z.eqb_refl|].
    destruct (Z.ltb_spec (48 + x / 100) (48 + y / 100)); [solve_digits|]. destruct (Z.eqb_spec (48 + x / 100) (48 + y / 100)); [|done].
    cbn [orb andb]. destruct (Z.ltb_spec (48 + (x / 10) mod 10) (48 + (y / 10) mod 10)); [solve_digits|].
    destruct (Z.eqb_spec (48 + (x / 10) mod 10) (48 + (y / 10) mod 10)); [|done]. cbn [orb andb].
    destruct (Z.ltb_spec (48 + x mod 10) (48 + y mod 10)); [solve_digits|]. destruct (Z.eqb_spec (48 + x mod 10) (48 + y mod 10)); [solve_digits|done].
Qed.

(** Names are in the order of their numbers. *)
Lemma path_order home suffix a b :
  id_ok a → id_ok b →
  bytes_ltb (getIndexPath home a.1 a.2 suffix) (getIndexPath home b.1 b.2 suffix)
  = (a.1 <? b.1) || ((a.1 =? b.1) && (a.2 <? b.2)).
Proof.
  destruct a as [c1 s1], b as [c2 s2]. intros Ha Hb. rewrite !getIndexPath_digits by done.
  destruct Ha as [H1 H2], Hb as [H3 H4]. cbn in H1, H2, H3, H4. unfold MAX_NUM_CHUNK, MAX_NUM_SPLIT in *. cbn [fst snd].
  rewrite bytes_ltb_common. cbn [bytes_ltb]. rewrite Z.ltb_irrefl, Z.eqb_refl. cbn [orb andb].
  rewrite digits3_order by lia. cbn [bytes_ltb]. rewrite Z.ltb_irrefl, Z.eqb_refl. cbn [orb andb].
  rewrite digits3_order by lia. by rewrite bytes_ltb_irrefl, andb_false_r, orb_false_r.
Qed.

#[local] Instance name_le_trans : Transitive name_le.
Proof.
  intros a b c Hab Hbc. unfold name_le in *. destruct (bytes_ltb c a) eqn:Hca; [|done].
  destruct (bytes_ltb a b) eqn:H; [by rewrite (bytes_ltb_trans _ _ _ Hca H) in Hbc|].
  rewrite (bytes_ltb_total _ _ H Hab) in Hca. by rewrite Hca in Hbc.
Qed.
#[local] Instance name_le_total : Total name_le.
Proof.
  intros a b. unfold name_le. destruct (bytes_ltb b a) eqn:H; [|by left]. right. destruct (bytes_ltb a b) eqn:H2; [|done].
  pose proof (bytes_ltb_trans _ _ _ H H2) as Hx. by rewrite bytes_ltb_irrefl in Hx.
Qed.
#[local] Instance name_le_antisymm : AntiSymm (=) name_le.
Proof. intros a b Hab Hba. by apply bytes_ltb_total. Qed.

Lemma parse_all_paths home suffix ids :
  Forall id_ok ids → Forall (λ c, c ≠ 47) suffix →
  parse_all ((λ id, getIndexPath home id.1 id.2 suffix) <$> ids) = Some ((λ id, getIndexPath home id.1 id.2 suffix) <$> ids, ids).
Proof.
  intros Hids Hs. induction Hids as [|[ck sp] ids Hid Hids IH]; [done|]. cbn [fmap list_fmap parse_all fst snd].
  rewrite parse_getIndexPath by done. cbn [mbind option_bind]. by rewrite IH.
Qed.

(** C22. The names of index files stand for their numbers: whatever order the files of a
    directory are found in, [getAllIndex] reads back exactly the chunk and split of every
    file, and sorting the names puts the files in the order of chunk and split, the order
    in which the bucket loads its trees and hints. *)
Theorem index_names_sound (home suffix : bytes) (files : gmap (Z * Z) bytes) (found : list bytes) :
  Forall (λ c, c ≠ 47) suffix → (∀ id, is_Some (files !! id) → id_ok id) →
  found ≡ₚ (λ kv, getIndexPath home kv.1.1 kv.1.2 suffix) <$> map_to_list files →
  getAllIndex found = Some ((λ kv, getIndexPath home kv.1.1 kv.1.2 suffix) <$> hint_paths files, fst <$> hint_paths files).
Proof.
  intros Hs Hids Hf. set (path := λ id : Z * Z, getIndexPath home id.1 id.2 suffix).
  assert (hint_paths files ≡ₚ map_to_list files) as Hperm by apply merge_sort_Permutation.
  assert (∀ kv, kv ∈ hint_paths files → id_ok kv.1) as Hok.
  { intros [id f] Hin. rewrite Hperm in Hin. apply elem_of_map_to_list in Hin. by apply Hids; eexists. }
  assert (merge_sort name_le found = (path ∘ fst) <$> hint_paths files) as Hsort.
  { apply (StronglySorted_unique name_le).
    - by apply (StronglySorted_merge_sort name_le).
    - assert (StronglySorted id_le (hint_paths files)) as Hss by (by apply (StronglySorted_merge_sort id_le)).
      clear Hperm. induction Hss as [|kv l Hl IH Hkv]; [constructor|]. cbn [fmap list_fmap]. constructor; [apply IH; set_solver|].
      rewrite Forall_fmap, Forall_forall in *. intros kv' Hin. specialize (Hkv kv' Hin). unfold name_le, compose, path.
      rewrite path_order by (apply Hok; set_solver). unfold id_le in Hkv. lia.
    - rewrite merge_sort_Permutation, Hf, Hperm. done. }
  unfold getAllIndex. rewrite Hsort, list_fmap_compose. rewrite (parse_all_paths home suffix); [|apply Forall_fmap, Forall_forall; set_solver|done].
  by rewrite <- list_fmap_compose.
Qed.

Lemma index_names_sound_witness :
  getAllIndex [bstr "home/010.000.idx.s"; bstr "home/002.001.idx.s"]
  = Some ([bstr "home/002.001.idx.s"; bstr "home/010.000.idx.s"], [(2, 1); (10, 0)]).
Proof.
  rewrite (index_names_sound (bstr "home") (bstr "s") {[(10, 0) := [1]; (2, 1) := [2]]}).
  - vm_compute. reflexivity.
  - apply (bool_decide_unpack _). vm_compute. reflexivity.
  - intros id [f Hf]. apply lookup_insert_Some in Hf as [[<- _]|[_ Hf]]; [vm_compute; repeat split; congruence|].
    apply lookup_singleton_Some in Hf as [<- _]. vm_compute. repeat split; congruence.
  - assert (map_to_list ({[(10, 0) := [1]; (2, 1) := [2]]} : gmap (Z * Z) bytes) ≡ₚ [((10, 0), [1]); ((2, 1), [2])]) as ->.
    { rewrite map_to_list_insert by (apply lookup_singleton_ne; discriminate). by rewrite map_to_list_singleton. }
    vm_compute. reflexivity.
Defined.
