(* ===== verification/Bucket.v ===== *)
(** * Buckets (src/store/bucket.go)

    A bucket puts the three stores together: the data files, the hash tree from
    key hashes to versions and positions, and the hints that find a key by its
    full text when hashes collide. *)

From stdpp Require Import gmap.
From S2P Require Import Prelude Hashing Strconv Config Cmem Key Item Fixtures Leaf HTree DataFile Data HintFile Hint.

Record Bucket := mkBucket {
  bk_htree : HTree;
  bk_hints : hintMgr;
  bk_datas : dataStore;
  bk_NumSameVhash : Z;
  bk_SizeSameVhash : Z;
  bk_SizeVhashKey : bytes
}.

Definition with_htree (b : Bucket) (t : HTree) : Bucket :=
  mkBucket t (bk_hints b) (bk_datas b) (bk_NumSameVhash b) (bk_SizeSameVhash b) (bk_SizeVhashKey b).
Definition with_hints (b : Bucket) (h : hintMgr) : Bucket :=
  mkBucket (bk_htree b) h (bk_datas b) (bk_NumSameVhash b) (bk_SizeSameVhash b) (bk_SizeVhashKey b).
Definition with_datas (b : Bucket) (ds : dataStore) : Bucket :=
  mkBucket (bk_htree b) (bk_hints b) ds (bk_NumSameVhash b) (bk_SizeSameVhash b) (bk_SizeVhashKey b).

(** ** Versions *)

Definition abs (n : Z) : Z := if n <? 0 then i32 (- n) else n.

(** [checkAndUpdateVerison]: the version to store, and whether to store. *)
Definition checkAndUpdateVerison (oldv ver : Z) : Z * bool :=
  if ver =? 0 then (if 0 <=? oldv then i32 (oldv + 1) else i32 (i32 (- oldv) + 1), true)
  else if ver <? 0 then (i32 (i32 (- abs oldv) - 1), true)
  else if abs ver <=? abs oldv then (1, false)
  else (ver, true).

(** ** The item a lookup returned, when it is still in a buffer *)

(** The slot [Get] reads. *)
Definition hb_slot_of (h : HintBuffer) (keyhash : Z) (key : bytes) : option nat :=
  idx ← hb_index h !! keyhash;
  old ← hb_items h !! idx;
  if bytes_eqb key (hi_Key old) then Some idx else hb_collisions h !! keyhash ≫= (.!! key).

Definition item_at (it : HintItem) (pos : Position) : HintItem :=
  newHintItem (Keyhash (hi_meta it)) (it_Ver (hi_meta it)) (Vhash (hi_meta it)) pos (hi_Key it).

(** [hintit.Pos = pos] writes through the pointer [getItem] returned: the item of
    the buffer it came from, newest split first, gets the position too. *)
Fixpoint splits_set_pos (rsplits : list hintSplit) (keyhash : Z) (key : bytes) (pos : Position) : list hintSplit :=
  match rsplits with
  | [] => []
  | sp :: rest =>
      match sp_buf sp with
      | None => rsplits
      | Some b =>
          match hb_slot_of b keyhash key with
          | None => sp :: splits_set_pos rest keyhash key pos
          | Some idx =>
              match hb_items b !! idx with
              | None => rsplits
              | Some it =>
                  mkSplit (Some (mkHintBuffer (hb_maxoffset b) (hb_index b) (hb_collisions b)
                                   (<[idx := item_at it pos]> (hb_items b)) (hb_cap b))) (sp_file sp) :: rest
              end
          end
      end
  end.
Definition hm_set_pos (h : hintMgr) (keyhash : Z) (key : bytes) (pos : Position) : hintMgr :=
  match zget (hm_chunks h) (ChunkID pos) with
  | None => h
  | Some ck =>
      let ck := mkHintChunk (hc_id ck) (rev (splits_set_pos (rev (hc_splits ck)) keyhash key pos)) (hc_lastTS ck) in
      match zset (hm_chunks h) (ChunkID pos) ck with
      | Some chunks => hm_with_chunks h chunks
      | None => h
      end
  end.

Section Bucket.
Context (Conf : HStoreConfig) (mc : MCConfig) (E : Ext).

(** ** Reading *)

(** What [get] returns: the payload, the position, the error. *)
Definition get_result : Type := option Payload * Position * option StoreErr.

Definition release_get (rec : Record_) (r : BeansdbRL) : BeansdbRL :=
  (Free (p_arr (r_Payload rec)) (on_get (λ rl, SubSizeAndCount rl (Cap (p_arr (r_Payload rec)))) r)).2.

(** The key hash is the same and the key another: both go to the collision
    table, and the record is looked up through the hints. *)
Definition get_collision (b : Bucket) (ki : KeyInfo) (pos : Position) (rec : Record_) (r : BeansdbRL)
    : option (get_result * Bucket * BeansdbRL) :=
  res ← getItem (bk_hints b) (ki_KeyHash ki) (ki_StringKey ki) false;
  match res with
  | inr e => Some ((None, pos, Some e), b, release_get rec r)
  | inl (None, _) => Some ((None, pos, None), b, release_get rec r)
  | inl (Some hintit, chunkID) =>
      let m := p_meta (r_Payload rec) in
      let vhash := if 0 <? Ver m then Getvhash (p_Body (r_Payload rec)) else 0 in
      let hintit2 := newHintItem (ki_KeyHash ki) (Ver m) vhash pos (r_Key rec) in
      let pos := mkPos chunkID (Offset (Pos (hi_meta hintit))) in
      let h := hm_set_pos (bk_hints b) (ki_KeyHash ki) (ki_StringKey ki) pos in
      let t := compareAndSet (compareAndSet (hm_collisions h) hintit2 false) (item_at hintit pos) false in
      let b := with_hints b (hm_with_collisions h t) in
      '(res, r) ← GetRecordByPos mc E (bk_datas b) pos r;
      Some (match res with
            | inr (e, _) => (None, pos, Some e)
            | inl (rec2, _) => (Some (r_Payload rec2), pos, None)
            end, b, release_get rec r)
  end.

(** [Bucket.get]. *)
Definition bkt_get (b : Bucket) (ki : KeyInfo) (memOnly : bool) (r : BeansdbRL)
    : option (get_result * Bucket * BeansdbRL) :=
  '(meta, pos, found) ←
    match fst (ct_get (hm_collisions (bk_hints b)) (ki_KeyHash ki) (ki_StringKey ki)) with
    | None => ht_get Conf (bk_htree b) ki
    | Some hintit =>
        Some (mkMeta 0 0 (it_Ver (hi_meta hintit)) (Vhash (hi_meta hintit)) 0, Pos (hi_meta hintit), true)
    end;
  if negb found then Some ((None, pos, None), b, r)
  else if memOnly then Some ((Some (mkPayload meta nilCArray), pos, None), b, r)
  else
    '(res, r) ← GetRecordByPos mc E (bk_datas b) pos r;
    match res with
    | inr (e, _) => Some ((None, pos, Some e), b, r)
    | inl (rec, inbuffer) =>
        if bytes_eqb (r_Key rec) (ki_Key ki) then
          Some ((Some (mkPayload (set_ver (p_meta (r_Payload rec)) (Ver meta)) (p_arr (r_Payload rec))), pos, None), b, r)
        else if negb (getKeyHash E (r_Key rec) =? ki_KeyHash ki) then
          if inbuffer && (ChunkID pos <? ds_newHead (bk_datas b) - 1)
          then Some ((None, pos, None), b, release_get rec r)
          else Some ((None, pos, Some ErrBadHtreeItem), b, release_get rec r)
        else get_collision b ki pos rec r
    end.

(** [GetRecordByKeyHash]. *)
Definition bkt_GetRecordByKeyHash (b : Bucket) (ki : KeyInfo) (r : BeansdbRL)
    : option (option (Record_ * bool + StoreErr * bool) * BeansdbRL) :=
  '(_, pos, found) ← ht_get Conf (bk_htree b) ki;
  if negb found then Some (None, r)
  else '(res, r) ← GetRecordByPos mc E (bk_datas b) pos r; Some (Some res, r).

(** ** Writing *)

(** [Bucket.set]: data first, then the tree, then the hints. The chunk whose
    flush [AppendRecord] starts is part of the result. *)
Definition bkt_set (b : Bucket) (ki : KeyInfo) (v : Payload) (now : Z) (r : BeansdbRL)
    : option (Bucket * option Z * BeansdbRL) :=
  let rec := mkRecord (ki_Key ki) v in
  '(stored, _) ← TryCompress Conf mc E rec r;
  '(ds, pos, spawn, r) ← AppendRecord Conf mc E (bk_datas b) rec r;
  t ← ht_set Conf (heap E) (bk_htree b) ki (p_meta v) pos;
  '(_, h) ← hm_set Conf (bk_hints b) ki (p_meta v) pos (rec_Size stored) false now;
  Some (with_hints (with_htree (with_datas b ds) t) h, spawn, r).

(** The value is dropped: [SetData] gives back its size and the array is freed. *)
Definition drop_value (v : Payload) (r : BeansdbRL) : BeansdbRL :=
  if 0 <=? Ver (p_meta v)
  then (Free (p_arr v) (on_set (λ rl, SubSizeAndCount rl (Cap (p_arr v))) r)).2 else r.

Definition set_payload_meta (v : Payload) (m : Meta) : Payload := mkPayload m (p_arr v).

(** [CalcValueHash] and [TryCompress] before the lock. *)
Definition prepare_value (ki : KeyInfo) (v : Payload) (r : BeansdbRL) : option (Payload * BeansdbRL) :=
  if 0 <=? Ver (p_meta v) then
    let v := CalcValueHash v in
    let oldCap := Cap (p_arr v) in
    '(rec, r) ← TryCompress Conf mc E (mkRecord (ki_Key ki) v) r;
    Some (r_Payload rec, on_set (λ rl, AddSize rl (Cap (p_arr (r_Payload rec)) - oldCap)) r)
  else Some (v, r).

(** [Bucket.checkAndSet]: the error, the bucket, the flush started. *)
Definition checkAndSet (b : Bucket) (ki : KeyInfo) (v : Payload) (now : Z) (r : BeansdbRL)
    : option (option StoreErr * Bucket * option Z * BeansdbRL) :=
  '(v, r) ← prepare_value ki v r;
  '(payload, pos, err, b, r) ← bkt_get b ki true r;
  match err with
  | Some e => Some (Some e, b, None, drop_value v r)
  | None =>
      let oldv := match payload with Some p => Ver (p_meta p) | None => 0 end in
      let same := match payload with
        | Some p => (0 <? Ver (p_meta p)) && (ValueHash (p_meta v) =? ValueHash (p_meta p))
        | None => false
        end in
      if same && CheckVHash Conf then
        if negb (Ver (p_meta v) =? 0) then
          t ← ht_set Conf (heap E) (bk_htree b) ki (p_meta v) pos;
          Some (None, with_htree b t, None, drop_value v r)
        else Some (None, b, None, drop_value v r)
      else
        let b := if same
          then mkBucket (bk_htree b) (bk_hints b) (bk_datas b) (i64 (bk_NumSameVhash b + 1))
                 (i64 (bk_SizeSameVhash b + zlen (p_Body v))) (ki_StringKey ki)
          else b in
        let '(ver, valid) := checkAndUpdateVerison oldv (Ver (p_meta v)) in
        let v := set_payload_meta v (set_ver (p_meta v) ver) in
        if negb valid then Some (None, b, None, drop_value v r)
        else if (ver <? 0) && (match payload with None => true | Some _ => oldv <? 0 end) then
          Some (Some ErrNotFound, b, None, drop_value v r)
        else
          '(b, spawn, r) ← bkt_set b ki v now r;
          Some (None, b, spawn, r)
  end.

(** ** Counters *)

(** [Bucket.incr]: the new value; 0 on the failures. *)
Definition incr (b : Bucket) (ki : KeyInfo) (value now : Z) (r : BeansdbRL)
    : option (Z * Bucket * option Z * BeansdbRL) :=
  '(tofree, _, err, b, r) ← bkt_get b ki false r;
  let errFlag := match err with Some _ => true | None => false end in
  let fail r := 
    let r := match tofree with
      | Some p => (Free (p_arr p) (on_get (λ rl, SubSizeAndCount rl (Cap (p_arr p))) r)).2
      | None => r
      end in
    Some (0, b, None, on_set (λ rl, SubCount rl 1) r) in
  let store value ver r :=
    let body := Itoa value in
    let v := CalcValueHash (mkPayload (mkMeta (u32 now) FLAG_INCR ver 0 0) (mkCArray body 0 0)) in
    '(b, spawn, r) ← bkt_set b ki v now r;
    Some (value, b, spawn, r) in
  match tofree with
  | Some p =>
      if 0 <? Ver (p_meta p) then
        let errFlag := errFlag || negb (Flag (p_meta p) =? FLAG_INCR) in
        if 22 <? zlen (p_Body p) then Some (0, b, None, r)
        else
          match Atoi (p_Body p) with
          | None => fail r
          | Some n =>
              if errFlag then fail r
              else store (i64 (value + n)) (i32 (1 + Ver (p_meta p))) r
          end
      else if errFlag then fail r else store value 1 r
  | None => if errFlag then fail r else store value 1 r
  end.

End Bucket.
