(* ===== verification/BucketSpec.v ===== *)
(** * A bucket refines a versioned map

    The map from keys to records that a bucket represents, and what reads and
    writes do to it, for keys with distinct hashes. *)

From stdpp Require Import gmap.
From S2P Require Import Prelude Hashing Strconv Config Cmem Key Item Fixtures Leaf HTree HTreeSpec HTreeMerkle.
From S2P Require Import HTreeProps DataFile Data DataSpec DataLog HintFile Hint HintSpec HintProps Bucket.

(** The same value for a client: key, value, timestamp and flag. *)
Definition same_value (a b : Record_) : Prop :=
  r_Key a = r_Key b ∧ p_Body (r_Payload a) = p_Body (r_Payload b)
  ∧ TS (p_meta (r_Payload a)) = TS (p_meta (r_Payload b))
  ∧ Flag (p_meta (r_Payload a)) = Flag (p_meta (r_Payload b)).

Definition rec_ver (rec : Record_) : Z := Ver (p_meta (r_Payload rec)).
Definition with_ver (rec : Record_) (ver : Z) : Record_ :=
  mkRecord (r_Key rec) (set_payload_meta (r_Payload rec) (set_ver (p_meta (r_Payload rec)) ver)).

Section Spec.
Context (Conf : HStoreConfig) (mc : MCConfig) (E : Ext).

(** The keys in use: their hashes are distinct. *)
Context (K : bytes → Prop).
Definition keys_distinct : Prop :=
  ∀ k1 k2, K k1 → K k2 → getKeyHash E k1 = getKeyHash E k2 → k1 = k2.

(** What the store relies on from its environment and its configuration. *)
Record env_ok : Prop := {
  eo_qlz : qlz_spec E;
  eo_mem : mem_ok mc E;
  eo_keys : keys_distinct;
  eo_cap : 0 < SplitCap Conf < 4095 * 4096;
  eo_klen : u32 (MaxKeyLen mc) < 256;
  eo_max : 0 <= DataFileMax Conf
}.

(** A key as requests present it. *)
Record key_ok (t : HTree) (ki : KeyInfo) : Prop := {
  kk_in : K (ki_Key ki);
  kk_str : ki_StringKey ki = ki_Key ki;
  kk_hash : ki_KeyHash ki = getKeyHash E (ki_Key ki);
  kk_prep : prepared Conf ki;
  kk_bkt : in_bucket t (ki_KeyHash ki)
}.

Lemma key_ok_frame t t' ki : key_ok t ki → same_frame t t' → key_ok t' ki.
Proof.
  intros [H1 H2 H3 H4 [H5 H6]] (Hd & Hb & _). split; try done. split; [done|]. by rewrite Hd, Hb.
Qed.

(** The records by key, each with the value hash the tree keeps. *)
Abbreviation contents := (gmap bytes (Record_ * Z)).

(** A record of the log: the value appended and the form in the file. *)
Record log_pair (t : HTree) (rec0 rec : Record_) : Prop := {
  lp_append : append_ok Conf mc rec0;
  lp_packed : packed E rec0 rec;
  lp_key : K (r_Key rec0);
  lp_bkt : in_bucket t (getKeyHash E (r_Key rec0))
}.
Definition owned (t : HTree) (rec : Record_) : Prop := ∃ rec0, log_pair t rec0 rec.

Lemma owned_frame t t' rec : same_frame t t' → owned t rec → owned t' rec.
Proof.
  intros (Hd & Hb & _) (rec0 & [H1 H2 H3 [H4 H5]]). exists rec0. split; try done. split; [done|]. by rewrite Hd, Hb.
Qed.

Definition all_owned (t : HTree) (gs : list ghost) : Prop :=
  ∀ i g, gs !! i = Some g → Forall (owned t) (g_recs g) ∧ Forall (owned t) (g_left g).

(** The items of the hints are about keys in use. *)
Definition known (it : HintItem) : Prop := K (hi_Key it) ∧ Keyhash (hi_meta it) = getKeyHash E (hi_Key it).
Definition all_known (G : list (list (list HintItem))) : Prop := Forall (Forall (Forall known)) G.

Record bkt_inv (b : Bucket) (todo : option (Z * nat * Z)) (A : contents)
    (m : gmap Z HTreeItem) (gs : list ghost) (G : list (list (list HintItem))) (a : abs_hints) : Prop := {
  bi_tree : models Conf (bk_htree b) m;
  bi_store : store_inv Conf mc (bk_datas b) gs todo;
  bi_len : zlen gs = MAX_NUM_CHUNK;
  bi_owned : all_owned (bk_htree b) gs;
  bi_hints : mgr_rep Conf (bk_hints b) G a;
  bi_known : all_known G;
  bi_coll : ct_Items (hm_collisions (bk_hints b)) = ∅;
  bi_keys key rec vh : A !! key = Some (rec, vh) → K key ∧ r_Key rec = key;
  bi_item key rec vh : A !! key = Some (rec, vh) →
    ∃ pos rec0 rec', m !! getKeyHash E key = Some (mkHTreeItem 0 pos (rec_ver rec) vh)
      ∧ append_ok Conf mc rec0 ∧ packed E rec0 rec' ∧ holds gs pos rec' ∧ same_value rec0 rec;
  bi_only kh it : m !! kh = Some it → ∃ key, getKeyHash E key = kh ∧ is_Some (A !! key)
}.

(** What a request leaves alone: the records below the head, and the positions of
    the tree, which only change to the head. *)
Record req_frame (b : Bucket) (m : gmap Z HTreeItem) (gs : list ghost)
    (b' : Bucket) (m' : gmap Z HTreeItem) (gs' : list ghost) : Prop := {
  rf_store : ds_frame (ds_newHead (bk_datas b)) (bk_datas b) gs (bk_datas b') gs';
  rf_tree : same_frame (bk_htree b) (bk_htree b');
  rf_head : ds_newHead (bk_datas b') <= ds_newHead (bk_datas b) + 1;
  rf_pos kh it' : m' !! kh = Some it' →
    (∃ it, m !! kh = Some it ∧ Pos it' = Pos it) ∨ ds_newHead (bk_datas b) <= ChunkID (Pos it')
}.

Lemma all_owned_frame t t' gs : same_frame t t' → all_owned t gs → all_owned t' gs.
Proof.
  intros Hf Ho i g Hg. destruct (Ho i g Hg) as [H1 H2].
  split; (eapply Forall_impl; [done|]; intros rec; by apply owned_frame).
Qed.

Lemma all_owned_append t gs head rec : all_owned t gs → owned t rec → all_owned t (append_ghost gs head rec).
Proof.
  intros Ho Hr i g Hg. unfold append_ghost in Hg. destruct (gs !! Z.to_nat head) as [g0|] eqn:Hg0; [|by apply (Ho i)].
  apply list_lookup_insert_Some in Hg as [(<- & <- & _)|[_ Hg]]; [|by apply (Ho i)].
  destruct (Ho _ _ Hg0) as [H1 _]. cbn [g_recs g_left]. split; [|done]. apply Forall_app. by split; [|apply Forall_singleton].
Qed.

(** Flushing does not touch the records. *)
Lemma all_owned_ghosts t ds gs ds' gs' :
  all_owned t gs → ds_frame MAX_NUM_CHUNK ds gs ds' gs' → length gs' = length gs → zlen gs = MAX_NUM_CHUNK → all_owned t gs'.
Proof.
  intros Ho Hf Hl Hz i g' Hg'. pose proof (lookup_lt_Some _ _ _ Hg') as Hlt.
  destruct (lookup_lt_is_Some_2 gs i) as [g Hg]; [lia|]. destruct (df_ghost _ _ _ _ _ Hf i g Hg) as (g1 & Hg1 & _ & Hlow).
  rewrite Hg' in Hg1. injection Hg1 as <-. destruct Hlow as (-> & _ & -> & _); [unfold zlen in *; lia|]. by apply (Ho i).
Qed.

(** ** Positions *)

Lemma held_range dc disk g off rec :
  chunk_inv mc dc disk g → held g off rec → 0 <= off ∧ off + 256 <= dc_size dc ∧ off mod 256 = 0.
Proof.
  intros Hc Hh. pose proof (ci_recs _ _ _ _ Hc) as Hok. pose proof (ci_left _ _ _ _ Hc) as Hokl.
  rewrite (ci_size _ _ _ _ Hc), (ci_head _ _ _ _ Hc). pose proof (ci_gap _ _ _ _ Hc) as Hgap.
  pose proof (zlen_nonneg (g_gap g)). pose proof (sizes_range mc _ Hok) as [Hr0 Hr1]. pose proof (sizes_range mc _ Hokl) as [Hl0 Hl1].
  assert (∀ recs i, Forall (rec_ok mc) recs → recs !! i = Some rec →
    0 <= sizes (take i recs) ∧ sizes (take i recs) + 256 <= sizes recs ∧ sizes (take i recs) mod 256 = 0) as Hin.
  { intros recs i Hrs Hi. apply lookup_lt_Some in Hi. pose proof (sizes_take_lt mc recs i (length recs) Hrs ltac:(lia)) as Hlt.
    rewrite (take_ge recs (length recs)) in Hlt by lia. pose proof (sizes_range mc (take i recs) ltac:(by apply Forall_take)). lia. }
  destruct Hh as [(i & Hr & ->)|(j & Hr & ->)].
  - unfold offset_of. destruct (Hin _ _ Hok Hr) as (? & ? & ?). split_and!; lia.
  - unfold left_offset. destruct (Hin _ _ Hokl Hr) as (? & ? & ?). split_and!; [lia|lia|]. Z.div_mod_to_equations. lia.
Qed.

Lemma holds_pos b todo A m gs G a pos rec :
  bkt_inv b todo A m gs G a → holds gs pos rec →
  0 <= ChunkID pos < MAX_NUM_CHUNK ∧ is_u32 (Offset pos) ∧ Offset pos mod 256 = 0.
Proof.
  intros Hi (g & [H0 Hg]%zget_Some & Hh). pose proof (bi_store _ _ _ _ _ _ _ Hi) as Hs.
  pose proof (bi_len _ _ _ _ _ _ _ Hi) as Hl. pose proof (lookup_lt_Some _ _ _ Hg) as Hlt. unfold zlen in Hl.
  split; [lia|].
  destruct (lookup_lt_is_Some_2 (ds_chunks (bk_datas b)) (Z.to_nat (ChunkID pos))) as [dc Hdc].
  { rewrite (si_len _ _ _ _ _ Hs). done. }
  destruct (si_chunks _ _ _ _ _ Hs _ _ _ Hdc Hg) as (_ & Hc & _).
  destruct (held_range _ _ _ _ _ Hc Hh) as (H1 & H2 & H3). pose proof (ci_max _ _ _ _ Hc). split; [unfold is_u32; lia|done].
Qed.

Lemma norm_pos kh pos ver vh :
  0 <= ChunkID pos < MAX_NUM_CHUNK → is_u32 (Offset pos) → Offset pos mod 256 = 0 → is_i32 ver → is_u16 vh →
  norm (mkHTreeItem kh pos ver vh) = mkHTreeItem 0 pos ver vh.
Proof.
  intros Hc Ho Ha Hv Hh. unfold norm. cbn [Pos it_Ver Vhash]. rewrite i32_small, (u16_small vh), u32_small by done.
  assert (u16 (ChunkID pos) = ChunkID pos) as -> by (apply u16_small; unfold is_u16, MAX_NUM_CHUNK in *; lia).
  destruct pos as [c o]. cbn [ChunkID Offset] in *. do 2 f_equal. Z.div_mod_to_equations. lia.
Qed.

(** ** Reading *)

Lemma tree_get b todo A m gs G a ki :
  env_ok → bkt_inv b todo A m gs G a → key_ok (bk_htree b) ki →
  ht_get Conf (bk_htree b) ki = Some (match m !! ki_KeyHash ki with
    | Some it => (mkMeta 0 0 (it_Ver it) (Vhash it) 0, Pos it, true)
    | None => (zeroMeta, mkPos 0 0, false)
    end).
Proof. intros He Hi Hk. apply ht_get_models; [apply Hi|apply Hk|apply Hk]. Qed.

Lemma absent_in_tree b todo A m gs G a ki :
  env_ok → bkt_inv b todo A m gs G a → key_ok (bk_htree b) ki → A !! ki_Key ki = None → m !! ki_KeyHash ki = None.
Proof.
  intros He Hi Hk Hn. destruct (m !! ki_KeyHash ki) as [it|] eqn:Hm; [|done].
  destruct (bi_only _ _ _ _ _ _ _ Hi _ _ Hm) as (key & Hkey & [[rec vh] Hrec]).
  destruct (bi_keys _ _ _ _ _ _ _ Hi _ _ _ Hrec) as [HK _]. rewrite (kk_hash _ _ Hk) in Hkey.
  pose proof (eo_keys He _ _ HK (kk_in _ _ Hk) Hkey). congruence.
Qed.

Lemma no_collision b todo A m gs G a ki :
  bkt_inv b todo A m gs G a →
  ct_get (hm_collisions (bk_hints b)) (ki_KeyHash ki) (ki_StringKey ki) = (None, false).
Proof. intros Hi. unfold ct_get. by rewrite (bi_coll _ _ _ _ _ _ _ Hi), lookup_empty. Qed.

(** The lookup of the version alone. *)
Lemma bkt_get_mem b todo A m gs G a ki r :
  env_ok → bkt_inv b todo A m gs G a → key_ok (bk_htree b) ki →
  ∃ pos, bkt_get Conf mc E b ki true r
    = Some ((match A !! ki_Key ki with
             | Some (rec, vh) => Some (mkPayload (mkMeta 0 0 (rec_ver rec) vh 0) nilCArray)
             | None => None
             end, pos, None), b, r)
  ∧ ∀ rec vh, A !! ki_Key ki = Some (rec, vh) → ∃ rec0 rec',
      m !! ki_KeyHash ki = Some (mkHTreeItem 0 pos (rec_ver rec) vh)
      ∧ append_ok Conf mc rec0 ∧ packed E rec0 rec' ∧ holds gs pos rec' ∧ same_value rec0 rec.
Proof.
  intros He Hi Hk. unfold bkt_get. rewrite (no_collision _ _ _ _ _ _ _ _ Hi). cbn [fst].
  rewrite (tree_get _ _ _ _ _ _ _ _ He Hi Hk). cbn [mbind option_bind].
  destruct (A !! ki_Key ki) as [[rec vh]|] eqn:HA.
  - destruct (bi_item _ _ _ _ _ _ _ Hi _ _ _ HA) as (pos & rec0 & rec' & Hm & Hrest).
    rewrite <- (kk_hash _ _ Hk) in Hm. rewrite Hm. cbn. exists pos. split; [done|].
    intros ? ? [= <- <-]. by exists rec0, rec'.
  - rewrite (absent_in_tree _ _ _ _ _ _ _ _ He Hi Hk HA). cbn. by eexists.
Qed.

(** The lookup of the record. *)
Lemma bkt_get_rec b todo A m gs G a ki r :
  env_ok → bkt_inv b todo A m gs G a → key_ok (bk_htree b) ki →
  ∃ p pos r', bkt_get Conf mc E b ki false r = Some ((p, pos, None), b, r')
    ∧ match A !! ki_Key ki with
      | Some (rec, _) => ∃ q, p = Some q ∧ same_record rec (mkRecord (ki_Key ki) q)
      | None => p = None
      end.
Proof.
  intros He Hi Hk. unfold bkt_get. rewrite (no_collision _ _ _ _ _ _ _ _ Hi). cbn [fst].
  rewrite (tree_get _ _ _ _ _ _ _ _ He Hi Hk). cbn [mbind option_bind].
  destruct (A !! ki_Key ki) as [[rec vh]|] eqn:HA.
  - destruct (bi_item _ _ _ _ _ _ _ Hi _ _ _ HA) as (pos & rec0 & rec' & Hm & Ha & Hp & Hh & Hsv).
    destruct (bi_keys _ _ _ _ _ _ _ Hi _ _ _ HA) as [_ Hkey].
    rewrite <- (kk_hash _ _ Hk) in Hm. rewrite Hm. cbn [negb it_Ver Vhash Pos].
    destruct (read_held Conf mc E (bk_datas b) gs todo pos rec' rec0 r) as (res & inb & r' & -> & Hsr);
      [apply He|apply He|apply Hi|done|done|done|]. cbn [mbind option_bind].
    destruct Hsr as (Hk1 & Hb1 & Ht1 & Hf1 & Hv1). destruct Hsv as (Hk2 & Hb2 & Ht2 & Hf2).
    assert (bytes_eqb (r_Key res) (ki_Key ki) = true) as -> by (apply bytes_eqb_true; congruence).
    eexists _, pos, r'. split; [done|]. eexists. split; [done|]. unfold same_record, p_Body in *.
    cbn [r_Key r_Payload p_meta p_arr set_ver TS Flag Ver]. unfold rec_ver. repeat split; congruence.
  - rewrite (absent_in_tree _ _ _ _ _ _ _ _ He Hi Hk HA). cbn. by eexists _, _, _.
Qed.

(** ** Writing *)

Lemma hm_set_spec h G a ki meta pos recSize gc now :
  env_ok → mgr_rep Conf h G a → all_known G → ct_Items (hm_collisions h) = ∅ →
  K (ki_StringKey ki) → ki_KeyHash ki = getKeyHash E (ki_StringKey ki) →
  is_u64 (ki_KeyHash ki) → zlen (ki_StringKey ki) < 256 → is_i32 (Ver meta) → is_u16 (ValueHash meta) →
  0 <= ChunkID pos < MAX_NUM_CHUNK → is_u32 (Offset pos) →
  ∃ rot h' G' a', hm_set Conf h ki meta pos recSize gc now = Some (rot, h') ∧ mgr_rep Conf h' G' a' ∧ all_known G'
    ∧ ct_Items (hm_collisions h') = ∅.
Proof.
  intros He Hrep Hkn Hc HK Hhk Hkh Hkl Hv Hvh Hch Hoff. unfold hm_set, ct_get. rewrite Hc, lookup_empty. cbn [snd].
  set (it := newHintItem _ _ _ _ _). assert (known it) as Hit by done.
  destruct (mgr_chunk Conf h G a (ChunkID pos) Hrep Hch) as (c & gs & Hz & Hg & _).
  destruct (hm_setItem_spec Conf h G a it (ChunkID pos) recSize now c gs)
    as (rot & h' & c' & gs' & Hst & Hrep' & _ & Hcl & _ & HP & _); [apply He|done| |done|done|done|].
  { split; try done. }
  eexists rot, h', _, _. split; [done|]. split; [done|]. split; [|by rewrite Hcl].
  unfold all_known in *. apply Forall_insert; [done|]. apply HP; [done|]. rewrite Forall_lookup in Hkn. by eapply Hkn.
Qed.

Lemma holds_item b todo A m gs G a gs' key rec vh :
  bkt_inv b todo A m gs G a → grows gs gs' → A !! key = Some (rec, vh) →
  ∃ pos rec0 rec', m !! getKeyHash E key = Some (mkHTreeItem 0 pos (rec_ver rec) vh)
    ∧ append_ok Conf mc rec0 ∧ packed E rec0 rec' ∧ holds gs' pos rec' ∧ same_value rec0 rec.
Proof.
  intros Hi Hg HA. destruct (bi_item _ _ _ _ _ _ _ Hi _ _ _ HA) as (pos & rec0 & rec' & Hm & Ha & Hp & Hh & Hs).
  exists pos, rec0, rec'. repeat (split; [done|]). split; [by eapply holds_grows|done].
Qed.

(** The tree entry of one key replaced. *)
Lemma inv_put b b' todo A m gs gs' G G' a a' key rec vh pos rec0 rec' :
  env_ok → bkt_inv b todo A m gs G a → K key → r_Key rec = key →
  models Conf (bk_htree b') (<[getKeyHash E key := mkHTreeItem 0 pos (rec_ver rec) vh]> m) →
  store_inv Conf mc (bk_datas b') gs' todo → length gs' = length gs → grows gs gs' → all_owned (bk_htree b') gs' →
  mgr_rep Conf (bk_hints b') G' a' → all_known G' → ct_Items (hm_collisions (bk_hints b')) = ∅ →
  append_ok Conf mc rec0 → packed E rec0 rec' → holds gs' pos rec' → same_value rec0 rec →
  bkt_inv b' todo (<[key := (rec, vh)]> A) (<[getKeyHash E key := mkHTreeItem 0 pos (rec_ver rec) vh]> m) gs' G' a'.
Proof.
  intros He Hi HK Hrk Ht Hs Hl Hg How Hh Hkn Hc Ha Hp Hho Hsv. split; try done.
  - pose proof (bi_len _ _ _ _ _ _ _ Hi). unfold zlen in *. by rewrite Hl.
  - intros k r v [[<- [= <- <-]]|[Hne HA]]%lookup_insert_Some; [done|]. by eapply (bi_keys _ _ _ _ _ _ _ Hi).
  - intros k r v [[<- [= <- <-]]|[Hne HA]]%lookup_insert_Some.
    + exists pos, rec0, rec'. by rewrite lookup_insert_eq.
    + destruct (bi_keys _ _ _ _ _ _ _ Hi _ _ _ HA) as [HKk _]. rewrite lookup_insert_ne.
      * by eapply holds_item.
      * intros Heq. apply Hne. by apply (eo_keys He).
  - intros kh it [[<- <-]|[Hne Hm]]%lookup_insert_Some.
    + exists key. split; [done|]. by rewrite lookup_insert_eq.
    + destruct (bi_only _ _ _ _ _ _ _ Hi _ _ Hm) as (k & Hk & Hs').
      exists k. split; [done|]. apply lookup_insert_is_Some'. by right.
Qed.

(** What [Bucket.set] does to the data, the tree and the hints. *)
Record logged (b : Bucket) (m : gmap Z HTreeItem) (gs : list ghost) (ki : KeyInfo) (v : Payload) (rec0 : Record_)
    (vh now : Z) (r : BeansdbRL) (b' : Bucket) (m' : gmap Z HTreeItem) (gs' : list ghost) (pos : Position)
    (rec' : Record_) : Prop := {
  lg_at : append_at Conf mc E (bk_datas b) gs (mkRecord (ki_Key ki) v) r (bk_datas b') pos rec';
  lg_packed : packed E rec0 rec';
  lg_ghosts : gs' = append_ghost gs (ChunkID pos) rec';
  lg_head : ds_newHead (bk_datas b) <= ChunkID pos;
  lg_pos : 0 <= ChunkID pos < MAX_NUM_CHUNK ∧ is_u32 (Offset pos) ∧ Offset pos mod 256 = 0;
  lg_tree : m' = <[getKeyHash E (ki_Key ki) := mkHTreeItem 0 pos (rec_ver rec0) vh]> m;
  lg_hints : ∃ rot, hm_setItem Conf (bk_hints b)
    (newHintItem (getKeyHash E (ki_Key ki)) (rec_ver rec0) vh (mkPos 0 (Offset pos)) (ki_Key ki))
    (ChunkID pos) (rec_Size rec') now = Some (rot, bk_hints b')
}.

(** [Bucket.set] of the value of [rec0], kept in either form. *)
Lemma bkt_set_spec b todo A m gs G a ki v rec0 vh now r :
  env_ok → bkt_inv b todo A m gs G a → key_ok (bk_htree b) ki → r_Key rec0 = ki_Key ki →
  append_ok Conf mc rec0 → packed E rec0 (mkRecord (ki_Key ki) v) → ValueHash (p_meta v) = vh → is_u16 vh →
  ds_newHead (bk_datas b) + 1 < MAX_NUM_CHUNK →
  ∃ b' spawn r' m' gs' G' a' pos rec', bkt_set Conf mc E b ki v now r = Some (b', spawn, r')
    ∧ bkt_inv b' todo (<[ki_Key ki := (rec0, vh)]> A) m' gs' G' a'
    ∧ req_frame b m gs b' m' gs' ∧ logged b m gs ki v rec0 vh now r b' m' gs' pos rec'.
Proof.
  intros He Hi Hk Hrk Ha Hp Hvh Hvr Hroom. unfold bkt_set.
  destruct (packed_total Conf mc E rec0 _ r (eo_qlz He) Ha Hp) as [[st rs] Hst]. rewrite Hst. cbn [mbind option_bind].
  destruct (append_spec Conf mc E (bk_datas b) gs todo rec0 (mkRecord (ki_Key ki) v) r)
    as (ds' & pos & spawn & r' & gs' & rec' & -> & Hp' & Hs' & Hho & _ & Hg & Hl & Hhead & Hfrm & Hpos & Hgs' & Hat);
    [apply He|apply Hi|done|done|by rewrite (bi_len _ _ _ _ _ _ _ Hi)|]. cbn [mbind option_bind].
  assert (st = rec') as -> by (destruct (aa_form _ _ _ _ _ _ _ _ _ _ Hat) as [r1 Hr1]; congruence).
  pose proof (ao_ok _ _ _ Ha) as Hok. destruct Hp as (_ & _ & Hver & _). cbn [r_Payload] in Hver.
  assert (all_owned (bk_htree b) gs') as How.
  { rewrite Hgs'. apply all_owned_append; [apply Hi|]. exists rec0. split; [done|done|rewrite Hrk; apply Hk|].
    rewrite Hrk, <- (kk_hash _ _ Hk). apply Hk. }
  assert (is_i32 (Ver (p_meta v))) as Hvi by (rewrite Hver; apply (ro_ver _ _ Hok)).
  destruct (ht_set_models Conf (heap E) (bk_htree b) m ki (p_meta v) pos) as (t' & -> & Hfr & Ht');
    [apply Hi|apply Hk|apply Hk|done|by rewrite Hvh|]. cbn [mbind option_bind].
  assert (bkt_inv (with_datas b ds') todo A m gs' G a) as Hi1.
  { destruct Hi as [H1 H2 H3 H3' H4 H4' H5 H6 H7 H8]. split; try done.
    - unfold zlen in *. by rewrite Hl.
    - intros key rec vh0 HA. destruct (H7 _ _ _ HA) as (p0 & x & y & Hm & Hx & Hy & Hz & Hw).
      exists p0, x, y. repeat (split; [done|]). split; [by eapply holds_grows|done]. }
  destruct (holds_pos _ _ _ _ _ _ _ _ _ Hi1 Hho) as (Hc & Ho & Hal).
  destruct (hm_set_spec (bk_hints b) G a ki (p_meta v) pos (rec_Size rec') false now)
    as (rot & h' & G' & a' & Hset & Hh' & Hkn' & Hc'); try done; try apply Hi.
  { rewrite (kk_str _ _ Hk). apply Hk. }
  { rewrite (kk_str _ _ Hk). apply Hk. }
  { apply Hk. }
  { rewrite (kk_str _ _ Hk). pose proof (ro_ksz _ _ Hok) as Hks. unfold IsValidKeySize in Hks.
    pose proof (eo_klen He). rewrite Hrk in Hks. lia. }
  { by rewrite Hvh. }
  rewrite Hset. cbn [mbind option_bind].
  assert (norm (mkHTreeItem (ki_KeyHash ki) pos (Ver (p_meta v)) (ValueHash (p_meta v)))
    = mkHTreeItem 0 pos (rec_ver rec0) vh) as Hn.
  { rewrite norm_pos by (done || by rewrite Hvh). unfold rec_ver. by rewrite Hver, Hvh. }
  rewrite Hn, (kk_hash _ _ Hk) in Ht'.
  eexists _, spawn, r', _, gs', G', a', pos, rec'. split; [done|]. split; [|split].
  - eapply (inv_put b _ todo A m gs gs'); try done; try apply Hk. by eapply all_owned_frame.
  - split; try done. intros kh it' [[<- <-]|[_ Hm']]%lookup_insert_Some; [by right|]. left. by exists it'.
  - split; try done. exists rot. unfold hm_set in Hset. rewrite (no_collision _ _ _ _ _ _ _ _ Hi) in Hset. cbn [snd] in Hset.
    rewrite (kk_str _ _ Hk), (kk_hash _ _ Hk), Hvh, Hver in Hset. exact Hset.
Qed.

(** What [checkAndSet] stores for a value: its hash is computed unless it is a
    deletion. *)
Definition value_hash (v : Payload) : Z :=
  if 0 <=? Ver (p_meta v) then Getvhash (p_Body v) else ValueHash (p_meta v).

(** [checkAndSet] on the map: the error and what is stored for the key. *)
Definition abs_set (old : option (Record_ * Z)) (key : bytes) (v : Payload)
    : option StoreErr * option (Record_ * Z) :=
  let vh := value_hash v in
  let oldv := match old with Some (rec, _) => rec_ver rec | None => 0 end in
  let same := match old with Some (rec, vh0) => (0 <? rec_ver rec) && (vh =? vh0) | None => false end in
  if same && CheckVHash Conf then
    (None, if Ver (p_meta v) =? 0 then old
           else match old with Some (rec, _) => Some (with_ver rec (Ver (p_meta v)), vh) | None => None end)
  else
    let '(ver, valid) := checkAndUpdateVerison oldv (Ver (p_meta v)) in
    if negb valid then (None, old)
    else if (ver <? 0) && (match old with None => true | Some _ => oldv <? 0 end) then (Some ErrNotFound, old)
    else (None, Some (mkRecord key (set_payload_meta v (set_ver (set_vhash (p_meta v) vh) ver)), vh)).

Lemma version_range oldv ver : is_i32 ver → is_i32 (fst (checkAndUpdateVerison oldv ver)).
Proof.
  intros Hv. unfold checkAndUpdateVerison. destruct (_ =? 0); [destruct (_ <=? _); apply i32_range|].
  destruct (_ <? 0); [apply i32_range|]. destruct (_ <=? _); [cbn; width|done].
Qed.

(** The value after [CalcValueHash] and the first [TryCompress]. *)
Lemma prepare_value_spec ki v r :
  env_ok → append_ok Conf mc (mkRecord (ki_Key ki) v) →
  ∃ v' r', prepare_value Conf mc E ki v r = Some (v', r')
    ∧ Ver (p_meta v') = Ver (p_meta v) ∧ ValueHash (p_meta v') = value_hash v
    ∧ ∀ ver, packed E (mkRecord (ki_Key ki) (set_payload_meta v (set_ver (set_vhash (p_meta v) (value_hash v)) ver)))
               (mkRecord (ki_Key ki) (set_payload_meta v' (set_ver (p_meta v') ver))).
Proof.
  intros He Ha. unfold prepare_value, value_hash.
  destruct (Z.leb_spec 0 (Ver (p_meta v))) as [Hpos|Hneg].
  - set (v1 := CalcValueHash v).
    assert (append_ok Conf mc (mkRecord (ki_Key ki) v1)) as Ha1.
    { eapply append_ok_same; [exact Ha|done..|]. apply (ro_ver _ _ (ao_ok _ _ _ Ha)). }
    destruct (TryCompress_total Conf mc E _ r (eo_qlz He) Ha1) as [[st r1] Ht]. rewrite Ht. cbn [mbind option_bind].
    destruct (packed_try Conf mc E _ _ _ _ _ Ha1 (packed_refl E _) Ht) as (Hk & Hts & Hv & Hc).
    eexists _, _. split; [done|]. split; [done|]. split.
    + apply TryCompress_cases in Ht as [->|(_ & _ & _ & _ & _ & ->)]; done.
    + intros ver. unfold packed, p_Body in *. cbn [r_Key r_Payload p_meta p_arr set_payload_meta set_ver set_vhash TS Ver Flag v1 CalcValueHash] in *.
      by repeat split.
  - eexists _, _. split; [done|]. split; [done|]. split; [done|]. intros ver. unfold packed, p_Body.
    cbn [r_Key r_Payload p_meta p_arr set_payload_meta set_ver set_vhash TS Ver Flag]. repeat split. by left.
Qed.

Definition put (A : contents) (key : bytes) (x : option (Record_ * Z)) : contents :=
  match x with Some y => <[key := y]> A | None => A end.

Lemma put_same A key : put A key (A !! key) = A.
Proof. destruct (A !! key) as [x|] eqn:HA; [|done]. cbn. by apply insert_id. Qed.

(** Under [CheckVHash], a value with the hash of the one stored and a version of its own
    is not logged: the tree alone gets the version. *)
Definition remarks (old : option (Record_ * Z)) (v : Payload) : Prop :=
  CheckVHash Conf = true ∧ Ver (p_meta v) ≠ 0
  ∧ match old with Some (rec, vh) => 0 < rec_ver rec ∧ value_hash v = vh | None => False end.

#[export] Instance remarks_dec old v : Decision (remarks old v).
Proof. unfold remarks. destruct old as [[]|]; apply _. Defined.

(** What a request does: nothing, in the case of [marks] a new version in the tree for
    the same value, or a record that is logged. *)
Inductive req_effect (marks : Prop) (b : Bucket) (m : gmap Z HTreeItem) (gs : list ghost) (A : contents) (ki : KeyInfo) (now : Z)
    (b' : Bucket) (m' : gmap Z HTreeItem) (gs' : list ghost) (A' : contents) : Prop :=
  | re_same : bk_htree b' = bk_htree b → bk_hints b' = bk_hints b → bk_datas b' = bk_datas b →
      m' = m → gs' = gs → A' = A → req_effect marks b m gs A ki now b' m' gs' A'
  | re_mark : marks → req_effect marks b m gs A ki now b' m' gs' A'
  | re_write v rec0 vh r pos rec' :
      r_Key rec0 = ki_Key ki → append_ok Conf mc rec0 → A' = <[ki_Key ki := (rec0, vh)]> A → is_u16 vh →
      ((∀ rec vh0, A !! ki_Key ki = Some (rec, vh0) → - 2 ^ 31 < rec_ver rec < 2 ^ 31) → 0 < rec_ver rec0 →
        vh = Getvhash (p_Body (r_Payload rec0))) →
      logged b m gs ki v rec0 vh now r b' m' gs' pos rec' → req_effect marks b m gs A ki now b' m' gs' A'.

Lemma logged_same b b2 m gs ki v rec0 vh now r b' m' gs' pos rec' :
  bk_htree b2 = bk_htree b → bk_hints b2 = bk_hints b → bk_datas b2 = bk_datas b →
  logged b2 m gs ki v rec0 vh now r b' m' gs' pos rec' → logged b m gs ki v rec0 vh now r b' m' gs' pos rec'.
Proof. intros E1 E2 E3 [H1 H2 H3 H4 H5 H6 H7]. by split; rewrite <- ?E1, <- ?E2, <- ?E3. Qed.

(** A deletion gives a negative version, unless the old one cannot be lowered. *)
Lemma deletion_version oldv ver : - 2 ^ 31 < oldv < 2 ^ 31 → ver < 0 → fst (checkAndUpdateVerison oldv ver) < 0.
Proof.
  intros Ho Hv. unfold checkAndUpdateVerison, abs. destruct (Z.eqb_spec ver 0); [lia|]. destruct (Z.ltb_spec ver 0); [|lia].
  cbn [fst]. destruct (Z.ltb_spec oldv 0); rewrite !i32_small by width; lia.
Qed.

Lemma remark_accepted old key v : remarks old v → fst (abs_set old key v) = None.
Proof.
  intros (Hc & _ & Ho). unfold abs_set. destruct old as [[rec vh]|]; [|done]. destruct Ho as [Hv <-].
  by rewrite (proj2 (Z.ltb_lt _ _) Hv), Z.eqb_refl, Hc.
Qed.

(** A value of the hash that is stored, with a version of its own: the tree changes and
    nothing else does. *)
Lemma checkAndSet_remark b todo A m gs G a ki v now r :
  env_ok → bkt_inv b todo A m gs G a → key_ok (bk_htree b) ki → append_ok Conf mc (mkRecord (ki_Key ki) v) →
  is_u16 (ValueHash (p_meta v)) → remarks (A !! ki_Key ki) v →
  ∃ b' r' m', checkAndSet Conf mc E b ki v now r = Some (None, b', None, r')
    ∧ bkt_inv b' todo (put A (ki_Key ki) (snd (abs_set (A !! ki_Key ki) (ki_Key ki) v))) m' gs G a
    ∧ req_frame b m gs b' m' gs ∧ bk_hints b' = bk_hints b ∧ bk_datas b' = bk_datas b.
Proof.
  intros He Hi Hk Ha Hvh (Hcv & Hnz & Hold). unfold checkAndSet.
  destruct (prepare_value_spec ki v r He Ha) as (v' & r1 & -> & Hver & Hvhash & _). cbn [mbind option_bind].
  destruct (bkt_get_mem b todo A m gs G a ki r1 He Hi Hk) as (pos & -> & Hitem). cbn [mbind option_bind].
  assert (is_u16 (value_hash v)) as Hvr.
  { unfold value_hash. destruct (0 <=? _); [apply Getvhash_range|done]. }
  assert (is_i32 (Ver (p_meta v))) as Hvi by apply (ro_ver _ _ (ao_ok _ _ _ Ha)).
  unfold abs_set. destruct (A !! ki_Key ki) as [[rec vh0]|] eqn:HA; [|done]. destruct Hold as [Hpos <-].
  cbn [p_meta Ver ValueHash]. rewrite Hver, Hvhash, (proj2 (Z.ltb_lt _ _) Hpos), Z.eqb_refl, Hcv, (proj2 (Z.eqb_neq _ _) Hnz).
  cbn [andb negb].
  destruct (Hitem _ _ eq_refl) as (rec0 & rec' & Hm & Ha0 & Hp0 & Hh0 & Hs0).
  destruct (holds_pos _ _ _ _ _ _ _ _ _ Hi Hh0) as (Hc & Ho & Hal).
  destruct (ht_set_models Conf (heap E) (bk_htree b) m ki (p_meta v') pos) as (t' & -> & Hfr & Ht');
    [apply Hi|apply Hk|apply Hk|by rewrite Hver|by rewrite Hvhash|]. cbn [mbind option_bind].
  rewrite Hver, Hvhash, norm_pos, (kk_hash _ _ Hk) in Ht' by done.
  eexists _, _, (<[getKeyHash E (ki_Key ki) := mkHTreeItem 0 pos (Ver (p_meta v)) (value_hash v)]> m).
  split; [done|]. cbn [snd put]. split_and!; [| |done|done].
  2:{ split; cbn [with_htree bk_datas bk_htree]; [apply ds_frame_refl|done|lia|].
      intros kh it' [[<- <-]|[_ Hm']]%lookup_insert_Some; left; [|by exists it'].
      rewrite <- (kk_hash _ _ Hk). eexists. split; [exact Hm|done]. }
  destruct (bi_keys _ _ _ _ _ _ _ Hi _ _ _ HA) as [_ Hrk].
  apply (inv_put b _ todo A m gs gs G G a a (ki_Key ki) (with_ver rec (Ver (p_meta v))) (value_hash v) pos rec0 rec');
    try done; try apply Hi; [apply Hk|]. eapply all_owned_frame; [exact Hfr|apply Hi].
Qed.

Lemma checkAndSet_effect b todo A m gs G a ki v now r :
  env_ok → bkt_inv b todo A m gs G a → key_ok (bk_htree b) ki → append_ok Conf mc (mkRecord (ki_Key ki) v) →
  is_u16 (ValueHash (p_meta v)) → ds_newHead (bk_datas b) + 1 < MAX_NUM_CHUNK →
  let res := abs_set (A !! ki_Key ki) (ki_Key ki) v in
  ∃ b' spawn r' m' gs' G' a', checkAndSet Conf mc E b ki v now r = Some (fst res, b', spawn, r')
    ∧ bkt_inv b' todo (put A (ki_Key ki) (snd res)) m' gs' G' a'
    ∧ req_frame b m gs b' m' gs' ∧ req_effect (remarks (A !! ki_Key ki) v) b m gs A ki now b' m' gs' (put A (ki_Key ki) (snd res)).
Proof.
  intros He Hi Hk Ha Hvh Hroom. cbn zeta.
  destruct (decide (remarks (A !! ki_Key ki) v)) as [Hrm|Hnm].
  { destruct (checkAndSet_remark b todo A m gs G a ki v now r He Hi Hk Ha Hvh Hrm) as (b' & r' & m' & H1 & H2 & H3 & _).
    exists b', None, r', m', gs, G, a. rewrite (remark_accepted _ _ _ Hrm). split_and!; try done. by apply re_mark. }
  unfold checkAndSet.
  destruct (prepare_value_spec ki v r He Ha) as (v' & r1 & -> & Hver & Hvhash & Hpk). cbn [mbind option_bind].
  destruct (bkt_get_mem b todo A m gs G a ki r1 He Hi Hk) as (pos & -> & Hitem). cbn [mbind option_bind].
  assert (is_u16 (value_hash v)) as Hvr.
  { unfold value_hash. destruct (0 <=? _); [apply Getvhash_range|done]. }
  assert (is_i32 (Ver (p_meta v))) as Hvi by apply (ro_ver _ _ (ao_ok _ _ _ Ha)).
  rewrite Hver, Hvhash. unfold abs_set.
  assert (∀ (e : option StoreErr) (r2 : BeansdbRL) b2, bk_htree b2 = bk_htree b → bk_hints b2 = bk_hints b → bk_datas b2 = bk_datas b →
    ∃ b' spawn r' m' gs' G' a', Some (e, b2, None : option Z, r2) = Some (e, b', spawn, r')
      ∧ bkt_inv b' todo (put A (ki_Key ki) (A !! ki_Key ki)) m' gs' G' a'
      ∧ req_frame b m gs b' m' gs' ∧ req_effect (remarks (A !! ki_Key ki) v) b m gs A ki now b' m' gs' (put A (ki_Key ki) (A !! ki_Key ki))) as Hstay.
  { intros e r2 b2 E1 E2 E3. eexists b2, None, r2, m, gs, G, a. split; [done|]. rewrite put_same.
    split; [destruct Hi as [H1 H2 H3 H3' H4 H4' H5 H6 H7 H8]; by split; rewrite ?E1, ?E2, ?E3|].
    split; [|by apply re_same].
    split; rewrite ?E1, ?E3; [apply ds_frame_refl|done|lia|]. intros kh it' Hm'. left. by exists it'. }
  set (same := match A !! ki_Key ki with Some (rec, vh0) => (0 <? rec_ver rec) && (value_hash v =? vh0) | None => false end).
  set (oldv := match A !! ki_Key ki with Some (rec, _) => rec_ver rec | None => 0 end).
  replace (match match A !! ki_Key ki with
                 | Some (rec, vh) => Some (mkPayload (mkMeta 0 0 (rec_ver rec) vh 0) nilCArray)
                 | None => None end with
           | Some p => (0 <? Ver (p_meta p)) && (value_hash v =? ValueHash (p_meta p))
           | None => false end) with same by (unfold same; by destruct (A !! ki_Key ki) as [[]|]).
  replace (match match A !! ki_Key ki with
                 | Some (rec, vh) => Some (mkPayload (mkMeta 0 0 (rec_ver rec) vh 0) nilCArray)
                 | None => None end with
           | Some p => Ver (p_meta p) | None => 0 end) with oldv by (unfold oldv; by destruct (A !! ki_Key ki) as [[]|]).
  destruct (same && CheckVHash Conf) eqn:Hsc.
  - destruct (Z.eqb_spec (Ver (p_meta v)) 0) as [Hz|Hnz]; cbn [negb]; [by apply Hstay|]. exfalso. apply Hnm.
    apply andb_true_iff in Hsc as [Hsm Hcv]. split; [done|]. split; [done|]. unfold same in Hsm.
    destruct (A !! ki_Key ki) as [[rec vh0]|]; [lia|done].
  - set (b2 := if same then _ else b).
    assert (bk_htree b2 = bk_htree b ∧ bk_hints b2 = bk_hints b ∧ bk_datas b2 = bk_datas b) as (E1 & E2 & E3)
      by (unfold b2; by destruct same).
    destruct (checkAndUpdateVerison oldv (Ver (p_meta v))) as [ver valid] eqn:Hcv.
    assert (is_i32 ver) as Hvi2 by (pose proof (version_range oldv _ Hvi) as Hr; by rewrite Hcv in Hr).
    destruct valid; cbn [negb]; [|by apply Hstay].
    replace (match match A !! ki_Key ki with
                   | Some (rec, vh) => Some (mkPayload (mkMeta 0 0 (rec_ver rec) vh 0) nilCArray)
                   | None => None end with
             | None => true | Some _ => oldv <? 0 end)
      with (match A !! ki_Key ki with None => true | Some _ => oldv <? 0 end) by (by destruct (A !! ki_Key ki) as [[]|]).
    destruct ((ver <? 0) && _) eqn:Hnf; [by apply Hstay|].
    assert (bkt_inv b2 todo A m gs G a) as Hi2.
    { destruct Hi as [H1 H2 H3 H3' H4 H4' H5 H6 H7 H8]. by split; rewrite ?E1, ?E2, ?E3. }
    destruct (bkt_set_spec b2 todo A m gs G a ki (set_payload_meta v' (set_ver (p_meta v') ver))
      (mkRecord (ki_Key ki) (set_payload_meta v (set_ver (set_vhash (p_meta v) (value_hash v)) ver)))
      (value_hash v) now r1) as (b' & spawn & r' & m' & gs' & G' & a' & pos' & rec' & -> & Hi' & Hrf & Hlg);
      [done|done|by rewrite E1|done| |apply Hpk|done|done|by rewrite E3|].
    { by eapply append_ok_same; [exact Ha|done..]. }
    cbn [mbind option_bind]. eexists b', spawn, r', m', gs', G', a'. split; [done|].
    split; [done|]. split; [destruct Hrf as [F1 F2 F3 F4]; rewrite E1, E3 in *; by split|].
    eapply re_write; [| | | | |by eapply logged_same]; [done| |done|done|].
    { by eapply append_ok_same; [exact Ha|done..]. }
    intros Hold Hpos. unfold value_hash. destruct (Z.leb_spec 0 (Ver (p_meta v))) as [|Hneg]; [done|]. exfalso.
    assert (- 2 ^ 31 < oldv < 2 ^ 31) as Ho.
    { unfold oldv. destruct (A !! ki_Key ki) as [[rec vh0]|]; [by eapply Hold|lia]. }
    pose proof (deletion_version oldv _ Ho Hneg) as Hd. rewrite Hcv in Hd. unfold rec_ver in Hpos. cbn in Hd, Hpos. lia.
Qed.

Lemma checkAndSet_spec b todo A m gs G a ki v now r :
  env_ok → bkt_inv b todo A m gs G a → key_ok (bk_htree b) ki → append_ok Conf mc (mkRecord (ki_Key ki) v) →
  is_u16 (ValueHash (p_meta v)) → ds_newHead (bk_datas b) + 1 < MAX_NUM_CHUNK →
  let res := abs_set (A !! ki_Key ki) (ki_Key ki) v in
  ∃ b' spawn r' m' gs' G' a', checkAndSet Conf mc E b ki v now r = Some (fst res, b', spawn, r')
    ∧ bkt_inv b' todo (put A (ki_Key ki) (snd res)) m' gs' G' a'
    ∧ req_frame b m gs b' m' gs'.
Proof.
  intros He Hi Hk Ha Hvh Hroom res.
  destruct (checkAndSet_effect b todo A m gs G a ki v now r He Hi Hk Ha Hvh Hroom) as (b' & sp & r' & m' & gs' & G' & a' & H1 & H2 & H3 & _).
  by exists b', sp, r', m', gs', G', a'.
Qed.

(** ** Counters *)

Definition counter (key : bytes) (value ver now : Z) : Record_ :=
  mkRecord key (mkPayload (mkMeta (u32 now) FLAG_INCR ver (Getvhash (Itoa value)) 0) (mkCArray (Itoa value) 0 0)).

(** [incr] on the map: the result and what is stored for the key. *)
Definition abs_incr (old : option (Record_ * Z)) (key : bytes) (value now : Z) : Z * option (Record_ * Z) :=
  let store value ver := (value, Some (counter key value ver now, Getvhash (Itoa value))) in
  match old with
  | Some (rec, _) =>
      if 0 <? rec_ver rec then
        let body := p_Body (r_Payload rec) in
        if 22 <? zlen body then (0, old)
        else
          match Atoi body with
          | None => (0, old)
          | Some n =>
              if negb (Flag (p_meta (r_Payload rec)) =? FLAG_INCR) then (0, old)
              else store (i64 (value + n)) (i32 (1 + rec_ver rec))
          end
      else store value 1
  | None => store value 1
  end.

Lemma incr_effect b todo A m gs G a ki value now r :
  env_ok → bkt_inv b todo A m gs G a → key_ok (bk_htree b) ki →
  is_i64 value → (∀ n ver, is_i64 n → is_i32 ver → append_ok Conf mc (counter (ki_Key ki) n ver now)) →
  ds_newHead (bk_datas b) + 1 < MAX_NUM_CHUNK →
  let res := abs_incr (A !! ki_Key ki) (ki_Key ki) value now in
  ∃ b' spawn r' m' gs' G' a', incr Conf mc E b ki value now r = Some (fst res, b', spawn, r')
    ∧ bkt_inv b' todo (put A (ki_Key ki) (snd res)) m' gs' G' a'
    ∧ req_frame b m gs b' m' gs' ∧ req_effect False b m gs A ki now b' m' gs' (put A (ki_Key ki) (snd res)).
Proof.
  intros He Hi Hk Hval Hok Hroom. cbn zeta. unfold incr, abs_incr.
  destruct (bkt_get_rec b todo A m gs G a ki r He Hi Hk) as (p & pos & r1 & -> & Hp). cbn [mbind option_bind].
  assert (∀ r2 : BeansdbRL, ∃ b' spawn r' m' gs' G' a', Some (0, b, None : option Z, r2) = Some (0, b', spawn, r')
      ∧ bkt_inv b' todo (put A (ki_Key ki) (A !! ki_Key ki)) m' gs' G' a'
      ∧ req_frame b m gs b' m' gs' ∧ req_effect False b m gs A ki now b' m' gs' (put A (ki_Key ki) (A !! ki_Key ki))) as Hstay.
  { intros r2. eexists b, None, r2, m, gs, G, a. rewrite put_same. split; [done|]. split; [done|]. split; [|by apply re_same].
    split; [apply ds_frame_refl|done|lia|]. intros kh it' Hm'. left. by exists it'. }
  assert (∀ n ver, is_i64 n → is_i32 ver → ∃ b' spawn r' m' gs' G' a',
    ('(b, spawn, r) ← bkt_set Conf mc E b ki (CalcValueHash (mkPayload (mkMeta (u32 now) FLAG_INCR ver 0 0)
        (mkCArray (Itoa n) 0 0))) now r1; Some (n, b, spawn, r)) = Some (n, b', spawn, r')
      ∧ bkt_inv b' todo (<[ki_Key ki := (counter (ki_Key ki) n ver now, Getvhash (Itoa n))]> A) m' gs' G' a'
      ∧ req_frame b m gs b' m' gs'
      ∧ req_effect False b m gs A ki now b' m' gs' (<[ki_Key ki := (counter (ki_Key ki) n ver now, Getvhash (Itoa n))]> A)) as Hstore.
  { intros n ver Hn Hver.
    destruct (bkt_set_spec b todo A m gs G a ki (CalcValueHash (mkPayload (mkMeta (u32 now) FLAG_INCR ver 0 0)
        (mkCArray (Itoa n) 0 0))) (counter (ki_Key ki) n ver now) (Getvhash (Itoa n)) now r1)
      as (b' & spawn & r' & m' & gs' & G' & a' & pos' & rec' & -> & Hi' & Hrf & Hlg);
      [done|done|done|done|by apply Hok|apply packed_refl|done|apply Getvhash_range|done|].
    cbn [mbind option_bind]. eexists b', spawn, r', m', gs', G', a'. split; [done|]. split; [done|]. split; [done|].
    eapply re_write; [| | | | |exact Hlg]; [done|by apply Hok|done|apply Getvhash_range|done]. }
  destruct (A !! ki_Key ki) as [[rec vh]|] eqn:HA.
  - destruct Hp as (q & -> & (_ & Hb & _ & Hf & Hv)). cbn [r_Payload] in *. unfold rec_ver. rewrite <- Hv, <- Hb, <- Hf.
    destruct (Z.ltb_spec 0 (Ver (p_meta (r_Payload rec)))) as [Hpos|Hneg].
    + destruct (22 <? _); [apply Hstay|]. destruct (Atoi _) as [n|]; [|apply Hstay].
      cbn [orb]. destruct (negb _); [apply Hstay|]. apply Hstore; [apply i64_range|apply i32_range].
    + cbn [orb]. apply Hstore; [done|width].
  - subst p. apply Hstore; [done|width].
Qed.

Lemma incr_spec b todo A m gs G a ki value now r :
  env_ok → bkt_inv b todo A m gs G a → key_ok (bk_htree b) ki →
  is_i64 value → (∀ n ver, is_i64 n → is_i32 ver → append_ok Conf mc (counter (ki_Key ki) n ver now)) →
  ds_newHead (bk_datas b) + 1 < MAX_NUM_CHUNK →
  let res := abs_incr (A !! ki_Key ki) (ki_Key ki) value now in
  ∃ b' spawn r' m' gs' G' a', incr Conf mc E b ki value now r = Some (fst res, b', spawn, r')
    ∧ bkt_inv b' todo (put A (ki_Key ki) (snd res)) m' gs' G' a'
    ∧ req_frame b m gs b' m' gs'.
Proof.
  intros He Hi Hk Hval Ha Hroom res.
  destruct (incr_effect b todo A m gs G a ki value now r He Hi Hk Hval Ha Hroom) as (b' & sp & r' & m' & gs' & G' & a' & H1 & H2 & H3 & _).
  by exists b', sp, r', m', gs', G', a'.
Qed.

(** ** Flushing *)

Lemma inv_flush b todo A m gs G a ds' todo' gs' :
  bkt_inv b todo A m gs G a → store_inv Conf mc ds' gs' todo' → grows gs gs' → length gs' = length gs →
  ds_frame MAX_NUM_CHUNK (bk_datas b) gs ds' gs' →
  bkt_inv (with_datas b ds') todo' A m gs' G a.
Proof.
  intros Hi Hs Hg Hl Hfrm. pose proof (holds_item b todo A m gs G a gs') as Hit. pose proof Hi as [H1 H2 H3 H3' H4 H4' H5 H6 H7 H8].
  split; try done.
  - unfold zlen in *. by rewrite Hl.
  - by eapply all_owned_ghosts.
  - intros key rec vh HA. by apply Hit.
Qed.

(** ** Histories *)

(** A bucket, the flush in progress, the counters. *)
Record bkt_state := mkBktState { bs_bkt : Bucket; bs_todo : option (Z * nat * Z); bs_rl : BeansdbRL }.

Definition set_ok (b : Bucket) (ki : KeyInfo) (v : Payload) : Prop :=
  key_ok (bk_htree b) ki ∧ append_ok Conf mc (mkRecord (ki_Key ki) v) ∧ is_u16 (ValueHash (p_meta v)).
Definition incr_ok (b : Bucket) (ki : KeyInfo) (value now : Z) : Prop :=
  key_ok (bk_htree b) ki ∧ is_i64 value ∧ ∀ n ver, is_i64 n → is_i32 ver → append_ok Conf mc (counter (ki_Key ki) n ver now).
Definition has_room (b : Bucket) : Prop := ds_newHead (bk_datas b) + 1 < MAX_NUM_CHUNK.

(** One request or half of a flush, with the contents before and after. *)
Inductive bkt_step (s : bkt_state) (A : contents) : bkt_state → contents → Prop :=
  | bs_set ki v now err b spawn r :
      set_ok (bs_bkt s) ki v → has_room (bs_bkt s) →
      checkAndSet Conf mc E (bs_bkt s) ki v now (bs_rl s) = Some (err, b, spawn, r) →
      bkt_step s A (mkBktState b (bs_todo s) r) (put A (ki_Key ki) (snd (abs_set (A !! ki_Key ki) (ki_Key ki) v)))
  | bs_incr ki value now n b spawn r :
      incr_ok (bs_bkt s) ki value now → has_room (bs_bkt s) →
      incr Conf mc E (bs_bkt s) ki value now (bs_rl s) = Some (n, b, spawn, r) →
      bkt_step s A (mkBktState b (bs_todo s) r) (put A (ki_Key ki) (snd (abs_incr (A !! ki_Key ki) (ki_Key ki) value now)))
  | bs_get ki memOnly res b r :
      key_ok (bk_htree (bs_bkt s)) ki → bkt_get Conf mc E (bs_bkt s) ki memOnly (bs_rl s) = Some (res, b, r) →
      bkt_step s A (mkBktState b (bs_todo s) r) A
  | bs_flush_begin chunk force now ds todo r :
      bs_todo s = None → chunk < MAX_NUM_CHUNK →
      flush_begin Conf (bk_datas (bs_bkt s)) chunk force now (bs_rl s) = Some (ds, todo, r) →
      bkt_step s A (mkBktState (with_datas (bs_bkt s) ds) todo r) A
  | bs_flush_end ds r :
      flush_end (bk_datas (bs_bkt s)) (bs_todo s) (bs_rl s) = Some (ds, r) →
      bkt_step s A (mkBktState (with_datas (bs_bkt s) ds) None r) A.

(** The states a bucket reaches from an empty one, with the contents the requests
    so far amount to. *)
Inductive bkt_reach (s0 : bkt_state) : bkt_state → contents → Prop :=
  | br_init : bkt_reach s0 s0 ∅
  | br_step s A s' A' : bkt_reach s0 s A → bkt_step s A s' A' → bkt_reach s0 s' A'.

(** An empty bucket: a new tree, new hints, no files. *)
Definition empty_bucket (t : HTree) (mergeChan : bool) : Bucket :=
  mkBucket t (newHintMgr mergeChan ∅ ∅) (NewdataStore ∅) 0 0 [].

Lemma empty_bucket_inv t d bid h mergeChan :
  env_ok → newHTree d bid h = Some t → conf_for Conf d h →
  ∃ gs G a, bkt_inv (empty_bucket t mergeChan) None ∅ ∅ gs G a.
Proof.
  intros He Ht Hc. exists (replicate (Z.to_nat MAX_NUM_CHUNK) no_ghost), (replicate (Z.to_nat MAX_NUM_CHUNK) [[]]), (∅, 0).
  split; try done.
  - by eapply newHTree_models.
  - apply new_store_inv, He.
  - by intros i g [-> _]%lookup_replicate.
  - apply newHintMgr_rep.
  - apply Forall_replicate. by repeat constructor.
Qed.

Lemma bkt_get_inv b todo A m gs G a ki memOnly r res b' r' :
  env_ok → bkt_inv b todo A m gs G a → key_ok (bk_htree b) ki →
  bkt_get Conf mc E b ki memOnly r = Some (res, b', r') → b' = b.
Proof.
  intros He Hi Hk Hg. destruct memOnly.
  - destruct (bkt_get_mem b todo A m gs G a ki r He Hi Hk) as (pos & Hg' & _). congruence.
  - destruct (bkt_get_rec b todo A m gs G a ki r He Hi Hk) as (p & pos & r1 & Hg' & _). congruence.
Qed.

Lemma req_frame_refl b m gs : req_frame b m gs b m gs.
Proof. split; [apply ds_frame_refl|done|lia|]. intros kh it' Hm'. left. by exists it'. Qed.

Lemma ds_frame_le h h' ds gs ds' gs' : h' <= h → ds_frame h ds gs ds' gs' → ds_frame h' ds gs ds' gs'.
Proof.
  intros Hle [F1 F2 F3]. split; [done| |].
  - intros i dc Hdc. destruct (F2 i dc Hdc) as (dc' & ? & ? & ? & Hlow). exists dc'. split_and!; try done. intros ?. apply Hlow. lia.
  - intros i g Hg. destruct (F3 i g Hg) as (g' & ? & ? & Hlow). exists g'. split_and!; [done|done|]. intros ?. apply Hlow. lia.
Qed.

Lemma flush_frame b todo A m gs G a ds' gs' :
  bkt_inv b todo A m gs G a → ds_newHead ds' = ds_newHead (bk_datas b) →
  ds_frame MAX_NUM_CHUNK (bk_datas b) gs ds' gs' → req_frame b m gs (with_datas b ds') m gs'.
Proof.
  intros Hi Hh Hfrm. pose proof (si_head _ _ _ _ _ (bi_store _ _ _ _ _ _ _ Hi)) as Hhd. rewrite (bi_len _ _ _ _ _ _ _ Hi) in Hhd.
  split; cbn [with_datas bk_datas bk_htree]; [eapply ds_frame_le; [|done]; lia|done|lia|]. intros kh it' Hm'. left. by exists it'.
Qed.

(** Every step keeps the invariant and its frame. *)
Lemma bkt_step_inv s A s' A' m gs G a :
  env_ok → bkt_inv (bs_bkt s) (bs_todo s) A m gs G a → bkt_step s A s' A' →
  ∃ m' gs' G' a', bkt_inv (bs_bkt s') (bs_todo s') A' m' gs' G' a' ∧ req_frame (bs_bkt s) m gs (bs_bkt s') m' gs'.
Proof.
  intros He Hi Hst. destruct Hst as [ki v now err b spawn r (Hk & Ha & Hv) Hroom Hst
    |ki value now n b spawn r (Hk & Hval & Ha) Hroom Hst|ki memOnly res b r Hk Hst|chunk force now ds todo r Htd Hch Hst|ds r Hst].
  - destruct (checkAndSet_spec _ _ _ _ _ _ _ ki v now (bs_rl s) He Hi Hk Ha Hv Hroom)
      as (b' & sp & r' & m' & gs' & G' & a' & Hst' & Hi' & Hrf). rewrite Hst in Hst'. simplify_eq. by exists m', gs', G', a'.
  - destruct (incr_spec _ _ _ _ _ _ _ ki value now (bs_rl s) He Hi Hk Hval Ha Hroom)
      as (b' & sp & r' & m' & gs' & G' & a' & Hst' & Hi' & Hrf). rewrite Hst in Hst'. simplify_eq. by exists m', gs', G', a'.
  - rewrite (bkt_get_inv _ _ _ _ _ _ _ _ _ _ _ _ _ He Hi Hk Hst). exists m, gs, G, a. split; [done|apply req_frame_refl].
  - rewrite Htd in Hi. destruct (flush_begin_spec Conf mc (bk_datas (bs_bkt s)) gs chunk force now (bs_rl s))
      as (ds' & td' & r' & gs' & Hst' & Hs' & Hg & Hl & Hh & Hfrm); [apply Hi|by rewrite (bi_len _ _ _ _ _ _ _ Hi)|].
    rewrite Hst in Hst'. simplify_eq. exists m, gs', G, a. split; [by eapply inv_flush|by eapply flush_frame].
  - destruct (flush_end_spec Conf mc (bk_datas (bs_bkt s)) gs (bs_todo s) (bs_rl s))
      as (ds' & r' & gs' & Hst' & Hs' & Hg & Hl & Hh & Hfrm); [apply Hi|].
    rewrite Hst in Hst'. simplify_eq. exists m, gs', G, a. split; [by eapply inv_flush|by eapply flush_frame].
Qed.

Lemma bkt_reach_inv t d bid h mergeChan r0 s A :
  env_ok → newHTree d bid h = Some t → conf_for Conf d h →
  bkt_reach (mkBktState (empty_bucket t mergeChan) None r0) s A →
  ∃ m gs G a, bkt_inv (bs_bkt s) (bs_todo s) A m gs G a ∧ same_frame t (bk_htree (bs_bkt s)).
Proof.
  intros He Ht Hc. induction 1 as [|s A s' A' Hr (m & gs & G & a & Hi & Hf) Hst].
  - destruct (empty_bucket_inv t d bid h mergeChan He Ht Hc) as (gs & G & a & Hi). by exists ∅, gs, G, a.
  - destruct (bkt_step_inv _ _ _ _ _ _ _ _ He Hi Hst) as (m' & gs' & G' & a' & Hi' & Hrf). exists m', gs', G', a'.
    split; [done|]. eapply same_frame_trans; [done|apply (rf_tree _ _ _ _ _ _ Hrf)].
Qed.

End Spec.
