(* ===== verification/BucketProps.v ===== *)
(** * What a bucket guarantees

    Reads, writes and counters of a bucket against the map of its contents, the
    versions [checkAndSet] gives, and two cases in which it does not do what is
    meant. *)

From stdpp Require Import gmap.
From S2P Require Import Prelude Hashing Strconv Config Cmem Key Item Fixtures Leaf HTree HTreeSpec HTreeMerkle.
From S2P Require Import HTreeProps DataFile Data DataSpec DataLog HintFile Hint HintSpec HintProps Bucket BucketSpec.

Section Props.
Context (Conf : HStoreConfig) (mc : MCConfig) (E : Ext) (K : bytes → Prop).
Context (t : HTree) (d bid h : Z) (mergeChan : bool) (r0 : BeansdbRL).
Hypothesis (env : env_ok Conf mc E K).
Hypothesis (new_tree : newHTree d bid h = Some t).
Hypothesis (tree_conf_ok : conf_for Conf d h).

Abbreviation start := (mkBktState (empty_bucket t mergeChan) None r0).

Lemma reach_frame s A : bkt_reach Conf mc E K start s A → same_frame t (bk_htree (bs_bkt s)).
Proof.
  intros Hr. destruct (bkt_reach_inv Conf mc E K t d bid h mergeChan r0 s A env new_tree tree_conf_ok Hr)
    as (m & gs & G & a & _ & Hf). done.
Qed.

Lemma reach_set s A ki v now :
  bkt_reach Conf mc E K start s A → set_ok Conf mc E K (bs_bkt s) ki v → has_room (bs_bkt s) →
  let res := abs_set Conf (A !! ki_Key ki) (ki_Key ki) v in
  ∃ b spawn r, checkAndSet Conf mc E (bs_bkt s) ki v now (bs_rl s) = Some (fst res, b, spawn, r)
    ∧ bkt_reach Conf mc E K start (mkBktState b (bs_todo s) r) (put A (ki_Key ki) (snd res)).
Proof.
  intros Hr (Hk & Ha & Hv) Hroom res.
  destruct (bkt_reach_inv Conf mc E K t d bid h mergeChan r0 s A env new_tree tree_conf_ok Hr)
    as (m & gs & G & a & Hi & _).
  destruct (checkAndSet_spec Conf mc E K _ _ _ _ _ _ _ ki v now (bs_rl s) env Hi Hk Ha Hv Hroom)
    as (b & sp & r & _ & _ & _ & _ & Hst & _).
  exists b, sp, r. split; [done|]. eapply br_step; [exact Hr|]. by eapply bs_set.
Qed.

(** C4. A bucket is a map from keys to records. In every state it reaches from an
    empty one by requests interleaved with the two halves of flushes, for keys
    with distinct hashes: [get] returns the value, timestamp, flag and version
    the requests so far amount to, or nothing for a key never set, without an
    error, and leaves the contents as they are. *)
Theorem bucket_refines_map s A ki r :
  bkt_reach Conf mc E K start s A → key_ok Conf E K (bk_htree (bs_bkt s)) ki →
  ∃ p pos r', bkt_get Conf mc E (bs_bkt s) ki false r = Some ((p, pos, None), bs_bkt s, r')
    ∧ match A !! ki_Key ki with
      | Some (rec, _) => ∃ q, p = Some q ∧ same_record rec (mkRecord (ki_Key ki) q)
      | None => p = None
      end.
Proof.
  intros Hr Hk. destruct (bkt_reach_inv Conf mc E K t d bid h mergeChan r0 s A env new_tree tree_conf_ok Hr)
    as (m & gs & G & a & Hi & _). by eapply bkt_get_rec.
Qed.


(** C31. Counters add up: in every reachable state [incr] returns the sum of the
    stored number and the argument (in 64 bits), or the argument for a key that
    is absent or deleted, and stores its decimal text under the next version; a
    value that is not a counter of at most 22 bytes is left alone with result 0. *)
Theorem bucket_incr_refines s A ki value now :
  bkt_reach Conf mc E K start s A → incr_ok Conf mc E K (bs_bkt s) ki value now → has_room (bs_bkt s) →
  let res := abs_incr (A !! ki_Key ki) (ki_Key ki) value now in
  ∃ b spawn r, incr Conf mc E (bs_bkt s) ki value now (bs_rl s) = Some (fst res, b, spawn, r)
    ∧ bkt_reach Conf mc E K start (mkBktState b (bs_todo s) r) (put A (ki_Key ki) (snd res)).
Proof.
  intros Hr (Hk & Hval & Ha) Hroom res.
  destruct (bkt_reach_inv Conf mc E K t d bid h mergeChan r0 s A env new_tree tree_conf_ok Hr)
    as (m & gs & G & a & Hi & _).
  destruct (incr_spec Conf mc E K _ _ _ _ _ _ _ ki value now (bs_rl s) env Hi Hk Hval Ha Hroom)
    as (b & sp & r & _ & _ & _ & _ & Hst & _).
  exists b, sp, r. split; [done|]. eapply br_step; [exact Hr|]. by eapply bs_incr.
Qed.

(** C40. With [CheckVHash], in every reachable state, the deletion of a key whose stored
    value has hash 0 is mistaken for a write of the same value: it reports success and the
    key reads as deleted, with the version of the request, but no record of the deletion
    is logged: the data store and the hints stay as they were, with the value as the last
    thing they say of the key. *)
Theorem zero_vhash_delete_not_logged s A ki v now rec :
  bkt_reach Conf mc E K start s A → set_ok Conf mc E K (bs_bkt s) ki v → CheckVHash Conf = true →
  Ver (p_meta v) < 0 → ValueHash (p_meta v) = 0 → A !! ki_Key ki = Some (rec, 0) → 0 < rec_ver rec →
  ∃ b r, checkAndSet Conf mc E (bs_bkt s) ki v now (bs_rl s) = Some (None, b, None, r)
    ∧ bk_datas b = bk_datas (bs_bkt s) ∧ bk_hints b = bk_hints (bs_bkt s)
    ∧ ∀ r1, ∃ q pos r2, bkt_get Conf mc E b ki false r1 = Some ((Some q, pos, None), b, r2) ∧ Ver (p_meta q) = Ver (p_meta v).
Proof.
  intros Hr (Hk & Ha & Hu) Hcv Hneg Hz HA Hpos.
  destruct (bkt_reach_inv Conf mc E K t d bid h mergeChan r0 s A env new_tree tree_conf_ok Hr) as (m & gs & G & a & Hi & _).
  assert (value_hash v = 0) as Hvh by (unfold value_hash; destruct (Z.leb_spec 0 (Ver (p_meta v))); [lia|done]).
  assert (remarks Conf (A !! ki_Key ki) v) as Hrm by (rewrite HA; split_and!; [done|lia|done|done]).
  destruct (checkAndSet_remark Conf mc E K _ _ _ _ _ _ _ ki v now (bs_rl s) env Hi Hk Ha Hu Hrm) as (b & r & m' & Hst & Hi' & Hrf & Hh & Hd).
  exists b, r. split_and!; [done..|]. intros r1.
  destruct (bkt_get_rec Conf mc E K _ _ _ _ _ _ _ ki r1 env Hi') as (p & pos & r2 & Hg & Hp).
  { eapply key_ok_frame; [exact Hk|]. apply Hrf. }
  rewrite HA in Hp. unfold abs_set in Hp. rewrite Hvh, (proj2 (Z.ltb_lt _ _) Hpos), Hcv, (proj2 (Z.eqb_neq (Ver (p_meta v)) 0)) in Hp by lia.
  cbn [andb Z.eqb snd put] in Hp. rewrite lookup_insert_eq in Hp. destruct Hp as (q & -> & (_ & _ & _ & _ & Hq)).
  exists q, pos, r2. split; [done|]. symmetry. exact Hq.
Qed.

End Props.

(** ** Versions *)

(** A write that is let through moves the version away from zero: below the
    largest 32-bit version, the stored version has a larger absolute value than
    the old one, is negative exactly for a deletion, and is the requested one
    when one was requested. *)
Theorem version_grows oldv ver v :
  is_i32 oldv → is_i32 ver → Z.abs oldv < 2 ^ 31 - 1 → checkAndUpdateVerison oldv ver = (v, true) →
  Z.abs oldv < Z.abs v ∧ (v < 0 ↔ ver < 0) ∧ (0 < ver → v = ver).
Proof.
  intros Ho Hv Hlt. unfold checkAndUpdateVerison, abs.
  destruct (Z.eqb_spec ver 0) as [->|Hz].
  { destruct (Z.leb_spec 0 oldv); intros [= <-]; rewrite !i32_small by width; lia. }
  destruct (Z.ltb_spec ver 0) as [Hn|Hp].
  - destruct (Z.ltb_spec oldv 0); intros [= <-]; rewrite !i32_small by width; lia.
  - destruct (Z.ltb_spec oldv 0); [rewrite i32_small by width|]; intros Hc;
      revert Hc; match goal with |- context [ver <=? ?x] => destruct (Z.leb_spec ver x) end; intros [= <-]; lia.
Qed.

Lemma version_grows_witness :
  Z.abs (-3) < Z.abs 4 ∧ (4 < 0 ↔ 0 < 0) ∧ (0 < 0 → 4 = 0).
Proof. apply (version_grows (-3) 0 4); by vm_compute. Defined.

(** At the largest version the next one overflows: a plain write to a key at
    version 2^31-1 is given version -2^31, which marks it as deleted. *)
Theorem version_overflow_deletes : checkAndUpdateVerison (2 ^ 31 - 1) 0 = (- 2 ^ 31, true).
Proof. by vm_compute. Qed.

(** ** A concrete bucket *)

Definition demo_keys (k : bytes) : Prop := k = bstr "hello" ∨ k = bstr "hits".

Lemma demo_env : env_ok demo_conf DefaultMCConfig demo_ext demo_keys.
Proof.
  split; [apply demo_qlz_spec|intros n _; apply demo_alloc| |by vm_compute..].
  intros k1 k2 [->| ->] [->| ->] Hh; try done; exfalso; by vm_compute in Hh.
Qed.

Definition bucket_tree : HTree :=
  match newHTree 1 4 3 with Some t => t | None => mkHTree 0 0 [] [] end.
Definition bucket_key (k : bytes) : KeyInfo := demo_key k (getKeyHash demo_ext k).

Lemma bucket_key_ok b k :
  demo_keys k → ht_depth (bk_htree b) = 1 → ht_bucketID (bk_htree b) = 4 →
  key_ok demo_conf demo_ext demo_keys (bk_htree b) (bucket_key k).
Proof.
  intros Hk Hd Hb. destruct Hk as [->| ->]; (split; [first [by left|by right]|done|done|by split; vm_compute|]);
    (split; [by vm_compute|]); rewrite Hd, Hb; by vm_compute.
Qed.

Definition demo_value (body : bytes) (ver : Z) : Payload :=
  mkPayload (mkMeta 1000 0 ver 0 0) (mkCArray body 0 (zlen body)).

Definition demo_start : bkt_state := mkBktState (empty_bucket bucket_tree false) None ResetAll.

Lemma demo_request_ok b k body ver :
  demo_keys k → ht_depth (bk_htree b) = 1 → ht_bucketID (bk_htree b) = 4 →
  append_okb demo_conf DefaultMCConfig (mkRecord k (demo_value body ver)) = true →
  set_ok demo_conf DefaultMCConfig demo_ext demo_keys b (bucket_key k) (demo_value body ver).
Proof.
  intros Hk Hd Hb Ha. split; [by apply bucket_key_ok|]. split; [|by vm_compute].
  apply append_okb_ok. by destruct Hk as [->| ->].
Qed.

(** The contents after one set of [hello]. *)
Definition hello_rec : Record_ :=
  mkRecord (bstr "hello") (mkPayload (mkMeta 1000 0 1 (Getvhash (bstr "world")) 0) (mkCArray (bstr "world") 0 5)).

Lemma hello_abs :
  abs_set demo_conf None (bstr "hello") (demo_value (bstr "world") 0) = (None, Some (hello_rec, Getvhash (bstr "world"))).
Proof. by vm_compute. Qed.

Lemma demo_conf_for : conf_for demo_conf 1 3.
Proof. by vm_compute. Qed.

Lemma hello_set_ok :
  set_ok demo_conf DefaultMCConfig demo_ext demo_keys (bs_bkt demo_start) (bucket_key (bstr "hello"))
    (demo_value (bstr "world") 0).
Proof. apply demo_request_ok; [by left|done|done|by vm_compute]. Qed.


(** A state in which [hello] is set. *)
Lemma hello_reached :
  ∃ s, bkt_reach demo_conf DefaultMCConfig demo_ext demo_keys demo_start s
         {[bstr "hello" := (hello_rec, Getvhash (bstr "world"))]}
    ∧ ht_depth (bk_htree (bs_bkt s)) = 1 ∧ ht_bucketID (bk_htree (bs_bkt s)) = 4.
Proof.
  destruct (reach_set demo_conf DefaultMCConfig demo_ext demo_keys bucket_tree 1 4 3 false ResetAll
    demo_env eq_refl demo_conf_for demo_start ∅ (bucket_key (bstr "hello")) (demo_value (bstr "world") 0) 1000)
    as (b & sp & r & Hst & Hr).
  - apply br_init.
  - apply hello_set_ok.
  - by vm_compute.
  - change (ki_Key (bucket_key (bstr "hello"))) with (bstr "hello") in *. rewrite lookup_empty, hello_abs in *.
    eexists. split; [exact Hr|].
    destruct (reach_frame demo_conf DefaultMCConfig demo_ext demo_keys bucket_tree 1 4 3 false ResetAll
      demo_env eq_refl demo_conf_for _ _ Hr) as (Hd & Hb & _).
    rewrite Hd, Hb. split; vm_compute; reflexivity.
Qed.

Lemma bucket_refines_map_witness :
  ∃ s q pos r', bkt_get demo_conf DefaultMCConfig demo_ext (bs_bkt s) (bucket_key (bstr "hello")) false ResetAll
      = Some ((Some q, pos, None), bs_bkt s, r')
    ∧ same_record hello_rec (mkRecord (bstr "hello") q).
Proof.
  destruct hello_reached as (s & Hr & Hd & Hb).
  destruct (bucket_refines_map demo_conf DefaultMCConfig demo_ext demo_keys bucket_tree 1 4 3 false ResetAll
    demo_env eq_refl demo_conf_for s _ (bucket_key (bstr "hello")) ResetAll Hr) as (p & pos & r' & Hg & Hm).
  - apply bucket_key_ok; [by left|exact Hd|exact Hb].
  - change (ki_Key (bucket_key (bstr "hello"))) with (bstr "hello") in *. rewrite lookup_singleton_eq in Hm.
    destruct Hm as (q & Hp & Hs). subst p. exists s, q, pos, r'. split; [exact Hg|exact Hs].
Defined.

(** A counter of a short key fits the default configuration. *)
Lemma demo_counter_ok k n ver now :
  demo_keys k → is_i64 n → is_i32 ver → append_ok demo_conf DefaultMCConfig (counter k n ver now).
Proof.
  intros Hk Hn Hv. pose proof (Itoa_length n Hn) as Hl. pose proof (zlen_nonneg (Itoa n)) as H0.
  assert (zlen k <= 5 ∧ 0 < zlen k ∧ is_bytes k) as (Hkl & Hk0 & Hkb).
  { destruct Hk as [->| ->]; (split; [by vm_compute|]; split; [by vm_compute|]; repeat constructor; by vm_compute). }
  assert (is_bytes (Itoa n)) as Hb.
  { eapply Forall_impl; [apply Itoa_chars|]. intros c [->|?]; unfold is_u8; lia. }
  assert (u32 (BodyMax DefaultMCConfig) = 52428800) as Hbm by (by vm_compute).
  assert (u32 (MaxKeyLen DefaultMCConfig) = 250) as Hkm by (by vm_compute).
  assert (DataFileMax demo_conf = 4194304000) as Hdm by (by vm_compute).
  unfold counter. split; cbn [r_Key r_Payload p_meta p_arr p_Body Body TS Flag Ver]; unfold p_Body; cbn [p_arr Body].
  - split; cbn [r_Key r_Payload p_meta p_arr p_Body Body TS Flag Ver]; unfold p_Body, fits32; cbn [r_Key r_Payload p_arr Body]; try done.
    + apply u32_range.
    + unfold IsValidKeySize. rewrite Hkm. lia.
    + unfold IsValidValueSize. rewrite Hbm. lia.
    + unfold p_Body. cbn [p_arr Body]. lia.
  - done.
  - intros Hz. by apply Itoa_nonempty in Hz.
  - lia.
  - unfold IsValidValueSize. rewrite Hbm. lia.
  - rewrite Hdm. lia.
  - rewrite Hdm. lia.
Qed.

Lemma bucket_incr_refines_witness :
  ∃ b spawn r, incr demo_conf DefaultMCConfig demo_ext (bs_bkt demo_start) (bucket_key (bstr "hits")) 7 1000 ResetAll
      = Some (7, b, spawn, r)
    ∧ bkt_reach demo_conf DefaultMCConfig demo_ext demo_keys demo_start (mkBktState b None r)
        {[bstr "hits" := (counter (bstr "hits") 7 1 1000, Getvhash (bstr "7"))]}.
Proof.
  destruct (bucket_incr_refines demo_conf DefaultMCConfig demo_ext demo_keys bucket_tree 1 4 3 false ResetAll
    demo_env eq_refl demo_conf_for demo_start ∅ (bucket_key (bstr "hits")) 7 1000) as (b & sp & r & Hst & Hr).
  - apply br_init.
  - split; [apply bucket_key_ok; [by right|done|done]|]. split; [by vm_compute|].
    intros n ver Hn Hv. apply demo_counter_ok; [by right|exact Hn|exact Hv].
  - by vm_compute.
  - change (ki_Key (bucket_key (bstr "hits"))) with (bstr "hits") in *. rewrite lookup_empty in *.
    exists b, sp, r. split; [exact Hst|exact Hr].
Defined.

(** ** A deletion that leaves no record *)

(** The default configuration with [CheckVHash]. *)
Definition vhash_conf : HStoreConfig := {|
  NumBucket := NumBucket demo_conf; BucketsStat := BucketsStat demo_conf; FlushWake := FlushWake demo_conf;
  DataFileMax := DataFileMax demo_conf; CheckVHash := true;
  FlushInterval := FlushInterval demo_conf;
  NoGCDays := NoGCDays demo_conf; NotCompress := NotCompress demo_conf; NoMerged := NoMerged demo_conf;
  MergeInterval := MergeInterval demo_conf; IndexIntervalSize := IndexIntervalSize demo_conf;
  SplitCap := SplitCap demo_conf; TreeHeight := TreeHeight demo_conf; TreeDump := TreeDump demo_conf;
  TreeDepth := TreeDepth demo_conf; TreeKeyHashMask := TreeKeyHashMask demo_conf;
  TreeKeyHashLen := TreeKeyHashLen demo_conf |}.

Lemma vhash_env : env_ok vhash_conf DefaultMCConfig demo_ext demo_keys.
Proof.
  split; [apply demo_qlz_spec|intros n _; apply demo_alloc| |by vm_compute..].
  intros k1 k2 [->| ->] [->| ->] Hh; try done; exfalso; by vm_compute in Hh.
Qed.

Lemma vhash_request b body ver :
  ht_depth (bk_htree b) = 1 → ht_bucketID (bk_htree b) = 4 →
  append_okb vhash_conf DefaultMCConfig (mkRecord (bstr "hello") (demo_value body ver)) = true →
  set_ok vhash_conf DefaultMCConfig demo_ext demo_keys b (bucket_key (bstr "hello")) (demo_value body ver).
Proof.
  intros Hd Hb Ha. destruct (bucket_key_ok b (bstr "hello") (or_introl eq_refl) Hd Hb) as [H1 H2 H3 H4 H5].
  split; [by split|]. split; [by apply append_okb_ok|by vm_compute].
Qed.

(** "abqu" has hash 0. *)
Definition abqu_rec : Record_ :=
  mkRecord (bstr "hello") (mkPayload (mkMeta 1000 0 1 0 0) (mkCArray (bstr "abqu") 0 4)).
Lemma abqu_abs : abs_set vhash_conf None (bstr "hello") (demo_value (bstr "abqu") 0) = (None, Some (abqu_rec, 0)).
Proof. by vm_compute. Qed.

Lemma zero_vhash_delete_not_logged_witness :
  ∃ b1 sp r1 b2 r2 q pos r3,
    checkAndSet vhash_conf DefaultMCConfig demo_ext (bs_bkt demo_start) (bucket_key (bstr "hello")) (demo_value (bstr "abqu") 0) 1000 ResetAll
      = Some (None, b1, sp, r1)
    ∧ checkAndSet vhash_conf DefaultMCConfig demo_ext b1 (bucket_key (bstr "hello")) (demo_value [] (-1)) 1001 r1 = Some (None, b2, None, r2)
    ∧ bk_datas b2 = bk_datas b1
    ∧ bkt_get vhash_conf DefaultMCConfig demo_ext b2 (bucket_key (bstr "hello")) false r2 = Some ((Some q, pos, None), b2, r3) ∧ Ver (p_meta q) = -1.
Proof.
  assert (conf_for vhash_conf 1 3) as Hcf by exact demo_conf_for.
  destruct (reach_set vhash_conf DefaultMCConfig demo_ext demo_keys bucket_tree 1 4 3 false ResetAll vhash_env eq_refl Hcf
    demo_start ∅ (bucket_key (bstr "hello")) (demo_value (bstr "abqu") 0) 1000) as (b1 & sp & r1 & Hst & Hr).
  - apply br_init.
  - apply vhash_request; reflexivity.
  - reflexivity.
  - change (ki_Key (bucket_key (bstr "hello"))) with (bstr "hello") in *. rewrite lookup_empty, abqu_abs in *. cbn [fst snd put] in *.
    destruct (reach_frame vhash_conf DefaultMCConfig demo_ext demo_keys bucket_tree 1 4 3 false ResetAll vhash_env eq_refl Hcf _ _ Hr) as (Hd & Hb & _).
    destruct (zero_vhash_delete_not_logged vhash_conf DefaultMCConfig demo_ext demo_keys bucket_tree 1 4 3 false ResetAll vhash_env eq_refl Hcf
      (mkBktState b1 None r1) _ (bucket_key (bstr "hello")) (demo_value [] (-1)) 1001 abqu_rec Hr) as (b2 & r2 & Hdel & Hdt & _ & Hget).
    + apply vhash_request; [exact Hd|exact Hb|reflexivity].
    + reflexivity.
    + reflexivity.
    + reflexivity.
    + apply lookup_insert_eq.
    + reflexivity.
    + destruct (Hget r2) as (q & pos & r3 & Hg & Hq). exists b1, sp, r1, b2, r2, q, pos, r3. split_and!; [exact Hst|exact Hdel|exact Hdt|exact Hg|exact Hq].
Defined.

(** ** Two increments at the same time *)

(** [incr] takes no lock between its [get] and its [set]: after a counter was set to 7 a
    first increment reads it, a second one by 1 runs as a whole, and the first then stores
    what it has computed from its read. *)
Definition two_incrs : option (option bytes * option bytes) :=
  let ki := bucket_key (bstr "hits") in
  let body p := match p with Some q => Some (p_Body q) | None => None end in
  '(_, b, _, r) ← incr demo_conf DefaultMCConfig demo_ext (bs_bkt demo_start) ki 7 1000 ResetAll;
  '(p, _, _, b, r) ← bkt_get demo_conf DefaultMCConfig demo_ext b ki false r;
  q ← p;
  n ← Atoi (p_Body q);
  '(_, b, _, r) ← incr demo_conf DefaultMCConfig demo_ext b ki 1 1001 r;
  '(p1, _, _, b, r) ← bkt_get demo_conf DefaultMCConfig demo_ext b ki false r;
  '(b, _, r) ← bkt_set demo_conf DefaultMCConfig demo_ext b ki
                 (r_Payload (counter (bstr "hits") (i64 (1 + n)) (i32 (1 + Ver (p_meta q))) 1002)) 1002 r;
  '(p2, _, _, _, _) ← bkt_get demo_conf DefaultMCConfig demo_ext b ki false r;
  Some (body p1, body p2).

(** Both have added 1, and the counter is 8. *)
Example concurrent_incr_lost : two_incrs = Some (Some (bstr "8"), Some (bstr "8")).
Proof. vm_compute. reflexivity. Qed.
