(* ===== verification/Quicklz.v ===== *)
(** * The Go port of the QuickLZ coder

    src/quicklz/quicklz.go: [Compress] and [Decompress] of levels 1 and 3, with the
    tables, the control words and every index expression; [None] is a run-time panic.
    The slices are local to a call, so they are passed along as values. An [int] holds
    indices and words below 2^32 only and is kept as [Z]; bytes and the 32-bit control
    word are cut to their width where the code cuts them. [hashCounter] of [Decompress]
    is written and never read, and is left out. *)

From S2P Require Import Prelude Strconv Config Hashing Cmem Item.

Definition HASH_VALUES : Z := 4096.
Definition MINOFFSET : Z := 2.
Definition UNCONDITIONAL_MATCHLEN : Z := 6.
Definition UNCOMPRESSED_END : Z := 4.
Definition CWORD_LEN : Z := 4.
Definition DEFAULT_HEADERLEN : Z := 9.
Definition QLZ_POINTERS_1 : Z := 1.
Definition QLZ_POINTERS_3 : Z := 16.

(** ** Slices *)

Fixpoint fastWrite_from (a : bytes) (i value : Z) (j n : nat) : option bytes :=
  match n with
  | O => Some a
  | S n => a ← zset a (i + Z.of_nat j) (u8 (Z.shiftr value (8 * Z.of_nat j)));
           fastWrite_from a i value (S j) n
  end.
Definition fastWrite (a : bytes) (i value : Z) (numbytes : nat) : option bytes :=
  fastWrite_from a i value 0 numbytes.

(** [copy(dst, src)]. *)
Definition go_copy (dst src : bytes) : bytes := take (length dst) src ++ drop (length src) dst.

(** [source[i] == source[j]]. *)
Definition same (source : bytes) (i j : Z) : option bool :=
  x ← zget source i; y ← zget source j; Some (x =? y).

(** [a && b], where [b] is only evaluated when [a] holds. *)
Definition and_then (a b : option bool) : option bool :=
  x ← a; if x : bool then b else Some false.
Definition or_else (a b : option bool) : option bool :=
  x ← a; if x : bool then Some true else b.

Definition writeHeader (dst : bytes) (level : Z) (compressible : bool) (sizeCompressed sizeDecompressed : Z) :
    option bytes :=
  let cbit := if compressible then 1 else 0 in
  let b := u8 (Z.lor 2 cbit) in
  let b := Z.lor b (u8 (Z.shiftl level 2)) in
  let b := Z.lor b (Z.shiftl 1 6) in
  let b := Z.lor b (Z.shiftl 0 4) in
  dst ← zset dst 0 b;
  dst ← fastWrite dst 1 sizeDecompressed 4;
  fastWrite dst 5 sizeCompressed 4.

(** ** Compression *)

(** The variables of [Compress] that its loops change. *)
Record CState := mkC {
  c_src : Z; c_dst : Z; c_cwordVal : Z; c_cwordPtr : Z; c_destination : bytes;
  c_hashtable : list (list Z); c_cachetable : list Z; c_hashCounter : list Z;
  c_fetch : Z; c_lits : Z
}.

Definition lastMatchStart (size : Z) : Z := size - UNCONDITIONAL_MATCHLEN - UNCOMPRESSED_END - 1.

Definition hash_of (fetch : Z) : Z := Z.land (Z.lxor (Z.shiftr fetch 12) fetch) (HASH_VALUES - 1).

(** The control word is full: it is written and the next one begins. *)
Definition next_cword (s : CState) : option CState :=
  d ← fastWrite (c_destination s) (c_cwordPtr s) (Z.lor (Z.shiftr (c_cwordVal s) 1) 0x80000000) 4;
  Some (mkC (c_src s) (c_dst s + CWORD_LEN) 0x80000000 (c_dst s) d
            (c_hashtable s) (c_cachetable s) (c_hashCounter s) (c_fetch s) (c_lits s)).

(** What is returned when compression does not pay. *)
Definition store_raw (source : bytes) (level : Z) : option bytes :=
  d2 ← writeHeader (replicate (length source + Z.to_nat DEFAULT_HEADERLEN) 0) level false
         (zlen source) (zlen source + DEFAULT_HEADERLEN);
  Some (take (Z.to_nat DEFAULT_HEADERLEN) d2 ++ go_copy (drop (Z.to_nat DEFAULT_HEADERLEN) d2) source).

Definition cword_turn (source : bytes) (level : Z) (s : CState) : option (bytes + CState) :=
  if Z.land (c_cwordVal s) 1 =? 1 then
    if (c_src s >? 3 * Z.shiftr (zlen source) 2) && (c_dst s >? c_src s - Z.shiftr (c_src s) 5)
    then d2 ← store_raw source level; Some (inl d2)
    else s ← next_cword s; Some (inr s)
  else Some (inr s).

(** [for source[o+m] == source[src+m] && m < remaining { m++ }]. *)
Fixpoint extend (fuel : nat) (source : bytes) (o src m remaining : Z) : option Z :=
  e ← same source (o + m) (src + m);
  if e && (m <? remaining)
  then match fuel with O => None | S fuel => extend fuel source o src (m + 1) remaining end
  else Some m.
Definition EXTEND_FUEL : nat := 256.

Definition remaining_at (source : bytes) (src : Z) : Z :=
  let ln := zlen source - UNCOMPRESSED_END - src + 1 - 1 in if ln <=? 255 then ln else 255.

(** *** Level 1 *)

(** The condition of a match: the cached bytes agree, and the candidate lies far
    enough back or within a run of one byte. *)
Definition match1_cond (source : bytes) (src o cache cnt lits : Z) : option bool :=
  and_then (Some ((cache =? 0) && negb (cnt =? 0)))
    (or_else (Some (src - o >? MINOFFSET))
      (and_then (Some ((src =? o + 1) && (lits >=? 3) && (src >? 3)))
        (and_then (same source src (src - 3))
          (and_then (same source src (src - 2))
            (and_then (same source src (src - 1))
              (and_then (same source src (src + 1)) (same source src (src + 2)))))))).

(** How far a match of at least four bytes goes. *)
Definition matchlen1 (source : bytes) (o src : Z) : option Z :=
  e ← same source (o + 4) (src + 4);
  if negb e then Some 4 else
  e ← same source (o + 5) (src + 5);
  if negb e then Some 5 else extend EXTEND_FUEL source o src 6 (remaining_at source src).

(** The bytes of a match: the destination, the new end of it, the length matched. *)
Definition emit1 (source : bytes) (o hash src dst : Z) (destination : bytes) : option (bytes * Z * Z) :=
  e ← same source (o + 3) (src + 3);
  if negb e then
    let f := Z.lor (3 - 2) (Z.shiftl hash 4) in
    d ← zset destination (dst + 0) (u8 (Z.shiftr f (0 * 8)));
    d ← zset d (dst + 1) (u8 (Z.shiftr f (1 * 8)));
    Some (d, dst + 2, 3)
  else
    matchlen ← matchlen1 source o src;
    let hash := Z.shiftl hash 4 in
    if matchlen <? 18 then
      let f := Z.lor hash (matchlen - 2) in
      d ← zset destination (dst + 0) (u8 (Z.shiftr f (0 * 8)));
      d ← zset d (dst + 1) (u8 (Z.shiftr f (1 * 8)));
      Some (d, dst + 2, matchlen)
    else
      let f := Z.lor hash (Z.shiftl matchlen 16) in
      d ← fastWrite destination dst f 3;
      Some (d, dst + 3, matchlen).

Definition step1 (source : bytes) (s : CState) : option CState :=
  let fetch := c_fetch s in let src := c_src s in
  let hash := hash_of fetch in
  row ← zget (c_hashtable s) hash; o ← zget row 0;
  cached ← zget (c_cachetable s) hash;
  let cache := Z.lxor cached fetch in
  cachetable ← zset (c_cachetable s) hash fetch;
  row ← zset row 0 src;
  hashtable ← zset (c_hashtable s) hash row;
  cnt ← zget (c_hashCounter s) hash;
  m ← match1_cond source src o cache cnt (c_lits s);
  if m : bool then
    let cwordVal := Z.lor (Z.shiftr (c_cwordVal s) 1) 0x80000000 in
    '(d, dst, matchlen) ← emit1 source o hash src (c_dst s) (c_destination s);
    let src := src + matchlen in
    fetch ← fastRead source src 3;
    Some (mkC src dst cwordVal (c_cwordPtr s) d hashtable cachetable (c_hashCounter s) fetch 0)
  else
    hashCounter ← zset (c_hashCounter s) hash 1;
    b ← zget source src;
    d ← zset (c_destination s) (c_dst s) b;
    let cwordVal := Z.shiftr (c_cwordVal s) 1 in
    let src := src + 1 in
    b ← zget source (src + 2);
    Some (mkC src (c_dst s + 1) cwordVal (c_cwordPtr s) d hashtable cachetable hashCounter
              (Z.lor (Z.land (Z.shiftr fetch 8) 0xffff) (Z.shiftl b 16)) (c_lits s + 1)).

(** *** Level 3 *)

(** [hashtable[hash][c&15] = pos] with the counter of the row going on; [c++] wraps at
    a byte. *)
Definition put3 (hashtable : list (list Z)) (hashCounter : list Z) (hash pos : Z) :
    option (list (list Z) * list Z) :=
  c ← zget hashCounter hash;
  row ← zget hashtable hash;
  row ← zset row (Z.land c (QLZ_POINTERS_3 - 1)) pos;
  hashtable ← zset hashtable hash row;
  hashCounter ← zset hashCounter hash (u8 (c + 1));
  Some (hashtable, hashCounter).

(** The best of the candidates of a row: [n] are left, from [k] on. *)
Fixpoint search3 (n : nat) (source : bytes) (row : list Z) (c fetch src remaining k offset2 matchlen : Z) :
    option (Z * Z) :=
  match n with
  | O => Some (offset2, matchlen)
  | S n =>
      if (c >? k) || (c <? 0) then
        o ← zget row k;
        e ← and_then (b ← zget source o; Some (u8 fetch =? b))
              (and_then (b ← zget source (o + 1); Some (u8 (Z.shiftr fetch 8) =? b))
                (and_then (b ← zget source (o + 2); Some (u8 (Z.shiftr fetch 16) =? b))
                  (Some (o <? src - MINOFFSET))));
        if e : bool then
          m ← extend EXTEND_FUEL source o src 3 remaining;
          if (m >? matchlen) || ((m =? matchlen) && (o >? offset2))
          then search3 n source row c fetch src remaining (k + 1) o m
          else search3 n source row c fetch src remaining (k + 1) offset2 matchlen
        else search3 n source row c fetch src remaining (k + 1) offset2 matchlen
      else Some (offset2, matchlen)
  end.

(** The positions inside a match enter the table: [n] are left, from [u] on. *)
Fixpoint enter3 (n : nat) (source : bytes) (src u : Z) (hashtable : list (list Z)) (hashCounter : list Z) (fetch : Z) :
    option (list (list Z) * list Z * Z) :=
  match n with
  | O => Some (hashtable, hashCounter, fetch)
  | S n =>
      fetch ← fastRead source (src + u) 3;
      '(hashtable, hashCounter) ← put3 hashtable hashCounter (hash_of fetch) (src + u);
      enter3 n source src (u + 1) hashtable hashCounter fetch
  end.

(** The bytes of a match, in the shortest of the five forms that fits. *)
Definition emit3 (destination : bytes) (dst matchlen offset : Z) : option (bytes * Z) :=
  if (matchlen =? 3) && (offset <=? 63) then
    d ← fastWrite destination dst (Z.shiftl offset 2) 1; Some (d, dst + 1)
  else if (matchlen =? 3) && (offset <=? 16383) then
    d ← fastWrite destination dst (Z.lor (Z.shiftl offset 2) 1) 2; Some (d, dst + 2)
  else if (matchlen <=? 18) && (offset <=? 1023) then
    d ← fastWrite destination dst (Z.lor (Z.lor (Z.shiftl (matchlen - 3) 2) (Z.shiftl offset 6)) 2) 2; Some (d, dst + 2)
  else if matchlen <=? 33 then
    d ← fastWrite destination dst (Z.lor (Z.lor (Z.shiftl (matchlen - 2) 2) (Z.shiftl offset 7)) 3) 3; Some (d, dst + 3)
  else
    d ← fastWrite destination dst (Z.lor (Z.lor (Z.shiftl (matchlen - 3) 7) (Z.shiftl offset 15)) 3) 4; Some (d, dst + 4).

Definition step3 (source : bytes) (s : CState) : option CState :=
  let src := c_src s in
  fetch ← fastRead source src 3;
  let remaining := remaining_at source src in
  let hash := hash_of fetch in
  c ← zget (c_hashCounter s) hash;
  row ← zget (c_hashtable s) hash;
  '(o, matchlen) ← search3 (Z.to_nat QLZ_POINTERS_3) source row c fetch src remaining 0 0 0;
  '(hashtable, hashCounter) ← put3 (c_hashtable s) (c_hashCounter s) hash src;
  if (matchlen >=? 3) && (src - o <? 131071) then
    let offset := src - o in
    '(hashtable, hashCounter, fetch) ← enter3 (Z.to_nat (matchlen - 1)) source src 1 hashtable hashCounter fetch;
    '(d, dst) ← emit3 (c_destination s) (c_dst s) matchlen offset;
    Some (mkC (src + matchlen) dst (Z.lor (Z.shiftr (c_cwordVal s) 1) 0x80000000) (c_cwordPtr s) d
              hashtable (c_cachetable s) hashCounter fetch (c_lits s))
  else
    b ← zget source src;
    d ← zset (c_destination s) (c_dst s) b;
    Some (mkC (src + 1) (c_dst s + 1) (Z.shiftr (c_cwordVal s) 1) (c_cwordPtr s) d
              hashtable (c_cachetable s) hashCounter fetch (c_lits s)).

(** *** The loops *)

(** Every round consumes a byte of the source, so its length is fuel enough. *)
Fixpoint compress_loop (fuel : nat) (source : bytes) (level : Z) (s : CState) : option (bytes + CState) :=
  if c_src s <=? lastMatchStart (zlen source) then
    match fuel with
    | O => None
    | S fuel =>
        r ← cword_turn source level s;
        match r with
        | inl d2 => Some (inl d2)
        | inr s => s ← (if level =? 1 then step1 source s else step3 source s);
                   compress_loop fuel source level s
        end
    end
  else Some (inr s).

Fixpoint tail_loop (fuel : nat) (source : bytes) (s : CState) : option CState :=
  if c_src s <=? zlen source - 1 then
    match fuel with
    | O => None
    | S fuel =>
        s ← (if Z.land (c_cwordVal s) 1 =? 1 then next_cword s else Some s);
        b ← zget source (c_src s);
        d ← zset (c_destination s) (c_dst s) b;
        tail_loop fuel source
          (mkC (c_src s + 1) (c_dst s + 1) (Z.shiftr (c_cwordVal s) 1) (c_cwordPtr s) d
               (c_hashtable s) (c_cachetable s) (c_hashCounter s) (c_fetch s) (c_lits s))
    end
  else Some s.

(** [for (cwordVal & 1) != 1 { cwordVal = cwordVal >> 1 }], on 32 bits. *)
Fixpoint pad_loop (fuel : nat) (cwordVal : Z) : option Z :=
  if negb (Z.land cwordVal 1 =? 1)
  then match fuel with O => None | S fuel => pad_loop fuel (Z.shiftr cwordVal 1) end
  else Some cwordVal.

Definition compress_init (source : bytes) (level : Z) : CState :=
  let hpointers := if level =? 3 then QLZ_POINTERS_3 else QLZ_POINTERS_1 in
  mkC 0 (DEFAULT_HEADERLEN + CWORD_LEN) 0x80000000 DEFAULT_HEADERLEN (replicate (length source + 400) 0)
      (replicate (Z.to_nat HASH_VALUES) (replicate (Z.to_nat hpointers) 0))
      (replicate (Z.to_nat HASH_VALUES) 0) (replicate (Z.to_nat HASH_VALUES) 0) 0 0.

Definition compress_finish (source : bytes) (level : Z) (s : CState) : option bytes :=
  s ← tail_loop (length source) source s;
  cwordVal ← pad_loop 32 (c_cwordVal s);
  d ← fastWrite (c_destination s) (c_cwordPtr s) (Z.lor (Z.shiftr cwordVal 1) 0x80000000) (Z.to_nat CWORD_LEN);
  d ← writeHeader d level true (zlen source) (c_dst s);
  Some (go_copy (replicate (Z.to_nat (c_dst s)) 0) d).

Definition go_Compress (source : bytes) (level : Z) : option bytes :=
  if negb (level =? 1) && negb (level =? 3) then None else
  let s := compress_init source level in
  if zlen source =? 0 then Some [] else
  fetch ← (if c_src s <=? lastMatchStart (zlen source) then fastRead source (c_src s) 3 else Some 0);
  r ← compress_loop (length source) source level
        (mkC (c_src s) (c_dst s) (c_cwordVal s) (c_cwordPtr s) (c_destination s)
             (c_hashtable s) (c_cachetable s) (c_hashCounter s) fetch (c_lits s));
  match r with
  | inl d2 => Some d2
  | inr s => compress_finish source level s
  end.

(** ** Decompression *)

Record DState := mkD {
  d_src : Z; d_dst : Z; d_cwordVal : Z; d_destination : bytes; d_hashtable : list Z;
  d_lastHashed : Z; d_fetch : Z
}.

(** A new control word is read when the last one is used up. *)
Definition refill (source : bytes) (level size : Z) (s : DState) : option DState :=
  if d_cwordVal s =? 1 then
    cwordVal ← fastRead source (d_src s) 4;
    let src := d_src s + 4 in
    fetch ← (if d_dst s <=? lastMatchStart size
             then (if level =? 1 then fastRead source src 3 else fastRead source src 4)
             else Some (d_fetch s));
    Some (mkD src (d_dst s) cwordVal (d_destination s) (d_hashtable s) (d_lastHashed s) fetch)
  else Some s.

(** Where a match begins, its length, and the next index of the source. *)
Definition decode_match (source : bytes) (level : Z) (s : DState) : option (Z * Z * Z) :=
  let fetch := d_fetch s in let src := d_src s in
  if level =? 1 then
    let hash := Z.land (Z.shiftr fetch 4) 0xfff in
    offset2 ← zget (d_hashtable s) hash;
    if negb (Z.land fetch 0xf =? 0) then Some (offset2, Z.land fetch 0xf + 2, src + 2)
    else b ← zget source (src + 2); Some (offset2, Z.land b 0xff, src + 3)
  else
    let '(offset, matchlen, src) :=
      if Z.land fetch 3 =? 0 then (Z.shiftr (Z.land fetch 0xff) 2, 3, src + 1)
      else if Z.land fetch 2 =? 0 then (Z.shiftr (Z.land fetch 0xffff) 2, 3, src + 2)
      else if Z.land fetch 1 =? 0 then (Z.shiftr (Z.land fetch 0xffff) 6, Z.land (Z.shiftr fetch 2) 15 + 3, src + 2)
      else if negb (Z.land fetch 127 =? 3)
      then (Z.land (Z.shiftr fetch 7) 0x1ffff, Z.land (Z.shiftr fetch 2) 0x1f + 2, src + 3)
      else (Z.shiftr fetch 15, Z.land (Z.shiftr fetch 7) 255 + 3, src + 4) in
    Some (d_dst s - offset, matchlen, src).

(** [destination[dst+i] = destination[offset2+i]] for [n] values of [i]. *)
Fixpoint copy_match (n : nat) (destination : bytes) (dst offset2 i : Z) : option bytes :=
  match n with
  | O => Some destination
  | S n => b ← zget destination (offset2 + i);
           d ← zset destination (dst + i) b;
           copy_match n d dst offset2 (i + 1)
  end.

(** The table catches up with [n] positions after [lastHashed]: after a match with a
    rolling word, after a literal with a word read for each of them. *)
Fixpoint catch_up_match (n : nat) (destination : bytes) (hashtable : list Z) (lastHashed fetch : Z) :
    option (list Z * Z) :=
  match n with
  | O => Some (hashtable, lastHashed)
  | S n =>
      let lastHashed := lastHashed + 1 in
      hashtable ← zset hashtable (hash_of fetch) lastHashed;
      b ← zget destination (lastHashed + 3);
      catch_up_match n destination hashtable lastHashed
        (Z.lor (Z.land (Z.shiftr fetch 8) 0xffff) (Z.shiftl b 16))
  end.

Fixpoint catch_up_literal (n : nat) (destination : bytes) (hashtable : list Z) (lastHashed : Z) :
    option (list Z * Z) :=
  match n with
  | O => Some (hashtable, lastHashed)
  | S n =>
      let lastHashed := lastHashed + 1 in
      fetch2 ← fastRead destination lastHashed 3;
      hashtable ← zset hashtable (hash_of fetch2) lastHashed;
      catch_up_literal n destination hashtable lastHashed
  end.

Definition match_step (source : bytes) (level : Z) (s : DState) : option DState :=
  '(offset2, matchlen, src) ← decode_match source level s;
  let dst := d_dst s in
  d ← copy_match 3 (d_destination s) dst offset2 0;
  d ← copy_match (Z.to_nat (matchlen - 3)) d dst offset2 3;
  let dst := dst + matchlen in
  '(hashtable, fetch) ←
    (if level =? 1 then
       fetch ← fastRead d (d_lastHashed s + 1) 3;
       '(hashtable, _) ← catch_up_match (Z.to_nat (dst - matchlen - d_lastHashed s)) d (d_hashtable s)
                           (d_lastHashed s) fetch;
       fetch ← fastRead source src 3; Some (hashtable, fetch)
     else fetch ← fastRead source src 4; Some (d_hashtable s, fetch));
  Some (mkD src dst (Z.shiftr (d_cwordVal s) 1) d hashtable (dst - 1) fetch).

Definition literal_step (source : bytes) (level : Z) (s : DState) : option DState :=
  b ← zget source (d_src s);
  d ← zset (d_destination s) (d_dst s) b;
  let dst := d_dst s + 1 in let src := d_src s + 1 in
  let fetch := Z.land (Z.shiftr (d_fetch s) 8) 0xffff in
  if level =? 1 then
    '(hashtable, lastHashed) ←
      catch_up_literal (Z.to_nat (dst - 3 - d_lastHashed s)) d (d_hashtable s) (d_lastHashed s);
    b ← zget source (src + 2);
    Some (mkD src dst (Z.shiftr (d_cwordVal s) 1) d hashtable lastHashed (Z.lor fetch (Z.shiftl b 16)))
  else
    b ← zget source (src + 2);
    b' ← zget source (src + 3);
    Some (mkD src dst (Z.shiftr (d_cwordVal s) 1) d (d_hashtable s) (d_lastHashed s)
              (Z.lor (Z.lor fetch (Z.shiftl b 16)) (Z.shiftl b' 24))).

(** The literals at the end, with the control words skipped: [n] are left. *)
Fixpoint end_literals (n : nat) (source : bytes) (src dst cwordVal : Z) (destination : bytes) : option bytes :=
  match n with
  | O => Some destination
  | S n =>
      let '(src, cwordVal) := if cwordVal =? 1 then (src + CWORD_LEN, 0x80000000) else (src, cwordVal) in
      b ← zget source src;
      d ← zset destination dst b;
      end_literals n source (src + 1) (dst + 1) (Z.shiftr cwordVal 1) d
  end.

(** A round that does not return consumes a byte of the source, and the indices end with
    it: its length is fuel enough. *)
Fixpoint decompress_loop (fuel : nat) (source : bytes) (level size : Z) (s : DState) : option bytes :=
  match fuel with
  | O => None
  | S fuel =>
      s ← refill source level size s;
      if Z.land (d_cwordVal s) 1 =? 1 then
        s ← match_step source level s; decompress_loop fuel source level size s
      else if d_dst s <=? lastMatchStart size then
        s ← literal_step source level s; decompress_loop fuel source level size s
      else
        end_literals (Z.to_nat (size - d_dst s)) source (d_src s) (d_dst s) (d_cwordVal s) (d_destination s)
  end.

Definition go_Decompress (source : bytes) : option bytes :=
  size ← SizeDecompressed source;
  src ← headerLen source;
  b ← zget source 0;
  let level := Z.land (Z.shiftr b 2) 0x3 in
  if negb (level =? 1) && negb (level =? 3) then None else
  if negb (Z.land b 1 =? 1) then
    rest ← zfrom source src; Some (go_copy (replicate (Z.to_nat size) 0) rest)
  else
    decompress_loop (S (length source)) source level size
      (mkD src 0 1 (replicate (Z.to_nat size) 0) (replicate (Z.to_nat HASH_VALUES) 0) (-1) 0).
