(* ===== verification/QuicklzSpec.v ===== *)
(** * The format of the QuickLZ coder

    A compressed stream is a list of tokens, literals and matches. [enc] lays the tokens
    out in groups of 31 behind their control words, [walk] says that the tokens spell a
    source from one position to another, with the table of level 1 carried along. The
    compressor is shown to build such a stream and the decompressor to spell it out. *)

From S2P Require Import Prelude Strconv Config Hashing Cmem Item Quicklz.

(** ** Slices *)

Lemma zget_drop {A} (l : list A) i j : 0 <= i → 0 <= j → zget l (i + j) = zget (drop (Z.to_nat i) l) j.
Proof.
  intros Hi Hj. unfold zget. do 2 (rewrite (proj2 (Z.ltb_ge _ _)) by lia).
  rewrite lookup_drop. f_equal. lia.
Qed.

Lemma zget_app_mid {A} (l k : list A) x i : i = zlen l → zget (l ++ x :: k) i = Some x.
Proof. intros ->. unfold zlen. rewrite zget_nat. by rewrite list_lookup_middle. Qed.

Lemma zset_app_mid {A} (l k : list A) x y i : i = zlen l → zset (l ++ x :: k) i y = Some (l ++ y :: k).
Proof.
  intros ->. unfold zset, zlen. rewrite length_app. cbn [length].
  rewrite (proj2 (Z.leb_le _ _)) by lia. rewrite (proj2 (Z.ltb_lt _ _)) by lia. cbn [andb].
  rewrite Nat2Z.id. by rewrite insert_app_r_alt, Nat.sub_diag by lia.
Qed.

Lemma zset_insert {A} (l : list A) i x :
  0 <= i < zlen l → zset l i x = Some (<[Z.to_nat i := x]> l).
Proof.
  intros Hi. unfold zset. rewrite (proj2 (Z.leb_le _ _)) by lia. by rewrite (proj2 (Z.ltb_lt _ _)) by lia.
Qed.

Lemma zget_set {A} (l : list A) i j x :
  0 <= i < zlen l → 0 <= j → zget (<[Z.to_nat i := x]> l) j = if decide (j = i) then Some x else zget l j.
Proof.
  intros Hi Hj. unfold zget. rewrite (proj2 (Z.ltb_ge _ _)) by lia. unfold zlen in Hi. case_decide as E.
  - subst. apply list_lookup_insert_eq. lia.
  - apply list_lookup_insert_ne. lia.
Qed.

Lemma fastWrite_from_app n : ∀ l old k v j,
  length old = n →
  fastWrite_from (l ++ old ++ k) (zlen l - Z.of_nat j) v j n
  = Some (l ++ le_put n (Z.shiftr v (8 * Z.of_nat j)) ++ k).
Proof.
  induction n as [|n IH]; intros l old k v j Hlen; destruct old as [|x old]; try done.
  cbn [fastWrite_from le_put app]. rewrite zset_app_mid by lia. cbn [mbind option_bind].
  injection Hlen as Hlen.
  replace (l ++ u8 (Z.shiftr v (8 * Z.of_nat j)) :: old ++ k)
    with ((l ++ [u8 (Z.shiftr v (8 * Z.of_nat j))]) ++ old ++ k) by (by rewrite <- (assoc_L app)).
  replace (zlen l - Z.of_nat j) with (zlen (l ++ [u8 (Z.shiftr v (8 * Z.of_nat j))]) - Z.of_nat (S j))
    by (rewrite zlen_app; unfold zlen; cbn [length]; lia).
  rewrite IH by done. rewrite <- (assoc_L app). cbn [app].
  rewrite !Z.shiftr_div_pow2 by lia. rewrite Z.div_div by lia.
  replace (2 ^ (8 * Z.of_nat j) * 256) with (2 ^ (8 * Z.of_nat (S j)));
    [done|replace (8 * Z.of_nat (S j)) with (8 * Z.of_nat j + 8) by lia; by rewrite Z.pow_add_r by lia].
Qed.

(** [fastWrite] puts a little-endian word in place. *)
Lemma fastWrite_app l old k v n i :
  i = zlen l → length old = n → fastWrite (l ++ old ++ k) i v n = Some (l ++ le_put n v ++ k).
Proof.
  intros -> Hlen. unfold fastWrite. pose proof (fastWrite_from_app n l old k v 0 Hlen) as H.
  cbn [Z.of_nat] in H. rewrite Z.sub_0_r, Z.mul_0_r, Z.shiftr_0_r in H. done.
Qed.

(** A slice with [n] bytes from [i] on comes apart there. *)
Lemma split_at {A} (l : list A) (n : nat) :
  (n <= length l)%nat → ∃ old k, l = old ++ k ∧ length old = n.
Proof. exists (take n l), (drop n l). by rewrite take_drop, length_take_le. Qed.

(** The word of three bytes of a slice. *)
Definition word3 (a : bytes) (i : Z) : Z := le_word 3 (drop (Z.to_nat i) a).

Lemma fastRead_word3 a i : is_bytes a → 0 <= i → i + 3 <= zlen a → fastRead a i 3 = Some (word3 a i).
Proof. intros. by apply fastRead_le. Qed.

Lemma is_bytes_zget a i x : is_bytes a → zget a i = Some x → is_u8 x.
Proof. intros Ha [_ Hx]%zget_Some. unfold is_bytes in Ha. rewrite Forall_lookup in Ha. by eapply Ha. Qed.

Lemma word3_bytes a i :
  is_bytes a → 0 <= i → i + 3 <= zlen a →
  ∃ x y z, zget a i = Some x ∧ zget a (i + 1) = Some y ∧ zget a (i + 2) = Some z
    ∧ is_u8 x ∧ is_u8 y ∧ is_u8 z ∧ word3 a i = x + 256 * y + 65536 * z.
Proof.
  intros Ha Hi Hl.
  destruct (zget_lt a i) as [x Hx]; [lia|]. destruct (zget_lt a (i + 1)) as [y Hy]; [lia|].
  destruct (zget_lt a (i + 2)) as [z Hz]; [lia|]. exists x, y, z.
  split_and!; eauto using is_bytes_zget. unfold word3, le_word.
  apply zget_Some in Hx as [_ Hx]. apply zget_Some in Hy as [_ Hy]. apply zget_Some in Hz as [_ Hz].
  replace (Z.to_nat (i + 1)) with (S (Z.to_nat i)) in Hy by lia.
  replace (Z.to_nat (i + 2)) with (S (S (Z.to_nat i))) in Hz by lia.
  rewrite (drop_S _ _ _ Hx), (drop_S _ _ _ Hy), (drop_S _ _ _ Hz). cbn [take le_get]. rewrite take_0. cbn [le_get]. lia.
Qed.

(** Equal bytes give equal words, and the other way round. *)
Lemma word3_eq a b i j :
  is_bytes a → is_bytes b → 0 <= i → i + 3 <= zlen a → 0 <= j → j + 3 <= zlen b →
  (∀ n, 0 <= n < 3 → zget a (i + n) = zget b (j + n)) ↔ word3 a i = word3 b j.
Proof.
  intros Ha Hb Hi Hil Hj Hjl.
  destruct (word3_bytes a i) as (x & y & z & Hx & Hy & Hz & Ux & Uy & Uz & ->); [done..|].
  destruct (word3_bytes b j) as (x' & y' & z' & Hx' & Hy' & Hz' & Ux' & Uy' & Uz' & ->); [done..|].
  unfold is_u8 in *. split.
  - intros H. pose proof (H 0 ltac:(lia)) as H0. pose proof (H 1 ltac:(lia)) as H1. pose proof (H 2 ltac:(lia)) as H2.
    rewrite !Z.add_0_r in H0. congruence.
  - intros H. assert (x = x' ∧ y = y' ∧ z = z') as (-> & -> & ->) by lia. intros n Hn.
    assert (n = 0 ∨ n = 1 ∨ n = 2) as [-> | [-> | ->]] by lia; rewrite ?Z.add_0_r; congruence.
Qed.

(** The rolling word. *)
Lemma word3_roll a i b :
  is_bytes a → 0 <= i → i + 4 <= zlen a → zget a (i + 3) = Some b →
  Z.lor (Z.land (Z.shiftr (word3 a i) 8) 0xffff) (Z.shiftl b 16) = word3 a (i + 1).
Proof.
  intros Ha Hi Hl Hb.
  destruct (word3_bytes a i) as (x & y & z & Hx & Hy & Hz & Ux & Uy & Uz & ->); [done|done|lia|].
  destruct (word3_bytes a (i + 1)) as (x' & y' & z' & Hx' & Hy' & Hz' & Ux' & Uy' & Uz' & ->); [done|lia|lia|].
  replace (i + 1 + 1) with (i + 2) in Hy' by lia. replace (i + 1 + 2) with (i + 3) in Hz' by lia.
  assert (x' = y ∧ y' = z ∧ z' = b) as (-> & -> & ->) by (split_and!; congruence).
  rewrite Z.shiftr_div_pow2 by lia. change 0xffff with (Z.ones 16). rewrite Z.land_ones by lia.
  unfold is_u8 in *. change (2 ^ 8) with 256 in *. change (2 ^ 16) with 65536.
  replace ((x + 256 * y + 65536 * z) / 256 mod 65536) with (y + 256 * z) by width.
  rewrite lor_shiftl_add by lia. rewrite Z.shiftl_mul_pow2 by lia. lia.
Qed.

Lemma hash_range f : 0 <= hash_of f < HASH_VALUES.
Proof.
  unfold hash_of. change (HASH_VALUES - 1) with (Z.ones 12). rewrite Z.land_ones by lia.
  unfold HASH_VALUES. width.
Qed.

(** ** Tokens and control words *)

Inductive token := Lit (b : Z) | Mat (code : bytes) (len : Z).
Definition tok_bytes (t : token) : bytes := match t with Lit b => [b] | Mat c _ => c end.
Definition tok_len (t : token) : Z := match t with Lit _ => 1 | Mat _ n => n end.
Definition tok_flag (t : token) : Z := match t with Lit _ => 0 | Mat _ _ => 1 end.
Definition flat (ts : list token) : bytes := concat (tok_bytes <$> ts).

(** What is left of a control word with [k] flags to go: the flags of the next tokens
    from the lowest bit up, and the mark above them. *)
Fixpoint cw (k : nat) (ts : list token) : Z :=
  match k with
  | O => 1
  | S k => match ts with [] => 2 * cw k [] | t :: ts => tok_flag t + 2 * cw k ts end
  end.

(** The layout of tokens when [k] flags of the current control word are left. *)
Fixpoint enc (k : nat) (ts : list token) : bytes :=
  match ts with
  | [] => []
  | t :: ts' =>
      match k with
      | O => le_put 4 (cw 31 ts) ++ tok_bytes t ++ enc 30 ts'
      | S k => tok_bytes t ++ enc k ts'
      end
  end.

Fixpoint bits (ts : list token) : Z :=
  match ts with [] => 0 | t :: ts => tok_flag t + 2 * bits ts end.

(** The control word of the compressor after the tokens [ts] of a group. *)
Definition ccw (ts : list token) : Z := 2 ^ (31 - zlen ts) * (1 + 2 * bits ts).

Lemma tok_flag_range t : 0 <= tok_flag t <= 1.
Proof. destruct t; simpl; lia. Qed.

Lemma bits_range ts : 0 <= bits ts < 2 ^ zlen ts.
Proof.
  unfold zlen. induction ts as [|t ts IH]; cbn [bits length]; [simpl; lia|].
  rewrite Nat2Z.inj_succ, Z.pow_succ_r by lia. pose proof (tok_flag_range t). lia.
Qed.

Lemma bits_snoc ts t : bits (ts ++ [t]) = bits ts + 2 ^ zlen ts * tok_flag t.
Proof.
  unfold zlen. induction ts as [|u ts IH]; cbn [bits length app]; [simpl; lia|].
  rewrite Nat2Z.inj_succ, Z.pow_succ_r, IH by lia. lia.
Qed.

Lemma cw_bits k ts : (length ts <= k)%nat → cw k ts = bits ts + 2 ^ Z.of_nat k.
Proof.
  revert ts. induction k as [|k IH]; intros ts Hl; cbn [cw].
  - destruct ts; [done|simpl in Hl; lia].
  - rewrite Nat2Z.inj_succ, Z.pow_succ_r by lia. destruct ts as [|t ts]; cbn [bits].
    + rewrite IH by (simpl; lia). cbn [bits]. lia.
    + cbn [length] in Hl. rewrite IH by lia. lia.
Qed.

Lemma cw_app k ts us : length ts = k → cw k (ts ++ us) = cw k ts.
Proof.
  revert ts. induction k as [|k IH]; intros [|t ts] Hl; try done. cbn [cw app]. injection Hl as Hl. by rewrite IH.
Qed.

Lemma cw_range k ts : 2 ^ Z.of_nat k <= cw k ts < 2 ^ Z.of_nat (S k).
Proof.
  revert ts. induction k as [|k IH]; intros ts; cbn [cw]; [simpl; lia|].
  rewrite Nat2Z.inj_succ, (Nat2Z.inj_succ (S k)), !Z.pow_succ_r by lia.
  destruct ts as [|t ts]; [pose proof (IH [])|pose proof (IH ts); pose proof (tok_flag_range t)];
    rewrite Nat2Z.inj_succ, Z.pow_succ_r in * by lia; lia.
Qed.

Lemma cw_one k ts : cw k ts = 1 ↔ k = 0%nat.
Proof.
  split; [|by intros ->]. pose proof (cw_range k ts). destruct k; [done|]. rewrite Nat2Z.inj_succ, Z.pow_succ_r in H by lia.
  assert (0 < 2 ^ Z.of_nat k) by (apply Z.pow_pos_nonneg; lia). lia.
Qed.

Lemma cw_step k t ts : Z.land (cw (S k) (t :: ts)) 1 = tok_flag t ∧ Z.shiftr (cw (S k) (t :: ts)) 1 = cw k ts.
Proof.
  cbn [cw]. pose proof (tok_flag_range t). split.
  - change 1 with (Z.ones 1) at 1. rewrite Z.land_ones by lia. width.
  - rewrite Z.shiftr_div_pow2 by lia. width.
Qed.

Lemma ccw_nil : ccw [] = 0x80000000.
Proof. reflexivity. Qed.

Lemma ccw_range ts : (length ts <= 31)%nat → 0 < ccw ts < 2 ^ 32.
Proof.
  intros Hl. unfold ccw. pose proof (bits_range ts).
  assert (0 < 2 ^ (31 - zlen ts)) by (apply Z.pow_pos_nonneg; unfold zlen; lia).
  assert (2 ^ 32 = 2 ^ (31 - zlen ts) * (2 * 2 ^ zlen ts)) as ->.
  { rewrite <- Z.pow_succ_r, <- Z.pow_add_r by (unfold zlen; lia). f_equal. lia. }
  split; [lia|]. apply Z.mul_lt_mono_pos_l; lia.
Qed.

(** The control word of the compressor is full exactly after 31 tokens. *)
Lemma ccw_full ts : (length ts <= 31)%nat → (Z.land (ccw ts) 1 =? 1) = bool_decide (length ts = 31%nat).
Proof.
  intros Hl. change 1 with (Z.ones 1) at 1. rewrite Z.land_ones by lia. unfold ccw.
  case_bool_decide as H.
  - unfold zlen. rewrite H. change (2 ^ (31 - Z.of_nat 31)) with 1. apply Z.eqb_eq. width.
  - apply Z.eqb_neq. replace (31 - zlen ts) with (Z.succ (30 - zlen ts)) by lia.
    rewrite Z.pow_succ_r by (unfold zlen; lia). rewrite <- Z.mul_assoc.
    rewrite (Z.mul_comm 2), Z.pow_1_r, Z_mod_mult. lia.
Qed.

Lemma ccw_lit ts b : (length ts < 31)%nat → Z.shiftr (ccw ts) 1 = ccw (ts ++ [Lit b]).
Proof.
  intros Hl. unfold ccw. rewrite bits_snoc, zlen_app. cbn [tok_flag]. change (zlen [Lit b]) with 1.
  rewrite Z.shiftr_div_pow2 by lia. replace (31 - zlen ts) with (Z.succ (30 - zlen ts)) by lia.
  rewrite Z.pow_succ_r by (unfold zlen; lia). replace (31 - (zlen ts + 1)) with (30 - zlen ts) by lia.
  rewrite <- Z.mul_assoc, (Z.mul_comm 2), Z.pow_1_r, Z.div_mul by lia. lia.
Qed.

Lemma ccw_mat ts c n : (length ts < 31)%nat → Z.lor (Z.shiftr (ccw ts) 1) 0x80000000 = ccw (ts ++ [Mat c n]).
Proof.
  intros Hl. rewrite (ccw_lit ts 0) by done. change 0x80000000 with (Z.shiftl 1 31).
  assert (ccw (ts ++ [Lit 0]) < 2 ^ 31) as Hlt.
  { rewrite <- ccw_lit by done. rewrite Z.shiftr_div_pow2 by lia. pose proof (ccw_range ts ltac:(lia)). width. }
  pose proof (ccw_range (ts ++ [Lit 0])) as Hr. rewrite length_app in Hr. cbn [length] in Hr. specialize (Hr ltac:(lia)).
  rewrite lor_shiftl_add by lia. rewrite Z.shiftl_mul_pow2 by lia.
  unfold ccw in *. rewrite !bits_snoc, !zlen_app in *. cbn [tok_flag] in *. unfold zlen at 1 3 5; cbn [length].
  change (zlen [Lit 0]) with 1 in *.
  assert (2 ^ 31 = 2 ^ (31 - (zlen ts + 1)) * (2 * 2 ^ zlen ts)) as E.
  { rewrite <- Z.pow_succ_r, <- Z.pow_add_r by (unfold zlen; lia). f_equal. lia. }
  fold (zlen ts). change (Z.of_nat 1) with 1. rewrite Z.mul_0_r, Z.add_0_r, Z.mul_1_r, Z.mul_1_l. rewrite E. ring.
Qed.

(** What the compressor writes over the place of a control word. *)
Lemma ccw_written ts v :
  (length ts <= 31)%nat → v = 1 + 2 * bits ts → Z.lor (Z.shiftr v 1) 0x80000000 = cw 31 ts.
Proof.
  intros Hl ->. rewrite cw_bits by done. change (2 ^ Z.of_nat 31) with 0x80000000.
  rewrite Z.shiftr_div_pow2 by lia. replace ((1 + 2 * bits ts) / 2 ^ 1) with (bits ts) by width.
  change 0x80000000 with (Z.shiftl 1 31). apply lor_shiftl_add; [lia| |lia].
  pose proof (bits_range ts). assert (2 ^ zlen ts <= 2 ^ 31) by (apply Z.pow_le_mono_r; unfold zlen; lia). lia.
Qed.

(** Shifting out the unused flags. *)
Lemma pad_loop_ok ts fuel :
  (length ts <= 31)%nat → (31 - length ts <= fuel)%nat → pad_loop fuel (ccw ts) = Some (1 + 2 * bits ts).
Proof.
  intros Hl. unfold ccw, zlen.
  replace (31 - Z.of_nat (length ts)) with (Z.of_nat (31 - length ts)) by lia.
  generalize (31 - length ts)%nat as n. intros n. revert fuel. induction n as [|n IH]; intros fuel Hf.
  - change (2 ^ Z.of_nat 0) with 1. rewrite Z.mul_1_l. unfold pad_loop.
    assert (Z.land (1 + 2 * bits ts) 1 = 1) as E by (change 1 with (Z.ones 1) at 2; rewrite Z.land_ones by lia; width).
    destruct fuel; rewrite E; done.
  - destruct fuel as [|fuel]; [lia|]. rewrite Nat2Z.inj_succ, Z.pow_succ_r by lia.
    cbn [pad_loop]. change 1 with (Z.ones 1) at 2. rewrite Z.land_ones by lia.
    rewrite <- Z.mul_assoc, (Z.mul_comm 2 (2 ^ Z.of_nat n * _)), Z.pow_1_r, Z_mod_mult. cbn [Z.eqb negb].
    rewrite Z.shiftr_div_pow2, Z.pow_1_r, Z.div_mul by lia. apply IH. lia.
Qed.

(** ** Layout *)

Lemma flat_snoc ts t : flat (ts ++ [t]) = flat ts ++ tok_bytes t.
Proof. unfold flat. rewrite fmap_app, concat_app. cbn. by rewrite app_nil_r. Qed.

Lemma enc_group cur us : ∀ k, (length cur <= k)%nat → enc k (cur ++ us) = flat cur ++ enc (k - length cur) us.
Proof.
  induction cur as [|t cur IH]; intros k Hk; [by rewrite Nat.sub_0_r|].
  destruct k as [|k]; [simpl in Hk; lia|]. cbn [enc app length]. rewrite IH by (simpl in Hk; lia).
  unfold flat. cbn [fmap list_fmap concat]. by rewrite <- (assoc_L app).
Qed.

Lemma enc_cur cur : cur ≠ [] → (length cur <= 31)%nat → enc 0 cur = le_put 4 (cw 31 cur) ++ flat cur.
Proof.
  intros Hne Hl. destruct cur as [|t cur]; [done|]. cbn [enc]. f_equal.
  pose proof (enc_group cur [] 30) as H. rewrite !app_nil_r in H. rewrite H by (simpl in Hl; lia).
  unfold flat. cbn [fmap list_fmap concat]. f_equal.
Qed.

(** Full groups stand for themselves. *)
Definition full (ts : list token) : Prop := ∃ m, length ts = (31 * m)%nat.

Lemma enc_full ts us : full ts → enc 0 (ts ++ us) = enc 0 ts ++ enc 0 us.
Proof.
  intros [m Hm]. revert ts Hm. induction m as [|m IH]; intros ts Hm.
  { destruct ts; [done|simpl in Hm; lia]. }
  destruct (split_at ts 31) as (g & ts' & -> & Hg); [lia|]. rewrite length_app in Hm.
  destruct g as [|t g]; [done|]. injection Hg as Hg.
  rewrite <- (assoc_L app). cbn [app enc]. rewrite (enc_group g (ts' ++ us) 30), (enc_group g ts' 30) by lia. rewrite Hg, Nat.sub_diag.
  rewrite (IH ts') by (cbn [length] in Hm; lia).
  replace (cw 31 (t :: g ++ ts' ++ us)) with (cw 31 (t :: g ++ ts')); [by rewrite <- !(assoc_L app)|].
  change (t :: g ++ ts' ++ us) with ((t :: g) ++ ts' ++ us). change (t :: g ++ ts') with ((t :: g) ++ ts').
  by rewrite !cw_app by (simpl; lia).
Qed.

Lemma full_app ts cur : full ts → length cur = 31%nat → full (ts ++ cur).
Proof. intros [m Hm] Hc. exists (S m). rewrite length_app. lia. Qed.

(** The control words cost four bytes for 31 tokens. *)
Lemma zlen_layout ts : ∀ k, (k <= 30)%nat →
  31 * zlen (enc k ts) <= 31 * zlen (flat ts) + 4 * (zlen ts + 30 - Z.of_nat k).
Proof.
  unfold zlen, flat. induction ts as [|t ts IH]; intros k Hk; cbn [enc fmap list_fmap concat length]; [lia|].
  rewrite length_app. destruct k as [|k]; rewrite ?length_app.
  - rewrite length_le_put. specialize (IH 30%nat). lia.
  - specialize (IH k). lia.
Qed.

(** ** Streams of a source *)

(** The two ways to write a match: level 1 by the hash of its three bytes, level 3 by
    its distance. *)
Definition code1 (h len : Z) : bytes :=
  if len <? 18 then le_put 2 (len - 2 + 16 * h) else le_put 3 (16 * h + 65536 * len).

Definition code3 (len offset : Z) : bytes :=
  if (len =? 3) && (offset <=? 63) then le_put 1 (4 * offset)
  else if (len =? 3) && (offset <=? 16383) then le_put 2 (1 + 4 * offset)
  else if (len <=? 18) && (offset <=? 1023) then le_put 2 (2 + 4 * (len - 3) + 64 * offset)
  else if len <=? 33 then le_put 3 (3 + 4 * (len - 2) + 128 * offset)
  else le_put 4 (3 + 128 * (len - 3) + 32768 * offset).

Definition hash_at (source : bytes) (p : Z) : Z := hash_of (word3 source p).
Definition repeats (source : bytes) (o p len : Z) : Prop := ∀ i, 0 <= i < len → zget source (o + i) = zget source (p + i).

(** The table of level 1 after the tokens so far, and the literals since the last match. *)
Record ghost := mkG { g_tab : list Z; g_lits : Z }.
Definition enter (source : bytes) (T : list Z) (p : Z) : list Z := <[Z.to_nat (hash_at source p) := p]> T.
Definition g_next (source : bytes) (p : Z) (t : token) (g : ghost) : ghost :=
  mkG (enter source (g_tab g) p) (match t with Lit _ => g_lits g + 1 | Mat _ _ => 0 end).
Definition g_init : ghost := mkG (replicate (Z.to_nat HASH_VALUES) 0) 0.

Inductive match_ok (level : Z) (source : bytes) (p : Z) (g : ghost) : bytes → Z → Prop :=
| match_1 o len :
    level = 1 → g_tab g !! Z.to_nat (hash_at source p) = Some o → 0 <= o →
    repeats source o p len →
    (o < p - 2 ∨ o = p - 1 ∧ 3 <= g_lits g ∧ 3 <= p ∧ ∀ i, 1 <= i <= 3 → zget source (p - i) = zget source p) →
    match_ok level source p g (code1 (hash_at source p) len) len
| match_3 offset len :
    level = 3 → 3 <= offset <= p → offset < 131071 →
    repeats source (p - offset) p len →
    match_ok level source p g (code3 len offset) len.

Inductive walk (level : Z) (source : bytes) : Z → ghost → list token → Z → ghost → Prop :=
| walk_nil p g : walk level source p g [] p g
| walk_lit p g b ts q g' :
    zget source p = Some b → walk level source (p + 1) (g_next source p (Lit b) g) ts q g' →
    walk level source p g (Lit b :: ts) q g'
| walk_mat p g code len ts q g' :
    0 <= p <= lastMatchStart (zlen source) → 3 <= len <= 255 → p + len <= zlen source - UNCOMPRESSED_END →
    match_ok level source p g code len →
    walk level source (p + len) (g_next source p (Mat code len) g) ts q g' →
    walk level source p g (Mat code len :: ts) q g'.

Lemma walk_app level source p g ts q g' us r g'' :
  walk level source p g ts q g' → walk level source q g' us r g'' → walk level source p g (ts ++ us) r g''.
Proof. induction 1; intros H'; [done|..]; cbn [app]; econstructor; eauto. Qed.

Lemma walk_snoc_lit level source p g ts q g' b :
  walk level source p g ts q g' → zget source q = Some b →
  walk level source p g (ts ++ [Lit b]) (q + 1) (g_next source q (Lit b) g').
Proof. intros Hw Hb. eapply walk_app; [done|]. econstructor; [done|]. constructor. Qed.

Lemma walk_snoc_mat level source p g ts q g' code len :
  walk level source p g ts q g' → 0 <= q <= lastMatchStart (zlen source) → 3 <= len <= 255 →
  q + len <= zlen source - UNCOMPRESSED_END → match_ok level source q g' code len →
  walk level source p g (ts ++ [Mat code len]) (q + len) (g_next source q (Mat code len) g').
Proof. intros Hw ? ? ? ?. eapply walk_app; [done|]. econstructor; [done..|]. constructor. Qed.

(** A match is written with fewer bytes than it stands for, and with four at most. *)
Lemma match_size level source p g code len :
  match_ok level source p g code len → 3 <= len → 1 <= zlen code <= Z.min len 4.
Proof.
  intros [o len' _ _ _ _ _|offset len' _ _ _ _] Hlen; unfold code1, code3, zlen;
    repeat case_match; rewrite length_le_put; try lia;
    repeat match goal with H : (_ && _) = false |- _ => apply andb_false_iff in H end; lia.
Qed.

Lemma walk_sizes level source p g ts q g' :
  walk level source p g ts q g' →
  zlen ts <= q - p ∧ zlen (flat ts) <= q - p ∧ Forall (λ t, 1 <= zlen (tok_bytes t) <= 4) ts.
Proof.
  unfold zlen, flat.
  induction 1 as [|p g b ts q g' Hb Hw (IH1 & IH2 & IH3)|p g code len ts q g' Hp Hl Hq Hm Hw (IH1 & IH2 & IH3)];
    cbn [fmap list_fmap concat length]; rewrite ?length_app; [split_and!; [lia|lia|constructor]|..].
  - cbn [tok_bytes length]. split_and!; [lia|lia|]. constructor; [simpl; lia|done].
  - pose proof (match_size _ _ _ _ _ _ Hm ltac:(lia)) as Hs. unfold zlen in Hs. cbn [tok_bytes].
    split_and!; [lia|lia|]. constructor; [simpl; lia|done].
Qed.

Lemma match_bytes level source p g code len : match_ok level source p g code len → is_bytes code.
Proof. intros []; unfold code1, code3; repeat case_match; apply le_put_bytes. Qed.

Lemma walk_bytes level source p g ts q g' k :
  is_bytes source → walk level source p g ts q g' → is_bytes (enc k ts).
Proof.
  intros Hs Hw. revert k. induction Hw as [|p g b ts q g' Hb Hw IH|p g code len ts q g' Hp Hl Hq Hm Hw IH]; intros k;
    [constructor|assert (is_bytes [b]) by (constructor; [by eapply is_bytes_zget|constructor])|];
    destruct k; cbn [enc tok_bytes]; rewrite ?is_bytes_app; eauto using le_put_bytes, match_bytes.
Qed.

(** The last four bytes of a source are literals, so a stream never runs dry. *)
Lemma walk_left level source p g ts q g' k :
  walk level source p g ts q g' → q = zlen source → Z.min UNCOMPRESSED_END (q - p) <= zlen (enc k ts).
Proof.
  intros Hw. revert k. unfold UNCOMPRESSED_END.
  induction Hw as [|p g b ts q g' Hb Hw IH|p g code len ts q g' Hp Hl Hq Hm Hw IH]; intros k Hend.
  - pose proof (zlen_nonneg (enc k [])). lia.
  - destruct k as [|k]; cbn [enc tok_bytes]; rewrite !zlen_app;
      [specialize (IH 30%nat Hend); pose proof (zlen_nonneg (le_put 4 (cw 31 (Lit b :: ts))))|specialize (IH k Hend)];
      change (zlen [b]) with 1; lia.
  - unfold UNCOMPRESSED_END in Hq.
    destruct k as [|k]; cbn [enc tok_bytes]; rewrite !zlen_app; pose proof (zlen_nonneg code);
      [specialize (IH 30%nat Hend); pose proof (zlen_nonneg (le_put 4 (cw 31 (Mat code len :: ts))))|specialize (IH k Hend)];
      lia.
Qed.

Lemma walk_le level source p g ts q g' : walk level source p g ts q g' → p <= q.
Proof. intros Hw. pose proof (walk_sizes _ _ _ _ _ _ _ Hw) as (H & _). pose proof (zlen_nonneg ts). lia. Qed.
