(* ===== verification/QuicklzDecompress.v ===== *)
(** * The QuickLZ decompressor spells out a stream

    From a source and the layout of a stream of it, every round of the loop of
    [go_Decompress] takes one token: the destination agrees with the source up to the
    position of the token, and the table of level 1 lags behind the one of the stream by
    the positions whose bytes are not known yet. *)

From S2P Require Import Prelude Strconv Config Hashing Cmem Item Quicklz QuicklzSpec.

(** ** Words *)

Lemma land_low f n : 0 <= n → Z.land f (Z.ones n) = f mod 2 ^ n.
Proof. intros. by apply Z.land_ones. Qed.

Lemma land_2 f : Z.land f 2 = 2 * ((f / 2) mod 2).
Proof.
  change 2 with (Z.land 3 2) at 1. rewrite Z.land_assoc. change 3 with (Z.ones 2). rewrite land_low by lia.
  change (2 ^ 2) with 4. assert (f mod 4 = 0 ∨ f mod 4 = 1 ∨ f mod 4 = 2 ∨ f mod 4 = 3) as Hm by width.
  assert ((f / 2) mod 2 = (f mod 4) / 2) as -> by width.
  by destruct Hm as [-> | [-> | [-> | ->]]].
Qed.

(** Masks and shifts as remainders and quotients. *)
Ltac arith_bits :=
  rewrite ?land_2;
  repeat match goal with
  | |- context [Z.land ?f 0x1ffff] => change (Z.land f 0x1ffff) with (Z.land f (Z.ones 17))
  | |- context [Z.land ?f 0xffff] => change (Z.land f 0xffff) with (Z.land f (Z.ones 16))
  | |- context [Z.land ?f 0xfff] => change (Z.land f 0xfff) with (Z.land f (Z.ones 12))
  | |- context [Z.land ?f 0xff] => change (Z.land f 0xff) with (Z.land f (Z.ones 8))
  | |- context [Z.land ?f 127] => change (Z.land f 127) with (Z.land f (Z.ones 7))
  | |- context [Z.land ?f 0x1f] => change (Z.land f 0x1f) with (Z.land f (Z.ones 5))
  | |- context [Z.land ?f 0xf] => change (Z.land f 0xf) with (Z.land f (Z.ones 4))
  | |- context [Z.land ?f 3] => change (Z.land f 3) with (Z.land f (Z.ones 2))
  | |- context [Z.land ?f 1] => change (Z.land f 1) with (Z.land f (Z.ones 1))
  end;
  rewrite ?land_low, ?Z.shiftr_div_pow2 by lia;
  change (2 ^ 16) with 65536; change (2 ^ 17) with 131072; change (2 ^ 12) with 4096; change (2 ^ 8) with 256;
  change (2 ^ 5) with 32; change (2 ^ 4) with 16; change (2 ^ 7) with 128; change (2 ^ 2) with 4; change (2 ^ 1) with 2;
  change (2 ^ 6) with 64; change (2 ^ 15) with 32768.

Lemma le_get_app a b : le_get (a ++ b) = le_get a + 256 ^ zlen a * le_get b.
Proof.
  unfold zlen. induction a as [|x a IH]; cbn [le_get app length]; [simpl; lia|].
  rewrite Nat2Z.inj_succ, Z.pow_succ_r, IH by lia. lia.
Qed.

(** A word read over a shorter one has it in its low bytes. *)
Lemma le_word_over n m v r :
  is_bytes r → (m <= n)%nat → 0 <= v < 256 ^ Z.of_nat m →
  ∃ x, 0 <= x < 256 ^ Z.of_nat (n - m) ∧ le_word n (le_put m v ++ r) = v + 256 ^ Z.of_nat m * x.
Proof.
  intros Hr Hm Hv. exists (le_get (take (n - m) r)). split.
  - pose proof (le_get_range (take (n - m) r) ltac:(eauto with width)) as H.
    assert (256 ^ zlen (take (n - m) r) <= 256 ^ Z.of_nat (n - m)); [|lia].
    apply Z.pow_le_mono_r; [lia|]. unfold zlen. rewrite length_take. lia.
  - unfold le_word. rewrite take_app_ge by (rewrite length_le_put; lia).
    rewrite length_le_put, le_get_app, le_get_put, Z.mod_small by done.
    unfold zlen. by rewrite length_le_put.
Qed.

(** ** Matches *)

Definition fetch_len (level : Z) : nat := if level =? 1 then 3 else 4.

Lemma decode_code1 source s h len rest o :
  is_bytes rest → 0 <= d_src s → drop (Z.to_nat (d_src s)) source = code1 h len ++ rest →
  d_fetch s = le_word 3 (code1 h len ++ rest) →
  0 <= h < HASH_VALUES → 3 <= len <= 255 → d_hashtable s !! Z.to_nat h = Some o →
  decode_match source 1 s = Some (o, len, d_src s + zlen (code1 h len)).
Proof.
  intros Hr Hs Hd Hf Hh Hl Ho. unfold decode_match. rewrite Hf. clear Hf. change (1 =? 1) with true. cbv iota. unfold HASH_VALUES in Hh.
  assert (zget (d_hashtable s) h = Some o) as Ho' by (apply zget_Some; split; [lia|done]).
  unfold code1 in *. destruct (Z.ltb_spec len 18).
  - destruct (le_word_over 3 2 (len - 2 + 16 * h) rest Hr) as (x & Hx & ->); [lia|lia|].
    change (256 ^ Z.of_nat 2) with 65536. arith_bits.
    replace (((len - 2 + 16 * h + 65536 * x) / 16) mod 4096) with h by width.
    replace ((len - 2 + 16 * h + 65536 * x) mod 16) with (len - 2) by width.
    rewrite Ho'. cbn [mbind option_bind]. rewrite (proj2 (Z.eqb_neq _ _)) by lia. cbn [negb].
    unfold zlen. rewrite length_le_put. do 3 f_equal. lia.
  - destruct (le_word_over 3 3 (16 * h + 65536 * len) rest Hr) as (x & Hx & ->); [lia|lia|].
    change (256 ^ Z.of_nat 3) with 16777216. change (256 ^ Z.of_nat (3 - 3)) with 1 in Hx.
    assert (x = 0) as -> by lia. rewrite Z.mul_0_r, Z.add_0_r. arith_bits.
    replace (((16 * h + 65536 * len) / 16) mod 4096) with h by width.
    replace ((16 * h + 65536 * len) mod 16) with 0 by width.
    rewrite Ho'. cbn [mbind option_bind negb Z.eqb].
    rewrite zget_drop, Hd by lia. cbn [le_put app]. change 2 with (Z.of_nat 2). rewrite zget_nat.
    cbn [lookup list_lookup]. cbn [mbind option_bind]. arith_bits. unfold zlen. cbn [length].
    do 3 f_equal. width.
Qed.

Lemma decode_code3 source s len offset rest :
  is_bytes rest → d_fetch s = le_word 4 (code3 len offset ++ rest) →
  3 <= len <= 255 → 3 <= offset < 131071 →
  decode_match source 3 s = Some (d_dst s - offset, len, d_src s + zlen (code3 len offset)).
Proof.
  intros Hr Hf Hl Ho. unfold decode_match. rewrite Hf. clear Hf. change (3 =? 1) with false. cbv iota. unfold code3.
  destruct ((len =? 3) && (offset <=? 63)) eqn:E1;
    [|destruct ((len =? 3) && (offset <=? 16383)) eqn:E2;
      [|destruct ((len <=? 18) && (offset <=? 1023)) eqn:E3; [|destruct (Z.leb_spec len 33)]]];
    repeat match goal with
    | H : (_ && _) = true |- _ => apply andb_true_iff in H as [? ?]
    | H : (_ && _) = false |- _ => apply andb_false_iff in H
    end.
  - destruct (le_word_over 4 1 (4 * offset) rest Hr) as (x & Hx & ->); [lia|lia|]. change (256 ^ Z.of_nat 1) with 256. arith_bits.
    rewrite (proj2 (Z.eqb_eq (_ mod 4) _)) by width. unfold zlen. rewrite length_le_put. do 3 f_equal; width.
  - destruct (le_word_over 4 2 (1 + 4 * offset) rest Hr) as (x & Hx & ->); [lia|lia|]. change (256 ^ Z.of_nat 2) with 65536. arith_bits.
    rewrite (proj2 (Z.eqb_neq (_ mod 4) _)) by width. rewrite (proj2 (Z.eqb_eq (2 * _) _)) by width.
    unfold zlen. rewrite length_le_put. do 3 f_equal; width.
  - destruct (le_word_over 4 2 (2 + 4 * (len - 3) + 64 * offset) rest Hr) as (x & Hx & ->); [lia|lia|]. change (256 ^ Z.of_nat 2) with 65536. arith_bits.
    rewrite (proj2 (Z.eqb_neq (_ mod 4) _)) by width. rewrite (proj2 (Z.eqb_neq (2 * _) _)) by width.
    rewrite (proj2 (Z.eqb_eq (_ mod 2) _)) by width.
    unfold zlen. rewrite length_le_put. do 3 f_equal; width.
  - destruct (le_word_over 4 3 (3 + 4 * (len - 2) + 128 * offset) rest Hr) as (x & Hx & ->); [lia|lia|]. change (256 ^ Z.of_nat 3) with 16777216. arith_bits.
    rewrite (proj2 (Z.eqb_neq (_ mod 4) _)) by width. rewrite (proj2 (Z.eqb_neq (2 * _) _)) by width.
    rewrite (proj2 (Z.eqb_neq (_ mod 2) _)) by width. rewrite (proj2 (Z.eqb_neq (_ mod 128) _)) by width. cbn [negb].
    unfold zlen. rewrite length_le_put. do 3 f_equal; width.
  - destruct (le_word_over 4 4 (3 + 128 * (len - 3) + 32768 * offset) rest Hr) as (x & Hx & ->); [lia|lia|].
    change (256 ^ Z.of_nat 4) with 4294967296. change (256 ^ Z.of_nat (4 - 4)) with 1 in Hx. assert (x = 0) as -> by lia. arith_bits.
    rewrite (proj2 (Z.eqb_neq (_ mod 4) _)) by width. rewrite (proj2 (Z.eqb_neq (2 * _) _)) by width.
    rewrite (proj2 (Z.eqb_neq (_ mod 2) _)) by width. rewrite (proj2 (Z.eqb_eq (_ mod 128) _)) by width. cbn [negb].
    unfold zlen. rewrite length_le_put. do 3 f_equal; width.
Qed.

(** ** The destination *)

(** The destination holds the source up to [p]. *)
Record agree (p : Z) (d source : bytes) : Prop := mkAgree {
  ag_len : length d = length source;
  ag_bytes : is_bytes d;
  ag_get i : 0 <= i < p → zget d i = zget source i
}.

Lemma agree_snoc p d source b :
  agree p d source → 0 <= p → zget source p = Some b → is_u8 b →
  ∃ d', zset d p b = Some d' ∧ agree (p + 1) d' source.
Proof.
  intros [Hl Hd Hg] Hp Hb Hu. pose proof (zget_Some_lt _ _ _ Hb) as Hlt.
  assert (0 <= p < zlen d) as Hpd by (unfold zlen in *; lia).
  rewrite zset_insert by done. eexists. split; [done|]. constructor.
  - by rewrite length_insert.
  - by apply Forall_insert.
  - intros i Hi. rewrite zget_set by lia. case_decide; [by subst|]. apply Hg. lia.
Qed.

Lemma agree_word3 m d source i :
  agree m d source → is_bytes source → 0 <= i → i + 3 <= m → m <= zlen source → word3 d i = word3 source i.
Proof.
  intros Ha Hs Hi Him Hm. assert (zlen d = zlen source) by (unfold zlen; by rewrite (ag_len _ _ _ Ha)).
  apply word3_eq; try done; try lia; [apply Ha|]. intros n Hn. apply Ha. lia.
Qed.

Lemma copy_match_ok n : ∀ d source p o i,
  is_bytes source → agree (p + i) d source → repeats source o p (i + Z.of_nat n) →
  0 <= o < p → 0 <= i → p + i + Z.of_nat n <= zlen source →
  ∃ d', copy_match n d p o i = Some d' ∧ agree (p + i + Z.of_nat n) d' source.
Proof.
  induction n as [|n IH]; intros d source p o i Hs Ha Hr Ho Hi Hl; cbn [copy_match].
  { exists d. split; [done|]. by rewrite Z.add_0_r. }
  destruct (zget_lt source (p + i)) as [b Hb]; [lia|].
  rewrite (ag_get _ _ _ Ha) by lia. rewrite (Hr i) by lia. rewrite Hb. cbn [mbind option_bind].
  destruct (agree_snoc _ _ _ _ Ha ltac:(lia) Hb (is_bytes_zget _ _ _ Hs Hb)) as (d' & -> & Ha').
  cbn [mbind option_bind]. rewrite <- Z.add_assoc in Ha'.
  destruct (IH d' source p o (i + 1)) as (d'' & -> & Ha''); try done; try lia.
  { by replace (i + 1 + Z.of_nat n) with (i + Z.of_nat (S n)) by lia. }
  exists d''. split; [done|]. by replace (p + i + Z.of_nat (S n)) with (p + (i + 1) + Z.of_nat n) by lia.
Qed.

(** The copy of a whole match. *)
Lemma copy_match_len d source p o len :
  is_bytes source → agree p d source → repeats source o p len → 0 <= o < p → 3 <= len → p + len <= zlen source →
  ∃ d1 d2, copy_match 3 d p o 0 = Some d1 ∧ copy_match (Z.to_nat (len - 3)) d1 p o 3 = Some d2
    ∧ agree (p + len) d2 source.
Proof.
  intros Hs Ha Hr Ho Hl Hp.
  destruct (copy_match_ok 3 d source p o 0) as (d1 & -> & Ha1); try done; try lia.
  { by rewrite Z.add_0_r. }
  { intros i Hi. apply Hr. lia. }
  replace (p + 0 + Z.of_nat 3) with (p + 3) in Ha1 by lia.
  destruct (copy_match_ok (Z.to_nat (len - 3)) d1 source p o 3) as (d2 & H2 & Ha2); try done; try lia.
  { intros i Hi. apply Hr. lia. }
  exists d1, d2. split_and!; [done|done|]. by replace (p + len) with (p + 3 + Z.of_nat (Z.to_nat (len - 3))) by lia.
Qed.

(** ** The table *)

Fixpoint enter_from (source : bytes) (T : list Z) (p : Z) (n : nat) : list Z :=
  match n with
  | O => T
  | S n => enter_from source (enter source T p) (p + 1) n
  end.

Lemma length_enter source T p : length (enter source T p) = length T.
Proof. apply length_insert. Qed.
Lemma length_enter_from source T p n : length (enter_from source T p n) = length T.
Proof. revert T p; induction n; intros; cbn [enter_from]; [done|]. by rewrite IHn, length_enter. Qed.

Lemma enter_from_add source T p n m :
  enter_from source T p (n + m) = enter_from source (enter_from source T p n) (p + Z.of_nat n) m.
Proof.
  revert T p; induction n as [|n IH]; intros T p; cbn [enter_from Nat.add]; [by rewrite Z.add_0_r|].
  rewrite IH. f_equal. lia.
Qed.

Lemma enter_from_snoc source T p n :
  enter_from source T p (S n) = enter source (enter_from source T p n) (p + Z.of_nat n).
Proof. replace (S n) with (n + 1)%nat by lia. by rewrite enter_from_add. Qed.

Lemma enter_get source T p : zlen T = HASH_VALUES → enter source T p !! Z.to_nat (hash_at source p) = Some p.
Proof.
  intros HT. unfold enter. apply list_lookup_insert_eq. pose proof (hash_range (word3 source p)).
  unfold hash_at, zlen in *. lia.
Qed.

Lemma enter_from_inv source T p n h o :
  enter_from source T p n !! h = Some o → T !! h = Some o ∨ p <= o < p + Z.of_nat n.
Proof.
  revert T p. induction n as [|n IH]; intros T p; cbn [enter_from]; [by left|].
  intros [H|H]%IH; [|right; lia]. unfold enter in H. apply list_lookup_insert_Some in H as [(_ & <- & _)|[_ H]]; [right; lia|by left].
Qed.

Lemma enter_from_agree m d source T p n :
  agree m d source → is_bytes source → 0 <= p → n = 0%nat ∨ p + Z.of_nat n + 2 <= m → m <= zlen source →
  enter_from d T p n = enter_from source T p n.
Proof.
  intros Ha Hs. revert T p. induction n as [|n IH]; intros T p Hp Hm Hl; cbn [enter_from]; [done|].
  rewrite IH by lia. unfold enter, hash_at. by rewrite (agree_word3 m d source p) by (done || lia).
Qed.

Lemma zset_table (T : list Z) f p : zlen T = HASH_VALUES → zset T (hash_of f) p = Some (<[Z.to_nat (hash_of f) := p]> T).
Proof. intros HT. apply zset_insert. pose proof (hash_range f). lia. Qed.

Lemma zlen_enter source T p : zlen T = HASH_VALUES → zlen (enter source T p) = HASH_VALUES.
Proof. unfold zlen. by rewrite length_enter. Qed.

Lemma catch_up_match_ok n : ∀ d T lh,
  is_bytes d → zlen T = HASH_VALUES → -1 <= lh → lh + Z.of_nat n + 3 < zlen d →
  catch_up_match n d T lh (word3 d (lh + 1)) = Some (enter_from d T (lh + 1) n, lh + Z.of_nat n).
Proof.
  induction n as [|n IH]; intros d T lh Hd HT Hlh Hl; cbn [catch_up_match enter_from]; [by rewrite Z.add_0_r|].
  rewrite zset_table by done. cbn [mbind option_bind].
  destruct (zget_lt d (lh + 1 + 3)) as [b Hb]; [lia|]. rewrite Hb. cbn [mbind option_bind].
  rewrite (word3_roll d (lh + 1) b) by (done || lia). fold (hash_at d (lh + 1)). fold (enter d T (lh + 1)).
  rewrite IH by (done || lia || by apply zlen_enter). do 2 f_equal. lia.
Qed.

Lemma catch_up_literal_ok n : ∀ d T lh,
  is_bytes d → zlen T = HASH_VALUES → -1 <= lh → lh + Z.of_nat n + 3 <= zlen d →
  catch_up_literal n d T lh = Some (enter_from d T (lh + 1) n, lh + Z.of_nat n).
Proof.
  induction n as [|n IH]; intros d T lh Hd HT Hlh Hl; cbn [catch_up_literal enter_from]; [by rewrite Z.add_0_r|].
  rewrite fastRead_word3 by (done || lia). cbn [mbind option_bind].
  rewrite zset_table by done. cbn [mbind option_bind]. fold (hash_at d (lh + 1)). fold (enter d T (lh + 1)).
  rewrite IH by (done || lia || by apply zlen_enter). do 2 f_equal. lia.
Qed.

(** ** Reading on in a slice *)

Lemma drop_advance {A} (l a b : list A) i :
  0 <= i → drop (Z.to_nat i) l = a ++ b → drop (Z.to_nat (i + zlen a)) l = b.
Proof.
  intros Hi Hd. unfold zlen. rewrite Z2Nat.inj_add, Nat2Z.id by lia. rewrite <- drop_drop, Hd.
  by rewrite drop_app_length.
Qed.

Lemma drop_room {A} (l a : list A) i n :
  0 <= i → drop (Z.to_nat i) l = a → 0 < n → n <= zlen a → i + n <= zlen l.
Proof. intros Hi <- Hn. unfold zlen. rewrite length_drop. lia. Qed.

Lemma word4_split a i b :
  is_bytes a → 0 <= i → i + 4 <= zlen a → zget a (i + 3) = Some b →
  le_word 4 (drop (Z.to_nat i) a) = word3 a i + 16777216 * b.
Proof.
  intros Ha Hi Hl Hb. rewrite Z.add_comm in Hb. rewrite Z.add_comm, zget_drop in Hb by lia.
  change 3 with (Z.of_nat 3) in Hb. rewrite zget_nat in Hb. unfold word3, le_word.
  rewrite (take_S_r _ _ _ Hb), le_get_app. cbn [le_get].
  unfold zlen. rewrite length_take_le by (apply lookup_lt_Some in Hb; lia).
  change (256 ^ Z.of_nat 3) with 16777216. lia.
Qed.

Lemma word4_roll a i b b' :
  is_bytes a → 0 <= i → i + 5 <= zlen a → zget a (i + 3) = Some b → zget a (i + 4) = Some b' →
  Z.lor (Z.lor (Z.land (Z.shiftr (le_word 4 (drop (Z.to_nat i) a)) 8) 0xffff) (Z.shiftl b 16)) (Z.shiftl b' 24)
  = le_word 4 (drop (Z.to_nat (i + 1)) a).
Proof.
  intros Ha Hi Hl Hb Hb'. rewrite (word4_split a i b), (word4_split a (i + 1) b') by (done || lia || by rewrite <- Z.add_assoc).
  destruct (word3_bytes a (i + 1)) as (x & y & z & _ & _ & _ & Ux & Uy & Uz & E); [done|lia|lia|].
  assert (Z.land ((word3 a i + 16777216 * b) ≫ 8) 0xffff = Z.land (word3 a i ≫ 8) 0xffff) as ->.
  { arith_bits. replace (word3 a i + 16777216 * b) with (word3 a i + (65536 * b) * 256) by lia.
    rewrite Z.div_add by lia. replace (word3 a i / 256 + 65536 * b) with (word3 a i / 256 + b * 65536) by lia. by rewrite Z_mod_plus_full. }
  rewrite word3_roll by (done || lia). pose proof (is_bytes_zget _ _ _ Ha Hb') as Ub. unfold is_u8 in *.
  change (2 ^ 8) with 256 in *. rewrite lor_shiftl_add by lia. rewrite Z.shiftl_mul_pow2 by lia. lia.
Qed.

(** ** The loop *)

Section Loop.
Context (source comp : bytes) (level : Z).
Hypothesis (Hs : is_bytes source) (Hc : is_bytes comp) (Hlevel : level = 1 ∨ level = 3).

(** At level 1 the table [D] has the positions up to [lh]; the stream has those up to
    [p]. After three literals the last position entered begins three bytes back. *)
Record behind (p lh : Z) (D : list Z) (g : ghost) : Prop := mkBehind {
  bh_len : zlen D = HASH_VALUES;
  bh_lits : 0 <= g_lits g <= p;
  bh_last : lh = Z.max (p - g_lits g - 1) (p - 3);
  bh_tab : g_tab g = enter_from source D (lh + 1) (Z.to_nat (p - 1 - lh));
  bh_run : 3 <= g_lits g → D !! Z.to_nat (hash_at source (p - 3)) = Some (p - 3)
}.

(** A run of one byte around [p]. *)
Lemma run_bytes p len :
  repeats source (p - 1) p len → (∀ i, 1 <= i <= 3 → zget source (p - i) = zget source p) →
  ∀ i, -3 <= i < len → zget source (p + i) = zget source p.
Proof.
  intros Hr Hb i Hi. destruct (Z.ltb_spec i 0).
  { specialize (Hb (- i)). rewrite Z.sub_opp_r in Hb. apply Hb. lia. }
  revert Hi. pattern i. apply natlike_ind; [by rewrite Z.add_0_r| |lia].
  intros j Hj IH Hi. rewrite <- IH by lia. specialize (Hr (Z.succ j) ltac:(lia)).
  rewrite <- Hr. f_equal. lia.
Qed.

(** What the stream names is found in the table that lags behind. *)
Lemma behind_finds p lh D g code len :
  behind p lh D g → match_ok 1 source p g code len → 3 <= len → p + len <= zlen source →
  code = code1 (hash_at source p) len
  ∧ ∃ o, D !! Z.to_nat (hash_at source p) = Some o ∧ 0 <= o < p ∧ repeats source o p len.
Proof.
  intros [HD Hlits Hlh HT Hrun] Hm Hlen Hp. inversion Hm as [o len' _ Ho Ho0 Hr Hfar|]; subst; [|done].
  split; [done|]. destruct Hfar as [Hfar|(-> & Hl3 & Hp3 & Hb)].
  - rewrite HT in Ho. apply enter_from_inv in Ho as [Ho|Ho]; [|lia]. exists o. split_and!; [done|lia|lia|done].
  - pose proof (run_bytes p len Hr Hb) as Hall. exists (p - 3). split_and!; [|lia|lia|].
    + rewrite <- (Hrun Hl3). do 2 f_equal. unfold hash_at. f_equal. apply word3_eq; try done; try lia.
      intros n Hn. replace (p - 3 + n) with (p + (n - 3)) by lia. rewrite !Hall by lia. done.
    + intros i Hi. replace (p - 3 + i) with (p + (i - 3)) by lia. rewrite !Hall by lia. done.
Qed.

Lemma behind_match p lh D g code len :
  behind p lh D g → 3 <= len →
  behind (p + len) (p + len - 1) (enter_from source D (lh + 1) (Z.to_nat (p - lh))) (g_next source p (Mat code len) g).
Proof.
  intros [HD Hlits Hlh HT Hrun] Hlen. constructor; cbn [g_next g_tab g_lits]; try lia.
  - unfold zlen. by rewrite length_enter_from.
  - replace (Z.to_nat (p + len - 1 - (p + len - 1))) with 0%nat by lia. cbn [enter_from].
    replace (Z.to_nat (p - lh)) with (S (Z.to_nat (p - 1 - lh))) by lia. rewrite enter_from_snoc, HT. f_equal. lia.
Qed.

Lemma behind_lit p lh D g b :
  behind p lh D g →
  let n := Z.to_nat (p + 1 - 3 - lh) in
  behind (p + 1) (lh + Z.of_nat n) (enter_from source D (lh + 1) n) (g_next source p (Lit b) g).
Proof.
  intros [HD Hlits Hlh HT Hrun] n. constructor; cbn [g_next g_tab g_lits]; try lia.
  - unfold zlen. by rewrite length_enter_from.
  - rewrite HT. replace p with (lh + 1 + Z.of_nat (Z.to_nat (p - 1 - lh))) at 2 by lia.
    rewrite <- enter_from_snoc. replace (lh + Z.of_nat n + 1) with (lh + 1 + Z.of_nat n) by lia.
    rewrite <- enter_from_add. f_equal. lia.
  - intros H3. assert (n = 1%nat) as -> by lia. cbn [enter_from].
    replace (p + 1 - 3) with (lh + 1) by lia. by apply enter_get.
Qed.

Record dinv (s : DState) (k : nat) (ts : list token) (p : Z) (g : ghost) : Prop := mkDinv {
  di_src : 0 <= d_src s;
  di_rest : drop (Z.to_nat (d_src s)) comp = enc k ts;
  di_dst : d_dst s = p;
  di_pos : 0 <= p;
  di_cw : d_cwordVal s = cw k ts;
  di_agree : agree p (d_destination s) source;
  di_fetch : k ≠ 0%nat → p <= lastMatchStart (zlen source) → d_fetch s = le_word (fetch_len level) (enc k ts);
  di_tab : level = 1 → behind p (d_lastHashed s) (d_hashtable s) g
}.

Lemma read_fetch i rest :
  0 <= i → drop (Z.to_nat i) comp = rest → 4 <= zlen rest →
  (if level =? 1 then fastRead comp i 3 else fastRead comp i 4) = Some (le_word (fetch_len level) rest).
Proof.
  intros Hi Hd Hl. unfold fetch_len. pose proof (drop_room comp rest i 4 Hi Hd ltac:(lia) ltac:(lia)).
  destruct (level =? 1); rewrite fastRead_le by (done || lia); by rewrite Hd.
Qed.

Lemma refill_ok s k t ts p g q g' :
  dinv s k (t :: ts) p g → walk level source p g (t :: ts) q g' → q = zlen source →
  ∃ s' k', refill comp level (zlen source) s = Some s' ∧ dinv s' (S k') (t :: ts) p g.
Proof.
  intros [Hsrc Hrest Hdst Hpos Hcw Hag Hf Ht] Hw Hq. unfold refill. rewrite Hcw.
  destruct (Z.eqb_spec (cw k (t :: ts)) 1) as [Hone|Hne].
  - apply cw_one in Hone as ->. cbn [enc] in Hrest.
    pose proof (drop_advance comp _ _ _ Hsrc Hrest) as Hrest'. unfold zlen in Hrest'. rewrite length_le_put in Hrest'.
    change (Z.of_nat 4) with 4 in Hrest'.
    assert (zlen (le_put 4 (cw 31 (t :: ts)) ++ tok_bytes t ++ enc 30 ts) >= 4) as Hroom.
    { rewrite zlen_app. unfold zlen at 1. rewrite length_le_put. pose proof (zlen_nonneg (tok_bytes t ++ enc 30 ts)). lia. }
    pose proof (drop_room comp _ _ 4 Hsrc Hrest ltac:(lia) ltac:(lia)).
    rewrite (fastRead_le comp (d_src s) 4) by (done || lia). rewrite Hrest, le_word_put. cbn [mbind option_bind].
    pose proof (cw_range 31 (t :: ts)) as Hr. change (2 ^ Z.of_nat 31) with 2147483648 in Hr. change (2 ^ Z.of_nat 32) with 4294967296 in Hr.
    change (256 ^ Z.of_nat 4) with 4294967296. rewrite Z.mod_small by lia.
    rewrite Hdst. change (tok_bytes t ++ enc 30 ts) with (enc 31 (t :: ts)) in Hrest'.
    destruct (Z.leb_spec p (lastMatchStart (zlen source))) as [Hle|Hgt].
    + rewrite (read_fetch _ (enc 31 (t :: ts))); [|lia|done|].
      2: { pose proof (walk_left _ _ _ _ _ _ _ 31 Hw Hq). unfold lastMatchStart, UNCONDITIONAL_MATCHLEN, UNCOMPRESSED_END in *. lia. }
      cbn [mbind option_bind]. eexists _, 30%nat. split; [done|]. constructor; try done; simpl; lia.
    + cbn [mbind option_bind]. eexists _, 30%nat. split; [done|]. constructor; try done; simpl; lia.
  - destruct k as [|k]; [done|]. exists s, k. split; [done|]. constructor; done.
Qed.

Lemma match_step_ok s k code len ts p g q g' :
  dinv s (S k) (Mat code len :: ts) p g → walk level source p g (Mat code len :: ts) q g' → q = zlen source →
  ∃ s', match_step comp level s = Some s' ∧ dinv s' k ts (p + len) (g_next source p (Mat code len) g)
    ∧ walk level source (p + len) (g_next source p (Mat code len) g) ts q g' ∧ ts ≠ [].
Proof.
  intros [Hsrc Hrest Hdst Hpos Hcw Hag Hf Ht] Hw Hq.
  inversion Hw as [| |? ? ? ? ? ? ? Hp Hlen Hend Hm Hw']; subst. unfold UNCOMPRESSED_END in Hend.
  cbn [enc tok_bytes] in Hrest, Hf. specialize (Hf ltac:(done) (proj2 Hp)).
  pose proof (walk_bytes _ _ _ _ _ _ _ k Hs Hw') as Hbytes.
  pose proof (walk_left _ _ _ _ _ _ _ k Hw' eq_refl) as Hleft. unfold UNCOMPRESSED_END in Hleft.
  assert (∃ o, decode_match comp level s = Some (o, len, d_src s + zlen code) ∧ 0 <= o < d_dst s ∧ repeats source o (d_dst s) len)
    as (o & Hdec & Ho & Hr).
  { destruct Hlevel as [-> | ->].
    - destruct (behind_finds _ _ _ _ _ _ (Ht eq_refl) Hm) as (-> & o & HD & Ho & Hr); [lia|lia|].
      exists o. split_and!; [|lia|lia|done]. eapply decode_code1; eauto using hash_range.
    - inversion Hm as [|offset len' _ Ho Ho' Hr]; subst; [done|].
      exists (d_dst s - offset). split_and!; [|lia|lia|done]. eapply decode_code3; eauto. lia. }
  unfold match_step. rewrite Hdec. cbn [mbind option_bind].
  destruct (copy_match_len _ _ _ _ _ Hs Hag Hr Ho) as (d1 & d2 & -> & Hd2 & Hag2); [lia|lia|].
  cbn [mbind option_bind]. rewrite Hd2. cbn [mbind option_bind].
  pose proof (drop_advance comp _ _ _ Hsrc Hrest) as Hrest'. pose proof (zlen_nonneg code) as Hcode.
  pose proof (read_fetch (d_src s + zlen code) (enc k ts) ltac:(lia) Hrest' ltac:(lia)) as Hfetch.
  destruct (cw_step k (Mat code len) ts) as [_ Hcw'].
  assert (ts ≠ []) as Hne by (intros ->; inversion Hw'; subst; lia).
  destruct Hlevel as [Hl1|Hl3].
  - rewrite Hl1 in *. change (1 =? 1) with true in *. cbv iota in *.
    pose proof (Ht eq_refl) as Hb. pose proof (bh_last _ _ _ _ Hb) as Hlh. pose proof (bh_lits _ _ _ _ Hb) as Hlits.
    assert (zlen d2 = zlen source) as Hd2l by (unfold zlen; by rewrite (ag_len _ _ _ Hag2)).
    rewrite (fastRead_word3 d2) by (apply Hag2 || lia). cbn [mbind option_bind].
    replace (d_dst s + len - len - d_lastHashed s) with (d_dst s - d_lastHashed s) by lia.
    rewrite catch_up_match_ok by (apply Hag2 || apply Hb || lia). cbn [mbind option_bind].
    rewrite Hfetch. cbn [mbind option_bind]. eexists. split; [done|]. split_and!; [|done|done].
    rewrite (enter_from_agree (d_dst s + len) _ source) by (done || lia).
    constructor; cbn [d_src d_dst d_cwordVal d_destination d_hashtable d_lastHashed d_fetch]; try done; try lia.
    + by rewrite Hcw.
    + intros _ _. by rewrite Hl1.
    + intros _. apply behind_match; [done|lia].
  - rewrite Hl3 in *. change (3 =? 1) with false in *. cbv iota in *. rewrite Hfetch. cbn [mbind option_bind].
    eexists. split; [done|]. split_and!; [|done|done].
    constructor; cbn [d_src d_dst d_cwordVal d_destination d_hashtable d_lastHashed d_fetch]; try done; try lia.
    + by rewrite Hcw.
    + intros _ _. by rewrite Hl3.
Qed.

Lemma literal_step_ok s k b ts p g q g' :
  dinv s (S k) (Lit b :: ts) p g → walk level source p g (Lit b :: ts) q g' → q = zlen source →
  p <= lastMatchStart (zlen source) →
  ∃ s', literal_step comp level s = Some s' ∧ dinv s' k ts (p + 1) (g_next source p (Lit b) g)
    ∧ walk level source (p + 1) (g_next source p (Lit b) g) ts q g' ∧ ts ≠ [].
Proof.
  intros [Hsrc Hrest Hdst Hpos Hcw Hag Hf Ht] Hw Hq Hp.
  inversion Hw as [|? ? ? ? ? ? Hb Hw'|]; subst.
  cbn [enc tok_bytes] in Hrest, Hf. specialize (Hf ltac:(done) Hp).
  pose proof (walk_left _ _ _ _ _ _ _ k Hw' eq_refl) as Hleft.
  unfold lastMatchStart, UNCONDITIONAL_MATCHLEN, UNCOMPRESSED_END in *.
  pose proof (drop_advance comp _ _ _ Hsrc Hrest) as Hrest'. change (zlen [b]) with 1 in Hrest'.
  pose proof (drop_room comp _ (d_src s + 1) 4 ltac:(lia) Hrest' ltac:(lia) ltac:(lia)) as Hroom.
  assert (zget comp (d_src s) = Some b) as Hcb.
  { rewrite <- (Z.add_0_r (d_src s)), zget_drop, Hrest by lia. done. }
  destruct (zget_lt comp (d_src s + 3)) as [b3 Hb3]; [lia|]. destruct (zget_lt comp (d_src s + 4)) as [b4 Hb4]; [lia|].
  destruct (agree_snoc _ _ _ _ Hag Hpos Hb (is_bytes_zget _ _ _ Hs Hb)) as (d & Hd & Hag').
  assert (ts ≠ []) as Hne by (intros ->; inversion Hw'; subst; lia).
  destruct (cw_step k (Lit b) ts) as [_ Hcw'].
  unfold literal_step. rewrite Hcb. cbn [mbind option_bind]. rewrite Hd. cbn [mbind option_bind].
  replace (d_src s + 1 + 2) with (d_src s + 3) by lia. replace (d_src s + 1 + 3) with (d_src s + 4) by lia. rewrite Hb3, Hb4.
  rewrite <- Hrest in Hf.
  destruct Hlevel as [Hl1|Hl3].
  - rewrite Hl1 in *. change (1 =? 1) with true in *. cbv iota in *. change (fetch_len 1) with 3%nat in *.
    pose proof (Ht eq_refl) as Hbh. pose proof (bh_last _ _ _ _ Hbh) as Hlh. pose proof (bh_lits _ _ _ _ Hbh) as Hlits.
    assert (zlen d = zlen source) as Hdl by (unfold zlen; by rewrite (ag_len _ _ _ Hag')).
    rewrite catch_up_literal_ok by (apply Hag' || apply Hbh || lia). cbn [mbind option_bind].
    rewrite Hf. fold (word3 comp (d_src s)). rewrite word3_roll by (done || lia).
    eexists. split; [done|]. split_and!; [|done|done].
    rewrite (enter_from_agree (d_dst s + 1) _ source) by (done || lia).
    constructor; cbn [d_src d_dst d_cwordVal d_destination d_hashtable d_lastHashed d_fetch]; try done; try lia.
    + by rewrite Hcw.
    + intros _ _. by rewrite <- Hrest', Hl1.
    + intros _. by apply behind_lit.
  - rewrite Hl3 in *. change (3 =? 1) with false in *. cbv iota in *. cbn [mbind option_bind]. change (fetch_len 3) with 4%nat in *.
    rewrite Hf, word4_roll by (done || lia).
    eexists. split; [done|]. split_and!; [|done|done].
    constructor; cbn [d_src d_dst d_cwordVal d_destination d_hashtable d_lastHashed d_fetch]; try done; try lia.
    + by rewrite Hcw.
    + intros _ _. by rewrite <- Hrest', Hl3.
Qed.

(** *** The literals at the end *)

Lemma agree_all d : agree (zlen source) d source → d = source.
Proof.
  intros [Hl _ Hg]. apply list_eq_same_length with (length source); [done|done|]. intros i x y Hi Hx Hy.
  specialize (Hg (Z.of_nat i)). rewrite !zget_nat in Hg. unfold zlen in Hg. rewrite Hg in Hx by lia. congruence.
Qed.

Lemma cw_literals k ts : Forall (λ t, tok_flag t = 0) ts → cw k ts = 2 ^ Z.of_nat k.
Proof.
  revert ts. induction k as [|k IH]; intros ts Hts; cbn [cw]; [done|]. rewrite Nat2Z.inj_succ, Z.pow_succ_r by lia.
  destruct ts as [|t ts]; [by rewrite IH|]. inversion Hts as [|? ? Ht Hts']. by rewrite Ht, IH.
Qed.

Lemma walk_end p g ts q g' :
  walk level source p g ts q g' → lastMatchStart (zlen source) < p → Forall (λ t, tok_flag t = 0) ts.
Proof. induction 1; intros Hp; [constructor|constructor; [done|apply IHwalk; lia]|lia]. Qed.

Lemma end_literals_ok ts : ∀ k i p g g' d,
  walk level source p g ts (zlen source) g' → lastMatchStart (zlen source) < p → 0 <= p → 0 <= i →
  drop (Z.to_nat i) comp = enc k ts → agree p d source →
  end_literals (Z.to_nat (zlen source - p)) comp i p (cw k ts) d = Some source.
Proof.
  induction ts as [|t ts IH]; intros k i p g g' d Hw Hp Hp0 Hi Hd Hag.
  { inversion Hw; subst. rewrite Z.sub_diag. cbn [Z.to_nat end_literals]. f_equal. by apply agree_all. }
  pose proof (walk_end _ _ _ _ _ Hw Hp) as Hz. inversion Hw as [|? ? b ? ? ? Hb Hw'|]; subst; [|lia].
  pose proof (zget_Some_lt _ _ _ Hb) as Hlt.
  replace (Z.to_nat (zlen source - p)) with (S (Z.to_nat (zlen source - (p + 1)))) by lia. cbn [end_literals].
  assert (∃ i' k', (if cw k (Lit b :: ts) =? 1 then (i + CWORD_LEN, 0x80000000) else (i, cw k (Lit b :: ts)))
      = (i', cw (S k') (Lit b :: ts)) ∧ 0 <= i' ∧ drop (Z.to_nat i') comp = b :: enc k' ts) as (i' & k' & -> & Hi' & Hd').
  { destruct (Z.eqb_spec (cw k (Lit b :: ts)) 1) as [Hone|Hne].
    - apply cw_one in Hone as ->. exists (i + 4), 30%nat. rewrite (cw_literals 31) by done. split; [done|]. split; [lia|].
      cbn [enc] in Hd. pose proof (drop_advance comp _ _ _ Hi Hd) as H. unfold zlen in H. by rewrite length_le_put in H.
    - destruct k as [|k]; [done|]. exists i, k. done. }
  assert (zget comp i' = Some b) as ->. { rewrite <- (Z.add_0_r i'), zget_drop, Hd' by lia. done. }
  cbn [mbind option_bind].
  destruct (agree_snoc _ _ _ _ Hag Hp0 Hb (is_bytes_zget _ _ _ Hs Hb)) as (d' & -> & Hag').
  cbn [mbind option_bind]. destruct (cw_step k' (Lit b) ts) as [_ ->].
  eapply IH; eauto; try lia. apply (drop_advance comp [b] _ i' Hi' Hd').
Qed.

(** *** The whole loop *)

Lemma decompress_loop_ok ts : ∀ fuel s k p g g',
  dinv s k ts p g → walk level source p g ts (zlen source) g' → ts ≠ [] → (length ts <= fuel)%nat →
  decompress_loop fuel comp level (zlen source) s = Some source.
Proof.
  induction ts as [|t ts IH]; intros fuel s k p g g' Hinv Hw Hne Hf; [done|].
  destruct fuel as [|fuel]; [simpl in Hf; lia|]. cbn [decompress_loop]. cbn [length] in Hf.
  destruct (refill_ok _ _ _ _ _ _ _ _ Hinv Hw eq_refl) as (s1 & k1 & -> & Hinv1). cbn [mbind option_bind].
  pose proof (di_cw _ _ _ _ _ Hinv1) as Hcw. rewrite Hcw. destruct (cw_step k1 t ts) as [-> _].
  destruct t as [b|code len]; cbn [tok_flag Z.eqb].
  - rewrite (di_dst _ _ _ _ _ Hinv1). destruct (Z.leb_spec p (lastMatchStart (zlen source))).
    + destruct (literal_step_ok _ _ _ _ _ _ _ _ Hinv1 Hw eq_refl) as (s2 & -> & Hinv2 & Hw2 & Hne2); [done|].
      cbn [mbind option_bind]. eapply IH; eauto. lia.
    + eapply end_literals_ok; eauto; apply Hinv1.
  - change (1 =? 1)%positive with true. cbv iota.
    destruct (match_step_ok _ _ _ _ _ _ _ _ _ Hinv1 Hw eq_refl) as (s2 & -> & Hinv2 & Hw2 & Hne2).
    cbn [mbind option_bind]. eapply IH; eauto. lia.
Qed.
End Loop.

(** ** Headers *)

(** The first byte of a header, and the nine bytes of it. *)
Definition qlz_flags (level : Z) (compressible : bool) : Z :=
  Z.lor (Z.lor (Z.lor (u8 (Z.lor 2 (if compressible then 1 else 0))) (u8 (Z.shiftl level 2))) (Z.shiftl 1 6)) (Z.shiftl 0 4).
Definition header (level : Z) (compressible : bool) (csize size : Z) : bytes :=
  qlz_flags level compressible :: le_put 4 csize ++ le_put 4 size.

Lemma length_header level c csize size : length (header level c csize size) = 9%nat.
Proof. unfold header. cbn [length]. by rewrite length_app, !length_le_put. Qed.

Lemma zlen_header level c csize size : zlen (header level c csize size) = 9.
Proof. unfold zlen. by rewrite length_header. Qed.

Lemma writeHeader_ok hdr rest level c size csize :
  length hdr = 9%nat → writeHeader (hdr ++ rest) level c size csize = Some (header level c csize size ++ rest).
Proof.
  intros Hl. destruct hdr as [|b hdr]; [done|]. injection Hl as Hl.
  destruct (split_at hdr 4) as (a & hdr' & -> & Ha); [lia|]. rewrite length_app in Hl.
  unfold writeHeader. cbn [app]. fold (qlz_flags level c). rewrite <- (assoc_L app).
  pose proof (zset_app_mid [] (a ++ hdr' ++ rest) b (qlz_flags level c) 0 eq_refl) as H. cbn [app] in H.
  rewrite H. cbn [mbind option_bind]. clear H.
  pose proof (fastWrite_app [qlz_flags level c] a (hdr' ++ rest) csize 4 1 eq_refl Ha) as H. cbn [app] in H.
  rewrite H. cbn [mbind option_bind]. clear H.
  pose proof (fastWrite_app ([qlz_flags level c] ++ le_put 4 csize) hdr' rest size 4 5 eq_refl ltac:(lia)) as H.
  rewrite <- !(assoc_L app) in H. cbn [app] in H. rewrite H. unfold header. cbn [app]. by rewrite <- (assoc_L app).
Qed.

Lemma header_reads level c csize size rest :
  level = 1 ∨ level = 3 → is_bytes rest → 0 <= csize < 2 ^ 32 → 0 <= size < 2 ^ 32 →
  let h := header level c csize size ++ rest in
  SizeDecompressed h = Some size ∧ SizeCompressed h = Some csize ∧ headerLen h = Some 9
  ∧ is_bytes h ∧ zget h 0 = Some (qlz_flags level c).
Proof.
  intros Hl Hr Hcs Hsz h.
  assert (is_bytes h) as Hb.
  { unfold h, header. apply is_bytes_app. split; [|done]. constructor.
    - destruct Hl as [-> | ->], c; vm_compute; split; congruence.
    - apply is_bytes_app. auto using le_put_bytes. }
  assert (zget h 0 = Some (qlz_flags level c)) as H0 by done.
  assert (headerLen h = Some 9) as Hh.
  { unfold headerLen. rewrite H0. cbn [mbind option_bind]. by destruct Hl as [-> | ->], c. }
  unfold SizeDecompressed, SizeCompressed. rewrite Hh. cbn [mbind option_bind]. change (9 =? 9) with true. cbv iota.
  assert (zlen h >= 9) as Hlen.
  { unfold h. rewrite zlen_app. unfold zlen at 1. rewrite length_header. pose proof (zlen_nonneg rest). lia. }
  rewrite !fastRead_le by (done || lia). split_and!; try done.
  - replace (drop (Z.to_nat 5) h) with (le_put 4 size ++ rest).
    + rewrite le_word_put, Z.mod_small by done. done.
    + unfold h, header. change (Z.to_nat 5) with 5%nat. cbn [app drop]. rewrite <- (assoc_L app). by rewrite drop_app_length' by (by rewrite length_le_put).
  - replace (drop (Z.to_nat 1) h) with (le_put 4 csize ++ le_put 4 size ++ rest).
    + rewrite le_word_put, Z.mod_small by done. done.
    + unfold h, header. change (Z.to_nat 1) with 1%nat. cbn [app drop]. by rewrite <- (assoc_L app).
Qed.

(** ** Whole streams *)

Lemma enc_tokens ts k : Forall (λ t, 1 <= zlen (tok_bytes t) <= 4) ts → (length ts <= length (enc k ts))%nat.
Proof.
  intros Hts. revert k. induction Hts as [|t ts Ht Hts IH]; intros k; [done|]. unfold zlen in Ht.
  destruct k as [|k]; cbn [enc length]; rewrite !length_app; [specialize (IH 30%nat)|specialize (IH k)]; lia.
Qed.

(** A header and the layout of a stream of the whole source decompress to it. *)
Lemma decompress_stream source level ts g csize :
  level = 1 ∨ level = 3 → is_bytes source → source ≠ [] → zlen source < 2 ^ 32 → 0 <= csize < 2 ^ 32 →
  walk level source 0 g_init ts (zlen source) g →
  go_Decompress (header level true csize (zlen source) ++ enc 0 ts) = Some source.
Proof.
  intros Hl Hs Hne Hsz Hcs Hw. pose proof (walk_bytes _ _ _ _ _ _ _ 0 Hs Hw) as Hbytes.
  pose proof (zlen_nonneg source) as Hpos.
  destruct (header_reads level true csize (zlen source) (enc 0 ts) Hl Hbytes Hcs) as (H1 & _ & H2 & Hb & H3); [lia|].
  unfold go_Decompress. rewrite H1, H2, H3. cbn [mbind option_bind].
  assert (Z.land (Z.shiftr (qlz_flags level true) 2) 3 = level) as -> by (by destruct Hl as [-> | ->]).
  assert (Z.land (qlz_flags level true) 1 =? 1 = true) as -> by (by destruct Hl as [-> | ->]).
  assert (negb (level =? 1) && negb (level =? 3) = false) as -> by (by destruct Hl as [-> | ->]). cbv iota. cbn [negb].
  assert (ts ≠ []) as Hts. { intros ->. inversion Hw. destruct source; [done|]. unfold zlen in *. cbn [length] in *. lia. }
  eapply decompress_loop_ok; eauto.
  - constructor; cbn [d_src d_dst d_cwordVal d_destination d_hashtable d_lastHashed d_fetch]; try done; try lia.
    + constructor; [unfold zlen; rewrite length_replicate; lia| |intros; lia].
      apply Forall_replicate. split; [lia|done].
  - pose proof (walk_sizes _ _ _ _ _ _ _ Hw) as (_ & _ & Hf). pose proof (enc_tokens ts 0 Hf).
    rewrite length_app. lia.
Qed.
