(* ===== verification/QuicklzCompress.v ===== *)
(** * The QuickLZ compressor builds a stream

    Every round of the loop of [go_Compress] adds one token to the stream of the source
    read so far; the destination holds the layout of the tokens, with a hole where the
    control word of the current group will be written. *)

From S2P Require Import Prelude Strconv Config Hashing Cmem Item Quicklz QuicklzSpec.

(** ** Words *)

Lemma lor_fields a x n y k :
  0 <= n <= k → 0 <= a < 2 ^ n → 0 <= x < 2 ^ (k - n) → 0 <= y →
  Z.lor (Z.lor (Z.shiftl x n) (Z.shiftl y k)) a = a + 2 ^ n * x + 2 ^ k * y.
Proof.
  intros Hn Ha Hx Hy. assert (2 ^ k = 2 ^ n * 2 ^ (k - n)) as E by (rewrite <- Z.pow_add_r by lia; f_equal; lia).
  assert (0 < 2 ^ n) by (apply Z.pow_pos_nonneg; lia).
  rewrite (lor_shiftl_add (Z.shiftl x n) y k); [|lia| |done].
  2: { rewrite Z.shiftl_mul_pow2 by lia. rewrite E. nia. }
  replace (Z.shiftl x n + Z.shiftl y k) with (Z.shiftl (x + 2 ^ (k - n) * y) n)
    by (rewrite !Z.shiftl_mul_pow2 by lia; rewrite E; ring).
  rewrite Z.lor_comm, lor_shiftl_add; [|lia|done|].
  - rewrite Z.shiftl_mul_pow2 by lia. rewrite E. ring.
  - assert (0 <= 2 ^ (k - n) * y) by (apply Z.mul_nonneg_nonneg; lia). lia.
Qed.

Lemma lor_low a x n : 0 <= n → 0 <= a < 2 ^ n → 0 <= x → Z.lor (Z.shiftl x n) a = a + 2 ^ n * x.
Proof. intros. rewrite Z.lor_comm, lor_shiftl_add by lia. rewrite Z.shiftl_mul_pow2 by lia. lia. Qed.

(** ** Comparing *)

Lemma same_ok source i j :
  0 <= i < zlen source → 0 <= j < zlen source →
  ∃ e, same source i j = Some e ∧ (e = true → zget source i = zget source j).
Proof.
  intros Hi Hj. unfold same. destruct (zget_lt source i Hi) as [x Hx]. destruct (zget_lt source j Hj) as [y Hy].
  rewrite Hx, Hy. cbn [mbind option_bind]. eexists. split; [done|]. intros ->%Z.eqb_eq. done.
Qed.

Lemma repeats_snoc source o p m :
  repeats source o p m → zget source (o + m) = zget source (p + m) → repeats source o p (m + 1).
Proof. intros Hr Hm i Hi. destruct (decide (i = m)) as [->|]; [done|]. apply Hr. lia. Qed.

Lemma extend_ok fuel : ∀ source o src m remaining,
  repeats source o src m → 0 <= o < src → 0 <= m <= remaining → src + remaining < zlen source →
  remaining - m <= Z.of_nat fuel →
  ∃ m', extend fuel source o src m remaining = Some m' ∧ m <= m' <= remaining ∧ repeats source o src m'.
Proof.
  induction fuel as [|fuel IH]; intros source o src m remaining Hr Ho Hm Hl Hf; cbn [extend];
    destruct (same_ok source (o + m) (src + m)) as (e & -> & He); try lia; cbn [mbind option_bind].
  - rewrite (proj2 (Z.ltb_ge _ _)) by lia. rewrite andb_false_r. eauto with lia.
  - destruct e; cbn [andb]; [|eauto with lia]. destruct (Z.ltb_spec m remaining); [|eauto with lia].
    destruct (IH source o src (m + 1) remaining) as (m' & -> & Hm' & Hr'); [by apply repeats_snoc; auto|lia..|].
    exists m'. split_and!; [done|lia|lia|done].
Qed.

Lemma remaining_range source src :
  src <= lastMatchStart (zlen source) →
  7 <= remaining_at source src <= 255 ∧ src + remaining_at source src <= zlen source - UNCOMPRESSED_END.
Proof.
  unfold lastMatchStart, remaining_at, UNCONDITIONAL_MATCHLEN, UNCOMPRESSED_END. intros H.
  destruct (Z.leb_spec (zlen source - 4 - src + 1 - 1) 255); lia.
Qed.

(** ** The destination *)

Definition laid (source d : bytes) (done cur : list token) : Prop :=
  length d = (length source + 400)%nat
  ∧ ∃ hdr hole rest, d = hdr ++ enc 0 done ++ hole ++ flat cur ++ rest ∧ length hdr = 9%nat ∧ length hole = 4%nat.

(** A token goes behind the ones before it. *)
Lemma laid_write source d done cur t dst :
  laid source d done cur → dst = 9 + zlen (enc 0 done) + 4 + zlen (flat cur) →
  dst + zlen (tok_bytes t) <= zlen source + 400 →
  ∃ A old rest, d = A ++ old ++ rest ∧ dst = zlen A ∧ length old = length (tok_bytes t)
    ∧ laid source (A ++ tok_bytes t ++ rest) done (cur ++ [t]).
Proof.
  intros (Hl & hdr & hole & rest & -> & Hhdr & Hhole) Hdst Hroom. unfold zlen in *. rewrite !length_app in Hl.
  destruct (split_at rest (length (tok_bytes t))) as (old & rest' & -> & Hold); [lia|].
  rewrite length_app in Hl. exists (hdr ++ enc 0 done ++ hole ++ flat cur), old, rest'.
  split_and!; [by rewrite <- !(assoc_L app)|rewrite !length_app; lia|done|]. split.
  - rewrite !length_app. lia.
  - exists hdr, hole, rest'. rewrite flat_snoc. split_and!; [by rewrite <- !(assoc_L app)|done..].
Qed.

(** The control word of a group goes into the hole. *)
Lemma laid_close source d done cur v i :
  laid source d done cur → full done → i = 9 + zlen (enc 0 done) → cur ≠ [] → (length cur <= 31)%nat → v = cw 31 cur →
  ∃ hdr rest, fastWrite d i v 4 = Some (hdr ++ enc 0 (done ++ cur) ++ rest) ∧ length hdr = 9%nat
    ∧ length (hdr ++ enc 0 (done ++ cur) ++ rest) = (length source + 400)%nat.
Proof.
  intros (Hl & hdr & hole & rest & -> & Hhdr & Hhole) Hf -> Hne Hlen ->. exists hdr, rest.
  rewrite (assoc_L app hdr), (fastWrite_app (hdr ++ enc 0 done) hole); [|rewrite zlen_app; unfold zlen; lia|done].
  rewrite enc_full, (enc_cur cur) by done. rewrite <- !(assoc_L app). split_and!; [done|done|].
  rewrite !length_app in *. rewrite length_le_put. lia.
Qed.

Lemma laid_next source d done cur v i :
  laid source d done cur → full done → i = 9 + zlen (enc 0 done) → cur ≠ [] → (length cur <= 31)%nat → v = cw 31 cur →
  9 + zlen (enc 0 (done ++ cur)) + 4 <= zlen source + 400 →
  ∃ d', fastWrite d i v 4 = Some d' ∧ laid source d' (done ++ cur) [].
Proof.
  intros Hd Hf Hi Hne Hlen Hv Hroom.
  destruct (laid_close _ _ _ _ _ _ Hd Hf Hi Hne Hlen Hv) as (hdr & rest & -> & Hhdr & Hl).
  eexists. split; [done|]. split; [done|]. rewrite !length_app in Hl. unfold zlen in Hroom.
  destruct (split_at rest 4) as (hole & rest' & -> & Hhole); [lia|].
  exists hdr, hole, rest'. split_and!; done.
Qed.

(** ** The stream of a state *)

Record cinv (source : bytes) (level : Z) (s : CState) (done cur : list token) (g : ghost) : Prop := mkCinv {
  ci_walk : walk level source 0 g_init (done ++ cur) (c_src s) g;
  ci_full : full done;
  ci_cur : (length cur <= 31)%nat;
  ci_cw : c_cwordVal s = ccw cur;
  ci_ptr : c_cwordPtr s = 9 + zlen (enc 0 done);
  ci_dst : c_dst s = 9 + zlen (enc 0 done) + 4 + zlen (flat cur);
  ci_laid : laid source (c_destination s) done cur
}.

Lemma ci_src source level s done cur g : cinv source level s done cur g → 0 <= c_src s.
Proof. intros Hi. apply (walk_le _ _ _ _ _ _ _ (ci_walk _ _ _ _ _ _ Hi)). Qed.

(** A group has at most four bytes for each of its tokens. *)
Lemma ci_group source level s done cur g : cinv source level s done cur g → zlen (flat cur) <= 4 * zlen cur.
Proof.
  intros Hi. pose proof (walk_sizes _ _ _ _ _ _ _ (ci_walk _ _ _ _ _ _ Hi)) as (_ & _ & [_ Hc]%Forall_app).
  unfold flat, zlen in *. clear Hi. induction Hc as [|t cur Ht _ IH]; cbn [fmap list_fmap concat length]; [lia|].
  rewrite length_app. lia.
Qed.

Lemma cinv_lit source level s done cur g b d s' :
  cinv source level s done cur g → (length cur < 31)%nat → zget source (c_src s) = Some b →
  laid source d done (cur ++ [Lit b]) →
  c_src s' = c_src s + 1 → c_dst s' = c_dst s + 1 → c_cwordVal s' = Z.shiftr (c_cwordVal s) 1 →
  c_cwordPtr s' = c_cwordPtr s → c_destination s' = d →
  cinv source level s' done (cur ++ [Lit b]) (g_next source (c_src s) (Lit b) g).
Proof.
  intros [Hw Hf Hc Hcw Hp Hd Hl] Hlt Hb Hl' E1 E2 E3 E4 E5. constructor; try done.
  - rewrite E1, (assoc_L app). by apply walk_snoc_lit.
  - rewrite length_app. simpl. lia.
  - rewrite E3, Hcw. by apply ccw_lit.
  - by rewrite E4.
  - rewrite E2, Hd, flat_snoc, zlen_app. change (zlen (tok_bytes (Lit b))) with 1. lia.
  - by rewrite E5.
Qed.

Lemma cinv_mat source level s done cur g code len d s' :
  cinv source level s done cur g → (length cur < 31)%nat → c_src s <= lastMatchStart (zlen source) →
  3 <= len <= 255 → c_src s + len <= zlen source - UNCOMPRESSED_END → match_ok level source (c_src s) g code len →
  laid source d done (cur ++ [Mat code len]) →
  c_src s' = c_src s + len → c_dst s' = c_dst s + zlen code →
  c_cwordVal s' = Z.lor (Z.shiftr (c_cwordVal s) 1) 0x80000000 →
  c_cwordPtr s' = c_cwordPtr s → c_destination s' = d →
  cinv source level s' done (cur ++ [Mat code len]) (g_next source (c_src s) (Mat code len) g).
Proof.
  intros Hi Hlt Hs Hlen Hend Hm Hl' E1 E2 E3 E4 E5. pose proof (ci_src _ _ _ _ _ _ Hi).
  destruct Hi as [Hw Hf Hc Hcw Hp Hd Hl]. constructor; try done.
  - rewrite E1, (assoc_L app). by apply walk_snoc_mat.
  - rewrite length_app. simpl. lia.
  - rewrite E3, Hcw. by apply ccw_mat.
  - by rewrite E4.
  - rewrite E2, Hd, flat_snoc, zlen_app. cbn [tok_bytes]. lia.
  - by rewrite E5.
Qed.

(** ** Level 1 *)

Lemma match1_cond_ok source src o cache cnt lits :
  0 <= src → src + 2 < zlen source →
  ∃ m, match1_cond source src o cache cnt lits = Some m ∧
    (m = true → cache = 0 ∧ cnt ≠ 0 ∧
      (o < src - 2 ∨ o = src - 1 ∧ 3 <= lits ∧ 3 <= src ∧ ∀ i, 1 <= i <= 3 → zget source (src - i) = zget source src)).
Proof.
  intros H0 Hl. unfold match1_cond, MINOFFSET. cbn [and_then or_else mbind option_bind].
  destruct (Z.eqb_spec cache 0) as [->|]; cbn [andb]; [|by exists false].
  destruct (Z.eqb_spec cnt 0) as [->|Hcnt]; cbn [negb]; [by exists false|]. rewrite Z.gtb_ltb.
  destruct (Z.ltb_spec 2 (src - o)); [exists true; split; [done|]; intros _; split_and!; auto; left; lia|].
  destruct (Z.eqb_spec src (o + 1)); cbn [andb]; [|by exists false]. rewrite Z.geb_leb, Z.gtb_ltb.
  destruct (Z.leb_spec 3 lits); cbn [andb]; [|by exists false]. destruct (Z.ltb_spec 3 src); [|by exists false].
  destruct (same_ok source src (src - 3)) as ([] & -> & Hb3); [lia|lia| |by exists false].
  destruct (same_ok source src (src - 2)) as ([] & -> & Hb2); [lia|lia| |by exists false].
  destruct (same_ok source src (src - 1)) as ([] & -> & Hb1); [lia|lia| |by exists false].
  destruct (same_ok source src (src + 1)) as ([] & -> & _); [lia|lia| |by exists false].
  destruct (same_ok source src (src + 2)) as (m & -> & _); [lia|lia|]. cbn [mbind option_bind].
  exists m. split; [done|]. intros _. split_and!; [done|done|]. right. split_and!; [lia|lia|lia|].
  intros i Hi. assert (i = 1 ∨ i = 2 ∨ i = 3) as [-> | [-> | ->]] by lia; symmetry; auto.
Qed.

Lemma matchlen1_ok source o src :
  repeats source o src 4 → 0 <= o < src → src <= lastMatchStart (zlen source) →
  ∃ len, matchlen1 source o src = Some len ∧ 4 <= len <= 255 ∧ src + len <= zlen source - UNCOMPRESSED_END
    ∧ repeats source o src len.
Proof.
  intros Hr Ho Hs. pose proof (remaining_range source src Hs) as [Hrem Hend]. unfold matchlen1.
  unfold lastMatchStart, UNCONDITIONAL_MATCHLEN, UNCOMPRESSED_END in *.
  destruct (same_ok source (o + 4) (src + 4)) as (e4 & -> & H4); [lia|lia|]. cbn [mbind option_bind].
  destruct e4; cbn [negb]; [|exists 4; split_and!; (done || lia)].
  pose proof (repeats_snoc _ _ _ _ Hr (H4 eq_refl)) as Hr5. change (4 + 1) with 5 in Hr5.
  destruct (same_ok source (o + 5) (src + 5)) as (e5 & -> & H5); [lia|lia|]. cbn [mbind option_bind].
  destruct e5; cbn [negb]; [|exists 5; split_and!; (done || lia)].
  pose proof (repeats_snoc _ _ _ _ Hr5 (H5 eq_refl)) as Hr6. change (5 + 1) with 6 in Hr6.
  destruct (extend_ok EXTEND_FUEL source o src 6 (remaining_at source src)) as (m & -> & Hm & Hrm); [done|lia|lia|lia| |].
  { unfold EXTEND_FUEL. lia. }
  exists m. split_and!; (done || lia).
Qed.

(** Two single bytes make a word of two. *)
Lemma two_bytes d i f :
  (d ← zset d (i + 0) (u8 (Z.shiftr f (0 * 8))); zset d (i + 1) (u8 (Z.shiftr f (1 * 8)))) = fastWrite d i f 2.
Proof. unfold fastWrite. cbn [fastWrite_from]. change (i + Z.of_nat 0) with (i + 0). destruct (zset d (i + 0) _); [|done]. cbn. by destruct (zset _ _ _). Qed.

(** The match found, and that its code is written as any other bytes are. *)
Lemma emit1_ok source o hash src :
  repeats source o src 3 → 0 <= o < src → src <= lastMatchStart (zlen source) → 0 <= hash < HASH_VALUES →
  ∃ len, 3 <= len <= 255 ∧ src + len <= zlen source - UNCOMPRESSED_END ∧ repeats source o src len
    ∧ ∀ A old rest, length old = length (code1 hash len) →
        emit1 source o hash src (zlen A) (A ++ old ++ rest)
        = Some (A ++ code1 hash len ++ rest, zlen A + zlen (code1 hash len), len).
Proof.
  intros Hr Ho Hs Hh. pose proof Hs as Hs'. unfold emit1, HASH_VALUES in *.
  unfold lastMatchStart, UNCONDITIONAL_MATCHLEN, UNCOMPRESSED_END in Hs'.
  destruct (same_ok source (o + 3) (src + 3)) as (e & -> & He); [lia|lia|]. cbn [mbind option_bind].
  assert (∀ len f A old rest, f = len - 2 + 16 * hash → 3 <= len < 18 → length old = length (code1 hash len) →
    (d ← zset (A ++ old ++ rest) (zlen A + 0) (u8 (Z.shiftr f (0 * 8)));
     d ← zset d (zlen A + 1) (u8 (Z.shiftr f (1 * 8))); Some (d, zlen A + 2, len))
    = Some (A ++ code1 hash len ++ rest, zlen A + zlen (code1 hash len), len)) as Hshort.
  { intros len f A old rest -> Hlen Hold. unfold code1 in *. rewrite (proj2 (Z.ltb_lt _ _)) in * by lia.
    rewrite length_le_put in Hold. pose proof (two_bytes (A ++ old ++ rest) (zlen A) (len - 2 + 16 * hash)) as H.
    rewrite (fastWrite_app A old rest _ 2 (zlen A) eq_refl Hold) in H.
    destruct (zset (A ++ old ++ rest) _ _) as [d|]; [|done]. cbn [mbind option_bind] in *. rewrite H. cbn [mbind option_bind].
    unfold zlen. by rewrite length_le_put. }
  destruct e; cbn [negb].
  - pose proof (repeats_snoc _ _ _ _ Hr (He eq_refl)) as Hr4. change (3 + 1) with 4 in Hr4.
    destruct (matchlen1_ok source o src Hr4 Ho Hs) as (len & -> & Hlen & Hend & Hrl). exists len.
    split_and!; [lia|lia|done|done|]. intros A old rest Hold. cbn [mbind option_bind].
    destruct (Z.ltb_spec len 18).
    + apply Hshort; [|lia|done]. rewrite lor_low by lia. lia.
    + unfold code1 in *. rewrite (proj2 (Z.ltb_ge _ _)) in * by lia. rewrite length_le_put in Hold.
      rewrite lor_shiftl_add by (rewrite ?Z.shiftl_mul_pow2 by lia; lia). rewrite !Z.shiftl_mul_pow2 by lia.
      rewrite (fastWrite_app A old rest _ 3 (zlen A) eq_refl Hold). cbn [mbind option_bind].
      unfold zlen. rewrite length_le_put. replace (hash * 2 ^ 4 + len * 2 ^ 16) with (16 * hash + 65536 * len) by lia. done.
  - exists 3. unfold UNCOMPRESSED_END. split_and!; [lia|lia|lia|done|]. intros A old rest Hold. apply Hshort; [|lia|done].
    rewrite lor_shiftl_add by lia. rewrite Z.shiftl_mul_pow2 by lia. lia.
Qed.

(** The tables of level 1: the pointers are those of the stream, and a row in use has the
    word of its position. *)
Record tab1 (source : bytes) (s : CState) (g : ghost) : Prop := mkTab1 {
  t1_rows : c_hashtable s = (λ o, [o]) <$> g_tab g;
  t1_tab : zlen (g_tab g) = HASH_VALUES;
  t1_cache : zlen (c_cachetable s) = HASH_VALUES;
  t1_count : zlen (c_hashCounter s) = HASH_VALUES;
  t1_lits : c_lits s = g_lits g;
  t1_fetch : c_src s <= lastMatchStart (zlen source) → c_fetch s = word3 source (c_src s);
  t1_entry h o cnt :
    zget (g_tab g) h = Some o → zget (c_hashCounter s) h = Some cnt → cnt ≠ 0 →
    0 <= o < c_src s ∧ zget (c_cachetable s) h = Some (word3 source o)
}.

Lemma entry_next source s g cnt' src' h o cnt :
  tab1 source s g → 0 <= c_src s <= lastMatchStart (zlen source) → c_src s < src' →
  (∀ h, 0 <= h → h ≠ hash_at source (c_src s) → zget cnt' h = zget (c_hashCounter s) h) →
  zget (enter source (g_tab g) (c_src s)) h = Some o → zget cnt' h = Some cnt → cnt ≠ 0 →
  0 <= o < src' ∧ zget (<[Z.to_nat (hash_at source (c_src s)) := c_fetch s]> (c_cachetable s)) h = Some (word3 source o).
Proof.
  intros Ht Hs Hlt Hcnt Ho Hc Hne. pose proof (zget_Some_lt _ _ _ Ho) as Hh.
  pose proof (hash_range (word3 source (c_src s))) as Hr. fold (hash_at source (c_src s)) in Hr.
  unfold enter in Ho. rewrite zget_set in Ho by (rewrite ?(t1_tab _ _ _ Ht); lia).
  rewrite zget_set by (rewrite ?(t1_cache _ _ _ Ht); lia). case_decide as E.
  - injection Ho as <-. split; [lia|]. by rewrite (t1_fetch _ _ _ Ht) by lia.
  - rewrite Hcnt in Hc by (done || lia). destruct (t1_entry _ _ _ Ht _ _ _ Ho Hc Hne). split; [lia|done].
Qed.

(** The round after its table lookups. *)
Lemma step1_lookup source s g :
  tab1 source s g → 0 <= c_src s <= lastMatchStart (zlen source) →
  let src := c_src s in let hash := hash_at source src in
  let ht := (λ o, [o]) <$> enter source (g_tab g) src in
  let ct := <[Z.to_nat hash := c_fetch s]> (c_cachetable s) in
  ∃ o cached cnt, zget (g_tab g) hash = Some o ∧ zget (c_cachetable s) hash = Some cached
    ∧ zget (c_hashCounter s) hash = Some cnt
    ∧ step1 source s =
      (m ← match1_cond source src o (Z.lxor cached (word3 source src)) cnt (c_lits s);
       if m : bool then
         '(d, dst, matchlen) ← emit1 source o hash src (c_dst s) (c_destination s);
         fetch ← fastRead source (src + matchlen) 3;
         Some (mkC (src + matchlen) dst (Z.lor (Z.shiftr (c_cwordVal s) 1) 0x80000000) (c_cwordPtr s) d ht ct (c_hashCounter s) fetch 0)
       else
         b ← zget source src;
         d ← zset (c_destination s) (c_dst s) b;
         b3 ← zget source (src + 1 + 2);
         Some (mkC (src + 1) (c_dst s + 1) (Z.shiftr (c_cwordVal s) 1) (c_cwordPtr s) d ht ct
                   (<[Z.to_nat hash := 1]> (c_hashCounter s))
                   (Z.lor (Z.land (Z.shiftr (word3 source src) 8) 0xffff) (Z.shiftl b3 16)) (c_lits s + 1))).
Proof.
  intros Ht Hs src hash ht ct. pose proof (t1_fetch _ _ _ Ht (proj2 Hs)) as Hfetch.
  assert (0 <= hash < HASH_VALUES) as Hh by apply hash_range.
  destruct (zget_lt (g_tab g) hash) as [o Ho]; [by rewrite (t1_tab _ _ _ Ht)|].
  destruct (zget_lt (c_cachetable s) hash) as [cached Hcached]; [by rewrite (t1_cache _ _ _ Ht)|].
  destruct (zget_lt (c_hashCounter s) hash) as [cnt Hcnt]; [by rewrite (t1_count _ _ _ Ht)|].
  exists o, cached, cnt. split_and!; [done..|]. unfold step1. rewrite Hfetch.
  fold src. fold (hash_at source src). fold hash. pose proof Ho as [_ Hol]%zget_Some.
  assert (zget (c_hashtable s) hash = Some [o]) as ->.
  { apply zget_Some. split; [lia|]. by rewrite (t1_rows _ _ _ Ht), list_lookup_fmap, Hol. }
  cbn [mbind option_bind]. change (zget [o] 0) with (Some o). cbn [mbind option_bind]. rewrite Hcached. cbn [mbind option_bind].
  rewrite (zset_insert (c_cachetable s)) by (by rewrite (t1_cache _ _ _ Ht)). cbn [mbind option_bind].
  change (zset [o] 0 src) with (Some [src]). cbn [mbind option_bind]. rewrite (t1_rows _ _ _ Ht).
  rewrite (zset_insert (_ <$> _)) by (unfold zlen; rewrite length_fmap; pose proof (t1_tab _ _ _ Ht) as HT; unfold zlen in HT; lia).
  cbn [mbind option_bind]. rewrite Hcnt. cbn [mbind option_bind].
  replace (<[Z.to_nat hash := [src]]> ((λ o, [o]) <$> g_tab g)) with ht by (unfold ht, enter; by rewrite list_fmap_insert).
  unfold ct. rewrite Hfetch. fold src.
  destruct (match1_cond _ _ _ _ _ _) as [[]|]; cbn [mbind option_bind]; [done| |done].
  by rewrite (zset_insert (c_hashCounter s)) by (by rewrite (t1_count _ _ _ Ht)).
Qed.

(** A round adds a token to the group and keeps the tables in step with the stream. *)
Definition adds1 (source : bytes) (s : CState) (done cur : list token) (r : option CState) : Prop :=
  ∃ s' t g', r = Some s' ∧ cinv source 1 s' done (cur ++ [t]) g' ∧ tab1 source s' g'
    ∧ c_src s < c_src s' ∧ c_cwordPtr s' = c_cwordPtr s.

Lemma step1_match source s done cur g o cnt (r : option CState) :
  let src := c_src s in let hash := hash_at source src in
  is_bytes source → cinv source 1 s done cur g → tab1 source s g → (length cur < 31)%nat →
  src <= lastMatchStart (zlen source) → c_dst s + 4 <= zlen source + 400 →
  zget (g_tab g) hash = Some o → zget (c_cachetable s) hash = Some (word3 source src) →
  zget (c_hashCounter s) hash = Some cnt → cnt ≠ 0 →
  (o < src - 2 ∨ o = src - 1 ∧ 3 <= c_lits s ∧ 3 <= src ∧ ∀ i, 1 <= i <= 3 → zget source (src - i) = zget source src) →
  r = ('(d, dst, matchlen) ← emit1 source o hash src (c_dst s) (c_destination s);
       fetch ← fastRead source (src + matchlen) 3;
       Some (mkC (src + matchlen) dst (Z.lor (Z.shiftr (c_cwordVal s) 1) 0x80000000) (c_cwordPtr s) d
                 ((λ o, [o]) <$> enter source (g_tab g) src)
                 (<[Z.to_nat hash := c_fetch s]> (c_cachetable s)) (c_hashCounter s) fetch 0)) →
  adds1 source s done cur r.
Proof.
  intros src hash Hb Hi Ht Hlt Hs Hroom Ho Hcached Hcnt Hcnt0 Hfar ->. pose proof (ci_src _ _ _ _ _ _ Hi) as H0. pose proof Hs as Hs'.
  unfold lastMatchStart, UNCONDITIONAL_MATCHLEN, UNCOMPRESSED_END in Hs'.
  destruct (t1_entry _ _ _ Ht _ _ _ Ho Hcnt Hcnt0) as [Hos Hcw]. rewrite Hcached in Hcw. injection Hcw as Hcw.
  assert (repeats source o src 3) as Hr3 
    by exact (proj2 (word3_eq source source o src Hb Hb ltac:(lia) ltac:(lia) ltac:(lia) ltac:(lia)) (eq_sym Hcw)).
  destruct (emit1_ok source o hash src Hr3 Hos Hs (hash_range _)) as (len & Hlen & Hend & Hr & Hemit).
  assert (match_ok 1 source src g (code1 hash len) len) as Hmok.
  { apply match_1 with o; try done; [by apply zget_Some in Ho as [_ Ho]|lia|]. by rewrite <- (t1_lits _ _ _ Ht). }
  pose proof (match_size _ _ _ _ _ _ Hmok ltac:(lia)) as Hsize.
  destruct (laid_write _ _ _ _ (Mat (code1 hash len) len) _ (ci_laid _ _ _ _ _ _ Hi) (ci_dst _ _ _ _ _ _ Hi))
    as (A & old & rest & HA & HzA & Hold & Hlaid); [cbn [tok_bytes]; lia|].
  rewrite HA, HzA, Hemit by done. cbn [mbind option_bind]. pose proof Hend as Hend'. unfold UNCOMPRESSED_END in Hend'.
  rewrite fastRead_word3 by (done || lia). cbn [mbind option_bind]. rewrite <- HzA.
  eexists _, (Mat (code1 hash len) len), _. split; [done|].
  split; [eapply cinv_mat; eauto; done|]. split; [|cbn; lia].
  constructor; cbn [c_src c_hashtable c_cachetable c_hashCounter c_lits c_fetch g_next g_tab g_lits]; try done.
  - unfold enter, zlen. rewrite length_insert. apply Ht.
  - unfold zlen. rewrite length_insert. apply Ht.
  - apply Ht.
  - intros h o' cnt'. eapply entry_next; try done; lia.
Qed.

Lemma step1_lit source s done cur g (r : option CState) :
  let src := c_src s in let hash := hash_at source src in
  is_bytes source → cinv source 1 s done cur g → tab1 source s g → (length cur < 31)%nat →
  src <= lastMatchStart (zlen source) → c_dst s + 4 <= zlen source + 400 →
  r = (b ← zget source src;
       d ← zset (c_destination s) (c_dst s) b;
       b3 ← zget source (src + 1 + 2);
       Some (mkC (src + 1) (c_dst s + 1) (Z.shiftr (c_cwordVal s) 1) (c_cwordPtr s) d
                 ((λ o, [o]) <$> enter source (g_tab g) src)
                 (<[Z.to_nat hash := c_fetch s]> (c_cachetable s))
                 (<[Z.to_nat hash := 1]> (c_hashCounter s))
                 (Z.lor (Z.land (Z.shiftr (word3 source src) 8) 0xffff) (Z.shiftl b3 16)) (c_lits s + 1))) →
  adds1 source s done cur r.
Proof.
  intros src hash Hb Hi Ht Hlt Hs Hroom ->. pose proof (ci_src _ _ _ _ _ _ Hi) as H0. pose proof Hs as Hs'.
  unfold lastMatchStart, UNCONDITIONAL_MATCHLEN, UNCOMPRESSED_END in Hs'. fold src in H0.
  destruct (zget_lt source src) as [b Hbs]; [lia|]. destruct (zget_lt source (src + 3)) as [b3 Hb3]; [lia|].
  destruct (laid_write _ _ _ _ (Lit b) _ (ci_laid _ _ _ _ _ _ Hi) (ci_dst _ _ _ _ _ _ Hi))
    as (A & old & rest & HA & HzA & Hold & Hlaid); [change (zlen (tok_bytes (Lit b))) with 1; lia|].
  destruct old as [|x [|]]; try done. rewrite Hbs. cbn [mbind option_bind].
  rewrite HA, HzA. cbn [app]. rewrite zset_app_mid by done. cbn [mbind option_bind]. rewrite <- HzA.
  replace (src + 1 + 2) with (src + 3) by lia. rewrite Hb3. cbn [mbind option_bind]. rewrite word3_roll by (done || lia).
  eexists _, (Lit b), _. split; [done|]. split; [eapply cinv_lit; eauto; done|]. split; [|cbn; lia].
  pose proof (hash_range (word3 source src)) as Hh. fold (hash_at source src) in Hh. fold hash in Hh.
  constructor; cbn [c_src c_hashtable c_cachetable c_hashCounter c_lits c_fetch g_next g_tab g_lits]; try done.
  - unfold enter, zlen. rewrite length_insert. apply Ht.
  - unfold zlen. rewrite length_insert. apply Ht.
  - unfold zlen. rewrite length_insert. apply Ht.
  - by rewrite (t1_lits _ _ _ Ht).
  - intros h o cnt. eapply entry_next; try done; [fold src; lia..|]. fold src. fold hash.
    intros h' Hh' Hne. rewrite zget_set by (rewrite ?(t1_count _ _ _ Ht); lia). by rewrite decide_False.
Qed.

Lemma step1_ok source s done cur g :
  is_bytes source → cinv source 1 s done cur g → tab1 source s g → (length cur < 31)%nat →
  c_src s <= lastMatchStart (zlen source) → c_dst s + 4 <= zlen source + 400 →
  adds1 source s done cur (step1 source s).
Proof.
  intros Hb Hi Ht Hlt Hs Hroom. pose proof (ci_src _ _ _ _ _ _ Hi) as H0.
  destruct (step1_lookup source s g Ht) as (o & cached & cnt & Ho & Hcached & Hcnt & ->); [lia|].
  pose proof Hs as Hs'. unfold lastMatchStart, UNCONDITIONAL_MATCHLEN, UNCOMPRESSED_END in Hs'.
  destruct (match1_cond_ok source (c_src s) o (Z.lxor cached (word3 source (c_src s))) cnt (c_lits s)) as (m & -> & Hm); [lia|lia|].
  cbn [mbind option_bind]. destruct m; [|by eapply step1_lit].
  destruct (Hm eq_refl) as (Hc0 & Hcnt0 & Hfar). apply Z.lxor_eq in Hc0. subst cached. by eapply step1_match.
Qed.

(** ** Level 3 *)

(** The tables of level 3: sixteen pointers in each row, all with three bytes behind them
    (in a source that has three bytes). *)
Definition row_ok (source : bytes) (row : list Z) : Prop :=
  length row = 16%nat ∧ Forall (λ o, 0 <= o ∧ o + 3 <= Z.max 3 (zlen source)) row.
Record tab3 (source : bytes) (ht : list (list Z)) (hc : list Z) : Prop := mkTab3 {
  t3_rows : zlen ht = HASH_VALUES;
  t3_row : Forall (row_ok source) ht;
  t3_counts : zlen hc = HASH_VALUES
}.

Lemma put3_ok source ht hc f pos :
  tab3 source ht hc → 0 <= pos → pos + 3 <= zlen source →
  ∃ ht' hc', put3 ht hc (hash_of f) pos = Some (ht', hc') ∧ tab3 source ht' hc'.
Proof.
  intros [Hht Hrow Hhc] Hp Hl. pose proof (hash_range f) as Hh. unfold put3.
  destruct (zget_lt hc (hash_of f)) as [c Hc]; [lia|]. rewrite Hc. cbn [mbind option_bind].
  destruct (zget_lt ht (hash_of f)) as [row Hr]; [lia|]. rewrite Hr. cbn [mbind option_bind].
  pose proof Hr as [_ Hr']%zget_Some. pose proof (Forall_lookup_1 _ _ _ _ Hrow Hr') as [Hrl Hro].
  assert (0 <= Z.land c (QLZ_POINTERS_3 - 1) < 16) as Hidx.
  { change (QLZ_POINTERS_3 - 1) with (Z.ones 4). rewrite Z.land_ones by lia. width. }
  rewrite (zset_insert row) by (unfold zlen; lia). cbn [mbind option_bind].
  rewrite (zset_insert ht) by lia. cbn [mbind option_bind]. rewrite (zset_insert hc) by lia. cbn [mbind option_bind].
  eexists _, _. split; [done|]. constructor.
  - unfold zlen. by rewrite length_insert.
  - apply Forall_insert; [done|]. split; [by rewrite length_insert|]. apply Forall_insert; [done|lia].
  - unfold zlen. by rewrite length_insert.
Qed.

Lemma enter3_ok n : ∀ source src u ht hc fetch,
  is_bytes source → tab3 source ht hc → 0 <= src → 0 <= u → src + u + Z.of_nat n + 2 <= zlen source →
  ∃ ht' hc' fetch', enter3 n source src u ht hc fetch = Some (ht', hc', fetch') ∧ tab3 source ht' hc'.
Proof.
  induction n as [|n IH]; intros source src u ht hc fetch Hb Ht Hs Hu Hl; cbn [enter3]; [eauto 6|].
  rewrite fastRead_word3 by (done || lia). cbn [mbind option_bind].
  destruct (put3_ok source ht hc (word3 source (src + u)) (src + u) Ht) as (ht' & hc' & -> & Ht'); [lia|lia|].
  cbn [mbind option_bind]. apply IH; (done || lia).
Qed.

(** Comparing the three bytes of a word with the source. *)
Lemma bytes3_ok source src o :
  is_bytes source → 0 <= src → src + 3 <= zlen source → 0 <= o → o + 3 <= zlen source →
  let fetch := word3 source src in
  ∃ e, and_then (b ← zget source o; Some (u8 fetch =? b))
         (and_then (b ← zget source (o + 1); Some (u8 (Z.shiftr fetch 8) =? b))
           (and_then (b ← zget source (o + 2); Some (u8 (Z.shiftr fetch 16) =? b))
             (Some (o <? src - MINOFFSET)))) = Some e
    ∧ (e = true → o < src - 2 ∧ repeats source o src 3).
Proof.
  intros Hb Hs Hsl Ho Hol fetch.
  destruct (word3_bytes source o Hb Ho Hol) as (x & y & z & Hx & Hy & Hz & Ux & Uy & Uz & E).
  destruct (word3_bytes source src Hb Hs Hsl) as (x' & y' & z' & _ & _ & _ & Ux' & Uy' & Uz' & E').
  rewrite Hx, Hy, Hz. cbn [mbind option_bind and_then]. rewrite !Z.shiftr_div_pow2 by lia.
  change (2 ^ 8) with 256. change (2 ^ 16) with 65536. unfold fetch.
  replace (u8 (word3 source src)) with x' by (rewrite E'; width).
  replace (u8 (word3 source src / 256)) with y' by (rewrite E'; width).
  replace (u8 (word3 source src / 65536)) with z' by (rewrite E'; width).
  destruct (Z.eqb_spec x' x) as [->|]; [|by exists false]. destruct (Z.eqb_spec y' y) as [->|]; [|by exists false].
  destruct (Z.eqb_spec z' z) as [->|]; [|by exists false]. eexists. split; [done|]. intros Hlt%Z.ltb_lt.
  unfold MINOFFSET in Hlt. split; [done|]. exact (proj2 (word3_eq source source o src Hb Hb Ho Hol Hs Hsl) ltac:(lia)).
Qed.

(** The best candidate so far is a match, or there is none. *)
Definition found (source : bytes) (src remaining o m : Z) : Prop :=
  m = 0 ∨ 3 <= m <= remaining ∧ 0 <= o < src - 2 ∧ repeats source o src m.

Lemma search3_ok n : ∀ source row c src remaining k o m,
  is_bytes source → row_ok source row → 0 <= src → src + remaining < zlen source → 3 <= remaining <= 255 →
  0 <= k → k + Z.of_nat n = 16 → found source src remaining o m →
  ∃ o' m', search3 n source row c (word3 source src) src remaining k o m = Some (o', m') ∧ found source src remaining o' m'.
Proof.
  induction n as [|n IH]; intros source row c src remaining k o m Hb Hrow Hs Hl Hrem Hk Hn Hf; cbn [search3]; [eauto|].
  destruct (_ || _); [|eauto]. destruct (zget_lt row k) as [o' Ho']; [destruct Hrow; unfold zlen; lia|].
  pose proof Ho' as [_ Hoin]%zget_Some. pose proof (Forall_lookup_1 _ _ _ _ (proj2 Hrow) Hoin) as [Ho0 Hol].
  rewrite Ho'. cbn [mbind option_bind].
  destruct (bytes3_ok source src o' Hb Hs) as (e & -> & He); [lia|lia|lia|]. cbn [mbind option_bind].
  destruct e; [|apply IH; (done || lia)]. destruct (He eq_refl) as [Hlt Hr3].
  destruct (extend_ok EXTEND_FUEL source o' src 3 remaining Hr3) as (m' & -> & Hm' & Hr'); [lia|lia|lia|unfold EXTEND_FUEL; lia|].
  cbn [mbind option_bind]. destruct (_ || _); apply IH; try done; try lia. right. split_and!; (done || lia).
Qed.

(** The bytes written for a match are its code. *)
Lemma emit3_ok A old rest len offset :
  3 <= len <= 255 → 3 <= offset < 131071 → length old = length (code3 len offset) →
  emit3 (A ++ old ++ rest) (zlen A) len offset = Some (A ++ code3 len offset ++ rest, zlen A + zlen (code3 len offset)).
Proof.
  intros Hl Ho Hold. unfold emit3, code3 in *.
  repeat case_match; rewrite length_le_put in Hold; rewrite (fastWrite_app A old rest _ _ (zlen A) eq_refl Hold);
    cbn [mbind option_bind]; unfold zlen; rewrite length_le_put;
    repeat match goal with
    | H : (_ && _) = true |- _ => apply andb_true_iff in H as [? ?]
    | H : (_ && _) = false |- _ => apply andb_false_iff in H
    end; do 5 f_equal.
  - rewrite Z.shiftl_mul_pow2 by lia. lia.
  - rewrite lor_low by lia. lia.
  - rewrite (lor_fields 2 (len - 3) 2 offset 6) by lia. lia.
  - rewrite (lor_fields 3 (len - 2) 2 offset 7) by lia. lia.
  - rewrite (lor_fields 3 (len - 3) 7 offset 15) by lia. lia.
Qed.

Definition adds3 (source : bytes) (s : CState) (done cur : list token) (r : option CState) : Prop :=
  ∃ s' t g', r = Some s' ∧ cinv source 3 s' done (cur ++ [t]) g' ∧ tab3 source (c_hashtable s') (c_hashCounter s')
    ∧ c_src s < c_src s' ∧ c_cwordPtr s' = c_cwordPtr s.

Lemma step3_match source s done cur g o len ht hc fetch :
  is_bytes source → cinv source 3 s done cur g → tab3 source ht hc → (length cur < 31)%nat →
  c_src s <= lastMatchStart (zlen source) → c_dst s + 4 <= zlen source + 400 →
  3 <= len <= remaining_at source (c_src s) → 0 <= o < c_src s - 2 → c_src s - o < 131071 →
  repeats source o (c_src s) len →
  adds3 source s done cur
    ('(ht, hc, fetch) ← enter3 (Z.to_nat (len - 1)) source (c_src s) 1 ht hc fetch;
     '(d, dst) ← emit3 (c_destination s) (c_dst s) len (c_src s - o);
     Some (mkC (c_src s + len) dst (Z.lor (Z.shiftr (c_cwordVal s) 1) 0x80000000) (c_cwordPtr s) d
               ht (c_cachetable s) hc fetch (c_lits s))).
Proof.
  intros Hb Hi Ht Hlt Hs Hroom Hlen Ho Hfar Hr. pose proof (remaining_range source (c_src s) Hs) as [Hrem Hend].
  pose proof Hend as Hend'. unfold UNCOMPRESSED_END in Hend'.
  destruct (enter3_ok (Z.to_nat (len - 1)) source (c_src s) 1 ht hc fetch) as (ht' & hc' & fetch' & -> & Ht'); [done|done|lia..|].
  cbn [mbind option_bind]. set (code := code3 len (c_src s - o)).
  assert (match_ok 3 source (c_src s) g code len) as Hmok.
  { apply match_3; [done|lia|lia|]. by replace (c_src s - (c_src s - o)) with o by lia. }
  pose proof (match_size _ _ _ _ _ _ Hmok ltac:(lia)) as Hsize.
  destruct (laid_write _ _ _ _ (Mat code len) _ (ci_laid _ _ _ _ _ _ Hi) (ci_dst _ _ _ _ _ _ Hi))
    as (A & old & rest & HA & HzA & Hold & Hlaid); [cbn [tok_bytes]; lia|].
  rewrite HA, HzA, emit3_ok by (done || lia). cbn [mbind option_bind]. rewrite <- HzA.
  eexists _, (Mat code len), _. split; [done|]. split; [eapply cinv_mat; eauto; try done; lia|].
  split; [done|cbn; lia].
Qed.

Lemma step3_lit source s done cur g ht hc fetch :
  cinv source 3 s done cur g → tab3 source ht hc → (length cur < 31)%nat →
  c_src s < zlen source → c_dst s + 4 <= zlen source + 400 →
  adds3 source s done cur
    (b ← zget source (c_src s);
     d ← zset (c_destination s) (c_dst s) b;
     Some (mkC (c_src s + 1) (c_dst s + 1) (Z.shiftr (c_cwordVal s) 1) (c_cwordPtr s) d
               ht (c_cachetable s) hc fetch (c_lits s))).
Proof.
  intros Hi Ht Hlt Hs Hroom. pose proof (ci_src _ _ _ _ _ _ Hi) as H0.
  destruct (zget_lt source (c_src s)) as [b Hbs]; [lia|]. rewrite Hbs. cbn [mbind option_bind].
  destruct (laid_write _ _ _ _ (Lit b) _ (ci_laid _ _ _ _ _ _ Hi) (ci_dst _ _ _ _ _ _ Hi))
    as (A & old & rest & HA & HzA & Hold & Hlaid); [change (zlen (tok_bytes (Lit b))) with 1; lia|].
  destruct old as [|x [|]]; try done. rewrite HA, HzA. cbn [app]. rewrite zset_app_mid by done. cbn [mbind option_bind]. rewrite <- HzA.
  eexists _, (Lit b), _. split; [done|]. split; [eapply cinv_lit; eauto; done|]. split; [done|cbn; lia].
Qed.

(** Rewriting away a bind without comparing what is bound. *)
Lemma bind_some {A B} (x : A) (f : A → option B) : Some x ≫= f = f x.
Proof. done. Qed.

Lemma step3_ok source s done cur g :
  is_bytes source → cinv source 3 s done cur g → tab3 source (c_hashtable s) (c_hashCounter s) → (length cur < 31)%nat →
  c_src s <= lastMatchStart (zlen source) → c_dst s + 4 <= zlen source + 400 →
  adds3 source s done cur (step3 source s).
Proof.
  intros Hb Hi Ht Hlt Hs Hroom. pose proof (ci_src _ _ _ _ _ _ Hi) as H0.
  pose proof (remaining_range source (c_src s) Hs) as [Hrem Hend]. unfold UNCOMPRESSED_END in Hend.
  unfold step3. rewrite fastRead_word3 by (done || lia). rewrite bind_some.
  pose proof (hash_range (word3 source (c_src s))) as Hh.
  destruct (zget_lt (c_hashCounter s) (hash_of (word3 source (c_src s)))) as [c Hc]; [rewrite (t3_counts _ _ _ Ht); lia|].
  rewrite Hc, bind_some.
  destruct (zget_lt (c_hashtable s) (hash_of (word3 source (c_src s)))) as [row Hrow]; [rewrite (t3_rows _ _ _ Ht); lia|].
  rewrite Hrow, bind_some. apply zget_Some in Hrow as [_ Hrow].
  pose proof (Forall_lookup_1 _ _ _ _ (t3_row _ _ _ Ht) Hrow) as Hrok.
  destruct (search3_ok (Z.to_nat QLZ_POINTERS_3) source row c (c_src s) (remaining_at source (c_src s)) 0 0 0)
    as (o & m & -> & Hf); try done; [lia..|by left|]. cbn [mbind option_bind].
  destruct (put3_ok source _ _ (word3 source (c_src s)) (c_src s) Ht) as (ht & hc & -> & Ht'); [lia|lia|].
  cbn [mbind option_bind]. rewrite Z.geb_leb.
  destruct ((3 <=? m) && (c_src s - o <? 131071)) eqn:E; [|apply (step3_lit _ _ _ _ _ _ _ _ Hi Ht'); lia].
  apply andb_true_iff in E as [E1%Z.leb_le E2%Z.ltb_lt]. destruct Hf as [->|(Hm & Ho & Hr)]; [lia|].
  by eapply step3_match.
Qed.
