(* ===== verification/QuicklzProps.v ===== *)
(** * Compressing and decompressing

    The loops of [go_Compress] end with the layout of a stream of the whole source, or
    with the source stored as it is; either way there is room for every byte written, and
    [go_Decompress] gives the source back. *)

From S2P Require Import Prelude Strconv Config Hashing Cmem Item Quicklz QuicklzSpec QuicklzDecompress QuicklzCompress.

Section Loops.
Context (source : bytes) (level : Z).
Hypothesis (Hs : is_bytes source) (Hlevel : level = 1 ∨ level = 3).

Definition tabs (s : CState) (g : ghost) : Prop :=
  if level =? 1 then tab1 source s g else tab3 source (c_hashtable s) (c_hashCounter s).

(** Between rounds: the stream, the tables, and a current group that starts at most 13
    bytes behind the length of the source. *)
Record loop_inv (s : CState) (done cur : list token) (g : ghost) : Prop := mkLoop {
  li_cinv : cinv source level s done cur g;
  li_tabs : tabs s g;
  li_room : c_cwordPtr s <= zlen source + 13
}.

Lemma walk_inside p g ts q g' : walk level source p g ts q g' → p <= zlen source → q <= zlen source.
Proof.
  induction 1 as [|p g b ts q g' Hb%zget_Some_lt Hw IH|p g code len ts q g' Hp Hl Hq Hm Hw IH]; intros Hle;
    [done|apply IH; lia|apply IH; unfold UNCOMPRESSED_END in *; lia].
Qed.

Lemma li_src s done cur g : cinv source level s done cur g → 0 <= c_src s <= zlen source.
Proof.
  intros Hi. split; [by eapply ci_src|]. apply (walk_inside _ _ _ _ _ (ci_walk _ _ _ _ _ _ Hi)), zlen_nonneg.
Qed.

(** Where the destination ends once the group is closed. *)
Lemma dst_closed s done cur g :
  cinv source level s done cur g → cur ≠ [] → c_dst s = 9 + zlen (enc 0 (done ++ cur)).
Proof.
  intros Hi Hne. rewrite enc_full, (enc_cur cur) by (done || apply Hi). rewrite !zlen_app, (ci_dst _ _ _ _ _ _ Hi).
  assert (zlen (le_put 4 (cw 31 cur)) = 4) as -> by (unfold zlen; by rewrite length_le_put). lia.
Qed.

(** The stream written so far is at most 35/31 of what was read. *)
Lemma dst_bound s done cur g :
  cinv source level s done cur g → cur ≠ [] → 31 * (c_dst s - 9) <= 35 * c_src s + 120.
Proof.
  intros Hi Hne. rewrite (dst_closed _ _ _ _ Hi Hne). pose proof (zlen_layout (done ++ cur) 0 ltac:(lia)) as H.
  pose proof (walk_sizes _ _ _ _ _ _ _ (ci_walk _ _ _ _ _ _ Hi)) as (H1 & H2 & _). lia.
Qed.

Lemma next_cword_ok s done cur g :
  cinv source level s done cur g → length cur = 31%nat → c_dst s + 4 <= zlen source + 400 →
  ∃ s', next_cword s = Some s' ∧ cinv source level s' (done ++ cur) [] g
    ∧ c_src s' = c_src s ∧ c_dst s' = c_dst s + 4 ∧ c_cwordPtr s' = c_dst s ∧ (tabs s g → tabs s' g).
Proof.
  intros Hi H31 Hroom. assert (cur ≠ []) as Hne by (by intros ->).
  pose proof (dst_closed _ _ _ _ Hi Hne) as Hd. destruct Hi as [Hw Hf Hc Hcw Hp Hdst Hl]. unfold next_cword.
  destruct (laid_next source (c_destination s) done cur (Z.lor (Z.shiftr (c_cwordVal s) 1) 0x80000000) (c_cwordPtr s))
    as (d & -> & Hl'); try done; [|lia|].
  { rewrite Hcw. apply ccw_written; [done|]. unfold ccw, zlen. rewrite H31. change (2 ^ (31 - Z.of_nat 31)) with 1. lia. }
  cbn [mbind option_bind]. eexists. split; [done|]. split_and!; try done.
  - constructor; cbn [c_src c_dst c_cwordVal c_cwordPtr c_destination]; try done.
    + by rewrite app_nil_r.
    + by apply full_app.
    + simpl. lia.
    + change (zlen (flat [])) with 0. unfold CWORD_LEN. lia.
  - unfold tabs. destruct (level =? 1); [|done]. intros [? ? ? ? ? ? ?]. by constructor.
Qed.

(** A round either stores the source as it is or has a free flag. *)
Lemma cword_turn_ok s done cur g :
  loop_inv s done cur g →
  cword_turn source level s = (d2 ← store_raw source level; Some (inl d2))
  ∨ ∃ s' done' cur', cword_turn source level s = Some (inr s') ∧ loop_inv s' done' cur' g
      ∧ (length cur' < 31)%nat ∧ c_src s' = c_src s.
Proof.
  intros [Hi Ht Hr]. unfold cword_turn. pose proof (li_src _ _ _ _ Hi) as Hsrc. pose proof (ci_cur _ _ _ _ _ _ Hi) as Hlen.
  rewrite (ci_cw _ _ _ _ _ _ Hi), ccw_full by done. case_bool_decide as H31.
  2: { right. exists s, done, cur. split_and!; [done|by constructor|lia|done]. }
  destruct (_ && _) eqn:E; [by left|]. right.
  assert (cur ≠ []) as Hne by (by intros ->).
  assert (c_dst s <= zlen source + 13) as Hd.
  { pose proof (dst_bound _ _ _ _ Hi Hne) as Hb. rewrite !Z.gtb_ltb, !Z.shiftr_div_pow2 in E by lia.
    change (2 ^ 2) with 4 in E. change (2 ^ 5) with 32 in E.
    apply andb_false_iff in E as [E%Z.ltb_ge|E%Z.ltb_ge]; width. }
  destruct (next_cword_ok _ _ _ _ Hi H31) as (s' & -> & Hi' & E1 & E2 & E3 & Ht'); [lia|]. cbn [mbind option_bind].
  exists s', (done ++ cur), []. split_and!; [done| |simpl; lia|done]. constructor; [done|auto|lia].
Qed.

Lemma step_ok s done cur g :
  loop_inv s done cur g → (length cur < 31)%nat → c_src s <= lastMatchStart (zlen source) →
  ∃ s' t g', (if level =? 1 then step1 source s else step3 source s) = Some s'
    ∧ loop_inv s' done (cur ++ [t]) g' ∧ c_src s < c_src s'.
Proof.
  intros [Hi Ht Hr] Hlt Hsrc. pose proof (ci_group _ _ _ _ _ _ Hi) as Hg.
  assert (c_dst s + 4 <= zlen source + 400) as Hroom.
  { rewrite (ci_dst _ _ _ _ _ _ Hi), <- (ci_ptr _ _ _ _ _ _ Hi). unfold zlen in Hg at 2. lia. }
  unfold tabs in Ht.
  destruct Hlevel as [Hl|Hl]; rewrite Hl in *; cbn [Z.eqb] in *.
  - destruct (step1_ok source s done cur g Hs Hi Ht Hlt Hsrc Hroom) as (s' & t & g' & -> & Hi' & Ht' & Hlt' & Hp).
    exists s', t, g'. split_and!; [done| |done]. constructor; [by rewrite Hl|unfold tabs; by rewrite Hl|lia].
  - destruct (step3_ok source s done cur g Hs Hi Ht Hlt Hsrc Hroom) as (s' & t & g' & -> & Hi' & Ht' & Hlt' & Hp).
    exists s', t, g'. split_and!; [done| |done]. constructor; [by rewrite Hl|unfold tabs; by rewrite Hl|lia].
Qed.

Lemma compress_loop_ok fuel : ∀ s done cur g,
  loop_inv s done cur g → cur ≠ [] ∨ c_src s < zlen source → zlen source - c_src s <= Z.of_nat fuel →
  compress_loop fuel source level s = (d2 ← store_raw source level; Some (inl d2))
  ∨ ∃ s' done' cur' g', compress_loop fuel source level s = Some (inr s') ∧ loop_inv s' done' cur' g'
      ∧ lastMatchStart (zlen source) < c_src s' ∧ (cur' ≠ [] ∨ c_src s' < zlen source).
Proof.
  induction fuel as [|fuel IH]; intros s done cur g Hi Hne Hf; cbn [compress_loop];
    destruct (Z.leb_spec (c_src s) (lastMatchStart (zlen source))) as [Hle|Hgt]; try (right; eauto 10; fail).
  - unfold lastMatchStart, UNCONDITIONAL_MATCHLEN, UNCOMPRESSED_END in Hle. lia.
  - destruct (cword_turn_ok _ _ _ _ Hi) as [->|(s1 & done1 & cur1 & -> & Hi1 & Hlt & Hsrc)].
    { left. by destruct (store_raw source level). }
    cbn [mbind option_bind]. destruct (step_ok _ _ _ _ Hi1 Hlt) as (s2 & t & g2 & -> & Hi2 & Hlt2); [lia|].
    cbn [mbind option_bind]. apply (IH _ _ _ _ Hi2); [left; by destruct cur1|lia].
Qed.

(** At the end there is room for the literals left and a control word for them. *)
Lemma tail_loop_ok fuel : ∀ s done cur g,
  cinv source level s done cur g → cur ≠ [] ∨ c_src s < zlen source → zlen source - c_src s <= 10 →
  c_dst s + (zlen source - c_src s) + (if 31 <? zlen cur + (zlen source - c_src s) then 4 else 0) <= zlen source + 200 →
  zlen source - c_src s <= Z.of_nat fuel →
  ∃ s' done' cur' g', tail_loop fuel source s = Some s' ∧ cinv source level s' done' cur' g'
    ∧ c_src s' = zlen source ∧ cur' ≠ [] ∧ c_dst s' <= zlen source + 200.
Proof.
  induction fuel as [|fuel IH]; intros s past cur g Hi Hne H10 Hd Hf; pose proof (li_src _ _ _ _ Hi) as Hsrc; cbn [tail_loop];
    (destruct (Z.leb_spec (c_src s) (zlen source - 1)) as [Hle|Hgt];
     [|assert (c_src s = zlen source) by lia; exists s, past, cur, g; split_and!; try done; [destruct Hne; [done|lia]|destruct (31 <? zlen cur + (zlen source - c_src s)); lia]]).
  { lia. }
  assert (∃ s1 done1 cur1, (if Z.land (c_cwordVal s) 1 =? 1 then next_cword s else Some s) = Some s1
      ∧ cinv source level s1 done1 cur1 g ∧ (length cur1 < 31)%nat ∧ c_src s1 = c_src s
      ∧ c_dst s1 + (zlen source - c_src s) + (if 31 <? zlen cur1 + (zlen source - c_src s) then 4 else 0) <= zlen source + 200)
    as (s1 & done1 & cur1 & -> & Hi1 & Hlt & Hs1 & Hd1).
  { pose proof (ci_cur _ _ _ _ _ _ Hi) as Hlen. rewrite (ci_cw _ _ _ _ _ _ Hi), ccw_full by done. case_bool_decide as H31.
    - rewrite (proj2 (Z.ltb_lt _ _)) in Hd by (unfold zlen at 1; lia).
      destruct (next_cword_ok _ _ _ _ Hi H31) as (s1 & -> & Hi1 & E1 & E2 & _ & _); [lia|].
      exists s1, (past ++ cur), []. split_and!; [done|done|simpl; lia|done|].
      rewrite (proj2 (Z.ltb_ge _ _)) by (change (zlen (@nil token)) with 0; lia). lia.
    - exists s, past, cur. split_and!; [done|done|lia|done|done]. }
  cbn [mbind option_bind]. rewrite Hs1. destruct (zget_lt source (c_src s)) as [b Hb]; [lia|]. rewrite Hb. cbn [mbind option_bind].
  destruct (laid_write _ _ _ _ (Lit b) _ (ci_laid _ _ _ _ _ _ Hi1) (ci_dst _ _ _ _ _ _ Hi1))
    as (A & old & rest & HA & HzA & Hold & Hlaid); [change (zlen (tok_bytes (Lit b))) with 1; destruct (31 <? zlen cur1 + (zlen source - c_src s)); lia|].
  destruct old as [|x [|]]; try done. rewrite HA, HzA. cbn [app]. rewrite zset_app_mid by done. cbn [mbind option_bind]. rewrite <- HzA.
  eapply IH; [eapply cinv_lit; [exact Hi1|..]; eauto; cbn; congruence|..]; cbn [c_src c_dst]; try lia.
  - left. by destruct cur1.
  - rewrite zlen_app. change (zlen [Lit b]) with 1. replace (zlen cur1 + 1 + (zlen source - (c_src s + 1))) with (zlen cur1 + (zlen source - c_src s)) by lia.
    lia.
Qed.

Lemma go_copy_all n d : (n <= length d)%nat → go_copy (replicate n 0) d = take n d.
Proof.
  intros Hn. unfold go_copy. rewrite length_replicate, drop_ge by (by rewrite length_replicate). apply app_nil_r.
Qed.

(** What is returned decompresses to the source, and its header tells the sizes. *)
Definition unpacks (c : bytes) : Prop :=
  go_Decompress c = Some source ∧ SizeCompressed c = Some (zlen c) ∧ SizeDecompressed c = Some (zlen source)
  ∧ zlen c <= zlen source + 400 ∧ is_bytes c.

Lemma header_bytes comp sc sd : is_bytes (header level comp sc sd).
Proof.
  unfold header. apply Forall_cons. split; [by destruct Hlevel as [-> | ->], comp|]. apply is_bytes_app. split; apply le_put_bytes.
Qed.

Hypothesis (Hne : source ≠ []) (Hsize : zlen source + 400 < 2 ^ 32).

Lemma compress_finish_ok s past cur g :
  loop_inv s past cur g → cur ≠ [] ∨ c_src s < zlen source → lastMatchStart (zlen source) < c_src s →
  ∃ c, compress_finish source level s = Some c ∧ unpacks c.
Proof.
  intros [Hi Ht Hr] Hcur Hend. pose proof (ci_group _ _ _ _ _ _ Hi) as Hg. pose proof (ci_cur _ _ _ _ _ _ Hi) as Hc31.
  pose proof (li_src _ _ _ _ Hi) as Hsrc. unfold lastMatchStart, UNCONDITIONAL_MATCHLEN, UNCOMPRESSED_END in Hend.
  unfold compress_finish.
  destruct (tail_loop_ok (length source) s past cur g) as (s' & past' & cur' & g' & -> & Hi' & Hs' & Hne' & Hd'); [done|done|lia| |unfold zlen; lia|].
  { rewrite (ci_dst _ _ _ _ _ _ Hi), <- (ci_ptr _ _ _ _ _ _ Hi). unfold zlen in Hg at 2. destruct (_ <? _); lia. }
  pose proof (dst_closed _ _ _ _ Hi' Hne') as Hdst. pose proof (ci_cur _ _ _ _ _ _ Hi') as Hlen.
  cbn [mbind option_bind]. rewrite (ci_cw _ _ _ _ _ _ Hi'), pad_loop_ok by (done || lia). cbn [mbind option_bind].
  destruct (laid_close source (c_destination s') past' cur' (Z.lor (Z.shiftr (1 + 2 * bits cur') 1) 0x80000000) (c_cwordPtr s'))
    as (hdr & rest & Hw & Hhdr & Hl); [apply Hi'|apply Hi'|apply Hi'|done|done|by apply ccw_written|].
  change (Z.to_nat CWORD_LEN) with 4%nat. rewrite Hw. cbn [mbind option_bind]. rewrite writeHeader_ok by done. cbn [mbind option_bind].
  set (c := header level true (c_dst s') (zlen source) ++ enc 0 (past' ++ cur')).
  assert (zlen c = c_dst s') as Hzc by (unfold c; rewrite zlen_app, zlen_header; lia).
  exists c. split.
  - rewrite go_copy_all; [f_equal|rewrite !length_app, length_header in *; unfold zlen in *; lia].
    rewrite (assoc_L app). fold c. apply take_app_length'. unfold zlen in *. lia.
  - pose proof (ci_walk _ _ _ _ _ _ Hi') as Hwalk. rewrite Hs' in Hwalk. pose proof (zlen_nonneg (enc 0 (past' ++ cur'))).
    destruct (header_reads level true (c_dst s') (zlen source) (enc 0 (past' ++ cur')) Hlevel) as (H1 & H2 & _); [by eapply walk_bytes|lia|lia|].
    unfold unpacks. fold c in H1, H2. rewrite Hzc. split_and!; [|done|done|lia|].
    2:{ apply is_bytes_app. split; [apply header_bytes|by eapply walk_bytes]. }
    unfold c. eapply decompress_stream; eauto; lia.
Qed.

Lemma store_raw_ok : ∃ c, store_raw source level = Some c ∧ unpacks c.
Proof.
  unfold store_raw. rewrite Nat.add_comm, replicate_add. change (Z.to_nat DEFAULT_HEADERLEN) with 9%nat.
  rewrite writeHeader_ok by done. cbn [mbind option_bind].
  rewrite take_app_length', drop_app_length' by (by rewrite length_header).
  rewrite go_copy_all, take_ge by done. unfold DEFAULT_HEADERLEN. eexists. split; [done|]. pose proof (zlen_nonneg source) as H0.
  destruct (header_reads level false (zlen source + 9) (zlen source) source Hlevel Hs) as (H1 & H2 & H3 & H4 & H5); [lia|lia|].
  unfold unpacks. rewrite H1, H2, zlen_app, zlen_header.
  split_and!; [|f_equal; lia|done|lia|apply is_bytes_app; split; [apply header_bytes|done]]. unfold go_Decompress. rewrite H1, H3, H5. cbn [mbind option_bind].
  assert (Z.land (Z.shiftr (qlz_flags level false) 2) 3 = level) as -> by (by destruct Hlevel as [-> | ->]).
  assert (Z.land (qlz_flags level false) 1 =? 1 = false) as -> by (by destruct Hlevel as [-> | ->]).
  assert (negb (level =? 1) && negb (level =? 3) = false) as -> by (by destruct Hlevel as [-> | ->]). cbv iota. cbn [negb].
  unfold zfrom. rewrite zslice_spec by (rewrite zlen_app, zlen_header; lia). cbn [mbind option_bind].
  change (Z.to_nat 9) with 9%nat. rewrite drop_app_length' by (by rewrite length_header).
  rewrite zlen_app. unfold zlen. rewrite length_header, take_ge by lia. rewrite Nat2Z.id, go_copy_all, take_ge by done. done.
Qed.

(** Before the first round. *)
Lemma init_inv fetch :
  (0 <= lastMatchStart (zlen source) → fetch = word3 source 0) →
  let s := compress_init source level in
  loop_inv (mkC (c_src s) (c_dst s) (c_cwordVal s) (c_cwordPtr s) (c_destination s)
                (c_hashtable s) (c_cachetable s) (c_hashCounter s) fetch (c_lits s)) [] [] g_init.
Proof.
  intros Hf s. constructor.
  - constructor; try done; [constructor|by exists 0%nat|simpl; lia|]. split; [simpl; by rewrite length_replicate|].
    exists (replicate 9 0), (replicate 4 0), (replicate (length source + 387) 0). split; [|done].
    cbn [enc app flat fmap list_fmap concat]. rewrite <- !replicate_add. simpl c_destination. f_equal. lia.
  - unfold tabs. destruct Hlevel as [-> | ->]; cbn [Z.eqb].
    + constructor; try done; cbn [c_src c_hashtable c_cachetable c_hashCounter c_fetch].
      intros h o cnt _ [_ Hc]%zget_Some Hcnt. apply lookup_replicate in Hc as [-> _]. done.
    + constructor; try done. apply Forall_replicate. split; [done|]. apply Forall_replicate. lia.
  - change (9 <= zlen source + 13). pose proof (zlen_nonneg source). lia.
Qed.
End Loops.

Lemma go_Compress_ok source level :
  level = 1 ∨ level = 3 → is_bytes source → source ≠ [] → zlen source + 400 < 2 ^ 32 →
  ∃ c, go_Compress source level = Some c ∧ unpacks source c.
Proof.
  intros Hlevel Hs Hne Hsize. unfold go_Compress.
  assert (negb (level =? 1) && negb (level =? 3) = false) as -> by (by destruct Hlevel as [-> | ->]). cbv iota.
  assert (0 < zlen source) as Hpos by (destruct source; [done|unfold zlen; simpl; lia]).
  rewrite (proj2 (Z.eqb_neq _ _)) by lia.
  assert (∃ fetch, (if c_src (compress_init source level) <=? lastMatchStart (zlen source)
      then fastRead source (c_src (compress_init source level)) 3 else Some 0) = Some fetch
      ∧ (0 <= lastMatchStart (zlen source) → fetch = word3 source 0)) as (fetch & -> & Hf).
  { simpl c_src. destruct (Z.leb_spec 0 (lastMatchStart (zlen source))) as [Hle|Hgt]; [|exists 0; split; [done|lia]].
    exists (word3 source 0). split; [|done]. apply fastRead_word3; [done|lia|].
    unfold lastMatchStart, UNCONDITIONAL_MATCHLEN, UNCOMPRESSED_END in Hle. lia. }
  cbn [mbind option_bind].
  destruct (compress_loop_ok source level Hs Hlevel (length source) _ _ _ _ (init_inv source level Hlevel fetch Hf))
    as [->|(s & past & cur & g & -> & Hi & Hend & Hcur)]; [right; done|simpl; unfold zlen; lia| |].
  - destruct (store_raw_ok source level Hs Hlevel Hsize) as (c & -> & Hc). by exists c.
  - by eapply compress_finish_ok.
Qed.

(** C20. The QuickLZ coder in Go round-trips: compressing never indexes out of its buffer of 400
    bytes more than the source, and what it returns, stored or compressed, decompresses to
    the source and carries both sizes. *)
Theorem quicklz_round_trip source level :
  level = 1 ∨ level = 3 → is_bytes source → source ≠ [] → zlen source + 400 < 2 ^ 32 →
  ∃ c, go_Compress source level = Some c ∧ go_Decompress c = Some source
    ∧ SizeCompressed c = Some (zlen c) ∧ SizeDecompressed c = Some (zlen source) ∧ zlen c <= zlen source + 400.
Proof.
  intros Hlevel Hs Hne Hsize. destruct (go_Compress_ok source level Hlevel Hs Hne Hsize) as (c & Hc & H1 & H2 & H3 & H4 & _). by exists c.
Qed.

(** The store calls QuickLZ in C at level 3, the parameter [qlz_compress] and
    [qlz_decompress] of the model; the coder in Go of that level has all that is asked of
    the parameter. *)
Definition go_ext (E : Ext) : Ext :=
  mkExt (heap E) (λ b, default [] (go_Compress b 3)) (λ b, default [] (go_Decompress b)) (DetectContentType E) (murmur E).

Lemma go_qlz_spec E : qlz_spec (go_ext E).
Proof.
  assert (∀ b, qlz_input b → ∃ c, go_Compress b 3 = Some c ∧ unpacks b c) as Hgo.
  { intros b (Hne & Hb & Hl). apply go_Compress_ok; [by right|done|done|lia]. }
  split; intros b Hb; destruct (Hgo b Hb) as (c & Hc & H1 & H2 & H3 & H4 & H5); cbn [go_ext qlz_compress qlz_decompress];
    rewrite Hc; cbn [default from_option id]; rewrite ?H1; done.
Qed.

Definition demo_text : bytes := bstr "to be, or not to be: that is the question: to be, or not to be".

Lemma quicklz_round_trip_witness :
  is_bytes demo_text ∧ ∃ c, go_Compress demo_text 3 = Some c ∧ go_Decompress c = Some demo_text
    ∧ SizeCompressed c = Some (zlen c) ∧ SizeDecompressed c = Some (zlen demo_text) ∧ zlen c <= zlen demo_text + 400.
Proof.
  assert (is_bytes demo_text) as Hb by (repeat constructor; vm_compute; congruence).
  split; [exact Hb|]. apply (quicklz_round_trip demo_text 3); [by right|exact Hb|done|done].
Defined.

(** The two levels on a text with repetitions: what the coder makes of it. *)
Example quicklz_sizes : (zlen <$> go_Compress demo_text 1, zlen <$> go_Compress demo_text 3) = (Some 62, Some 60).
Proof. vm_compute. reflexivity. Qed.
