(* ===== verification/Routes.v ===== *)
(** * Route tables (src/config/route.go)

    The route table says which server holds which bucket; a server derives from it the
    buckets it serves. The table comes as YAML: what the YAML package decodes is an
    argument ([RouteYaml]). [None] is a run-time panic. *)

From stdpp Require Import gmap.
From S2P Require Import Prelude Strconv Config.

(** ** Data *)

Record RServer := mkServer { sv_Addr : bytes; sv_BucketsHex : list bytes }.

(** The fields of [RouteTable] that are decoded. *)
Record RouteYaml := mkYaml { ry_NumBucket : Z; ry_Main : list RServer; ry_Backup : list bytes }.

Record RouteTable := mkRT {
  rt_yaml : RouteYaml;
  rt_Buckets : gmap Z (gmap bytes bool);
  rt_Servers : gmap bytes (gmap Z bool)
}.

Record DBRouteConfig := mkRouteConfig { rc_NumBucket : Z; rc_BucketsStat : list Z; rc_BucketsHex : list bytes }.

(** ** Loading *)

(** [Server.Decode]: the numbers of the buckets. At the first text that is no number it
    returns the error and leaves the rest of the slice at zero. *)
Fixpoint Decode (hexs : list bytes) : list Z * option num_err :=
  match hexs with
  | [] => ([], None)
  | str :: rest =>
      match ParseInt str 16 16 with
      | (_, Some e) => (replicate (length hexs) 0, Some e)
      | (n, None) => let '(bs, err) := Decode rest in (n :: bs, err)
      end
  end.

(** [rt.Servers[addr][bucket] = v; rt.Buckets[bucket][addr] = v]: writing to the nil map of
    a bucket that is not there panics. *)
Definition set_pair (rt : RouteTable) (addr : bytes) (bucket : Z) (v : bool) : option RouteTable :=
  sm ← rt_Servers rt !! addr;
  bm ← rt_Buckets rt !! bucket;
  Some (mkRT (rt_yaml rt) (<[bucket := <[addr := v]> bm]> (rt_Buckets rt)) (<[addr := <[bucket := v]> sm]> (rt_Servers rt))).

Fixpoint set_pairs (rt : RouteTable) (addr : bytes) (buckets : list Z) (v : bool) : option RouteTable :=
  match buckets with
  | [] => Some rt
  | b :: buckets => rt ← set_pair rt addr b v; set_pairs rt addr buckets v
  end.

(** A server starts with no buckets, whatever it had. *)
Definition new_server (rt : RouteTable) (addr : bytes) : RouteTable :=
  mkRT (rt_yaml rt) (rt_Buckets rt) (<[addr := ∅]> (rt_Servers rt)).

(** The servers of [Main]; the error of [Decode] is ignored. *)
Fixpoint add_main (rt : RouteTable) (servers : list RServer) : option RouteTable :=
  match servers with
  | [] => Some rt
  | s :: servers =>
      rt ← set_pairs (new_server rt (sv_Addr s)) (sv_Addr s) (Decode (sv_BucketsHex s)).1 true;
      add_main rt servers
  end.

Definition bucket_ids (n : Z) : list Z := Z.of_nat <$> seq 0 (Z.to_nat n).

Fixpoint add_backup (rt : RouteTable) (addrs : list bytes) : option RouteTable :=
  match addrs with
  | [] => Some rt
  | addr :: addrs =>
      rt ← set_pairs (new_server rt addr) addr (bucket_ids (ry_NumBucket (rt_yaml rt))) false;
      add_backup rt addrs
  end.

(** [LoadFromYaml] after the decoding. *)
Definition LoadFromYaml (y : RouteYaml) : option RouteTable :=
  let rt := mkRT y (list_to_map ((λ b, (b, ∅)) <$> bucket_ids (ry_NumBucket y))) ∅ in
  rt ← add_main rt (ry_Main y);
  add_backup rt (ry_Backup y).

(** ** The buckets of a server *)

Section Config.
(** The order in which Go ranges over a map. *)
Context (order : gmap Z bool → list Z).

Fixpoint set_stats (stat : list Z) (bs : list Z) : option (list Z) :=
  match bs with
  | [] => Some stat
  | b :: bs => stat ← zset stat b 1; set_stats stat bs
  end.

Definition GetDBRouteConfig (rt : RouteTable) (addr : bytes) : option DBRouteConfig :=
  let n := ry_NumBucket (rt_yaml rt) in
  if n <? 0 then None
  else
    match rt_Servers rt !! addr with
    | None => Some (mkRouteConfig n (replicate (Z.to_nat n) 0) [])
    | Some buckets =>
        stat ← set_stats (replicate (Z.to_nat n) 0) (order buckets);
        Some (mkRouteConfig n stat ((λ b, BucketIDHex b n) <$> order buckets))
    end.

End Config.

(** [DefaultRouteConfig] after [init] of config.go. *)
Definition DefaultRouteConfig : DBRouteConfig :=
  mkRouteConfig 16 (replicate 16 1) ((λ b, BucketIDHex b 16) <$> bucket_ids 16).

(** ** What the tables say *)

(** The pair of a server and a bucket in either table. *)
Definition by_server (rt : RouteTable) (a : bytes) (b : Z) : option bool := rt_Servers rt !! a ≫= (.!! b).
Definition by_bucket (rt : RouteTable) (a : bytes) (b : Z) : option bool := rt_Buckets rt !! b ≫= (.!! a).

(** What the YAML says: a backup server has every bucket as a backup, a main server the
    buckets of its list. *)
Definition listed (y : RouteYaml) (a : bytes) (b : Z) : bool :=
  existsb (λ s, bytes_eqb (sv_Addr s) a && bool_decide (b ∈ (Decode (sv_BucketsHex s)).1)) (ry_Main y).
Definition route_of (y : RouteYaml) (a : bytes) (b : Z) : option bool :=
  if bool_decide (a ∈ ry_Backup y) then if (0 <=? b) && (b <? ry_NumBucket y) then Some false else None
  else if listed y a b then Some true else None.

(** Every bucket that is listed exists. *)
Definition buckets_exist (y : RouteYaml) : Prop :=
  0 <= ry_NumBucket y
  ∧ Forall (λ s, Forall (λ b, 0 <= b < ry_NumBucket y) (Decode (sv_BucketsHex s)).1) (ry_Main y).

Section Tables.
Context (y : RouteYaml).
Abbreviation N := (ry_NumBucket y).

(** The tables hold the functions [fs] and [fb], and there is a map for every bucket. *)
Record table (fs fb : bytes → Z → option bool) (rt : RouteTable) : Prop := mkTable {
  tb_yaml : rt_yaml rt = y;
  tb_buckets b : is_Some (rt_Buckets rt !! b) ↔ 0 <= b < N;
  tb_servers a b : by_server rt a b = fs a b;
  tb_by_bucket a b : by_bucket rt a b = fb a b
}.

Lemma table_ext fs fb fs' fb' rt :
  table fs fb rt → (∀ a b, fs a b = fs' a b) → (∀ a b, fb a b = fb' a b) → table fs' fb' rt.
Proof. intros [H1 H2 H3 H4] Hs Hb. split; [done|done|..]; intros; [by rewrite H3, Hs|by rewrite H4, Hb]. Qed.

Definition upd (f : bytes → Z → option bool) (a : bytes) (bs : list Z) (v : bool) (a' : bytes) (b' : Z) : option bool :=
  if bool_decide (a' = a) && bool_decide (b' ∈ bs) then Some v else f a' b'.
Definition clear (f : bytes → Z → option bool) (a a' : bytes) (b' : Z) : option bool :=
  if bool_decide (a' = a) then None else f a' b'.

Lemma new_server_table fs fb rt a : table fs fb rt → table (clear fs a) fb (new_server rt a) ∧ is_Some (rt_Servers (new_server rt a) !! a).
Proof.
  intros [H1 H2 H3 H4]. split; [|cbn; by rewrite lookup_insert_eq]. split; [done|done| |done].
  intros a' b. unfold clear. unfold by_server in *. cbn. case_bool_decide as E.
  - subst. by rewrite lookup_insert_eq.
  - by rewrite lookup_insert_ne.
Qed.

Lemma set_pair_table fs fb rt a b v :
  table fs fb rt → is_Some (rt_Servers rt !! a) → 0 <= b < N →
  ∃ rt', set_pair rt a b v = Some rt' ∧ table (upd fs a [b] v) (upd fb a [b] v) rt' ∧ is_Some (rt_Servers rt' !! a).
Proof.
  intros [H1 H2 H3 H4] [sm Hsm] Hb. destruct (proj2 (H2 b) Hb) as [bm Hbm].
  unfold set_pair. rewrite Hsm, Hbm. cbn [mbind option_bind]. eexists. split; [done|].
  split; [|cbn; by rewrite lookup_insert_eq]. split; [done|..]; unfold by_server, by_bucket, upd in *; cbn.
  - intros b'. destruct (decide (b' = b)) as [->|Hne]; [rewrite lookup_insert_eq; naive_solver|by rewrite lookup_insert_ne].
  - intros a' b'. rewrite <- H3. destruct (decide (a' = a)) as [->|Hne].
    + rewrite lookup_insert_eq, bool_decide_eq_true_2 by done. cbn. rewrite Hsm. cbn.
      destruct (decide (b' = b)) as [->|Hb']; [by rewrite lookup_insert_eq, bool_decide_eq_true_2 by set_solver|].
      by rewrite lookup_insert_ne, bool_decide_eq_false_2 by set_solver.
    + by rewrite lookup_insert_ne, bool_decide_eq_false_2.
  - intros a' b'. rewrite <- H4. destruct (decide (b' = b)) as [->|Hne].
    + rewrite lookup_insert_eq. cbn. rewrite Hbm. cbn. rewrite (bool_decide_eq_true_2 (b ∈ [b])) by set_solver.
      rewrite andb_true_r. case_bool_decide as E; [subst; by rewrite lookup_insert_eq|by rewrite lookup_insert_ne].
    + rewrite lookup_insert_ne by done. rewrite (bool_decide_eq_false_2 (b' ∈ [b])) by set_solver. by rewrite andb_false_r.
Qed.

Lemma upd_cons f a b bs v a' b' : upd (upd f a [b] v) a bs v a' b' = upd f a (b :: bs) v a' b'.
Proof.
  unfold upd. destruct (bool_decide (a' = a)); [|done]. cbn [andb].
  destruct (decide (b' ∈ bs)) as [H|H]; [by rewrite !bool_decide_eq_true_2 by set_solver|].
  rewrite (bool_decide_eq_false_2 _ H). destruct (decide (b' = b)) as [->|Hne].
  - by rewrite !bool_decide_eq_true_2 by set_solver.
  - by rewrite !bool_decide_eq_false_2 by set_solver.
Qed.

Lemma set_pairs_table a bs v : ∀ fs fb rt,
  table fs fb rt → is_Some (rt_Servers rt !! a) → Forall (λ b, 0 <= b < N) bs →
  ∃ rt', set_pairs rt a bs v = Some rt' ∧ table (upd fs a bs v) (upd fb a bs v) rt'.
Proof.
  induction bs as [|b bs IH]; intros fs fb rt Ht Ha Hbs; cbn [set_pairs].
  { exists rt. split; [done|]. eapply table_ext; [done|..]; intros; unfold upd;
      rewrite (bool_decide_eq_false_2 (_ ∈ [])) by set_solver; by rewrite andb_false_r. }
  inversion Hbs as [|? ? Hb Hbs']. destruct (set_pair_table fs fb rt a b v Ht Ha Hb) as (rt1 & -> & Ht1 & Ha1).
  cbn [mbind option_bind]. destruct (IH _ _ _ Ht1 Ha1 Hbs') as (rt2 & -> & Ht2). exists rt2. split; [done|].
  eapply table_ext; [done|..]; intros; apply upd_cons.
Qed.

(** A server with its buckets. *)
Lemma server_table fs fb rt a bs v :
  table fs fb rt → Forall (λ b, 0 <= b < N) bs →
  ∃ rt', set_pairs (new_server rt a) a bs v = Some rt' ∧ table (upd (clear fs a) a bs v) (upd fb a bs v) rt'.
Proof. intros Ht Hbs. destruct (new_server_table fs fb rt a Ht) as [Ht' Ha]. by apply set_pairs_table. Qed.

Definition listed_in (servers : list RServer) (a : bytes) (b : Z) : option bool :=
  if existsb (λ s, bytes_eqb (sv_Addr s) a && bool_decide (b ∈ (Decode (sv_BucketsHex s)).1)) servers then Some true else None.

Lemma listed_in_fresh servers a b : a ∉ sv_Addr <$> servers → listed_in servers a b = None.
Proof.
  unfold listed_in. induction servers as [|s servers IH]; [done|]. cbn [fmap list_fmap existsb]. intros Ha.
  replace (bytes_eqb (sv_Addr s) a) with false by (symmetry; apply bytes_eqb_false; set_solver). cbn [andb orb]. apply IH. set_solver.
Qed.

Lemma listed_in_app ss s a b :
  listed_in (ss ++ [s]) a b = upd (listed_in ss) (sv_Addr s) (Decode (sv_BucketsHex s)).1 true a b.
Proof.
  unfold listed_in, upd. rewrite existsb_app. cbn [existsb]. rewrite orb_false_r.
  replace (bytes_eqb (sv_Addr s) a) with (bool_decide (a = sv_Addr s)) by (unfold bytes_eqb; apply bool_decide_ext; naive_solver).
  destruct (bool_decide (a = sv_Addr s) && _); [by rewrite orb_true_r|by rewrite orb_false_r].
Qed.

Lemma add_main_table servers : ∀ before rt,
  table (listed_in before) (listed_in before) rt → NoDup (sv_Addr <$> before ++ servers) →
  Forall (λ s, Forall (λ b, 0 <= b < N) (Decode (sv_BucketsHex s)).1) servers →
  ∃ rt', add_main rt servers = Some rt' ∧ table (listed_in (before ++ servers)) (listed_in (before ++ servers)) rt'.
Proof.
  induction servers as [|s servers IH]; intros before rt Ht Hnd Hbs; cbn [add_main].
  { exists rt. by rewrite app_nil_r. }
  inversion Hbs as [|? ? Hb Hbs']. destruct (server_table _ _ rt (sv_Addr s) _ true Ht Hb) as (rt1 & -> & Ht1). cbn [mbind option_bind].
  replace (before ++ s :: servers) with ((before ++ [s]) ++ servers) in * by (by rewrite <- (assoc_L app)).
  apply IH; [|done|done]. eapply table_ext; [done| |intros; by rewrite listed_in_app].
  intros a b. rewrite listed_in_app. unfold upd. destruct (_ && _) eqn:E; [done|]. unfold clear. case_bool_decide as Ea; [|done].
  subst. symmetry. apply listed_in_fresh. rewrite !fmap_app in Hnd. apply NoDup_app in Hnd as [Hnd _].
  apply NoDup_app in Hnd as (_ & Hd & _). intros Hin. apply (Hd _ Hin). cbn. set_solver.
Qed.

Lemma bucket_ids_elem n b : b ∈ bucket_ids n ↔ 0 <= b < n.
Proof.
  unfold bucket_ids. rewrite list_elem_of_fmap. setoid_rewrite elem_of_seq. split.
  - intros (i & -> & Hi). lia.
  - intros Hb. exists (Z.to_nat b). lia.
Qed.

Definition backed (f : bytes → Z → option bool) (addrs : list bytes) (a : bytes) (b : Z) : option bool :=
  if bool_decide (a ∈ addrs) then if (0 <=? b) && (b <? N) then Some false else None else f a b.

Lemma add_backup_table f addrs : ∀ before rt,
  table (backed f before) (backed f before) rt → (∀ a b, is_Some (f a b) → 0 <= b < N) →
  ∃ rt', add_backup rt addrs = Some rt' ∧ table (backed f (before ++ addrs)) (backed f (before ++ addrs)) rt'.
Proof.
  induction addrs as [|a addrs IH]; intros before rt Ht Hf; cbn [add_backup]; [exists rt; by rewrite app_nil_r|].
  rewrite (tb_yaml _ _ _ Ht). destruct (server_table _ _ rt a (bucket_ids N) false Ht) as (rt1 & -> & Ht1).
  { apply Forall_forall. intros b. by rewrite bucket_ids_elem. }
  cbn [mbind option_bind]. replace (before ++ a :: addrs) with ((before ++ [a]) ++ addrs) by (by rewrite <- (assoc_L app)).
  apply IH; [|done]. eapply table_ext; [done|..]; intros a' b'; unfold upd, clear, backed.
  all: destruct (decide (a' = a)) as [->|Hne];
    [rewrite (bool_decide_eq_true_2 (a = a)), (bool_decide_eq_true_2 (a ∈ before ++ [a])) by set_solver; cbn [andb]
    |rewrite (bool_decide_eq_false_2 (a' = a)) by done; cbn [andb];
     rewrite (bool_decide_ext (a' ∈ before ++ [a]) (a' ∈ before)) by set_solver; done].
  all: rewrite (bool_decide_ext _ _ (bucket_ids_elem N b')).
  all: destruct (Z.leb_spec 0 b'), (Z.ltb_spec b' N); cbn [andb];
    (rewrite bool_decide_eq_true_2 by lia) || (rewrite bool_decide_eq_false_2 by lia); try done.
  all: case_bool_decide; try done; destruct (f a b') as [v|] eqn:E; [|done]; exfalso; pose proof (Hf a b' ltac:(by rewrite E)); lia.
Qed.

Lemma init_table :
  0 <= N → table (listed_in []) (listed_in []) (mkRT y (list_to_map ((λ b, (b, ∅)) <$> bucket_ids N)) ∅).
Proof.
  intros HN. assert (∀ b, 0 <= b < N → (list_to_map ((λ b, (b, ∅)) <$> bucket_ids N) : gmap Z (gmap bytes bool)) !! b = Some ∅) as Hin.
  { intros b Hb. apply elem_of_list_to_map_1.
    - rewrite <- list_fmap_compose. unfold bucket_ids. rewrite <- list_fmap_compose. apply (NoDup_fmap_2 _), NoDup_seq.
    - apply list_elem_of_fmap. exists b. split; [done|]. by apply bucket_ids_elem. }
  assert (∀ b, ¬ 0 <= b < N → (list_to_map ((λ b, (b, ∅)) <$> bucket_ids N) : gmap Z (gmap bytes bool)) !! b = None) as Hout.
  { intros b Hb. apply not_elem_of_list_to_map_1. rewrite <- list_fmap_compose. intros (b' & -> & Hb')%list_elem_of_fmap.
    by apply bucket_ids_elem in Hb'. }
  split; [done| |done|]; cbn.
  - intros b. destruct (decide (0 <= b < N)) as [H|H]; [rewrite Hin by done; naive_solver|rewrite Hout by done; split; [by intros []|done]].
  - intros a b. unfold by_bucket. cbn. destruct (decide (0 <= b < N)) as [H|H]; [by rewrite Hin|by rewrite Hout].
Qed.

Lemma LoadFromYaml_table :
  NoDup (sv_Addr <$> ry_Main y) → buckets_exist y →
  ∃ rt, LoadFromYaml y = Some rt ∧ table (route_of y) (route_of y) rt.
Proof.
  intros Hnd [HN Hb]. unfold LoadFromYaml.
  destruct (add_main_table (ry_Main y) [] _ (init_table HN) Hnd Hb) as (rt1 & -> & Ht1). cbn [mbind option_bind app] in *.
  destruct (add_backup_table (listed_in (ry_Main y)) (ry_Backup y) [] rt1) as (rt & -> & Ht).
  - eapply table_ext; [done|..]; intros; unfold backed; by rewrite bool_decide_eq_false_2 by set_solver.
  - intros a b [v Hv]. unfold listed_in in Hv. destruct (existsb _ _) eqn:E; [|done].
    apply existsb_exists in E as (s & Hs%list_elem_of_In & [_ E]%andb_true_iff). apply bool_decide_eq_true in E.
    rewrite Forall_forall in Hb. specialize (Hb s Hs). rewrite Forall_forall in Hb. by apply Hb.
  - exists rt. split; [done|]. eapply table_ext; [done|..]; done.
Qed.
End Tables.

(** ** The configuration of a server *)

Lemma set_stats_ok bs : ∀ stat,
  Forall (λ b, 0 <= b < zlen stat) bs →
  ∃ stat', set_stats stat bs = Some stat' ∧ length stat' = length stat
    ∧ ∀ b, zget stat' b = if bool_decide (b ∈ bs) then Some 1 else zget stat b.
Proof.
  induction bs as [|b bs IH]; intros stat Hbs; cbn [set_stats]; [by exists stat|].
  inversion Hbs as [|? ? Hb Hbs']; subst. unfold zset. destruct Hb as [H0 Hb].
  rewrite (proj2 (Z.leb_le _ _)), (proj2 (Z.ltb_lt _ _)) by lia. cbn [andb mbind option_bind].
  destruct (IH (<[Z.to_nat b := 1]> stat)) as (stat' & -> & Hl & Hg).
  { eapply Forall_impl; [exact Hbs'|]. intros x. unfold zlen. by rewrite length_insert. }
  rewrite length_insert in Hl. exists stat'. split; [done|]. split; [done|]. intros b'. rewrite Hg.
  destruct (decide (b' ∈ bs)) as [Hin|Hin]; [by rewrite !bool_decide_eq_true_2 by set_solver|].
  rewrite (bool_decide_eq_false_2 _ Hin). destruct (decide (b' = b)) as [->|Hne].
  - rewrite bool_decide_eq_true_2 by set_solver. apply zget_Some. split; [done|].
    apply list_lookup_insert_eq. unfold zlen in Hb. lia.
  - rewrite bool_decide_eq_false_2 by set_solver. unfold zget. destruct (Z.ltb_spec b' 0); [done|].
    apply list_lookup_insert_ne. lia.
Qed.

(** A server has status 1 for the buckets that the table by server has for it. *)
Lemma set_stats_get bs : ∀ stat stat',
  set_stats stat bs = Some stat' →
  length stat' = length stat ∧ ∀ b, zget stat' b = if bool_decide (b ∈ bs) then Some 1 else zget stat b.
Proof.
  intros stat stat' Hs. destruct (set_stats_ok bs stat) as (s' & Hs' & Hl & Hg); [|by rewrite Hs in Hs'; simplify_eq].
  revert stat Hs. induction bs as [|b bs IH]; intros stat Hs; cbn [set_stats] in Hs; [done|]. unfold zset in Hs.
  destruct (Z.leb_spec 0 b), (Z.ltb_spec b (zlen stat)); cbn [andb mbind option_bind] in Hs; try done. constructor; [done|].
  apply IH in Hs. unfold zlen in *. by rewrite length_insert in Hs.
Qed.

Lemma GetDBRouteConfig_served order rt a r :
  (∀ m, order m ≡ₚ (map_to_list m).*1) → GetDBRouteConfig order rt a = Some r →
  rc_NumBucket r = ry_NumBucket (rt_yaml rt) ∧ zlen (rc_BucketsStat r) = rc_NumBucket r
  ∧ ∀ b, 0 <= b < rc_NumBucket r → zget (rc_BucketsStat r) b = Some (if by_server rt a b then 1 else 0).
Proof.
  intros Hord. unfold GetDBRouteConfig. destruct (Z.ltb_spec (ry_NumBucket (rt_yaml rt)) 0) as [|HN]; [done|]. unfold by_server.
  assert (∀ b, 0 <= b < ry_NumBucket (rt_yaml rt) → zget (replicate (Z.to_nat (ry_NumBucket (rt_yaml rt))) 0) b = Some 0) as Hz.
  { intros b Hb. apply zget_Some. split; [lia|]. apply lookup_replicate. lia. }
  destruct (rt_Servers rt !! a) as [bm|].
  2:{ intros [= <-]. cbn [rc_NumBucket rc_BucketsStat]. unfold zlen. rewrite length_replicate. split; [done|]. split; [lia|exact Hz]. }
  destruct (set_stats _ _) as [stat|] eqn:Hs; [|done]. intros [= <-]. cbn [rc_NumBucket rc_BucketsStat mbind option_bind].
  destruct (set_stats_get _ _ _ Hs) as [Hl Hg]. unfold zlen. rewrite Hl, length_replicate. split; [done|]. split; [lia|].
  intros b Hb. rewrite Hg, (bool_decide_ext _ (is_Some (bm !! b))).
  - cbn. destruct (bm !! b) as [v|]; [by rewrite bool_decide_eq_true_2|]. rewrite bool_decide_eq_false_2 by (by intros []). by apply Hz.
  - rewrite (Hord bm), list_elem_of_fmap. split.
    + intros ([b' v] & -> & Hv%elem_of_map_to_list). by exists v.
    + intros [v Hv]. exists (b, v). split; [done|]. by apply elem_of_map_to_list.
Qed.

#[export] Instance num_err_eq_dec : EqDecision num_err.
Proof. solve_decision. Defined.

(** The texts of the bucket numbers are read back. *)
Lemma ParseInt_BucketIDHex n b : n = 16 ∨ n = 256 → 0 <= b < n → ParseInt (BucketIDHex b n) 16 16 = (b, None).
Proof.
  assert (∀ m, forallb (λ b, bool_decide (ParseInt (BucketIDHex b m) 16 16 = (b, None))) (bucket_ids m) = true →
    0 <= b < m → ParseInt (BucketIDHex b m) 16 16 = (b, None)) as H.
  { intros m Hm Hb. rewrite forallb_forall in Hm. specialize (Hm b). rewrite bool_decide_eq_true in Hm.
    apply Hm, list_elem_of_In. by apply bucket_ids_elem. }
  intros [-> | ->]; apply H; by vm_compute.
Qed.

Lemma Decode_BucketIDHex n bs :
  n = 16 ∨ n = 256 → Forall (λ b, 0 <= b < n) bs → Decode ((λ b, BucketIDHex b n) <$> bs) = (bs, None).
Proof.
  intros Hn. induction 1 as [|b bs Hb _ IH]; [done|]. cbn [fmap list_fmap Decode].
  rewrite ParseInt_BucketIDHex by done. by rewrite IH.
Qed.

(** What a server takes from a table. *)
Lemma GetDBRouteConfig_ok order y rt a :
  (∀ m, order m ≡ₚ (map_to_list m).*1) → 0 <= ry_NumBucket y → table y (route_of y) (route_of y) rt →
  ∃ r, GetDBRouteConfig order rt a = Some r ∧ rc_NumBucket r = ry_NumBucket y
    ∧ zlen (rc_BucketsStat r) = ry_NumBucket y
    ∧ (∀ b, 0 <= b < ry_NumBucket y →
         zget (rc_BucketsStat r) b = Some (if route_of y a b then 1 else 0))
    ∧ (ry_NumBucket y = 16 ∨ ry_NumBucket y = 256 →
         ∃ bs, Decode (rc_BucketsHex r) = (bs, None) ∧ ∀ b, b ∈ bs ↔ is_Some (route_of y a b)).
Proof.
  intros Hord HN [H1 H2 H3 H4]. unfold GetDBRouteConfig. rewrite H1. rewrite (proj2 (Z.ltb_ge _ _)) by lia.
  assert (∀ b, zget (replicate (Z.to_nat (ry_NumBucket y)) 0) b = if decide (0 <= b < ry_NumBucket y) then Some 0 else None) as Hz.
  { intros b. unfold zget. destruct (Z.ltb_spec b 0); [by rewrite decide_False by lia|]. case_decide.
    - rewrite lookup_replicate_2 by lia. done.
    - apply lookup_replicate_None. lia. }
  destruct (rt_Servers rt !! a) as [bm|] eqn:Ha.
  2: { assert (∀ b, route_of y a b = None) as Hn by (intros b; rewrite <- H3; unfold by_server; by rewrite Ha).
    eexists. split; [done|]. split; [done|]. cbn [rc_BucketsStat rc_BucketsHex]. split_and!.
    - unfold zlen. rewrite length_replicate. lia.
    - intros b Hb. rewrite Hz, Hn. by rewrite decide_True by lia.
    - intros _. exists []. split; [done|]. intros b. rewrite Hn. split; [set_solver|by intros []]. }
  assert (∀ b, b ∈ order bm ↔ is_Some (route_of y a b)) as Hin.
  { intros b. rewrite (Hord bm), <- H3. unfold by_server. rewrite Ha. cbn. rewrite list_elem_of_fmap. split.
    - intros ([b' v] & -> & Hv%elem_of_map_to_list). by exists v.
    - intros [v Hv]. exists (b, v). split; [done|]. by apply elem_of_map_to_list. }
  assert (Forall (λ b, 0 <= b < ry_NumBucket y) (order bm)) as Hrange.
  { apply Forall_forall. intros b Hb%Hin. apply H2. rewrite <- H4 in Hb. unfold by_bucket in Hb.
    destruct (rt_Buckets rt !! b); [done|]. by destruct Hb. }
  destruct (set_stats_ok (order bm) (replicate (Z.to_nat (ry_NumBucket y)) 0)) as (stat & -> & Hl & Hg).
  { eapply Forall_impl; [exact Hrange|]. intros b. unfold zlen. rewrite length_replicate. lia. }
  cbn [mbind option_bind]. eexists. split; [done|]. split; [done|]. cbn [rc_BucketsStat rc_BucketsHex]. split_and!.
  - unfold zlen. rewrite Hl, length_replicate. lia.
  - intros b Hb. rewrite Hg, Hz, (decide_True _ _ Hb). case_bool_decide as E; [apply Hin in E as [v ->]; done|].
    rewrite Hin in E. destruct (route_of y a b); [|done]. by destruct E.
  - intros Hn. exists (order bm). split; [by apply Decode_BucketIDHex|done].
Qed.

(** C21. Loading a route table whose main servers are distinct and list buckets that exist
    ends without a panic, and the table by server and the table by bucket say the same of
    every pair, namely what the file says. The configuration a server takes from it has a
    status for every bucket, 1 exactly for the buckets the table gives the server, and with
    16 or 256 buckets the texts of their numbers decode to the same buckets. *)
Theorem route_table_consistent order y :
  (∀ m, order m ≡ₚ (map_to_list m).*1) → NoDup (sv_Addr <$> ry_Main y) → buckets_exist y →
  ∃ rt, LoadFromYaml y = Some rt
    ∧ (∀ a b, by_server rt a b = route_of y a b ∧ by_bucket rt a b = route_of y a b)
    ∧ ∀ a, ∃ r, GetDBRouteConfig order rt a = Some r
        ∧ zlen (rc_BucketsStat r) = ry_NumBucket y
        ∧ (∀ b, 0 <= b < ry_NumBucket y →
             zget (rc_BucketsStat r) b = Some (if route_of y a b then 1 else 0))
        ∧ (ry_NumBucket y = 16 ∨ ry_NumBucket y = 256 →
             ∃ bs, Decode (rc_BucketsHex r) = (bs, None) ∧ ∀ b, b ∈ bs ↔ is_Some (route_of y a b)).
Proof.
  intros Hord Hnd Hex. destruct (LoadFromYaml_table y Hnd Hex) as (rt & Hrt & Ht). exists rt. split; [done|].
  split; [intros a b; split; apply Ht|]. intros a.
  destruct (GetDBRouteConfig_ok order y rt a Hord (proj1 Hex) Ht) as (r & Hr & _ & H). by exists r.
Qed.

Definition demo_routes : RouteYaml :=
  mkYaml 16 [mkServer (bstr "a:7900") [bstr "0"; bstr "f"]; mkServer (bstr "b:7900") [bstr "f"]] [bstr "c:7900"].

Lemma route_table_consistent_witness :
  ∃ rt, LoadFromYaml demo_routes = Some rt ∧ by_bucket rt (bstr "a:7900") 15 = Some true
    ∧ by_bucket rt (bstr "c:7900") 15 = Some false
    ∧ ∃ r, GetDBRouteConfig (λ m, (map_to_list m).*1) rt (bstr "b:7900") = Some r ∧ zget (rc_BucketsStat r) 15 = Some 1.
Proof.
  destruct (route_table_consistent (λ m, (map_to_list m).*1) demo_routes) as (rt & Hrt & Hp & Hc).
  - intros m. reflexivity.
  - apply (bool_decide_unpack _). by vm_compute.
  - split; [by vm_compute|].
    apply (bool_decide_unpack (Forall (λ s, Forall (λ b, 0 <= b < 16) (Decode (sv_BucketsHex s)).1) (ry_Main demo_routes))). by vm_compute.
  - assert (route_of demo_routes (bstr "a:7900") 15 = Some true) as Ea by (vm_compute; reflexivity).
    assert (route_of demo_routes (bstr "c:7900") 15 = Some false) as Ec by (vm_compute; reflexivity).
    assert (route_of demo_routes (bstr "b:7900") 15 = Some true) as Eb by (vm_compute; reflexivity).
    destruct (Hc (bstr "b:7900")) as (r & Hr & _ & Hs & _). specialize (Hs 15 ltac:(cbn; lia)). rewrite Eb in Hs.
    exists rt. split; [exact Hrt|]. split; [exact (eq_trans (proj2 (Hp _ _)) Ea)|]. split; [exact (eq_trans (proj2 (Hp _ _)) Ec)|].
    exists r. split; [exact Hr|exact Hs].
Defined.

(** A bucket text that is no number is not reported: the server is given bucket 0. *)
Example bad_hex_serves_bucket_0 :
  (rt ← LoadFromYaml (mkYaml 16 [mkServer (bstr "a:7900") [bstr "3"; bstr "x"]] []); Some (by_server rt (bstr "a:7900") 0))
  = Some (Some true).
Proof. by vm_compute. Qed.

(** A server listed twice keeps the buckets of its last entry only, while the buckets
    still name it for the first. *)
Example listed_twice_differs :
  (rt ← LoadFromYaml (mkYaml 16 [mkServer (bstr "a") [bstr "3"]; mkServer (bstr "a") [bstr "4"]] []);
   Some (by_server rt (bstr "a") 3, by_bucket rt (bstr "a") 3)) = Some (None, Some true).
Proof. by vm_compute. Qed.
