(* ===== verification/RouteSource.v ===== *)
(** * Where routes come from (src/config/zk.go, route.go and src/gobeansdb/config.go)

    The route table is read from ZooKeeper, with a copy kept in a local file that a start
    without ZooKeeper uses. The ZooKeeper client and the YAML package are arguments.
    [None] is a run-time panic or a fatal error. *)

From stdpp Require Import gmap.
From S2P Require Import Prelude Strconv Config Routes.

Inductive RouteErr := ErrZk (e : bytes) | ErrVersion (e : num_err) | ErrYaml | ErrNoFile.

(** [fmt.Sprintf("%010d", n)]. *)
Definition fmt_010d (n : Z) : bytes :=
  if n <? 0 then 45 :: pad0 9 (fmt_uint 10 (- n)) else pad0 10 (fmt_uint 10 n).

(** [Addr] of server_config.go. *)
Definition server_Addr (hostname : bytes) (port : Z) : bytes := hostname ++ bstr ":" ++ Itoa port.

Section Source.
(** [Conn.Get] of the ZooKeeper client, and what the YAML package decodes. *)
Context (zk_get : bytes → bytes + bytes) (decode : bytes → option RouteYaml).

Definition zk_Get (root subPath : bytes) : bytes + bytes := zk_get (root ++ bstr "/" ++ subPath).

(** [GetRouteRaw]: the data, the version and the error. An error leaves the version
    it has got so far, 0 when it has none. *)
Definition GetRouteRaw (root : bytes) (version : Z) : bytes * Z * option RouteErr :=
  let read ver :=
    match zk_Get root (bstr "route/route_" ++ fmt_010d ver) with
    | inl data => (data, ver, None)
    | inr e => ([], ver, Some (ErrZk e))
    end in
  if version <? 0 then
    match zk_Get root (bstr "route") with
    | inr e => ([], 0, Some (ErrZk e))
    | inl data =>
        match ParseInt data 10 0 with
        | (ver, Some e) => (data, ver, Some (ErrVersion e))
        | (ver, None) => read ver
        end
    end
  else read version.

(** [UpdateLocalRoute] writes over the file from its start; it does not cut it off. *)
Definition UpdateLocalRoute (file : option bytes) (content : bytes) : bytes :=
  content ++ drop (length content) (default [] file).

(** [LoadFromYaml] with the decoding. *)
Definition load_yaml (data : bytes) : option (RouteTable + RouteErr) :=
  match decode data with
  | None => Some (inr ErrYaml)
  | Some y => rt ← LoadFromYaml y; Some (inl rt)
  end.

Definition LoadRouteTableLocal (file : option bytes) : option (RouteTable + RouteErr) :=
  match file with None => Some (inr ErrNoFile) | Some data => load_yaml data end.

(** [LoadRouteTableZK]: the table and its version, and the local file after it;
    [connected] is whether [NewZK] succeeded. *)
Definition LoadRouteTableZK (connected : bool) (root : bytes) (file : option bytes)
    : option (((RouteTable * Z) + RouteErr) * option bytes) :=
  if negb connected then Some (inr (ErrZk []), file)
  else
    match GetRouteRaw root (-1) with
    | (_, _, Some e) => Some (inr e, file)
    | (data, ver, None) =>
        res ← load_yaml data;
        match res with
        | inr e => Some (inr e, file)
        | inl rt => Some (inl (rt, ver), Some (UpdateLocalRoute file data))
        end
    end.

(** The part of [DBConfig.Load] that finds the routes: ZooKeeper when there are servers,
    then the local file. *)
Definition load_route (servers : nat) (connected : bool) (root : bytes) (file : option bytes)
    : option (RouteTable * option Z * option bytes) :=
  '(zk, file) ← (if (0 <? servers)%nat then '(res, file) ← LoadRouteTableZK connected root file; Some (Some res, file)
                 else Some (None, file));
  match zk with
  | Some (inl (rt, ver)) => Some (rt, Some ver, file)
  | _ =>
      res ← LoadRouteTableLocal file;
      match res with inl rt => Some (rt, None, file) | inr _ => None end
  end.

(** The table comes from a text that was decoded. *)
Lemma load_route_text servers connected root file rt ver file' :
  load_route servers connected root file = Some (rt, ver, file') → ∃ data, load_yaml data = Some (inl rt).
Proof.
  unfold load_route. destruct (if (0 <? servers)%nat then _ else _) as [[zk f]|] eqn:Hzk; [|done]. cbn [mbind option_bind].
  assert ((x ← LoadRouteTableLocal f; match x with inl t => Some (t, None, f) | inr _ => None end) = Some (rt, ver, file') →
    ∃ data, load_yaml data = Some (inl rt)) as Hlocal.
  { destruct f as [data|]; cbn [LoadRouteTableLocal mbind option_bind]; [|done]. destruct (load_yaml data) as [[t|]|] eqn:Hy; [|done|done].
    intros [= <- _ _]. by exists data. }
  destruct zk as [[[t v]|e]|]; [|exact Hlocal|exact Hlocal]. intros [= <- _ _].
  destruct (0 <? servers)%nat; [|done]. destruct (LoadRouteTableZK connected root file) as [[res f']|] eqn:Hl; [|done].
  cbn [mbind option_bind] in Hzk. injection Hzk as -> _. unfold LoadRouteTableZK in Hl. destruct connected; cbn [negb] in Hl; [|done].
  destruct (GetRouteRaw root (-1)) as [[data v'] [e|]]; [done|]. destruct (load_yaml data) as [[t'|]|] eqn:Hy; [|done|done].
  cbn [mbind option_bind] in Hl. injection Hl as <- _ _. by exists data.
Qed.

Lemma UpdateLocalRoute_exact file content :
  UpdateLocalRoute file content = content ↔ (length (default [] file) <= length content)%nat.
Proof.
  unfold UpdateLocalRoute. split; intros H.
  - apply (f_equal length) in H. rewrite length_app, length_drop in H. lia.
  - by rewrite drop_ge, app_nil_r by lia.
Qed.

(** C25. A server that has read its routes from ZooKeeper, and whose local copy was not
    longer than the new table, starts with the same routes when ZooKeeper is gone. *)
Theorem route_cached_locally servers connected root file rt ver file' :
  load_route servers connected root file = Some (rt, Some ver, file') →
  (∀ data, GetRouteRaw root (-1) = (data, ver, None) → (length (default [] file) <= length data)%nat) →
  load_route servers false root file' = Some (rt, None, file').
Proof.
  unfold load_route, LoadRouteTableZK. destruct (0 <? servers)%nat.
  2:{ cbn [mbind option_bind]. destruct (LoadRouteTableLocal file) as [[|]|]; done. }
  destruct connected; cbn [negb].
  2:{ cbn [mbind option_bind]. destruct (LoadRouteTableLocal file) as [[|]|]; done. }
  destruct (GetRouteRaw root (-1)) as [[data v] [e|]] eqn:Hraw.
  { cbn [mbind option_bind]. destruct (LoadRouteTableLocal file) as [[|]|]; done. }
  destruct (load_yaml data) as [[t|e]|] eqn:Hy; cbn [mbind option_bind]; [|destruct (LoadRouteTableLocal file) as [[|]|]; done|done].
  intros [= <- <- <-] Hlen. specialize (Hlen data eq_refl). apply UpdateLocalRoute_exact in Hlen.
  cbn [mbind option_bind LoadRouteTableLocal]. by rewrite Hlen, Hy.
Qed.

End Source.

(** ** Concrete sources *)

Definition demo_zk (path : bytes) : bytes + bytes :=
  if bytes_eqb path (bstr "/beansdb/route") then inl (bstr "12")
  else if bytes_eqb path (bstr "/beansdb/route/route_0000000012") then inl (bstr "routes")
  else inr (bstr "no node").
Definition demo_decode (data : bytes) : option RouteYaml :=
  if bytes_eqb data (bstr "routes") then Some demo_routes else None.

Lemma route_cached_locally_witness :
  ∃ rt, load_route demo_zk demo_decode 1 true (bstr "/beansdb") (Some (bstr "old")) = Some (rt, Some 12, Some (bstr "routes"))
    ∧ load_route demo_zk demo_decode 1 false (bstr "/beansdb") (Some (bstr "routes")) = Some (rt, None, Some (bstr "routes")).
Proof.
  destruct (load_route demo_zk demo_decode 1 true (bstr "/beansdb") (Some (bstr "old"))) as [[[rt ver] file]|] eqn:H.
  - assert (ver = Some 12 ∧ file = Some (bstr "routes")) as [-> ->].
    { vm_compute in H. injection H as _ <- <-. split; reflexivity. }
    exists rt. split; [reflexivity|].
    apply (route_cached_locally demo_zk demo_decode 1 true (bstr "/beansdb") (Some (bstr "old")) rt 12 (Some (bstr "routes")) H).
    intros data Hd. vm_compute in Hd. injection Hd as <-. cbn. lia.
  - vm_compute in H. discriminate H.
Defined.

(** A table that is shorter than the one in the file leaves the end of the old one behind. *)
Example short_route_keeps_tail : UpdateLocalRoute (Some (bstr "old routes")) (bstr "new") = bstr "new routes".
Proof. reflexivity. Qed.
