(* ===== verification/Disk.v ===== *)
(** * Directory listings (src/utils/disk.go)

    [Dir] is a set of file names with sizes, compared against the files of a directory;
    a size of -1 stands for any. The entries [Readdir] gives are an argument. *)

From stdpp Require Import gmap sorting.
From S2P Require Import Prelude.

Record File := mkFile { f_Name : bytes; f_Size : Z }.
#[export] Instance File_eq_dec : EqDecision File.
Proof. solve_decision. Defined.

Definition isSame (f f2 : File) : bool :=
  if negb (bytes_eqb (f_Name f) (f_Name f2)) then false
  else (f_Size f =? -1) || (f_Size f2 =? -1) || (f_Size f =? f_Size f2).

(** The map [Files] of a [Dir]. *)
Abbreviation Dir := (gmap bytes Z).

Definition NewDir : Dir := ∅.
Definition dir_Set (d : Dir) (name : bytes) (size : Z) : Dir := <[name := size]> d.
Definition SetMulti (d : Dir) (files : Dir) : Dir := files ∪ d.
Definition SetMultiNoSize (d : Dir) (files : list bytes) : Dir := foldl (λ d name, <[name := -1]> d) d files.
Definition dir_Delete (d : Dir) (name : bytes) : Dir := delete name d.

(** [FileList.Less], and the order of [sort.Sort] by it. *)
Definition Less (f g : File) : bool := bytes_ltb (f_Name f) (f_Name g).
Definition not_after (f g : File) : Prop := Less g f = false.
#[export] Instance not_after_dec : RelDecision not_after.
Proof. intros f g. unfold not_after. apply _. Defined.

Definition ToSlice (d : Dir) : list File := merge_sort not_after ((λ kv, mkFile kv.1 kv.2) <$> map_to_list d).

(** The loop of [Diff] over what is left of the two slices. *)
Fixpoint diff_from (s : list File) : list File → list File * list File :=
  fix go (s2 : list File) : list File * list File :=
    match s, s2 with
    | [], _ => ([], s2)
    | _, [] => (s, [])
    | f :: s', f2 :: s2' =>
        if isSame f f2 then diff_from s' s2'
        else if Less f f2 then let '(r1, r2) := diff_from s' s2 in (f :: r1, r2)
        else if Less f2 f then let '(r1, r2) := go s2' in (r1, f2 :: r2)
        else let '(r1, r2) := diff_from s' s2' in (f :: r1, f2 :: r2)
    end.
Definition Diff (d d2 : Dir) : list File * list File := diff_from (ToSlice d) (ToSlice d2).

(** [Load] adds the entries of a directory; [CheckPath] compares with a directory that may
    fail to open or to be read. *)
Definition Load (d : Dir) (entries : list (bytes * Z)) : Dir := foldl (λ d e, <[e.1 := e.2]> d) d entries.
Definition CheckPath (d : Dir) (entries : option (list (bytes * Z))) : Dir * list File * list File * bool :=
  match entries with
  | None => (NewDir, [], [], true)
  | Some es => let d2 := Load NewDir es in let '(r1, r2) := Diff d d2 in (d2, r1, r2, false)
  end.

(** [DirUsage]: -1 when the directory does not open, otherwise the sum of the sizes. *)
Definition DirUsage (entries : option (list (bytes * Z))) : Z :=
  match entries with None => -1 | Some es => foldl (λ size e, i64 (size + e.2)) 0 es end.

(** ** Slices *)

#[local] Instance not_after_trans : Transitive not_after.
Proof.
  intros f g h Hfg Hgh. unfold not_after, Less in *. destruct (bytes_ltb (f_Name h) (f_Name f)) eqn:Hhf; [|done].
  destruct (bytes_ltb (f_Name f) (f_Name g)) eqn:H.
  - by rewrite (bytes_ltb_trans _ _ _ Hhf H) in Hgh.
  - by rewrite (bytes_ltb_total _ _ H Hfg) in Hhf; rewrite Hhf in Hgh.
Qed.
#[local] Instance not_after_total : Total not_after.
Proof.
  intros f g. unfold not_after, Less. destruct (bytes_ltb (f_Name g) (f_Name f)) eqn:H; [|by left].
  right. destruct (bytes_ltb (f_Name f) (f_Name g)) eqn:H2; [|done].
  pose proof (bytes_ltb_trans _ _ _ H H2) as Hx. by rewrite bytes_ltb_irrefl in Hx.
Qed.

Lemma ToSlice_elem d f : f ∈ ToSlice d ↔ d !! f_Name f = Some (f_Size f).
Proof.
  unfold ToSlice. rewrite merge_sort_Permutation, list_elem_of_fmap. split.
  - intros ([k v] & -> & Hin). by apply elem_of_map_to_list in Hin.
  - intros H. exists (f_Name f, f_Size f). split; [by destruct f|]. by apply elem_of_map_to_list.
Qed.

(** The names of a slice go strictly up. *)
Definition ascending (s : list File) : Prop := StronglySorted (λ f g, Less f g = true) s.

Lemma ToSlice_ascending d : ascending (ToSlice d).
Proof.
  assert (StronglySorted not_after (ToSlice d)) as Hs by (apply (StronglySorted_merge_sort not_after)).
  assert (NoDup (f_Name <$> ToSlice d)) as Hn.
  { unfold ToSlice. rewrite merge_sort_Permutation, <- list_fmap_compose. apply NoDup_fst_map_to_list. }
  unfold ascending. revert Hs Hn. generalize (ToSlice d). intros s Hs. induction Hs as [|f s Hs IH Hf]; intros Hn; [constructor|].
  apply NoDup_cons in Hn as [Hni Hn]. constructor; [by apply IH|]. rewrite Forall_forall in *. intros g Hg. unfold Less.
  destruct (bytes_ltb (f_Name f) (f_Name g)) eqn:H; [done|]. exfalso. apply Hni.
  rewrite (bytes_ltb_total _ _ H (Hf g Hg)). by apply list_elem_of_fmap_2.
Qed.

(** ** Differences *)

(** No file of [s] is the same as [f]. *)
Definition differs (s : list File) (f : File) : Prop := Forall (λ g, isSame f g = false) s.

Lemma bytes_eqb_spec a b : reflect (a = b) (bytes_eqb a b).
Proof. apply bool_decide_reflect. Qed.
Lemma bytes_eqb_refl a : bytes_eqb a a = true.
Proof. by apply bytes_eqb_true. Qed.

Lemma isSame_comm f g : isSame f g = isSame g f.
Proof.
  unfold isSame. destruct (bytes_eqb_spec (f_Name f) (f_Name g)) as [->|Hne].
  - rewrite bytes_eqb_refl. cbn. by rewrite (orb_comm (f_Size f =? -1)), (Z.eqb_sym (f_Size f) (f_Size g)).
  - destruct (bytes_eqb_spec (f_Name g) (f_Name f)) as [|]; [congruence|done].
Qed.
Lemma Less_not_same f g : Less f g = true → isSame f g = false.
Proof.
  unfold Less, isSame. destruct (bytes_eqb_spec (f_Name f) (f_Name g)) as [->|]; [|done]. by rewrite bytes_ltb_irrefl.
Qed.
Lemma Less_trans f g h : Less f g = true → Less g h = true → Less f h = true.
Proof. apply bytes_ltb_trans. Qed.
Lemma same_Less f g h : isSame f g = true → Less g h = Less f h.
Proof. unfold isSame, Less. destruct (bytes_eqb_spec (f_Name f) (f_Name g)) as [->|]; done. Qed.

(** What comes before a slice is in none of it. *)
Lemma before_differs f s : Forall (λ g, Less f g = true) s → differs s f.
Proof. intros H. eapply Forall_impl; [exact H|]. intros g. apply Less_not_same. Qed.
Lemma before_trans f g s : Less f g = true → Forall (λ h, Less g h = true) s → Forall (λ h, Less f h = true) s.
Proof. intros Hfg H. eapply Forall_impl; [exact H|]. intros h. by apply Less_trans. Qed.

(** The files of [s] that are in [r] are those that differ from all of [s2]. *)
Definition missing (r s s2 : list File) : Prop := sublist r s ∧ ∀ f, f ∈ r ↔ f ∈ s ∧ differs s2 f.

Lemma missing_refl s : missing s s [].
Proof. split; [done|]. intros f. unfold differs. rewrite Forall_nil. tauto. Qed.
Lemma missing_nil s2 : missing [] [] s2.
Proof. split; [done|]. intros f. set_solver. Qed.
(** [f] is kept, or is found in [s2]. *)
Lemma missing_keep f r s s2 : differs s2 f → missing r s s2 → missing (f :: r) (f :: s) s2.
Proof. intros Hf [Hs Hr]. split; [by apply sublist_skip|]. intros g. rewrite !elem_of_cons, Hr. naive_solver. Qed.
Lemma missing_drop f g r s s2 : g ∈ s2 → isSame f g = true → missing r s s2 → missing r (f :: s) s2.
Proof.
  intros Hg Hfg [Hs Hr]. split; [by apply sublist_cons|]. intros h. rewrite elem_of_cons, Hr. split; [naive_solver|].
  intros [[->|Hh] Hd]; [|done]. unfold differs in Hd. rewrite Forall_forall in Hd. rewrite (Hd g Hg) in Hfg. done.
Qed.
(** A file of [s2] that comes before all of [s], or is like the first of what came
    before it, changes nothing. *)
Lemma missing_more g r s s2 : Forall (λ f, Less g f = true) s → missing r s s2 → missing r s (g :: s2).
Proof.
  intros Hg [Hs Hr]. split; [done|]. intros f. rewrite Hr. unfold differs. rewrite Forall_cons. rewrite Forall_forall in Hg.
  split; [|naive_solver]. intros [Hf Hd]. split; [done|]. split; [|done]. rewrite isSame_comm. by apply Less_not_same, Hg.
Qed.

Lemma diff_from_cons f s f2 s2 :
  diff_from (f :: s) (f2 :: s2) =
  if isSame f f2 then diff_from s s2
  else if Less f f2 then let '(r1, r2) := diff_from s (f2 :: s2) in (f :: r1, r2)
  else if Less f2 f then let '(r1, r2) := diff_from (f :: s) s2 in (r1, f2 :: r2)
  else let '(r1, r2) := diff_from s s2 in (f :: r1, f2 :: r2).
Proof. reflexivity. Qed.

Lemma diff_from_spec s : ∀ s2, ascending s → ascending s2 →
  missing (diff_from s s2).1 s s2 ∧ missing (diff_from s s2).2 s2 s.
Proof.
  induction s as [|f s IH].
  { intros [|f2 s2] _ _; (split; [apply missing_nil|apply missing_refl]). }
  induction s2 as [|f2 s2 IH2]; intros Hs Hs2; [split; [apply missing_refl|apply missing_nil]|].
  apply StronglySorted_inv in Hs as [Hs Hf]. apply StronglySorted_inv in Hs2 as [Hs2 Hf2].
  rewrite diff_from_cons. destruct (isSame f f2) eqn:Hsame.
  { destruct (IH s2 Hs Hs2) as [H1 H2]. split.
    - apply (missing_drop _ f2); [set_solver|done|]. apply missing_more; [|done].
      eapply Forall_impl; [exact Hf|]. intros g. cbn beta. by rewrite (same_Less _ _ _ Hsame).
    - apply (missing_drop _ f); [set_solver|by rewrite isSame_comm|]. apply missing_more; [|done].
      eapply Forall_impl; [exact Hf2|]. intros g. cbn beta. by rewrite (same_Less _ _ _ Hsame). }
  destruct (Less f f2) eqn:Hlt.
  { destruct (IH (f2 :: s2) Hs) as [H1 H2]; [by constructor|]. destruct (diff_from s (f2 :: s2)) as [r1 r2]. split.
    - apply missing_keep; [|done]. apply before_differs. constructor; [done|]. by apply (before_trans _ f2).
    - apply missing_more; [|done]. constructor; [done|]. by apply (before_trans _ f2). }
  destruct (Less f2 f) eqn:Hgt.
  { destruct (IH2) as [H1 H2]; [by constructor|done|]. destruct (diff_from (f :: s) s2) as [r1 r2]. split.
    - apply missing_more; [|done]. constructor; [done|]. by apply (before_trans _ f).
    - apply missing_keep; [|done]. apply before_differs. constructor; [done|]. by apply (before_trans _ f). }
  assert (f_Name f = f_Name f2) as Hname by (by apply bytes_ltb_total).
  destruct (IH s2 Hs Hs2) as [H1 H2]. destruct (diff_from s s2) as [r1 r2]. split.
  - apply missing_keep; [constructor; [done|]|apply missing_more; [|done]].
    + apply before_differs. eapply Forall_impl; [exact Hf2|]. intros g. unfold Less. by rewrite Hname.
    + eapply Forall_impl; [exact Hf|]. intros g. unfold Less. by rewrite Hname.
  - apply missing_keep; [constructor; [by rewrite isSame_comm|]|apply missing_more; [|done]].
    + apply before_differs. eapply Forall_impl; [exact Hf|]. intros g. unfold Less. by rewrite Hname.
    + eapply Forall_impl; [exact Hf2|]. intros g. unfold Less. by rewrite Hname.
Qed.

Lemma ascending_sublist r s : sublist r s → ascending s → ascending r.
Proof.
  unfold ascending. induction 1 as [|f r s Hrs IH|f r s Hrs IH]; intros Hs; [constructor|..];
    apply StronglySorted_inv in Hs as [Hs Hf]; [|by apply IH].
  constructor; [by apply IH|]. rewrite Forall_forall in *. intros g Hg. by eapply Hf, elem_of_submseteq, sublist_submseteq.
Qed.

(** [Diff] lists exactly the files of one directory that the other does not have with
    the same size, a size of -1 matching every size; both lists are in the order of the
    names, and no file is listed twice. *)
Theorem diff_spec d d2 :
  let agree f (e : Dir) := ∃ size, e !! f_Name f = Some size ∧ (f_Size f = -1 ∨ size = -1 ∨ f_Size f = size) in
  (∀ f, f ∈ (Diff d d2).1 ↔ d !! f_Name f = Some (f_Size f) ∧ ¬ agree f d2)
  ∧ (∀ f, f ∈ (Diff d d2).2 ↔ d2 !! f_Name f = Some (f_Size f) ∧ ¬ agree f d)
  ∧ ascending (Diff d d2).1 ∧ ascending (Diff d d2).2.
Proof.
  intros agree. destruct (diff_from_spec (ToSlice d) (ToSlice d2)) as [[Hs1 H1] [Hs2 H2]]; [apply ToSlice_ascending..|].
  assert (∀ f (e : Dir), differs (ToSlice e) f ↔ ¬ agree f e) as Hd.
  { intros f e. unfold differs, agree. rewrite Forall_forall. setoid_rewrite ToSlice_elem. split.
    - intros H (size & He & Hsz). specialize (H (mkFile (f_Name f) size) He). unfold isSame in H. rewrite bytes_eqb_refl in H. cbn in H. lia.
    - intros H g Hg. unfold isSame. destruct (bytes_eqb_spec (f_Name f) (f_Name g)) as [Hn|]; [|done]. cbn.
      apply not_true_is_false. intros Ht. apply H. exists (f_Size g). rewrite Hn. split; [done|]. lia. }
  unfold Diff. split; [intros f; by rewrite H1, ToSlice_elem, Hd|]. split; [intros f; by rewrite H2, ToSlice_elem, Hd|].
  split; (eapply ascending_sublist; [eassumption|apply ToSlice_ascending]).
Qed.
