(* ===== verification/Loghub.v ===== *)
(** * Logging (src/loghub)

    The error, access and analysis logs: loggers with a least level, hubs that print a
    line and keep the recent ones in two ring buffers, and the last line of every level.
    What [fmt] prints is an argument; opening a log file and reopening it are I/O. [None]
    is a run-time panic. *)

From stdpp Require Import list.
From S2P Require Import Prelude.

Definition DEBUG : Z := 0.
Definition INFO : Z := 1.
Definition WARN : Z := 2.
Definition ERROR : Z := 3.
Definition FATAL : Z := 4.

(** ** Ring buffers *)

Record BufferLine := mkLine { bl_TS : Z; bl_Level : Z; bl_File : bytes; bl_Line : Z; bl_Msg : bytes }.

Record queue := mkQueue { q_head : Z; q_Buffer : list (option BufferLine) }.

Definition queue_Add (q : queue) (line : BufferLine) : option queue :=
  buf ← zset (q_Buffer q) (q_head q) (Some line);
  let head := q_head q + 1 in
  Some (mkQueue (if zlen buf <=? head then 0 else head) buf).

(** The lines [DumpBuffer] writes: [n] entries from [i] on. *)
Fixpoint dump_from (buf : list (option BufferLine)) (i : Z) (n : nat) : option (list BufferLine) :=
  match n with
  | O => Some []
  | S n =>
      line ← zget buf i;
      rest ← dump_from buf (let i := i + 1 in if zlen buf <=? i then 0 else i) n;
      Some (match line with Some line => line :: rest | None => rest end)
  end.
Definition queue_DumpBuffer (q : queue) : option (list BufferLine) :=
  dump_from (q_Buffer q) (q_head q) (length (q_Buffer q)).

Record BufferLog := mkBufferLog { bf_all : queue; bf_warn : queue; bf_Last : list (option BufferLine) }.

(** [InitBuffer] on a hub that is new. *)
Definition InitBuffer (size : nat) : BufferLog :=
  let q := mkQueue 0 (replicate size None) in mkBufferLog q q (replicate 5 None).

Definition BufferLog_Add (l : BufferLog) (line : BufferLine) : option BufferLog :=
  all ← queue_Add (bf_all l) line;
  warn ← (if WARN <=? bl_Level line then queue_Add (bf_warn l) line else Some (bf_warn l));
  Some (mkBufferLog all warn (bf_Last l)).

Definition BufferLog_DumpBuffer (l : BufferLog) (all : bool) : option (list BufferLine) :=
  if all then queue_DumpBuffer (bf_all l) else queue_DumpBuffer (bf_warn l).

(** ** Hubs and loggers *)

(** The hub of the access log has no buffers; the printed lines are kept in [hb_out]. *)
Inductive hub_kind := ErrorHub | AnalysisHub | AccessHub.
Record LogHub := mkHub { hb_kind : hub_kind; hb_out : list bytes; hb_buf : BufferLog; hb_exit : bool }.

Section Log.
(** What [Printf] prints for a line with [ErrorLogFormat]. *)
Context (fmt_error : Z → bytes → Z → bytes → bytes).

Definition hub_Log (hub : LogHub) (now level : Z) (file : bytes) (line : Z) (msg : bytes) : option LogHub :=
  match hb_kind hub with
  | AccessHub => Some (mkHub AccessHub (hb_out hub ++ [msg]) (hb_buf hub) (level =? FATAL))
  | kind =>
      if negb ((0 <=? level) && (level <=? FATAL)) then None
      else
        let out := match kind with ErrorHub => fmt_error level file line msg | _ => msg end in
        let bufline := mkLine now level file line msg in
        buf ← BufferLog_Add (hb_buf hub) bufline;
        last ← zset (bf_Last buf) level (Some bufline);
        Some (mkHub kind (hb_out hub ++ [out]) (mkBufferLog (bf_all buf) (bf_warn buf) last) (level =? FATAL))
  end.

Record Logger := mkLogger { lg_minLevel : Z; lg_Hub : option LogHub }.

(** The last component of a path: the bytes after the last slash that is not at its
    start. *)
Fixpoint short_from (file : bytes) (i : nat) : bytes :=
  match i with
  | O => file
  | S j => if bool_decide (file !! i = Some 47) then drop (S i) file else short_from file j
  end.
Definition short_name (file : bytes) : bytes := short_from file (length file - 1).

(** [Logf] with a message that is formatted; [caller] is what [runtime.Caller] finds. *)
Definition Logf (l : Logger) (now level : Z) (caller : option (bytes * Z)) (msg : bytes) : option Logger :=
  if level <? lg_minLevel l then Some l
  else
    let '(file, line) := match caller with Some (file, line) => (short_name file, line) | None => (bstr "???", 0) end in
    hub ← lg_Hub l;
    hub ← hub_Log hub now level file line msg;
    Some (mkLogger (lg_minLevel l) (Some hub)).

(** [InitErrorLog], [InitAccessLog] and [InitAnalysisLog] when the file opens; otherwise
    the process ends. *)
Definition InitErrorLog (l : Logger) (level : Z) (bufferSize : nat) : Logger :=
  mkLogger level (Some (mkHub ErrorHub [] (InitBuffer bufferSize) false)).
Definition InitAnalysisLog (l : Logger) (level : Z) (bufferSize : nat) : Logger :=
  mkLogger level (Some (mkHub AnalysisHub [] (InitBuffer bufferSize) false)).
Definition InitAccessLog (l : Logger) (level : Z) : Logger :=
  mkLogger level (Some (mkHub AccessHub [] (InitBuffer 0) false)).

(** The loggers of the package before and after [InitLogger]; an empty path leaves its
    logger alone. *)
Record Loggers := mkLoggers { ls_Error : Logger; ls_Access : Logger; ls_Analysis : Logger }.
Definition loggers0 : Loggers :=
  mkLoggers (mkLogger DEBUG (Some (mkHub ErrorHub [] (InitBuffer 200) false))) (mkLogger DEBUG None) (mkLogger DEBUG None).
Definition InitLogger (ls : Loggers) (errorlog accesslog analysislog : bytes) : Loggers :=
  mkLoggers (if bool_decide (errorlog ≠ []) then InitErrorLog (ls_Error ls) INFO 200 else ls_Error ls)
            (if bool_decide (accesslog ≠ []) then InitAccessLog (ls_Access ls) INFO else ls_Access ls)
            (if bool_decide (analysislog ≠ []) then InitAnalysisLog (ls_Analysis ls) INFO 200 else ls_Analysis ls).

(** [GetLastLog] before JSON prints it. *)
Definition GetLastLog (hub : LogHub) : list (option BufferLine) :=
  match hb_kind hub with AccessHub => [] | _ => bf_Last (hb_buf hub) end.

(** Calls of [Logf] one after the other. *)
Record call := mkCall { c_now : Z; c_level : Z; c_caller : option (bytes * Z); c_msg : bytes }.
Fixpoint log_all (l : Logger) (cs : list call) : option Logger :=
  match cs with
  | [] => Some l
  | c :: cs => l ← Logf l (c_now c) (c_level c) (c_caller c) (c_msg c); log_all l cs
  end.

(** The line of a call. *)
Definition line_of (c : call) : BufferLine :=
  let '(file, line) := match c_caller c with Some (file, line) => (short_name file, line) | None => (bstr "???", 0) end in
  mkLine (c_now c) (c_level c) file line (c_msg c).

(** ** The ring *)

(** The entries from the oldest to the newest. *)
Definition ring (q : queue) : list (option BufferLine) :=
  drop (Z.to_nat (q_head q)) (q_Buffer q) ++ take (Z.to_nat (q_head q)) (q_Buffer q).
Definition queue_ok (n : nat) (q : queue) : Prop := 0 <= q_head q < Z.of_nat n ∧ length (q_Buffer q) = n.

Lemma queue_Add_ring n q line :
  queue_ok n q → ∃ q', queue_Add q line = Some q' ∧ queue_ok n q' ∧ ring q' = tail (ring q) ++ [Some line].
Proof.
  intros [Hh Hn]. unfold queue_Add, zset, zlen. rewrite Hn.
  assert ((0 <=? q_head q) && (q_head q <? Z.of_nat n) = true) as -> by lia. cbn [mbind option_bind]. rewrite length_insert, Hn.
  eexists. split; [done|]. unfold queue_ok, ring. cbn [q_head q_Buffer]. rewrite length_insert.
  set (k := Z.to_nat (q_head q)). assert (k < length (q_Buffer q))%nat as Hk by lia.
  destruct (lookup_lt_is_Some_2 _ _ Hk) as [x Hx]. rewrite (drop_S _ _ _ Hx). cbn [app tail].
  destruct (Z.leb_spec (Z.of_nat n) (q_head q + 1)) as [Hw|Hw]; (split; [lia|]).
  - change (Z.to_nat 0) with 0%nat. rewrite drop_0, take_0, app_nil_r, (drop_ge _ (S k)) by lia. cbn [app].
    rewrite insert_take_drop by done. f_equal. by rewrite drop_ge by lia.
  - replace (Z.to_nat (q_head q + 1)) with (S k) by lia. rewrite drop_insert_lt by lia.
    rewrite (take_S_r _ _ (Some line)) by (by apply list_lookup_insert_eq). rewrite take_insert_ge by lia. by rewrite app_assoc.
Qed.

Lemma dump_from_ring buf m : ∀ k, (k < length buf)%nat →
  dump_from buf (Z.of_nat k) m = Some (omap id ((λ j, default None (buf !! ((k + j) `mod` length buf)%nat)) <$> seq 0 m)).
Proof.
  induction m as [|m IH]; intros k Hk; [done|]. cbn [dump_from]. rewrite zget_nat.
  destruct (lookup_lt_is_Some_2 _ _ Hk) as [x Hx]. rewrite Hx. cbn [mbind option_bind].
  set (k' := if zlen buf <=? Z.of_nat k + 1 then 0 else Z.of_nat k + 1).
  assert (∃ k2, k' = Z.of_nat k2 ∧ (k2 < length buf)%nat ∧ k2 = (S k `mod` length buf)%nat) as (k2 & -> & Hk2 & Hmod).
  { unfold k', zlen. destruct (Z.leb_spec (Z.of_nat (length buf)) (Z.of_nat k + 1)).
    - exists 0%nat. split; [done|]. split; [lia|]. replace (S k) with (length buf) by lia. by rewrite Nat.Div0.mod_same.
    - exists (S k). split; [lia|]. split; [lia|]. by rewrite Nat.mod_small by lia. }
  rewrite IH by done. cbn [mbind option_bind]. cbn [seq fmap list_fmap]. rewrite Nat.add_0_r, Nat.mod_small, Hx by done. cbn [default].
  rewrite <- fmap_S_seq, <- list_fmap_compose.
  assert ((λ j, default None (buf !! ((k2 + j) `mod` length buf)%nat)) <$> seq 0 m
    = ((λ j, default None (buf !! ((k + j) `mod` length buf)%nat)) ∘ S) <$> seq 0 m) as ->.
  { apply list_fmap_ext. intros i j _. cbn. rewrite Hmod, Nat.Div0.add_mod_idemp_l. do 3 f_equal. lia. }
  by destruct x.
Qed.

Lemma dump_ring n q : queue_ok n q → queue_DumpBuffer q = Some (omap id (ring q)).
Proof.
  intros [Hh Hn]. unfold queue_DumpBuffer, ring. rewrite <- (Z2Nat.id (q_head q)) at 1 by lia.
  set (k := Z.to_nat (q_head q)). rewrite dump_from_ring by lia. do 2 f_equal.
  apply list_eq. intros j. rewrite list_lookup_fmap. destruct (decide (j < length (q_Buffer q))%nat) as [Hj|Hj].
  - rewrite lookup_seq_lt, Nat.add_0_l by done. cbn [fmap option_fmap option_map]. destruct (decide (k + j < length (q_Buffer q))%nat) as [Hlt|Hge].
    + rewrite lookup_app_l by (rewrite length_drop; lia). rewrite lookup_drop. rewrite Nat.mod_small by lia.
      by destruct (lookup_lt_is_Some_2 _ _ Hlt) as [x ->].
    + rewrite lookup_app_r by (rewrite length_drop; lia). rewrite length_drop, lookup_take_lt by lia.
      replace ((k + j) `mod` length (q_Buffer q))%nat with (j - (length (q_Buffer q) - k))%nat.
      * destruct (lookup_lt_is_Some_2 (q_Buffer q) (j - (length (q_Buffer q) - k))) as [x ->]; [lia|]. done.
      * apply (Nat.mod_unique _ _ 1); lia.
  - rewrite (proj2 (lookup_ge_None (seq 0 _) j)) by (rewrite length_seq; lia). symmetry. apply lookup_ge_None.
    rewrite length_app, length_drop, length_take. lia.
Qed.

(** The [n] last of a history. *)
Definition last_lines (n : nat) (h : list BufferLine) : list BufferLine := drop (length h - n) h.
Definition history (n : nat) (h : list BufferLine) : list (option BufferLine) :=
  drop (length h) (replicate n None ++ (Some <$> h)).

Lemma history_snoc n h line : (0 < n)%nat → history n (h ++ [line]) = tail (history n h) ++ [Some line].
Proof.
  intros Hn. unfold history. rewrite length_app, Nat.add_1_r, fmap_app, app_assoc. cbn [fmap list_fmap].
  rewrite drop_app_le by (rewrite length_app, length_replicate, length_fmap; lia). f_equal.
  apply list_eq. intros i. by rewrite lookup_tail, !lookup_drop, Nat.add_succ_comm.
Qed.
Lemma history_lines n h : omap id (history n h) = last_lines n h.
Proof.
  unfold history, last_lines. rewrite drop_app, drop_replicate, length_replicate, <- fmap_drop.
  generalize (drop (length h - n) h). intros l. induction (n - length h)%nat as [|m IH]; [|done].
  cbn [replicate app]. induction l as [|x l IHl]; [done|]. cbn. by f_equal.
Qed.

(** ** Loggers *)

(** The lines that pass the level of a logger, and those of a level. *)
Definition passed (min : Z) (cs : list call) : list BufferLine := line_of <$> filter (λ c, min <= c_level c) cs.
Definition warnings (h : list BufferLine) : list BufferLine := filter (λ l, WARN <= bl_Level l) h.
Definition last_at (level : Z) (h : list BufferLine) : option BufferLine := last (filter (λ l, bl_Level l = level) h).

(** The buffers of size [n] hold the history [h]. *)
Record buf_rep (n : nat) (h : list BufferLine) (b : BufferLog) : Prop := {
  br_all : queue_ok n (bf_all b) ∧ ring (bf_all b) = history n h;
  br_warn : queue_ok n (bf_warn b) ∧ ring (bf_warn b) = history n (warnings h);
  br_Last : length (bf_Last b) = 5%nat ∧ ∀ level, 0 <= level <= FATAL → zget (bf_Last b) level = Some (last_at level h)
}.

Lemma queue_rep_Add n h q line :
  (0 < n)%nat → queue_ok n q ∧ ring q = history n h →
  ∃ q', queue_Add q line = Some q' ∧ queue_ok n q' ∧ ring q' = history n (h ++ [line]).
Proof.
  intros Hn [Hq Hr]. destruct (queue_Add_ring n q line Hq) as (q' & Ha & Hq' & Hr'). exists q'.
  by rewrite Hr', Hr, history_snoc.
Qed.

Lemma last_at_snoc level h line :
  last_at level (h ++ [line]) = if decide (bl_Level line = level) then Some line else last_at level h.
Proof.
  unfold last_at. rewrite filter_app, filter_cons, filter_nil. case_decide; [by rewrite last_snoc|by rewrite app_nil_r].
Qed.

Lemma buf_rep_init n : (0 < n)%nat → buf_rep n [] (InitBuffer n).
Proof.
  intros Hn. assert (queue_ok n (mkQueue 0 (replicate n None)) ∧ ring (mkQueue 0 (replicate n None)) = history n []) as H.
  { split; [split; [cbn; lia|apply length_replicate]|]. unfold ring, history. cbn. by rewrite take_0. }
  split; [done|done|]. split; [done|]. intros level Hl. apply zget_Some. split; [lia|].
  apply lookup_replicate. unfold FATAL in Hl. split; [done|lia].
Qed.

Lemma BufferLog_Add_rep n h b line :
  (0 < n)%nat → 0 <= bl_Level line <= FATAL → buf_rep n h b →
  ∃ b' last, BufferLog_Add b line = Some b' ∧ zset (bf_Last b') (bl_Level line) (Some line) = Some last
    ∧ buf_rep n (h ++ [line]) (mkBufferLog (bf_all b') (bf_warn b') last).
Proof.
  intros Hn Hlv [Ha Hw [H5 Hl]]. unfold BufferLog_Add, FATAL in *.
  destruct (queue_rep_Add n h _ line Hn Ha) as (qa & -> & Ha'). cbn [mbind option_bind].
  assert (∃ qw, (if WARN <=? bl_Level line then queue_Add (bf_warn b) line else Some (bf_warn b)) = Some qw
    ∧ queue_ok n qw ∧ ring qw = history n (warnings (h ++ [line]))) as (qw & -> & Hw').
  { unfold warnings in *. rewrite filter_app, filter_cons. destruct (Z.leb_spec WARN (bl_Level line)).
    - rewrite decide_True by done. by apply queue_rep_Add.
    - rewrite decide_False by lia. rewrite filter_nil, app_nil_r. by eexists. }
  cbn [mbind option_bind]. eexists _, _. split; [done|]. split.
  { unfold zset. cbn [bf_Last]. unfold zlen. rewrite H5.
    rewrite (proj2 (Z.leb_le 0 (bl_Level line))), (proj2 (Z.ltb_lt (bl_Level line) (Z.of_nat 5))) by lia. reflexivity. }
 split; [done|done|]. cbn [bf_Last]. split; [by rewrite length_insert|].
  intros level Hlevel. rewrite last_at_snoc. case_decide as He; [|rewrite <- Hl by done].
  - subst. apply zget_Some. split; [lia|]. apply list_lookup_insert_eq. lia.
  - unfold zget. destruct (Z.ltb_spec level 0); [lia|]. apply list_lookup_insert_ne. lia.
Qed.

(** Levels below [FATAL], which ends the process. *)
Definition survives (c : call) : Prop := 0 <= c_level c < FATAL.

Lemma log_all_rep n min kind cs : kind ≠ AccessHub → (0 < n)%nat → Forall survives cs → ∀ h out b e,
  buf_rep n h b →
  ∃ hub, log_all (mkLogger min (Some (mkHub kind out b e))) cs = Some (mkLogger min (Some hub))
    ∧ hb_kind hub = kind ∧ buf_rep n (h ++ passed min cs) (hb_buf hub) ∧ (e = false → hb_exit hub = false).
Proof.
  intros Hk Hn Hcs. induction Hcs as [|c cs Hc Hcs IH]; intros h out b e Hb; cbn [log_all].
  { eexists. split; [done|]. unfold passed. rewrite filter_nil, app_nil_r. done. }
  unfold Logf, passed. cbn [lg_minLevel]. rewrite filter_cons. destruct (Z.ltb_spec (c_level c) min) as [Hlt|Hge].
  { rewrite decide_False by lia. cbn [mbind option_bind]. by apply IH. }
  rewrite decide_True by done. cbn [fmap list_fmap lg_Hub mbind option_bind].
  assert (0 <= bl_Level (line_of c) <= FATAL) as Hlv.
  { unfold line_of. unfold survives in Hc. destruct (c_caller c) as [[f l]|]; cbn; lia. }
  destruct (BufferLog_Add_rep n h b (line_of c) Hn Hlv Hb) as (b' & last & Ha & Hz & Hrep).
  assert ((0 <=? c_level c) && (c_level c <=? FATAL) = true) as Hr by (unfold survives, FATAL in *; lia).
  assert ((c_level c =? FATAL) = false) as Hf by (unfold survives, FATAL in *; lia).
  assert (∃ out', (let '(file, line) := match c_caller c with Some (file, line) => (short_name file, line) | None => (bstr "???", 0) end in
      hub_Log (mkHub kind out b e) (c_now c) (c_level c) file line (c_msg c))
    = Some (mkHub kind out' (mkBufferLog (bf_all b') (bf_warn b') last) false)) as [out' Hlog].
  { unfold line_of in Ha, Hz. destruct (c_caller c) as [[f l]|]; unfold hub_Log; cbn [hb_kind hb_buf hb_out];
      destruct kind; try done; rewrite Hr; cbn [negb]; rewrite Ha; cbn [mbind option_bind bl_Level] in *; rewrite Hz, Hf; by eexists. }
  destruct (c_caller c) as [[f l]|]; rewrite Hlog; cbn [mbind option_bind];
    (destruct (IH _ out' _ false Hrep) as (hub & -> & Hkd & Hb' & He); exists hub; split; [done|]; split; [done|];
     split; [by rewrite cons_middle, app_assoc|by intros _; apply He]).
Qed.

(** [short_name] is the file's name: what follows the last slash. *)
Lemma short_from_spec file i :
  (∀ j, (i < j)%nat → file !! j ≠ Some 47) → (∃ j, (0 < j <= i)%nat ∧ file !! j = Some 47) →
  ∃ dir, file = dir ++ 47 :: short_from file i ∧ 47 ∉ short_from file i.
Proof.
  induction i as [|i IH]; intros Hafter [j [Hj Hfj]]; [lia|]. cbn [short_from]. case_bool_decide as Hs.
  - exists (take (S i) file). split; [by rewrite take_drop_middle|]. intros Hin.
    apply list_elem_of_lookup in Hin as [k Hk]. rewrite lookup_drop in Hk. by apply (Hafter (S (S i) + k)%nat); [lia|].
  - apply IH.
    + intros k Hk. destruct (decide (k = S i)) as [->|]; [done|]. apply Hafter. lia.
    + exists j. split; [|done]. assert (j ≠ S i) by (by intros ->). lia.
Qed.

Lemma short_name_spec file :
  (∃ j, (0 < j)%nat ∧ file !! j = Some 47) → ∃ dir, file = dir ++ 47 :: short_name file ∧ 47 ∉ short_name file.
Proof.
  intros [j [Hj Hfj]]. apply short_from_spec.
  - intros k Hk Hfk. apply lookup_lt_Some in Hfk. lia.
  - exists j. pose proof (lookup_lt_Some _ _ _ Hfj). split; [lia|done].
Qed.

(** C24. After any calls of a logger below FATAL, the two buffers of the error log hold
    exactly the most recent lines that passed its level (all of them, and those from WARN
    on), oldest first, as many as the buffer has room for, and the last line of every
    level is kept; no call panics or ends the process. *)
Theorem log_buffers_recent l min n cs :
  (0 < n)%nat → Forall survives cs →
  ∃ hub, log_all (InitErrorLog l min n) cs = Some (mkLogger min (Some hub)) ∧ hb_exit hub = false
    ∧ BufferLog_DumpBuffer (hb_buf hub) true = Some (last_lines n (passed min cs))
    ∧ BufferLog_DumpBuffer (hb_buf hub) false = Some (last_lines n (warnings (passed min cs)))
    ∧ ∀ level, 0 <= level <= FATAL → zget (GetLastLog hub) level = Some (last_at level (passed min cs)).
Proof.
  intros Hn Hcs. destruct (log_all_rep n min ErrorHub cs) with (h := @nil BufferLine) (out := @nil bytes) (b := InitBuffer n) (e := false)
    as (hub & Hl & Hk & [[Ha Hra] [Hw Hrw] [_ Hlast]] & He); [done|done|done|by apply buf_rep_init|].
  exists hub. split; [exact Hl|]. split; [by apply He|]. unfold BufferLog_DumpBuffer, GetLastLog. rewrite Hk.
  rewrite (dump_ring n), (dump_ring n) by done. by rewrite Hra, Hrw, !history_lines.
Qed.

End Log.

(** Three lines in a buffer of two. *)
Definition demo_calls : list call :=
  [mkCall 1 INFO (Some (bstr "store/gc.go", 10)) (bstr "one"); mkCall 2 WARN (Some (bstr "store/gc.go", 20)) (bstr "two");
   mkCall 3 DEBUG None (bstr "skipped"); mkCall 4 INFO (Some (bstr "main.go", 30)) (bstr "three")].

Lemma log_buffers_recent_witness :
  ∃ hub, log_all (λ _ _ _ m, m) (InitErrorLog (mkLogger DEBUG None) INFO 2) demo_calls = Some (mkLogger INFO (Some hub))
    ∧ BufferLog_DumpBuffer (hb_buf hub) true
      = Some [mkLine 2 WARN (bstr "gc.go") 20 (bstr "two"); mkLine 4 INFO (bstr "main.go") 30 (bstr "three")]
    ∧ BufferLog_DumpBuffer (hb_buf hub) false = Some [mkLine 2 WARN (bstr "gc.go") 20 (bstr "two")].
Proof.
  destruct (log_buffers_recent (λ _ _ _ m, m) (mkLogger DEBUG None) INFO 2 demo_calls) as (hub & H1 & _ & H2 & H3 & _);
    [lia|repeat first [apply Forall_nil_2|apply Forall_cons_2]; split; reflexivity || discriminate|].
  exists hub. split; [exact H1|]. split; [exact H2|exact H3].
Defined.
