(* ===== verification/Token.v ===== *)
(** * Request tokens (src/memcache/token.go)

    A request that does work takes one of [n] tokens from a channel and puts it
    back when it has been served. Requests are named by numbers; the connections'
    goroutines interleave at [Get] and [Put]. The times of the histories are not
    modelled. *)

From stdpp Require Import gmap.
From S2P Require Import Prelude Config.

Record ReqState := mkReqState { Token : Z; Working : bool }.
Definition newReq : ReqState := mkReqState 0 false.

(** [Chan] has room for as many tokens as there are. [Histories] keeps the
    [Working] flag of each token. *)
Record ReqLimiter := mkReqLimiter {
  Chan : list Z;
  Owners : list (option nat);
  Histories : list bool;
  NumWait : Z
}.

Definition NewReqLimiter (n : nat) : ReqLimiter :=
  mkReqLimiter (Z.of_nat <$> seq 0 n) (replicate n None) (replicate n false) 0.
Definition InitTokens (mc : MCConfig) : ReqLimiter :=
  NewReqLimiter (Z.to_nat (if MaxReq mc =? 0 then 16 else MaxReq mc)).

(** The limiter and the requests of all connections. *)
Record TokenState := mkTokens { ts_rl : ReqLimiter; ts_reqs : gmap nat ReqState }.
Definition req_of (s : TokenState) (req : nat) : ReqState := default newReq (ts_reqs s !! req).

(** [Get], once a token is there; [None] while the channel is empty. *)
Definition rl_Get (s : TokenState) (req : nat) : option TokenState :=
  match Chan (ts_rl s) with
  | [] => None
  | t :: chan =>
      hist ← zset (Histories (ts_rl s)) t true;
      owners ← zset (Owners (ts_rl s)) t (Some req);
      Some (mkTokens (mkReqLimiter chan owners hist (NumWait (ts_rl s)))
              (<[req := mkReqState t true]> (ts_reqs s)))
  end.

(** [Put]: [None] is a panic (no owner) or a send that blocks on a full channel. *)
Definition rl_Put (s : TokenState) (req : nat) : option TokenState :=
  let t := Token (req_of s req) in
  hist ← zset (Histories (ts_rl s)) t false;
  owner ← zget (Owners (ts_rl s)) t;
  owner ← owner;
  let reqs := <[owner := mkReqState (Token (req_of s owner)) false]> (ts_reqs s) in
  if (length (Owners (ts_rl s)) <=? length (Chan (ts_rl s)))%nat then None
  else Some (mkTokens (mkReqLimiter (Chan (ts_rl s) ++ [t]) (Owners (ts_rl s)) hist (NumWait (ts_rl s))) reqs).

(** What the connections do: a request takes a token when it has none ([Read]),
    and gives it back when it has one ([ServeOnce]). *)
Inductive token_step : TokenState → TokenState → Prop :=
| step_get s req s' : Working (req_of s req) = false → rl_Get s req = Some s' → token_step s s'
| step_put s req s' : Working (req_of s req) = true → rl_Put s req = Some s' → token_step s s'.

Definition token_reach (n : nat) : TokenState → Prop :=
  rtc token_step (mkTokens (NewReqLimiter n) ∅).

(** ** Tokens are exclusive *)

(** The requests being served. *)
Definition working (s : TokenState) : gset nat := dom (filter (λ p : nat * ReqState, Working p.2 = true) (ts_reqs s)).

Record token_inv (n : nat) (s : TokenState) : Prop := {
  ti_owners : length (Owners (ts_rl s)) = n;
  ti_hist : length (Histories (ts_rl s)) = n;
  ti_chan : NoDup (Chan (ts_rl s));
  ti_range t : t ∈ Chan (ts_rl s) → 0 <= t < Z.of_nat n;
  ti_held req : Working (req_of s req) = true →
    zget (Owners (ts_rl s)) (Token (req_of s req)) = Some (Some req)
    ∧ Token (req_of s req) ∉ Chan (ts_rl s) ∧ zget (Histories (ts_rl s)) (Token (req_of s req)) = Some true;
  ti_free t : 0 <= t < Z.of_nat n → t ∈ Chan (ts_rl s) ∨ ∃ req, Working (req_of s req) = true ∧ Token (req_of s req) = t
}.

Lemma elem_of_working s req : req ∈ working s ↔ Working (req_of s req) = true.
Proof.
  unfold working, req_of. rewrite elem_of_dom. split.
  - intros [x Hx]. apply map_lookup_filter_Some in Hx as [-> Hx]. done.
  - destruct (ts_reqs s !! req) as [x|] eqn:Hx; cbn; [|done]. intros Hw. exists x.
    by apply map_lookup_filter_Some.
Qed.

Lemma req_of_insert rl reqs q x q' :
  req_of (mkTokens rl (<[q := x]> reqs)) q' = if decide (q' = q) then x else default newReq (reqs !! q').
Proof.
  unfold req_of. cbn [ts_reqs]. destruct (decide (q' = q)) as [->|]; [by rewrite lookup_insert_eq|].
  by rewrite lookup_insert_ne.
Qed.

Lemma token_init n : token_inv n (mkTokens (NewReqLimiter n) ∅).
Proof.
  split; cbn [ts_rl NewReqLimiter Owners Histories Chan].
  - apply length_replicate.
  - apply length_replicate.
  - apply NoDup_fmap; [apply _|]. apply NoDup_seq.
  - intros t (k & -> & Hk)%list_elem_of_fmap. apply elem_of_seq in Hk. lia.
  - intros req. unfold req_of. cbn. by rewrite lookup_empty.
  - intros t Ht. left. apply list_elem_of_fmap. exists (Z.to_nat t). split; [lia|]. apply elem_of_seq. lia.
Qed.

Lemma zget_zset {A} (l l' : list A) i x j :
  zset l i x = Some l' → zget l' j = if decide (j = i) then Some x else zget l j.
Proof.
  unfold zset, zget. destruct (Z.leb_spec 0 i); [|done]. destruct (Z.ltb_spec i (zlen l)) as [Hl|]; [unfold zlen in Hl|done].
  cbn [andb]. intros [= <-]. destruct (decide (j = i)) as [->|Hne].
  - destruct (Z.ltb_spec i 0); [lia|]. apply list_lookup_insert_eq. lia.
  - destruct (Z.ltb_spec j 0); [done|]. apply list_lookup_insert_ne. lia.
Qed.

Lemma token_owner n s req : token_inv n s → Working (req_of s req) = true → 0 <= Token (req_of s req) < Z.of_nat n.
Proof.
  intros Hinv Hw. destruct (ti_held _ _ Hinv req Hw) as (Ho%zget_Some_lt & _).
  unfold zlen in Ho. by rewrite (ti_owners _ _ Hinv) in Ho.
Qed.

Lemma token_inj n s r1 r2 :
  token_inv n s → Working (req_of s r1) = true → Working (req_of s r2) = true →
  Token (req_of s r1) = Token (req_of s r2) → r1 = r2.
Proof.
  intros Hinv H1 H2 Heq. destruct (ti_held _ _ Hinv r1 H1) as [Ho1 _]. destruct (ti_held _ _ Hinv r2 H2) as [Ho2 _].
  rewrite Heq in Ho1. congruence.
Qed.

Lemma token_get n s req :
  token_inv n s → Working (req_of s req) = false → Chan (ts_rl s) ≠ [] →
  ∃ s', rl_Get s req = Some s' ∧ token_inv n s'.
Proof.
  intros Hinv Hw Hne. pose proof Hinv as [Ho Hh Hnd Hr Hheld Hfree]. unfold rl_Get.
  destruct (Chan (ts_rl s)) as [|t chan] eqn:Hc; [done|]. apply NoDup_cons in Hnd as [Hni Hnd].
  assert (0 <= t < Z.of_nat n) as Ht by (apply Hr; by left).
  destruct (zset_ok (Histories (ts_rl s)) t true) as [hist Hhist]; [unfold zlen; lia|].
  destruct (zset_ok (Owners (ts_rl s)) t (Some req)) as [owners Hown]; [unfold zlen; lia|].
  rewrite Hhist, Hown. cbn [mbind option_bind]. eexists. split; [done|].
  assert (∀ q, q ≠ req → Working (req_of s q) = true → Token (req_of s q) ≠ t) as Hother.
  { intros q Hq Hwq Heq. destruct (Hheld q Hwq) as (_ & Hn & _). apply Hn. rewrite Heq. by left. }
  split; cbn [ts_rl Owners Histories Chan].
  - rewrite (zset_length _ _ _ _ Hown). done.
  - rewrite (zset_length _ _ _ _ Hhist). done.
  - done.
  - intros t' Ht'. apply Hr. by right.
  - intros q. rewrite req_of_insert, (zget_zset _ _ _ _ _ Hown), (zget_zset _ _ _ _ _ Hhist).
    change (default newReq (ts_reqs s !! q)) with (req_of s q). destruct (decide (q = req)) as [->|Hq]; cbn [Token Working].
    + by rewrite !decide_True by done.
    + intros Hwq. rewrite !decide_False by (by apply Hother). destruct (Hheld q Hwq) as (? & Hn & ?).
      split_and!; [done| |done]. intros Hin. apply Hn. by right.
  - intros t' Ht'. destruct (Hfree t' Ht') as [[->|Hin]%elem_of_cons|(q & Hwq & <-)]; [right|by left|right].
    + exists req. rewrite req_of_insert, decide_True by done. done.
    + exists q. rewrite req_of_insert. destruct (decide (q = req)) as [->|]; [congruence|done].
Qed.

(** A token that is held is not in the channel, so there is room for it. *)
Lemma chan_room n s req :
  token_inv n s → Working (req_of s req) = true → (length (Chan (ts_rl s)) < n)%nat.
Proof.
  intros Hinv Hw. pose proof (token_owner n s req Hinv Hw) as Ht. destruct (ti_held _ _ Hinv req Hw) as (_ & Hn & _).
  assert (Token (req_of s req) :: Chan (ts_rl s) ⊆+ seqZ 0 (Z.of_nat n)) as Hsub.
  { apply NoDup_submseteq; [apply NoDup_cons; split; [done|apply Hinv]|].
    intros t [->|Hin]%elem_of_cons; apply elem_of_seqZ; [lia|]. apply (ti_range _ _ Hinv) in Hin. lia. }
  apply submseteq_length in Hsub. rewrite length_seqZ in Hsub. cbn [length] in Hsub. lia.
Qed.

Lemma token_put n s req :
  token_inv n s → Working (req_of s req) = true →
  ∃ s', rl_Put s req = Some s' ∧ token_inv n s' ∧ Working (req_of s' req) = false
    ∧ (∀ q, q ≠ req → req_of s' q = req_of s q)
    ∧ Chan (ts_rl s') = Chan (ts_rl s) ++ [Token (req_of s req)].
Proof.
  intros Hinv Hw. pose proof Hinv as [Ho Hh Hnd Hr Hheld Hfree]. destruct (Hheld req Hw) as (Hown & Hni & Hhist).
  pose proof (token_owner n s req Hinv Hw) as Ht. unfold rl_Put.
  destruct (zset_ok (Histories (ts_rl s)) (Token (req_of s req)) false) as [hist Hset]; [unfold zlen; lia|].
  rewrite Hset, Hown, Ho. cbn [mbind option_bind].
  destruct (Nat.leb_spec n (length (Chan (ts_rl s)))) as [Hf|Hroom];
    [pose proof (chan_room n s req Hinv Hw); lia|].
  eexists. split; [done|]. split_and!; cbn [ts_rl Chan].
  - split; cbn [ts_rl Owners Histories Chan].
    + done.
    + rewrite (zset_length _ _ _ _ Hset). done.
    + apply NoDup_app. split; [done|]. split; [|apply NoDup_singleton].
      intros t Hin ->%list_elem_of_singleton. by apply Hni.
    + intros t [Hin| ->%list_elem_of_singleton]%elem_of_app; [by apply Hr|done].
    + intros q. rewrite req_of_insert. change (default newReq (ts_reqs s !! q)) with (req_of s q).
      destruct (decide (q = req)) as [->|Hq]; [done|]. intros Hwq. destruct (Hheld q Hwq) as (H1 & H2 & H3).
      assert (Token (req_of s q) ≠ Token (req_of s req)) as Hne by (intros He; by apply Hq, (token_inj n s)).
      split_and!; [done| |rewrite (zget_zset _ _ _ _ _ Hset), decide_False; done].
      intros [Hin|Hin%list_elem_of_singleton]%elem_of_app; done.
    + intros t Htr. destruct (Hfree t Htr) as [Hin|(q & Hwq & <-)]; [left; apply elem_of_app; by left|].
      destruct (decide (q = req)) as [->|Hq]; [left; apply elem_of_app; right; by left|right].
      exists q. by rewrite req_of_insert, decide_False.
  - by rewrite req_of_insert, decide_True.
  - intros q Hq. by rewrite req_of_insert, decide_False.
  - done.
Qed.

Lemma token_reach_inv n s : token_reach n s → token_inv n s.
Proof.
  intros Hr. assert (∀ a b, rtc token_step a b → token_inv n a → token_inv n b) as Hrun.
  { intros a b. induction 1 as [|a b c Hstep _ IH]; [done|]. intros Ha. apply IH.
    destruct Hstep as [s1 req s2 Hw Hg|s1 req s2 Hw Hp].
    - destruct (token_get n s1 req Ha Hw) as (s3 & Hg' & Hinv); [by intros Hc; unfold rl_Get in Hg; rewrite Hc in Hg|].
      congruence.
    - destruct (token_put n s1 req Ha Hw) as (s3 & Hp' & Hinv & _). congruence. }
  eapply Hrun; [done|]. apply token_init.
Qed.

Lemma working_count n s : token_inv n s → (size (working s) + length (Chan (ts_rl s)) = n)%nat.
Proof.
  intros Hinv. set (held := (λ q, Token (req_of s q)) <$> elements (working s)).
  assert (held ++ Chan (ts_rl s) ≡ₚ seqZ 0 (Z.of_nat n)) as Hp.
  { apply NoDup_Permutation; [|apply NoDup_seqZ|].
    - apply NoDup_app. split; [|split; [|apply Hinv]].
      + apply NoDup_fmap_2_strong; [|apply NoDup_elements].
        intros q1 q2 H1%elem_of_elements%elem_of_working H2%elem_of_elements%elem_of_working.
        by apply (token_inj n s).
      + intros t (q & -> & Hq)%list_elem_of_fmap. apply elem_of_elements, elem_of_working in Hq.
        by apply (ti_held _ _ Hinv).
    - intros t. rewrite elem_of_app, elem_of_seqZ. split.
      + intros [(q & -> & Hq)%list_elem_of_fmap|Hin].
        * apply elem_of_elements, elem_of_working in Hq. pose proof (token_owner n s q Hinv Hq). lia.
        * apply (ti_range _ _ Hinv) in Hin. lia.
      + intros Ht. destruct (ti_free _ _ Hinv t ltac:(lia)) as [Hin|(q & Hw & <-)]; [by right|left].
        apply list_elem_of_fmap. exists q. split; [done|]. by apply elem_of_elements, elem_of_working. }
  apply Permutation_length in Hp. rewrite length_app, length_seqZ in Hp. unfold held in Hp.
  rewrite length_fmap in Hp. unfold size, set_size. cbn. lia.
Qed.

(** C36. Tokens bound and separate the requests in service: in every state that any
    interleaving of connections reaches from [n] tokens, the requests being served
    and the free tokens add up to [n]; no two requests hold the same token;
    a request that is done can always give its token back without blocking, which
    changes no other request; and a token is to be had as long as fewer than [n]
    are being served. *)
Theorem tokens_exclusive n s :
  token_reach n s →
  (size (working s) + length (Chan (ts_rl s)) = n)%nat
  ∧ (∀ r1 r2, r1 ∈ working s → r2 ∈ working s → Token (req_of s r1) = Token (req_of s r2) → r1 = r2)
  ∧ (∀ req, req ∈ working s → ∃ s', rl_Put s req = Some s' ∧ working s' = working s ∖ {[req]}
       ∧ ∀ q, q ≠ req → req_of s' q = req_of s q)
  ∧ (∀ req, req ∉ working s → (size (working s) < n)%nat → ∃ s', rl_Get s req = Some s' ∧ req ∈ working s').
Proof.
  intros Hinv%token_reach_inv. split_and!.
  - by apply working_count.
  - intros r1 r2 H1%elem_of_working H2%elem_of_working. by apply (token_inj n).
  - intros req Hw%elem_of_working. destruct (token_put n s req Hinv Hw) as (s' & Hp & _ & Hw' & Hoth & _).
    exists s'. split; [done|]. split; [|done]. apply set_eq. intros q.
    rewrite elem_of_difference, elem_of_singleton, !elem_of_working.
    destruct (decide (q = req)) as [->|Hq]; [rewrite Hw'; naive_solver|rewrite Hoth by done; naive_solver].
  - intros req Hw Hlt. assert (Working (req_of s req) = false) as Hwf.
    { rewrite elem_of_working in Hw. by destruct (Working (req_of s req)). }
    pose proof (working_count n s Hinv) as Hc.
    destruct (token_get n s req Hinv Hwf) as (s' & Hg & _); [intros He; rewrite He in Hc; simpl in Hc; lia|].
    exists s'. split; [done|]. apply elem_of_working. unfold rl_Get in Hg.
    destruct (Chan (ts_rl s)); [done|]. simplify_option_eq. by rewrite req_of_insert, decide_True.
Qed.

(** Two requests in service, a third waiting for a token. *)
Definition demo_tokens : TokenState :=
  match rl_Get (mkTokens (NewReqLimiter 2) ∅) 7 with
  | Some s => match rl_Get s 9 with Some s => s | None => s end
  | None => mkTokens (NewReqLimiter 2) ∅
  end.
Lemma demo_tokens_reach : token_reach 2 demo_tokens.
Proof.
  eapply rtc_l; [apply (step_get _ 7); [by vm_compute|by vm_compute]|].
  eapply rtc_l; [apply (step_get _ 9); [by vm_compute|by vm_compute]|]. apply rtc_refl.
Qed.

Lemma tokens_exclusive_witness :
  ∃ s', rl_Put demo_tokens 7 = Some s' ∧ working s' = working demo_tokens ∖ {[7%nat]}
    ∧ rl_Get demo_tokens 11 = None.
Proof.
  destruct (tokens_exclusive 2 demo_tokens demo_tokens_reach) as (_ & _ & Hput & _).
  destruct (Hput 7%nat) as (s' & Hp & Hw & _); [by vm_compute|]. exists s'. split; [exact Hp|]. split; [exact Hw|by vm_compute].
Defined.
