(* ===== verification/Protocol.v ===== *)
(** * The memcache protocol (src/memcache/protocol.go)

    Requests and responses, how they are written and how they are read from a
    connection. A connection is the bytes still to be read; writing appends and
    never fails. [None] is a panic. *)

From stdpp Require Import gmap.
From S2P Require Import Prelude Strconv Config Cmem Fixtures.

Definition CR : Z := 13.
Definition LF : Z := 10.
Definition SP : Z := 32.
Definition crlf : bytes := [CR; LF].

Inductive ProtoErr :=
  | ErrInvalidCmd | ErrNonMemcacheCmd | ErrValueTooLarge | ErrKeyLength | ErrBadDataChunk | ErrNetworkError
  | ErrOOM | ErrAllocFail (n : Z) | ErrInvalidResponse | ErrUnknown.

Record McItem := mkMcItem {
  mi_ReceiveTime : Z;
  mi_Flag : Z;
  mi_Exptime : Z;
  mi_Cas : Z;
  mi_arr : CArray
}.
Definition mi_Body (it : McItem) : bytes := Body (mi_arr it).
Definition newItem : McItem := mkMcItem 0 0 0 0 nilCArray.

Record Request := mkRequest {
  rq_ReceiveTime : Z;
  rq_Cmd : bytes;
  rq_Keys : list bytes;
  rq_Item : option McItem;
  rq_NoReply : bool
}.
Definition newRequest : Request := mkRequest 0 [] [] None false.

Definition rq_Clear (req : Request) : Request :=
  mkRequest (rq_ReceiveTime req) (rq_Cmd req) (rq_Keys req) None false.

(** ** Lines and fields *)

(** [bufio.Reader.ReadString('\n')]: the line with its end and the rest; [None] at
    the end of the input. *)
Fixpoint read_line (b : bytes) : option (bytes * bytes) :=
  match b with
  | [] => None
  | c :: b =>
      if c =? LF then Some ([c], b)
      else '(s, rest) ← read_line b; Some (c :: s, rest)
  end.

Definition HasSuffix_crlf (s : bytes) : bool :=
  bytes_eqb (drop (length s - 2) s) crlf.

(** [strings.FieldsFunc(s, isSpace)]. *)
Fixpoint fields_loop (s cur : bytes) : list bytes :=
  match s with
  | [] => match cur with [] => [] | _ => [cur] end
  | c :: s =>
      if c =? SP then match cur with [] => fields_loop s [] | _ => cur :: fields_loop s [] end
      else fields_loop s (cur ++ [c])
  end.
Definition splitKeys (s : bytes) : option (list bytes) :=
  if (length s <? 2)%nat then None else Some (fields_loop (take (length s - 2) s) []).

(** [io.ReadFull] of [n] bytes. *)
Definition read_full (n : nat) (b : bytes) : option (bytes * bytes) :=
  if (n <=? length b)%nat then Some (take n b, drop n b) else None.

Definition is_cmd (cmds : list string) (c : bytes) : bool := existsb (λ s, bytes_eqb (bstr s) c) cmds.

(** ** Writing requests *)

Definition noreply_text (req : Request) : bytes := if rq_NoReply req then bstr " noreply" else [].

Definition Request_Write (req : Request) : option (bytes + ProtoErr) :=
  let c := rq_Cmd req in
  if is_cmd ["get"; "gets"; "delete"; "quit"; "version"; "stats"; "flush_all"] c then
    Some (inl (c ++ (rq_Keys req ≫= λ key, SP :: key) ++ noreply_text req ++ crlf))
  else if is_cmd ["set"; "add"; "replace"; "cas"; "prepend"; "append"] c then
    key ← rq_Keys req !! 0%nat;
    item ← rq_Item req;
    let head := c ++ SP :: key ++ SP :: Itoa (mi_Flag item) ++ SP :: Itoa (mi_Exptime item) in
    let len := SP :: Itoa (zlen (mi_Body item)) in
    let cas := if bytes_eqb c (bstr "cas") then SP :: Itoa (mi_Cas item) else [] in
    Some (inl (head ++ cas ++ len ++ noreply_text req ++ crlf ++ mi_Body item ++ crlf))
  else if is_cmd ["incr"; "decr"] c then
    key ← rq_Keys req !! 0%nat;
    item ← rq_Item req;
    Some (inl (c ++ SP :: key ++ SP :: mi_Body item ++ noreply_text req ++ crlf))
  else Some (inr ErrUnknown).

(** ** Reading requests *)

Section Read.
Context (mc : MCConfig) (H : CHeap).

(** What [Read] leaves: the error, the request, the rest of the input, the
    limiters, and whether it took a request token ([RL.Get]). *)
Record read_result := mkRead {
  rr_err : option ProtoErr;
  rr_req : Request;
  rr_rest : bytes;
  rr_rl : BeansdbRL;
  rr_token : bool
}.

Definition rq_with_item (req : Request) (it : McItem) : Request :=
  mkRequest (rq_ReceiveTime req) (rq_Cmd req) (rq_Keys req) (Some it) (rq_NoReply req).
Definition rq_with_noreply (req : Request) (b : bool) : Request :=
  mkRequest (rq_ReceiveTime req) (rq_Cmd req) (rq_Keys req) (rq_Item req) b.
Definition rq_with_keys (req : Request) (keys : list bytes) : Request :=
  mkRequest (rq_ReceiveTime req) (rq_Cmd req) keys (rq_Item req) (rq_NoReply req).

Definition SetData_sub (arr : CArray) (r : BeansdbRL) : BeansdbRL :=
  (Free arr (on_set (λ rl, SubSizeAndCount rl (Cap arr)) r)).2.
Definition freed (arr : CArray) : CArray := (Free arr ResetAll).1.

(** The value of a storage command: allocation, the bytes, the line end. *)
Definition read_value (req : Request) (it : McItem) (length : Z) (b : bytes) (r : BeansdbRL) : option read_result :=
  let with_arr arr := rq_with_item req (mkMcItem (mi_ReceiveTime it) (mi_Flag it) (mi_Exptime it) (mi_Cas it) arr) in
  '(arr, ok, r) ← Alloc mc H length r;
  if negb ok then Some (mkRead (Some (ErrAllocFail length)) (with_arr arr) b r true)
  else
    let r := on_set (λ rl, AddSizeAndCount rl (Cap arr)) r in
    match read_full (Z.to_nat length) b with
    | None =>
        let arr := mkCArray (b ++ drop (List.length b) (Body arr)) (Addr arr) (Cap arr) in
        Some (mkRead (Some ErrNetworkError) (with_arr (freed arr)) [] (SetData_sub arr r) true)
    | Some (body, b) =>
        let arr := mkCArray body (Addr arr) (Cap arr) in
        match b with
        | c1 :: c2 :: b =>
            if negb (c1 =? CR) || negb (c2 =? LF)
            then Some (mkRead (Some ErrBadDataChunk) (with_arr (freed arr)) b (SetData_sub arr r) true)
            else Some (mkRead None (with_arr arr) b r true)
        | _ => Some (mkRead (Some ErrNetworkError) (with_arr (freed arr)) [] (SetData_sub arr r) true)
        end
    end.

Definition part (parts : list bytes) (i : nat) : bytes := nth i parts [].
Definition is_noreply (parts : list bytes) (i : nat) : bool :=
  (i <? length parts)%nat && bytes_eqb (part parts i) (bstr "noreply").

(** A storage command: [set key flag exptime length [cas] [noreply]]. *)
Definition read_storage (req : Request) (parts : list bytes) (b : bytes) (r : BeansdbRL) (now : Z)
    : option read_result :=
  let n := length parts in
  if (n <? 5)%nat || (7 <? n)%nat then Some (mkRead (Some ErrInvalidCmd) req b r false)
  else
    let req := rq_with_keys req [part parts 1] in
    let fail e it := Some (mkRead (Some e) (rq_with_item req it) b r false) in
    let it := mkMcItem now 0 0 0 nilCArray in
    let '(flag, e) := ParseInt (part parts 2) 10 0 in
    let it := mkMcItem now flag 0 0 nilCArray in
    match e with Some _ => fail ErrInvalidCmd it | None =>
    let '(exptime, e) := ParseInt (part parts 3) 10 0 in
    let it := mkMcItem now flag exptime 0 nilCArray in
    match e with Some _ => fail ErrInvalidCmd it | None =>
    match Atoi (part parts 4) with None => fail ErrInvalidCmd it | Some len =>
    if negb (IsValidValueSize mc (u32 len)) then fail ErrValueTooLarge it
    else if (BodyBig mc <? len) && (FlushMax mc <? rl_Size (FlushData r)) then fail ErrOOM it
    else if bytes_eqb (rq_Cmd req) (bstr "cas") then
      if (n <? 6)%nat then fail ErrInvalidCmd it
      else
        let it := mkMcItem now flag exptime (fst (ParseInt (part parts 5) 10 0)) nilCArray in
        if (6 <? n)%nat && negb (is_noreply parts 6) then fail ErrInvalidCmd it
        else read_value (rq_with_noreply req (is_noreply parts 6)) it len b r
    else if (5 <? n)%nat && negb (is_noreply parts 5) then fail ErrInvalidCmd it
    else read_value (rq_with_noreply req (is_noreply parts 5)) it len b r
    end end end.

(** The switch of [Request.Read] over the words of the line. *)
Definition read_parts (req : Request) (parts : list bytes) (b : bytes) (r : BeansdbRL) (now : Z)
    : option read_result :=
  let err e req := Some (mkRead (Some e) req b r false) in
  match parts with
  | [] => err ErrInvalidCmd req
  | c :: args =>
      let req := mkRequest now c (rq_Keys req) (rq_Item req) (rq_NoReply req) in
      let n := length parts in
      if is_cmd ["get"; "gets"] c then
        if (n <? 2)%nat then err ErrInvalidCmd req
        else Some (mkRead None (rq_with_keys req args) b r true)
      else if is_cmd ["set"; "add"; "replace"; "cas"; "append"; "prepend"] c then
        read_storage req parts b r now
      else if is_cmd ["delete"] c then
        if (n <? 2)%nat || (4 <? n)%nat then err ErrInvalidCmd req
        else Some (mkRead None
          (rq_with_noreply (rq_with_keys req [part parts 1]) ((2 <? n)%nat && is_noreply parts (n - 1)))
          b r false)
      else if is_cmd ["incr"; "decr"] c then
        if (n <? 3)%nat || (4 <? n)%nat then err ErrInvalidCmd req
        else Some (mkRead None
          (rq_with_noreply
             (rq_with_item (rq_with_keys req [part parts 1]) (mkMcItem 0 0 0 0 (mkCArray (part parts 2) 0 0)))
             (is_noreply parts 3))
          b (on_set (λ rl, AddCount rl 1) r) true)
      else if is_cmd ["stats"] c then Some (mkRead None (rq_with_keys req args) b r false)
      else if is_cmd ["quit"; "version"; "flush_all"] c then Some (mkRead None req b r false)
      else if is_cmd ["verbosity"] c then
        Some (mkRead None (if (2 <=? n)%nat then rq_with_keys req args else req) b r false)
      else err ErrNonMemcacheCmd (rq_with_keys req args)
  end.

(** [Request.Read] on the request of the connection. *)
Definition Request_Read (req : Request) (b : bytes) (r : BeansdbRL) (now : Z) : option read_result :=
  match read_line b with
  | None => Some (mkRead (Some ErrNetworkError) req [] r false)
  | Some (s, b) =>
      if negb (HasSuffix_crlf s) then Some (mkRead (Some ErrInvalidCmd) req b r false)
      else
        parts ← splitKeys s;
        read_parts (mkRequest now (rq_Cmd req) (rq_Keys req) (rq_Item req) (rq_NoReply req)) parts b r now
  end.

(** ** Responses *)

Record Response := mkResponse {
  rs_Status : bytes;
  rs_Msg : bytes;
  rs_Cas : bool;
  rs_Noreply : bool;
  rs_Items : gmap bytes McItem
}.
Definition newResponse : Response := mkResponse [] [] false false ∅.

Definition write_item (cas : bool) (p : bytes * McItem) : bytes :=
  let '(key, item) := p in
  bstr "VALUE " ++ key ++ SP :: Itoa (mi_Flag item) ++ SP :: Itoa (zlen (mi_Body item))
  ++ (if cas then SP :: Itoa (mi_Cas item) else []) ++ crlf ++ mi_Body item ++ crlf.

(** [Response.Write]; Go ranges over [Items] in an order of its own, [items]. The
    message of a counter is a number, so printing it as a format string prints it
    as it is. *)
Definition Response_Write (resp : Response) (items : list (bytes * McItem)) : bytes :=
  if rs_Noreply resp then []
  else if is_cmd ["VALUE"] (rs_Status resp) then (items ≫= write_item (rs_Cas resp)) ++ bstr "END" ++ crlf
  else if is_cmd ["STAT"] (rs_Status resp) then rs_Msg resp ++ bstr "END" ++ crlf
  else if is_cmd ["INCR"; "DECR"] (rs_Status resp) then rs_Msg resp ++ crlf
  else rs_Status resp ++ (match rs_Msg resp with [] => [] | msg => SP :: msg end) ++ crlf.

Definition rs_with_status (resp : Response) (s : bytes) : Response :=
  mkResponse s (rs_Msg resp) (rs_Cas resp) (rs_Noreply resp) (rs_Items resp).
Definition rs_with_msg (resp : Response) (m : bytes) : Response :=
  mkResponse (rs_Status resp) m (rs_Cas resp) (rs_Noreply resp) (rs_Items resp).
Definition rs_with_item (resp : Response) (key : bytes) (it : McItem) : Response :=
  mkResponse (rs_Status resp) (rs_Msg resp) (rs_Cas resp) (rs_Noreply resp) (<[key := it]> (rs_Items resp)).

(** One [VALUE] line and its data: an error, or the item, the rest and the
    limiters. *)
Definition read_VALUE (parts : list bytes) (b : bytes) (r : BeansdbRL)
    : option (bytes * McItem * bytes * BeansdbRL + ProtoErr * bytes * BeansdbRL) :=
  if (length parts <? 4)%nat then Some (inr (ErrInvalidResponse, b, r))
  else
    let key := part parts 1 in
    match Atoi (part parts 2), Atoi (part parts 3) with
    | Some flag, Some len =>
        if negb (IsValidValueSize mc (u32 len)) then Some (inr (ErrValueTooLarge, b, r))
        else
          match (if (length parts =? 5)%nat then Atoi (part parts 4) else Some 0) with
          | None => Some (inr (ErrInvalidResponse, b, r))
          | Some cas =>
              '(arr, ok, r) ← Alloc mc H len r;
              if negb ok then Some (inr (ErrAllocFail len, b, r))
              else
                match read_full (Z.to_nat len) b with
                | None => Some (inr (ErrNetworkError, [], (Free arr r).2))
                | Some (body, b) =>
                    let arr := mkCArray body (Addr arr) (Cap arr) in
                    let b := drop 2 b in
                    k0 ← key !! 0%nat;
                    let r := if negb (k0 =? 64) && negb (k0 =? 63)
                      then on_get (λ rl, AddSizeAndCount rl (Cap arr)) r else r in
                    Some (inl (key, mkMcItem 0 flag 0 cas arr, b, r))
                end
          end
    | _, _ => Some (inr (ErrInvalidResponse, b, r))
    end.

(** [Response.Read]; every round of its loop reads a line. *)
Fixpoint read_lines (fuel : nat) (resp : Response) (b : bytes) (r : BeansdbRL)
    : option (option ProtoErr * Response * bytes * BeansdbRL) :=
  match fuel with
  | O => None
  | S fuel =>
      match read_line b with
      | None => Some (Some ErrNetworkError, resp, [], r)
      | Some (s, b) =>
          parts ← splitKeys s;
          match parts with
          | [] => Some (Some ErrInvalidResponse, resp, b, r)
          | st :: _ =>
              let resp := rs_with_status resp st in
              if is_cmd ["VALUE"] st then
                res ← read_VALUE parts b r;
                match res with
                | inr (e, b, r) => Some (Some e, resp, b, r)
                | inl (key, it, b, r) => read_lines fuel (rs_with_item resp key it) b r
                end
              else if is_cmd ["STAT"] st then
                if (length parts =? 3)%nat
                then read_lines fuel (rs_with_item resp (part parts 1)
                       (mkMcItem 0 0 0 0 (mkCArray (part parts 2) 0 0))) b r
                else Some (Some ErrInvalidResponse, resp, b, r)
              else if is_cmd ["END"; "STORED"; "NOT_STORED"; "DELETED"; "NOT_FOUND"; "OK"] st then
                Some (None, resp, b, r)
              else if is_cmd ["ERROR"; "SERVER_ERROR"; "CLIENT_ERROR"] st then
                Some (None, if (1 <? length parts)%nat then rs_with_msg resp (part parts 1) else resp, b, r)
              else
                match Atoi st with
                | Some _ => Some (None, rs_with_status (rs_with_msg resp st) (bstr "INCR"), b, r)
                | None => Some (Some ErrUnknown, resp, b, r)
                end
          end
      end
  end.
Definition Response_Read (resp : Response) (b : bytes) (r : BeansdbRL) :=
  read_lines (S (length b))
    (mkResponse (rs_Status resp) (rs_Msg resp) (rs_Cas resp) (rs_Noreply resp) ∅) b r.

(** [CleanBuffer]: listing keys were not counted. *)
Definition clean_item (r : BeansdbRL) (p : bytes * McItem) : option BeansdbRL :=
  k0 ← fst p !! 0%nat;
  let r := if negb (k0 =? 64) && negb (k0 =? 63)
    then on_get (λ rl, SubSizeAndCount rl (Cap (mi_arr (snd p)))) r else r in
  Some (Free (mi_arr (snd p)) r).2.
Definition CleanBuffer (resp : Response) (items : list (bytes * McItem)) (r : BeansdbRL)
    : option (Response * BeansdbRL) :=
  r ← foldl (λ r p, r ≫= λ r, clean_item r p) (Some r) items;
  Some (mkResponse (rs_Status resp) (rs_Msg resp) (rs_Cas resp) (rs_Noreply resp) ∅, r).

End Read.

(** [Request.Check]. *)
Definition Check_response (req : Request) (resp : Response) : bool :=
  if is_cmd ["get"; "gets"] (rq_Cmd req) then
    forallb (λ p, existsb (bytes_eqb (fst p)) (rq_Keys req)) (map_to_list (rs_Items resp))
  else if is_cmd ["incr"; "decr"] (rq_Cmd req) then is_cmd ["INCR"; "DECR"; "NOT_FOUND"] (rs_Status resp)
  else if is_cmd ["set"; "add"; "replace"; "append"; "prepend"] (rq_Cmd req) then
    is_cmd ["STORED"; "NOT_STORED"; "EXISTS"; "NOT_FOUND"] (rs_Status resp)
  else true.
