(* ===== verification/ProtocolProps.v ===== *)
(** * What is written can be read

    Requests and responses written by one side of a connection are read back by
    the other, whatever follows them in the stream. *)

From stdpp Require Import gmap.
From S2P Require Import Prelude Strconv Config Cmem Fixtures Protocol.

(** Concatenations nested to the right. *)
Ltac flat := repeat (progress (cbn [app]; rewrite <- ?app_assoc)).

(** ** Words and lines *)

Definition word_char (c : Z) : Prop := c ≠ SP ∧ c ≠ LF.
Definition word (w : bytes) : Prop := w ≠ [] ∧ Forall word_char w.

(** The words after the first one of a line. *)
Definition words (ws : list bytes) : bytes := ws ≫= λ w, SP :: w.

Lemma words_cons w ws : words (w :: ws) = SP :: w ++ words ws.
Proof. done. Qed.
Lemma words_app a b : words (a ++ b) = words a ++ words b.
Proof. apply bind_app. Qed.

Lemma Itoa_word n : word (Itoa n).
Proof.
  split; [apply Itoa_nonempty|]. eapply Forall_impl; [apply Itoa_chars|].
  intros c Hc. unfold is_num_char, word_char, SP, LF in *. lia.
Qed.

Lemma read_line_app s rest : Forall (λ c, c ≠ LF) s → read_line (s ++ LF :: rest) = Some (s ++ [LF], rest).
Proof.
  induction 1 as [|c s Hc _ IH]; [done|]. cbn [app read_line]. apply Z.eqb_neq in Hc. rewrite Hc.
  rewrite IH. done.
Qed.

Lemma words_no_LF ws : Forall word ws → Forall (λ c, c ≠ LF) (words ws).
Proof.
  induction 1 as [|w ws [_ Hw] _ IH]; [constructor|]. rewrite words_cons. constructor; [done|].
  apply Forall_app. split; [|done]. eapply Forall_impl; [apply Hw|]. by intros c [_ ?].
Qed.

Lemma fields_word w s cur : Forall word_char w → fields_loop (w ++ s) cur = fields_loop s (cur ++ w).
Proof.
  intros Hw. revert cur. induction Hw as [|c w [Hc _] _ IH]; intros cur; [by rewrite app_nil_r|].
  cbn [app fields_loop]. apply Z.eqb_neq in Hc. rewrite Hc, IH. by rewrite <- app_assoc.
Qed.

Lemma fields_words ws cur : Forall word ws → cur ≠ [] → fields_loop (words ws) cur = cur :: ws.
Proof.
  intros Hws. revert cur. induction Hws as [|w ws [Hne Hw] _ IH]; intros cur Hcur; [by destruct cur|].
  rewrite words_cons. cbn [fields_loop]. rewrite Z.eqb_refl. destruct cur as [|c cur]; [done|].
  rewrite fields_word by done. cbn [app]. by rewrite IH.
Qed.

(** A line of words is split into them. *)
Lemma line_split c ws rest :
  word c → Forall word ws →
  ∃ s, read_line (c ++ words ws ++ crlf ++ rest) = Some (s, rest) ∧ HasSuffix_crlf s = true
    ∧ splitKeys s = Some (c :: ws).
Proof.
  intros [Hne Hc] Hws. exists ((c ++ words ws) ++ crlf).
  assert (length ((c ++ words ws) ++ crlf) - 2 = length (c ++ words ws))%nat as Hl
    by (rewrite (length_app _ crlf); cbn [crlf length]; lia).
  split_and!.
  - assert (Forall (λ c, c ≠ LF) ((c ++ words ws) ++ [CR])) as Hnl.
    { rewrite !Forall_app. split; [split|by repeat constructor]; [|by apply words_no_LF].
      eapply Forall_impl; [apply Hc|]. by intros x [_ ?]. }
    pose proof (read_line_app _ rest Hnl) as Hr. unfold crlf. rewrite <- !app_assoc in *. exact Hr.
  - unfold HasSuffix_crlf. rewrite Hl, drop_app_length. by apply bytes_eqb_true.
  - unfold splitKeys. rewrite Hl, take_app_length. rewrite (length_app _ crlf).
    destruct (Nat.ltb_spec (length (c ++ words ws) + length crlf) 2); [cbn [crlf length] in *; lia|].
    rewrite fields_word by done. cbn [app]. by rewrite fields_words.
Qed.

Lemma is_cmd_word cmds c :
  is_cmd cmds c = true → forallb (λ s, negb (bytes_eqb (bstr s) []) && forallb (λ c, negb (c =? SP) && negb (c =? LF)) (bstr s)) cmds = true →
  word c.
Proof.
  unfold is_cmd. rewrite existsb_exists, forallb_forall. intros (s & Hin & Hs) Hall. specialize (Hall s Hin).
  apply bytes_eqb_true in Hs as <-. apply andb_true_iff in Hall as [Hne Hch]. split.
  - intros He. rewrite He in Hne. done.
  - apply Forall_forall. intros c Hc. rewrite forallb_forall in Hch. specialize (Hch c ltac:(by apply list_elem_of_In)).
    apply andb_true_iff in Hch as [H1 H2]. apply negb_true_iff, Z.eqb_neq in H1, H2. done.
Qed.

Section RoundTrip.
Context (mc : MCConfig) (H : CHeap).

(** ** Requests *)

Definition same_item (a b : McItem) : Prop :=
  mi_Flag a = mi_Flag b ∧ mi_Exptime a = mi_Exptime b ∧ mi_Cas a = mi_Cas b ∧ mi_Body a = mi_Body b.
Definition same_request (a b : Request) : Prop :=
  rq_Cmd a = rq_Cmd b ∧ rq_Keys a = rq_Keys b ∧ rq_NoReply a = rq_NoReply b
  ∧ option_Forall2 same_item (rq_Item a) (rq_Item b).

(** The value of a storage request carries the time it was received. *)
Definition received (now : Z) (req : Request) : Prop :=
  ∀ it, rq_Item req = Some it → is_cmd ["incr"; "decr"] (rq_Cmd req) = false → mi_ReceiveTime it = now.

(** The request object of a connection between two requests: the commands without
    words leave its keys as they were. *)
Definition plain_cmd (c : bytes) : bool := is_cmd ["quit"; "version"; "flush_all"] c.
Definition idle (req0 req : Request) : Prop :=
  rq_Item req0 = None ∧ rq_NoReply req0 = false ∧ (plain_cmd (rq_Cmd req) = true → rq_Keys req0 = []).

(** The server accepts and has room for a value of [n] bytes. *)
Record value_ok (r : BeansdbRL) (n : Z) : Prop := {
  vo_max : n <= BodyMax mc < 2 ^ 32;
  vo_alloc : can_alloc mc H n;
  vo_flush : n <= BodyBig mc ∨ rl_Size (FlushData r) <= FlushMax mc
}.

(** The requests a client may send. *)
Inductive req_ok (r : BeansdbRL) : Request → Prop :=
| ok_get t c ks : is_cmd ["get"; "gets"] c = true → ks ≠ [] → Forall word ks → req_ok r (mkRequest t c ks None false)
| ok_storage t c k it nr : is_cmd ["set"; "add"; "replace"; "append"; "prepend"] c = true → word k →
    is_i64 (mi_Flag it) → is_i64 (mi_Exptime it) → mi_Cas it = 0 → value_ok r (zlen (mi_Body it)) →
    req_ok r (mkRequest t c [k] (Some it) nr)
| ok_delete t k nr : word k → req_ok r (mkRequest t (bstr "delete") [k] None nr)
| ok_incr t c k it nr : is_cmd ["incr"; "decr"] c = true → word k → word (mi_Body it) →
    mi_Flag it = 0 → mi_Exptime it = 0 → mi_Cas it = 0 → req_ok r (mkRequest t c [k] (Some it) nr)
| ok_plain t c : is_cmd ["quit"; "version"; "flush_all"] c = true → req_ok r (mkRequest t c [] None false)
| ok_stats t ks : Forall word ks → req_ok r (mkRequest t (bstr "stats") ks None false).

Lemma Request_Read_line req c ws b r now :
  word c → Forall word ws →
  Request_Read mc H req (c ++ words ws ++ crlf ++ b) r now
  = read_parts mc H (mkRequest now (rq_Cmd req) (rq_Keys req) (rq_Item req) (rq_NoReply req)) (c :: ws) b r now.
Proof.
  intros Hc Hws. destruct (line_split c ws b Hc Hws) as (s & Hl & Hs & Hp).
  unfold Request_Read. rewrite Hl, Hs. cbn [negb]. by rewrite Hp.
Qed.

Lemma Some_Forall2_inj {A B} (P : A → B → Prop) x y : option_Forall2 P (Some x) (Some y) → P x y.
Proof. by inversion 1. Qed.

(** The two ways to write [noreply]. *)
Definition noreply_words (nr : bool) : list bytes := if nr then [bstr "noreply"] else [].
Lemma noreply_text_words req : noreply_text req = words (noreply_words (rq_NoReply req)).
Proof. unfold noreply_text. by destruct (rq_NoReply req). Qed.
Lemma noreply_words_ok nr : Forall word (noreply_words nr).
Proof.
  destruct nr; [|constructor]. apply Forall_singleton. split; [done|].
  repeat (apply Forall_cons; split; [by split|]). constructor.
Qed.

Lemma read_value_ok req it r b body :
  value_ok r (zlen body) →
  ∃ res, read_value mc H req it (zlen body) (body ++ crlf ++ b) r = Some res ∧ rr_err res = None ∧ rr_rest res = b
    ∧ rr_token res = true ∧ ∃ arr, Body arr = body
      ∧ rr_req res = rq_with_item req (mkMcItem (mi_ReceiveTime it) (mi_Flag it) (mi_Exptime it) (mi_Cas it) arr).
Proof.
  intros [_ Hal _]. unfold read_value.
  destruct (Alloc_ok mc H (zlen body) r (zlen_nonneg body) Hal) as (arr & r1 & -> & _). cbn [mbind option_bind negb].
  unfold read_full, zlen. rewrite Nat2Z.id, length_app.
  destruct (Nat.leb_spec (length body) (length body + length (crlf ++ b))); [|lia].
  rewrite take_app_length, drop_app_length. cbn [crlf app]. rewrite !Z.eqb_refl. cbn [negb orb].
  eexists. split; [done|]. cbn. split_and!; try done. eexists. split; [|done]. done.
Qed.

(** The request read is known: compare it field by field. *)
Ltac read_done :=
  eexists; split; [done|]; split; [done|]; unfold same_request, received; split_and!; try done;
  first [constructor; unfold same_item; by split_and? | cbn; intros ? [= <-]; by vm_compute].

(** Splitting a membership in a list of commands into its cases. *)
Ltac cmd_cases Hc :=
  unfold is_cmd in Hc; cbn [existsb] in Hc;
  repeat (apply orb_true_iff in Hc as [Hc|Hc]; [apply bytes_eqb_true in Hc as <-|]);
  [..|done].

Lemma storage_not_cas c :
  is_cmd ["set"; "add"; "replace"; "append"; "prepend"] c = true →
  word c ∧ is_cmd ["get"; "gets"; "delete"; "quit"; "version"; "stats"; "flush_all"] c = false
  ∧ is_cmd ["set"; "add"; "replace"; "cas"; "prepend"; "append"] c = true
  ∧ is_cmd ["get"; "gets"] c = false
  ∧ is_cmd ["set"; "add"; "replace"; "cas"; "append"; "prepend"] c = true
  ∧ bytes_eqb c (bstr "cas") = false.
Proof.
  intros Hc. split; [by eapply is_cmd_word|]. cmd_cases Hc; by vm_compute.
Qed.

Lemma parse_number n : is_i64 n → ParseInt (Itoa n) 10 0 = (n, None).
Proof.
  intros Hn. pose proof (Atoi_Itoa n Hn) as Ha. unfold Atoi in Ha. destruct (ParseInt (Itoa n) 10 0) as [m [e|]]; congruence.
Qed.

Lemma read_storage_ok t c k it nr req b r now :
  bytes_eqb c (bstr "cas") = false → is_i64 (mi_Flag it) → is_i64 (mi_Exptime it) →
  value_ok r (zlen (mi_Body it)) → rq_Cmd req = c →
  ∃ res, read_storage mc H req
      (c :: [k; Itoa (mi_Flag it); Itoa (mi_Exptime it); Itoa (zlen (mi_Body it))] ++ noreply_words nr)
      (mi_Body it ++ crlf ++ b) r now = Some res
    ∧ rr_err res = None ∧ rr_rest res = b ∧ rr_token res = true
    ∧ same_request (mkRequest t c [k] (Some (mkMcItem t (mi_Flag it) (mi_Exptime it) 0 (mi_arr it))) nr) (rr_req res)
    ∧ received now (rr_req res).
Proof.
  intros Hcas Hf He Hv Hcmd. unfold read_storage.
  set (parts := c :: _ ++ noreply_words nr).
  assert (length parts = 5 + length (noreply_words nr))%nat as Hlen by done.
  assert ((length parts <? 5)%nat || (7 <? length parts)%nat = false) as -> by (rewrite Hlen; by destruct nr).
  change (part parts 1) with k. change (part parts 2) with (Itoa (mi_Flag it)).
  change (part parts 3) with (Itoa (mi_Exptime it)). change (part parts 4) with (Itoa (zlen (mi_Body it))).
  rewrite !parse_number by done. pose proof (zlen_nonneg (mi_Body it)) as Hn0.
  rewrite Atoi_Itoa by (destruct Hv as [[? ?] _ _]; unfold is_i64; lia).
  assert (IsValidValueSize mc (u32 (zlen (mi_Body it))) = true) as ->.
  { destruct Hv as [[? ?] _ _]. unfold IsValidValueSize. rewrite !u32_small by (unfold is_u32; lia). lia. }
  assert ((BodyBig mc <? zlen (mi_Body it)) && (FlushMax mc <? rl_Size (FlushData r)) = false) as ->
    by (destruct (vo_flush _ _ Hv); lia).
  cbn [negb]. unfold rq_with_keys at 1. cbn [rq_Cmd]. rewrite Hcmd, Hcas.
  assert ((5 <? length parts)%nat && negb (is_noreply parts 5) = false ∧ is_noreply parts 5 = nr) as [-> ->]
    by (unfold is_noreply, parts; destruct nr; by vm_compute).
  destruct (read_value_ok (rq_with_noreply (rq_with_keys req [k]) nr)
    (mkMcItem now (mi_Flag it) (mi_Exptime it) 0 nilCArray) r b (mi_Body it) Hv)
    as (res & -> & He' & Hr & Ht & arr & Hb & Hq).
  exists res. split_and!; try done; rewrite Hq; unfold same_request, received; cbn; rewrite ?Hcmd.
  - split_and!; try done. constructor. by split_and!.
  - by intros ? [= <-] _.
Qed.

Lemma read_back req0 req b r now :
  req_ok r req → idle req0 req →
  ∃ out res, Request_Write req = Some (inl out)
    ∧ Request_Read mc H req0 (out ++ b) r now = Some res
    ∧ rr_err res = None ∧ rr_rest res = b ∧ same_request req (rr_req res) ∧ received now (rr_req res).
Proof.
  destruct req0 as [t0 c0 ks0 i0 n0]. intros Hok (Hi0 & Hn0 & Hp0). cbn [rq_Item rq_NoReply rq_Keys] in *. subst i0 n0.
  destruct Hok as [t c ks Hc Hne Hks|t c k it nr Hc Hk Hf He Hcas Hv|t k nr Hk|t c k it nr Hc Hk Hb Hf He Hcas|t c Hc|t ks Hks].
  - assert (word c) as Hw by (by eapply is_cmd_word).
    exists (c ++ words ks ++ crlf). assert (Request_Write (mkRequest t c ks None false) = Some (inl (c ++ words ks ++ crlf)))
      as -> by (cmd_cases Hc; done).
    rewrite <- !app_assoc, Request_Read_line by done. unfold read_parts. rewrite Hc.
    destruct ks as [|k ks]; [done|]. cbn [length Nat.ltb Nat.leb]. read_done.
  - destruct (storage_not_cas c Hc) as (Hw & H1 & H2 & H3 & H4 & H5).
    set (ws := [k; Itoa (mi_Flag it); Itoa (mi_Exptime it); Itoa (zlen (mi_Body it))] ++ noreply_words nr).
    assert (Forall word ws) as Hws.
    { apply Forall_app. split; [|apply noreply_words_ok]. repeat (apply Forall_cons; split; [done || apply Itoa_word|]). done. }
    destruct (read_storage_ok t c k it nr (mkRequest now c ks0 None false) b r now) as (res & Hr & Herr & Hrest & _ & Hs & Hnow);
      [done..|]. exists (c ++ words ws ++ crlf ++ mi_Body it ++ crlf), res.
    split; [|split; [|split; [done|split; [done|split; [|done]]]]].
    + unfold Request_Write. cbn [rq_Cmd rq_Keys rq_Item]. rewrite H1, H2, H5, noreply_text_words.
      cbn [rq_NoReply lookup list_lookup mbind option_bind]. unfold ws. rewrite words_app, !words_cons.
      change (words []) with (@nil Z). rewrite app_nil_r.
      by flat.
    + flat. rewrite Request_Read_line by done. unfold read_parts. rewrite H3, H4. exact Hr.
    + destruct Hs as (Hs1 & Hs2 & Hs3 & Hi). split; [done|]. split; [done|]. split; [done|].
      cbn [rq_Item] in Hi |- *. destruct (rq_Item (rr_req res)) as [y|]; [|by inversion Hi].
      apply Some_Forall2_inj in Hi. constructor. unfold same_item in *. by rewrite Hcas.
  - set (ws := k :: noreply_words nr).
    assert (Forall word ws) as Hws by (apply Forall_cons; split; [done|apply noreply_words_ok]).
    exists (bstr "delete" ++ words ws ++ crlf).
    assert (Request_Write (mkRequest t (bstr "delete") [k] None nr) = Some (inl (bstr "delete" ++ words ws ++ crlf))) as ->.
    { unfold Request_Write, ws. rewrite words_cons. destruct nr; cbn; by rewrite <- ?app_assoc, ?app_nil_r. }
    rewrite <- !app_assoc, Request_Read_line by (try done; by eapply (is_cmd_word ["delete"])).
    unfold ws. destruct nr; read_done.
  - assert (word c) as Hw by (by eapply is_cmd_word).
    set (ws := k :: mi_Body it :: noreply_words nr).
    assert (Forall word ws) as Hws by (repeat (apply Forall_cons; split; [done|]); apply noreply_words_ok).
    exists (c ++ words ws ++ crlf).
    assert (Request_Write (mkRequest t c [k] (Some it) nr) = Some (inl (c ++ words ws ++ crlf))) as ->.
    { unfold Request_Write, ws. rewrite !words_cons. cmd_cases Hc; destruct nr; cbn;
        by flat. }
    rewrite <- !app_assoc, Request_Read_line by done. unfold ws.
    cmd_cases Hc; destruct nr; read_done.
  - assert (word c) as Hw by (by eapply is_cmd_word). cbn [rq_Cmd] in Hp0. rewrite (Hp0 Hc).
    exists (c ++ words [] ++ crlf).
    assert (Request_Write (mkRequest t c [] None false) = Some (inl (c ++ words [] ++ crlf))) as ->
      by (cmd_cases Hc; done).
    rewrite <- !app_assoc, Request_Read_line by done.
    cmd_cases Hc; read_done.
  - exists (bstr "stats" ++ words ks ++ crlf). rewrite <- !app_assoc.
    rewrite Request_Read_line by (try done; by eapply (is_cmd_word ["stats"])). read_done.
Qed.


(** C39. The size check of a value cuts its length to 32 bits: with every storage command
    but cas, every key, flag and expiry, and every negative length whose remainder modulo
    2^32 is an acceptable size, the check is passed and the allocation of the value
    panics. *)
Theorem negative_length_panics req c k flag exptime n nr b r now :
  is_cmd ["set"; "add"; "replace"; "append"; "prepend"] c = true → word k → is_i64 flag → is_i64 exptime → is_i64 n →
  n < 0 → IsValidValueSize mc (u32 n) = true → 0 <= BodyBig mc → 0 <= BodyInC mc →
  Request_Read mc H req (c ++ words ([k; Itoa flag; Itoa exptime; Itoa n] ++ noreply_words nr) ++ crlf ++ b) r now = None.
Proof.
  intros Hc Hk Hf He Hn Hneg Hsz Hbig Hin. destruct (storage_not_cas c Hc) as (Hw & _ & _ & H3 & H4 & H5).
  rewrite Request_Read_line; [|done|].
  2:{ apply Forall_app. split; [|apply noreply_words_ok]. repeat (apply Forall_cons; split; [by try apply Itoa_word|]). constructor. }
  unfold read_parts. rewrite H3, H4. unfold read_storage. set (parts := c :: _ ++ noreply_words nr).
  assert ((length parts <? 5)%nat || (7 <? length parts)%nat = false) as -> by (unfold parts; by destruct nr).
  change (part parts 2) with (Itoa flag). change (part parts 3) with (Itoa exptime). change (part parts 4) with (Itoa n).
  rewrite !parse_number, Atoi_Itoa, Hsz by done. rewrite (proj2 (Z.ltb_ge (BodyBig mc) n)) by lia.
  cbn [negb andb rq_with_keys rq_Cmd]. rewrite H5.
  assert ((5 <? length parts)%nat && negb (is_noreply parts 5) = false) as -> by (unfold is_noreply, parts; destruct nr; by vm_compute).
  unfold read_value, Alloc. by rewrite (proj2 (Z.leb_le n (BodyInC mc))), (proj2 (Z.ltb_lt n 0)) by lia.
Qed.

(** ** Responses *)

(** An item a server may answer with. *)
Record item_ok (cas : bool) (p : bytes * McItem) : Prop := {
  io_key : word (fst p);
  io_flag : is_i64 (mi_Flag (snd p));
  io_exp : mi_Exptime (snd p) = 0;
  io_cas : if cas then is_i64 (mi_Cas (snd p)) else mi_Cas (snd p) = 0;
  io_size : zlen (mi_Body (snd p)) <= BodyMax mc < 2 ^ 32;
  io_alloc : can_alloc mc H (zlen (mi_Body (snd p)))
}.

Definition cas_words (cas : bool) (it : McItem) : list bytes := if cas then [Itoa (mi_Cas it)] else [].

Lemma write_item_words cas key it :
  write_item cas (key, it)
  = bstr "VALUE" ++ words ([key; Itoa (mi_Flag it); Itoa (zlen (mi_Body it))] ++ cas_words cas it)
    ++ crlf ++ mi_Body it ++ crlf.
Proof.
  unfold write_item. rewrite words_app, !words_cons. change (words []) with (@nil Z). rewrite app_nil_r.
  unfold cas_words. destruct cas; [rewrite words_cons; change (words []) with (@nil Z); rewrite app_nil_r|]; cbn [words]; by flat.
Qed.

Lemma read_VALUE_ok cas key it b r :
  item_ok cas (key, it) →
  ∃ it' r', read_VALUE mc H (bstr "VALUE" :: [key; Itoa (mi_Flag it); Itoa (zlen (mi_Body it))] ++ cas_words cas it)
      (mi_Body it ++ crlf ++ b) r = Some (inl (key, it', b, r')) ∧ same_item it it'.
Proof.
  intros [Hk Hf He Hcas [Hmax Hlt] Hal]. cbn [fst snd] in *. unfold read_VALUE.
  set (parts := bstr "VALUE" :: _). assert (length parts = 4 + length (cas_words cas it))%nat as Hlen by done.
  assert ((length parts <? 4)%nat = false) as -> by (apply Nat.ltb_ge; lia).
  change (part parts 1) with key. change (part parts 2) with (Itoa (mi_Flag it)).
  change (part parts 3) with (Itoa (zlen (mi_Body it))). pose proof (zlen_nonneg (mi_Body it)) as Hn0.
  rewrite !Atoi_Itoa by (try done; unfold is_i64; lia).
  assert (IsValidValueSize mc (u32 (zlen (mi_Body it))) = true) as ->.
  { unfold IsValidValueSize. rewrite !u32_small by (unfold is_u32; lia). lia. }
  cbn [negb]. assert ((if (length parts =? 5)%nat then Atoi (part parts 4) else Some 0) = Some (mi_Cas it)) as ->.
  { rewrite Hlen. unfold parts, cas_words in *. destruct cas; cbn; [by apply Atoi_Itoa|by rewrite Hcas]. }
  destruct (Alloc_ok mc H (zlen (mi_Body it)) r Hn0 Hal) as (arr & r1 & -> & _). cbn [mbind option_bind negb].
  unfold read_full, zlen. rewrite Nat2Z.id, length_app.
  destruct (Nat.leb_spec (length (mi_Body it)) (length (mi_Body it) + length (crlf ++ b))); [|lia].
  rewrite take_app_length, drop_app_length. destruct Hk as [Hne _]. destruct key as [|k0 key]; [done|].
  cbn [lookup list_lookup mbind option_bind]. eexists _, _. split; [done|]. split_and!; done.
Qed.

Lemma read_lines_item cas key it fuel resp b r :
  item_ok cas (key, it) →
  ∃ it' r', read_lines mc H (S fuel) resp (write_item cas (key, it) ++ b) r
    = read_lines mc H fuel (rs_with_item (rs_with_status resp (bstr "VALUE")) key it') b r' ∧ same_item it it'.
Proof.
  intros Hok. destruct (read_VALUE_ok cas key it b r Hok) as (it' & r' & Hv & Hs). exists it', r'. split; [|done].
  rewrite write_item_words. set (ws := _ ++ cas_words cas it) in *.
  assert (Forall word ws) as Hws.
  { apply Forall_app. split; [repeat (apply Forall_cons; split; [apply Hok || apply Itoa_word|]); done|].
    unfold cas_words. destruct cas; [apply Forall_singleton, Itoa_word|done]. }
  flat. destruct (line_split (bstr "VALUE") ws (mi_Body it ++ crlf ++ b)) as (s & Hl & _ & Hp);
    [by eapply (is_cmd_word ["VALUE"])|done|].
  cbn [read_lines]. rewrite Hl, Hp. cbn [mbind option_bind].
  assert (is_cmd ["VALUE"] (bstr "VALUE") = true) as -> by done. by rewrite Hv.
Qed.

Lemma read_lines_items cas items : ∀ fuel resp b r,
  Forall (item_ok cas) items → NoDup (fst <$> items) → (length items <= fuel)%nat →
  ∃ resp' r', read_lines mc H fuel resp ((items ≫= write_item cas) ++ b) r
      = read_lines mc H (fuel - length items) resp' b r'
    ∧ rs_Msg resp' = rs_Msg resp ∧ ∀ key, option_Forall2 same_item
        (match (list_to_map items : gmap bytes McItem) !! key with Some it => Some it | None => rs_Items resp !! key end)
        (rs_Items resp' !! key).
Proof.
  induction items as [|[key it] items IH]; intros fuel resp b r Hok Hnd Hf.
  { exists resp, r. rewrite Nat.sub_0_r. split; [done|]. split; [done|]. intros key. cbn. rewrite lookup_empty.
    destruct (rs_Items resp !! key); constructor. by split_and!. }
  apply Forall_cons in Hok as [Hit Hok]. rewrite fmap_cons in Hnd. apply NoDup_cons in Hnd as [Hni Hnd].
  destruct fuel as [|fuel]; cbn [length] in Hf; [lia|]. cbn [mbind list_bind].
  change (list_bind _ ?f ?x) with (x ≫= f). rewrite <- app_assoc.
  destruct (read_lines_item cas key it fuel resp ((items ≫= write_item cas) ++ b) r Hit) as (it' & r1 & -> & Hs).
  destruct (IH fuel (rs_with_item (rs_with_status resp (bstr "VALUE")) key it') b r1 Hok Hnd ltac:(lia))
    as (resp' & r' & -> & Hm & Hi).
  exists resp', r'. split; [done|]. split; [done|]. intros k. specialize (Hi k). cbn [list_to_map foldr fst snd].
  cbn in Hi. destruct (decide (k = key)) as [->|Hk].
  - change (foldr _ _ _) with (list_to_map items : gmap bytes McItem).
    rewrite lookup_insert_eq. rewrite (not_elem_of_list_to_map_1 items key) in Hi by done.
    rewrite lookup_insert_eq in Hi. inversion Hi as [x y Hxy|]; constructor.
    unfold same_item in *. naive_solver congruence.
  - change (foldr _ _ _) with (list_to_map items : gmap bytes McItem).
    rewrite lookup_insert_ne by done. by rewrite lookup_insert_ne in Hi by done.
Qed.

Lemma length_items cas items : (length items <= length (items ≫= write_item cas))%nat.
Proof.
  induction items as [|[k it] items IH]; [done|]. cbn [mbind list_bind length]. change (list_bind _ ?f ?x) with (x ≫= f).
  rewrite length_app. assert (0 < length (write_item cas (k, it)))%nat by (unfold write_item; cbn; lia). lia.
Qed.

Lemma items_read_back cas items m b r :
  Forall (item_ok cas) items → NoDup (fst <$> items) → m = list_to_map items →
  ∃ resp' r',
    Response_Read mc H newResponse (Response_Write (mkResponse (bstr "VALUE") [] cas false m) items ++ b) r
    = Some (None, resp', b, r')
    ∧ rs_Status resp' = bstr "END" ∧ ∀ key, option_Forall2 same_item (m !! key) (rs_Items resp' !! key).
Proof.
  intros Hok Hnd ->. unfold Response_Read, Response_Write. cbn [rs_Noreply rs_Status rs_Cas].
  assert (is_cmd ["VALUE"] (bstr "VALUE") = true) as -> by done. rewrite <- !app_assoc.
  destruct (read_lines_items cas items (S (length ((items ≫= write_item cas) ++ bstr "END" ++ crlf ++ b)))
    (mkResponse [] [] false false ∅) (bstr "END" ++ crlf ++ b) r Hok Hnd) as (resp' & r' & Hr & _ & Hi).
  { pose proof (length_items cas items). rewrite length_app. lia. }
  cbn [rs_Status rs_Msg rs_Cas rs_Noreply newResponse]. rewrite Hr.
  destruct (S _ - length items)%nat as [|n] eqn:Hn.
  { pose proof (length_items cas items). rewrite length_app in Hn. lia. }
  destruct (line_split (bstr "END") [] b) as (s & Hl & _ & Hp); [by eapply (is_cmd_word ["END"])|constructor|].
  cbn [read_lines]. change (words [] ++ crlf ++ b) with (crlf ++ b) in Hl. rewrite Hl, Hp. cbn [mbind option_bind].
  eexists _, r'. split; [done|]. split; [done|]. intros key. specialize (Hi key).
  cbn [rs_Items rs_with_status] in Hi |- *. rewrite lookup_empty in Hi.
  by destruct ((list_to_map items : gmap bytes McItem) !! key).
Qed.

(** C17. A response to a get is read back by the client: the items a server writes,
    in whatever order the map is traversed and with or without their cas numbers,
    come back with the same keys, flags and values, and what follows the response
    in the stream is left alone. *)
Theorem response_round_trip cas items m b r :
  Forall (item_ok cas) items → NoDup (fst <$> items) → m = list_to_map items →
  ∃ resp' r',
    Response_Read mc H newResponse (Response_Write (mkResponse (bstr "VALUE") [] cas false m) items ++ b) r
    = Some (None, resp', b, r')
    ∧ rs_Status resp' = bstr "END" ∧ ∀ key, option_Forall2 same_item (m !! key) (rs_Items resp' !! key).
Proof. apply items_read_back. Qed.

End RoundTrip.

(** ** Concrete connections *)

Definition demo_set_req : Request :=
  mkRequest 0 (bstr "set") [bstr "greeting"] (Some (mkMcItem 0 3 0 0 (mkCArray (bstr "hello") 0 0))) true.

Lemma bstr_word s : bstr s ≠ [] → forallb (λ c, negb (c =? SP) && negb (c =? LF)) (bstr s) = true → word (bstr s).
Proof.
  intros Hne Hch. split; [done|]. apply Forall_forall. intros c Hc. rewrite forallb_forall in Hch.
  specialize (Hch c ltac:(by apply list_elem_of_In)). apply andb_true_iff in Hch as [H1 H2].
  by apply negb_true_iff, Z.eqb_neq in H1, H2.
Qed.


Definition demo_answer : list (bytes * McItem) :=
  [(bstr "b", mkMcItem 0 1 0 7 (mkCArray (bstr "x y") 0 0)); (bstr "a", mkMcItem 0 (-2) 0 8 (mkCArray [] 0 0))].

Lemma response_round_trip_witness :
  ∃ resp' r',
    Response_Read DefaultMCConfig demo_heap newResponse
      (Response_Write (mkResponse (bstr "VALUE") [] true false (list_to_map demo_answer)) demo_answer ++ bstr "OK") ResetAll
    = Some (None, resp', bstr "OK", r') ∧ rs_Status resp' = bstr "END".
Proof.
  destruct (response_round_trip DefaultMCConfig demo_heap true demo_answer (list_to_map demo_answer) (bstr "OK") ResetAll)
    as (resp' & r' & Hr & Hs & _).
  - repeat (apply Forall_cons; split; [split; [by apply bstr_word|done|done|done|done|left; by vm_compute]|]). done.
  - apply (bool_decide_unpack (NoDup (fst <$> demo_answer))). by vm_compute.
  - done.
  - exists resp', r'. split; [exact Hr|exact Hs].
Defined.

(** A cas request is not read back: [Write] prints the cas number before the
    length of the value and [Read] expects the length first, so the server takes
    the cas number 1 for the length of the 5-byte value and refuses the data. *)
Theorem cas_request_misread :
  let req := mkRequest 0 (bstr "cas") [bstr "k"] (Some (mkMcItem 0 0 0 1 (mkCArray (bstr "hello") 0 0))) false in
  ∃ out, Request_Write req = Some (inl out)
    ∧ (rr_err <$> Request_Read DefaultMCConfig demo_heap newRequest out ResetAll 0) = Some (Some ErrBadDataChunk).
Proof. eexists. split; [reflexivity|]. by vm_compute. Qed.

Lemma negative_length_panics_witness :
  Request_Read DefaultMCConfig demo_heap newRequest (bstr "set k 0 0 -4294967291" ++ crlf) ResetAll 0 = None.
Proof.
  apply (negative_length_panics DefaultMCConfig demo_heap newRequest (bstr "set") (bstr "k") 0 0 (-4294967291) false [] ResetAll 0);
    first [by apply bstr_word|by vm_compute].
Defined.
