(* ===== verification/Server.v ===== *)
(** * Serving requests (src/memcache/protocol.go, server.go, stats.go, store.go)

    [StorageClient] is the interface the server asks for its data. [Process] turns
    a request into calls of it and a response; [ServeOnce] reads a request from the
    connection, processes it and writes the response. An error of the storage is
    its text. [None] is a panic; [ServeOnce] recovers from one, logs it and goes
    on, with whatever it left of the store, which is not modelled. The access log
    ([ServerIO]) and the request tokens ([Token]) are left out here. *)

From stdpp Require Import gmap.
From S2P Require Import Prelude Strconv Config Cmem Fixtures Protocol.

(** ** The storage interface *)

(** [S] is the storage together with the process-wide limiters. *)
Class StorageClient (S : Type) := {
  sc_Get : S → bytes → option ((option McItem + bytes) * S);
  sc_GetMulti : S → list bytes → option ((gmap bytes McItem + bytes) * S);
  sc_Set : S → bytes → McItem → bool → option ((bool + bytes) * S);
  sc_Append : S → bytes → bytes → option ((bool + bytes) * S);
  sc_Incr : S → bytes → Z → option ((Z + bytes) * S);
  sc_Delete : S → bytes → option ((bool + bytes) * S);
  sc_Len : S → option Z;
  sc_Process : S → bytes → list bytes → bytes * bytes;
  sc_rl : S → BeansdbRL;
  sc_with_rl : S → BeansdbRL → S
}.

(** ** Statistics *)

Record Stats := mkStats {
  cmd_get : Z; cmd_set : Z; cmd_delete : Z;
  get_hits : Z; get_misses : Z;
  curr_connections : Z; total_connections : Z;
  bytes_read : Z; bytes_written : Z;
  slow_cmd : Z
}.
Definition NewStats : Stats := mkStats 0 0 0 0 0 0 0 0 0 0.

Definition count_get (st : Stats) (keys hits bytes : Z) : Stats :=
  mkStats (i64 (cmd_get st + keys)) (cmd_set st) (cmd_delete st)
    (i64 (get_hits st + hits)) (i64 (get_misses st + (keys - hits)))
    (curr_connections st) (total_connections st) (bytes_read st) (i64 (bytes_written st + bytes)) (slow_cmd st).
Definition count_cmd_get (st : Stats) : Stats :=
  mkStats (i64 (cmd_get st + 1)) (cmd_set st) (cmd_delete st) (get_hits st) (get_misses st)
    (curr_connections st) (total_connections st) (bytes_read st) (bytes_written st) (slow_cmd st).
Definition count_hit (st : Stats) (hit : bool) (bytes : Z) : Stats :=
  mkStats (cmd_get st) (cmd_set st) (cmd_delete st)
    (if hit then i64 (get_hits st + 1) else get_hits st) (if hit then get_misses st else i64 (get_misses st + 1))
    (curr_connections st) (total_connections st) (bytes_read st) (i64 (bytes_written st + bytes)) (slow_cmd st).
Definition count_set (st : Stats) (bytes : Z) : Stats :=
  mkStats (cmd_get st) (i64 (cmd_set st + 1)) (cmd_delete st) (get_hits st) (get_misses st)
    (curr_connections st) (total_connections st) (i64 (bytes_read st + bytes)) (bytes_written st) (slow_cmd st).
Definition count_delete (st : Stats) : Stats :=
  mkStats (cmd_get st) (cmd_set st) (i64 (cmd_delete st + 1)) (get_hits st) (get_misses st)
    (curr_connections st) (total_connections st) (bytes_read st) (bytes_written st) (slow_cmd st).

Definition count_slow (st : Stats) : Stats :=
  mkStats (cmd_get st) (cmd_set st) (cmd_delete st) (get_hits st) (get_misses st)
    (curr_connections st) (total_connections st) (bytes_read st) (bytes_written st) (i64 (slow_cmd st + 1)).

(** [Stats.Stats]; [sys] are the values of the running process: time, uptime, pid,
    threads and the resource usage. *)
Definition Stats_map (st : Stats) (sys : list (bytes * Z)) : gmap bytes Z :=
  list_to_map
    ([(bstr "cmd_get", cmd_get st); (bstr "cmd_set", cmd_set st); (bstr "cmd_delete", cmd_delete st);
      (bstr "get_hits", get_hits st); (bstr "get_misses", get_misses st);
      (bstr "curr_connections", curr_connections st); (bstr "total_connections", total_connections st);
      (bstr "bytes_read", bytes_read st); (bstr "bytes_written", bytes_written st); (bstr "slow_cmd", slow_cmd st);
      (bstr "avail_space", 0); (bstr "total_space", 0); (bstr "curr_items", 0)] ++ sys).

Definition stat_line (p : bytes * Z) : bytes := bstr "STAT " ++ fst p ++ SP :: Itoa (snd p) ++ crlf.

(** ** Processing a request *)

Definition set_status (resp : Response) (st msg : bytes) : Response :=
  mkResponse st msg (rs_Cas resp) (rs_Noreply resp) (rs_Items resp).

Section Process.
Context {S : Type} `{SC : StorageClient S}.
Context (mc : MCConfig) (version : bytes) (sys : list (bytes * Z)).

(** The orders in which Go ranges over maps. *)
Context (item_order : gmap bytes McItem → list (bytes * McItem)) (stat_order : gmap bytes Z → list (bytes * Z)).

Definition total_bytes (items : gmap bytes McItem) : Z :=
  zsum ((λ p, zlen (mi_Body (snd p))) <$> item_order items).

(** What [Process] leaves: the response ([None] for quit), whether an error is
    returned, the storage, the statistics. *)
Definition process_result : Type := option Response * bool * S * Stats.

Definition server_error (resp : Response) (text : bytes) : Response :=
  set_status resp (bstr "SERVER_ERROR") text.

Definition is_inr {A B} (x : A + B) : bool := if x is inr _ then true else false.

Definition process_get (req : Request) (resp : Response) (s : S) (st : Stats) : option process_result :=
  if negb (forallb (λ k, IsValidKeySize mc (u32 (zlen k))) (rq_Keys req)) then
    Some (Some (set_status resp (bstr "CLIENT_ERROR") (bstr "key length error")), false, s, st)
  else
    let resp := mkResponse (bstr "VALUE") [] (bytes_eqb (rq_Cmd req) (bstr "gets")) (rs_Noreply resp) ∅ in
    if (1 <? length (rq_Keys req))%nat then
      '(res, s) ← sc_GetMulti s (rq_Keys req);
      match res with
      | inr e => Some (Some (server_error resp e), true, s, st)
      | inl items =>
          Some (Some (mkResponse (rs_Status resp) [] (rs_Cas resp) (rs_Noreply resp) items), false, s,
                count_get st (zlen (rq_Keys req)) (Z.of_nat (size items)) (total_bytes items))
      end
    else
      let st := count_cmd_get st in
      key ← rq_Keys req !! 0%nat;
      '(res, s) ← sc_Get s key;
      match res with
      | inr e => Some (Some (server_error resp e), true, s, st)
      | inl None => Some (Some resp, false, s, count_hit st false 0)
      | inl (Some item) => Some (Some (rs_with_item resp key item), false, s, count_hit st true (zlen (mi_Body item)))
      end.

Definition stored_status (suc : bool) : bytes := if suc then bstr "STORED" else bstr "NOT_STORED".

Definition process_stats (req : Request) (resp : Response) (s : S) (st : Stats) : option process_result :=
  n ← sc_Len s;
  let m := <[bstr "total_items" := n]> (<[bstr "curr_items" := n]> (Stats_map st sys)) in
  let lines := match rq_Keys req with
    | [] => (stat_order m ≫= stat_line) ++ bstr "STAT version " ++ version ++ crlf
    | keys => keys ≫= λ k, stat_line (k, default 0 (m !! k))
    end in
  Some (Some (set_status resp (bstr "STAT") lines), false, s, st).

(** [Request.Process]; the errors of [incr] are those of a shadowing variable and
    are not returned. *)
Definition Process (req : Request) (s : S) (st : Stats) : option process_result :=
  let resp := mkResponse [] [] false (rq_NoReply req) ∅ in
  let c := rq_Cmd req in
  if is_cmd ["get"; "gets"] c then process_get req resp s st
  else if is_cmd ["set"; "add"; "replace"; "cas"] c then
    item ← rq_Item req;
    let st := count_set st (zlen (mi_Body item)) in
    key ← rq_Keys req !! 0%nat;
    '(res, s) ← sc_Set s key item (rq_NoReply req);
    Some (Some (match res with
                | inr e => server_error resp e
                | inl suc => set_status resp (stored_status suc) []
                end), is_inr res, s, st)
  else if is_cmd ["append"] c then
    item ← rq_Item req;
    let st := count_set st (zlen (mi_Body item)) in
    key ← rq_Keys req !! 0%nat;
    '(res, s) ← sc_Append s key (mi_Body item);
    Some (Some (match res with
                | inr e => server_error resp e
                | inl suc => set_status resp (stored_status suc) []
                end), is_inr res, s, st)
  else if is_cmd ["incr"] c then
    item ← rq_Item req;
    let st := count_set st (zlen (mi_Body item)) in
    key ← rq_Keys req !! 0%nat;
    match Atoi (mi_Body item) with
    | None => Some (Some (set_status resp (bstr "CLIENT_ERROR") (bstr "invalid number")), false, s, st)
    | Some add =>
        '(res, s) ← sc_Incr s key add;
        Some (Some (match res with
                    | inr e => server_error resp e
                    | inl n => set_status resp (bstr "INCR") (Itoa n)
                    end), false, s, st)
    end
  else if is_cmd ["delete"] c then
    key ← rq_Keys req !! 0%nat;
    '(res, s) ← sc_Delete s key;
    match res with
    | inr e => Some (Some (server_error resp e), true, s, st)
    | inl suc => Some (Some (set_status resp (if suc : bool then bstr "DELETED" else bstr "NOT_FOUND") []), false, s, count_delete st)
    end
  else if is_cmd ["stats"] c then process_stats req resp s st
  else if is_cmd ["version"] c then Some (Some (set_status resp (bstr "VERSION") version), false, s, st)
  else if is_cmd ["verbosity"; "flush_all"] c then Some (Some (set_status resp (bstr "OK") []), false, s, st)
  else Some (None, false, s, st).

(** ** One round of a connection *)

Context (H : CHeap).

Definition proto_text (e : ProtoErr) : bytes :=
  match e with
  | ErrInvalidCmd => bstr "invalid cmd"
  | ErrNonMemcacheCmd => bstr "non memcache command"
  | ErrValueTooLarge => bstr "value too large"
  | ErrKeyLength => bstr "key length error"
  | ErrBadDataChunk => bstr "bad data chunk"
  | ErrNetworkError => bstr "network error"
  | ErrOOM => bstr "memory shortage"
  | ErrAllocFail n => bstr "fail to alloc " ++ Itoa n
  | ErrInvalidResponse => bstr "invalid response"
  | ErrUnknown => bstr "unknown"
  end.

(** After [ServeOnce]: what was written, the request object, the rest of the
    input, whether the connection is to be closed, the storage, the statistics. *)
Record served := mkServed {
  sv_out : bytes;
  sv_req : Request;
  sv_rest : bytes;
  sv_close : bool;
  sv_store : S;
  sv_stats : Stats
}.

(** The deferred clean-up: the items of the response are given back. *)
Definition clean (resp : option Response) (s : S) : option S :=
  match resp with
  | None => Some s
  | Some resp => '(_, r) ← CleanBuffer resp (item_order (rs_Items resp)) (sc_rl s); Some (sc_with_rl s r)
  end.

(** The response is written, unless the request asked for none or took too long;
    an error of [Process] is returned, and closes the connection, only then. *)
Definition silent (resp : Response) (timeout late : bool) : bool := rs_Noreply resp || (negb timeout && late).
Definition reply (resp : Response) (timeout late : bool) : bytes :=
  if silent resp timeout late then []
  else Response_Write resp (item_order (rs_Items resp)).

Definition finish (resp : option Response) (out : bytes) (req : Request) (rest : bytes) (close : bool) (s : S) (st : Stats)
    : option served :=
  s ← clean resp s;
  Some (mkServed out (rq_Clear req) rest close s st).

(** [ServeOnce]; [recv_late] and [late] are whether the request was overdue when
    it had been read and when it had been processed, [slow] whether processing it
    took long. *)
Definition ServeOnce (req : Request) (b : bytes) (s : S) (st : Stats) (now : Z) (recv_late slow late : bool)
    : option served :=
  rd ← Request_Read mc H req b (sc_rl s) now;
  let req := rr_req rd in
  let s := sc_with_rl s (rr_rl rd) in
  match rr_err rd with
  | Some e =>
      let s := match rq_Item req with
        | Some it => sc_with_rl s (Free (mi_arr it) (sc_rl s)).2
        | None => s
        end in
      let answer resp := finish (Some resp) (reply resp false late) req (rr_rest rd) false s st in
      match e with
      | ErrNetworkError => finish None [] req (rr_rest rd) true s st
      | ErrNonMemcacheCmd =>
          let '(status, msg) := sc_Process s (rq_Cmd req) (rq_Keys req) in
          answer (mkResponse status msg false false ∅)
      | ErrOOM => answer (mkResponse (bstr "NOT_STORED") [] false false ∅)
      | e => answer (mkResponse (bstr "CLIENT_ERROR") (proto_text e) false false ∅)
      end
  | None =>
      if recv_late then
        let resp := mkResponse (bstr "RECV_TIMEOUT") (bstr "recv_timeout") false false ∅ in
        finish (Some resp) (reply resp true late) req (rr_rest rd) false s st
      else
        '(resp, perr, s, st) ← Process req s st;
        let st := if slow then count_slow st else st in
        match resp with
        | None => finish None [] req (rr_rest rd) true s st
        | Some resp =>
            finish (Some resp) (reply resp false late) req (rr_rest rd) (perr && silent resp false late) s st
        end
  end.

(** [Serve]: rounds until the connection closes, at most [fuel]; the clocks are
    not late. *)
Fixpoint Serve (fuel : nat) (req : Request) (b : bytes) (s : S) (st : Stats) (now : Z) (out : bytes)
    : option (bytes * S * Stats) :=
  match fuel with
  | O => None
  | Datatypes.S fuel =>
      sv ← ServeOnce req b s st now false false false;
      if sv_close sv then Some (out ++ sv_out sv, sv_store sv, sv_stats sv)
      else Serve fuel (sv_req sv) (sv_rest sv) (sv_store sv) (sv_stats sv) now (out ++ sv_out sv)
  end.

End Process.
