(* ===== verification/ServerSpec.v ===== *)
(** * What the server promises, from what its storage promises

    [StorageModel] is an abstract storage: a state with a view of every key and the
    effect of the commands. [StorageLaws] says that a storage client behaves like
    it. Against these laws, [Process] answers every request as the model does, and
    a round of [ServeOnce] turns the bytes of a request into the bytes of that
    answer. *)

From stdpp Require Import gmap.
From S2P Require Import Prelude Strconv Config Cmem Fixtures Protocol ProtocolProps Server.

(** [sm_set], [sm_delete] and [sm_incr] give the result of the command and the new
    state; the [_ok] predicates are the requests within the storage's limits. *)
Record StorageModel (C : Type) := mkModel {
  sm_key : C → bytes → Prop;
  sm_view : C → bytes → option (Z * bytes);
  sm_set : C → bytes → McItem → (bool + bytes) * C;
  sm_delete : C → bytes → (bool + bytes) * C;
  sm_incr : C → bytes → Z → Z * C;
  sm_set_ok : C → bytes → McItem → Prop;
  sm_delete_ok : C → bytes → Prop;
  sm_incr_ok : C → bytes → Z → Prop
}.
Arguments sm_key {C}. Arguments sm_view {C}. Arguments sm_set {C}. Arguments sm_delete {C}. Arguments sm_incr {C}.
Arguments sm_set_ok {C}. Arguments sm_delete_ok {C}. Arguments sm_incr_ok {C}.

(** The items of an answer are what the model shows of the keys. *)
Definition shows {C} (M : StorageModel C) (c : C) (ks : list bytes) (items : gmap bytes McItem) : Prop :=
  ∀ k, (λ it, (mi_Flag it, mi_Body it)) <$> items !! k = if decide (k ∈ ks) then sm_view M c k else None.

Class StorageLaws {S C : Type} {SC : StorageClient S} (M : StorageModel C) := {
  sl_rep : S → C → Prop;
  sl_room : S → bytes → Prop;
  sl_nonempty c k : sm_key M c k → k ≠ [];
  sl_rep_rl s c r : sl_rep s c → sl_rep (sc_with_rl s r) c;
  sl_room_rl s k r : sl_room s k → sl_room (sc_with_rl s r) k;
  sl_Get s c k : sl_rep s c → sm_key M c k →
    ∃ res s', sc_Get s k = Some (inl res, s') ∧ sl_rep s' c
      ∧ (λ it, (mi_Flag it, mi_Body it)) <$> res = sm_view M c k;
  sl_GetMulti s c ks : sl_rep s c → Forall (sm_key M c) ks →
    ∃ items s', sc_GetMulti s ks = Some (inl items, s') ∧ sl_rep s' c ∧ shows M c ks items;
  sl_Set s c k it nr : sl_rep s c → sm_key M c k → sm_set_ok M c k it → sl_room s k →
    ∃ s', sc_Set s k it nr = Some (fst (sm_set M c k it), s') ∧ sl_rep s' (snd (sm_set M c k it));
  sl_Delete s c k : sl_rep s c → sm_key M c k → sm_delete_ok M c k → sl_room s k →
    ∃ s', sc_Delete s k = Some (fst (sm_delete M c k), s') ∧ sl_rep s' (snd (sm_delete M c k));
  sl_Incr s c k n : sl_rep s c → sm_key M c k → sm_incr_ok M c k n → sl_room s k →
    ∃ s', sc_Incr s k n = Some (inl (fst (sm_incr M c k n)), s') ∧ sl_rep s' (snd (sm_incr M c k n))
}.

Section Spec.
Context {S C : Type} {SC : StorageClient S} (M : StorageModel C) {SL : StorageLaws M}.
Context (mc : MCConfig) (H : CHeap) (version : bytes) (sys : list (bytes * Z)).
Context (item_order : gmap bytes McItem → list (bytes * McItem)) (stat_order : gmap bytes Z → list (bytes * Z)).
Hypothesis (order_ok : ∀ m, item_order m ≡ₚ map_to_list m).

(** ** Answers *)

Definition plain_answer (status msg : bytes) (nr : bool) : Response := mkResponse status msg false nr ∅.

Definition stored_answer (res : bool + bytes) (nr : bool) : Response :=
  match res with
  | inr e => plain_answer (bstr "SERVER_ERROR") e nr
  | inl suc => plain_answer (stored_status suc) [] nr
  end.
Definition deleted_answer (res : bool + bytes) (nr : bool) : Response :=
  match res with
  | inr e => plain_answer (bstr "SERVER_ERROR") e nr
  | inl suc => plain_answer (if suc : bool then bstr "DELETED" else bstr "NOT_FOUND") [] nr
  end.

Definition failed (resp : Response) : bool := bytes_eqb (rs_Status resp) (bstr "SERVER_ERROR").

(** The requests within the storage's limits, and what the model answers. *)
Inductive answers (c : C) : Request → Response → C → Prop :=
| an_get t cmd ks nr items :
    is_cmd ["get"; "gets"] cmd = true → ks ≠ [] → shows M c ks items →
    answers c (mkRequest t cmd ks None nr) (mkResponse (bstr "VALUE") [] (bytes_eqb cmd (bstr "gets")) nr items) c
| an_set t cmd k it nr :
    is_cmd ["set"; "add"; "replace"] cmd = true →
    answers c (mkRequest t cmd [k] (Some it) nr) (stored_answer (fst (sm_set M c k it)) nr) (snd (sm_set M c k it))
| an_delete t k nr :
    answers c (mkRequest t (bstr "delete") [k] None nr) (deleted_answer (fst (sm_delete M c k)) nr) (snd (sm_delete M c k))
| an_incr t k it nr n :
    Atoi (mi_Body it) = Some n →
    answers c (mkRequest t (bstr "incr") [k] (Some it) nr)
      (plain_answer (bstr "INCR") (Itoa (fst (sm_incr M c k n))) nr) (snd (sm_incr M c k n)).

(** The requests a storage in state [s] serves. *)
Inductive servable (s : S) (c : C) : Request → Prop :=
| sv_get t cmd ks nr :
    is_cmd ["get"; "gets"] cmd = true → ks ≠ [] → Forall (sm_key M c) ks →
    Forall (λ k, IsValidKeySize mc (u32 (zlen k)) = true) ks → servable s c (mkRequest t cmd ks None nr)
| sv_set t cmd k it nr :
    is_cmd ["set"; "add"; "replace"] cmd = true → sm_key M c k → sm_set_ok M c k it → sl_room s k →
    servable s c (mkRequest t cmd [k] (Some it) nr)
| sv_delete t k nr :
    sm_key M c k → sm_delete_ok M c k → sl_room s k → servable s c (mkRequest t (bstr "delete") [k] None nr)
| sv_incr t k it nr n :
    Atoi (mi_Body it) = Some n → sm_key M c k → sm_incr_ok M c k n → sl_room s k →
    servable s c (mkRequest t (bstr "incr") [k] (Some it) nr).

Abbreviation process := (Process mc version sys item_order stat_order).
Abbreviation serve_once := (ServeOnce mc version sys item_order stat_order H).

Lemma shows_singleton c k res :
  (λ it, (mi_Flag it, mi_Body it)) <$> res = sm_view M c k →
  shows M c [k] (match res with Some it => {[k := it]} | None => ∅ end).
Proof.
  intros Hv k'. destruct (decide (k' = k)) as [->|Hne].
  - rewrite decide_True by (by left). rewrite <- Hv. destruct res; [by rewrite lookup_singleton_eq|done].
  - rewrite decide_False by (by intros ?%list_elem_of_singleton). destruct res; [by rewrite lookup_singleton_ne|done].
Qed.

Lemma Process_get t cmd ks nr s c st :
  sl_rep s c → is_cmd ["get"; "gets"] cmd = true → ks ≠ [] → Forall (sm_key M c) ks →
  Forall (λ k, IsValidKeySize mc (u32 (zlen k)) = true) ks →
  ∃ items s' st', process (mkRequest t cmd ks None nr) s st
      = Some (Some (mkResponse (bstr "VALUE") [] (bytes_eqb cmd (bstr "gets")) nr items), false, s', st')
    ∧ sl_rep s' c ∧ shows M c ks items.
Proof.
  intros Hr Hc Hne Hk Hsz. unfold Process. cbn [rq_Cmd rq_Keys rq_NoReply]. rewrite Hc. unfold process_get.
  cbn [rq_Cmd rq_Keys rs_Noreply].
  assert (forallb (λ k, IsValidKeySize mc (u32 (zlen k))) ks = true) as ->
    by (apply forallb_forall; intros k Hin; rewrite Forall_forall in Hsz; by apply Hsz, list_elem_of_In).
  cbn [negb]. destruct (Nat.ltb_spec 1 (length ks)) as [Hlt|Hge].
  - destruct (sl_GetMulti s c ks Hr Hk) as (items & s' & -> & Hr' & Hs). cbn. eauto 10.
  - destruct ks as [|k [|]]; [done| |simpl in Hge; lia]. rewrite Forall_singleton in Hk.
    cbn [lookup list_lookup mbind option_bind].
    destruct (sl_Get s c k Hr Hk) as (res & s' & -> & Hr' & Hv). cbn [mbind option_bind].
    destruct res as [it|]; (eexists _, _, _; split; [done|]; split; [done|]); apply (shows_singleton c k _ Hv).
Qed.

(** Splitting a membership in a list of commands into its cases. *)
Ltac cmd_cases Hc :=
  unfold is_cmd in Hc; cbn [existsb] in Hc;
  repeat (apply orb_true_iff in Hc as [Hc|Hc]; [apply bytes_eqb_true in Hc as <-|]);
  [..|done].

(** Deciding which command a known text is. *)
Ltac known_cmd :=
  repeat match goal with
    | |- context [is_cmd ?l (bstr ?x)] =>
        let v := eval vm_compute in (is_cmd l (bstr x)) in change (is_cmd l (bstr x)) with v; cbn iota
    end.

(** What the answers without items leave to show. *)
Lemma plain_failed st msg nr : failed (plain_answer st msg nr) = bytes_eqb st (bstr "SERVER_ERROR").
Proof. done. Qed.
Lemma stored_failed res nr : failed (stored_answer res nr) = is_inr res.
Proof. destruct res as [[]|e]; by vm_compute. Qed.
Lemma deleted_failed res nr : failed (deleted_answer res nr) = is_inr res.
Proof. destruct res as [[]|e]; by vm_compute. Qed.
Lemma no_items st msg nr k : is_Some (rs_Items (plain_answer st msg nr) !! k) → k ≠ [].
Proof. cbn. intros [x Hx]. by rewrite lookup_empty in Hx. Qed.

(** [Process] answers as the model. *)
Lemma Process_answers req s c st :
  sl_rep s c → servable s c req →
  ∃ resp s' st' c', process req s st = Some (Some resp, failed resp, s', st') ∧ answers c req resp c' ∧ sl_rep s' c'
    ∧ rs_Noreply resp = rq_NoReply req ∧ ∀ k, is_Some (rs_Items resp !! k) → k ≠ [].
Proof.
  intros Hr Hs. destruct Hs as [t cmd ks nr Hc Hne Hk Hsz|t cmd k it nr Hc Hk Hok Hroom|t k nr Hk Hok Hroom|t k it nr n Hn Hk Hok Hroom].
  - destruct (Process_get t cmd ks nr s c st Hr Hc Hne Hk Hsz) as (items & s' & st' & -> & Hr' & Hsh).
    exists (mkResponse (bstr "VALUE") [] (bytes_eqb cmd (bstr "gets")) nr items), s', st', c.
    split; [by vm_compute|]. split; [by constructor|]. split; [done|]. split; [done|].
    cbn [rs_Items]. intros k [it Hit]. specialize (Hsh k). rewrite Hit in Hsh. destruct (decide (k ∈ ks)) as [Hin|]; [|done].
    rewrite Forall_forall in Hk. by eapply sl_nonempty, Hk.
  - destruct (sl_Set s c k it nr Hr Hk Hok Hroom) as (s' & Hset & Hr').
    unfold Process. cbn [rq_Cmd rq_Keys rq_NoReply rq_Item].
    assert (is_cmd ["get"; "gets"] cmd = false ∧ is_cmd ["set"; "add"; "replace"; "cas"] cmd = true) as [-> ->]
      by (cmd_cases Hc; by vm_compute).
    cbn [mbind option_bind lookup list_lookup]. rewrite Hset. cbn [mbind option_bind].
    eexists (stored_answer (sm_set M c k it).1 nr), s', _, _. rewrite stored_failed.
    split; [by destruct (sm_set M c k it).1|]. split; [by constructor|]. split; [exact Hr'|].
    destruct (sm_set M c k it).1; (split; [done|]); apply no_items.
  - destruct (sl_Delete s c k Hr Hk Hok Hroom) as (s' & Hdel & Hr').
    unfold Process. cbn [rq_Cmd rq_Keys rq_NoReply rq_Item]. known_cmd.
    cbn [mbind option_bind lookup list_lookup]. rewrite Hdel. cbn [mbind option_bind].
    pose proof (an_delete c t k nr) as Ha. pose proof (deleted_failed (sm_delete M c k).1 nr) as Hf.
    destruct (sm_delete M c k) as [[suc|e] c']; cbn [fst snd] in *;
      (eexists _, _, _, _; split; [|split; [exact Ha|]; split; [exact Hr'|]; split; [done|]; apply no_items]; by rewrite Hf).
  - destruct (sl_Incr s c k n Hr Hk Hok Hroom) as (s' & Hinc & Hr').
    unfold Process. cbn [rq_Cmd rq_Keys rq_NoReply rq_Item]. known_cmd.
    cbn [mbind option_bind lookup list_lookup]. rewrite Hn, Hinc. cbn [mbind option_bind].
    eexists (plain_answer (bstr "INCR") (Itoa (sm_incr M c k n).1) nr), s', _, _.
    split; [done|]. split; [by apply an_incr|]. split; [exact Hr'|]. split; [done|]. apply no_items.
Qed.

(** ** The clean-up *)

Lemma clean_items items r :
  Forall (λ p, p.1 ≠ []) items → ∃ r', foldl (λ r p, r ≫= λ r, clean_item r p) (Some r) items = Some r'.
Proof.
  intros Hf. revert r. induction Hf as [|[k it] items Hk _ IH]; intros r; [by exists r|].
  cbn [foldl mbind option_bind]. unfold clean_item at 2. cbn [fst snd] in *. destruct k as [|k0 k]; [done|].
  cbn [lookup list_lookup mbind option_bind]. apply IH.
Qed.

Lemma clean_ok resp s c :
  sl_rep s c → (∀ k, is_Some (rs_Items resp !! k) → k ≠ []) →
  ∃ r, clean item_order (Some resp) s = Some (sc_with_rl s r) ∧ sl_rep (sc_with_rl s r) c.
Proof.
  intros Hr Hne. unfold clean, CleanBuffer.
  destruct (clean_items (item_order (rs_Items resp)) (sc_rl s)) as [r' ->].
  - rewrite order_ok. apply Forall_forall. intros [k it] Hin. apply elem_of_map_to_list in Hin. by apply (Hne k); eexists.
  - cbn [mbind option_bind]. eexists. split; [done|]. by apply sl_rep_rl.
Qed.

(** ** A round of a connection *)

(** The value of a request as the server receives it. *)
Definition as_received (now : Z) (req req' : Request) : Prop := same_request req req' ∧ received now req'.

Lemma servable_rl s c req r : servable s c req → servable (sc_with_rl s r) c req.
Proof.
  intros [t cmd ks nr|t cmd k it nr|t k nr|t k it nr n];
    [by apply sv_get|apply sv_set|apply sv_delete|eapply sv_incr]; try done; by apply sl_room_rl.
Qed.

Lemma ServeOnce_answers req0 req b s c st now slow :
  sl_rep s c → req_ok mc H (sc_rl s) req → idle req0 req →
  (∀ req', as_received now req req' → servable s c req') →
  ∃ out sv req' resp c', Request_Write req = Some (inl out)
    ∧ serve_once req0 (out ++ b) s st now false slow false = Some sv
    ∧ as_received now req req' ∧ answers c req' resp c' ∧ sl_rep (sv_store sv) c'
    ∧ sv_out sv = Response_Write resp (item_order (rs_Items resp))
    ∧ sv_rest sv = b ∧ sv_close sv = failed resp && rq_NoReply req ∧ rs_Noreply resp = rq_NoReply req
    ∧ rq_Item (sv_req sv) = None ∧ rq_NoReply (sv_req sv) = false
    ∧ ∃ r1 r2 s2 st2, servable (sc_with_rl s r1) c req'
      ∧ process req' (sc_with_rl s r1) st = Some (Some resp, failed resp, s2, st2)
      ∧ sv_store sv = sc_with_rl s2 r2.
Proof.
  intros Hr Hok Hidle Hserv.
  destruct (read_back mc H req0 req b (sc_rl s) now Hok Hidle) as (out & res & Hw & Hrd & Herr & Hrest & Hsame & Hrec).
  assert (servable (sc_with_rl s (rr_rl res)) c (rr_req res)) as Hs'.
  { by apply servable_rl, Hserv. }
  destruct (Process_answers (rr_req res) (sc_with_rl s (rr_rl res)) c st) as (resp & s' & st' & c' & Hp & Ha & Hr' & Hnr & Hne);
    [by apply sl_rep_rl|done|].
  destruct (clean_ok resp s' c' Hr' Hne) as (r2 & Hc & Hr2).
  eexists out, _, (rr_req res), resp, c'. split; [done|]. split.
  { unfold ServeOnce. rewrite Hrd. cbn [mbind option_bind]. rewrite Herr, Hp. cbn [mbind option_bind].
    unfold finish. rewrite Hc. done. }
  cbn [sv_out sv_rest sv_close sv_store sv_req]. split; [done|]. split; [done|].
  assert (silent resp false false = rq_NoReply req) as Hsil.
  { unfold silent. cbn [negb andb]. rewrite orb_false_r, Hnr. by destruct Hsame as (_ & _ & -> & _). }
  split; [done|]. unfold reply. rewrite Hsil. split.
  { unfold Response_Write. rewrite <- Hsil. unfold silent. by destruct (rs_Noreply resp). }
  split; [done|]. split; [done|]. split; [|split; [done|split; [done|by exists (rr_rl res), r2, s', st']]].
  rewrite Hnr. by destruct Hsame as (_ & _ & -> & _).
Qed.

Lemma answers_det c req resp c1 c2 : answers c req resp c1 → answers c req resp c2 → c1 = c2.
Proof.
  intros [t cmd ks nr items Hc|t cmd k it nr Hc|t k nr|t k it nr n Hn] H2; inversion H2; subst; try done;
    try (by vm_compute in Hc); by simplify_eq.
Qed.

End Spec.
