(* ===== verification/MapStore.v ===== *)
(** * The storage in memory (src/memcache/store.go)

    [mapStore] is the storage the protocol's tests run against: a Go map from keys
    to pointers to items. The items live in a heap of their own here, since [Get]
    hands the pointer out and the server works on what it points to: it gives the
    value back ([CleanBuffer]) once the answer is written. The module shows that
    the store is a map as long as its values are Go's, and what happens to values
    in C memory. *)

From stdpp Require Import gmap.
From S2P Require Import Prelude Strconv Config Cmem Fixtures Protocol ProtocolProps Server ServerSpec.

(** ** Items by pointer *)

(** [ms_rolls] counts the calls of [rand.Int]; a pointer is a number, [ms_next]
    the next fresh one. *)
Record mapStore := mkMapStore {
  ms_data : gmap bytes nat;
  ms_heap : gmap nat McItem;
  ms_next : nat;
  ms_rolls : nat;
  ms_rl : BeansdbRL
}.
Definition NewMapStore (r : BeansdbRL) : mapStore := mkMapStore ∅ ∅ 0 0 r.
Definition ms_with_rl (s : mapStore) (r : BeansdbRL) : mapStore :=
  mkMapStore (ms_data s) (ms_heap s) (ms_next s) (ms_rolls s) r.
Definition ms_store (s : mapStore) (p : nat) (it : McItem) : mapStore :=
  mkMapStore (ms_data s) (<[p := it]> (ms_heap s)) (ms_next s) (ms_rolls s) (ms_rl s).

Definition mi_with_body (it : McItem) (b : bytes) : McItem :=
  mkMcItem (mi_ReceiveTime it) (mi_Flag it) (mi_Exptime it) (mi_Cas it)
    (mkCArray b (Addr (mi_arr it)) (Cap (mi_arr it))).

Section Store.
Context (mc : MCConfig) (H : CHeap).

(** The generator of the cas numbers and the text of [strconv.Atoi]'s error. *)
Context (roll : nat → Z) (atoi_text : bytes → bytes).

Definition ms_Get (s : mapStore) (key : bytes) : option nat := ms_data s !! key.

Definition ms_GetMulti (s : mapStore) (keys : list bytes) : gmap bytes nat :=
  foldl (λ rs key, match ms_data s !! key with Some p => <[key := p]> rs | None => rs end) ∅ keys.

(** [Set]: a copy of the item under a cas number of its own; the result of the
    copy is not looked at. The request's own array is not given back. *)
Definition ms_Set (s : mapStore) (key : bytes) (item : McItem) : option (bool * mapStore) :=
  let cas := roll (ms_rolls s) in
  '(arr, _, r) ← Copy mc H (mi_arr item) (ms_rl s);
  let it := mkMcItem (mi_ReceiveTime item) (mi_Flag item) (mi_Exptime item) cas arr in
  Some (true, mkMapStore (<[key := ms_next s]> (ms_data s)) (<[ms_next s := it]> (ms_heap s))
                (S (ms_next s)) (S (ms_rolls s)) r).

(** [Append] and [Incr] change the item where it is; a dangling pointer, which
    there is none of, would be a panic. *)
Definition ms_Append (s : mapStore) (key : bytes) (value : bytes) : option (bool * mapStore) :=
  match ms_data s !! key with
  | None => Some (false, s)
  | Some p =>
      r ← ms_heap s !! p;
      if mi_Flag r =? 0 then Some (true, ms_store s p (mi_with_body r (mi_Body r ++ value)))
      else Some (false, s)
  end.

Definition ms_Incr (s : mapStore) (key : bytes) (v : Z) : option ((Z + bytes) * mapStore) :=
  match ms_data s !! key with
  | None => Some (inl v, s)
  | Some p =>
      r ← ms_heap s !! p;
      match Atoi (mi_Body r) with
      | None => Some (inr (atoi_text (mi_Body r)), s)
      | Some n =>
          let n := i64 (n + v) in
          Some (inl n, ms_store s p (mi_with_body r (Itoa n)))
      end
  end.

Definition ms_Delete (s : mapStore) (key : bytes) : bool * mapStore :=
  match ms_data s !! key with
  | None => (false, s)
  | Some _ => (true, mkMapStore (delete key (ms_data s)) (ms_heap s) (ms_next s) (ms_rolls s) (ms_rl s))
  end.

Definition ms_Len (s : mapStore) : Z := Z.of_nat (size (ms_data s)).

(** What the server reads through the pointers of an answer. *)
Definition deref (s : mapStore) (ps : gmap bytes nat) : gmap bytes McItem := omap (λ p, ms_heap s !! p) ps.

(** [mapStore] as the storage of a server. The server's pointers are followed when
    they are handed out: one connection writes its answer before the next request. *)
#[local] Instance mapStore_client : StorageClient mapStore := {|
  sc_Get s key := Some (inl (ms_Get s key ≫= λ p, ms_heap s !! p), s);
  sc_GetMulti s keys := Some (inl (deref s (ms_GetMulti s keys)), s);
  sc_Set s key item _ := '(ok, s) ← ms_Set s key item; Some (inl ok, s);
  sc_Append s key value := '(ok, s) ← ms_Append s key value; Some (inl ok, s);
  sc_Incr := ms_Incr;
  sc_Delete s key := let '(ok, s) := ms_Delete s key in Some (inl ok, s);
  sc_Len s := Some (ms_Len s);
  sc_Process _ _ _ := ([], []);
  sc_rl := ms_rl;
  sc_with_rl := ms_with_rl
|}.

(** ** What an answer gives back *)

(** [CleanBuffer] on the items themselves: counted down and freed where they are. *)
Definition clean_ptr (s : mapStore) (kp : bytes * nat) : option mapStore :=
  k0 ← fst kp !! 0%nat;
  it ← ms_heap s !! snd kp;
  let r := if negb (k0 =? 64) && negb (k0 =? 63)
    then on_get (λ rl, SubSizeAndCount rl (Cap (mi_arr it))) (ms_rl s) else ms_rl s in
  let '(arr, r) := Free (mi_arr it) r in
  Some (ms_with_rl (ms_store s (snd kp)
    (mkMcItem (mi_ReceiveTime it) (mi_Flag it) (mi_Exptime it) (mi_Cas it) arr)) r).
Fixpoint clean_ptrs (s : mapStore) (kps : list (bytes * nat)) : option mapStore :=
  match kps with
  | [] => Some s
  | kp :: kps => s ← clean_ptr s kp; clean_ptrs s kps
  end.

(** ** The map behind it *)

(** Flag and value under every key. *)
Definition ms_view (s : mapStore) (k : bytes) : option (Z * bytes) :=
  p ← ms_data s !! k; it ← ms_heap s !! p; Some (mi_Flag it, mi_Body it).

(** No two keys share an item, every pointer is below the next fresh one and
    points to an item, and the values are Go's. *)
Record ms_ok (s : mapStore) : Prop := {
  ms_inj k1 k2 p : ms_data s !! k1 = Some p → ms_data s !! k2 = Some p → k1 = k2;
  ms_fresh k p : ms_data s !! k = Some p → (p < ms_next s)%nat;
  ms_item k p : ms_data s !! k = Some p → ∃ it, ms_heap s !! p = Some it ∧ Addr (mi_arr it) = 0
}.

Definition ms_rep (s : mapStore) (c : gmap bytes (Z * bytes)) : Prop := ms_ok s ∧ ∀ k, ms_view s k = c !! k.

Lemma ms_ok_with_rl s r : ms_ok s → ms_ok (ms_with_rl s r).
Proof. by intros [? ? ?]; split. Qed.

Lemma ms_rep_with_rl s c r : ms_rep s c → ms_rep (ms_with_rl s r) c.
Proof. intros [Hok Hv]. split; [by apply ms_ok_with_rl|done]. Qed.

Lemma NewMapStore_rep r : ms_rep (NewMapStore r) ∅.
Proof. split; [split; intros *; cbn; by rewrite lookup_empty|done]. Qed.

(** Writing through the pointer of a key changes that key only. *)
Lemma ms_store_ok s k p it c :
  ms_rep s c → ms_data s !! k = Some p → Addr (mi_arr it) = 0 →
  ms_rep (ms_store s p it) (<[k := (mi_Flag it, mi_Body it)]> c).
Proof.
  intros [[Hi Hf Hit] Hv] Hk Ha. split.
  - split; cbn [ms_store ms_data ms_heap ms_next]; [done..|]. intros k' p' Hk'.
    destruct (decide (p' = p)) as [->|Hne]; [exists it; by rewrite lookup_insert_eq|].
    rewrite lookup_insert_ne by done. eauto.
  - intros k'. unfold ms_view. cbn [ms_store ms_data ms_heap]. destruct (decide (k' = k)) as [->|Hne].
    + by rewrite Hk, !lookup_insert_eq; cbn; rewrite lookup_insert_eq.
    + rewrite lookup_insert_ne by done. rewrite <- Hv. unfold ms_view. destruct (ms_data s !! k') as [p'|] eqn:Hk'; [|done].
      cbn [mbind option_bind]. rewrite lookup_insert_ne; [done|]. intros ->. eauto.
Qed.

(** The same value written back is no change. *)
Lemma ms_rep_ext s c c' : ms_rep s c → (∀ k, c !! k = c' !! k) → ms_rep s c'.
Proof. intros [Hok Hv] Hc. split; [done|]. intros k. by rewrite Hv. Qed.

Lemma ms_GetMulti_spec s keys k :
  ms_GetMulti s keys !! k = if decide (k ∈ keys) then ms_data s !! k else None.
Proof.
  unfold ms_GetMulti.
  assert (∀ acc : gmap bytes nat, (∀ k p, acc !! k = Some p → ms_data s !! k = Some p) →
    foldl (λ rs key, match ms_data s !! key with Some p => <[key := p]> rs | None => rs end) acc keys !! k
    = if decide (k ∈ keys) then ms_data s !! k else acc !! k) as Hg.
  { clear. induction keys as [|key keys IH]; intros acc Hacc; cbn [foldl]; [by rewrite decide_False by apply not_elem_of_nil|].
    rewrite IH.
    - destruct (decide (k ∈ keys)) as [Hin|Hout]; [by rewrite decide_True by (by right)|].
      destruct (decide (k = key)) as [->|Hne].
      + rewrite decide_True by (by left). destruct (ms_data s !! key) as [p|] eqn:Hd; [by rewrite lookup_insert_eq|].
        destruct (acc !! key) as [p|] eqn:Ha; [|done]. apply Hacc in Ha. congruence.
      + rewrite decide_False by (rewrite elem_of_cons; naive_solver).
        destruct (ms_data s !! key); [by rewrite lookup_insert_ne|done].
    - intros k' p. destruct (ms_data s !! key) as [p0|] eqn:Hd; [|apply Hacc].
      intros [[<- <-]|[_ ?]]%lookup_insert_Some; [done|by apply Hacc]. }
  rewrite (Hg ∅); [by rewrite lookup_empty|]. intros *. by rewrite lookup_empty.
Qed.

Lemma ms_view_item s k p :
  ms_ok s → ms_data s !! k = Some p →
  ∃ it, ms_heap s !! p = Some it ∧ Addr (mi_arr it) = 0 ∧ ms_view s k = Some (mi_Flag it, mi_Body it).
Proof.
  intros Hok Hk. destruct (ms_item s Hok k p Hk) as (it & Hh & Ha). exists it. split_and!; [done..|].
  unfold ms_view. rewrite Hk. cbn [mbind option_bind]. by rewrite Hh.
Qed.

Lemma ms_Set_spec s c key item :
  ms_rep s c → Addr (mi_arr item) = 0 →
  ∃ s', ms_Set s key item = Some (true, s') ∧ ms_rep s' (<[key := (mi_Flag item, mi_Body item)]> c).
Proof.
  intros [[Hi Hf Hit] Hv] Ha. unfold ms_Set, Copy. rewrite Ha. cbn [Z.eqb mbind option_bind]. eexists. split; [done|]. split.
  - split; cbn [ms_data ms_heap ms_next].
    + intros k1 k2 p [[<- <-]|[? H1]]%lookup_insert_Some [[<- Hp]|[? H2]]%lookup_insert_Some; try done; [| |by eapply Hi].
      * apply Hf in H2. lia.
      * apply Hf in H1. lia.
    + intros k p [[<- <-]|[_ Hp%Hf]]%lookup_insert_Some; lia.
    + intros k p [[<- <-]|[_ Hp]]%lookup_insert_Some; [eexists; by rewrite lookup_insert_eq|].
      rewrite lookup_insert_ne; [eauto|]. apply Hf in Hp. lia.
  - intros k. unfold ms_view. cbn [ms_data ms_heap]. destruct (decide (k = key)) as [->|Hne].
    + rewrite !lookup_insert_eq. cbn [mbind option_bind]. by rewrite lookup_insert_eq.
    + rewrite !(lookup_insert_ne _ key) by done. rewrite <- Hv. unfold ms_view.
      destruct (ms_data s !! k) as [p|] eqn:Hk; [|done]. cbn [mbind option_bind]. apply Hf in Hk.
      by rewrite lookup_insert_ne by lia.
Qed.

Lemma ms_Delete_spec s c key :
  ms_rep s c → ∃ s', ms_Delete s key = (bool_decide (is_Some (c !! key)), s') ∧ ms_rep s' (delete key c).
Proof.
  intros [Hok Hv]. unfold ms_Delete. rewrite <- Hv. destruct (ms_data s !! key) as [p|] eqn:Hk.
  - destruct (ms_view_item s key p Hok Hk) as (it & _ & _ & ->). eexists. split; [done|]. destruct Hok as [Hi Hf Hit]. split.
    + split; cbn [ms_data ms_heap ms_next].
      * intros k1 k2 p' [_ ?]%lookup_delete_Some [_ ?]%lookup_delete_Some. eauto.
      * intros k p' [_ ?]%lookup_delete_Some. eauto.
      * intros k p' [_ ?]%lookup_delete_Some. eauto.
    + intros k. unfold ms_view. cbn [ms_data ms_heap]. destruct (decide (k = key)) as [->|Hne].
      * by rewrite !lookup_delete_eq.
      * rewrite !lookup_delete_ne by done. apply Hv.
  - assert (ms_view s key = None) as Hn by (unfold ms_view; by rewrite Hk). rewrite Hn.
    exists s. split; [done|]. apply (ms_rep_ext s c); [done|]. intros k. destruct (decide (k = key)) as [->|Hne].
    + by rewrite lookup_delete_eq, <- Hv.
    + by rewrite lookup_delete_ne.
Qed.

(** [Incr]: a stored number is replaced by the sum; an absent key gives the
    argument back and stays absent. *)
Definition ab_num_incr (c : gmap bytes (Z * bytes)) (k : bytes) (v : Z) : Z * gmap bytes (Z * bytes) :=
  match c !! k with
  | None => (v, c)
  | Some (flag, b) =>
      match Atoi b with
      | None => (0, c)
      | Some n => (i64 (n + v), <[k := (flag, Itoa (i64 (n + v)))]> c)
      end
  end.
Definition is_num (x : option (Z * bytes)) : Prop := if x is Some (_, b) then is_Some (Atoi b) else True.
#[local] Instance is_num_dec x : Decision (is_num x).
Proof. destruct x as [[flag b]|]; apply _. Defined.

Lemma ms_Incr_spec s c key v :
  ms_rep s c → is_num (c !! key) →
  ∃ s', ms_Incr s key v = Some (inl (fst (ab_num_incr c key v)), s') ∧ ms_rep s' (snd (ab_num_incr c key v)).
Proof.
  intros [Hok Hv] Hn. unfold ms_Incr, ab_num_incr. rewrite <- Hv in *. destruct (ms_data s !! key) as [p|] eqn:Hk.
  - destruct (ms_view_item s key p Hok Hk) as (it & Hh & Ha & Hvk). rewrite Hvk in *. rewrite Hh. cbn [mbind option_bind].
    destruct Hn as [n Hn]. rewrite Hn. eexists. split; [done|].
    apply (ms_store_ok s key p (mi_with_body it (Itoa (i64 (n + v)))) c); [by split|done|done].
  - assert (ms_view s key = None) as -> by (unfold ms_view; by rewrite Hk). exists s. split; [done|]. by split.
Qed.

(** [Append]: to a value stored with flag 0; anything else is NOT_STORED. *)
Definition ab_append (c : gmap bytes (Z * bytes)) (k v : bytes) : bool * gmap bytes (Z * bytes) :=
  match c !! k with
  | Some (flag, b) => if flag =? 0 then (true, <[k := (flag, b ++ v)]> c) else (false, c)
  | None => (false, c)
  end.

Lemma ms_Append_spec s c key v :
  ms_rep s c → ∃ s', ms_Append s key v = Some (fst (ab_append c key v), s') ∧ ms_rep s' (snd (ab_append c key v)).
Proof.
  intros [Hok Hv]. unfold ms_Append, ab_append. rewrite <- Hv. destruct (ms_data s !! key) as [p|] eqn:Hk.
  - destruct (ms_view_item s key p Hok Hk) as (it & Hh & Ha & Hvk). rewrite Hvk, Hh. cbn [mbind option_bind].
    destruct (mi_Flag it =? 0) eqn:Hfl; cbn [fst snd]; [|by exists s].
    eexists. split; [done|]. apply (ms_store_ok s key p (mi_with_body it (mi_Body it ++ v)) c); [by split|done|done].
  - assert (ms_view s key = None) as -> by (unfold ms_view; by rewrite Hk). exists s. split; [done|]. by split.
Qed.

(** ** The laws of a storage *)

Definition mapStore_model : StorageModel (gmap bytes (Z * bytes)) := {|
  sm_key _ k := k ≠ [];
  sm_view c k := c !! k;
  sm_set c k it := (inl true, <[k := (mi_Flag it, mi_Body it)]> c);
  sm_delete c k := (inl (bool_decide (is_Some (c !! k))), delete k c);
  sm_incr := ab_num_incr;
  sm_set_ok _ _ it := Addr (mi_arr it) = 0;
  sm_delete_ok _ _ := True;
  sm_incr_ok c k _ := is_num (c !! k)
|}.

#[local] Instance mapStore_laws : StorageLaws (SC := mapStore_client) mapStore_model.
Proof.
  refine (Build_StorageLaws _ _ mapStore_client mapStore_model ms_rep (λ _ _, True) _ _ _ _ _ _ _ _).
  - done.
  - intros s c r. apply ms_rep_with_rl.
  - done.
  - intros s c k [Hok Hv] _. eexists _, _. split; [done|]. split; [done|]. cbn. rewrite <- Hv. unfold ms_view, ms_Get.
    destruct (ms_data s !! k) as [p|]; cbn; [by destruct (ms_heap s !! p)|done].
  - intros s c ks [Hok Hv] _. eexists _, _. split; [done|]. split; [done|]. intros k. cbn. rewrite <- Hv.
    unfold deref. rewrite lookup_omap, ms_GetMulti_spec. destruct (decide (k ∈ ks)); [|done]. unfold ms_view.
    destruct (ms_data s !! k) as [p|]; cbn; [by destruct (ms_heap s !! p)|done].
  - intros s c k it nr Hr _ Ha _. destruct (ms_Set_spec s c k it Hr Ha) as (s' & Hs & Hr'). exists s'. cbn. by rewrite Hs.
  - intros s c k Hr _ _ _. destruct (ms_Delete_spec s c k Hr) as (s' & Hs & Hr'). exists s'. cbn. by rewrite Hs.
  - intros s c k n Hr _ Hn _. by apply ms_Incr_spec.
Defined.

(** ** Giving back what was answered *)

(** Values of Go's memory stay as they are. *)
Lemma clean_ptrs_spec kps : ∀ s c,
  ms_rep s c → Forall (λ kp, fst kp ≠ [] ∧ ms_data s !! fst kp = Some (snd kp)) kps →
  ∃ s', clean_ptrs s kps = Some s' ∧ ms_rep s' c ∧ ms_data s' = ms_data s.
Proof.
  induction kps as [|[k p] kps IH]; intros s c Hr Hk; [by exists s|].
  apply Forall_cons in Hk as [[Hne Hk] Hks]. cbn [fst snd] in *. cbn [clean_ptrs]. unfold clean_ptr. cbn [fst snd].
  destruct k as [|k0 k]; [done|]. change ((k0 :: k) !! 0%nat) with (Some k0). cbn [mbind option_bind].
  destruct (ms_view_item s _ p (proj1 Hr) Hk) as (it & Hh & Ha & Hv). rewrite Hh. cbn [mbind option_bind].
  unfold Free. rewrite Ha. cbn [Z.eqb mbind option_bind].
  assert (mkMcItem (mi_ReceiveTime it) (mi_Flag it) (mi_Exptime it) (mi_Cas it) (mi_arr it) = it) as -> by (by destruct it).
  match goal with |- context [ms_with_rl _ ?r] => destruct (IH (ms_with_rl (ms_store s p it) r) c) as (s' & Hs' & Hr' & Hd') end.
  - apply ms_rep_with_rl. eapply ms_rep_ext; [by apply (ms_store_ok s (k0 :: k) p it c)|].
    intros k'. destruct (decide (k' = k0 :: k)) as [->|?]; [by rewrite lookup_insert_eq, <- Hv, (proj2 Hr)|by rewrite lookup_insert_ne].
  - exact Hks.
  - by exists s'.
Qed.

(** ** Histories *)

Inductive ms_op :=
| MGet (k : bytes) | MGetMulti (ks : list bytes) | MSet (k : bytes) (it : McItem) | MAppend (k v : bytes)
| MIncr (k : bytes) (n : Z) | MDelete (k : bytes) | MLen.
Inductive ms_res :=
| RItems (vs : list (option (Z * bytes))) | RBool (b : bool) | RNum (n : Z) | RErr (e : bytes).

Definition ptr_view (s : mapStore) (p : nat) : option (Z * bytes) :=
  it ← ms_heap s !! p; Some (mi_Flag it, mi_Body it).

(** An operation as a connection runs it: the items of an answer are read through
    their pointers and then given back. *)
Definition ms_step (s : mapStore) (op : ms_op) : option (ms_res * mapStore) :=
  match op with
  | MGet k =>
      let p := ms_Get s k in
      s' ← clean_ptrs s (match p with Some p => [(k, p)] | None => [] end);
      Some (RItems [p ≫= ptr_view s], s')
  | MGetMulti ks =>
      let ps := ms_GetMulti s ks in
      s' ← clean_ptrs s (map_to_list ps);
      Some (RItems ((λ k, ps !! k ≫= ptr_view s) <$> ks), s')
  | MSet k it => '(b, s) ← ms_Set s k it; Some (RBool b, s)
  | MAppend k v => '(b, s) ← ms_Append s k v; Some (RBool b, s)
  | MIncr k n => '(r, s) ← ms_Incr s k n; Some (match r with inl n => RNum n | inr e => RErr e end, s)
  | MDelete k => let '(b, s) := ms_Delete s k in Some (RBool b, s)
  | MLen => Some (RNum (ms_Len s), s)
  end.

Definition map_step (c : gmap bytes (Z * bytes)) (op : ms_op) : ms_res * gmap bytes (Z * bytes) :=
  match op with
  | MGet k => (RItems [c !! k], c)
  | MGetMulti ks => (RItems ((λ k, c !! k) <$> ks), c)
  | MSet k it => (RBool true, <[k := (mi_Flag it, mi_Body it)]> c)
  | MAppend k v => (RBool (fst (ab_append c k v)), snd (ab_append c k v))
  | MIncr k n =>
      match c !! k with
      | Some (_, b) => if Atoi b is Some _ then (RNum (fst (ab_num_incr c k n)), snd (ab_num_incr c k n))
                       else (RErr (atoi_text b), c)
      | None => (RNum n, c)
      end
  | MDelete k => (RBool (bool_decide (is_Some (c !! k))), delete k c)
  | MLen => (RNum (Z.of_nat (size c)), c)
  end.

Fixpoint ms_run (s : mapStore) (ops : list ms_op) : option (list ms_res * mapStore) :=
  match ops with
  | [] => Some ([], s)
  | op :: ops => '(r, s) ← ms_step s op; '(rs, s) ← ms_run s ops; Some (r :: rs, s)
  end.
Fixpoint map_run (c : gmap bytes (Z * bytes)) (ops : list ms_op) : list ms_res * gmap bytes (Z * bytes) :=
  match ops with
  | [] => ([], c)
  | op :: ops => let r := map_step c op in let rs := map_run (snd r) ops in (fst r :: fst rs, snd rs)
  end.

(** Keys are not empty, values are in Go's memory. *)
Definition op_ok (op : ms_op) : Prop :=
  match op with
  | MGet k => k ≠ []
  | MGetMulti ks => Forall (λ k, k ≠ []) ks
  | MSet _ it => Addr (mi_arr it) = 0
  | _ => True
  end.

Lemma ptr_view_eq s k : ms_data s !! k ≫= ptr_view s = ms_view s k.
Proof. done. Qed.

Lemma ms_rep_dom s c : ms_rep s c → dom (ms_data s) = dom c.
Proof.
  intros [Hok Hv]. apply set_eq. intros k. rewrite !elem_of_dom, <- Hv. unfold ms_view. split.
  - intros [p Hp]. destruct (ms_view_item s k p Hok Hp) as (it & Hh & _). rewrite Hp. cbn. by rewrite Hh.
  - destruct (ms_data s !! k); [by eexists|by intros [? ?]].
Qed.

Lemma ms_step_spec s c op :
  ms_rep s c → op_ok op → ∃ s', ms_step s op = Some (fst (map_step c op), s') ∧ ms_rep s' (snd (map_step c op)).
Proof.
  intros Hr Hop. destruct op as [k|ks|k it|k v|k n|k|]; cbn [op_ok ms_step map_step] in *.
  - destruct (clean_ptrs_spec (match ms_Get s k with Some p => [(k, p)] | None => [] end) s c Hr) as (s' & -> & Hr' & _).
    { unfold ms_Get. destruct (ms_data s !! k) eqn:Hk; [|done]. by apply Forall_singleton. }
    exists s'. cbn [mbind option_bind]. unfold ms_Get. by rewrite ptr_view_eq, (proj2 Hr).
  - destruct (clean_ptrs_spec (map_to_list (ms_GetMulti s ks)) s c Hr) as (s' & -> & Hr' & _).
    { apply Forall_forall. intros [k p] Hin%elem_of_map_to_list. rewrite ms_GetMulti_spec in Hin.
      destruct (decide (k ∈ ks)) as [Hk|]; [|done]. rewrite Forall_forall in Hop. split; [by apply Hop|done]. }
    exists s'. cbn [mbind option_bind]. split; [|done]. cbn [fst]. do 3 f_equal. apply list_fmap_ext. intros i k Hk.
    rewrite ms_GetMulti_spec, decide_True by (by eapply list_elem_of_lookup_2). by rewrite ptr_view_eq, (proj2 Hr).
  - destruct (ms_Set_spec s c k it Hr Hop) as (s' & -> & Hr'). by exists s'.
  - destruct (ms_Append_spec s c k v Hr) as (s' & -> & Hr'). by exists s'.
  - destruct (decide (is_num (c !! k))) as [Hn|Hn].
    + destruct (ms_Incr_spec s c k n Hr Hn) as (s' & -> & Hr'). exists s'. cbn [mbind option_bind].
      unfold ab_num_incr in *. destruct (c !! k) as [[flag b]|]; [|done]. destruct Hn as [m Hm]. by rewrite Hm in *.
    + exists s. unfold ms_Incr. destruct Hr as [Hok Hv]. rewrite <- Hv in *. destruct (ms_data s !! k) as [p|] eqn:Hk.
      * destruct (ms_view_item s k p Hok Hk) as (it & Hh & _ & Hvk). rewrite Hvk in *. rewrite Hh. cbn [mbind option_bind].
        cbn [is_num] in Hn. destruct (Atoi (mi_Body it)); [by destruct Hn|by split].
      * unfold ms_view in Hn. by rewrite Hk in Hn.
  - destruct (ms_Delete_spec s c k Hr) as (s' & -> & Hr'). by exists s'.
  - exists s. split; [|done]. unfold ms_Len. by rewrite <- !size_dom, (ms_rep_dom s c Hr).
Qed.

(** The storage in memory is a map: from a new store, any sequence of gets, sets,
    appends, increments and deletions with values in Go's memory ends without a
    panic and answers as the same sequence on a map from keys to flag and value,
    the number of keys and the errors of [Incr] included, although the items
    answered are the stored ones and are given back by the server. *)
Theorem mapStore_refines_map r ops :
  Forall op_ok ops →
  ∃ s, ms_run (NewMapStore r) ops = Some (fst (map_run ∅ ops), s) ∧ ms_rep s (snd (map_run ∅ ops)).
Proof.
  assert (∀ s c, ms_rep s c → Forall op_ok ops →
    ∃ s', ms_run s ops = Some (fst (map_run c ops), s') ∧ ms_rep s' (snd (map_run c ops))) as Hg.
  { induction ops as [|op ops IH]; intros s c Hr Hops; cbn [ms_run map_run]; [by exists s|].
    apply Forall_cons in Hops as [Hop Hops]. destruct (ms_step_spec s c op Hr Hop) as (s1 & -> & Hr1). cbn [mbind option_bind].
    destruct (IH s1 _ Hr1 Hops) as (s2 & -> & Hr2). by exists s2. }
  apply Hg, NewMapStore_rep.
Qed.

(** The pointer that [Get] returned shows a later [Append]. *)
Lemma handed_out_changes s c k v p it :
  ms_rep s c → ms_Get s k = Some p → ms_heap s !! p = Some it → mi_Flag it = 0 →
  ∃ s', ms_Append s k v = Some (true, s') ∧ ptr_view s' p = Some (0, mi_Body it ++ v).
Proof.
  intros Hr Hg Hh Hf. unfold ms_Append, ms_Get in *. rewrite Hg, Hh. cbn [mbind option_bind]. rewrite Hf.
  eexists. split; [done|]. unfold ptr_view. cbn. rewrite lookup_insert_eq. cbn. by rewrite Hf.
Qed.

(** A value in C memory is lost with its first answer: [Set] copies it into memory
    of its own, but the item that [Get] answers is the stored one, and giving it
    back frees its value; the key is still there, with an empty value. *)
Theorem c_value_lost s c k it s1 s2 res :
  ms_rep s c → k ≠ [] → Addr (mi_arr it) ≠ 0 → mi_Body it ≠ [] → BodyInC mc < zlen (mi_Body it) →
  malloc H (zlen (mi_Body it)) ≠ 0 →
  ms_Set s k it = Some (true, s1) → ms_step s1 (MGet k) = Some (res, s2) →
  res = RItems [Some (mi_Flag it, mi_Body it)] ∧ ms_view s2 k = Some (mi_Flag it, []).
Proof.
  intros [Hok Hv] Hne Ha Hb Hbig Hm. unfold ms_Set, Copy, Alloc. rewrite (proj2 (Z.eqb_neq _ _) Ha).
  unfold mi_Body in *. rewrite (proj2 (Z.leb_gt _ _) Hbig), (proj2 (Z.eqb_neq _ _) Hm). cbn [mbind option_bind]. intros [= <-].
  cbn [ms_step]. unfold ms_Get. cbn [ms_data]. rewrite lookup_insert_eq. cbn [clean_ptrs]. unfold clean_ptr.
  destruct k as [|k0 k]; [done|]. change (([k0] ++ k) !! 0%nat) with (Some k0). cbn [fst snd lookup list_lookup mbind option_bind ms_heap].
  rewrite lookup_insert_eq. cbn [mbind option_bind mi_arr]. unfold Free. cbn [Addr]. rewrite (proj2 (Z.eqb_neq _ _) Hm).
  cbn [mbind option_bind]. intros [= <- <-]. split; [unfold ptr_view; cbn; by rewrite lookup_insert_eq|].
  unfold ms_view. cbn. rewrite !lookup_insert_eq. cbn. by rewrite !lookup_insert_eq.
Qed.

End Store.

(** ** A concrete store *)

Definition demo_item (flag : Z) (b : bytes) : McItem := mkMcItem 0 flag 0 0 (mkCArray b 0 (zlen b)).
Definition demo_ops : list ms_op :=
  [MIncr (bstr "n") 3; MSet (bstr "n") (demo_item 0 (bstr "41")); MIncr (bstr "n") 1; MGet (bstr "n");
   MAppend (bstr "n") (bstr "0"); MGetMulti [bstr "n"; bstr "x"]; MDelete (bstr "n"); MLen].

(** The store run on concrete requests; incrementing a key that is not there
    returns a number and stores none. *)
Lemma mapStore_refines_map_witness :
  ∃ s, ms_run DefaultMCConfig demo_heap Z.of_nat (λ b, b) (NewMapStore ResetAll) demo_ops
    = Some ([RNum 3; RBool true; RNum 42; RItems [Some (0, bstr "42")]; RBool true;
             RItems [Some (0, bstr "420"); None]; RBool true; RNum 0], s).
Proof.
  edestruct (mapStore_refines_map DefaultMCConfig demo_heap Z.of_nat (λ b, b) ResetAll demo_ops) as (s & Hs & _).
  - repeat constructor; done.
  - exists s. exact Hs.
Defined.
