(* ===== verification/ServerIO.v ===== *)
(** * Around the answers (src/memcache/server.go, protocol.go, src/loghub/utils.go)

    The line of the access log for a request, writing a buffer through a writer that
    may write it in parts, and the log files: opening, reopening on a signal after
    they were rotated away, and stopping the server on any other signal. *)

From stdpp Require Import gmap.
From S2P Require Import Prelude Strconv Config Cmem Fixtures Protocol ProtocolProps Loghub.

(** ** The access log *)

(** [strings.ToUpper] on ASCII, which the commands are. *)
Definition upper (b : bytes) : bytes := (λ c, if (97 <=? c) && (c <=? 122) then c - 32 else c) <$> b.

(** [strings.Join]. *)
Fixpoint join (sep : Z) (ws : list bytes) : bytes :=
  match ws with
  | [] => []
  | [w] => w
  | w :: ws => w ++ sep :: join sep ws
  end.

Definition AccessLogVersion : bytes := bstr "V1".
Definition COMMA : Z := 44.

Section Access.
Context (item_order : gmap bytes McItem → list (bytes * McItem)).

Definition answered_size (resp : Response) (k : bytes) : Z :=
  match rs_Items resp !! k with Some it => zlen (mi_Body it) | None => 0 end.

(** The command, the status and the sizes [writeAccessLog] prints; [failed] is
    whether [Process] returned an error. *)
Definition access_parts (req : Request) (resp : Response) (bodySize : Z) (failed : bool) : bytes * bytes * bytes :=
  let stat (bad : bool) := if bad then bstr "FAILED" else bstr "SUCC" in
  if is_cmd ["get"; "gets"] (rq_Cmd req) then
    if (1 <? length (rq_Keys req))%nat then
      let sizes := answered_size resp <$> rq_Keys req in
      (rq_Cmd req ++ bstr "m", stat (zsum sizes =? 0), join COMMA (Itoa <$> sizes))
    else
      let total := zsum ((λ p, zlen (mi_Body (snd p))) <$> item_order (rs_Items resp)) in
      (rq_Cmd req, stat (total =? 0), Itoa total)
  else if is_cmd ["set"; "add"; "replace"] (rq_Cmd req) then (rq_Cmd req, stat failed, Itoa bodySize)
  else (rq_Cmd req, stat failed, Itoa 0).

(** [writeAccessLog]; [dt] is in nanoseconds. *)
Definition writeAccessLog (addr : bytes) (req : Request) (resp : Response) (bodySize : Z) (failed : bool) (dt : Z)
    (hosts : list bytes) : bytes :=
  let '(cmd, stat, sizes) := access_parts req resp bodySize failed in
  let hosts := match hosts with [] => [bstr "NoWhere"] | _ => hosts end in
  AccessLogVersion ++ SP :: addr ++ SP :: upper cmd ++ SP :: stat ++ SP :: sizes ++ SP :: join COMMA hosts
    ++ SP :: Itoa (Z.quot dt 1000) ++ SP :: join SP (rq_Keys req).

(** *** What a reader of the log finds *)

Lemma join_words w ws : SP :: join SP (w :: ws) = words (w :: ws).
Proof.
  revert w. induction ws as [|w2 ws IH]; intros w; [cbn; by rewrite app_nil_r|].
  change (join SP (w :: w2 :: ws)) with (w ++ SP :: join SP (w2 :: ws)). by rewrite IH, (words_cons w).
Qed.

Lemma fields_words_end ws cur : Forall word ws → cur ≠ [] → fields_loop (words ws ++ [SP]) cur = cur :: ws.
Proof.
  intros Hws. revert cur. induction Hws as [|w ws [Hne Hw] _ IH]; intros cur Hcur; [by destruct cur|].
  rewrite words_cons, <- app_comm_cons, <- app_assoc. cbn [fields_loop]. rewrite Z.eqb_refl. destruct cur as [|c cur]; [done|].
  rewrite fields_word by done. cbn [app]. by rewrite IH.
Qed.

(** The words of a line whose last part may be missing. *)
Lemma fields_line w ws ks :
  Forall word (w :: ws ++ ks) → fields_loop (w ++ words ws ++ SP :: join SP ks) [] = w :: ws ++ ks.
Proof.
  intros [[Hne Hw] [Hws Hks]%Forall_app]%Forall_cons. rewrite fields_word by done. destruct ks as [|k ks].
  - cbn [join]. by rewrite fields_words_end, app_nil_r.
  - rewrite join_words, <- words_app, fields_words; [done|by apply Forall_app|done].
Qed.

Lemma word_join ws : ws ≠ [] → Forall word ws → word (join COMMA ws).
Proof.
  intros Hne Hws. induction Hws as [|w ws [Hw0 Hw] Hws IH]; [done|]. destruct ws as [|w2 ws]; [done|].
  change (join COMMA (w :: w2 :: ws)) with (w ++ COMMA :: join COMMA (w2 :: ws)). split; [by destruct w|].
  apply Forall_app. split; [done|]. constructor; [done|]. by apply IH.
Qed.

Lemma word_upper w : word w → word (upper w).
Proof.
  intros [Hne Hw]. split; [by destruct w|]. apply Forall_fmap. eapply Forall_impl; [exact Hw|]. intros c Hc. cbn.
  unfold word_char, SP, LF in *. destruct ((97 <=? c) && (c <=? 122)) eqn:Hr; lia.
Qed.

Lemma access_parts_words req resp bodySize failed :
  word (rq_Cmd req) →
  let '(cmd, stat, sizes) := access_parts req resp bodySize failed in word (upper cmd) ∧ word stat ∧ word sizes.
Proof.
  intros Hc. assert (word (upper (rq_Cmd req))) as Hu by (by apply word_upper).
  assert (∀ b : bool, word (if b then bstr "FAILED" else bstr "SUCC")) as Hst.
  { intros []; (split; [done|]); repeat constructor; done. }
  unfold access_parts. destruct (is_cmd ["get"; "gets"] _); [destruct (Nat.ltb_spec 1 (length (rq_Keys req)))|destruct (is_cmd _ _)];
    split_and!; try done; try apply Hst; try apply Itoa_word.
  - apply word_upper. destruct Hc as [Hne Hc]. split; [by destruct (rq_Cmd req)|]. apply Forall_app. split; [done|]. repeat constructor; done.
  - apply word_join; [destruct (rq_Keys req); [cbn in *; lia|done]|].
    apply Forall_fmap, Forall_fmap, Forall_true. intros k. apply Itoa_word.
Qed.

(** A line of the access log splits at its spaces into the version, the address,
    the command in capitals, the status, the sizes, the hosts, the time in
    microseconds and the keys, whatever the request and its answer. *)
Theorem access_line_fields addr req resp bodySize failed dt hosts :
  word addr → word (rq_Cmd req) → Forall word (rq_Keys req) → Forall word hosts →
  fields_loop (writeAccessLog addr req resp bodySize failed dt hosts) []
  = let '(cmd, stat, sizes) := access_parts req resp bodySize failed in
    [AccessLogVersion; addr; upper cmd; stat; sizes;
     join COMMA (match hosts with [] => [bstr "NoWhere"] | _ => hosts end); Itoa (Z.quot dt 1000)] ++ rq_Keys req.
Proof.
  intros Ha Hc Hk Hh. unfold writeAccessLog. pose proof (access_parts_words req resp bodySize failed Hc) as Hp.
  destruct (access_parts req resp bodySize failed) as [[cmd stat] sizes]. destruct Hp as (? & ? & ?).
  set (J := join COMMA (match hosts with [] => _ | _ => hosts end)). assert (word J) as Hj.
  { unfold J. destruct hosts; [|by apply word_join]. split; [done|]. repeat constructor; done. }
  transitivity (fields_loop (AccessLogVersion ++ words [addr; upper cmd; stat; sizes; J; Itoa (Z.quot dt 1000)] ++ SP :: join SP (rq_Keys req)) []);
    [|apply fields_line].
  - do 2 f_equal. rewrite !words_cons. change (words []) with (@nil Z). rewrite app_nil_r. by flat.
  - repeat (apply Forall_cons; split; [try done; try apply Itoa_word|]); [|done]. split; [done|]. repeat constructor; done.
Qed.

End Access.

(** A get of several keys, one of them absent. *)
Lemma access_line_fields_witness :
  fields_loop (writeAccessLog map_to_list (bstr "10.0.0.1:99")
    (mkRequest 0 (bstr "get") [bstr "a"; bstr "b"] None false)
    (mkResponse (bstr "VALUE") [] false false {[bstr "a" := mkMcItem 0 0 0 0 (mkCArray (bstr "xyz") 0 3)]})
    0 false 1500999 []) []
  = [bstr "V1"; bstr "10.0.0.1:99"; bstr "GETM"; bstr "SUCC"; bstr "3,0"; bstr "NoWhere"; bstr "1500"; bstr "a"; bstr "b"].
Proof.
  rewrite access_line_fields; [by vm_compute| | | |]; try (split; [done|]); repeat constructor; done.
Defined.

(** ** Writing in parts *)

Section Writer.
(** A writer: the number of bytes written and whether there was an error. *)
Context {W : Type} (w_Write : W → bytes → nat * bool * W).

Fixpoint write_rest (fuel : nat) (w : W) (buf : bytes) (n : nat) (e : bool) : option (bool * W) :=
  if e && (0 <? n)%nat then
    match fuel with
    | O => None
    | S fuel =>
        let buf := drop n buf in
        let '(n, e, w) := w_Write w buf in
        write_rest fuel w buf n e
    end
  else Some (e, w).

(** [WriteFull], with the fuel of one more write for every byte. *)
Definition WriteFull (w : W) (buf : bytes) : option (bool * W) :=
  let '(n, e, w) := w_Write w buf in write_rest (length buf) w buf n e.

(** The contract of [io.Writer]: at most the buffer is written, and less than all
    of it only with an error; [w_out] is what was written so far. *)
Context (w_out : W → bytes).
Hypothesis (writer_ok : ∀ w buf n e w', w_Write w buf = (n, e, w') →
  (n <= length buf)%nat ∧ (e = false → n = length buf) ∧ w_out w' = w_out w ++ take n buf).

Lemma write_rest_spec fuel : ∀ w buf n e,
  (length buf <= fuel)%nat → (n <= length buf)%nat → (e = false → n = length buf) →
  ∃ e' w' m, write_rest fuel w buf n e = Some (e', w') ∧ w_out w' = w_out w ++ take m (drop n buf)
    ∧ (e' = false → (m = length (drop n buf))).
Proof.
  induction fuel as [|fuel IH]; intros w buf n e Hf Hn He; cbn [write_rest].
  - assert (n = 0%nat) as -> by lia. rewrite andb_false_r. exists e, w, 0%nat. split; [done|].
    rewrite take_0, app_nil_r. split; [done|]. rewrite length_drop. intros He'. rewrite <- He by done. lia.
  - destruct e; cbn [andb].
    + destruct (Nat.ltb_spec 0 n) as [Hpos|Hz].
      * destruct (w_Write w (drop n buf)) as [[n2 e2] w2] eqn:Hw. destruct (writer_ok _ _ _ _ _ Hw) as (Hn2 & He2 & Ho).
        destruct (IH w2 (drop n buf) n2 e2) as (e' & w' & m & -> & Ho' & Hm); [rewrite length_drop; lia|done|done|].
        exists e', w', (n2 + m)%nat. split; [done|]. split.
        -- rewrite Ho', Ho, <- app_assoc. f_equal. by rewrite take_take_drop.
        -- intros H'. specialize (Hm H'). rewrite (length_drop _ n2) in Hm. lia.
      * exists true, w, 0%nat. by rewrite take_0, app_nil_r.
    + exists false, w, 0%nat. split; [done|]. rewrite take_0, app_nil_r. split; [done|]. rewrite length_drop. lia.
Qed.

(** [WriteFull] always ends, after at most one write for every byte and one more;
    what has been written is a first part of the buffer, and all of it if no error
    is returned, however the writer splits it. *)
Theorem WriteFull_delivers w buf :
  ∃ e w' m, WriteFull w buf = Some (e, w') ∧ w_out w' = w_out w ++ take m buf ∧ (e = false → take m buf = buf).
Proof.
  unfold WriteFull. destruct (w_Write w buf) as [[n e] w1] eqn:Hw. destruct (writer_ok _ _ _ _ _ Hw) as (Hn & He & Ho).
  destruct (write_rest_spec (length buf) w1 buf n e) as (e' & w' & m & -> & Ho' & Hm); [done..|].
  exists e', w', (n + m)%nat. split; [done|]. split.
  - rewrite Ho', Ho, <- app_assoc. f_equal. by rewrite take_take_drop.
  - intros H'. specialize (Hm H'). rewrite length_drop in Hm. apply take_ge. lia.
Qed.
End Writer.

(** A writer that takes at most three bytes at a time. *)
Definition short_Write (w buf : bytes) : nat * bool * bytes :=
  if (length buf <=? 3)%nat then (length buf, false, w ++ buf) else (3%nat, true, w ++ take 3 buf).
Lemma WriteFull_delivers_witness : WriteFull short_Write [] (bstr "gobeansdb!") = Some (false, bstr "gobeansdb!").
Proof.
  destruct (WriteFull_delivers short_Write id) with (w := @nil Z) (buf := bstr "gobeansdb!") as (e & w' & m & Hw & Ho & Hm).
  - intros w buf n e w'. unfold short_Write. destruct (Nat.leb_spec (length buf) 3); intros [= <- <- <-]; cbn [id].
    + split; [lia|]. split; [done|]. by rewrite take_ge by lia.
    + split; [lia|]. by split.
  - vm_compute in Hw. by simplify_eq.
Defined.

(** ** Log files and signals *)

(** The files of the logs: the directory gives the file of a path, by number; a
    file is its lines. A file that was renamed keeps its number, and so does an
    open one. *)
Record LogFiles := mkLogFiles { lf_dir : gmap bytes nat; lf_nodes : gmap nat (list bytes); lf_next : nat }.
Definition lf_file (fs : LogFiles) (path : bytes) : option (list bytes) := i ← lf_dir fs !! path; lf_nodes fs !! i.
Definition rename (fs : LogFiles) (p q : bytes) : LogFiles :=
  match lf_dir fs !! p with
  | Some i => mkLogFiles (<[q := i]> (delete p (lf_dir fs))) (lf_nodes fs) (lf_next fs)
  | None => fs
  end.

(** The three loggers with the files they print to, [None] for a logger without a
    hub; how often the server was told to stop. *)
Record LogProc := mkLogProc { lp_fs : LogFiles; lp_fd : hub_kind → option nat; lp_stops : nat }.
Definition with_fd (fd : hub_kind → option nat) (k : hub_kind) (x : option nat) : hub_kind → option nat :=
  λ k', match k, k' with
  | ErrorHub, ErrorHub | AnalysisHub, AnalysisHub | AccessHub, AccessHub => x
  | _, _ => fd k'
  end.

Section Logs.
(** Whether a path can be opened for writing. *)
Context (can_open : bytes → bool).

(** [openLog]: the file at the path, created if there is none. *)
Definition openLog (fs : LogFiles) (path : bytes) : option (nat * LogFiles) :=
  if can_open path then
    match lf_dir fs !! path with
    | Some i => Some (i, fs)
    | None => Some (lf_next fs, mkLogFiles (<[path := lf_next fs]> (lf_dir fs)) (<[lf_next fs := []]> (lf_nodes fs)) (S (lf_next fs)))
    end
  else None.

(** [reopenLogger]: logger and descriptor are swapped; nothing changes when the
    path does not open. *)
Definition reopenLogger (s : LogProc) (k : hub_kind) (path : bytes) : LogProc :=
  match openLog (lp_fs s) path with
  | Some (i, fs) => mkLogProc fs (with_fd (lp_fd s) k (Some i)) (lp_stops s)
  | None => s
  end.

(** [HandleSignals]: the error log is always reopened, the others if they have a
    path and a hub; every signal but SIGUSR1 stops the server. *)
Definition handle_signal (errorlog accesslog analysislog : bytes) (usr1 : bool) (s : LogProc) : LogProc :=
  if usr1 then
    let s := reopenLogger s ErrorHub errorlog in
    let s := if bool_decide (accesslog ≠ []) && bool_decide (is_Some (lp_fd s AccessHub))
             then reopenLogger s AccessHub accesslog else s in
    if bool_decide (analysislog ≠ []) && bool_decide (is_Some (lp_fd s AnalysisHub))
    then reopenLogger s AnalysisHub analysislog else s
  else mkLogProc (lp_fs s) (lp_fd s) (S (lp_stops s)).

(** Lines printed to the file of a logger. *)
Definition print_lines (s : LogProc) (k : hub_kind) (ls : list bytes) : LogProc :=
  match lp_fd s k with
  | Some i => mkLogProc (mkLogFiles (lf_dir (lp_fs s)) (alter (.++ ls) i (lf_nodes (lp_fs s))) (lf_next (lp_fs s))) (lp_fd s) (lp_stops s)
  | None => s
  end.

(** Numbers below the next one, none of them of two paths; every path has a file. *)
Record files_ok (fs : LogFiles) : Prop := {
  fo_inj p q i : lf_dir fs !! p = Some i → lf_dir fs !! q = Some i → p = q;
  fo_file p i : lf_dir fs !! p = Some i → is_Some (lf_nodes fs !! i);
  fo_next i : is_Some (lf_nodes fs !! i) → (i < lf_next fs)%nat
}.

Lemma openLog_ok fs path i fs' :
  files_ok fs → openLog fs path = Some (i, fs') →
  files_ok fs' ∧ lf_dir fs' !! path = Some i
  ∧ (∀ q, q ≠ path → lf_dir fs' !! q = lf_dir fs !! q)
  ∧ (∀ j, is_Some (lf_nodes fs !! j) → lf_nodes fs' !! j = lf_nodes fs !! j)
  ∧ (lf_dir fs !! path = None → lf_nodes fs' !! i = Some []).
Proof.
  intros [Hinj Hfile Hnext]. unfold openLog. destruct (can_open path); [|done]. destruct (lf_dir fs !! path) as [i0|] eqn:Hp; intros [= <- <-].
  - by split_and!.
  - cbn [lf_dir lf_nodes lf_next]. split_and!.
    + assert (∀ q j, lf_dir fs !! q = Some j → (j < lf_next fs)%nat) as Hb by eauto.
      split; cbn [lf_dir lf_nodes lf_next].
      * intros p q j [[<- <-]|[? H1]]%lookup_insert_Some [[<- E]|[? H2]]%lookup_insert_Some; try done; [| |by eapply Hinj].
        -- apply Hb in H2. lia.
        -- apply Hb in H1. lia.
      * intros p j [[<- <-]|[? H1]]%lookup_insert_Some; [by rewrite lookup_insert_eq; eexists|].
        rewrite lookup_insert_ne; [by eapply Hfile|]. apply Hb in H1. lia.
      * intros j. destruct (decide (j = lf_next fs)) as [->|Hne]; [lia|]. rewrite lookup_insert_ne by done. intros ?%Hnext. lia.
    + by rewrite lookup_insert_eq.
    + intros q Hq. by rewrite lookup_insert_ne.
    + intros j ?%Hnext. rewrite lookup_insert_ne; [done|lia].
    + intros _. by rewrite lookup_insert_eq.
Qed.

Lemma reopenLogger_other s k path k' : k ≠ k' → lp_fd (reopenLogger s k path) k' = lp_fd s k'.
Proof. intros Hk. unfold reopenLogger. destruct (openLog _ _) as [[i fs]|]; [|done]. by destruct k, k'. Qed.

(** Reopening a log leaves the files that are there as they are. *)
Lemma reopenLogger_keeps s k path :
  files_ok (lp_fs s) → files_ok (lp_fs (reopenLogger s k path))
  ∧ (∀ q, q ≠ path → lf_dir (lp_fs (reopenLogger s k path)) !! q = lf_dir (lp_fs s) !! q)
  ∧ (∀ j, is_Some (lf_nodes (lp_fs s) !! j) → lf_nodes (lp_fs (reopenLogger s k path)) !! j = lf_nodes (lp_fs s) !! j).
Proof.
  intros Hok. unfold reopenLogger. destruct (openLog _ _) as [[i fs]|] eqn:Ho; [|done].
  destruct (openLog_ok _ _ _ _ Hok Ho) as (? & _ & ? & ? & _). done.
Qed.

Lemma rename_ok fs p q i :
  files_ok fs → lf_dir fs !! p = Some i → files_ok (rename fs p q).
Proof.
  intros [Hinj Hfile Hnext] Hp. unfold rename. rewrite Hp. split; cbn [lf_dir lf_nodes lf_next]; [| |done].
  - intros p1 p2 j [[<- <-]|[? [? H1]%lookup_delete_Some]]%lookup_insert_Some [[<- E]|[? [? H2]%lookup_delete_Some]]%lookup_insert_Some; subst; try done.
    + by pose proof (Hinj _ _ _ Hp H2).
    + by pose proof (Hinj _ _ _ Hp H1).
    + by eapply Hinj.
  - intros p1 j [[<- <-]|[? [? H1]%lookup_delete_Some]]%lookup_insert_Some; by eapply Hfile.
Qed.

Lemma print_lines_ok s k ls : files_ok (lp_fs s) → files_ok (lp_fs (print_lines s k ls)).
Proof.
  intros [Hinj Hfile Hnext]. unfold print_lines. destruct (lp_fd s k) as [i|]; [|done].
  split; cbn [lp_fs lf_dir lf_nodes lf_next]; [exact Hinj|..].
  - intros p j Hp%Hfile. by apply lookup_alter_is_Some.
  - intros j Hj. apply Hnext. by apply lookup_alter_is_Some in Hj.
Qed.

(** Rotating the access log loses no line and splits none: when its file is moved
    away, the lines up to the signal go on to the moved file, and the lines after
    it start a new file at the path. *)
Theorem rotation_keeps_lines errorlog accesslog analysislog moved s i old before after :
  files_ok (lp_fs s) → can_open accesslog = true →
  accesslog ≠ [] → errorlog ≠ accesslog → errorlog ≠ moved → moved ≠ accesslog →
  analysislog = [] → lp_fd s AccessHub = Some i →
  lf_dir (lp_fs s) !! accesslog = Some i → lf_nodes (lp_fs s) !! i = Some old → lf_dir (lp_fs s) !! moved = None →
  let s1 := mkLogProc (rename (lp_fs s) accesslog moved) (lp_fd s) (lp_stops s) in
  let s2 := handle_signal errorlog accesslog analysislog true (print_lines s1 AccessHub before) in
  let s3 := print_lines s2 AccessHub after in
  lf_file (lp_fs s3) moved = Some (old ++ before) ∧ lf_file (lp_fs s3) accesslog = Some after.
Proof.
  intros Hok Hopen Hne Hea Hem Hma -> Hfd Hdir Hnode Hmv s1 s2 s3.
  set (s1' := print_lines s1 AccessHub before).
  assert (files_ok (lp_fs s1')) as Hok1' by (eapply print_lines_ok, rename_ok; done).
  assert (lf_dir (lp_fs s1') !! moved = Some i ∧ lf_dir (lp_fs s1') !! accesslog = None
    ∧ lf_nodes (lp_fs s1') !! i = Some (old ++ before) ∧ lp_fd s1' = lp_fd s) as (Hm1 & Ha1 & Hn1 & Hf1).
  { subst s1' s1. unfold print_lines. cbn [lp_fd]. rewrite Hfd. cbn [lp_fs lp_fd lf_dir lf_nodes].
    unfold rename. rewrite Hdir. cbn [lf_dir lf_nodes]. split_and!; [by rewrite lookup_insert_eq| | |done].
    - rewrite lookup_insert_ne by done. by rewrite lookup_delete_eq.
    - by rewrite lookup_alter_eq, Hnode. }
  subst s3 s2. fold s1'. clearbody s1'.
  unfold handle_signal. set (sE := reopenLogger s1' ErrorHub errorlog).
  destruct (reopenLogger_keeps s1' ErrorHub errorlog Hok1') as (HokE & HdE & HnE). fold sE in HokE, HdE, HnE.
  assert (lp_fd sE AccessHub = Some i) as HfE by (unfold sE; by rewrite reopenLogger_other, Hf1).
  rewrite HfE, (bool_decide_true (accesslog ≠ [])), (bool_decide_true (is_Some (Some i))) by done.
  rewrite (bool_decide_false ([] ≠ [])) by (intros Hn; by apply Hn). cbn [andb]. unfold reopenLogger.
  destruct (openLog (lp_fs sE) accesslog) as [[i2 fs2]|] eqn:Ho;
    [|unfold openLog in Ho; rewrite Hopen in Ho; by destruct (lf_dir (lp_fs sE) !! accesslog)].
  destruct (openLog_ok _ _ _ _ HokE Ho) as (Hok2 & Hd2 & Hq2 & Hj2 & Hnew).
  assert (lf_dir fs2 !! moved = Some i) as Hm2 by (rewrite Hq2, HdE; done).
  assert (i2 ≠ i) as Hi2 by (intros ->; by pose proof (fo_inj _ Hok2 _ _ _ Hd2 Hm2)).
  unfold print_lines. cbn [lp_fd with_fd lp_fs lf_dir lf_nodes]. unfold lf_file. cbn [lf_dir lf_nodes lp_fs]. rewrite Hm2, Hd2. cbn [mbind option_bind].
  rewrite lookup_alter_ne, lookup_alter_eq by done. rewrite Hnew by (by rewrite HdE). split; [|done].
  rewrite Hj2, HnE; rewrite ?HnE by (by eexists); by rewrite ?Hn1.
Qed.

End Logs.

(** The access log moved away between the second and the third line. *)
Lemma rotation_keeps_lines_witness :
  let fs := mkLogFiles {[bstr "a.log" := 1%nat]} {[0%nat := []; 1%nat := [bstr "1"]]} 2 in
  let s := mkLogProc fs (λ k, match k with ErrorHub => Some 0%nat | AccessHub => Some 1%nat | AnalysisHub => None end) 0 in
  let s1 := mkLogProc (rename (lp_fs s) (bstr "a.log") (bstr "a.log.1")) (lp_fd s) (lp_stops s) in
  let s2 := handle_signal (λ p, bool_decide (p ≠ [])) [] (bstr "a.log") [] true (print_lines s1 AccessHub [bstr "2"]) in
  let s3 := print_lines s2 AccessHub [bstr "3"] in
  lf_file (lp_fs s3) (bstr "a.log.1") = Some [bstr "1"; bstr "2"] ∧ lf_file (lp_fs s3) (bstr "a.log") = Some [bstr "3"].
Proof.
  intros fs s. apply (rotation_keeps_lines (λ p, bool_decide (p ≠ [])) [] (bstr "a.log") [] (bstr "a.log.1") s 1%nat [bstr "1"] [bstr "2"] [bstr "3"]); try done.
  split; cbn [lp_fs s fs lf_dir lf_nodes lf_next].
  - by intros p q i [<- <-]%lookup_singleton_Some [<- _]%lookup_singleton_Some.
  - intros p i [<- <-]%lookup_singleton_Some. by eexists.
  - intros i [x Hx]. apply lookup_insert_Some in Hx as [[<- _]|[_ [<- _]%lookup_singleton_Some]]; lia.
Defined.
