(* ===== verification/ServerLife.v ===== *)
(** * Connections of the server (src/memcache/server.go)

    The accept loop, the goroutines of the connections that enter and leave the table of
    connections, and the shutdown, as events that interleave in any order; what a
    connection does in between is in Server.v. An event that is not possible in a state
    gives [None]. *)

From stdpp Require Import gmap.
From S2P Require Import Prelude Cmem Protocol Server.

(** [Serve]: accepting, waiting for the connections to close, or returned (with the
    error of [Accept] or without). *)
Inductive phase := Accepting | Draining (n : nat) | Returned (failed : bool).

(** The server: its counters, the connections that were accepted and are not in the table
    yet, the table with [closeAfterReply] of each, [stop], the mutex when [Serve] keeps it,
    and where [Serve] is. *)
Record SrvState := mkSrv {
  sv_stats : Stats;
  sv_pending : gset bytes;
  sv_conns : gmap bytes bool;
  sv_stop : bool;
  sv_locked : bool;
  sv_phase : phase
}.

Definition NewServer : SrvState := mkSrv NewStats ∅ ∅ false false Accepting.

Definition count_conn (st : Stats) (curr total : Z) : Stats :=
  mkStats (cmd_get st) (cmd_set st) (cmd_delete st) (get_hits st) (get_misses st)
    (i64 (curr_connections st + curr)) (i64 (total_connections st + total))
    (bytes_read st) (bytes_written st) (slow_cmd st).

(** [EAccept]: a connection from [addr] comes in; [ERegister]: its goroutine enters it into
    the table; [EFinish]: its loop has ended; [EStop] and [ENotify] are the two parts of
    [Shutdown]; [EPoll] is one look at the table while waiting. *)
Inductive srv_event := EAccept (addr : bytes) | EAcceptFail | ERegister (addr : bytes) | EFinish (addr : bytes) | EStop | ENotify | EPoll.

Definition accept (s : SrvState) (addr : bytes) : option SrvState :=
  match sv_phase s with
  | Accepting =>
      if sv_stop s then Some (mkSrv (sv_stats s) (sv_pending s) (sv_conns s) true (sv_locked s) (Draining 20))
      else if bool_decide (addr ∈ sv_pending s) || bool_decide (is_Some (sv_conns s !! addr)) then None
      else Some (mkSrv (sv_stats s) ({[addr]} ∪ sv_pending s) (sv_conns s) false (sv_locked s) Accepting)
  | _ => None
  end.
Definition accept_fail (s : SrvState) : option SrvState :=
  match sv_phase s with
  | Accepting => Some (mkSrv (sv_stats s) (sv_pending s) (sv_conns s) (sv_stop s) (sv_locked s) (Returned true))
  | _ => None
  end.
Definition register (s : SrvState) (addr : bytes) : option SrvState :=
  if sv_locked s || negb (bool_decide (addr ∈ sv_pending s)) then None
  else Some (mkSrv (count_conn (sv_stats s) 1 1) (sv_pending s ∖ {[addr]}) (<[addr := false]> (sv_conns s))
         (sv_stop s) (sv_locked s) (sv_phase s)).
Definition finish (s : SrvState) (addr : bytes) : option SrvState :=
  if sv_locked s || negb (bool_decide (is_Some (sv_conns s !! addr))) then None
  else Some (mkSrv (count_conn (sv_stats s) (-1) 0) (sv_pending s) (delete addr (sv_conns s)) (sv_stop s) (sv_locked s) (sv_phase s)).
Definition stop (s : SrvState) : SrvState :=
  mkSrv (sv_stats s) (sv_pending s) (sv_conns s) true (sv_locked s) (sv_phase s).
Definition notify (s : SrvState) : option SrvState :=
  if sv_locked s || negb (sv_stop s) then None
  else Some (mkSrv (sv_stats s) (sv_pending s) ((λ _, true) <$> sv_conns s) true (sv_locked s) (sv_phase s)).

(** One look of the 20; with an empty table [Serve] returns and keeps the mutex. *)
Definition poll (s : SrvState) : option SrvState :=
  match sv_phase s with
  | Draining n =>
      if sv_locked s then None
      else match n with
      | O => Some (mkSrv (sv_stats s) (sv_pending s) (sv_conns s) (sv_stop s) false (Returned false))
      | S n =>
          if bool_decide (sv_conns s = ∅) then Some (mkSrv (sv_stats s) (sv_pending s) (sv_conns s) (sv_stop s) true (Returned false))
          else Some (mkSrv (sv_stats s) (sv_pending s) (sv_conns s) (sv_stop s) false (Draining n))
      end
  | _ => None
  end.

Definition srv_apply (s : SrvState) (ev : srv_event) : option SrvState :=
  match ev with
  | EAccept addr => accept s addr
  | EAcceptFail => accept_fail s
  | ERegister addr => register s addr
  | EFinish addr => finish s addr
  | EStop => Some (stop s)
  | ENotify => notify s
  | EPoll => poll s
  end.
Fixpoint srv_run (s : SrvState) (evs : list srv_event) : option SrvState :=
  match evs with [] => Some s | ev :: evs => s ← srv_apply s ev; srv_run s evs end.

(** ** Counting *)

Definition is_register (ev : srv_event) : bool := match ev with ERegister _ => true | _ => false end.
Definition is_poll (ev : srv_event) : bool := match ev with EPoll => true | _ => false end.
Definition count (p : srv_event → bool) (evs : list srv_event) : Z := zlen (filter (λ ev, p ev = true) evs).

Lemma count_cons p ev evs : count p (ev :: evs) = (if p ev then 1 else 0) + count p evs.
Proof. unfold count. rewrite filter_cons. unfold zlen. destruct (p ev); case_decide; try done; cbn [length]; lia. Qed.

(** [n] connections were entered so far. *)
Record srv_inv (n : Z) (s : SrvState) : Prop := {
  si_curr : curr_connections (sv_stats s) = i64 (Z.of_nat (size (sv_conns s)));
  si_total : total_connections (sv_stats s) = i64 n;
  si_apart : ∀ addr, addr ∈ sv_pending s → sv_conns s !! addr = None;
  si_locked : sv_locked s = true → sv_phase s = Returned false ∧ sv_conns s = ∅;
  si_stop : match sv_phase s with Draining _ => sv_stop s = true | _ => True end
}.


Lemma srv_apply_inv n s ev s' :
  srv_inv n s → srv_apply s ev = Some s' → srv_inv (n + if is_register ev then 1 else 0) s'.
Proof.
  intros [Hc Ht Ha Hl Hs]. destruct ev as [addr| |addr|addr| | |]; cbn [srv_apply is_register]; rewrite ?Z.add_0_r.
  - unfold accept. destruct (sv_phase s) eqn:Hp; [|done..]. destruct (sv_stop s); [intros [= <-]; split; try done|].
    { cbn. intros H. by destruct (Hl H). }
    case_bool_decide as Hpe; [done|]. case_bool_decide as Hco; [done|]. intros [= <-]. split; try done; cbn.
    intros a [->%elem_of_singleton|Hin]%elem_of_union; [by apply eq_None_not_Some|by apply Ha].
  - unfold accept_fail. destruct (sv_phase s) eqn:Hp; [|done..]. intros [= <-]. split; try done. cbn. intros H. by destruct (Hl H).
  - unfold register. destruct (sv_locked s) eqn:Hlk; [done|]. case_bool_decide as Hin; [|done]. intros [= <-]. cbn [orb negb].
    split; cbn [sv_stats sv_conns sv_pending sv_locked sv_phase sv_stop count_conn curr_connections total_connections]; try done.
    + rewrite Hc, i64_i64_add, map_size_insert_None by by apply Ha. f_equal. lia.
    + by rewrite Ht, i64_i64_add.
    + intros a Hin'. rewrite lookup_insert_ne by set_solver. apply Ha. set_solver.
  - unfold finish. destruct (sv_locked s) eqn:Hlk; [done|]. case_bool_decide as Hin; [|done]. intros [= <-].
    split; cbn [sv_stats sv_conns sv_pending sv_locked sv_phase sv_stop count_conn curr_connections total_connections]; try done.
    + destruct Hin as [b Hb]. rewrite Hc, i64_i64_add, map_size_delete_Some by done. f_equal.
      assert (size (sv_conns s) ≠ 0%nat) by (intros He%map_size_empty_iff; by rewrite He, lookup_empty in Hb). lia.
    + by rewrite Ht, i64_i64_add, Z.add_0_r.
    + intros a Hin'. rewrite lookup_delete_None. right. by apply Ha.
  - intros [= <-]. split; try done. cbn. by destruct (sv_phase s).
  - unfold notify. destruct (sv_locked s) eqn:Hlk; [done|]. destruct (sv_stop s) eqn:Hst; [|done]. intros [= <-]. cbn [orb negb].
    split; cbn [sv_stats sv_conns sv_pending sv_locked sv_phase sv_stop]; try done.
    + by rewrite map_size_fmap.
    + intros a Hin. rewrite lookup_fmap, Ha by done. done.
  - unfold poll. destruct (sv_phase s) as [|[|m]|] eqn:Hp; [done| | |done]; (destruct (sv_locked s) eqn:Hlk; [done|]).
    + intros [= <-]. by split.
    + case_bool_decide as He; intros [= <-]; by split.
Qed.

Lemma srv_run_inv evs : ∀ n s s', srv_inv n s → srv_run s evs = Some s' → srv_inv (n + count is_register evs) s'.
Proof.
  induction evs as [|ev evs IH]; intros n s s' Hi; cbn [srv_run].
  { intros [= <-]. by rewrite Z.add_0_r. }
  destruct (srv_apply s ev) as [s1|] eqn:Ha; [|done]. cbn [mbind option_bind]. intros Hr.
  rewrite count_cons, Z.add_assoc. eapply IH; [|done]. by eapply srv_apply_inv.
Qed.

Lemma NewServer_inv : srv_inv 0 NewServer.
Proof. by split. Qed.

(** ** Shutting down *)

(** Waiting goes down with every look, and with nothing else. *)
Lemma draining_step n s ev s' :
  sv_phase s = Draining n → srv_apply s ev = Some s' →
  if is_poll ev then sv_phase s' = Returned false ∨ ∃ m, n = S m ∧ sv_phase s' = Draining m else sv_phase s' = Draining n.
Proof.
  intros Hp. destruct ev as [addr| |addr|addr| | |]; cbn [srv_apply is_poll]; unfold accept, accept_fail, register, finish, notify, poll; rewrite ?Hp; try done.
  - destruct (_ || _); [done|]. by intros [= <-].
  - destruct (_ || _); [done|]. by intros [= <-].
  - by intros [= <-].
  - destruct (_ || _); [done|]. by intros [= <-].
  - destruct (sv_locked s); [done|]. destruct n as [|m]; [intros [= <-]; by left|].
    case_bool_decide; intros [= <-]; [by left|right; by exists m].
Qed.

Lemma draining_run evs : ∀ n s s',
  sv_phase s = Draining n → srv_run s evs = Some s' →
  sv_phase s' = Returned false ∨ ∃ m, sv_phase s' = Draining m ∧ Z.of_nat m + count is_poll evs = Z.of_nat n.
Proof.
  assert (∀ evs s s', sv_phase s = Returned false → srv_run s evs = Some s' → sv_phase s' = Returned false) as Hret.
  { intros l. induction l as [|ev l IH]; intros s s' Hp; cbn [srv_run]; [by intros [= <-]|].
    destruct (srv_apply s ev) as [s1|] eqn:Ha; [|done]. cbn [mbind option_bind]. apply IH. revert Ha.
    destruct ev; cbn [srv_apply]; unfold accept, accept_fail, register, finish, notify, poll; rewrite ?Hp; try done.
    - destruct (_ || _); [done|]. by intros [= <-].
    - destruct (_ || _); [done|]. by intros [= <-].
    - by intros [= <-].
    - destruct (_ || _); [done|]. by intros [= <-]. }
  induction evs as [|ev evs IH]; intros n s s' Hp; cbn [srv_run].
  { intros [= <-]. right. exists n. split; [done|]. change (count is_poll []) with 0. lia. }
  destruct (srv_apply s ev) as [s1|] eqn:Ha; [|done]. cbn [mbind option_bind]. intros Hr.
  pose proof (draining_step n s ev s1 Hp Ha) as Hd. rewrite count_cons. destruct (is_poll ev).
  - destruct Hd as [Hd|(m & -> & Hd)]; [left; by eapply Hret|].
    destruct (IH m s1 s' Hd Hr) as [Hx|(k & Hk & Hc)]; [by left|]. right. exists k. split; [done|]. lia.
  - destruct (IH n s1 s' Hd Hr) as [Hx|(k & Hk & Hc)]; [by left|]. right. exists k. split; [done|]. lia.
Qed.

(** However connections come, go and are shut down, the counters the server reports
    are those of its table: the current connections are the size of the table and the
    total is the number ever entered, modulo 2^64; and no connection that was accepted is
    in the table before its goroutine has entered it. *)
Theorem connections_counted evs s :
  srv_run NewServer evs = Some s →
  curr_connections (sv_stats s) = i64 (Z.of_nat (size (sv_conns s)))
  ∧ total_connections (sv_stats s) = i64 (count is_register evs)
  ∧ ∀ addr, addr ∈ sv_pending s → sv_conns s !! addr = None.
Proof. intros Hr. destruct (srv_run_inv evs 0 NewServer s NewServer_inv Hr) as [H1 H2 H3 _ _]. by rewrite Z.add_0_l in H2. Qed.

(** Once [Serve] has returned with the mutex, nothing is entered into the table. *)
Lemma locked_stays evs : ∀ s s',
  sv_locked s = true → sv_phase s = Returned false → sv_conns s = ∅ → srv_run s evs = Some s' → sv_conns s' = ∅ ∧ sv_pending s' = sv_pending s.
Proof.
  induction evs as [|ev evs IH]; intros s s' Hlk Hp Hcs; cbn [srv_run]; [by intros [= <-]|].
  destruct (srv_apply s ev) as [s1|] eqn:Ha; [|done]. cbn [mbind option_bind]. intros Hrun.
  destruct ev; cbn [srv_apply] in Ha; unfold accept, accept_fail, register, finish, notify, poll in Ha; rewrite ?Hp, ?Hlk in Ha; try done.
  injection Ha as <-. by apply (IH (stop s)).
Qed.

(** C23. A shutdown ends: once a server that was stopped has accepted another connection it
    waits for the table to become empty, a look at the table is always possible, and
    after 21 looks, with anything in between, [Serve] has returned. One of the first 20
    looks that finds the table empty makes [Serve] return with the mutex held, and from
    then on nothing is entered into the table any more, not even a connection that was
    accepted before. *)
Theorem shutdown_ends evs s :
  srv_run NewServer evs = Some s →
  (∀ addr, sv_phase s = Accepting → sv_stop s = true → ∃ s', srv_apply s (EAccept addr) = Some s' ∧ sv_phase s' = Draining 20)
  ∧ (∀ n, sv_phase s = Draining n →
       is_Some (srv_apply s EPoll)
       ∧ ∀ evs' s', srv_run s evs' = Some s' → 20 < count is_poll evs' → (n <= 20)%nat → sv_phase s' = Returned false)
  ∧ (∀ n, sv_phase s = Draining (S n) → sv_conns s = ∅ →
       ∃ s1, srv_apply s EPoll = Some s1 ∧ sv_phase s1 = Returned false ∧ sv_locked s1 = true
         ∧ ∀ evs' s', srv_run s1 evs' = Some s' → sv_conns s' = ∅ ∧ sv_pending s' = sv_pending s)
  ∧ (sv_locked s = true → ∀ evs' s', srv_run s evs' = Some s' → sv_conns s' = ∅ ∧ sv_pending s' = sv_pending s).
Proof.
  intros Hr. pose proof (srv_run_inv evs 0 NewServer s NewServer_inv Hr) as [_ _ _ Hl _].
  assert (∀ n, sv_phase s = Draining n → sv_locked s = false) as Hfree.
  { intros n Hp. destruct (sv_locked s) eqn:Hlk; [|done]. destruct (Hl eq_refl) as [Hx _]. congruence. }
  split_and!.
  - intros addr Hp Hs. cbn [srv_apply]. unfold accept. rewrite Hp, Hs. by eexists.
  - intros n Hp. split.
    + cbn [srv_apply]. unfold poll. rewrite Hp, (Hfree n Hp). destruct n as [|m]; [by eexists|]. case_bool_decide; by eexists.
    + intros evs' s' Hrun Hc Hn. destruct (draining_run evs' n s s' Hp Hrun) as [H|(m & _ & Hm)]; [done|lia].
  - intros n Hp Hcs. cbn [srv_apply]. unfold poll. rewrite Hp, (Hfree _ Hp), bool_decide_eq_true_2 by done.
    eexists. split_and!; [done..|]. intros evs' s' Hrun. by apply locked_stays in Hrun.
  - intros Hlk. destruct (Hl Hlk) as [Hp Hcs]. intros evs' s' Hrun. by eapply locked_stays.
Qed.

(** ** A run *)

Definition demo_events : list srv_event :=
  [EAccept (bstr "a:1"); EAccept (bstr "b:2"); ERegister (bstr "a:1"); EStop; ENotify; EAccept (bstr "c:3"); EPoll; EFinish (bstr "a:1"); EPoll].
Definition demo_server : SrvState := default NewServer (srv_run NewServer demo_events).

Lemma connections_counted_witness : curr_connections (sv_stats demo_server) = 0 ∧ total_connections (sv_stats demo_server) = 1.
Proof.
  destruct (connections_counted demo_events demo_server) as (H1 & H2 & _); [vm_compute; reflexivity|].
  rewrite H1, H2. vm_compute. split; reflexivity.
Defined.
(** The same before the last look. *)
Definition demo_before : SrvState := default NewServer (srv_run NewServer (take 8 demo_events)).

Lemma shutdown_ends_witness :
  ∃ s, srv_apply demo_before EPoll = Some s ∧ sv_phase s = Returned false ∧ sv_locked s = true
    ∧ bstr "b:2" ∈ sv_pending demo_before ∧ ∀ evs s', srv_run s evs = Some s' → sv_conns s' = ∅.
Proof.
  destruct (shutdown_ends (take 8 demo_events) demo_before) as (_ & _ & H & _); [vm_compute; reflexivity|].
  destruct (H 18%nat) as (s & H1 & H2 & H3 & H4); [vm_compute; reflexivity|vm_compute; reflexivity|].
  exists s. split; [exact H1|]. split; [exact H2|]. split; [exact H3|].
  split; [apply (bool_decide_unpack _); vm_compute; reflexivity|]. intros evs s' Hr. apply (H4 evs s' Hr).
Defined.
