(* ===== verification/BucketOpen.v ===== *)
(** * Opening and closing a bucket (src/store/bucket.go)

    A bucket is opened from its directory: the newest tree that was dumped is
    loaded, the hints of the later chunks are read or rebuilt from the data, and
    their items are put into the tree. The collision table is decoded by a YAML
    package: what it gives is an argument. [None] is a panic or a fatal error; in
    the loops also fuel that ran out, which is shown to suffice. *)

From stdpp Require Import gmap.
From S2P Require Import Prelude Hashing Strconv Config Cmem Key Item Fixtures Leaf HTree HTreeDisk.
From S2P Require Import DataFile Data HintFile Hint HintMerge Bucket.

(** A bucket with what it keeps about its trees and its garbage collection:
    [op_trees] are the dumped trees in its directory, [op_gcfile] is nextgc.txt. *)
Record OpenBucket := mkOpen {
  op_bkt : Bucket;
  op_TreeID : HintID;
  op_NextGCChunk : Z;
  op_trees : gmap (Z * Z) bytes;
  op_gcfile : option bytes
}.

Definition op_with (o : OpenBucket) (b : Bucket) : OpenBucket :=
  mkOpen b (op_TreeID o) (op_NextGCChunk o) (op_trees o) (op_gcfile o).
Definition hm_with_dumped (h : hintMgr) (id : HintID) : hintMgr := hm_with h (hm_chunks h) id (hm_disk h).

Section Open.
Context (Conf : HStoreConfig) (mc : MCConfig) (E : Ext).

(** ** Rebuilding the hints of a chunk *)

(** The item of a record read from the data: the value is decompressed for its
    hash and freed. *)
Definition item_of_record (rec : Record_) (offset : Z) (r : BeansdbRL) : HintItem * BeansdbRL :=
  let '(p, _, r) := Decompress mc E (r_Payload rec) r in
  (newHintItem (getKeyHash E (r_Key rec)) (Ver (p_meta p)) (Getvhash (p_Body p)) (mkPos 0 offset) (r_Key rec),
   (Free (p_arr p) r).2).

Fixpoint build_loop (fuel : nat) (h : hintMgr) (chunkID : Z) (s : DataStreamReader) (now : Z) (r : BeansdbRL)
    : option (hintMgr * option StoreErr * BeansdbRL) :=
  match fuel with
  | O => None
  | S fuel =>
      '(res, s, r) ← Next mc E s r;
      match n_err res, n_rec res with
      | Some e, _ => Some (h, Some e, r)
      | None, None => Some (h, None, r)
      | None, Some rec =>
          let '(it, r) := item_of_record rec (n_offset res) r in
          '(_, h) ← hm_setItem Conf h it chunkID (RecSize (p_meta (r_Payload rec))) now;
          build_loop fuel h chunkID s now r
      end
  end.

(** [buildHintFromData]. *)
Definition buildHintFromData (h : hintMgr) (disk : Disk) (chunkID start now : Z) (r : BeansdbRL)
    : option (hintMgr * option StoreErr * BeansdbRL) :=
  match disk !! chunkID with
  | None => Some (h, Some ErrOpen, r)
  | Some f =>
      '(h, err, r) ← build_loop (S (length f)) h chunkID (sr_seek (newDataStreamReader f) start) now r;
      match err with
      | Some e => Some (h, Some e, r)
      | None => '(_, h) ← trydump Conf h chunkID true now; Some (h, None, r)
      end
  end.

(** [checkHintWithData]: the hints of a chunk without data are removed, those that
    do not reach the end of the data are completed from it. *)
Definition checkHintWithData (h : hintMgr) (ds : dataStore) (chunkID now : Z) (r : BeansdbRL)
    : option (hintMgr * option StoreErr * BeansdbRL) :=
  dc ← zget (ds_chunks ds) chunkID;
  if dc_size dc =? 0 then Some (RemoveHintfilesByChunk h chunkID, None, r)
  else
    '(hintDataSize, h) ← loadHintsByChunk h chunkID;
    if hintDataSize <? dc_size dc then buildHintFromData h (ds_disk ds) chunkID hintDataSize now r
    else Some (h, None, r).

(** ** From the hints to the tree *)

(** One item: set, or removed whatever its position. *)
Definition tree_update (t : HTree) (chunkID : Z) (it : HintItem) : option HTree :=
  let m := hi_meta it in
  ki ← NewKeyInfoFromBytes Conf (hi_Key it) (Keyhash m) false;
  '(ki, _) ← Prepare Conf ki;
  if 0 <? it_Ver m
  then ht_set Conf (heap E) t ki (mkMeta 0 0 (it_Ver m) (Vhash m) 0) (mkPos chunkID (Offset (Pos m)))
  else ht_remove Conf t ki (mkPos (-1) (Offset (Pos m))).

Fixpoint update_loop (fuel : nat) (t : HTree) (chunkID : Z) (rd : hintFileReader) : option (HTree * option StoreErr) :=
  match fuel with
  | O => None
  | S fuel =>
      match hr_next rd with
      | (inr e, _) => Some (t, Some e)
      | (inl None, _) => Some (t, None)
      | (inl (Some it), rd) => t ← tree_update t chunkID it; update_loop fuel t chunkID rd
      end
  end.

(** [updateHtreeFromHint]: a file that cannot be opened has no items. *)
Definition updateHtreeFromHint (t : HTree) (chunkID : Z) (f : bytes) : option (HTree * option StoreErr) :=
  match hr_open f with
  | inr _ => Some (t, None)
  | inl rd => update_loop (S (length f)) t chunkID rd
  end.

(** The splits of a chunk in order; [inl id] is the identifier of the last one. *)
Fixpoint update_splits (t : HTree) (chunkID startsp j : Z) (sps : list hintSplit) (id : HintID)
    : option (HTree * (HintID + StoreErr)) :=
  match sps with
  | [] => Some (t, inl id)
  | sp :: sps =>
      file ← sp_file sp;
      '(t, err) ← updateHtreeFromHint t chunkID (hx_file file);
      match err with
      | Some e => Some (t, inr e)
      | None => update_splits t chunkID startsp (j + 1) sps (mkHintID chunkID (startsp + j))
      end
  end.

(** ** Opening *)

(** The loop of [open] over the chunks [i], ..., [i + n - 1]: hints checked with the
    data, then put into the tree. *)
Fixpoint open_chunks (b : Bucket) (tree : HintID) (i : Z) (n : nat) (now : Z) (r : BeansdbRL)
    : option ((Bucket + StoreErr) * BeansdbRL) :=
  match n with
  | O => Some (inl b, r)
  | S n =>
      let startsp := if i =? id_Chunk tree then id_Split tree + 1 else 0 in
      '(h, err, r) ← checkHintWithData (bk_hints b) (bk_datas b) i now r;
      match err with
      | Some _ => None
      | None =>
          ck ← zget (hm_chunks h) i;
          let num := zlen (hc_splits ck) - 1 in
          if num <=? startsp then open_chunks (with_hints b h) tree (i + 1) n now r
          else
            '(t, res) ← update_splits (bk_htree b) i startsp 0 (take (Z.to_nat num) (hc_splits ck)) (hm_maxDumpedHintID h);
            match res with
            | inr e => Some (inr e, r)
            | inl id => open_chunks (with_hints (with_htree b t) (hm_with_dumped h id)) tree (i + 1) n now r
            end
      end
  end.

(** The dumped trees, newest first: a tree beyond the data or older than the one
    loaded is removed; one that does not load leaves a new tree. *)
Fixpoint load_trees (paths : list ((Z * Z) * bytes)) (bucketID maxdata : Z) (t : HTree) (id : HintID)
    (trees : gmap (Z * Z) bytes) : option (HTree * HintID * gmap (Z * Z) bytes) :=
  match paths with
  | [] => Some (t, id, trees)
  | ((ck, sp), f) :: paths =>
      if maxdata <? ck then load_trees paths bucketID maxdata t id (delete (ck, sp) trees)
      else if isLarger id ck sp then
        '(t, ok) ← load Conf (heap E) t f;
        if ok : bool then load_trees paths bucketID maxdata t (mkHintID ck sp) trees
        else
          t ← newHTree (TreeDepth Conf) bucketID (TreeHeight Conf);
          load_trees paths bucketID maxdata t (mkHintID 0 (-1)) trees
      else load_trees paths bucketID maxdata t id (delete (ck, sp) trees)
  end.

Definition removeHtree (o : OpenBucket) : OpenBucket :=
  mkOpen (op_bkt o) (mkHintID 0 0) (op_NextGCChunk o) ∅ (op_gcfile o).

(** [dumpHtree]: the tree is written under the newest dumped hint, unless a newer
    one is there. *)
Definition dumpHtree (o : OpenBucket) : option OpenBucket :=
  let id := hm_maxDumpedHintID (bk_hints (op_bkt o)) in
  if isLarger (op_TreeID o) (id_Chunk id) (id_Split id) then
    let o := removeHtree o in
    '(t, f) ← dump Conf (bk_htree (op_bkt o));
    Some (mkOpen (with_htree (op_bkt o) t) id (op_NextGCChunk o)
            (<[(id_Chunk id, id_Split id) := f]> (op_trees o)) (op_gcfile o))
  else Some o.

(** [checkForDump]; it lists the files again. *)
Definition checkForDump (o : OpenBucket) (dumpthreshold : Z) : OpenBucket * bool :=
  let '(ds, res) := ListFiles (bk_datas (op_bkt o)) in
  let o := op_with o (with_datas (op_bkt o) ds) in
  (o, match res with
      | inr _ => false
      | inl maxdata =>
          if maxdata <? 0 then false
          else
            let ids := rev (fst <$> hint_paths (op_trees o)) in
            if existsb (λ id, fst id + dumpthreshold <? maxdata) ids then false
            else bool_decide (ids = [])
      end).

(** ASCII white space around a number. *)
Definition is_blank (c : Z) : bool := (c =? 32) || ((9 <=? c) && (c <=? 13)).
Fixpoint trim_left (s : bytes) : bytes :=
  match s with c :: s' => if is_blank c then trim_left s' else s | [] => [] end.
Definition TrimSpace (s : bytes) : bytes := rev (trim_left (rev (trim_left s))).

(** [loadGCHistroy]: at most 10 bytes are read; a file that holds no number leaves
    the chunk alone. *)
Definition loadGCHistroy (o : OpenBucket) : OpenBucket :=
  match op_gcfile o with
  | None => o
  | Some f =>
      match Atoi (TrimSpace (take 10 f)) with
      | Some n => mkOpen (op_bkt o) (op_TreeID o) n (op_trees o) (op_gcfile o)
      | None => o
      end
  end.
Definition dumpGCHistroy (o : OpenBucket) : OpenBucket :=
  mkOpen (op_bkt o) (op_TreeID o) (op_NextGCChunk o) (op_trees o) (Some (Itoa (op_NextGCChunk o))).

(** The files of a bucket's directory. *)
Record BucketDir := mkDir {
  bd_data : Disk;
  bd_hints : gmap (Z * Z) bytes;
  bd_merged : gmap (Z * Z) bytes;
  bd_trees : gmap (Z * Z) bytes;
  bd_gcfile : option bytes
}.
Definition empty_dir : BucketDir := mkDir ∅ ∅ ∅ ∅ None.

(** The directory of an open bucket: what is on disk, without the buffers. *)
Definition dir_of (o : OpenBucket) : BucketDir :=
  mkDir (ds_disk (bk_datas (op_bkt o))) (hm_disk (bk_hints (op_bkt o))) (hm_mdisk (bk_hints (op_bkt o))) (op_trees o) (op_gcfile o).

(** [open]; [ct] is the collision table [loadCollisions] gives, the chunks below
    the tree are checked later ([open_rest]). *)
Definition bkt_open (bucketID : Z) (dir : BucketDir) (ct : CollisionTable) (mergeChan : bool) (now : Z) (r : BeansdbRL)
    : option ((OpenBucket + StoreErr) * BeansdbRL) :=
  let h := hm_with_collisions (newHintMgr mergeChan (bd_hints dir) (bd_merged dir)) ct in
  t ← newHTree (TreeDepth Conf) bucketID (TreeHeight Conf);
  let '(ds, res) := ListFiles (NewdataStore (bd_data dir)) in
  match res with
  | inr e => Some (inr e, r)
  | inl maxdata =>
      '(t, id, trees) ← load_trees (rev (hint_paths (bd_trees dir))) bucketID maxdata t (mkHintID 0 (-1)) (bd_trees dir);
      let b := mkBucket t (hm_with_dumped h id) ds 0 0 [] in
      '(res, r) ← open_chunks b id (id_Chunk id) (Z.to_nat (MAX_NUM_CHUNK - id_Chunk id)) now r;
      match res with
      | inr e => Some (inr e, r)
      | inl b =>
          let '(o, todump) := checkForDump (mkOpen b id 0 trees (bd_gcfile dir)) (TreeDump Conf) in
          o ← (if todump : bool then dumpHtree o else Some o);
          Some (inl (loadGCHistroy o), r)
      end
  end.

(** The goroutine [open] leaves behind: chunks [i], ..., below the tree; errors are
    dropped. *)
Fixpoint open_rest (b : Bucket) (i : Z) (n : nat) (now : Z) (r : BeansdbRL) : option (Bucket * BeansdbRL) :=
  match n with
  | O => Some (b, r)
  | S n =>
      '(h, _, r) ← checkHintWithData (bk_hints b) (bk_datas b) i now r;
      open_rest (with_hints b h) (i + 1) n now r
  end.

(** [close]: the data is flushed, then hints and tree are dumped, unless there is
    no data file; dumping the collision table goes through YAML. *)
Definition bkt_close (o : OpenBucket) (now : Z) (r : BeansdbRL) : option (OpenBucket * BeansdbRL) :=
  '(ds, r) ← ds_flush Conf (bk_datas (op_bkt o)) (-1) true now r;
  let o := op_with o (with_datas (op_bkt o) ds) in
  if bool_decide (ds_disk ds = ∅) then Some (o, r)
  else
    h ← hm_close Conf (bk_hints (op_bkt o)) now;
    o ← dumpHtree (op_with o (with_hints (op_bkt o) h));
    Some (o, r).

End Open.
