(* ===== verification/BucketOpenSpec.v ===== *)
(** * Recovering a bucket from its data files

    What opening and closing rest on: building the hints of one chunk leaves the
    files of the others alone, and listing the data files gives the store of the log
    that they hold. *)

From stdpp Require Import gmap.
From S2P Require Import Prelude Hashing Strconv Config Cmem Key Item Fixtures Leaf HTree HTreeSpec HTreeMerkle.
From S2P Require Import HTreeProps HTreeDisk DataFile Data DataSpec DataLog HintFile Hint HintSpec HintProps HintMerge.
From S2P Require Import Bucket BucketSpec BucketOpen.

(** ** The hint files of other chunks *)

Definition disk_frame (chunkID : Z) (h h' : hintMgr) : Prop :=
  ∀ k : Z * Z, fst k ≠ chunkID → hm_disk h' !! k = hm_disk h !! k.

Instance disk_frame_preorder chunkID : PreOrder (disk_frame chunkID).
Proof. split; [by intros ? ?|]. intros a b c Hab Hbc k Hk. by rewrite Hbc, Hab. Qed.

Section Frame.
Context (Conf : HStoreConfig).

Lemma hm_dump_disk h c j h' : hm_dump Conf h c j = Some h' → disk_frame c h h'.
Proof.
  unfold hm_dump. intros Hd k Hk. simplify_option_eq. apply lookup_insert_ne. by intros <-.
Qed.

Lemma dump_old_disk n : ∀ h c j h', dump_old Conf h c j n = Some h' → disk_frame c h h'.
Proof.
  induction n as [|n IH]; intros h c j h' Hd; [by injection Hd as <-|]. cbn [dump_old] in Hd.
  destruct (zget (hm_chunks h) c) as [ck|]; [|done]. cbn [mbind option_bind] in Hd.
  destruct (zget (hc_splits ck) j) as [sp|]; [|done]. cbn [mbind option_bind] in Hd.
  destruct (needDump sp) as [[]|]; [| |done]; cbn [mbind option_bind] in Hd.
  - destruct (hm_dump Conf h c j) as [h1|] eqn:H1; [|done]. cbn [mbind option_bind] in Hd.
    etrans; [by eapply hm_dump_disk|by eapply IH].
  - by eapply IH.
Qed.

Lemma trydump_disk h c dumplast now s h' : trydump Conf h c dumplast now = Some (s, h') → disk_frame c h h'.
Proof.
  unfold trydump. intros Hd. destruct (zget (hm_chunks h) c) as [ck|]; [|done]. cbn [mbind option_bind] in Hd.
  destruct (dump_old _ _ _ _ _) as [h1|] eqn:Hold; [|done]. cbn [mbind option_bind] in Hd. apply dump_old_disk in Hold.
  destruct (zget (hm_chunks h1) c) as [ck1|]; [|done]. cbn [mbind option_bind] in Hd.
  repeat (case_match; simplify_eq; try done). destruct (zget (hc_splits ck1) _) as [sp|]; [|done]. cbn [mbind option_bind] in Hd.
  destruct (needDump sp) as [[]|]; cbn [mbind option_bind] in Hd; simplify_eq; [|done].
  destruct (zset (hm_chunks h1) c _) as [cs|]; [|done]. cbn [mbind option_bind] in Hd.
  destruct (hm_dump _ _ _ _) as [h2|] eqn:Hnew; [|done]. cbn [mbind option_bind] in Hd. simplify_eq.
  apply hm_dump_disk in Hnew. etrans; [exact Hold|exact Hnew].
Qed.

Lemma hm_setItem_disk h it c recSize now rot h' : hm_setItem Conf h it c recSize now = Some (rot, h') → disk_frame c h h'.
Proof.
  unfold hm_setItem. intros Hd. destruct (zget (hm_chunks h) c) as [ck|]; [|done]. cbn [mbind option_bind] in Hd.
  destruct (hc_setItem _ _ _ _ _) as [[rt ck']|]; [|done]. destruct (zset _ _ _) as [cs|]; [|done]. cbn [mbind option_bind] in Hd.
  assert (∀ h2, (if rt && negb (hm_mergeChan (hm_with_chunks h cs) && (hm_maxChunkID (hm_with_chunks h cs) <=? c))
      then res ← trydump Conf (hm_with_chunks h cs) c false now; Some res.2 else Some (hm_with_chunks h cs)) = Some h2 →
    disk_frame c h h2) as Hmid.
  { intros h2. destruct (rt && _); [|by intros [= <-]]. destruct (trydump _ _ _ _ _) as [[s h3]|] eqn:H3; [|done].
    intros [= <-]. by apply trydump_disk in H3. }
  destruct (if rt && _ then _ else _) as [h2|] eqn:H2; [|done]. cbn [mbind option_bind] in Hd. simplify_eq.
  specialize (Hmid h2 eq_refl). by destruct (_ <? _).
Qed.

End Frame.

(** ** Listing the data files *)

Section Files.
Context (Conf : HStoreConfig) (mc : MCConfig) (E : Ext).

(** The file of every chunk holds its records; a chunk without records has no
    file. *)
Definition files_hold (disk : Disk) (L : list (list Record_)) : Prop :=
  ∀ i, disk !! i = match zget L i with
    | Some (rec :: recs) => Some (file_of (rec :: recs))
    | _ => None
    end.

(** The log of a bucket: well-formed records, no more chunks than there are, none
    of 4 GB. *)
Record log_ok (L : list (list Record_)) : Prop := {
  lo_recs : Forall (Forall (rec_ok mc)) L;
  lo_size : Forall (λ recs, sizes recs < 2 ^ 32) L;
  lo_len : zlen L < MAX_NUM_CHUNK
}.

Definition chunk_of (L : list (list Record_)) (i : nat) : dataChunk :=
  let sz := sizes (default [] (L !! i)) in mkChunk (Z.of_nat i) sz sz [] false None.

Lemma file_of_length recs : Forall (rec_ok mc) recs → (length recs <= length (file_of recs))%nat.
Proof.
  intros Hok. pose proof (zlen_file_of mc recs Hok) as Hz. unfold zlen in Hz. revert Hz. generalize (length (file_of recs)).
  intros n Hz. enough (Z.of_nat (length recs) <= sizes recs) by lia. clear n Hz.
  induction Hok as [|rec recs Hr _ IH]; [done|]. rewrite sizes_cons. pose proof (rec_Size_range mc rec Hr) as [? ?]. cbn [length]. lia.
Qed.

Lemma log_recs L i : log_ok L → Forall (rec_ok mc) (default [] (L !! i)) ∧ 0 <= sizes (default [] (L !! i)) < 2 ^ 32
  ∧ sizes (default [] (L !! i)) mod 256 = 0.
Proof.
  intros [Hr Hs _]. destruct (L !! i) as [recs|] eqn:Hi; cbn [from_option id]; [|done].
  rewrite Forall_lookup in Hr, Hs. specialize (Hr _ _ Hi). specialize (Hs _ _ Hi).
  pose proof (sizes_range mc recs Hr) as [? ?]. split; [done|]. split; [|done]. cbn in Hs. lia.
Qed.

(** The number of the last chunk with records. *)
Definition max_chunk (L : list (list Record_)) (n k : nat) (max : Z) : Z :=
  foldl (λ max i, match L !! i with Some (_ :: _) => Z.of_nat i | _ => max end) max (seq k n).

Lemma list_files_spec disk L n : ∀ k cs max,
  files_hold disk L → log_ok L → length cs = n →
  (∀ i dc, cs !! i = Some dc → ∃ head, dc = mkChunk (Z.of_nat (k + i)) (dc_size dc) head [] false None
    ∧ (default [] (L !! (k + i)%nat) = [] → head = 0)) →
  list_files cs disk max = (chunk_of L <$> seq k n, inl (max_chunk L n k max)).
Proof.
  induction n as [|n IH]; intros k cs max Hf Hl Hn Hcs; destruct cs as [|dc cs]; try done.
  destruct (Hcs 0%nat dc eq_refl) as (head & Hdc & Hhead). rewrite Nat.add_0_r in Hdc, Hhead.
  destruct (log_recs L k Hl) as (Hok & Hsz & Hal).
  assert (∀ max', list_files cs disk max' = (chunk_of L <$> seq (S k) n, inl (max_chunk L n (S k) max'))) as Hrec.
  { intros max'. apply IH; [done|done|by injection Hn|]. intros i dc' Hi.
    destruct (Hcs (S i) dc' Hi) as (hd & Hd & Hh). rewrite <- plus_n_Sm in Hd, Hh. by exists hd. }
  cbn [list_files seq fmap list_fmap]. rewrite Hdc. cbn [dc_chunkid dc_writingHead dc_wbuf dc_rewriting dc_gcWriter].
  pose proof (Hf (Z.of_nat k)) as Hfk. rewrite zget_nat in Hfk. unfold chunk_of at 1, max_chunk. cbn [seq foldl].
  destruct (L !! k) as [[|rec recs]|] eqn:Hk; cbn [from_option id] in *; rewrite Hfk, ?Hrec.
  - by rewrite Hhead.
  - rewrite (zlen_file_of mc _ Hok), u32_small by done. rewrite land_ff_mod, Hal by lia. done.
  - by rewrite Hhead.
Qed.

Lemma max_chunk_range L n : ∀ k max,
  -1 <= max < Z.of_nat k → (length L <= k + n)%nat →
  -1 <= max_chunk L n k max < Z.of_nat (k + n)
  ∧ (max <= max_chunk L n k max)
  ∧ ∀ i : nat, (k <= i)%nat → max_chunk L n k max < Z.of_nat i → default [] (L !! i) = [].
Proof.
  induction n as [|n IH]; intros k max Hm Hlen; unfold max_chunk; cbn [seq foldl].
  { split; [lia|]. split; [lia|]. intros i Hi _. rewrite lookup_ge_None_2 by lia. done. }
  set (max' := match L !! k with Some (_ :: _) => Z.of_nat k | _ => max end).
  assert (-1 <= max' < Z.of_nat (S k) ∧ max <= max') as [Hm' Hle] by (unfold max'; destruct (L !! k) as [[|]|]; lia).
  destruct (IH (S k) max' Hm' ltac:(lia)) as (H1 & H2 & H3). unfold max_chunk in *.
  split; [lia|]. split; [lia|]. intros i Hi Hlt. destruct (decide (i = k)) as [->|]; [|apply H3; [lia|done]].
  unfold max' in *. destruct (L !! k) as [[|]|]; [done|lia|done].
Qed.

(** The store over the files of a log. *)
Definition store_of (L : list (list Record_)) (disk : Disk) (head now : Z) : dataStore :=
  mkStore head (chunk_of L <$> seq 0 (Z.to_nat MAX_NUM_CHUNK)) 0 now disk.
Definition log_head (L : list (list Record_)) : Z := max_chunk L (Z.to_nat MAX_NUM_CHUNK) 0 (-1) + 1.
Definition log_ghost (L : list (list Record_)) (i : nat) : ghost :=
  let recs := default [] (L !! i) in mkGhost recs (length recs) (length recs) [] [].
Definition log_ghosts (L : list (list Record_)) : list ghost := log_ghost L <$> seq 0 (Z.to_nat MAX_NUM_CHUNK).

Lemma ListFiles_new disk L :
  files_hold disk L → log_ok L →
  ListFiles (NewdataStore disk) = (store_of L disk (log_head L) 0, inl (log_head L - 1)).
Proof.
  intros Hf Hl. unfold ListFiles, NewdataStore. cbn [ds_chunks ds_disk ds_wbufSize ds_lastFlushTime].
  rewrite (list_files_spec disk L (Z.to_nat MAX_NUM_CHUNK) 0); [|done|done|by rewrite length_fmap, length_seq|].
  - unfold store_of, log_head. by rewrite Z.add_simpl_r.
  - intros i dc Hi. rewrite list_lookup_fmap in Hi. destruct (seq 0 _ !! i) as [j|] eqn:Hj; [|done].
    apply lookup_seq in Hj as [-> _]. injection Hi as <-. by exists 0.
Qed.

Lemma ListFiles_again disk L now :
  files_hold disk L → log_ok L →
  ListFiles (store_of L disk (log_head L) now) = (store_of L disk (log_head L) now, inl (log_head L - 1)).
Proof.
  intros Hf Hl. unfold ListFiles, store_of. cbn [ds_chunks ds_disk ds_wbufSize ds_lastFlushTime].
  rewrite (list_files_spec disk L (Z.to_nat MAX_NUM_CHUNK) 0); [|done|done|by rewrite length_fmap, length_seq|].
  - unfold log_head. by rewrite Z.add_simpl_r.
  - intros i dc Hi. rewrite list_lookup_fmap in Hi. destruct (seq 0 _ !! i) as [j|] eqn:Hj; [|done].
    apply lookup_seq in Hj as [-> _]. injection Hi as <-. unfold chunk_of. cbn. eexists. split; [done|].
    intros Hnil. by rewrite Hnil.
Qed.

Lemma log_head_range L : log_ok L → 0 <= log_head L <= zlen L ∧ ∀ i : nat, log_head L <= Z.of_nat i → default [] (L !! i) = [].
Proof.
  intros [_ _ Hlen]. unfold log_head, zlen in *.
  destruct (max_chunk_range L (Z.to_nat MAX_NUM_CHUNK) 0 (-1)) as (H1 & H2 & H3); [lia|lia|].
  split; [|intros i Hi; apply H3; [lia|lia]]. split; [lia|].
  destruct (decide (max_chunk L (Z.to_nat MAX_NUM_CHUNK) 0 (-1) < Z.of_nat (length L))) as [|Hge]; [lia|].
  exfalso. set (m := max_chunk L (Z.to_nat MAX_NUM_CHUNK) 0 (-1)) in *.
  assert (∀ n k max, max < Z.of_nat (length L) → max_chunk L n k max < Z.of_nat (length L)) as Hb.
  { clear. induction n as [|n IH]; intros k max Hm; [done|]. unfold max_chunk. cbn [seq foldl]. apply IH.
    destruct (L !! k) as [[|]|] eqn:Hk; try done. apply lookup_lt_Some in Hk. lia. }
  specialize (Hb (Z.to_nat MAX_NUM_CHUNK) 0%nat (-1) ltac:(lia)). fold m in Hb. lia.
Qed.

(** The last chunk of a log has records. *)
Lemma max_chunk_used L n : ∀ k max,
  max_chunk L n k max = max ∨ ∃ j : nat, max_chunk L n k max = Z.of_nat j ∧ default [] (L !! j) ≠ [].
Proof.
  induction n as [|n IH]; intros k max; [by left|]. unfold max_chunk in *. cbn [seq foldl].
  destruct (IH (S k) (match L !! k with Some (_ :: _) => Z.of_nat k | _ => max end)) as [->|?]; [|by right].
  destruct (L !! k) as [[|x l]|] eqn:Hk; [by left| |by left]. right. exists k. by rewrite Hk.
Qed.

Lemma log_head_used L : 0 < log_head L → default [] (L !! Z.to_nat (log_head L - 1)) ≠ [].
Proof.
  unfold log_head. generalize (Z.to_nat MAX_NUM_CHUNK). intros n Hpos.
  destruct (max_chunk_used L n 0 (-1)) as [Hm|(j & Hm & Hne)]; [lia|]. rewrite Hm.
  by replace (Z.to_nat (Z.of_nat j + 1 - 1)) with j by lia.
Qed.

Lemma upto_lookup {A} (f : nat → A) n i x : (f <$> seq 0 n) !! i = Some x → x = f i ∧ (i < n)%nat.
Proof.
  rewrite list_lookup_fmap. destruct (seq 0 n !! i) as [j|] eqn:Hj; [|done]. apply lookup_seq in Hj as [-> Hi].
  by intros [= <-].
Qed.

Lemma log_ghost_inv disk L i : files_hold disk L → log_ok L → chunk_inv mc (chunk_of L i) disk (log_ghost L i).
Proof.
  intros Hf Hl. destruct (log_recs L i Hl) as (Hok & Hsz & Hal).
  split; cbn [log_ghost chunk_of g_recs g_drop g_done g_gap g_left dc_wbuf dc_chunkid dc_writingHead dc_size]; try done; try lia.
  - rewrite drop_ge by (by rewrite length_placed). done.
  - change (sizes []) with 0. change (zlen []) with 0. lia.
  - rewrite take_ge, app_nil_l, app_nil_r by done. unfold file_at. rewrite Hf, zget_nat. by destruct (L !! i) as [[|]|].
Qed.

(** The log on disk is the log of the store. *)
Lemma store_inv_upto disk L n head now :
  files_hold disk L → log_ok L → 0 <= DataFileMax Conf → 0 <= head < Z.of_nat n →
  (∀ i : nat, head <= Z.of_nat i → default [] (L !! i) = []) →
  store_inv Conf mc (mkStore head (chunk_of L <$> seq 0 n) 0 now disk) (log_ghost L <$> seq 0 n) None.
Proof.
  intros Hf Hl Hmax Hh He. split; cbn [ds_chunks ds_disk ds_newHead].
  - by rewrite !length_fmap.
  - intros i dc g [-> _]%upto_lookup [-> _]%upto_lookup. split; [done|]. split; [by apply log_ghost_inv|].
    unfold log_ghost, in_flight; cbn; lia.
  - unfold zlen. rewrite length_fmap, length_seq. lia.
  - intros dc [_ [-> _]%upto_lookup]%zget_Some. unfold chunk_of. cbn [dc_writingHead]. rewrite He by lia. done.
  - intros i dc Hi [-> _]%upto_lookup. unfold chunk_of. cbn [dc_writingHead]. rewrite He by lia. done.
  - intros i g _ [-> _]%upto_lookup. done.
  - done.
Qed.

Lemma store_of_inv disk L now :
  files_hold disk L → log_ok L → 0 <= DataFileMax Conf →
  store_inv Conf mc (store_of L disk (log_head L) now) (log_ghosts L) None.
Proof.
  intros Hf Hl Hmax. destruct (log_head_range L Hl) as [Hh He]. pose proof (lo_len _ Hl) as Hlen.
  apply store_inv_upto; [done|done|done| |done]. unfold zlen in *. lia.
Qed.

End Files.
