(* ===== verification/HintReload.v ===== *)
(** * Loading the hint files of a chunk

    [loadHintsByChunk] takes the files numbered from 0 without a gap, up to the
    first that cannot be loaded, and removes the others. Which files those are is
    stated without the sorting and the loops of the code, and the chunk they give
    is computed. *)

From stdpp Require Import gmap sorting.
From S2P Require Import Prelude HintFile Hint HintSpec HintMerge BucketOpenSpec.

(** The hint files of chunk [i] that count: the splits 0, 1, ... load as [idxs],
    and the file after them is missing or shorter than its header. (Loading a file that
    is cut off behind the header panics, [loadHintIndex_cut].) *)
Record hint_files (hd : gmap (Z * Z) bytes) (i : Z) (idxs : list hintFileIndex) : Prop := {
  hfs_load : Forall (λ idx, loadHintIndex (hx_file idx) = Some (inl idx)) idxs;
  hfs_file (j : nat) idx : idxs !! j = Some idx → hd !! (i, Z.of_nat j) = Some (hx_file idx);
  hfs_end f : hd !! (i, zlen idxs) = Some f → (length f < 16)%nat
}.

Definition file_split (idx : hintFileIndex) : hintSplit := mkSplit None (Some idx).
(** How far into the data file the hints reach. *)
Definition hint_reach (sz : Z) (idxs : list hintFileIndex) : Z :=
  foldl (λ sz idx, Z.max sz (datasize (hx_meta idx))) sz idxs.

Section Reload.
Context (i : Z).

Fixpoint split_paths (n : Z) (idxs : list hintFileIndex) : list ((Z * Z) * bytes) :=
  match idxs with
  | [] => []
  | idx :: idxs => ((i, n), hx_file idx) :: split_paths (n + 1) idxs
  end.

Lemma split_paths_elem p idxs : ∀ n, p ∈ split_paths n idxs →
  ∃ (j : nat) idx, idxs !! j = Some idx ∧ p = ((i, n + Z.of_nat j), hx_file idx).
Proof.
  induction idxs as [|idx idxs IH]; intros n Hp; [by apply not_elem_of_nil in Hp|].
  cbn [split_paths] in Hp. apply elem_of_cons in Hp as [->|Hp]; [exists 0%nat, idx; by rewrite Z.add_0_r|].
  destruct (IH _ Hp) as (j & x & Hj & ->). exists (S j), x. split; [done|]. do 2 f_equal. lia.
Qed.

Definition of_chunk (l : list ((Z * Z) * bytes)) : Prop := Forall (λ p, fst (fst p) = i) l.
(** [d'] is [d] without the files [ks]. *)
Definition removed (d : gmap (Z * Z) bytes) (ks : list (Z * Z)) (d' : gmap (Z * Z) bytes) : Prop :=
  ∀ k, d' !! k = if decide (k ∈ ks) then None else d !! k.

Lemma removed_nil d : removed d [] d.
Proof. intros k. rewrite decide_False by apply not_elem_of_nil. done. Qed.

Lemma removed_delete d x ks d' : removed (delete x d) ks d' → removed d (x :: ks) d'.
Proof.
  intros Hd k. rewrite Hd. destruct (decide (k = x)) as [->|Hne].
  - rewrite (decide_True (P := x ∈ x :: ks)) by (by left). destruct (decide _); [done|]. by rewrite lookup_delete_eq.
  - rewrite lookup_delete_ne by done. apply decide_ext. rewrite elem_of_cons. naive_solver.
Qed.

(** Among sorted files of one chunk those numbered from [n] are kept. *)
Lemma valid_paths_spec l : ∀ idxs n disk,
  StronglySorted id_le l → NoDup (fst <$> l) → of_chunk l → (∀ p, p ∈ split_paths n idxs → p ∈ l) →
  ∃ rest del disk', valid_paths l n disk = (split_paths n idxs ++ rest, disk') ∧ l ≡ₚ split_paths n idxs ++ rest ++ del
    ∧ (∀ p, head rest = Some p → snd (fst p) = n + zlen idxs) ∧ removed disk (fst <$> del) disk'.
Proof.
  induction l as [|p l IH]; intros idxs n disk Hs Hnd Hc Hin.
  { destruct idxs as [|idx idxs]; [exists [], [], disk; by split_and!; [..|apply removed_nil]|].
    exfalso. eapply not_elem_of_nil, (Hin ((i, n), hx_file idx)). by left. }
  apply StronglySorted_inv in Hs as [Hs Hle]. rewrite fmap_cons in Hnd. apply NoDup_cons in Hnd as [Hni Hnd].
  apply Forall_cons in Hc as [Hp Hc]. cbn [valid_paths].
  assert (∀ q, q ∈ l → fst q ≠ fst p) as Hne.
  { intros q Hq He. apply Hni. rewrite <- He. by apply list_elem_of_fmap_2. }
  destruct (Z.eqb_spec (snd (fst p)) n) as [Hn|Hn].
  - destruct idxs as [|idx idxs].
    + destruct (IH [] (n + 1) disk Hs Hnd Hc) as (rest & del & d' & -> & Hperm & _ & Hd); [by intros q Hq%not_elem_of_nil|].
      exists (p :: rest), del, d'. split; [done|]. split; [by rewrite Hperm|]. split; [|done].
      intros q [= <-]. change (zlen []) with 0. lia.
    + assert (p = ((i, n), hx_file idx)) as ->.
      { destruct (proj1 (elem_of_cons _ _ _) (Hin _ ltac:(by left))) as [<-|Hq]; [done|]. exfalso.
        apply (Hne _ Hq). destruct p as [[a b] f]. cbn in *. congruence. }
      destruct (IH idxs (n + 1) disk Hs Hnd Hc) as (rest & del & d' & -> & Hperm & Hh & Hd).
      { intros q Hq. destruct (proj1 (elem_of_cons _ _ _) (Hin q ltac:(by right))) as [->|]; [|done].
        apply split_paths_elem in Hq as (j & x & _ & [= Hj _]). lia. }
      exists rest, del, d'. split; [done|]. split; [cbn [split_paths app]; by rewrite <- Hperm|]. split; [|done]. intros q Hq. rewrite (Hh q Hq).
      unfold zlen in *. cbn [length]. lia.
  - destruct (IH idxs n (delete (fst p) disk) Hs Hnd Hc) as (rest & del & d' & -> & Hperm & Hh & Hd).
    { intros q Hq. destruct (proj1 (elem_of_cons _ _ _) (Hin q Hq)) as [->|]; [|done]. exfalso.
      destruct idxs as [|idx idxs]; [by apply not_elem_of_nil in Hq|].
      destruct (proj1 (elem_of_cons _ _ _) (Hin ((i, n), hx_file idx) ltac:(by left))) as [Heq|Hl].
      - apply Hn. by rewrite <- Heq.
      - rewrite Forall_forall in Hle. specialize (Hle _ Hl). apply split_paths_elem in Hq as (j & x & _ & ->).
        unfold id_le in Hle. cbn [fst snd] in *. lia. }
    exists rest, (p :: del), d'. split; [done|]. split; [|split; [done|by apply removed_delete]].
    rewrite Hperm. solve_Permutation.
Qed.

Lemma load_splits_failed l : ∀ ck disk sz,
  ∃ disk', load_splits l true ck disk sz = Some (ck, disk', sz) ∧ removed disk (fst <$> l) disk'.
Proof.
  induction l as [|p l IH]; intros ck disk sz; [exists disk; by split; [|apply removed_nil]|]. cbn [load_splits].
  destruct (IH ck (delete (fst p) disk) sz) as (d' & -> & Hd). exists d'. split; [done|]. by apply removed_delete.
Qed.

Lemma load_splits_spec idxs : ∀ n rest front bufsp ts disk sz,
  Forall (λ idx, loadHintIndex (hx_file idx) = Some (inl idx)) idxs →
  (∀ p, head rest = Some p → ∃ e, loadHintIndex (snd p) = Some (inr e)) →
  ∃ disk', load_splits (split_paths n idxs ++ rest) false (mkHintChunk i (front ++ [bufsp]) ts) disk sz
      = Some (mkHintChunk i (front ++ (file_split <$> idxs) ++ [bufsp]) ts, disk', hint_reach sz idxs)
    ∧ removed disk (fst <$> rest) disk'.
Proof.
  induction idxs as [|idx idxs IH]; intros n rest front bufsp ts disk sz Hl Hr; cbn [split_paths app load_splits].
  - destruct rest as [|p rest]; [exists disk; by split; [|apply removed_nil]|]. destruct (Hr p eq_refl) as [e He]. cbn [load_splits]. rewrite He.
    cbn [mbind option_bind].
    destruct (load_splits_failed rest (mkHintChunk i (front ++ [bufsp]) ts) (delete (fst p) disk) sz) as (d' & -> & Hd).
    exists d'. split; [done|]. by apply removed_delete.
  - apply Forall_cons in Hl as [Hx Hl]. cbn [snd]. rewrite Hx. cbn [mbind option_bind hc_splits hc_id hc_lastTS].
    rewrite last_snoc. cbn [mbind option_bind].
    assert (take (length (front ++ [bufsp]) - 1) (front ++ [bufsp]) = front) as ->.
    { rewrite length_app. cbn [length]. apply take_app_length'. lia. }
    assert ((if datasize (hx_meta idx) <? sz then sz else datasize (hx_meta idx)) = Z.max sz (datasize (hx_meta idx))) as ->
      by (destruct (Z.ltb_spec (datasize (hx_meta idx)) sz); lia).
    destruct (IH (n + 1) rest (front ++ [file_split idx]) bufsp ts disk (Z.max sz (datasize (hx_meta idx))) Hl Hr)
      as (d' & Heq & Hd). exists d'. split; [|done]. rewrite <- !app_assoc in Heq. exact Heq.
Qed.

(** The files that are kept, by number. *)
Lemma split_paths_lookup idxs (j : nat) idx n : idxs !! j = Some idx → ((i, n + Z.of_nat j), hx_file idx) ∈ split_paths n idxs.
Proof.
  revert n j. induction idxs as [|x idxs IH]; intros n [|j] Hj; try done; cbn [split_paths].
  - injection Hj as ->. rewrite Z.add_0_r. by left.
  - right. specialize (IH (n + 1) j Hj). by replace (n + Z.of_nat (S j)) with (n + 1 + Z.of_nat j) by lia.
Qed.

(** What is left of the files of the chunk. *)
Lemma kept_files d l idxs rest del d' d'' :
  (∀ p, p ∈ l ↔ fst (fst p) = i ∧ d !! fst p = Some (snd p)) → NoDup (fst <$> l) →
  l ≡ₚ split_paths 0 idxs ++ rest ++ del → removed d (fst <$> del) d' → removed d' (fst <$> rest) d'' →
  (∀ k : Z * Z, fst k ≠ i → d'' !! k = d !! k) ∧ ∀ j, d'' !! (i, j) = hx_file <$> zget idxs j.
Proof.
  intros Hin Hnd Hperm Hd1 Hd2. rewrite Hperm, fmap_app, fmap_app in Hnd.
  assert (∀ k, k ∈ fst <$> rest ∨ k ∈ fst <$> del → k ∈ fst <$> l) as Hsub.
  { intros k Hk. rewrite Hperm, !fmap_app, !elem_of_app. naive_solver. }
  split.
  - intros k Hk. assert (k ∉ fst <$> l) as Hnk.
    { intros (p & -> & [Hp _]%Hin)%list_elem_of_fmap. done. }
    rewrite Hd2, Hd1, !decide_False by naive_solver. done.
  - intros j. destruct (zget idxs j) as [idx|] eqn:Hj; cbn [fmap option_fmap option_map].
    + apply zget_Some in Hj as [Hj0 Hj]. pose proof (split_paths_lookup idxs _ idx 0 Hj) as Hp. rewrite Z.add_0_l, Z2Nat.id in Hp by done.
      assert ((i, j) ∈ fst <$> split_paths 0 idxs) as Hpk by (by apply (list_elem_of_fmap_2 fst _ ((i, j), hx_file idx))).
      apply NoDup_app in Hnd as (_ & Hdis & _). specialize (Hdis _ Hpk). rewrite elem_of_app in Hdis.
      rewrite Hd2, Hd1, !decide_False by naive_solver.
      assert (((i, j), hx_file idx) ∈ l) as Hl by (rewrite Hperm; apply elem_of_app; by left). by apply Hin in Hl as [_ Hl].
    + rewrite Hd2, Hd1. destruct (decide _) as [|Hr]; [done|]. destruct (decide _) as [|Hdl]; [done|].
      destruct (d !! (i, j)) as [f|] eqn:Hf; [|done]. exfalso.
      assert (((i, j), f) ∈ l) as Hl by (by apply Hin). rewrite Hperm, !elem_of_app in Hl. destruct Hl as [Hl|[Hl|Hl]].
      * apply split_paths_elem in Hl as (k & x & Hk & [= -> _]). rewrite Z.add_0_l in Hj. by rewrite zget_nat, Hk in Hj.
      * by apply Hr, (list_elem_of_fmap_2 fst _ ((i, j), f)).
      * by apply Hdl, (list_elem_of_fmap_2 fst _ ((i, j), f)).
Qed.

End Reload.

Lemma sorted_filter {A} (R : relation A) (P : A → Prop) `{∀ x, Decision (P x)} l :
  StronglySorted R l → StronglySorted R (filter P l).
Proof.
  induction 1 as [|x l Hs IH Hx]; [by constructor|]. rewrite filter_cons. destruct (decide (P x)); [|done].
  constructor; [done|]. rewrite Forall_forall in Hx |- *. intros y [_ Hy]%list_elem_of_filter. by apply Hx.
Qed.

(** The chunk holds the files that count and an empty buffer, its other files are
    gone, and the answer is how far they reach. *)
Lemma loadHints_spec h i idxs :
  hint_files (hm_disk h) i idxs → zget (hm_chunks h) i = Some (newHintChunk i) →
  ∃ h', loadHintsByChunk h i = Some (hint_reach 0 idxs, h') ∧ same_mgr h h' ∧ disk_frame i h h'
    ∧ hm_chunks h' = <[Z.to_nat i := mkHintChunk i ((file_split <$> idxs) ++ [newhintSplit]) 0]> (hm_chunks h)
    ∧ (∀ j, hm_disk h' !! (i, j) = hx_file <$> zget idxs j) ∧ hm_maxDumpedHintID h' = hm_maxDumpedHintID h.
Proof.
  intros [Hl Hf He] Hz. unfold loadHintsByChunk, findValidPaths.
  set (l := filter _ _).
  assert (∀ p, p ∈ l ↔ fst (fst p) = i ∧ hm_disk h !! fst p = Some (snd p)) as Hin.
  { intros [k f]. unfold l, hint_paths. rewrite list_elem_of_filter, merge_sort_Permutation, elem_of_map_to_list. done. }
  assert (NoDup (fst <$> l)) as Hnd.
  { unfold l, hint_paths. eapply sublist_NoDup; [|apply fmap_sublist, sublist_filter]. rewrite merge_sort_Permutation.
    apply NoDup_fst_map_to_list. }
  destruct (valid_paths_spec i l idxs 0 (hm_disk h)) as (rest & del & disk & -> & Hperm & Hh & Hd); [|done| | |].
  { apply sorted_filter. apply (StronglySorted_merge_sort id_le). }
  { apply Forall_forall. intros p [Hp _]%Hin. done. }
  { intros p (j & idx & Hj & ->)%split_paths_elem. apply Hin. split; [done|]. by apply Hf. }
  assert (∀ p, head rest = Some p → ∃ e, loadHintIndex (snd p) = Some (inr e)) as Hbad.
  { intros p Hp. assert (p ∈ l) as [Hc Hdk]%Hin.
    { rewrite Hperm, !elem_of_app. right. left. destruct rest; [done|]. injection Hp as ->. by left. }
    eexists. apply loadHintIndex_short, He. rewrite <- Hdk. specialize (Hh p Hp). destruct p as [[a b] f]. cbn in *. by subst. }
  destruct (split_paths i 0 idxs ++ rest) as [|p ps] eqn:Hps.
  { apply app_eq_nil in Hps as [Hsp ->]. destruct idxs; [|done].
    destruct (kept_files i (hm_disk h) l [] [] del disk disk Hin Hnd Hperm Hd (removed_nil disk)) as [H1 H2].
    exists (hm_with_disk h disk). split; [done|]. split; [done|]. split; [exact H1|]. split; [|by split].
    cbn [hm_with_disk hm_with hm_chunks fmap list_fmap app]. symmetry. apply list_insert_id. by apply zget_Some. }
  cbn [hm_with_disk hm_with hm_chunks hm_disk]. rewrite Hz. cbn [mbind option_bind].
  destruct (load_splits_spec i idxs 0 rest [] newhintSplit 0 disk 0 Hl Hbad) as (disk' & Hls & Hd').
  rewrite Hps in Hls. cbn [app] in Hls. change (newHintChunk i) with (mkHintChunk i [newhintSplit] 0). rewrite Hls.
  cbn [mbind option_bind]. rewrite (zset_lookup _ _ _ (newHintChunk i)) by done. cbn [mbind option_bind].
  destruct (kept_files i (hm_disk h) l idxs rest del disk disk' Hin Hnd Hperm Hd Hd') as [H1 H2].
  eexists. split.
  { do 2 f_equal. cbn [hc_splits]. rewrite length_app, length_fmap. cbn [length].
    destruct (Nat.ltb_spec (length idxs + 1) 2); [|done]. destruct idxs; [done|cbn [length] in *; lia]. }
  split; [done|]. split; [exact H1|]. split; [done|]. by split.
Qed.
