(* ===== verification/HintDisk.v ===== *)
(** * The hint files of a session

    What the chunks from [H0] on have on disk while items are set and splits are
    dumped: the file of every split that was dumped, which loads back, and nothing
    else; how far into the data file their hints reach; and which split the newest
    dumped one is. *)

From stdpp Require Import gmap.
From S2P Require Import Prelude Config Item Data HintFile Hint HintSpec HintMerge BucketOpenSpec HintReload.

(** A file in use loads back as it is. *)
Definition loads_back (idx : hintFileIndex) : Prop :=
  ∃ m, loadHintIndex (hx_file idx) = Some (inl (mkHintIndex (hx_index idx) (hx_file idx) m))
    ∧ datasize m = datasize (hx_meta idx).

(** How far a split and a chunk reach. *)
Definition split_reach (sp : hintSplit) : Z :=
  match sp_file sp with
  | Some idx => datasize (hx_meta idx)
  | None => match sp_buf sp with Some b => hb_maxoffset b | None => 0 end
  end.
Definition largest (l : list Z) : Z := foldr Z.max 0 l.
Definition chunk_reach (splits : list hintSplit) : Z := largest (split_reach <$> splits).

Lemma largest_nonneg l : 0 <= largest l.
Proof. induction l as [|x l IH]; unfold largest in *; cbn [foldr]; lia. Qed.
Lemma largest_app l k : largest (l ++ k) = Z.max (largest l) (largest k).
Proof.
  pose proof (largest_nonneg k). induction l as [|x l IH]; [unfold largest at 2; cbn [app foldr]; lia|].
  unfold largest in *. cbn [app foldr]. lia.
Qed.
Lemma chunk_reach_app l k : chunk_reach (l ++ k) = Z.max (chunk_reach l) (chunk_reach k).
Proof. unfold chunk_reach. by rewrite fmap_app, largest_app. Qed.
Lemma chunk_reach_cons sp l : chunk_reach (sp :: l) = Z.max (split_reach sp) (chunk_reach l).
Proof. done. Qed.
Lemma chunk_reach_one sp : chunk_reach [sp] = Z.max (split_reach sp) 0.
Proof. done. Qed.

Section Disk.
Context (Conf : HStoreConfig).

Inductive split_ok : hintSplit → Prop :=
  | ok_buf b : buf_ok Conf b → hints_fit (hb_items b) (hb_maxoffset b) → (hb_items b = [] ∧ hb_maxoffset b = 0 ∨ hb_items b ≠ [] ∧ 0 < hb_maxoffset b) →
      split_ok (mkSplit (Some b) None)
  | ok_file idx : loads_back idx → split_ok (mkSplit None (Some idx)).

Definition split_bytes (splits : list hintSplit) (j : Z) : option bytes := hx_file <$> (zget splits j ≫= sp_file).

Record chunk_disk (disk : gmap (Z * Z) bytes) (i : Z) (splits : list hintSplit) (R : Z) : Prop := {
  cd_splits : Forall split_ok splits;
  cd_files j : disk !! (i, j) = split_bytes splits j;
  cd_reach : chunk_reach splits = R
}.

Lemma new_buffer_ok : split_ok newhintSplit.
Proof. constructor; [apply NewHintBuffer_ok| |by left]. split; [by apply Forall_nil|done|cbn; width]. Qed.

Lemma new_chunk_disk disk i : (∀ j, disk !! (i, j) = None) → chunk_disk disk i (hc_splits (newHintChunk i)) 0.
Proof.
  intros Hd. split; [apply Forall_singleton, new_buffer_ok| |done]. intros j. rewrite Hd. unfold split_bytes, zget.
  destruct (Z.ltb_spec j 0); [done|]. by destruct (Z.to_nat j) as [|[]].
Qed.

Lemma hb_Dump_back b idx :
  buf_ok Conf b → hints_fit (hb_items b) (hb_maxoffset b) → hb_Dump Conf b = Some idx →
  loads_back idx ∧ datasize (hx_meta idx) = hb_maxoffset b.
Proof.
  intros Hok Hfit Hd. destruct (hb_Dump_spec Conf b Hok Hfit) as (idx' & Hd' & _ & _ & Hs & Hl).
  rewrite Hd in Hd'. injection Hd' as <-. split; [|done]. eexists. split; [exact Hl|]. by rewrite Hs.
Qed.

Lemma split_bytes_insert splits (j : nat) sp k :
  (j < length splits)%nat → split_bytes (<[j := sp]> splits) k
  = if decide (k = Z.of_nat j) then hx_file <$> sp_file sp else split_bytes splits k.
Proof.
  intros Hj. unfold split_bytes, zget. destruct (Z.ltb_spec k 0); [by rewrite decide_False by lia|].
  destruct (decide (k = Z.of_nat j)) as [->|Hne]; [by rewrite Nat2Z.id, list_lookup_insert_eq|].
  by rewrite list_lookup_insert_ne by lia.
Qed.

(** A split is dumped. *)
Lemma chunk_disk_dump disk i splits R (j : nat) sp b idx :
  chunk_disk disk i splits R → splits !! j = Some sp → sp_buf sp = Some b → hb_Dump Conf b = Some idx →
  chunk_disk (<[(i, Z.of_nat j) := hx_file idx]> disk) i (<[j := mkSplit None (Some idx)]> splits) R.
Proof.
  intros [Hok Hf Hr] Hj Hb Hd. pose proof (lookup_lt_Some _ _ _ Hj) as Hlt.
  assert (split_ok sp) as Hsp by (rewrite Forall_lookup in Hok; by eapply Hok).
  inversion Hsp as [b0 Hbo Hfit _ Heq|idx0 _ Heq]; subst sp; [|done]. injection Hb as ->.
  destruct (hb_Dump_back b idx Hbo Hfit Hd) as [Hl Hs]. split.
  - apply Forall_insert; [done|by constructor].
  - intros k. rewrite split_bytes_insert by done. destruct (decide (k = Z.of_nat j)) as [->|Hne]; [by rewrite lookup_insert_eq|].
    rewrite lookup_insert_ne; [apply Hf|]. intros [= Hk]. by apply Hne.
  - rewrite <- Hr. unfold chunk_reach. rewrite list_fmap_insert. f_equal. apply list_insert_id.
    rewrite list_lookup_fmap, Hj. cbn [fmap option_fmap option_map split_reach sp_file sp_buf]. by rewrite Hs.
Qed.

(** An empty split is added at the end. *)
Lemma chunk_disk_rotate disk i splits R :
  chunk_disk disk i splits R → chunk_disk disk i (splits ++ [newhintSplit]) R.
Proof.
  intros [Hok Hf Hr]. split.
  - apply Forall_app. split; [done|]. apply Forall_singleton. apply new_buffer_ok.
  - intros k. rewrite Hf. unfold split_bytes, zget. destruct (Z.ltb_spec k 0); [done|].
    destruct (decide (Z.to_nat k < length splits)%nat) as [Hlt|Hge]; [by rewrite lookup_app_l|].
    rewrite lookup_app_r, (lookup_ge_None_2 splits) by lia. by destruct (Z.to_nat k - length splits)%nat.
  - rewrite chunk_reach_app, Hr, chunk_reach_one. unfold split_reach. cbn. pose proof (largest_nonneg (split_reach <$> splits)).
    unfold chunk_reach in Hr. lia.
Qed.

(** ** The buffer that takes the items *)

Lemma hb_place_max h it recSize slot c ok h' :
  hb_place h it recSize slot c = (ok, h') →
  hb_maxoffset h' = Z.max (hb_maxoffset h) (if ok then u32 (Offset (Pos (hi_meta it)) + recSize) else Offset (Pos (hi_meta it))).
Proof.
  unfold hb_place. destruct slot as [idx|]; [|destruct (_ <=? _)]; intros [= <- <-]; cbn [hb_maxoffset];
    match goal with |- context [?a <? ?b] => destruct (Z.ltb_spec a b) end; cbn [SetMaxOffset hb_maxoffset]; lia.
Qed.

Lemma hb_Set_max h it recSize ok h' :
  hb_Set Conf h it recSize = Some (ok, h') →
  hb_maxoffset h' = Z.max (hb_maxoffset h) (if ok then u32 (Offset (Pos (hi_meta it)) + recSize) else Offset (Pos (hi_meta it))).
Proof.
  unfold hb_Set. set (h1 := if decide _ then _ else h). assert (hb_maxoffset h1 = hb_maxoffset h) as Hm by (unfold h1; by case_decide).
  clearbody h1. rewrite <- Hm. assert (∀ h2 slot c, hb_maxoffset h2 = hb_maxoffset h1 → Some (hb_place h2 it recSize slot c) = Some (ok, h') →
    hb_maxoffset h' = Z.max (hb_maxoffset h1) (if ok then u32 (Offset (Pos (hi_meta it)) + recSize) else Offset (Pos (hi_meta it)))) as Hpl.
  { intros h2 slot c <- Hp. apply (inj Some) in Hp. by eapply hb_place_max. }
  destruct (hb_index h1 !! _) as [idx|]; [|by apply Hpl].
  destruct (hb_items h1 !! idx) as [old|]; [|done]. cbn [mbind option_bind].
  destruct (bytes_eqb _ _); [by apply Hpl|]. destruct (hb_collisions h1 !! _); by apply Hpl.
Qed.

Lemma hb_Set_some h it recSize h' : set_result Conf h it recSize true h' → hb_items h' ≠ [].
Proof.
  intros Hr Hnil. destruct (sr_put _ _ _ _ _ _ Hr eq_refl) as [Hm _]. rewrite Hnil in Hm.
  change (hint_map []) with (∅ : gmap (Z * bytes) HintItem) in Hm. symmetry in Hm. by apply insert_non_empty in Hm.
Qed.

(** An item at the end of what the hints reach. *)
Lemma hc_setItem_disk disk i c it recSize now rot c' R :
  0 < SplitCap Conf < 4095 * 4096 → hint_ok it → chunk_disk disk i (hc_splits c) R →
  Offset (Pos (hi_meta it)) = R → 0 <= R → 0 < recSize → R + recSize < 2 ^ 32 →
  hc_setItem Conf c it recSize now = Some (rot, c') → chunk_disk disk i (hc_splits c') (R + recSize).
Proof.
  intros Hcap Hit [Hok Hf Hr] Hoff HR Hsz Hlt. unfold hc_setItem.
  destruct (last (hc_splits c)) as [sp|] eqn:Hl; [|done]. apply last_Some in Hl as [front Hs]. cbn [mbind option_bind].
  rewrite Hs in *. apply Forall_app in Hok as [Hokf [Hoks _]%Forall_cons].
  assert (take (length (front ++ [sp]) - 1) (front ++ [sp]) = front) as ->.
  { rewrite length_app. cbn [length]. apply take_app_length'. lia. }
  destruct (sp_buf sp) as [b|] eqn:Hb; [|done]. cbn [mbind option_bind].
  destruct Hoks as [b0 Hbo Hfit Hpos|idx0 _]; [|done]. injection Hb as ->. cbn [sp_file].
  assert (∀ l, (∀ k, split_bytes (front ++ [mkSplit (Some b) None]) k = split_bytes (front ++ mkSplit l None :: []) k)) as Hsame.
  { intros l k. unfold split_bytes, zget. destruct (Z.ltb_spec k 0); [done|].
    destruct (decide (Z.to_nat k < length front)%nat) as [?|Hge]; [by rewrite !lookup_app_l|].
    rewrite !lookup_app_r by lia. by destruct (Z.to_nat k - length front)%nat. }
  rewrite chunk_reach_app, chunk_reach_one in Hr. change (split_reach (mkSplit (Some b) None)) with (hb_maxoffset b) in Hr.
  destruct (hb_Set_spec Conf b it recSize Hbo) as (ok & b' & Hset & Hres). rewrite Hset. pose proof (hb_Set_max _ _ _ _ _ Hset) as Hmax.
  rewrite Hoff in Hmax. assert (u32 (R + recSize) = R + recSize) as Hu by (apply u32_small; unfold is_u32; lia).
  assert (split_ok (mkSplit (Some b') None)) as Hok'.
  { constructor; [apply Hres|by apply Hres; [|lia|]|]. right. destruct ok; [split; [by eapply hb_Set_some|lia]|].
    destruct (sr_full _ _ _ _ _ _ Hres eq_refl) as (-> & _ & Hfull). destruct Hpos as [[Hnil _]|[? ?]]; [|split; [done|lia]].
    rewrite Hnil in Hfull. change (zlen []) with 0 in Hfull. lia. }
  destruct ok.
  - intros [= <- <-]. cbn [hc_splits]. rewrite Hu in Hmax. split.
    + apply Forall_app. split; [done|]. by apply Forall_singleton.
    + intros k. by rewrite <- Hsame.
    + rewrite chunk_reach_app, chunk_reach_one. change (split_reach (mkSplit (Some b') None)) with (hb_maxoffset b'). lia.
  - destruct (hb_Set_spec Conf NewHintBuffer it recSize (NewHintBuffer_ok Conf)) as (ok2 & b2 & Hset2 & Hres2).
    rewrite Hset2. pose proof (hb_Set_max _ _ _ _ _ Hset2) as Hmax2. cbn [mbind option_bind]. intros [= <- <-]. cbn [hc_splits snd].
    assert (ok2 = true) as ->.
    { destruct ok2; [done|]. destruct (sr_full _ _ _ _ _ _ Hres2 eq_refl) as (_ & _ & Hfull). change (zlen (hb_items NewHintBuffer)) with 0 in Hfull. lia. }
    rewrite Hoff, Hu in Hmax2. change (hb_maxoffset NewHintBuffer) with 0 in Hmax2.
    assert (split_ok (mkSplit (Some b2) None)) as Hok2.
    { constructor; [apply Hres2| |right; split; [by eapply hb_Set_some|lia]]. apply Hres2; [done|lia|]. split; [by apply Forall_nil|done|cbn; width]. }
    split.
    + rewrite !Forall_app, !Forall_singleton. done.
    + intros k. rewrite Hf, (Hsame (Some b') k). unfold split_bytes, zget. destruct (Z.ltb_spec k 0); [done|].
      set (l := front ++ _). destruct (decide (Z.to_nat k < length l)%nat) as [?|Hge]; [by rewrite lookup_app_l|].
      rewrite lookup_app_r, (lookup_ge_None_2 l) by lia. by destruct (Z.to_nat k - length l)%nat.
    + rewrite !chunk_reach_app, !chunk_reach_one. change (split_reach (mkSplit (Some b') None)) with (hb_maxoffset b').
      change (split_reach (mkSplit (Some b2) None)) with (hb_maxoffset b2). lia.
Qed.

(** ** The manager *)

Definition file_of_split (splits : list hintSplit) (j : Z) : option hintFileIndex := zget splits j ≫= sp_file.

(** Chunks and splits in order. *)
Definition hid_le (a b : HintID) : Prop :=
  id_Chunk a < id_Chunk b ∨ (id_Chunk a = id_Chunk b ∧ id_Split a <= id_Split b).

Lemma isLarger_le id ck sp : isLarger id ck sp = true ↔ hid_le id (mkHintID ck sp).
Proof. unfold isLarger, hid_le. cbn [id_Chunk id_Split]. rewrite orb_true_iff, andb_true_iff. lia. Qed.

#[export] Instance hid_le_preorder : PreOrder hid_le.
Proof. split; unfold hid_le; [intros a; lia|intros a b c; lia]. Qed.

(** [reach] says how far the hints of the chunks from [H0] up to [N] reach; the
    chunks that have items are among those in [Q]. The newest dumped split is not
    older than the tree [T] and not of a chunk before one that has a file, of those
    below [M]; either none of these has a file, or it is not of a chunk beyond all
    in [Q]. *)
Record disk_inv (h : hintMgr) (T : HintID) (H0 M N : Z) (Q : Z → Prop) (reach : Z → Z) : Prop := {
  di_chunk i : H0 <= i < N →
    ∃ c, zget (hm_chunks h) i = Some c ∧ chunk_disk (hm_disk h) i (hc_splits c) (reach i);
  di_pos i : H0 <= i < N → 0 < reach i → Q i;
  di_tree : hid_le T (hm_maxDumpedHintID h);
  di_id : (H0 = 0 ∧ hm_maxDumpedHintID h = mkHintID 0 (-1)
      ∧ ∀ i c j, i < M → zget (hm_chunks h) i = Some c → file_of_split (hc_splits c) j = None)
    ∨ (H0 <= id_Chunk (hm_maxDumpedHintID h) ∧ 0 <= id_Split (hm_maxDumpedHintID h)
      ∧ ∃ j, id_Chunk (hm_maxDumpedHintID h) <= j ∧ Q j);
  di_max i c j : H0 <= i < M → zget (hm_chunks h) i = Some c → is_Some (file_of_split (hc_splits c) j) →
    i <= id_Chunk (hm_maxDumpedHintID h)
}.

Lemma zget_insert_ne {A} (l : list A) (i j : Z) x : 0 <= i → j ≠ i → zget (<[Z.to_nat i := x]> l) j = zget l j.
Proof. intros Hi Hne. unfold zget. destruct (Z.ltb_spec j 0); [done|]. by rewrite list_lookup_insert_ne by lia. Qed.

(** One chunk changed. *)
Lemma disk_inv_upd h h' T H0 M N Q reach reach' i c c' :
  disk_inv h T H0 M N Q reach → zget (hm_chunks h) i = Some c → hm_chunks h' = <[Z.to_nat i := c']> (hm_chunks h) →
  disk_frame i h h' → (∀ j, j ≠ i → reach' j = reach j) →
  (H0 <= i < N → chunk_disk (hm_disk h') i (hc_splits c') (reach' i) ∧ (0 < reach' i → Q i)) →
  (hm_maxDumpedHintID h' = hm_maxDumpedHintID h
     ∧ (∀ j, file_of_split (hc_splits c) j = None → file_of_split (hc_splits c') j = None)
   ∨ ∃ j, 0 <= j ∧ hm_maxDumpedHintID h' = setIfLarger (hm_maxDumpedHintID h) i j ∧ (H0 <= i → Q i)) →
  disk_inv h' T H0 M N Q reach'.
Proof.
  intros [Hch Hpos Ht Hdi Hmax] Hc Hchs Hfr Hreach Hnew Hid. pose proof (zget_Some_lt _ _ _ Hc) as Hi.
  assert (zget (hm_chunks h') i = Some c') as Hc' by (rewrite Hchs; by eapply zget_insert).
  assert (∀ k, k ≠ i → zget (hm_chunks h') k = zget (hm_chunks h) k) as Hoth by (intros k Hk; rewrite Hchs; apply zget_insert_ne; [lia|done]).
  split.
  - intros k Hk. destruct (decide (k = i)) as [->|Hne]; [exists c'; by split; [|apply Hnew]|].
    rewrite Hoth, Hreach by done. destruct (Hch k Hk) as (ck & Hck & [H1 H2 H3]). exists ck. split; [done|]. split; [done| |done].
    intros j. by rewrite Hfr.
  - intros k Hk. destruct (decide (k = i)) as [->|Hne]; [by apply Hnew|]. rewrite Hreach by done. by apply Hpos.
  - destruct Hid as [[-> _]|(j & _ & -> & _)]; [done|]. unfold setIfLarger. destruct (isLarger _ _ _) eqn:Hl; [|done].
    etrans; [exact Ht|]. by apply isLarger_le.
  - destruct Hid as [[-> Hback]|(j & Hj & -> & Hr)].
    + destruct Hdi as [(Hz & Hm & Hnone)|?]; [left|by right]. split; [done|]. split; [done|].
      intros k ck j HkM Hck. destruct (decide (k = i)) as [->|Hne]; [|rewrite Hoth in Hck by done; by eapply Hnone].
      rewrite Hc' in Hck. injection Hck as <-. apply Hback. by eapply Hnone.
    + right. unfold setIfLarger. destruct (isLarger _ _ _) eqn:Hl.
      * cbn [id_Chunk id_Split]. apply isLarger_le in Hl. unfold hid_le in Hl. cbn [id_Chunk id_Split] in Hl.
        assert (H0 <= i) as HH by (destruct Hdi as [(-> & _)|(? & _)]; lia). split; [done|]. split; [done|]. exists i. split; [lia|by apply Hr].
      * destruct Hdi as [(Hz & Hm & _)|?]; [|done]. exfalso. apply not_true_iff_false in Hl. apply Hl.
        apply isLarger_le. rewrite Hm. unfold hid_le. cbn. lia.
  - intros k ck' j Hk Hck Hsome. destruct Hid as [[-> Hback]|(j' & Hj & -> & Hr)].
    + destruct (decide (k = i)) as [->|Hne]; [|rewrite Hoth in Hck by done; by eapply Hmax].
      rewrite Hc' in Hck. injection Hck as <-. eapply Hmax; [done|done|]. destruct (file_of_split (hc_splits c) j) eqn:Hf; [by eexists|].
      rewrite (Hback _ Hf) in Hsome. by destruct Hsome.
    + assert (k = i ∨ k <= id_Chunk (hm_maxDumpedHintID h)) as Hki.
      { destruct (decide (k = i)) as [->|Hne]; [by left|right]. rewrite Hoth in Hck by done. by eapply Hmax. }
      unfold setIfLarger, isLarger. destruct (_ || _) eqn:Hl; cbn [id_Chunk]; lia.
Qed.

Lemma zset_Some {A} (l l' : list A) i x : zset l i x = Some l' → 0 <= i < zlen l ∧ l' = <[Z.to_nat i := x]> l.
Proof. unfold zset. destruct (Z.leb_spec 0 i), (Z.ltb_spec i (zlen l)); cbn; intros [= <-]; by split. Qed.

Lemma file_of_split_insert splits (j : nat) sp k :
  (j < length splits)%nat → file_of_split (<[j := sp]> splits) k
  = if decide (k = Z.of_nat j) then sp_file sp else file_of_split splits k.
Proof.
  intros Hj. unfold file_of_split, zget. destruct (Z.ltb_spec k 0); [by rewrite decide_False by lia|].
  destruct (decide (k = Z.of_nat j)) as [->|Hne]; [by rewrite Nat2Z.id, list_lookup_insert_eq|].
  by rewrite list_lookup_insert_ne by lia.
Qed.
Lemma file_of_split_snoc splits sp k :
  sp_file sp = None → file_of_split (splits ++ [sp]) k = file_of_split splits k.
Proof.
  intros Hn. unfold file_of_split, zget. destruct (Z.ltb_spec k 0); [done|].
  destruct (decide (Z.to_nat k < length splits)%nat) as [Hlt|Hge]; [by rewrite lookup_app_l|].
  rewrite lookup_app_r, (lookup_ge_None_2 splits) by lia. by destruct (Z.to_nat k - length splits)%nat as [|[]].
Qed.

Lemma zget_app_l {A} (l k : list A) j x : zget l j = Some x → zget (l ++ k) j = Some x.
Proof. intros [Hj Hx]%zget_Some. apply zget_Some. split; [done|]. by apply lookup_app_l_Some. Qed.

Lemma hm_dump_inv h T H0 M N Q reach i j h' c sp :
  disk_inv h T H0 M N Q reach → i < N → zget (hm_chunks h) i = Some c → zget (hc_splits c) j = Some sp →
  needDump sp = Some true → hm_dump Conf h i j = Some h' → disk_inv h' T H0 M N Q reach.
Proof.
  intros Hd Himax Hc Hsp Hnd Hdump. pose proof (hm_dump_disk Conf h i j h' Hdump) as Hfr. unfold hm_dump in Hdump.
  rewrite Hc in Hdump. cbn [mbind option_bind] in Hdump. rewrite Hsp in Hdump. cbn [mbind option_bind] in Hdump.
  destruct (sp_buf sp) as [b|] eqn:Hb; [|done]. cbn [mbind option_bind] in Hdump.
  destruct (hb_Dump Conf b) as [idx|] eqn:Hidx; [|done]. cbn [mbind option_bind] in Hdump.
  destruct (zset (hc_splits c) j _) as [splits|] eqn:Hs; [|done]. cbn [mbind option_bind] in Hdump.
  destruct (zset (hm_chunks h) i _) as [chunks|] eqn:Hcs; [|done]. cbn [mbind option_bind] in Hdump. injection Hdump as <-.
  apply zset_Some in Hs as [Hj ->], Hcs as [Hi ->]. apply zget_Some in Hsp as [_ Hsp].
  assert (Z.to_nat j < length (hc_splits c))%nat as Hlt by (unfold zlen in Hj; lia).
  assert (H0 <= i → chunk_disk (hm_disk h) i (hc_splits c) (reach i)) as Hcd0.
  { intros Hr. destruct (di_chunk _ _ _ _ _ _ _ Hd i ltac:(lia)) as (c0 & Hc0 & Hcd). rewrite Hc in Hc0. by injection Hc0 as <-. }
  assert (H0 <= i → 0 < reach i) as Hri.
  { intros Hr. destruct (Hcd0 Hr) as [Hok _ <-]. rewrite Forall_lookup in Hok.
    pose proof (Hok _ _ Hsp) as Hspk. destruct Hspk as [b0 _ _ Hpos|]; [|done]. injection Hb as ->. cbn in Hnd.
    rewrite <- (take_drop_middle _ _ _ Hsp), chunk_reach_app. change (?x :: ?l) with ([x] ++ l). rewrite chunk_reach_app, chunk_reach_one.
    cbn [split_reach sp_file sp_buf]. destruct Hpos as [[Hnil _]|[_ ?]]; [by rewrite Hnil in Hnd|lia]. }
  eapply (disk_inv_upd h _ T H0 M N Q reach reach i c); [done|done|done|exact Hfr|done|..]; cbn [hm_with hm_disk hm_maxDumpedHintID hc_splits].
  - intros Hr. split; [|by apply (di_pos _ _ _ _ _ _ _ Hd)].
    replace (i, j) with (i, Z.of_nat (Z.to_nat j)) by (f_equal; lia).
    eapply chunk_disk_dump; [by apply Hcd0; lia|done..].
  - right. exists j. split; [lia|]. split; [done|]. intros Hr. apply (di_pos _ _ _ _ _ _ _ Hd); [lia|by apply Hri].
Qed.

Lemma dump_old_inv n : ∀ h T H0 M N Q reach i j h',
  disk_inv h T H0 M N Q reach → i < N → dump_old Conf h i j n = Some h' → disk_inv h' T H0 M N Q reach.
Proof.
  induction n as [|n IH]; intros h T H0 M N Q reach i j h' Hd Himax Hdump; [by injection Hdump as <-|]. cbn [dump_old] in Hdump.
  destruct (zget (hm_chunks h) i) as [ck|] eqn:Hck; [|done]. cbn [mbind option_bind] in Hdump.
  destruct (zget (hc_splits ck) j) as [sp|] eqn:Hsp; [|done]. cbn [mbind option_bind] in Hdump.
  destruct (needDump sp) as [[]|] eqn:Hnd; [| |done]; cbn [mbind option_bind] in Hdump; [|by eapply IH].
  destruct (hm_dump _ _ _ _) as [h1|] eqn:H1; [|done]. cbn [mbind option_bind] in Hdump.
  eapply IH; [|done|exact Hdump]. by eapply hm_dump_inv.
Qed.

Lemma trydump_inv h T H0 M N Q reach i dumplast now s h' :
  disk_inv h T H0 M N Q reach → i < N → trydump Conf h i dumplast now = Some (s, h') → disk_inv h' T H0 M N Q reach.
Proof.
  unfold trydump. intros Hd Himax Hdump. destruct (zget (hm_chunks h) i) as [ck|]; [|done]. cbn [mbind option_bind] in Hdump.
  destruct (dump_old _ _ _ _ _) as [h1|] eqn:Hold; [|done]. cbn [mbind option_bind] in Hdump. eapply dump_old_inv in Hold; [|done|done].
  destruct (zget (hm_chunks h1) i) as [ck1|] eqn:Hck; [|done]. cbn [mbind option_bind] in Hdump.
  repeat (case_match; simplify_eq; try done). destruct (zget (hc_splits ck1) _) as [sp|] eqn:Hsp; [|done]. cbn [mbind option_bind] in Hdump.
  destruct (needDump sp) as [[]|] eqn:Hnd; cbn [mbind option_bind] in Hdump; simplify_eq; [|done].
  destruct (zset (hm_chunks h1) i _) as [cs|] eqn:Hcs; [|done]. cbn [mbind option_bind] in Hdump. apply zset_Some in Hcs as [_ ->].
  destruct (hm_dump _ _ _ _) as [h2|] eqn:Hnew; [|done]. cbn [mbind option_bind] in Hdump. simplify_eq.
  eapply hm_dump_inv; [..|exact Hnew];
    [|done|cbn [hm_with_chunks hm_with hm_chunks]; by eapply zget_insert|cbn [hc_splits rotate]; by apply zget_app_l|done].
  eapply (disk_inv_upd h1 _ T H0 M N Q reach reach i ck1); [done|done|done|done|done|..]; cbn [hm_with_chunks hm_with hm_disk hc_splits rotate hm_maxDumpedHintID].
  - intros Hr. split; [|by apply (di_pos _ _ _ _ _ _ _ Hold)]. destruct (di_chunk _ _ _ _ _ _ _ Hold i Hr) as (c0 & Hc0 & Hcd). rewrite Hck in Hc0. injection Hc0 as <-. by apply chunk_disk_rotate.
  - left. split; [done|]. intros j. by rewrite file_of_split_snoc.
Qed.

Lemma hc_setItem_files c it recSize now rot c' j :
  hc_setItem Conf c it recSize now = Some (rot, c') → file_of_split (hc_splits c') j = file_of_split (hc_splits c) j.
Proof.
  unfold hc_setItem. destruct (last (hc_splits c)) as [sp|] eqn:Hl; [|done]. apply last_Some in Hl as [front Hs]. cbn [mbind option_bind].
  destruct (sp_buf sp) as [b|]; [|done]. cbn [mbind option_bind]. destruct (hb_Set _ _ _ _) as [[ok b']|]; [|done].
  rewrite Hs. assert (take (length (front ++ [sp]) - 1) (front ++ [sp]) = front) as ->.
  { rewrite length_app. cbn [length]. apply take_app_length'. lia. }
  assert (file_of_split (front ++ [mkSplit (Some b') (sp_file sp)]) j = file_of_split (front ++ [sp]) j) as Hj.
  { unfold file_of_split, zget. destruct (Z.ltb_spec j 0); [done|].
    destruct (decide (Z.to_nat j < length front)%nat) as [?|Hge]; [by rewrite !lookup_app_l|].
    rewrite !lookup_app_r by lia. by destruct (Z.to_nat j - length front)%nat as [|[]]. }
  destruct ok; [intros [= <- <-]; exact Hj|]. destruct (hb_Set _ _ _ _) as [res|]; [|done]. cbn [mbind option_bind].
  intros [= <- <-]. cbn [hc_splits]. by rewrite file_of_split_snoc.
Qed.

Definition reach_upd (reach : Z → Z) (i R : Z) : Z → Z := λ j, if decide (j = i) then R else reach j.

(** An item at the end of what the hints of its chunk reach. *)
Lemma hm_setItem_inv h T H0 M N Q reach it i recSize now rot h' :
  0 < SplitCap Conf < 4095 * 4096 → hint_ok it → disk_inv h T H0 M N Q reach → i < N →
  Offset (Pos (hi_meta it)) = reach i → 0 <= reach i → 0 < recSize → reach i + recSize < 2 ^ 32 → Q i →
  hm_setItem Conf h it i recSize now = Some (rot, h') → disk_inv h' T H0 M N Q (reach_upd reach i (reach i + recSize)).
Proof.
  intros Hcap Hit Hd Himax Hoff HR Hsz Hlt HQ. unfold hm_setItem. intros Hset.
  destruct (zget (hm_chunks h) i) as [c|] eqn:Hc; [|done]. cbn [mbind option_bind] in Hset.
  destruct (hc_setItem _ _ _ _ _) as [[rt c']|] eqn:Hci; [|done].
  destruct (zset _ _ _) as [cs|] eqn:Hcs; [|done]. cbn [mbind option_bind] in Hset. apply zset_Some in Hcs as [_ ->].
  set (h1 := hm_with_chunks h _) in Hset. set (reach' := reach_upd reach i (reach i + recSize)).
  assert (disk_inv h1 T H0 M N Q reach') as Hd1.
  { eapply (disk_inv_upd h h1 T H0 M N Q reach reach' i c); [done|done|done|done|..]; cbn [h1 hm_with_chunks hm_with hm_disk hm_maxDumpedHintID].
    - intros j Hj. unfold reach', reach_upd. by rewrite decide_False.
    - intros Hr. split; [|done]. destruct (di_chunk _ _ _ _ _ _ _ Hd i Hr) as (c0 & Hc0 & Hcd). rewrite Hc in Hc0. injection Hc0 as <-.
      unfold reach', reach_upd. rewrite decide_True by done. by eapply hc_setItem_disk.
    - left. split; [done|]. intros j. by rewrite (hc_setItem_files _ _ _ _ _ _ j Hci). }
  assert (∀ h2, (if rt && negb (hm_mergeChan h1 && (hm_maxChunkID h1 <=? i))
      then res ← trydump Conf h1 i false now; Some res.2 else Some h1) = Some h2 → disk_inv h2 T H0 M N Q reach') as Hmid.
  { intros h2. destruct (rt && _); [|by intros [= <-]]. destruct (trydump _ _ _ _ _) as [[s h3]|] eqn:H3; [|done].
    intros [= <-]. by eapply trydump_inv. }
  destruct (if rt && _ then _ else _) as [h2|] eqn:H2; [|done]. cbn [mbind option_bind] in Hset. simplify_eq.
  specialize (Hmid h2 eq_refl). destruct (_ <? _); [|done]. by destruct Hmid.
Qed.

Lemma disk_inv_from h T H0 M N Q reach reach' :
  (∀ i, H0 <= i → reach i = reach' i) → disk_inv h T H0 M N Q reach → disk_inv h T H0 M N Q reach'.
Proof. intros He [H1 H2 H3 H4 H5]. split; try done; intros i Hi; rewrite <- He by lia; [by apply H1|by apply H2]. Qed.

Lemma disk_inv_ext h T H0 M N Q reach reach' :
  (∀ i, reach i = reach' i) → disk_inv h T H0 M N Q reach → disk_inv h T H0 M N Q reach'.
Proof. intros He. apply disk_inv_from. by intros i _. Qed.

Lemma disk_inv_weaken h T H0 M N (Q Q' : Z → Prop) reach :
  (∀ i, Q i → Q' i) → disk_inv h T H0 M N Q reach → disk_inv h T H0 M N Q' reach.
Proof.
  intros HQ [H1 H2 H3 H4 H5]. split; [done|by intros i Hi Hr; apply HQ, H2|done| |done].
  destruct H4 as [?|(? & ? & j & ? & ?)]; [by left|right]. split; [done|]. split; [done|]. exists j. by auto.
Qed.

(** The files of the next chunk were loaded, or it has none. *)
Lemma disk_inv_load h h' T H0 M N Q reach c R :
  disk_inv h T H0 M N Q reach → M <= N → (∀ j, j ≠ N → zget (hm_chunks h') j = zget (hm_chunks h) j) → disk_frame N h h' →
  hm_maxDumpedHintID h' = hm_maxDumpedHintID h → zget (hm_chunks h') N = Some c → chunk_disk (hm_disk h') N (hc_splits c) R →
  (0 < R → Q N) → disk_inv h' T H0 M (N + 1) Q (reach_upd reach N R).
Proof.
  intros [H1 H2 H3 H4 H5] HM Hch Hfr Hid Hc Hcd HQ. unfold reach_upd. split.
  - intros i Hi. destruct (decide (i = N)) as [->|Hne]; [by exists c|]. rewrite Hch by done.
    destruct (H1 i ltac:(lia)) as (ck & Hck & [C1 C2 C3]). exists ck. split; [done|]. split; [done| |done]. intros j. by rewrite Hfr.
  - intros i Hi. destruct (decide (i = N)) as [->|Hne]; [done|]. apply H2. lia.
  - by rewrite Hid.
  - rewrite Hid. destruct H4 as [(? & ? & Hn)|?]; [left|by right]. split; [done|]. split; [done|].
    intros i ck j Hi. rewrite Hch by lia. by apply Hn.
  - intros i ck j Hi. rewrite Hid, Hch by lia. by apply H5.
Qed.

(** The newest split was set, to one of the last chunk or because there are none. *)
Lemma disk_inv_pass h h' T H0 N Q reach :
  disk_inv h T H0 (N - 1) N Q reach → H0 < N → hm_chunks h' = hm_chunks h → hm_disk h' = hm_disk h →
  (hm_maxDumpedHintID h' = hm_maxDumpedHintID h
     ∧ (H0 = 0 → hm_maxDumpedHintID h = mkHintID 0 (-1) →
        ∀ c j, zget (hm_chunks h) (N - 1) = Some c → file_of_split (hc_splits c) j = None)
     ∧ (∀ c j, zget (hm_chunks h) (N - 1) = Some c → is_Some (file_of_split (hc_splits c) j) → N - 1 <= id_Chunk (hm_maxDumpedHintID h))
   ∨ ∃ j, 0 <= j ∧ hm_maxDumpedHintID h' = mkHintID (N - 1) j ∧ hid_le T (mkHintID (N - 1) j) ∧ 0 < reach (N - 1)) →
  disk_inv h' T H0 N N Q reach.
Proof.
  intros [H1 H2 H3 H4 H5] HN Hch Hdk Hid. split.
  - intros i Hi. by rewrite Hch, Hdk; apply H1.
  - done.
  - by destruct Hid as [[-> _]|(j & _ & -> & Hle & _)].
  - destruct Hid as [(Heq & Hnone & _)|(j & Hj & -> & Hle & Hr)].
    + rewrite Heq, Hch. destruct H4 as [(Hz & Hm & Hn)|?]; [left|by right]. split; [done|]. split; [done|].
      intros i c j Hi Hc. destruct (decide (i = N - 1)) as [->|]; [by apply Hnone|]. eapply Hn; [|done]. lia.
    + right. cbn [id_Chunk id_Split]. split; [lia|]. split; [done|]. exists (N - 1). split; [lia|]. apply H2; [lia|done].
  - intros i c j Hi Hc Hf. rewrite Hch in Hc. destruct Hid as [(-> & _ & Hmx)|(k & _ & -> & _)]; [|cbn [id_Chunk]; lia].
    destruct (decide (i = N - 1)) as [->|Hne]; [by eapply Hmx|]. eapply H5; [|done..]. lia.
Qed.

Lemma hint_reach_max idxs : ∀ sz, 0 <= sz → hint_reach sz idxs = Z.max sz (chunk_reach (file_split <$> idxs)).
Proof.
  induction idxs as [|x l IH]; intros sz Hsz; [unfold hint_reach, chunk_reach; cbn; lia|].
  unfold hint_reach in *. cbn [foldl]. rewrite IH by lia. cbn [fmap list_fmap]. change (file_split x :: ?l) with ([file_split x] ++ l).
  rewrite chunk_reach_app, chunk_reach_one. change (split_reach (file_split x)) with (datasize (hx_meta x)).
  pose proof (largest_nonneg (split_reach <$> (file_split <$> l))). unfold chunk_reach in *. lia.
Qed.

(** A chunk as it is loaded. *)
Lemma loaded_chunk_disk disk i idxs :
  Forall (λ idx, loadHintIndex (hx_file idx) = Some (inl idx)) idxs → (∀ j, disk !! (i, j) = hx_file <$> zget idxs j) →
  chunk_disk disk i ((file_split <$> idxs) ++ [newhintSplit]) (hint_reach 0 idxs).
Proof.
  intros Hl Hd. split.
  - apply Forall_app. split; [|apply Forall_singleton, new_buffer_ok]. apply Forall_fmap. eapply Forall_impl; [exact Hl|].
    intros idx Hx. cbn. constructor. exists (hx_meta idx). split; [by destruct idx|done].
  - intros j. rewrite Hd. unfold split_bytes, zget. destruct (Z.ltb_spec j 0); [done|].
    destruct (decide (Z.to_nat j < length idxs)%nat) as [Hlt|Hge].
    + rewrite lookup_app_l by (by rewrite length_fmap). rewrite list_lookup_fmap.
      destruct (idxs !! Z.to_nat j); done.
    + rewrite lookup_app_r, length_fmap, (lookup_ge_None_2 idxs) by (rewrite ?length_fmap; lia).
      by destruct (Z.to_nat j - length idxs)%nat as [|[]].
  - rewrite chunk_reach_app, chunk_reach_one. change (split_reach newhintSplit) with 0.
    rewrite hint_reach_max by done. lia.
Qed.

End Disk.
