(* ===== verification/BucketRecover.v ===== *)
(** * What opening a directory recovers

    Opening starts from the tree that was dumped, if there is one that serves. The
    hint files of every chunk from there on are loaded, the records they do not
    reach are scanned and their hints dumped, and the items of all files are put
    into the tree. The bucket then represents the map that replaying the log
    gives: the last record of a key counts, and a record that deletes leaves
    nothing. *)

From stdpp Require Import gmap sorting.
From S2P Require Import Prelude Hashing Strconv Config Cmem Key Item Fixtures Leaf HTree HTreeSpec HTreeMerkle.
From S2P Require Import HTreeProps HTreeDisk DataFile Data DataSpec DataLog HintFile Hint HintSpec HintProps HintMerge.
From S2P Require Import Bucket BucketSpec BucketOpen BucketOpenSpec HintReload HintDisk.

(** ** Replaying a log *)

(** The record of a key that counts: the last one. *)
Definition replay_rec (A : gmap bytes (Record_ * Z)) (rec : Record_) : gmap bytes (Record_ * Z) :=
  if 0 <? rec_ver rec then <[r_Key rec := (rec, Getvhash (p_Body (r_Payload rec)))]> A else delete (r_Key rec) A.
Definition replay (recs : list Record_) : gmap bytes (Record_ * Z) := foldl replay_rec ∅ recs.
(** What of the contents is not deleted. *)
Definition live (A : gmap bytes (Record_ * Z)) : gmap bytes (Record_ * Z) := filter (λ kx, 0 < rec_ver kx.2.1) A.

Lemma live_lookup A key : live A !! key = match A !! key with Some x => if 0 <? rec_ver x.1 then Some x else None | None => None end.
Proof.
  unfold live. rewrite map_lookup_filter. destruct (A !! key) as [x|]; [|done]. cbn [mbind option_bind].
  destruct (Z.ltb_spec 0 (rec_ver x.1)); case_guard; cbn in *; (done || lia).
Qed.

Lemma live_id A : (∀ key x, A !! key = Some x → 0 < rec_ver x.1) → live A = A.
Proof.
  intros HA. apply map_eq. intros key. rewrite live_lookup. destruct (A !! key) as [x|] eqn:Hx; [|done].
  by rewrite (proj2 (Z.ltb_lt _ _) (HA _ _ Hx)).
Qed.

Lemma replay_positive recs : ∀ key x, replay recs !! key = Some x → 0 < rec_ver x.1.
Proof.
  unfold replay. assert (∀ key x, (∅ : gmap bytes (Record_ * Z)) !! key = Some x → 0 < rec_ver x.1) as H0 by done.
  revert H0. generalize (∅ : gmap bytes (Record_ * Z)). induction recs as [|rec recs IH]; intros A HA; [done|]. cbn [foldl]. apply IH.
  intros key x. unfold replay_rec. destruct (Z.ltb_spec 0 (rec_ver rec)).
  - intros [[_ <-]|[_ Hx]]%lookup_insert_Some; [done|by eapply HA].
  - intros [_ Hx]%lookup_delete_Some. by eapply HA.
Qed.

(** What a lookup answers for a key that is stored as [x]: its record, and nothing
    but a deletion when there is none. *)
Definition answer (x : option (Record_ * Z)) (key : bytes) (p : option Payload) : Prop :=
  match x with
  | Some (rec, _) => ∃ q, p = Some q ∧ same_record rec (mkRecord key q)
  | None => ∀ q, p = Some q → Ver (p_meta q) <= 0
  end.

Lemma answer_live A key p :
  match A !! key with Some (rec, _) => ∃ q, p = Some q ∧ same_record rec (mkRecord key q) | None => p = None end →
  answer (live A !! key) key p.
Proof.
  rewrite live_lookup. destruct (A !! key) as [[rec vh]|]; [|by intros -> q]. intros (q & -> & Hs). cbn [fst].
  destruct (Z.ltb_spec 0 (rec_ver rec)) as [|Hv]; [by exists q|]. intros q' [= <-]. destruct Hs as (_ & _ & _ & _ & Hver).
  cbn [r_Payload] in Hver. unfold rec_ver in Hv. lia.
Qed.

(** The items of every split of every chunk. *)
Abbreviation layers := (list (list (list HintItem))).

Section Recover.
Context (Conf : HStoreConfig) (mc : MCConfig) (E : Ext) (K : bytes → Prop).
Context (He : env_ok Conf mc E K).
Notation hash_of := (getKeyHash E).

(** The hint item of a record at an offset. *)
Definition log_item (off : Z) (rec : Record_) : HintItem :=
  newHintItem (hash_of (r_Key rec)) (rec_ver rec) (Getvhash (p_Body (r_Payload rec))) (mkPos 0 off) (r_Key rec).

Lemma item_of_record_spec rec0 rec off r :
  append_ok Conf mc rec0 → packed E rec0 rec →
  ∃ r', item_of_record mc E (stream_form rec) off r = (log_item off rec0, r').
Proof.
  intros Ha (Hk & Hts & Hv & Hc). pose proof (ao_ok _ _ _ Ha) as Hok.
  unfold item_of_record, log_item, stream_form, Decompress, rec_ver. cbn [r_Payload r_Key p_meta p_arr Flag].
  rewrite Hk, <- Hv. destruct Hc as [[Hb Hf]|(Hne & Hb & Hf)]; rewrite Hf.
  - rewrite (ao_plain _ _ _ Ha). cbn [Z.eqb p_meta p_arr p_Body Body Ver]. eexists. rewrite <- Hb. done.
  - destruct (flag_add_compress _ (ro_flag _ _ Hok) (ao_plain _ _ _ Ha)) as (_ & Hset & _).
    apply Z.eqb_neq in Hset. rewrite Hset. unfold p_Body at 1. cbn [p_arr Body]. rewrite Hb.
    destruct (CDecompressSafe_compress mc E (p_Body (r_Payload rec0)) r) as (arr & r1 & -> & Harr);
      [apply He|apply (ao_input Conf mc rec0); [done|done|apply (ro_body _ _ Hok)|lia]|apply (eo_mem _ _ _ _ He), zlen_nonneg|].
    cbn [p_meta p_arr set_flag Ver]. eexists. unfold p_Body at 1. cbn [p_arr]. by rewrite Harr.
Qed.

(** ** The items of a bucket *)

Context (t0 : HTree).

(** An item as the log gives it: its key is in use and belongs to the bucket. *)
Record log_hint (it : HintItem) : Prop := {
  lh_ok : hint_ok it;
  lh_key : K (hi_Key it);
  lh_hash : Keyhash (hi_meta it) = hash_of (hi_Key it);
  lh_bkt : in_bucket t0 (hash_of (hi_Key it));
  lh_off : Offset (Pos (hi_meta it)) mod 256 = 0
}.

Notation log_pair := (log_pair Conf mc E K t0).

Lemma log_pair_ok rec0 rec : log_pair rec0 rec → rec_ok mc rec.
Proof. intros [Ha Hp _ _]. by apply (stored_ok Conf mc E rec0 rec (eo_qlz _ _ _ _ He) Ha Hp). Qed.

Lemma log_item_hint rec0 rec off :
  log_pair rec0 rec → is_u32 off → off mod 256 = 0 → log_hint (log_item off rec0).
Proof.
  intros [Ha Hp Hk [Hu Hb]] Hoff Hal. pose proof (ao_ok _ _ _ Ha) as Hok.
  assert (zlen (r_Key rec0) < 256) as Hkl.
  { pose proof (ro_ksz _ _ Hok) as Hs. unfold IsValidKeySize in Hs. pose proof (eo_klen _ _ _ _ He). lia. }
  split; try done. split; try done; cbn; [apply (ro_ver _ _ Hok)|apply Getvhash_range].
Qed.

(** The items of records placed from an offset on. *)
Fixpoint log_items (off : Z) (recs0 recs : list Record_) : list HintItem :=
  match recs0, recs with
  | rec0 :: recs0, rec :: recs => log_item off rec0 :: log_items (off + rec_Size rec) recs0 recs
  | _, _ => []
  end.
Definition put_items (m : gmap (Z * bytes) HintItem) (its : list HintItem) : gmap (Z * bytes) HintItem :=
  foldl (λ m it, <[hint_key it := it]> m) m its.

(** What an item leaves in the tree. *)
Definition tree_entry (chunkID : Z) (it : HintItem) : option HTreeItem :=
  let m := hi_meta it in
  if 0 <? it_Ver m then Some (mkHTreeItem 0 (mkPos chunkID (Offset (Pos m))) (it_Ver m) (Vhash m)) else None.

(** Items that leave the same in the tree: the hash of a deletion, which the code
    takes from the request or from the record, does not matter. *)
Definition same_entries (h h' : gmap (Z * bytes) HintItem) : Prop :=
  ∀ chunkID k, tree_entry chunkID <$> h !! k = tree_entry chunkID <$> h' !! k.

#[local] Instance same_entries_equiv : Equivalence same_entries.
Proof. split; [by intros h c k|by intros h h' H c k|by intros h1 h2 h3 H1 H2 c k; rewrite H1, H2]. Qed.

#[local] Instance put_items_same : Proper (same_entries ==> (=) ==> same_entries) put_items.
Proof.
  intros h h' Hh its ? <-. revert h h' Hh. unfold put_items. induction its as [|it its IH]; intros h h' Hh; [done|].
  cbn [foldl]. apply IH. intros c k. destruct (decide (hint_key it = k)) as [<-|Hne]; [by rewrite !lookup_insert_eq|].
  by rewrite !lookup_insert_ne.
Qed.

(** ** Building the hints of a chunk *)

(** A manager while the hints of one chunk are built. *)
Definition building (h : hintMgr) (G : layers) (chunkID : Z) (gs : list (list HintItem)) : Prop :=
  ∃ a c, mgr_rep Conf h G a ∧ zget (hm_chunks h) chunkID = Some c ∧ G !! Z.to_nat chunkID = Some gs
    ∧ tidy c gs ∧ Forall (Forall log_hint) gs ∧ all_known E K G.

Lemma known_chunk G i gs : all_known E K G → Forall (Forall log_hint) gs → all_known E K (<[i := gs]> G).
Proof.
  intros Hk Hgs. apply Forall_insert; [done|]. eapply Forall_impl; [exact Hgs|]. intros its Hits.
  eapply Forall_impl; [exact Hits|]. intros it [_ H1 H2 _ _]. by split.
Qed.

(** Everything but the hints of one chunk stays. *)
Record chunk_frame (chunkID : Z) (x y : hintMgr * layers) : Prop := {
  cf_disk : disk_frame chunkID x.1 y.1;
  cf_chunks j : j ≠ chunkID → zget (hm_chunks y.1) j = zget (hm_chunks x.1) j;
  cf_layers j : j ≠ Z.to_nat chunkID → y.2 !! j = x.2 !! j;
  cf_coll : hm_collisions y.1 = hm_collisions x.1;
  cf_max : hm_maxChunkID x.1 <= hm_maxChunkID y.1
}.

#[local] Instance chunk_frame_preorder chunkID : PreOrder (chunk_frame chunkID).
Proof.
  split; [by split|]. intros a b c [H1 H2 H3 H4 H5] [H6 H7 H8 H9 H10]. split; [by etrans| | |congruence|lia].
  - intros j Hj. by rewrite H7, H2.
  - intros j Hj. by rewrite H8, H3.
Qed.

Lemma frame_insert chunkID h h' G gs' c' :
  0 <= chunkID → disk_frame chunkID h h' → hm_chunks h' = <[Z.to_nat chunkID := c']> (hm_chunks h) →
  hm_collisions h' = hm_collisions h → hm_maxChunkID h <= hm_maxChunkID h' →
  chunk_frame chunkID (h, G) (h', <[Z.to_nat chunkID := gs']> G).
Proof.
  intros H0 Hd Hc Hcl Hm. split; cbn [fst snd]; [done| | |done|done].
  - intros j Hj. unfold zget. destruct (Z.ltb_spec j 0); [done|]. rewrite Hc. apply list_lookup_insert_ne. lia.
  - intros j Hj. by apply list_lookup_insert_ne.
Qed.

Lemma building_set h G chunkID gs it recSize now :
  building h G chunkID gs → 0 <= chunkID < MAX_NUM_CHUNK → log_hint it → now ≠ 0 →
  ∃ rot h' G' gs', hm_setItem Conf h it chunkID recSize now = Some (rot, h') ∧ building h' G' chunkID gs'
    ∧ chunk_map gs' = <[hint_key it := it]> (chunk_map gs) ∧ chunk_frame chunkID (h, G) (h', G') ∧ grown gs gs'
    ∧ chunkID <= hm_maxChunkID h'.
Proof.
  intros (a & c & Hrep & Hc & Hg & Ht & Hall & Hkn) Hid Hit Hnow.
  destruct (hm_setItem_spec Conf h G a it chunkID recSize now c gs) as (rot & h' & c' & gs' & Hset & Hrep' & Hch & Hcl & Ht' & HP & Hgr);
    [apply He|done|apply Hit|done|done|done|].
  exists rot, h', (<[Z.to_nat chunkID := gs']> G), gs'. split; [done|]. pose proof (lookup_lt_Some _ _ _ Hg) as Hlt.
  pose proof (mr_max _ _ _ _ Hrep) as Hm0. pose proof (mr_max _ _ _ _ Hrep') as Hm1. cbn [abs_hint snd] in Hm1.
  split; [|split; [|split; [|split; [done|lia]]]].
  - exists (abs_hint a (HSetItem it chunkID recSize now)), c'. split; [done|].
    split; [rewrite Hch; by eapply zget_insert|]. split; [by apply list_lookup_insert_eq|]. split; [by apply Ht'|].
    assert (Forall (Forall log_hint) gs') as Hall' by (by apply HP). split; [done|]. by apply known_chunk.
  - pose proof (mr_map _ _ _ _ Hrep' (Z.to_nat chunkID) gs') as Hm. rewrite list_lookup_insert_eq in Hm by done.
    rewrite <- Hm by done. cbn [abs_hint fst]. rewrite Z2Nat.id, lookup_insert_eq by lia. cbn [from_option id].
    pose proof (mr_map _ _ _ _ Hrep _ _ Hg) as Hm2. rewrite Z2Nat.id in Hm2 by lia. by rewrite Hm2.
  - eapply frame_insert; [lia|by eapply hm_setItem_disk|done|done|lia].
Qed.

(** How far the hints of a chunk reach while its records are scanned. *)
Lemma reach_upd_twice reach i x y j : reach_upd (reach_upd reach i x) i y j = reach_upd reach i y j.
Proof. unfold reach_upd. by destruct (decide _). Qed.
Lemma reach_upd_same reach i j : reach_upd reach i (reach i) j = reach j.
Proof. unfold reach_upd. by destruct (decide _) as [->|]. Qed.
Lemma reach_upd_eq reach i x : reach_upd reach i x i = x.
Proof. unfold reach_upd. by rewrite decide_True. Qed.

Section Build.
Context (T : HintID) (H0 M N : Z) (Q : Z → Prop).
Notation disk_inv h := (disk_inv Conf h T H0 M N Q).

Lemma build_loop_spec recs0 recs : Forall2 log_pair recs0 recs → ∀ fuel pre h G gs chunkID now r reach,
  zlen (pre ++ file_of recs) < 2 ^ 32 → zlen pre mod 256 = 0 → (length recs < fuel)%nat →
  building h G chunkID gs → 0 <= chunkID < MAX_NUM_CHUNK → now ≠ 0 →
  disk_inv h reach → chunkID < N → Q chunkID → reach chunkID = zlen pre →
  ∃ h' G' gs' r', build_loop Conf mc E fuel h chunkID (mkReader (pre ++ file_of recs) (length pre) (zlen pre)) now r
      = Some (h', None, r')
    ∧ building h' G' chunkID gs' ∧ chunk_map gs' = put_items (chunk_map gs) (log_items (zlen pre) recs0 recs)
    ∧ chunk_frame chunkID (h, G) (h', G') ∧ match recs with [] => gs' = gs | _ => grown gs gs' end
    ∧ disk_inv h' (reach_upd reach chunkID (zlen pre + sizes recs)).
Proof.
  induction 1 as [|rec0 rec recs0 recs Hp Hps IH];
    intros [|fuel] pre h G gs chunkID now r reach Hlen Hal Hfuel Hb Hid Hnow Hdi HN HQ Hrc;
    cbn [length] in Hfuel; try lia; cbn [build_loop].
  - unfold file_of. cbn [mbind list_bind]. rewrite app_nil_r. unfold Next, stream_read.
    cbn [sr_pos sr_file]. rewrite drop_all. cbn. exists h, G, gs, r. do 5 (split; [done|]). change (sizes []) with 0.
    rewrite Z.add_0_r, <- Hrc. eapply disk_inv_ext; [|done]. intros j. by rewrite reach_upd_same.
  - pose proof (log_pair_ok _ _ Hp) as Hr. pose proof (zlen_enc mc rec Hr) as Hz. pose proof (rec_Size_range mc rec Hr) as [Hs0 Hs1].
    unfold file_of in *. cbn [mbind list_bind] in *. change (list_bind _ ?f ?l) with (l ≫= f) in *.
    rewrite !zlen_app, Hz in Hlen. pose proof (zlen_nonneg (recs ≫= enc_rec)). pose proof (zlen_nonneg pre).
    rewrite (Next_record mc E pre rec _ r Hr) by lia. cbn [mbind option_bind n_err n_rec n_offset].
    destruct (item_of_record_spec rec0 rec (zlen pre) r (lp_append _ _ _ _ _ _ _ Hp) (lp_packed _ _ _ _ _ _ _ Hp)) as [r1 ->].
    change (RecSize (p_meta (r_Payload (stream_form rec)))) with (rec_Size rec).
    assert (log_hint (log_item (zlen pre) rec0)) as Hit by (eapply log_item_hint; [exact Hp|unfold is_u32; lia|done]).
    destruct (building_set h G chunkID gs (log_item (zlen pre) rec0) (rec_Size rec) now)
      as (rot & h1 & G1 & gs1 & Hset & Hb1 & Hm1 & Hf1 & Hg1 & _); [done..|]. rewrite Hset.
    cbn [mbind option_bind]. fold (enc_rec rec).
    pose proof (hm_setItem_inv Conf h T H0 M N Q reach _ chunkID (rec_Size rec) now rot h1 (eo_cap _ _ _ _ He) (lh_ok _ Hit) Hdi HN
      ltac:(by rewrite Hrc) ltac:(lia) ltac:(lia) ltac:(lia) HQ Hset) as Hdi1.
    destruct (IH fuel (pre ++ enc_rec rec) h1 G1 gs1 chunkID now r1 (reach_upd reach chunkID (reach chunkID + rec_Size rec)))
      as (h2 & G2 & gs2 & r2 & Hl & Hb2 & Hm2 & Hf2 & Hg2 & Hdi2); try done; try lia.
    { rewrite !zlen_app, Hz. lia. }
    { rewrite zlen_app, Hz, Z.add_mod, Hal, Hs1 by lia. done. }
    { by rewrite reach_upd_eq, zlen_app, Hz, Hrc. }
    rewrite <- app_assoc, length_app, zlen_app, Hz in Hl.
    replace (length (enc_rec rec)) with (Z.to_nat (rec_Size rec)) in Hl by (unfold zlen in Hz; lia).
    exists h2, G2, gs2, r2. split; [exact Hl|]. split; [done|]. split; [|split; [by etrans|split]].
    { rewrite Hm2, Hm1, zlen_app, Hz. done. }
    { destruct recs; [by rewrite Hg2|by eapply grown_trans]. }
    eapply disk_inv_ext; [|exact Hdi2]. intros j. rewrite reach_upd_twice, zlen_app, Hz, sizes_cons. f_equal. lia.
Qed.

End Build.

Lemma building_dump h G chunkID gs now :
  building h G chunkID gs → 0 <= chunkID < MAX_NUM_CHUNK →
  ∃ s h' G' a c gs', trydump Conf h chunkID true now = Some (s, h') ∧ mgr_rep Conf h' G' a
    ∧ zget (hm_chunks h') chunkID = Some c ∧ G' !! Z.to_nat chunkID = Some gs' ∧ chunk_rep Conf c gs' ∧ dumped c gs' ∧ Forall (Forall log_hint) gs'
    ∧ chunk_map gs' = chunk_map gs ∧ chunk_frame chunkID (h, G) (h', G') ∧ all_known E K G'
    ∧ ∀ gs0, grown gs0 gs → (length gs0 < length gs')%nat.
Proof.
  intros (a & c & Hrep & Hc & Hg & Ht & Hall & Hkn) Hid.
  destruct (hm_trydump_spec Conf h G a chunkID true now c gs Hrep Hid Hc Hg)
    as (s & h' & c' & gs' & Hd & Hrep' & Hch & Hcl & Ht' & Hgs'). pose proof (lookup_lt_Some _ _ _ Hg) as Hlt.
  destruct (Ht' Ht) as [_ Hdump].
  assert (zget (hm_chunks h') chunkID = Some c') as Hc' by (rewrite Hch; by eapply zget_insert).
  exists s, h', (<[Z.to_nat chunkID := gs']> G), a, c', gs'. split; [done|]. split; [done|]. split; [done|].
  assert (Forall (Forall log_hint) gs') as Hall'.
  { destruct Hgs' as [->| ->]; [done|]. apply Forall_app. by repeat constructor. }
  split; [by apply list_lookup_insert_eq|].
  split; [|split; [by apply Hdump; left|split; [done|split; [|split; [|split; [by apply known_chunk|]]]]]].
  - destruct (mgr_chunk Conf h' _ a chunkID Hrep' Hid) as (c1 & gs1 & Hc1 & Hg1 & Hcr & _).
    rewrite list_lookup_insert_eq in Hg1 by done. by simplify_eq.
  - destruct Hgs' as [->| ->]; [done|]. rewrite chunk_map_snoc.
    change (hint_map []) with (∅ : gmap (Z * bytes) HintItem). apply map_empty_union.
  - eapply frame_insert; [lia|by eapply trydump_disk|done|done|]. rewrite (mr_max _ _ _ _ Hrep), (mr_max _ _ _ _ Hrep'). lia.
  - intros gs0 Hgr. destruct (Hdump (or_introl eq_refl)) as (gf & Hgf & _). unfold grown in Hgr. destruct Hgs' as [He'| ->].
    + rewrite <- He', Hgf, last_snoc in Hgr. rewrite Hgf. destruct Hgr as [|[_ ?]]; done.
    + rewrite length_app. cbn [length]. destruct Hgr as [|[? _]]; lia.
Qed.

(** A chunk nothing was put into. *)
Definition fresh (h : hintMgr) (chunkID : Z) : Prop := zget (hm_chunks h) chunkID = Some (newHintChunk chunkID).

Lemma fresh_layers chunkID gs : chunk_rep Conf (newHintChunk chunkID) gs → gs = [[]].
Proof.
  intros [Hh _ _]. cbn in Hh. inversion_clear Hh as [|? items ? ? Hs Hn]. inversion Hn; subst. by inversion Hs.
Qed.

(** The hints of a chunk are those of its records, in [num] files at least. *)
Definition hints_built (h : hintMgr) (G : layers) (chunkID : Z) (its : list HintItem) (num : nat) : Prop :=
  ∃ c gs, zget (hm_chunks h) chunkID = Some c ∧ G !! Z.to_nat chunkID = Some gs ∧ chunk_rep Conf c gs ∧ dumped c gs
    ∧ Forall (Forall log_hint) gs ∧ same_entries (chunk_map gs) (put_items ∅ its) ∧ (num < length gs)%nat.

(** The files of a directory that hold the hints of the first [n] records of a
    chunk; nothing is asked of the chunk's other files but that they do not
    continue them. *)
Record hints_for (hd : gmap (Z * Z) bytes) (chunkID : Z) (recs0 recs : list Record_) (idxs : list hintFileIndex)
    (n : nat) : Prop := {
  hn_files : hint_files hd chunkID idxs;
  hn_count : (n <= length recs)%nat;
  hn_reach : hint_reach 0 idxs = sizes (take n recs);
  hn_items : ∃ gf, Forall2 file_holds idxs gf ∧ Forall (λ l, l ≠ []) gf ∧ Forall (Forall log_hint) gf
    ∧ same_entries (chunk_map gf) (put_items ∅ (log_items 0 (take n recs0) (take n recs)))
}.

Lemma hint_files_same hd hd' chunkID idxs :
  (∀ k : Z * Z, fst k = chunkID → hd' !! k = hd !! k) → hint_files hd chunkID idxs → hint_files hd' chunkID idxs.
Proof.
  intros Hs [H1 H2 H3]. split; [done| |].
  - intros j idx Hj. rewrite Hs by done. by apply H2.
  - intros f Hf. rewrite Hs in Hf by done. by eapply H3.
Qed.

Lemma files_rep chunkID idxs gf :
  Forall2 file_holds idxs gf → chunk_rep Conf (mkHintChunk chunkID ((file_split <$> idxs) ++ [newhintSplit]) 0) (gf ++ [[]]).
Proof.
  intros Hf. split; cbn [hc_splits].
  - apply Forall2_app; [|constructor; [|constructor]].
    + apply Forall2_fmap_l. eapply Forall2_impl; [exact Hf|]. intros idx items Hi. by constructor.
    + pose proof (newHintChunk_rep Conf 0) as [Hh _ _]. by inversion Hh.
  - intros i j sp sp' items Hij Hj _ Hi _. left. apply lookup_lt_Some in Hj. rewrite length_app in Hj. cbn [length] in Hj.
    rewrite lookup_app_l in Hi by lia. rewrite list_lookup_fmap in Hi. destruct (idxs !! i); [|done]. by injection Hi as <-.
  - by exists (file_split <$> idxs), NewHintBuffer.
Qed.

(** Loading the files of a chunk. *)
Lemma load_building h G a chunkID idxs gf :
  mgr_rep Conf h G a → all_known E K G → 0 <= chunkID < MAX_NUM_CHUNK → fresh h chunkID →
  hint_files (hm_disk h) chunkID idxs → Forall2 file_holds idxs gf → Forall (λ l, l ≠ []) gf → Forall (Forall log_hint) gf →
  ∃ h' G' a' c, loadHintsByChunk h chunkID = Some (hint_reach 0 idxs, h') ∧ building h' G' chunkID (gf ++ [[]])
    ∧ chunk_frame chunkID (h, G) (h', G') ∧ mgr_rep Conf h' G' a' ∧ all_known E K G'
    ∧ zget (hm_chunks h') chunkID = Some c ∧ G' !! Z.to_nat chunkID = Some (gf ++ [[]])
    ∧ chunk_rep Conf c (gf ++ [[]]) ∧ dumped c (gf ++ [[]])
    ∧ chunk_disk Conf (hm_disk h') chunkID (hc_splits c) (hint_reach 0 idxs) ∧ hm_maxDumpedHintID h' = hm_maxDumpedHintID h.
Proof.
  intros Hrep Hkn Hid Hfr Hfiles Hf Hne Hall.
  destruct (loadHints_spec h chunkID idxs Hfiles Hfr) as (h' & Hl & Hsm & Hdf & Hch & Hdk & Hdm).
  set (c := mkHintChunk _ _ _) in Hch. pose proof (files_rep chunkID idxs gf Hf) as Hcr. fold c in Hcr.
  destruct (mgr_chunk Conf h G a chunkID Hrep Hid) as (c0 & gs0 & Hc0 & Hg0 & _ & Hlt & _).
  destruct Hsm as (Hmx & Hmg & Hcl & _). pose proof (mr_max _ _ _ _ Hrep). pose proof (mr_range _ _ _ _ Hrep).
  assert (mgr_rep Conf h' (<[Z.to_nat chunkID := gf ++ [[]]]> G) (<[chunkID := chunk_map (gf ++ [[]])]> (fst a), hm_maxChunkID h'))
    as Hrep'.
  { eapply mgr_rep_upd; [done|done|done|done| | |done|lia].
    - rewrite Z2Nat.id, lookup_insert_eq by lia. done.
    - intros j Hj. apply lookup_insert_ne. lia. }
  assert (zget (hm_chunks h') chunkID = Some c) as Hc by (rewrite Hch; by eapply zget_insert).
  assert (Forall (Forall log_hint) (gf ++ [[]])) as Hall' by (apply Forall_app; by repeat constructor).
  assert (all_known E K (<[Z.to_nat chunkID := gf ++ [[]]]> G)) as Hkn' by (by apply known_chunk).
  eexists h', _, _, c. split; [done|]. split; [|split; [by eapply frame_insert; [lia|done..|lia]|]].
  - eexists _, c. split; [done|]. split; [done|]. split; [by apply list_lookup_insert_eq|]. split; [by exists gf, []|done].
  - do 3 (split; [done|]). split; [by apply list_lookup_insert_eq|]. split; [done|]. split; [|split; [|done]].
    + exists gf. split; [done|]. split; [done|]. intros i sp items Hi Hsp _. left. cbn [c hc_splits] in Hsp.
      rewrite <- (Forall2_length _ _ _ Hf) in Hi. rewrite lookup_app_l in Hsp by (by rewrite length_fmap).
      rewrite list_lookup_fmap in Hsp. destruct (idxs !! i); [|done]. by injection Hsp as <-.
    + apply loaded_chunk_disk; [apply Hfiles|done].
Qed.

Lemma store_chunk L disk now (i : nat) :
  Z.of_nat i < MAX_NUM_CHUNK → zget (ds_chunks (store_of L disk (log_head L) now)) (Z.of_nat i) = Some (chunk_of L i).
Proof.
  intros Hi. unfold store_of. cbn [ds_chunks]. rewrite zget_nat, list_lookup_fmap, lookup_seq_lt; [done|].
  unfold MAX_NUM_CHUNK in *. lia.
Qed.

Lemma no_size_no_records recs : Forall (rec_ok mc) recs → sizes recs = 0 → recs = [].
Proof.
  destruct 1 as [|rec recs Hr Hrs]; [done|]. rewrite sizes_cons. pose proof (rec_Size_range mc rec Hr).
  pose proof (sizes_range mc recs Hrs). lia.
Qed.

Lemma log_items_nil off recs0 : log_items off recs0 [] = [].
Proof. by destruct recs0. Qed.

Lemma log_items_app off recs0 recs1 recs0' recs1' : length recs0 = length recs1 →
  log_items off (recs0 ++ recs0') (recs1 ++ recs1') = log_items off recs0 recs1 ++ log_items (off + sizes recs1) recs0' recs1'.
Proof.
  revert off recs1. induction recs0 as [|rec0 recs0 IH]; intros off [|rec recs1] Hl; try done.
  - change (sizes []) with 0. by rewrite Z.add_0_r.
  - cbn [app log_items]. rewrite sizes_cons, Z.add_assoc, <- IH by (by injection Hl). done.
Qed.

(** How many files the hints of a chunk have at least once they are complete. *)
Definition files_after (n len num : nat) : nat := if (n <? len)%nat then S num else num.

(** How far the complete hints of a chunk reach. *)
Definition log_reach (L : list (list Record_)) (j : Z) : Z := sizes (default [] (L !! Z.to_nat j)).

Lemma check_spec T H0 M Q h G a disk L recs0 (i : nat) idxs n now r :
  files_hold disk L → log_ok mc L → Forall2 log_pair recs0 (default [] (L !! i)) → Z.of_nat i < MAX_NUM_CHUNK →
  mgr_rep Conf h G a → all_known E K G → fresh h (Z.of_nat i) → now ≠ 0 →
  (default [] (L !! i) ≠ [] → hints_for (hm_disk h) (Z.of_nat i) recs0 (default [] (L !! i)) idxs n) →
  (default [] (L !! i) ≠ [] → Q (Z.of_nat i)) →
  disk_inv Conf h T H0 M (Z.of_nat i) Q (log_reach L) → M <= Z.of_nat i →
  ∃ h' G' a' r', checkHintWithData Conf mc E h (store_of L disk (log_head L) 0) (Z.of_nat i) now r = Some (h', None, r')
    ∧ mgr_rep Conf h' G' a' ∧ all_known E K G'
    ∧ hints_built h' G' (Z.of_nat i) (log_items 0 recs0 (default [] (L !! i)))
        (if decide (default [] (L !! i) = []) then 0 else files_after n (length (default [] (L !! i))) (length idxs))
    ∧ chunk_frame (Z.of_nat i) (h, G) (h', G')
    ∧ disk_inv Conf h' T H0 M (Z.of_nat i + 1) Q (log_reach L)
    ∧ (default [] (L !! i) = [] → fresh h' (Z.of_nat i)).
Proof.
  intros Hf Hl Hps Hi Hrep Hkn Hfr Hnow Hhints HQ Hdi HMi. destruct (log_recs mc L i Hl) as (Hok & Hsz & Hal).
  unfold checkHintWithData. rewrite store_chunk by done. cbn [mbind option_bind chunk_of dc_size].
  assert (log_reach L (Z.of_nat i) = sizes (default [] (L !! i))) as Hlr by (unfold log_reach; by rewrite Nat2Z.id).
  destruct (Z.eqb_spec (sizes (default [] (L !! i))) 0) as [Hz|Hz].
  - apply no_size_no_records in Hz; [|done]. rewrite Hz in *. rewrite log_items_nil, decide_True by done.
    destruct (mgr_chunk Conf h G a (Z.of_nat i) Hrep ltac:(lia)) as (c0 & gs0 & Hc0 & Hg0 & Hcr0 & _).
    rewrite Hfr in Hc0. injection Hc0 as <-. apply fresh_layers in Hcr0 as ->.
    set (h' := RemoveHintfilesByChunk h (Z.of_nat i)).
    assert (disk_frame (Z.of_nat i) h h') as Hdf.
    { intros k Hk. cbn [h' RemoveHintfilesByChunk hm_with_disk hm_with hm_disk].
      destruct (hm_disk h !! k) as [f|] eqn:Hd; [by apply map_lookup_filter_Some_2|]. apply map_lookup_filter_None_2. by left. }
    exists h', G, a, r. split; [done|]. split; [by destruct Hrep|]. split; [done|]. split; [|split; [by split|split; [|done]]].
    + exists (newHintChunk (Z.of_nat i)), [[]]. split; [exact Hfr|]. split; [done|]. split; [apply newHintChunk_rep|].
      split; [|split; [by repeat constructor|by split; [|cbn; lia]]]. exists []. split; [done|]. split; [done|]. cbn. lia.
    + eapply disk_inv_ext; [|eapply (disk_inv_load Conf h h' T H0 _ _ Q (log_reach L) (newHintChunk (Z.of_nat i)) 0)];
        [|exact Hdi|lia|done|done|done|exact Hfr| |lia].
      * intros j. change 0 with (sizes []). rewrite <- Hlr. apply reach_upd_same.
      * apply new_chunk_disk. intros j. cbn [h' RemoveHintfilesByChunk hm_with_disk hm_with hm_disk].
        apply map_lookup_filter_None_2. right. intros f _. cbn. lia.
  - destruct (L !! i) as [[|rec0 recs']|] eqn:Hli; cbn [from_option id] in *; [done| |done].
    set (recs := rec0 :: recs') in *. destruct (Hhints ltac:(done)) as [Hhf Hn Hreach (gf & Hgf & Hne & Hall & Hmap)].
    rewrite decide_False by done. specialize (HQ ltac:(done)).
    destruct (load_building h G a (Z.of_nat i) idxs gf)
      as (h1 & G1 & a1 & c1 & -> & Hb1 & Hf1 & Hrep1 & Hkn1 & Hc1 & Hg1 & Hcr1 & Hd1 & Hcd1 & Hid1);
      [done|done|lia|done..|]. cbn [mbind option_bind]. rewrite Hreach in *. unfold files_after.
    assert (Forall2 log_pair (take n recs0) (take n recs)) as Hp1 by (by apply Forall2_take).
    assert (Forall2 log_pair (drop n recs0) (drop n recs)) as Hp2 by (by apply Forall2_drop).
    assert (log_items 0 recs0 recs = log_items 0 (take n recs0) (take n recs)
      ++ log_items (sizes (take n recs)) (drop n recs0) (drop n recs)) as Hitems.
    { rewrite <- (take_drop n recs0), <- (take_drop n recs) at 1. rewrite log_items_app by (by eapply Forall2_length). done. }
    assert (same_entries (chunk_map (gf ++ [[]])) (put_items ∅ (log_items 0 (take n recs0) (take n recs)))) as Hmap1.
    { rewrite chunk_map_snoc. change (hint_map []) with (∅ : gmap (Z * bytes) HintItem). by rewrite map_empty_union. }
    assert (sizes recs = sizes (take n recs) + sizes (drop n recs)) as Hsum by (by rewrite <- sizes_app, take_drop).
    assert (Forall (rec_ok mc) (take n recs)) as Hok1 by (by apply Forall_take).
    assert (Forall (rec_ok mc) (drop n recs)) as Hok2 by (by apply Forall_drop).
    pose proof (sizes_range mc _ Hok1) as [Hs1 Ha1]. pose proof (sizes_range mc _ Hok2) as [Hs2 _].
    pose proof (Forall2_length _ _ _ Hgf) as Hlgf.
    pose proof (disk_inv_load Conf h h1 T H0 _ _ Q (log_reach L) c1 (sizes (take n recs)) Hdi ltac:(lia) (cf_chunks _ _ _ Hf1)
      (cf_disk _ _ _ Hf1) Hid1 Hc1 Hcd1 ltac:(done)) as Hdi1.
    destruct (Z.ltb_spec (sizes (take n recs)) (sizes recs)) as [Hlt|Hge].
    + assert (drop n recs ≠ []) as Hdne by (intros He'; rewrite He' in Hsum; change (sizes []) with 0 in Hsum; lia).
      assert (n < length recs)%nat as Hnl.
      { destruct (decide (n < length recs)%nat); [done|]. by rewrite drop_ge in Hdne by lia. }
      unfold buildHintFromData. cbn [store_of ds_disk]. 
      assert (disk !! Z.of_nat i = Some (file_of recs)) as -> by (by rewrite Hf, zget_nat, Hli).
      pose proof (zlen_file_of mc _ Hok) as Hzf. pose proof (zlen_file_of mc _ Hok1) as Hzf1.
      set (pre := file_of (take n recs)) in *.
      assert (file_of recs = pre ++ file_of (drop n recs)) as Hfo by (unfold pre; by rewrite <- file_of_app, take_drop).
      assert (sr_seek (newDataStreamReader (file_of recs)) (sizes (take n recs))
        = mkReader (pre ++ file_of (drop n recs)) (length pre) (zlen pre)) as ->.
      { unfold sr_seek, newDataStreamReader. rewrite <- Hfo, Hzf1. cbn. f_equal. unfold zlen in Hzf1. lia. }
      destruct (build_loop_spec T H0 M (Z.of_nat i + 1) Q (drop n recs0) (drop n recs) Hp2 (S (length (file_of recs))) pre h1 G1
        (gf ++ [[]]) (Z.of_nat i) now r (reach_upd (log_reach L) (Z.of_nat i) (sizes (take n recs)))) as (h2 & G2 & gs2 & r2 & -> & Hb2 & Hm2 & Hf2 & Hg2 & Hdi2); try done; try lia.
      { rewrite <- Hfo, Hzf. lia. }
      { by rewrite Hzf1. }
      { pose proof (file_of_length mc recs Hok) as Hfl. rewrite length_drop. lia. }
      { by rewrite reach_upd_eq, Hzf1. }
      cbn [mbind option_bind].
      destruct (building_dump h2 G2 (Z.of_nat i) gs2 now Hb2)
        as (s & h3 & G3 & a3 & c & gs3 & Htd & Hrep3 & Hc3 & Hg3 & Hcr & Hd & Hall3 & Hm3 & Hf3 & Hkn3 & Hlen3); [lia|]. rewrite Htd.
      cbn [mbind option_bind]. exists h3, G3, a3, r2. split; [done|]. split; [done|]. split; [done|].
      split; [|split; [by do 2 (etrans; [eassumption|])|split; [|done]]].
      * exists c, gs3. split_and!; try done.
        -- rewrite Hm3, Hm2, Hmap1, Hitems, Hzf1. unfold put_items. by rewrite foldl_app.
        -- destruct (Nat.ltb_spec n (length recs)); [|lia]. destruct (drop n recs); [done|].
           specialize (Hlen3 _ Hg2). rewrite length_app in Hlen3. cbn [length] in Hlen3. lia.
      * eapply (trydump_inv Conf h2 T H0 _ (Z.of_nat i + 1)); [..|exact Htd]; [|lia]. eapply disk_inv_ext; [|exact Hdi2]. intros j. rewrite reach_upd_twice.
        rewrite Hzf1, <- Hsum, <- Hlr. apply reach_upd_same.
    + assert (drop n recs = []) as Hnil by (apply no_size_no_records; [done|lia]).
      exists h1, G1, a1, r. split; [done|]. split; [done|]. split; [done|]. split; [|split; [done|split; [|done]]].
      * exists c1, (gf ++ [[]]). split; [done|]. split; [done|]. split; [done|]. split; [done|].
        split; [apply Forall_app; by repeat constructor|]. split.
        -- rewrite Hmap1, Hitems, Hnil, log_items_nil, app_nil_r. done.
        -- rewrite length_app. cbn [length]. destruct (Nat.ltb_spec n (length recs)) as [Hlt'|]; [|lia].
           assert (length (drop n recs) = 0%nat) as Hl0 by (by rewrite Hnil). rewrite length_drop in Hl0. lia.
      * eapply disk_inv_ext; [|exact Hdi1]. intros j. replace (sizes (take n recs)) with (log_reach L (Z.of_nat i)) by lia.
        apply reach_upd_same.
Qed.

(** ** From the hints to the tree *)

Definition tree_put (chunkID : Z) (m : gmap Z HTreeItem) (it : HintItem) : gmap Z HTreeItem :=
  match tree_entry chunkID it with
  | Some x => <[Keyhash (hi_meta it) := x]> m
  | None => delete (Keyhash (hi_meta it)) m
  end.

Lemma tree_put_lookup chunkID m it kh :
  tree_put chunkID m it !! kh = if decide (Keyhash (hi_meta it) = kh) then tree_entry chunkID it else m !! kh.
Proof.
  unfold tree_put. destruct (tree_entry chunkID it), (decide _) as [<-|Hne];
    by rewrite ?lookup_insert_eq, ?lookup_delete_eq, ?lookup_insert_ne, ?lookup_delete_ne.
Qed.

Lemma tree_update_spec t m chunkID it :
  same_frame t0 t → models Conf t m → log_hint it → 0 <= chunkID < MAX_NUM_CHUNK → 0 <= TreeDepth Conf <= 16 →
  ∃ t', tree_update Conf E t chunkID it = Some t' ∧ same_frame t0 t' ∧ models Conf t' (tree_put chunkID m it).
Proof.
  intros (Hd & Hb & Hn) Hm [[Hkh Hck Hoff Hver Hvh Hkl] Hk Hh [Hu Hbk] Hal] Hc Hdepth.
  unfold tree_update, NewKeyInfoFromBytes. set (ki0 := mkKeyInfo _ _ _ _ _ _).
  destruct (Prepare_bucket Conf ki0) as (ki1 & Hp1 & Hpr1 & Hkh1 & _); [done|done|done|]. rewrite Hp1. cbn [mbind option_bind].
  destruct (Prepare_bucket Conf ki1) as (ki & Hp & Hpr & Hkhk & _); [|by rewrite Hkh1|done|].
  { unfold Prepare in Hp1. cbn [ki_KeyIsPath ki0] in Hp1. destruct (zslice _ _ _) as [top|]; [|done].
    cbn [mbind option_bind] in Hp1. by injection Hp1 as <-. }
  rewrite Hp. cbn [mbind option_bind].
  assert (ki_KeyHash ki = Keyhash (hi_meta it)) as Hki by (by rewrite Hkhk, Hkh1).
  assert (in_bucket t (ki_KeyHash ki)) as Hin.
  { unfold in_bucket. rewrite Hki, Hh, Hd, Hb. by split. }
  unfold tree_put, tree_entry. destruct (Z.ltb_spec 0 (it_Ver (hi_meta it))) as [Hpos|Hneg].
  - destruct (ht_set_models Conf (heap E) t m ki (mkMeta 0 0 (it_Ver (hi_meta it)) (Vhash (hi_meta it)) 0)
      (mkPos chunkID (Offset (Pos (hi_meta it))))) as (t' & Hs & (Hd' & Hb' & Hn') & Hm'); try done.
    exists t'. split; [done|]. split; [repeat split; congruence|].
    rewrite norm_pos, Hki in Hm' by done. done.
  - destruct (ht_remove_models Conf t m ki (mkPos (-1) (Offset (Pos (hi_meta it))))) as (t' & Hs & (Hd' & Hb' & Hn') & Hm'); try done.
    exists t'. split; [done|]. split; [repeat split; congruence|]. unfold after_remove in Hm'. rewrite Hki in Hm'.
    destruct (m !! Keyhash (hi_meta it)) as [x|] eqn:Hx; [done|]. by rewrite delete_id.
Qed.

Lemma update_loop_items fuel : ∀ rd its t m chunkID,
  readItems fuel rd = Some (inl its) → same_frame t0 t → models Conf t m → Forall log_hint its →
  0 <= chunkID < MAX_NUM_CHUNK → 0 <= TreeDepth Conf <= 16 →
  ∃ t', update_loop Conf E fuel t chunkID rd = Some (t', None) ∧ same_frame t0 t'
    ∧ models Conf t' (foldl (tree_put chunkID) m its).
Proof.
  induction fuel as [|fuel IH]; intros rd its t m chunkID Hr Hf Hm Hall Hc Hd; [done|].
  cbn [readItems update_loop] in *. destruct (hr_next rd) as [[[it|]|e] rd']; [| |done].
  - destruct (readItems fuel rd') as [[its'|e]|] eqn:Hr'; cbn [mbind option_bind] in Hr; simplify_eq.
    apply Forall_cons in Hall as [Hit Hall].
    destruct (tree_update_spec t m chunkID it Hf Hm Hit Hc Hd) as (t1 & -> & Hf1 & Hm1). cbn [mbind option_bind foldl].
    by apply (IH rd' its').
  - injection Hr as <-. by exists t.
Qed.

(** The tree after the items of a map were put into it, key by key. *)
Record put_over (chunkID : Z) (h : gmap (Z * bytes) HintItem) (m m' : gmap Z HTreeItem) : Prop := {
  po_key key : K key → m' !! hash_of key
    = match h !! (hash_of key, key) with Some it => tree_entry chunkID it | None => m !! hash_of key end;
  po_other kh : is_Some (m' !! kh) → is_Some (m !! kh) ∨ ∃ key, K key ∧ hash_of key = kh
}.

#[local] Instance put_over_same chunkID : Proper (same_entries ==> (=) ==> (=) ==> iff) (put_over chunkID).
Proof.
  enough (∀ h h' m m', same_entries h h' → put_over chunkID h m m' → put_over chunkID h' m m') as Himp.
  { intros h h' Hh m ? <- m' ? <-. split; apply Himp; [done|by symmetry]. }
  intros h h' m m' Hh [Hk Ho]. split; [|done]. intros key Hkey. rewrite Hk by done. specialize (Hh chunkID (hash_of key, key)).
  destruct (h !! _), (h' !! _); cbn in Hh; congruence.
Qed.

Lemma put_over_trans chunkID h1 h2 m m1 m2 :
  put_over chunkID h1 m m1 → put_over chunkID h2 m1 m2 → put_over chunkID (h2 ∪ h1) m m2.
Proof.
  intros [Hk1 Ho1] [Hk2 Ho2]. split; [|intros kh [Hkh|Hkh]%Ho2; [by apply Ho1|by right]].
  intros key Hkey. rewrite Hk2, Hk1, lookup_union by done.
  by destruct (h2 !! (hash_of key, key)), (h1 !! (hash_of key, key)).
Qed.

Lemma put_items_over chunkID its : ∀ m,
  Forall log_hint its → NoDup (hint_key <$> its) →
  put_over chunkID (hint_map its) m (foldl (tree_put chunkID) m its).
Proof.
  induction its as [|it its IH]; intros m Hall Hnd; [by split; [|by left]|].
  apply Forall_cons in Hall as [Hit Hall]. rewrite fmap_cons in Hnd. apply NoDup_cons in Hnd as [Hni Hnd].
  cbn [foldl]. specialize (IH (tree_put chunkID m it) Hall Hnd).
  assert (hint_map (it :: its) = hint_map its ∪ {[hint_key it := it]}) as ->.
  { change (hint_map (it :: its)) with (<[hint_key it := it]> (hint_map its)). apply insert_union_singleton_r.
    by apply hint_map_lookup_None. }
  eapply put_over_trans; [|exact IH]. split.
  - intros key Hkey. rewrite tree_put_lookup, (lh_hash _ Hit). unfold hint_key. rewrite (lh_hash _ Hit).
    destruct (decide _) as [Heq|Hne].
    + apply (eo_keys _ _ _ _ He) in Heq as <-; [|apply Hit|done]. by rewrite lookup_singleton_eq.
    + rewrite lookup_singleton_ne; [done|]. intros [= Heq _]. done.
  - intros kh Hkh. rewrite tree_put_lookup, (lh_hash _ Hit) in Hkh. destruct (decide _) as [<-|]; [|by left].
    right. exists (hi_Key it). split; [apply Hit|done].
Qed.

Lemma hint_map_perm its its' : NoDup (hint_key <$> its) → its ≡ₚ its' → hint_map its = hint_map its'.
Proof.
  intros Hnd Hp. unfold hint_map. apply list_to_map_proper; [by rewrite <- list_fmap_compose|by rewrite Hp].
Qed.

Definition split_file (sp : hintSplit) (items : list HintItem) : Prop :=
  ∃ idx, sp = mkSplit None (Some idx) ∧ file_holds idx items.

(** A chunk whose hints are built consists of files and an empty buffer. *)
Lemma dumped_files c gs :
  chunk_rep Conf c gs → dumped c gs →
  ∃ front gfront, take (Z.to_nat (zlen (hc_splits c) - 1)) (hc_splits c) = front ∧ zlen (hc_splits c) - 1 = zlen front
    ∧ gs = gfront ++ [[]] ∧ Forall2 split_file front gfront.
Proof.
  intros Hrep (gfront & -> & Hne & Hset). destruct (chunk_last Conf c _ Hrep) as (front & b & gf & Hs & Hg & Hf & _).
  apply app_inj_2 in Hg as [<- _]; [|done]. exists front, gfront. rewrite Hs in Hset |- *.
  assert (zlen (front ++ [mkSplit (Some b) None]) - 1 = zlen front) as Hz by (rewrite zlen_app; change (zlen [_]) with 1; lia).
  split; [|split; [done|split; [done|]]].
  { rewrite Hz. unfold zlen. by rewrite Nat2Z.id, take_app_length. }
  apply Forall2_same_length_lookup. split; [by eapply Forall2_length|]. intros i sp items Hi Hgi.
  pose proof (Forall2_lookup_lr _ _ _ _ _ _ Hf Hi Hgi) as Hsp.
  destruct (Hset i sp items) as [Hb|Hb]; [by eapply lookup_lt_Some|by apply lookup_app_l_Some|done| |].
  - inversion Hsp; subst; [done|]. by eexists.
  - rewrite Forall_lookup in Hne. by destruct (Hne _ _ Hgi).
Qed.

Lemma update_splits_spec front gfront : Forall2 split_file front gfront → ∀ t m chunkID startsp j id,
  same_frame t0 t → models Conf t m → Forall (Forall log_hint) gfront → 0 <= chunkID < MAX_NUM_CHUNK → 0 <= TreeDepth Conf <= 16 →
  ∃ t' id' m', update_splits Conf E t chunkID startsp j front id = Some (t', inl id')
    ∧ same_frame t0 t' ∧ models Conf t' m' ∧ put_over chunkID (chunk_map gfront) m m'
    ∧ (front ≠ [] → id' = mkHintID chunkID (startsp + j + zlen front - 1)).
Proof.
  enough (∀ gdone m0, Forall2 split_file front gfront → ∀ t m chunkID startsp j id,
    same_frame t0 t → models Conf t m → put_over chunkID (chunk_map gdone) m0 m → Forall (Forall log_hint) gfront →
    0 <= chunkID < MAX_NUM_CHUNK → 0 <= TreeDepth Conf <= 16 →
    ∃ t' id' m', update_splits Conf E t chunkID startsp j front id = Some (t', inl id')
      ∧ same_frame t0 t' ∧ models Conf t' m' ∧ put_over chunkID (chunk_map (gdone ++ gfront)) m0 m'
      ∧ (front ≠ [] → id' = mkHintID chunkID (startsp + j + zlen front - 1))) as Hgen.
  { intros Hff t m chunkID startsp j id Hf Hm. apply (Hgen [] m Hff t m); [done|done|by split; [|by left]]. }
  intros gdone m0 Hff. revert gdone. induction Hff as [|sp items front gfront (idx & -> & Hfh) Hff IH];
    intros gdone t m chunkID startsp j id Hf Hm Hpo Hall Hc Hd; cbn [update_splits].
  { exists t, id, m. by rewrite app_nil_r. }
  apply Forall_cons in Hall as [Hits Hall]. cbn [sp_file mbind option_bind].
  destruct (fh_scan _ _ Hfh) as (rd & srt & Ho & Hr & Hp). unfold updateHtreeFromHint. rewrite Ho.
  destruct (update_loop_items _ rd srt t m chunkID Hr) as (t1 & -> & Hf1 & Hm1); [done|done|by rewrite Hp|done|done|].
  cbn [mbind option_bind].
  assert (put_over chunkID (chunk_map (gdone ++ [items])) m0 (foldl (tree_put chunkID) m srt)) as Hpo1.
  { rewrite chunk_map_snoc. eapply put_over_trans; [exact Hpo|].
    rewrite (hint_map_perm items srt) by (done || apply Hfh). apply put_items_over; [by rewrite Hp|].
    rewrite Hp. apply Hfh. }
  destruct (IH (gdone ++ [items]) t1 _ chunkID startsp (j + 1) (mkHintID chunkID (startsp + j)) Hf1 Hm1 Hpo1 Hall Hc Hd)
    as (t' & id' & m' & Hu & Hf' & Hm' & Hp' & Hid). rewrite <- app_assoc in Hp'. exists t', id', m'. do 4 (split; [done|]). intros _.
  destruct front as [|sp' front]; [|rewrite Hid by done; f_equal; unfold zlen; cbn [length]; lia].
  cbn [update_splits] in Hu. injection Hu as _ <-. f_equal. unfold zlen. cbn [length]. lia.
Qed.

(** ** The tree of a log *)

(** The last record of every key with its position. *)
Definition place_rec (P : gmap bytes (Position * Record_)) (x : Position * Record_) : gmap bytes (Position * Record_) :=
  <[r_Key x.2 := x]> P.
Fixpoint places (chunkID off : Z) (recs0 recs : list Record_) : list (Position * Record_) :=
  match recs0, recs with
  | rec0 :: recs0, rec :: recs => (mkPos chunkID off, rec0) :: places chunkID (off + rec_Size rec) recs0 recs
  | _, _ => []
  end.
Definition place_item (x : Position * Record_) : HTreeItem :=
  mkHTreeItem 0 x.1 (rec_ver x.2) (Getvhash (p_Body (r_Payload x.2))).

Definition live_item (x : Position * Record_) : option HTreeItem := if 0 <? rec_ver x.2 then Some (place_item x) else None.

(** The tree of the records: an entry for every key whose last record is not a
    deletion; one that is may have left an entry of its version. *)
Record tree_log (m : gmap Z HTreeItem) (P : gmap bytes (Position * Record_)) : Prop := {
  tl_key key : K key → match P !! key with
    | Some x => m !! hash_of key = live_item x
        ∨ (rec_ver x.2 <= 0 ∧ ∃ vh, m !! hash_of key = Some (mkHTreeItem 0 x.1 (rec_ver x.2) vh))
    | None => m !! hash_of key = None
    end;
  tl_other kh : is_Some (m !! kh) → ∃ key, K key ∧ hash_of key = kh
}.

(** The items of a chunk are those of the last records of its keys. *)
Lemma places_items (chunkID : Z) (key : bytes) (P0 : gmap bytes (Position * Record_)) recs0 recs : Forall2 log_pair recs0 recs → ∀ (off : Z) (h : gmap (Z * bytes) HintItem) (P : gmap bytes (Position * Record_)),
  (h !! (hash_of key, key) = None ∧ P !! key = P0 !! key)
    ∨ (∃ x it, P !! key = Some x ∧ h !! (hash_of key, key) = Some it ∧ tree_entry chunkID it = live_item x) →
  let h' := put_items h (log_items off recs0 recs) in let P' := foldl place_rec P (places chunkID off recs0 recs) in
  (h' !! (hash_of key, key) = None ∧ P' !! key = P0 !! key)
    ∨ (∃ x it, P' !! key = Some x ∧ h' !! (hash_of key, key) = Some it ∧ tree_entry chunkID it = live_item x).
Proof.
  induction 1 as [|rec0 rec recs0 recs Hp Hps IH]; intros off h P Hb; [exact Hb|].
  cbn [places log_items put_items foldl]. apply IH. unfold place_rec. cbn [snd].
  change (hint_key (log_item off rec0)) with (hash_of (r_Key rec0), r_Key rec0).
  destruct (decide (r_Key rec0 = key)) as [<-|Hne].
  - right. rewrite !lookup_insert_eq. eexists _, _. split; [done|]. split; [done|]. done.
  - rewrite !lookup_insert_ne by (done || intros [= _ ?]; done). exact Hb.
Qed.

Lemma tree_log_step chunkID m m' P recs0 recs :
  tree_log m P → Forall2 log_pair recs0 recs → put_over chunkID (put_items ∅ (log_items 0 recs0 recs)) m m' →
  tree_log m' (foldl place_rec P (places chunkID 0 recs0 recs)).
Proof.
  intros [Hk Ho] Hps [Hk' Ho']. split; [|by intros kh [Hkh%Ho|Hkh]%Ho'].
  intros key Hkey. rewrite Hk' by done.
  destruct (places_items chunkID key P recs0 recs Hps 0 ∅ P) as [[-> ->]|(x & it & -> & -> & He')]; [by left|by apply Hk|by left].
Qed.

Lemma place_recs_miss l key : ∀ P, key ∉ (λ x, r_Key x.2) <$> l → foldl place_rec P l !! key = P !! key.
Proof.
  induction l as [|x l IH]; intros P Hk; [done|]. rewrite fmap_cons, not_elem_of_cons in Hk. destruct Hk as [Hx Hk].
  cbn [foldl]. rewrite IH by done. unfold place_rec. by rewrite lookup_insert_ne.
Qed.

Lemma place_recs_same l key : ∀ P Q,
  key ∈ (λ x, r_Key x.2) <$> l ∨ P !! key = Q !! key → foldl place_rec P l !! key = foldl place_rec Q l !! key.
Proof.
  induction l as [|x l IH]; intros P Q Hk; [by destruct Hk as [Hk%not_elem_of_nil|]|]. cbn [foldl]. apply IH.
  unfold place_rec. rewrite fmap_cons, elem_of_cons in Hk. destruct (decide (key = r_Key x.2)) as [->|Hne].
  - right. by rewrite !lookup_insert_eq.
  - destruct Hk as [[Hk|Hk]|Hk]; [done|by left|right]. by rewrite !lookup_insert_ne.
Qed.

(** Replaying records over what a first part of them left changes nothing else. *)
Lemma place_recs_again P l k : foldl place_rec (foldl place_rec P (take k l)) l = foldl place_rec P l.
Proof.
  apply map_eq. intros key. apply place_recs_same. destruct (decide (key ∈ (λ x, r_Key x.2) <$> l)) as [|Hni]; [by left|right].
  apply place_recs_miss. intros Hin. apply Hni. rewrite <- (take_drop k l), fmap_app. apply elem_of_app. by left.
Qed.

(** ** Opening, chunk by chunk *)

Section Log.
Context (disk : Disk) (L0 L : list (list Record_)).
Context (Hfiles : files_hold disk L) (Hlog : log_ok mc L) (Hpairs : Forall2 (Forall2 log_pair) L0 L).
Context (Hdepth : 0 <= TreeDepth Conf <= 16).

Lemma chunk_pairs i : Forall2 log_pair (default [] (L0 !! i)) (default [] (L !! i)).
Proof.
  destruct (L0 !! i) as [recs0|] eqn:H0.
  - by destruct (Forall2_lookup_l _ _ _ _ _ Hpairs H0) as (recs & -> & Hps).
  - apply lookup_ge_None in H0. rewrite (Forall2_length _ _ _ Hpairs) in H0. by rewrite lookup_ge_None_2.
Qed.

(** The records of the chunks [i], ..., [i + n - 1] with their positions. *)
Definition chunk_places (i : nat) : list (Position * Record_) :=
  places (Z.of_nat i) 0 (default [] (L0 !! i)) (default [] (L !! i)).
Definition log_places (i n : nat) : list (Position * Record_) := seq i n ≫= chunk_places.

Lemma chunk_places_length i : length (chunk_places i) = length (default [] (L !! i)).
Proof.
  unfold chunk_places. pose proof (chunk_pairs i) as Hps. revert Hps. generalize (default [] (L0 !! i)) (default [] (L !! i)) 0.
  intros recs0 recs off Hps. revert off. induction Hps as [|? ? ? ? ? ? IH]; intros off; [done|]. cbn [places length]. by rewrite IH.
Qed.

(** The hint files that the chunks from [ck] on are found with. *)
Context (hd : gmap (Z * Z) bytes) (idxs : nat → list hintFileIndex) (ns : nat → nat) (ck : nat).
Definition hints_found : Prop := ∀ j : nat, (ck <= j)%nat → default [] (L !! j) ≠ [] →
  hints_for hd (Z.of_nat j) (default [] (L0 !! j)) (default [] (L !! j)) (idxs j) (ns j).
Context (Hfound : hints_found).
Definition chunk_files (i : nat) : nat := files_after (ns i) (length (default [] (L !! i))) (length (idxs i)).

Lemma chunk_files_some i : (ck <= i)%nat → default [] (L !! i) ≠ [] → (0 < chunk_files i)%nat.
Proof.
  intros Hi Hne. destruct (Hfound i Hi Hne) as [_ Hn Hr _]. unfold chunk_files, files_after.
  destruct (Nat.ltb_spec (ns i) (length (default [] (L !! i)))) as [|Hge]; [lia|].
  destruct (idxs i) as [|x xs]; [|cbn; lia]. rewrite take_ge in Hr by lia. destruct (log_recs mc L i Hlog) as (Hok & _).
  destruct Hne. by apply no_size_no_records.
Qed.

(** A bucket that has been opened up to chunk [i], with a tree that has the first
    [k] records of chunk [i] already. *)
Definition in_log (j : Z) : Prop := 0 <= j ∧ default [] (L !! Z.to_nat j) ≠ [].

Record opened (b : Bucket) (tree : HintID) (i k : nat) (P : gmap bytes (Position * Record_)) : Prop := {
  od_store : bk_datas b = store_of L disk (log_head L) 0;
  od_tree : ∃ m, models Conf (bk_htree b) m ∧ tree_log m (foldl place_rec P (take k (chunk_places i)));
  od_frame : same_frame t0 (bk_htree b);
  od_hints : ∃ G a, mgr_rep Conf (bk_hints b) G a ∧ all_known E K G
    ∧ ∀ j, (ck <= j < i)%nat →
        hints_built (bk_hints b) G (Z.of_nat j) (log_items 0 (default [] (L0 !! j)) (default [] (L !! j))) 0;
  od_disk : disk_inv Conf (bk_hints b) tree (Z.of_nat ck) (Z.of_nat i) (Z.of_nat i) in_log (log_reach L);
  od_coll : ct_Items (hm_collisions (bk_hints b)) = ∅;
  od_rest j : (i <= j)%nat → Z.of_nat j < MAX_NUM_CHUNK → fresh (bk_hints b) (Z.of_nat j)
    ∧ ∀ id : Z * Z, fst id = Z.of_nat j → hm_disk (bk_hints b) !! id = hd !! id
}.

(** The first split of a chunk that the tree may not have. *)
Definition first_split (tree : HintID) (i : Z) : Z := if i =? id_Chunk tree then id_Split tree + 1 else 0.

Lemma hints_built_frame i j h G h' G' its num :
  chunk_frame (Z.of_nat i) (h, G) (h', G') → j ≠ i → hints_built h G (Z.of_nat j) its num → hints_built h' G' (Z.of_nat j) its num.
Proof.
  intros [_ Hc Hl _ _] Hne (c & gs & H1 & H2 & H3). cbn [fst snd] in *. exists c, gs. rewrite Hc, Hl by lia. done.
Qed.

(** The newest split after a chunk. *)
Lemma opened_pass h h' tree (i : nat) c gs front gfront :
  disk_inv Conf h tree (Z.of_nat ck) (Z.of_nat i) (Z.of_nat i + 1) in_log (log_reach L) → (ck <= i)%nat →
  id_Chunk tree <= Z.of_nat i → 0 <= first_split tree (Z.of_nat i) →
  zget (hm_chunks h) (Z.of_nat i) = Some c → chunk_rep Conf c gs → zlen (hc_splits c) - 1 = zlen front →
  gs = gfront ++ [[]] → Forall2 split_file front gfront →
  (default [] (L !! i) = [] → fresh h (Z.of_nat i)) →
  hm_chunks h' = hm_chunks h → hm_disk h' = hm_disk h →
  hm_maxDumpedHintID h' = (if zlen front <=? first_split tree (Z.of_nat i) then hm_maxDumpedHintID h
    else mkHintID (Z.of_nat i) (first_split tree (Z.of_nat i) + zlen front - 1)) →
  disk_inv Conf h' tree (Z.of_nat ck) (Z.of_nat (S i)) (Z.of_nat (S i)) in_log (log_reach L).
Proof.
  intros Hdi Hci Htc Hs0 Hc Hcr Hnum -> Hff Hfr Hch Hdk Hid.
  replace (Z.of_nat (S i)) with (Z.of_nat i + 1) by lia.
  eapply (disk_inv_pass Conf h h'); [by replace (Z.of_nat i + 1 - 1) with (Z.of_nat i) by lia|lia|done|done|].
  replace (Z.of_nat i + 1 - 1) with (Z.of_nat i) by lia.
  destruct (Z.leb_spec (zlen front) (first_split tree (Z.of_nat i))) as [Hle|Hgt].
  - pose proof (di_tree _ _ _ _ _ _ _ _ Hdi) as Hle'. unfold hid_le in Hle'.
    assert (zlen front <= 0 → ∀ c' j, zget (hm_chunks h) (Z.of_nat i) = Some c' → file_of_split (hc_splits c') j = None) as Hempty.
    { intros Hz c' j Hc'. rewrite Hc in Hc'. injection Hc' as <-.
      destruct (cr_last _ _ _ Hcr) as (fr & b & Hs). rewrite Hs in Hnum |- *. rewrite zlen_app in Hnum. change (zlen [_]) with 1 in Hnum.
      destruct fr; [|unfold zlen in *; cbn [length] in *; lia]. unfold file_of_split, zget. destruct (Z.ltb_spec j 0); [done|].
      by destruct (Z.to_nat j) as [|[]]. }
    left. split; [done|]. split.
    + intros _ Hid0. apply Hempty. rewrite Hid0 in Hle'. cbn [id_Chunk id_Split] in Hle'.
      unfold first_split in *. destruct (Z.eqb_spec (Z.of_nat i) (id_Chunk tree)); lia.
    + intros c' j Hc' Hf. unfold first_split in *. destruct (Z.eqb_spec (Z.of_nat i) (id_Chunk tree)); [lia|].
      rewrite (Hempty ltac:(lia) c' j Hc') in Hf. by destruct Hf.
  - right. exists (first_split tree (Z.of_nat i) + zlen front - 1). split; [lia|]. split; [done|]. split.
    + unfold hid_le, first_split in *. cbn [id_Chunk id_Split]. destruct (Z.eqb_spec (Z.of_nat i) (id_Chunk tree)); lia.
    + unfold log_reach. rewrite Nat2Z.id. destruct (log_recs mc L i Hlog) as (Hok & Hsz & _).
      destruct (decide (sizes (default [] (L !! i)) = 0)) as [Hz|]; [|lia]. apply no_size_no_records in Hz; [|done].
      apply Hfr in Hz. rewrite Hz in Hc. injection Hc as <-. change (zlen (hc_splits (newHintChunk (Z.of_nat i)))) with 1 in Hnum. lia.
Qed.

Lemma opened_step b tree i k P now r :
  opened b tree i k P → (ck <= i)%nat → Z.of_nat i < MAX_NUM_CHUNK → now ≠ 0 → 0 <= first_split tree (Z.of_nat i) →
  id_Chunk tree <= Z.of_nat ck →
  ((k < length (default [] (L !! i)))%nat → first_split tree (Z.of_nat i) < Z.of_nat (chunk_files i)) →
  ∃ b' r', (∀ n, open_chunks Conf mc E b tree (Z.of_nat i) (S n) now r
      = open_chunks Conf mc E b' tree (Z.of_nat (S i)) n now r')
    ∧ opened b' tree (S i) 0 (foldl place_rec P (chunk_places i)).
Proof.
  intros [Hst (m & Hm & Htl) Hfr (G & a & Hrep & Hkn & Hblt) Hdi Hcl Hrest] Hci Hi Hnow Hs0 Htc Hskip.
  destruct (Hrest i ltac:(lia) Hi) as [Hfresh Hdisk].
  destruct (check_spec tree (Z.of_nat ck) (Z.of_nat i) in_log (bk_hints b) G a disk L (default [] (L0 !! i)) i (idxs i) (ns i) now r)
    as (h & G1 & a1 & r1 & Hck & Hrep1 & Hkn1 & (c & gs & Hc & Hg & Hcr & Hd & Hall & Hmap & Hnf) & Hcf & Hdi1 & Hfresh1);
    [done|done|apply chunk_pairs|done|done|done|done|done| | |done|lia|].
  { intros Hne. destruct (Hfound i Hci Hne) as [H1 H2 H3 H4]. split; try done. by eapply hint_files_same. }
  { intros Hne. split; [lia|]. by rewrite Nat2Z.id. }
  pose proof Hcf as [Hdf Hchf _ Hcl1 _]. cbn [fst snd] in Hdf, Hchf, Hcl1.
  destruct (dumped_files c gs Hcr Hd) as (front & gfront & Htake & Hnum & Hgs & Hff).
  assert (∀ j, (ck <= j < S i)%nat →
    hints_built h G1 (Z.of_nat j) (log_items 0 (default [] (L0 !! j)) (default [] (L !! j))) 0) as Hblt1.
  { intros j Hj. destruct (decide (j = i)) as [->|Hne]; [|eapply hints_built_frame; [exact Hcf|done|apply Hblt; lia]].
    exists c, gs. do 6 (split; [done|]). lia. }
  assert (same_entries (chunk_map gfront) (put_items ∅ (log_items 0 (default [] (L0 !! i)) (default [] (L !! i))))) as Hmap'.
  { rewrite <- Hmap, Hgs, chunk_map_snoc. change (hint_map []) with (∅ : gmap (Z * bytes) HintItem). by rewrite map_empty_union. }
  assert (Forall (Forall log_hint) gfront) as Hall' by (rewrite Hgs in Hall; by apply Forall_app in Hall as [? _]).
  assert (∀ j, (S i <= j)%nat → Z.of_nat j < MAX_NUM_CHUNK → fresh h (Z.of_nat j)
    ∧ ∀ id : Z * Z, fst id = Z.of_nat j → hm_disk h !! id = hd !! id) as Hrest1.
  { intros j Hj Hjm. destruct (Hrest j ltac:(lia) Hjm) as [Hf1 Hn1]. split.
    - unfold fresh. by rewrite Hchf by lia.
    - intros id Hid. rewrite Hdf by lia. by apply Hn1. }
  assert (∀ n, open_chunks Conf mc E b tree (Z.of_nat i) (S n) now r
    = if zlen front <=? first_split tree (Z.of_nat i) then open_chunks Conf mc E (with_hints b h) tree (Z.of_nat (S i)) n now r1
      else '(t, res) ← update_splits Conf E (bk_htree b) (Z.of_nat i) (first_split tree (Z.of_nat i)) 0 front (hm_maxDumpedHintID h);
           match res with
           | inr e => Some (inr e, r1)
           | inl id => open_chunks Conf mc E (with_hints (with_htree b t) (hm_with_dumped h id)) tree (Z.of_nat (S i)) n now r1
           end) as Hopen.
  { intros n. cbn [open_chunks]. fold (first_split tree (Z.of_nat i)). rewrite Hst, Hck. cbn [mbind option_bind].
    rewrite Hc. cbn [mbind option_bind]. rewrite Htake, Hnum. by replace (Z.of_nat (S i)) with (Z.of_nat i + 1) by lia. }
  pose proof (opened_pass h) as Hpass.
  destruct (Z.leb_spec (zlen front) (first_split tree (Z.of_nat i))) as [Hz|Hz].
  - exists (with_hints b h), r1. split; [done|].
    split; cbn [with_hints bk_datas bk_htree bk_hints]; [done| |done|by exists G1, a1| |by rewrite Hcl1|done].
    + exists m. split; [done|]. cbn [take foldl]. rewrite take_ge in Htl; [done|]. rewrite chunk_places_length.
      destruct (decide (length (default [] (L !! i)) <= k)%nat) as [|Hlt]; [done|]. exfalso. specialize (Hskip ltac:(lia)).
      rewrite decide_False in Hnf by (intros He'; rewrite He' in Hlt; cbn in Hlt; lia). fold (chunk_files i) in Hnf.
      rewrite Hgs, length_app in Hnf. cbn [length] in Hnf. rewrite <- (Forall2_length _ _ _ Hff) in Hnf. unfold zlen in Hz. lia.
    + eapply (Hpass h tree i); try done; [lia|]. by destruct (Z.leb_spec (zlen front) (first_split tree (Z.of_nat i))); [|lia].
  - destruct (update_splits_spec front gfront Hff (bk_htree b) m (Z.of_nat i) (first_split tree (Z.of_nat i)) 0 (hm_maxDumpedHintID h))
      as (t' & id & m' & Hup & Hfr' & Hm' & Hpo & Hid); [done|done|done|lia|done|].
    exists (with_hints (with_htree b t') (hm_with_dumped h id)), r1. split.
    + intros n. rewrite Hopen, Hup. done.
    + split; cbn [with_hints with_htree bk_datas bk_htree bk_hints hm_with_dumped hm_with hm_collisions]; [done| |done| | |by rewrite Hcl1|done].
      * exists m'. split; [done|]. cbn [take foldl]. rewrite <- (place_recs_again P (chunk_places i) k).
        eapply tree_log_step; [done|apply chunk_pairs|]. by rewrite <- Hmap'.
      * exists G1, a1. split; [by destruct Hrep1|done].
      * eapply (Hpass _ tree i); try done; [lia|]. cbn [hm_with_dumped hm_with hm_maxDumpedHintID].
        destruct (Z.leb_spec (zlen front) (first_split tree (Z.of_nat i))); [lia|]. rewrite Hid; [f_equal; lia|].
        intros ->. change (zlen []) with 0 in Hz. lia.
Qed.

Lemma open_chunks_spec tree n : ∀ b i P now r,
  opened b tree i 0 P → (ck <= i)%nat → (∀ j : nat, (i <= j)%nat → first_split tree (Z.of_nat j) = 0) →
  Z.of_nat (i + n) <= MAX_NUM_CHUNK → now ≠ 0 → id_Chunk tree <= Z.of_nat ck →
  ∃ b' r', open_chunks Conf mc E b tree (Z.of_nat i) n now r = Some (inl b', r')
    ∧ opened b' tree (i + n) 0 (foldl place_rec P (log_places i n)).
Proof.
  induction n as [|n IH]; intros b i P now r Ho Hci Hsp Hn Hnow Htc; [exists b, r; by rewrite Nat.add_0_r|].
  destruct (opened_step b tree i 0 P now r Ho) as (b1 & r1 & Hs & Ho1); [done|lia|done|by rewrite Hsp|done| |].
  { rewrite Hsp by done. intros Hk. enough (0 < chunk_files i)%nat by lia. apply chunk_files_some; [done|].
    by destruct (default [] (L !! i)); [cbn in Hk; lia|]. }
  rewrite Hs. destruct (IH b1 (S i) _ now r1 Ho1) as (b2 & r2 & Hl & Ho2); [lia| |lia|done|done|].
  { intros j Hj. apply Hsp. lia. }
  exists b2, r2. split; [done|].
  replace (i + S n)%nat with (S i + n)%nat by lia. unfold log_places in *. cbn [seq mbind list_bind].
  change (list_bind _ ?f ?l) with (l ≫= f). by rewrite foldl_app.
Qed.

(** ** The bucket of a log *)

Lemma places_lookup chunkID recs0 recs : Forall2 log_pair recs0 recs → ∀ off k pos rec0,
  places chunkID off recs0 recs !! k = Some (pos, rec0) →
  ∃ rec, recs !! k = Some rec ∧ log_pair rec0 rec ∧ pos = mkPos chunkID (off + sizes (take k recs)).
Proof.
  induction 1 as [|rec0 rec recs0 recs Hp Hps IH]; intros off [|k] pos rec0' Hk; cbn [places lookup list_lookup] in Hk; try done.
  - injection Hk as <- <-. exists rec. cbn [take]. change (sizes []) with 0. by rewrite Z.add_0_r.
  - destruct (IH _ _ _ _ Hk) as (rec' & Hr & Hp' & ->). exists rec'. split; [done|]. split; [done|].
    cbn [take]. rewrite sizes_cons. f_equal. lia.
Qed.

Lemma log_places_held n x :
  x ∈ log_places 0 n → ∃ rec, log_pair x.2 rec ∧ holds (log_ghosts L) x.1 rec.
Proof.
  intros (i & [k Hk]%list_elem_of_lookup & _)%list_elem_of_bind. destruct x as [pos rec0].
  destruct (places_lookup _ _ _ (chunk_pairs i) _ _ _ _ Hk) as (rec & Hr & Hp & ->). exists rec. split; [done|].
  exists (log_ghost L i). split; [|left; exists k; by split].
  assert (i < length L)%nat as Hi by (apply lookup_lt_is_Some_1; by destruct (L !! i)).
  pose proof (lo_len _ _ Hlog). unfold zlen in *. cbn [fst ChunkID]. rewrite zget_nat. unfold log_ghosts.
  rewrite list_lookup_fmap, lookup_seq_lt by lia. done.
Qed.

Lemma place_recs_lookup l : ∀ P key x,
  foldl place_rec P l !! key = Some x → P !! key = Some x ∨ (x ∈ l ∧ r_Key x.2 = key).
Proof.
  induction l as [|y l IH]; intros P key x Hx; [by left|]. cbn [foldl] in Hx.
  apply IH in Hx as [Hx|[Hin Hk]]; [|right; split; [by right|done]]. unfold place_rec in Hx.
  apply lookup_insert_Some in Hx as [[<- <-]|[_ Hx]]; [right; split; [by left|done]|by left].
Qed.

Definition place_value (x : Position * Record_) : Record_ * Z := (x.2, Getvhash (p_Body (r_Payload x.2))).

Definition live_places (P : gmap bytes (Position * Record_)) : gmap bytes (Position * Record_) :=
  filter (λ kx, 0 < rec_ver kx.2.2) P.

Lemma place_recs_replay l : ∀ P A,
  A = place_value <$> live_places P → foldl replay_rec A (snd <$> l) = place_value <$> live_places (foldl place_rec P l).
Proof.
  induction l as [|x l IH]; intros P A ->; [done|]. cbn [fmap list_fmap foldl]. apply IH.
  unfold replay_rec, place_rec, live_places. destruct (Z.ltb_spec 0 (rec_ver x.2)).
  - rewrite map_filter_insert_True by done. by rewrite fmap_insert.
  - rewrite map_filter_insert_False, map_filter_delete by (cbn; lia). by rewrite fmap_delete.
Qed.

Lemma upto_concat {A} (l : list (list A)) n : (seq 0 n ≫= λ i, default [] (l !! i)) = mjoin (take n l).
Proof.
  induction n as [|n IH]; [done|]. rewrite seq_S, bind_app, IH. cbn [Nat.add mbind list_bind].
  rewrite app_nil_r. destruct (l !! n) as [x|] eqn:Hx; cbn [from_option id].
  - rewrite (take_S_r _ _ x) by done. rewrite join_app. cbn [mjoin list_join]. by rewrite app_nil_r.
  - apply lookup_ge_None in Hx. by rewrite app_nil_r, !take_ge by lia.
Qed.

Lemma log_places_records n : (length L0 <= n)%nat → snd <$> log_places 0 n = mjoin L0.
Proof.
  intros Hn. rewrite <- (take_ge L0 n) by done. rewrite <- upto_concat. unfold log_places. clear Hn.
  assert (∀ i, snd <$> chunk_places i = default [] (L0 !! i)) as Hc.
  { intros i. unfold chunk_places. pose proof (chunk_pairs i) as Hps. revert Hps. generalize (default [] (L0 !! i)) (default [] (L !! i)) 0.
    intros recs0 recs off Hps. revert off. induction Hps as [|? ? ? ? ? ? IH]; intros off; [done|]. cbn [places fmap list_fmap snd]. by f_equal. }
  induction (seq 0 n) as [|i js IH]; [done|]. cbn [mbind list_bind]. change (list_bind _ ?f ?l) with (l ≫= f).
  by rewrite fmap_app, IH, Hc.
Qed.

(** The contents of a bucket whose tree is [m]. *)
Definition tree_contents (m : gmap Z HTreeItem) (P : gmap bytes (Position * Record_)) : gmap bytes (Record_ * Z) :=
  map_imap (λ key x, (λ it, (x.2, Vhash it)) <$> m !! hash_of key) P.

Lemma tree_contents_live m P :
  tree_log m P → (∀ key, is_Some (P !! key) → K key) → live (tree_contents m P) = place_value <$> live_places P.
Proof.
  intros [Hk _] HP. apply map_eq. intros key. rewrite live_lookup, lookup_fmap. unfold tree_contents, live_places.
  rewrite map_lookup_imap, map_lookup_filter. destruct (P !! key) as [x|] eqn:Hx; [|done]. cbn [mbind option_bind].
  specialize (Hk key (HP key ltac:(by eexists))). rewrite Hx in Hk. unfold live_item in Hk.
  destruct (Z.ltb_spec 0 (rec_ver x.2)) as [Hv|Hv]; case_guard; cbn in *; try lia.
  - destruct Hk as [->|[? _]]; [|lia]. cbn. by destruct (Z.ltb_spec 0 (rec_ver x.2)); [|lia].
  - destruct Hk as [->|[_ [vh ->]]]; [done|]. cbn. by destruct (Z.ltb_spec 0 (rec_ver x.2)); [lia|].
Qed.

Lemma opened_inv b tree n :
  opened b tree n 0 (foldl place_rec ∅ (log_places 0 n)) → (length L0 <= n)%nat →
  ∃ A m G a, bkt_inv Conf mc E K b None A m (log_ghosts L) G a ∧ live A = replay (mjoin L0)
    ∧ (∀ key, is_Some (A !! key) → key ∈ r_Key <$> mjoin L0) ∧ tree_log m (foldl place_rec ∅ (log_places 0 n))
    ∧ ∀ j, (ck <= j < n)%nat →
        hints_built (bk_hints b) G (Z.of_nat j) (log_items 0 (default [] (L0 !! j)) (default [] (L !! j))) 0.
Proof.
  intros [Hst (m & Hm & Htl) Hfr (G & a & Hrep & Hkn & Hblt) _ Hcl _] Hn. set (P := foldl place_rec ∅ (log_places 0 n)) in *.
  assert (tree_log m P) as Htl' by exact Htl. pose proof Htl' as [Hk Ho]. clear Htl. exists (tree_contents m P), m, G, a.
  assert (∀ key x, P !! key = Some x → r_Key x.2 = key ∧ ∃ rec', log_pair x.2 rec' ∧ holds (log_ghosts L) x.1 rec') as Hlook.
  { intros key x [HP|[Hin Hkey]]%place_recs_lookup; [done|]. split; [done|]. by apply (log_places_held n). }
  assert (∀ key x, P !! key = Some x → K key) as HKP.
  { intros key x (<- & rec' & Hp & _)%Hlook. apply Hp. }
  split; [|split; [|split; [|by split]]].
  3:{ intros key [x Hx]. unfold tree_contents in Hx. rewrite map_lookup_imap in Hx. destruct (P !! key) as [y|] eqn:HP; [|done].
      apply place_recs_lookup in HP as [HP|[Hin <-]]; [done|]. rewrite <- (log_places_records n Hn), <- list_fmap_compose.
      by apply (list_elem_of_fmap_2 (r_Key ∘ snd)). }
  2:{ rewrite tree_contents_live by (done || by intros key [x Hx]; eapply HKP). symmetry. unfold replay.
      rewrite <- (log_places_records n Hn). by apply place_recs_replay. }
  assert (∀ key rec vh, tree_contents m P !! key = Some (rec, vh) → ∃ pos, P !! key = Some (pos, rec)
    ∧ m !! hash_of key = Some (mkHTreeItem 0 pos (rec_ver rec) vh)) as Hitem.
  { intros key rec vh HA. unfold tree_contents in HA. rewrite map_lookup_imap in HA. destruct (P !! key) as [[pos rec0]|] eqn:HP; [|done].
    cbn [mbind option_bind] in HA. destruct (m !! hash_of key) as [it|] eqn:Hmk; [|done]. injection HA as <- <-. exists pos.
    split; [done|]. specialize (Hk key (HKP _ _ HP)). rewrite HP, Hmk in Hk. destruct Hk as [Hl|[_ [vh [= ->]]]]; [|done].
    unfold live_item in Hl. by destruct (0 <? _); [injection Hl as ->|]. }
  split; [done| | | |done|done|done| | |].
  - rewrite Hst. apply store_of_inv; [done|done|apply He].
  - unfold log_ghosts, zlen. rewrite length_fmap, length_seq. apply Z2Nat.id. unfold MAX_NUM_CHUNK. lia.
  - apply (all_owned_frame Conf mc E K t0); [done|]. intros i g [-> _]%upto_lookup. split; [|done]. cbn [log_ghost g_recs].
    pose proof (chunk_pairs i) as Hps. induction Hps; constructor; [by eexists|done].
  - intros key rec vh (pos & HP & _)%Hitem. split; [by eapply HKP|]. by apply Hlook in HP as [? _].
  - intros key rec vh (pos & HP & Hmk)%Hitem. destruct (Hlook _ _ HP) as (_ & rec' & Hp & Hh). exists pos, rec, rec'.
    split; [done|]. split; [apply Hp|]. split; [apply Hp|]. split; [done|by repeat split].
  - intros kh it Hm'. destruct (Ho kh ltac:(by eexists)) as (key & HK & <-). exists key. split; [done|].
    specialize (Hk key HK). destruct (P !! key) as [x|] eqn:HP; [|congruence]. unfold tree_contents.
    rewrite map_lookup_imap, HP. cbn [mbind option_bind]. rewrite Hm'. by eexists.
Qed.

Lemma with_datas_id b : with_datas b (bk_datas b) = b.
Proof. by destruct b. Qed.

(** Dumping the tree leaves the bucket alone: there is a newer one, or it is the
    only one afterwards. *)
Lemma dumpHtree_keeps o A m gs G a :
  bkt_inv Conf mc E K (op_bkt o) None A m gs G a → bucket_ok Conf (bk_htree (op_bkt o)) →
  let id := hm_maxDumpedHintID (bk_hints (op_bkt o)) in
  ∃ o', dumpHtree Conf o = Some o' ∧ bkt_inv Conf mc E K (op_bkt o') None A m gs G a
    ∧ same_frame (bk_htree (op_bkt o)) (bk_htree (op_bkt o'))
    ∧ bk_hints (op_bkt o') = bk_hints (op_bkt o) ∧ bk_datas (op_bkt o') = bk_datas (op_bkt o)
    ∧ (o' = o ∧ ¬ hid_le (op_TreeID o) id
       ∨ op_TreeID o' = id ∧ ∃ t f, dump Conf (bk_htree (op_bkt o)) = Some (t, f) ∧ op_trees o' = {[(id_Chunk id, id_Split id) := f]}).
Proof.
  intros Hi Hbk id. unfold dumpHtree. fold id. destruct (isLarger _ _ _) eqn:Hl.
  2:{ exists o. do 5 (split; [done|]). left. split; [done|]. intros Hle. apply not_true_iff_false in Hl. apply Hl, isLarger_le.
      by destruct id. }
  destruct (dump_spec Conf _ m (bi_tree _ _ _ _ _ _ _ _ _ _ _ Hi) Hbk) as (t1 & nsd & Hd & Hm1 & Hf & _).
  cbn [removeHtree op_bkt]. rewrite Hd. cbn [mbind option_bind]. eexists. split; [done|]. cbn [op_bkt with_htree bk_htree bk_hints bk_datas].
  split; [|split; [apply (uf_frame _ _ _ Hf)|split; [done|split; [done|]]]].
  - destruct Hi as [H1 H2 H3 H3' H4 H4' H5 H6 H7 H8]. split; try done.
    eapply all_owned_frame; [apply (uf_frame _ _ _ Hf)|done].
  - right. split; [done|]. by eexists _, _.
Qed.

Lemma new_fresh mergeChan hds md (j : nat) :
  Z.of_nat j < MAX_NUM_CHUNK → zget (hm_chunks (newHintMgr mergeChan hds md)) (Z.of_nat j) = Some (newHintChunk (Z.of_nat j)).
Proof.
  intros Hj. cbn [newHintMgr hm_chunks]. rewrite zget_nat, list_lookup_fmap.
  assert (seqZ 0 MAX_NUM_CHUNK !! j = Some (0 + Z.of_nat j)) as -> by (apply lookup_seqZ_lt; lia). done.
Qed.

(** The tree [open] starts from: none when the directory has no tree, one beyond
    the data or one that does not load; else the tree of all chunks before [ck] and
    of the first [k] records of [ck]: all of them, or at least those in the hint
    files up to its split. *)
Inductive tree_found (trees : gmap (Z * Z) bytes) : HintID → nat → Prop :=
  | no_tree : ck = 0%nat → trees = ∅ → tree_found trees (mkHintID 0 (-1)) 0
  | stale_tree c sp f : ck = 0%nat → trees = {[(c, sp) := f]} → log_head L <= c → tree_found trees (mkHintID 0 (-1)) 0
  | broken_tree c sp f t : ck = 0%nat → trees = {[(c, sp) := f]} → 0 <= c → 0 <= sp → load Conf (heap E) t0 f = Some (t, false) →
      tree_found trees (mkHintID 0 (-1)) 0
  | good_tree sp f k t m : trees = {[(Z.of_nat ck, sp) := f]} → Z.of_nat ck < log_head L → 0 <= sp →
      load Conf (heap E) t0 f = Some (t, true) → same_frame t0 t → models Conf t m →
      tree_log m (foldl place_rec ∅ (log_places 0 ck ++ take k (chunk_places ck))) →
      ((k < length (default [] (L !! ck)))%nat → sp < zlen (idxs ck) ∧ (zlen (idxs ck) = sp + 1 → (ns ck <= k)%nat)) →
      tree_found trees (mkHintID (Z.of_nat ck) sp) k.

Lemma tree_paths c sp (f : bytes) : rev (hint_paths {[(c, sp) := f]}) = [((c, sp), f)].
Proof. unfold hint_paths. by rewrite map_to_list_singleton. Qed.

Lemma load_trees_spec bucketID trees id k :
  newHTree (TreeDepth Conf) bucketID (TreeHeight Conf) = Some t0 → models Conf t0 ∅ → tree_found trees id k →
  ∃ t m trees', load_trees Conf E (rev (hint_paths trees)) bucketID (log_head L - 1) t0 (mkHintID 0 (-1)) trees = Some (t, id, trees')
    ∧ same_frame t0 t ∧ models Conf t m ∧ tree_log m (foldl place_rec ∅ (log_places 0 ck ++ take k (chunk_places ck)))
    ∧ (log_head L = 0 → trees' = ∅).
Proof.
  intros Ht Hm0 Hfd.
  assert (ck = 0%nat → tree_log ∅ (foldl place_rec ∅ (log_places 0 ck ++ take 0 (chunk_places ck)))) as Hnone.
  { intros ->. cbn [log_places seq mbind list_bind take app foldl]. split; [by intros key _; rewrite !lookup_empty|].
    by intros kh [x Hx]. }
  assert (same_frame t0 t0) as Hrefl by done.
  inversion Hfd as [Hck Htr|c sp f Hck Htr Hc|c sp f t Hck Htr Hc Hsp Hl|sp f k' t m Htr Hc Hsp Hl Hfr Hm Htl _]; subst trees id k;
    rewrite ?tree_paths; cbn [load_trees].
  - exists t0, ∅, ∅. split; [reflexivity|]. split; [exact Hrefl|]. split; [exact Hm0|]. by split; [exact (Hnone Hck)|].
  - destruct (Z.ltb_spec (log_head L - 1) c); [|lia]. eexists t0, ∅, _. split; [reflexivity|]. split; [exact Hrefl|].
    split; [exact Hm0|]. split; [exact (Hnone Hck)|]. intros _. apply delete_singleton_eq.
  - destruct (Z.ltb_spec (log_head L - 1) c).
    { eexists t0, ∅, _. split; [reflexivity|]. split; [exact Hrefl|]. split; [exact Hm0|]. split; [exact (Hnone Hck)|].
      intros _. apply delete_singleton_eq. }
    assert (isLarger (mkHintID 0 (-1)) c sp = true) as ->.
    { unfold isLarger. cbn [id_Chunk id_Split]. apply orb_true_iff. rewrite andb_true_iff. lia. }
    rewrite Hl. cbn [mbind option_bind]. rewrite Ht. cbn [mbind option_bind].
    eexists t0, ∅, _. split; [reflexivity|]. split; [exact Hrefl|]. split; [exact Hm0|]. split; [exact (Hnone Hck)|]. lia.
  - destruct (Z.ltb_spec (log_head L - 1) (Z.of_nat ck)); [lia|].
    assert (isLarger (mkHintID 0 (-1)) (Z.of_nat ck) sp = true) as ->.
    { unfold isLarger. cbn [id_Chunk id_Split]. apply orb_true_iff. rewrite andb_true_iff. lia. }
    rewrite Hl. cbn [mbind option_bind]. eexists t, m, _. do 4 (split; [done|]). lia.
Qed.

(** All chunks from the one the tree stops in. *)
Lemma open_all b id k trees now r :
  tree_found trees id k → opened b id ck k (foldl place_rec ∅ (log_places 0 ck)) → now ≠ 0 →
  ∃ b' r', open_chunks Conf mc E b id (id_Chunk id) (Z.to_nat (MAX_NUM_CHUNK - id_Chunk id)) now r = Some (inl b', r')
    ∧ opened b' id (Z.to_nat MAX_NUM_CHUNK) 0 (foldl place_rec ∅ (log_places 0 (Z.to_nat MAX_NUM_CHUNK))).
Proof.
  intros Hfd Ho Hnow. pose proof (lo_len _ _ Hlog) as Hlen. unfold zlen in Hlen. rewrite <- (Forall2_length _ _ _ Hpairs) in Hlen.
  assert (∀ i n, foldl place_rec (foldl place_rec ∅ (log_places 0 i)) (log_places i n) = foldl place_rec ∅ (log_places 0 (i + n))) as Hjoin.
  { intros i n. rewrite <- foldl_app. f_equal. unfold log_places. by rewrite seq_app, bind_app. }
  assert (id = mkHintID 0 (-1) ∧ ck = 0%nat ∧ k = 0%nat ∨ ∃ sp, id = mkHintID (Z.of_nat ck) sp ∧ 0 <= sp ∧ Z.of_nat ck < log_head L
    ∧ ((k < length (default [] (L !! ck)))%nat → sp < zlen (idxs ck) ∧ (zlen (idxs ck) = sp + 1 → (ns ck <= k)%nat)))
    as [(-> & Hck & ->)|(sp & -> & Hsp & Hc & Hcov)] by (destruct Hfd; [by left..|right; by exists sp]).
  - remember (Z.to_nat (MAX_NUM_CHUNK - id_Chunk (mkHintID 0 (-1)))) as n eqn:Hne.
    assert (Z.to_nat MAX_NUM_CHUNK = n) as HnZ by (rewrite Hne; cbn [id_Chunk]; unfold MAX_NUM_CHUNK; lia). clear Hne.
    destruct (open_chunks_spec (mkHintID 0 (-1)) n b ck _ now r Ho) as (b' & r' & Hop & Ho'); [done| |lia|done|cbn; lia|].
    { intros j _. unfold first_split. by destruct (_ =? _). }
    rewrite Hck in Hop. change (Z.of_nat 0) with 0 in Hop. cbn [id_Chunk]. rewrite Hop. exists b', r'. split; [done|].
    rewrite Hjoin, Hck in Ho'. rewrite HnZ. exact Ho'.
  - destruct (log_head_range mc L Hlog) as [Hh _]. pose proof (lo_len _ _ Hlog) as Hlen'. cbn [id_Chunk].
    remember (Z.to_nat (MAX_NUM_CHUNK - Z.of_nat ck - 1)) as n eqn:Hne.
    assert (Z.to_nat MAX_NUM_CHUNK = S ck + n)%nat as HnZ by lia.
    replace (Z.to_nat (MAX_NUM_CHUNK - Z.of_nat ck)) with (S n) by lia. rewrite HnZ. clear Hne.
    set (id := mkHintID (Z.of_nat ck) sp) in *.
    assert (first_split id (Z.of_nat ck) = sp + 1) as Hfs by (unfold first_split; cbn [id id_Chunk id_Split]; by rewrite Z.eqb_refl).
    destruct (opened_step b id ck k _ now r Ho) as (b1 & r1 & Hs & Ho1); [done|lia|done|lia|done| |].
    { intros Hk. rewrite Hfs. destruct (Hcov Hk) as [Hsl Heq].
      unfold chunk_files, files_after, zlen in *. destruct (Nat.ltb_spec (ns ck) (length (default [] (L !! ck)))); lia. }
    rewrite Hs. destruct (open_chunks_spec id n b1 (S ck) _ now r1 Ho1) as (b' & r' & Hop & Ho'); [lia| |lia|done|done|].
    { intros j Hj. unfold first_split. cbn [id id_Chunk]. by destruct (Z.eqb_spec (Z.of_nat j) (Z.of_nat ck)); [lia|]. }
    exists b', r'. split; [exact Hop|].
    rewrite <- Hjoin. replace (S ck) with (ck + 1)%nat at 2 by lia. rewrite <- (Hjoin ck 1%nat).
    unfold log_places at 2. cbn [seq mbind list_bind]. by rewrite app_nil_r.
Qed.

(** What is known of the tree and the hints of a bucket that was opened. *)
Record started (o : OpenBucket) (m : gmap Z HTreeItem) (G : layers) : Prop := {
  sd_datas : bk_datas (op_bkt o) = store_of L disk (log_head L) 0;
  sd_tree : tree_log m (foldl place_rec ∅ (log_places 0 (Z.to_nat MAX_NUM_CHUNK)));
  sd_hints j : (ck <= j < Z.to_nat MAX_NUM_CHUNK)%nat →
    hints_built (bk_hints (op_bkt o)) G (Z.of_nat j) (log_items 0 (default [] (L0 !! j)) (default [] (L !! j))) 0;
  sd_disk : disk_inv Conf (bk_hints (op_bkt o)) (op_TreeID o) (Z.of_nat ck) MAX_NUM_CHUNK MAX_NUM_CHUNK in_log (log_reach L);
  sd_none : log_head L = 0 → op_trees o = ∅
}.

Lemma first_disk_inv h trees id k :
  tree_found trees id k → hm_maxDumpedHintID h = id → hm_chunks h = hm_chunks (newHintMgr false ∅ ∅) →
  disk_inv Conf h id (Z.of_nat ck) (Z.of_nat ck) (Z.of_nat ck) in_log (log_reach L).
Proof.
  intros Hfd Hid Hch. split; [lia|lia|by rewrite Hid| |lia]. rewrite Hid.
  assert (ck = 0%nat → id = mkHintID 0 (-1) → Z.of_nat ck = 0 ∧ id = mkHintID 0 (-1) ∧ ∀ i c j, i < Z.of_nat ck →
    zget (hm_chunks h) i = Some c → file_of_split (hc_splits c) j = None) as Hn.
  { intros -> ->. split; [done|]. split; [done|]. intros i c j Hi Hz. apply zget_Some in Hz as [? _]. lia. }
  destruct Hfd as [Hck _|c sp f Hck _ _|c sp f t Hck _ _ _ _|sp f k t m _ Hc Hsp _ _ _ _ _]; [left; by apply Hn..|right].
  cbn [id_Chunk id_Split]. split; [done|]. split; [done|]. exists (log_head L - 1). split; [lia|].
  destruct (log_head_range mc L Hlog) as [Hh _]. split; [lia|]. apply log_head_used. lia.
Qed.

Lemma bkt_reopen_spec bucketID dir ct mergeChan id k now r :
  newHTree (TreeDepth Conf) bucketID (TreeHeight Conf) = Some t0 → conf_for Conf (TreeDepth Conf) (TreeHeight Conf) →
  TreeDepth Conf <= 2 → 0 <= bucketID < 16 ^ TreeDepth Conf → now ≠ 0 →
  bd_data dir = disk → bd_hints dir = hd → tree_found (bd_trees dir) id k → ct_Items ct = ∅ →
  ∃ o r' A m G a, bkt_open Conf mc E bucketID dir ct mergeChan now r = Some (inl o, r')
    ∧ bkt_inv Conf mc E K (op_bkt o) None A m (log_ghosts L) G a ∧ live A = replay (mjoin L0)
    ∧ (∀ key, is_Some (A !! key) → key ∈ r_Key <$> mjoin L0) ∧ same_frame t0 (bk_htree (op_bkt o)) ∧ started o m G.
Proof.
  intros Ht Hconf Hd2 Hbid Hnow Hdisk Hhints Htrees Hct. unfold bkt_open. rewrite Ht, Hdisk, Hhints.
  cbn [mbind option_bind]. rewrite (ListFiles_new mc disk L Hfiles Hlog).
  destruct (load_trees_spec bucketID (bd_trees dir) id k Ht ltac:(by eapply newHTree_models) Htrees)
    as (t & m0 & trees & -> & Hf0 & Hm0 & Htl & Hnotree).
  cbn [mbind option_bind]. set (b0 := mkBucket _ _ _ _ _ _).
  assert (opened b0 id ck k (foldl place_rec ∅ (log_places 0 ck))) as Ho0.
  { rewrite foldl_app in Htl. split; cbn [b0 bk_datas bk_htree bk_hints]; [done|by exists m0|done| | |done|].
    - destruct (newHintMgr_rep Conf mergeChan hd (bd_merged dir)) as [H1 H2 H3 H4 H5 H6]. eexists _, (∅, 0).
      split; [by split|]. split; [|lia]. apply Forall_replicate. by repeat constructor.
    - by eapply first_disk_inv.
    - intros j _ Hj. split; [by apply new_fresh|done]. }
  destruct (open_all b0 id k (bd_trees dir) now r Htrees Ho0 Hnow) as (b & r1 & -> & Ho). cbn [mbind option_bind].
  assert (length L0 <= Z.to_nat MAX_NUM_CHUNK)%nat as Hn.
  { pose proof (lo_len _ _ Hlog) as Hlen. unfold zlen in Hlen. rewrite (Forall2_length _ _ _ Hpairs). lia. }
  destruct (opened_inv b id _ Ho Hn) as (A & m & G & a & Hi & Hlive & Hkeys & Htl1 & Hblt).
  pose proof (od_store _ _ _ _ _ Ho) as Hst. pose proof (od_frame _ _ _ _ _ Ho) as (Hfd & Hfb & Hfn).
  pose proof (od_disk _ _ _ _ _ Ho) as Hdi. rewrite Z2Nat.id in Hdi by (by vm_compute).
  unfold checkForDump. cbn [op_bkt]. rewrite Hst, (ListFiles_again mc disk L 0 Hfiles Hlog), <- Hst, with_datas_id.
  cbn [op_with op_trees op_TreeID op_NextGCChunk op_gcfile]. set (todump := (if log_head L - 1 <? 0 then _ else _) : bool).
  set (o := mkOpen _ _ _ _ _). change (op_with o b) with o.
  assert (∃ o', (if todump then dumpHtree Conf o else Some o) = Some o'
    ∧ bkt_inv Conf mc E K (op_bkt o') None A m (log_ghosts L) G a
    ∧ same_frame t0 (bk_htree (op_bkt o')) ∧ started o' m G) as (o' & -> & Hi' & Hf' & Hsd).
  { destruct todump eqn:Htd; 
    [|refine (ex_intro _ o (conj eq_refl (conj Hi (conj (conj Hfd (conj Hfb Hfn)) _)))); by split;
      [exact Hst|exact Htl1|exact Hblt|exact Hdi|exact Hnotree]]. destruct (dumpHtree_keeps o _ _ _ _ _ Hi) as (o' & Hd & Hi' & Hf' & Hh' & Hds' & Hres).
    - destruct (newHTree_frame _ _ _ _ Ht) as (Ed & Eb & En & _). unfold bucket_ok. cbn [o op_bkt].
      rewrite Hfd, Hfb, Hfn, Ed, Eb, En. clear - Hconf Hbid Hd2 Hdepth. split_and!; done || lia.
    - exists o'. split; [exact Hd|]. split; [exact Hi'|]. destruct Hf' as (F1 & F2 & F3). cbn [o op_bkt] in F1, F2, F3, Hh', Hds'.
      split; [repeat split; congruence|]. split; rewrite ?Hh', ?Hds'; [exact Hst|exact Htl1|exact Hblt| |].
      + destruct Hres as [[-> _]|[-> _]]; [exact Hdi|]. destruct Hdi as [D1 D2 D3 D4 D5].
        exact (Build_disk_inv _ _ _ _ _ _ _ _ D1 D2 (reflexivity _) D4 D5).
      + intros Hz. unfold todump in Htd. rewrite Hz in Htd. discriminate Htd. }
  cbn [mbind option_bind]. eexists (loadGCHistroy o'), r1, A, m, G, a. split; [done|].
  assert (op_bkt (loadGCHistroy o') = op_bkt o' ∧ op_TreeID (loadGCHistroy o') = op_TreeID o' ∧ op_trees (loadGCHistroy o') = op_trees o')
    as (E1 & E2 & E3) by (unfold loadGCHistroy; by repeat case_match).
  rewrite E1. do 4 (split; [done|]). destruct Hsd as [S1 S2 S3 S4 S5]. by split; rewrite ?E1, ?E2, ?E3.
Qed.

End Log.

(** The hint files and the tree of a directory over the log [L] of the records
    [L0]: what a crash may leave. *)
Definition dir_ok (L0 L : list (list Record_)) (dir : BucketDir) : Prop :=
  ∃ idxs ns ck id k, hints_found L0 L (bd_hints dir) idxs ns ck ∧ tree_found L0 L idxs ns ck (bd_trees dir) id k.

(** Data files only. *)
Lemma no_index_ok L0 L dir : bd_hints dir = ∅ → bd_trees dir = ∅ → dir_ok L0 L dir.
Proof.
  intros Hh Ht. exists (λ _, []), (λ _, 0%nat), 0%nat, (mkHintID 0 (-1)), 0%nat. rewrite Hh. split; [|by constructor].
  intros j _ _. split; [split; [done|by intros [|]|by intros f; rewrite lookup_empty]|lia|done|].
  exists []. split; [done|]. split; [done|]. by split; [|destruct (default [] (L0 !! j))].
Qed.

Lemma bkt_open_spec disk L0 L bucketID dir ct mergeChan now r :
  files_hold disk L → log_ok mc L → Forall2 (Forall2 log_pair) L0 L → 0 <= TreeDepth Conf <= 16 →
  newHTree (TreeDepth Conf) bucketID (TreeHeight Conf) = Some t0 → conf_for Conf (TreeDepth Conf) (TreeHeight Conf) →
  TreeDepth Conf <= 2 → 0 <= bucketID < 16 ^ TreeDepth Conf → now ≠ 0 →
  bd_data dir = disk → dir_ok L0 L dir → ct_Items ct = ∅ →
  ∃ o r' A m G a, bkt_open Conf mc E bucketID dir ct mergeChan now r = Some (inl o, r')
    ∧ bkt_inv Conf mc E K (op_bkt o) None A m (log_ghosts L) G a ∧ live A = replay (mjoin L0)
    ∧ (∀ key, is_Some (A !! key) → key ∈ r_Key <$> mjoin L0) ∧ same_frame t0 (bk_htree (op_bkt o))
    ∧ ∃ ck, started disk L0 L ck o m G.
Proof.
  intros Hf Hl Hp Hd Ht Hconf Hd2 Hbid Hnow Hdisk (idxs & ns & ck & id & k & Hh & Htr) Hct.
  destruct (bkt_reopen_spec disk L0 L Hf Hl Hp Hd (bd_hints dir) idxs ns ck Hh bucketID dir ct mergeChan id k now r)
    as (o & r' & A & m & G & a & H1 & H2 & H3 & H4 & H5 & H6); try done.
  exists o, r', A, m, G, a. do 5 (split; [done|]). by exists ck.
Qed.

End Recover.
