(* ===== verification/BucketOpenProps.v ===== *)
(** * Properties of opening a bucket *)

From stdpp Require Import gmap.
From S2P Require Import Prelude Hashing Strconv Config Cmem Key Item Fixtures Leaf HTree HTreeSpec HTreeMerkle HTreeProps.
From S2P Require Import DataFile Data DataSpec DataLog HintFile Hint HintSpec HintProps HintMerge Bucket BucketSpec.
From S2P Require Import BucketProps BucketOpen BucketOpenSpec HintReload BucketRecover HTreeDisk.

Section Props.
Context (Conf : HStoreConfig) (mc : MCConfig) (E : Ext) (K : bytes → Prop).


End Props.

(** ** A log of two chunks *)

Definition log_rec (k body : bytes) (ver : Z) : Record_ :=
  mkRecord k (mkPayload (mkMeta 1000 0 ver 0 0) (mkCArray body 0 (zlen body))).
Definition demo_log : list (list Record_) :=
  [[log_rec (bstr "hello") (bstr "world") 1; log_rec (bstr "hits") (bstr "7") 1];
   [log_rec (bstr "hello") (bstr "there") 2; log_rec (bstr "hits") [] (-2)]].
Definition demo_dir : BucketDir :=
  mkDir {[0 := file_of (nth 0 demo_log []); 1 := file_of (nth 1 demo_log [])]} ∅ ∅ ∅ None.

Lemma demo_log_files : files_hold (bd_data demo_dir) demo_log.
Proof.
  intros i. unfold demo_dir. cbn [bd_data]. destruct (decide (i = 0)) as [->|H0]; [done|]. destruct (decide (i = 1)) as [->|H1]; [done|].
  rewrite lookup_insert_ne, lookup_singleton_ne by lia. unfold zget. destruct (Z.ltb_spec i 0); [done|].
  destruct (Z.to_nat i) as [|[|n]] eqn:Hn; [lia|lia|done].
Qed.

Lemma demo_log_pairs :
  Forall2 (Forall2 (log_pair demo_conf DefaultMCConfig demo_ext demo_keys bucket_tree)) demo_log demo_log.
Proof.
  assert (∀ k body ver, demo_keys k → append_okb demo_conf DefaultMCConfig (log_rec k body ver) = true →
    log_pair demo_conf DefaultMCConfig demo_ext demo_keys bucket_tree (log_rec k body ver) (log_rec k body ver)) as Hp.
  { intros k body ver Hk Ha. split; [by apply append_okb_ok|apply packed_refl|done|].
    destruct Hk as [->| ->]; by split; vm_compute. }
  repeat first [apply Forall2_nil_2|apply Forall2_cons_2|apply Hp];
    first [by vm_compute|left; reflexivity|right; reflexivity].
Qed.

Lemma demo_log_ok : log_ok DefaultMCConfig demo_log.
Proof.
  split; [|repeat first [apply Forall_nil_2|apply Forall_cons_2]; by vm_compute|by vm_compute].
  repeat first [apply Forall_nil_2|apply Forall_cons_2]; apply (ao_ok demo_conf), append_okb_ok; by vm_compute.
Qed.

Lemma demo_hello : replay (mjoin demo_log) !! ki_Key (bucket_key (bstr "hello"))
  = Some (log_rec (bstr "hello") (bstr "there") 2, Getvhash (bstr "there")).
Proof. by vm_compute. Qed.
Lemma demo_hits : replay (mjoin demo_log) !! ki_Key (bucket_key (bstr "hits")) = None.
Proof. by vm_compute. Qed.

(** ** The same log after a crash

    The hints of chunk 0 are gone and no longer needed, those of chunk 1 have its
    first record, a broken file follows, and the tree was dumped before the second
    record of chunk 1. *)

Definition demo_it (c : nat) (off : Z) (k : nat) : HintItem :=
  log_item demo_ext off (nth k (nth c demo_log []) (log_rec [] [] 0)).
Definition demo_buffer : HintBuffer :=
  match hb_Set demo_conf NewHintBuffer (demo_it 1 0 0) 256 with Some (_, b) => b | None => NewHintBuffer end.
Definition demo_hint_bytes : bytes := match hb_Dump demo_conf demo_buffer with Some d => hx_file d | None => [] end.
Definition old_items : list (Z * HintItem) := [(0, demo_it 0 0 0); (0, demo_it 0 256 1); (1, demo_it 1 0 0)].
Definition old_tree : option HTree :=
  foldl (λ ot x, t ← ot; tree_update demo_conf demo_ext t x.1 x.2) (Some bucket_tree) old_items.
Definition demo_tree_file : bytes := match old_tree ≫= dump demo_conf with Some (_, f) => f | None => [] end.
Definition crash_dir : BucketDir :=
  mkDir (bd_data demo_dir) {[(1, 0) := demo_hint_bytes; (1, 1) := [0; 1; 2]]} ∅ {[(1, 0) := demo_tree_file]} None.

Lemma demo_it_hint c off k recs rec :
  demo_log !! c = Some recs → recs !! k = Some rec → is_u32 off → off mod 256 = 0 →
  log_hint demo_ext demo_keys bucket_tree (demo_it c off k).
Proof.
  intros Hc Hk Hu Ha. unfold demo_it. rewrite (nth_lookup_Some _ _ _ _ Hc), (nth_lookup_Some _ _ _ _ Hk).
  eapply log_item_hint; [exact demo_env| |done|done].
  destruct (Forall2_lookup_l _ _ _ _ _ demo_log_pairs Hc) as (recs' & Hc' & Hps). simplify_eq.
  destruct (Forall2_lookup_l _ _ _ _ _ Hps Hk) as (rec' & Hk' & Hp). by simplify_eq.
Qed.

Lemma demo_it_10 : log_hint demo_ext demo_keys bucket_tree (demo_it 1 0 0).
Proof. by eapply (demo_it_hint 1 0 0); [reflexivity|reflexivity|..]. Qed.

Lemma demo_hint_loads : ∃ idx, loadHintIndex demo_hint_bytes = Some (inl idx) ∧ hx_file idx = demo_hint_bytes
  ∧ file_holds idx [demo_it 1 0 0] ∧ datasize (hx_meta idx) = 256.
Proof.
  destruct (hb_Set_spec demo_conf NewHintBuffer (demo_it 1 0 0) 256 (NewHintBuffer_ok demo_conf)) as (ok & b & Hs & Hr).
  assert (demo_buffer = b) as <- by (unfold demo_buffer; by rewrite Hs).
  assert (hb_items demo_buffer = [demo_it 1 0 0]) as <- by (by vm_compute).
  assert (hb_maxoffset demo_buffer = 256) as <- by (by vm_compute).
  assert (hb_Dump demo_conf demo_buffer = Some (mkHintIndex [] demo_hint_bytes (mkHintMeta 1 0 256))) as Hd by (by vm_compute).
  apply (hb_Dump_loads demo_conf demo_buffer (mkHintIndex [] demo_hint_bytes (mkHintMeta 1 0 256))); [apply Hr| |exact Hd].
  apply Hr; [apply (lh_ok _ _ _ _ demo_it_10)|by vm_compute|by split; [apply Forall_nil| |cbn; width]].
Qed.


Lemma demo_hints_found idx :
  loadHintIndex demo_hint_bytes = Some (inl idx) → hx_file idx = demo_hint_bytes → file_holds idx [demo_it 1 0 0] →
  datasize (hx_meta idx) = 256 →
  hints_found demo_ext demo_keys bucket_tree demo_log demo_log (bd_hints crash_dir) (λ _, [idx]) (λ _, 1%nat) 1.
Proof.
  intros Hl Hf Hh Hd j Hj Hne. destruct j as [|[|j]]; [lia| |done]. split.
  - split; [apply Forall_singleton; by rewrite Hf| |].
    + intros [|j] x Hx; [|done]. injection Hx as <-. by rewrite Hf.
    + intros f Hx. change (bd_hints crash_dir !! (Z.of_nat 1, zlen [idx])) with (Some [0; 1; 2]) in Hx. injection Hx as <-. cbn. lia.
  - cbn. lia.
  - cbn. rewrite Hd. by vm_compute.
  - exists [[demo_it 1 0 0]]. split; [by constructor|]. split; [by repeat constructor|]. split; [|done].
    apply Forall_singleton, Forall_singleton. exact demo_it_10.
Qed.

Definition old_map : gmap Z HTreeItem := foldl (λ m x, tree_put x.1 m x.2) ∅ old_items.

Lemma demo_tree_ok : bucket_ok demo_conf bucket_tree ∧ models demo_conf bucket_tree ∅ ∧ 0 <= TreeDepth demo_conf <= 16
  ∧ newHTree (ht_depth bucket_tree) (ht_bucketID bucket_tree) (nlevels bucket_tree) = Some bucket_tree.
Proof.
  split_and!; [by vm_compute..| | | |]; [|by vm_compute..]. apply (newHTree_models demo_conf bucket_tree 1 4 3); by vm_compute.
Qed.

Lemma demo_leafs_small : forallb (λ l : bytes, zlen l <? 2 ^ 32) (from_option leafs [] old_tree) = true.
Proof. by vm_compute. Qed.

Lemma tree_updates_spec t m its :
  same_frame bucket_tree t → models demo_conf t m →
  Forall (λ x : Z * HintItem, 0 <= x.1 < MAX_NUM_CHUNK ∧ log_hint demo_ext demo_keys bucket_tree x.2) its →
  ∃ t', foldl (λ ot x, t ← ot; tree_update demo_conf demo_ext t x.1 x.2) (Some t) its = Some t'
    ∧ models demo_conf t' (foldl (λ m x, tree_put x.1 m x.2) m its) ∧ same_frame bucket_tree t'.
Proof.
  destruct demo_tree_ok as (_ & _ & Hd & _). intros Hf Hm Hall. revert t m Hf Hm.
  induction Hall as [|[c it] its [Hc Hit] _ IH]; intros t m Hf Hm; [by exists t|].
  destruct (tree_update_spec demo_conf demo_ext demo_keys bucket_tree t m c it Hf Hm Hit Hc Hd) as (t1 & H1 & Hf1 & Hm1).
  cbn [foldl fst snd mbind option_bind]. rewrite H1. by apply IH.
Qed.

Lemma old_tree_models : ∃ t, old_tree = Some t ∧ models demo_conf t old_map ∧ same_frame bucket_tree t.
Proof.
  destruct (tree_updates_spec bucket_tree ∅ old_items) as (t & Ht & Hm & Hf);
    [exact (conj eq_refl (conj eq_refl eq_refl))|apply demo_tree_ok| |exact (ex_intro _ t (conj Ht (conj Hm Hf)))].
  repeat apply Forall_cons_2; [..|apply Forall_nil_2]; (split; [unfold MAX_NUM_CHUNK; cbn [fst]; lia|]).
  - by eapply (demo_it_hint 0 0 0); [reflexivity|reflexivity|..].
  - by eapply (demo_it_hint 0 256 1); [reflexivity|reflexivity|..].
  - exact demo_it_10.
Qed.

(** The tree file is that of the records of chunk 0 and the first of chunk 1. *)
Lemma old_tree_loads : ∃ t, load demo_conf (heap demo_ext) bucket_tree demo_tree_file = Some (t, true)
  ∧ same_frame bucket_tree t ∧ models demo_conf t old_map.
Proof.
  destruct old_tree_models as (t & Ht & Hm & Hd0 & Hb0 & Hn0).
  destruct demo_tree_ok as (Hbk & _ & _ & Hnew).
  destruct (dump_loads demo_conf (heap demo_ext) t old_map bucket_tree Hm) as (t1 & f & t2 & Hdump & _ & Hl & Hm2 & Hf2).
  - unfold bucket_ok. rewrite Hd0, Hb0, Hn0. exact Hbk.
  - pose proof demo_leafs_small as Hall. rewrite Ht in Hall. cbn [from_option] in Hall. apply Forall_forall.
    intros leaf Hin%list_elem_of_In. rewrite forallb_forall in Hall. apply Z.ltb_lt, Hall, Hin.
  - rewrite Hd0, Hb0, Hn0. exact Hnew.
  - exists t2. assert (demo_tree_file = f) as ->; [|exact (conj Hl (conj Hf2 Hm2))].
    unfold demo_tree_file. rewrite Ht. cbn [mbind option_bind]. rewrite Hdump. reflexivity.
Qed.

Lemma old_tree_log : tree_log demo_ext demo_keys old_map
  (foldl place_rec ∅ (log_places demo_log demo_log 0 1 ++ take 1 (chunk_places demo_log demo_log 1))).
Proof.
  split.
  - intros key [->| ->]; vm_compute; left; reflexivity.
  - intros kh Hkh. unfold old_map, old_items in Hkh. cbn [foldl fst snd] in Hkh. rewrite !tree_put_lookup in Hkh.
    assert (∀ c off k, demo_keys (hi_Key (demo_it c off k)) → Keyhash (hi_meta (demo_it c off k)) = kh →
      ∃ key, demo_keys key ∧ getKeyHash demo_ext key = kh) as Hit by (intros c off k Hk <-; eexists; split; [exact Hk|reflexivity]).
    destruct (decide _) as [H1|_] in Hkh; [apply (Hit 1%nat 0 0%nat); [left; reflexivity|exact H1]|].
    destruct (decide _) as [H2|_] in Hkh; [apply (Hit 0%nat 256 1%nat); [right; reflexivity|exact H2]|].
    destruct Hkh as [x Hx]. rewrite lookup_empty in Hx. discriminate Hx.
Qed.

Lemma demo_conf_fits : conf_for demo_conf (TreeDepth demo_conf) (TreeHeight demo_conf) ∧ TreeDepth demo_conf <= 2
  ∧ newHTree (TreeDepth demo_conf) 4 (TreeHeight demo_conf) = Some bucket_tree ∧ 0 <= 4 < 16 ^ TreeDepth demo_conf
  ∧ Z.of_nat 1 < log_head demo_log.
Proof. split_and!; by vm_compute. Qed.

Lemma crash_dir_ok : dir_ok demo_conf demo_ext demo_keys bucket_tree demo_log demo_log crash_dir.
Proof.
  destruct demo_conf_fits as (_ & _ & _ & _ & Hc5).
  destruct demo_hint_loads as (idx & Hx1 & Hx2 & Hx3 & Hx4). destruct old_tree_loads as (t & Ht1 & Ht2 & Ht3).
  exists (λ _, [idx]), (λ _, 1%nat), 1%nat, (mkHintID 1 0), 1%nat. split; [exact (demo_hints_found idx Hx1 Hx2 Hx3 Hx4)|].
  apply (good_tree demo_conf demo_ext demo_keys bucket_tree demo_log demo_log (λ _, [idx]) (λ _, 1%nat) 1
    (bd_trees crash_dir) 0 demo_tree_file 1 t old_map);
    [reflexivity|exact Hc5|lia|exact Ht1|exact Ht2|exact Ht3|exact old_tree_log|]. intros _. split; [reflexivity|intros _; lia].
Qed.


(** ** A hint file that is cut off behind its header *)

Definition cut_hint_dir : BucketDir := mkDir (bd_data demo_dir) {[(1, 0) := take 30 demo_hint_bytes]} ∅ ∅ None.
Example cut_hint_panics :
  loadHintIndex (take 30 demo_hint_bytes) = None
  ∧ bkt_open demo_conf DefaultMCConfig demo_ext 4 cut_hint_dir newCollisionTable false 1000 ResetAll = None.
Proof. split; vm_compute; reflexivity. Qed.
