(* ===== verification/Session.v ===== *)
(** * A session of a bucket

    From opening a bucket to closing it: requests, the two halves of flushes and
    the dumps of the hints, in any order. What is in the write buffers and the hint
    buffers is related to the log all the way, so that closing writes the directory
    that the next opening recovers. *)

From stdpp Require Import gmap.
From S2P Require Import Prelude Hashing Strconv Config Cmem Key Item Fixtures Leaf HTree HTreeSpec HTreeMerkle.
From S2P Require Import HTreeProps HTreeDisk DataFile Data DataSpec DataLog HintFile Hint HintSpec HintProps HintMerge.
From S2P Require Import Bucket BucketSpec BucketOpen BucketOpenSpec HintReload HintDisk BucketRecover.

Section Data.
Context (Conf : HStoreConfig) (mc : MCConfig) (E : Ext).

(** ** The write buffers and the data files *)

(** The size of all records that are not flushed. *)
Definition buffered_size (gs : list ghost) : Z := zsum (unflushed <$> gs).

(** The counter of the buffered bytes, which decides whether a flush does anything;
    the files are those of chunks with records. *)
Record data_sess (ds : dataStore) (gs : list ghost) (todo : option (Z * nat * Z)) : Prop := {
  dn_count : ds_wbufSize ds = u32 (buffered_size gs);
  dn_todo : match todo with
    | Some (c, n, fl) => ∃ g, zget gs c = Some g ∧ fl = u32 (sizes (take n (drop (g_drop g) (g_recs g))))
    | None => True
    end;
  dn_files i : is_Some (ds_disk ds !! i) → ∃ g, zget gs i = Some g ∧ g_recs g ≠ [];
  dn_head : (∀ i g, gs !! i = Some g → drop (g_drop g) (g_recs g) = [])
    ∨ ∃ g, zget gs (ds_newHead ds) = Some g ∧ g_recs g ≠ []
}.

Lemma store_ghost ds gs todo c g :
  store_inv Conf mc ds gs todo → zget gs c = Some g →
  ∃ dc, zget (ds_chunks ds) c = Some dc ∧ chunk_inv mc dc (ds_disk ds) g ∧ g_done g = (g_drop g + in_flight todo (Z.to_nat c))%nat.
Proof.
  intros Hs [Hc Hg]%zget_Some. destruct (lookup_lt_is_Some_2 (ds_chunks ds) (Z.to_nat c)) as [dc Hdc].
  { rewrite (si_len _ _ _ _ _ Hs). by eapply lookup_lt_Some. }
  destruct (si_chunks _ _ _ _ _ Hs _ _ _ Hdc Hg) as (_ & Hi & Hd). exists dc. split; [by apply zget_Some|]. done.
Qed.

Lemma buffered_insert gs c g g' :
  zget gs c = Some g → buffered_size (<[Z.to_nat c := g']> gs) = buffered_size gs - unflushed g + unflushed g'.
Proof.
  intros [_ Hg]%zget_Some. unfold buffered_size. rewrite list_fmap_insert. apply zsum_insert. by rewrite list_lookup_fmap, Hg.
Qed.

Lemma u32_add_l a b : u32 (u32 a + b) = u32 (a + b).
Proof. unfold u32. apply Zplus_mod_idemp_l. Qed.
Lemma u32_sub a b : u32 (u32 a - u32 b) = u32 (a - b).
Proof. unfold u32. by rewrite <- Zminus_mod. Qed.

(** Chunks keep their records. *)
Lemma used_insert gs c g g' i h :
  zget gs c = Some g → (g_recs g ≠ [] → g_recs g' ≠ []) → zget gs i = Some h → g_recs h ≠ [] →
  ∃ h', zget (<[Z.to_nat c := g']> gs) i = Some h' ∧ g_recs h' ≠ [].
Proof.
  intros Hg Hk Hi Hne. destruct (decide (i = c)) as [->|Hic].
  - exists g'. split; [by eapply zget_insert|]. apply Hk. congruence.
  - exists h. rewrite zget_insert_ne; [done| |done]. by apply zget_Some in Hg as [? _].
Qed.

Lemma data_append ds gs todo x r ds' pos rec' :
  store_inv Conf mc ds gs todo → data_sess ds gs todo → append_at Conf mc E ds gs x r ds' pos rec' →
  data_sess ds' (append_ghost gs (ChunkID pos) rec') todo.
Proof.
  intros Hs [Hcnt Htodo Hfl Hhd] Ha. destruct (aa_off _ _ _ _ _ _ _ _ _ _ Ha) as (g & Hg & _).
  pose proof (proj1 (zget_Some _ _ _) Hg) as [H0 Hg']. unfold append_ghost. rewrite Hg'. set (g' := mkGhost _ _ _ _ _).
  assert (∀ c h, zget gs c = Some h → (g_drop h <= length (g_recs h))%nat) as Hord.
  { intros c h Hh. destruct (store_ghost ds gs todo c h Hs Hh) as (dc & _ & Hi & _). pose proof (ci_order _ _ _ _ Hi). lia. }
  assert (unflushed g' = unflushed g + rec_Size rec') as Hun.
  { unfold unflushed. cbn [g' g_drop g_recs]. rewrite drop_app_le by (by eapply Hord). rewrite sizes_app.
    change (sizes [rec']) with (rec_Size rec' + 0). lia. }
  assert (g_recs g' ≠ []) as Hne by (cbn [g' g_recs]; by destruct (g_recs g)).
  split.
  - rewrite (aa_size _ _ _ _ _ _ _ _ _ _ Ha), Hcnt, u32_add_l, (buffered_insert _ _ _ _ Hg), Hun. f_equal. lia.
  - destruct todo as [[[c n] fl]|]; [|done]. destruct Htodo as (h & Hh & ->). pose proof (proj1 (zget_Some _ _ _) Hh) as [Hc0 Hh'].
    destruct (decide (c = ChunkID pos)) as [->|Hne'].
    + rewrite Hg in Hh. injection Hh as <-. exists g'. split; [by eapply zget_insert|]. cbn [g' g_drop g_recs].
      rewrite drop_app_le by (by eapply Hord). rewrite take_app_le; [done|]. rewrite length_drop.
      destruct (store_ghost ds gs _ _ g Hs Hg) as (dc & _ & Hi & Hd). pose proof (ci_order _ _ _ _ Hi). cbn [in_flight] in Hd.
      rewrite Z2Nat.id, Z.eqb_refl in Hd by done. lia.
    + exists h. by rewrite zget_insert_ne.
  - intros i Hi. rewrite (aa_disk _ _ _ _ _ _ _ _ _ _ Ha) in Hi. destruct (Hfl i Hi) as (h & Hh & Hr). by eapply used_insert.
  - right. rewrite (aa_head _ _ _ _ _ _ _ _ _ _ Ha). exists g'. split; [by eapply zget_insert|done].
Qed.

Lemma due_head ds gs todo force now :
  data_sess ds gs todo → flush_due Conf ds force now = true → ∃ g, zget gs (ds_newHead ds) = Some g ∧ g_recs g ≠ [].
Proof.
  intros [Hcnt _ _ Hhead] Hdue. destruct Hhead as [Hall|]; [|done]. exfalso. unfold flush_due in Hdue.
  assert (buffered_size gs = 0) as Hz; [|by rewrite Hcnt, Hz in Hdue]. clear -Hall. unfold buffered_size.
  induction gs as [|g gs IH]; [done|]. rewrite fmap_cons, zsum_cons, IH; [|intros i h; by apply (Hall (S i))].
  unfold unflushed. by rewrite (Hall 0%nat g).
Qed.

Lemma data_flush_begin ds gs chunk force now ds' gs' todo :
  data_sess ds gs None → flush_begun Conf ds gs chunk force now ds' gs' todo → ds_newHead ds' = ds_newHead ds →
  (0 <= chunk → ∃ g, zget gs chunk = Some g ∧ g_recs g ≠ []) → data_sess ds' gs' todo.
Proof.
  intros Hd [(-> & -> & -> & _)|(c & g & Hc & Hg & Hdue & -> & -> & Hw & _ & Hdk)] Hhd Hch; [done|].
  pose proof (due_head _ _ _ _ _ Hd Hdue) as (hh & Hhh & Hused). destruct Hd as [Hcnt _ Hfl Hhead]. set (g' := mkGhost _ _ _ _ _).
  assert (g_recs g ≠ []) as Hne.
  { destruct (Z.ltb_spec chunk 0); subst c; [|destruct (Hch ltac:(done)) as (h & Hh & ?)]; congruence. }
  assert (buffered_size (<[Z.to_nat c := g']> gs) = buffered_size gs) as Hbs.
  { rewrite (buffered_insert _ _ _ _ Hg). unfold unflushed. cbn [g' g_drop g_recs]. lia. }
  split.
  - by rewrite Hw, Hbs.
  - exists g'. split; [by eapply zget_insert|]. cbn [g' g_drop g_recs]. by rewrite take_ge.
  - intros i Hi. destruct (decide (i = c)) as [->|Hic].
    + exists g'. split; [by eapply zget_insert|done].
    + rewrite Hdk in Hi by done. destruct (Hfl i Hi) as (h & Hh & Hr). by eapply used_insert.
  - right. rewrite Hhd. by eapply used_insert.
Qed.

Lemma data_flush_end ds gs todo ds' gs' :
  data_sess ds gs todo → flush_ended ds gs todo ds' gs' → ds_newHead ds' = ds_newHead ds → data_sess ds' gs' None.
Proof.
  intros Hd He Hhd. destruct todo as [[[c n] fl]|]; [|destruct He as [-> ->]; done].
  destruct He as (g & Hg & -> & Hw & Hdk). destruct Hd as [Hcnt (g0 & Hg0 & ->) Hfl Hhead]. rewrite Hg in Hg0. injection Hg0 as <-.
  set (g' := mkGhost _ _ _ _ _).
  assert (unflushed g = sizes (take n (drop (g_drop g) (g_recs g))) + unflushed g') as Hun.
  { unfold unflushed. cbn [g' g_drop g_recs]. by rewrite <- drop_drop, <- sizes_app, take_drop. }
  split.
  - rewrite Hw, Hcnt, u32_sub, (buffered_insert _ _ _ _ Hg). f_equal. lia.
  - done.
  - intros i Hi. rewrite Hdk in Hi. destruct (Hfl i Hi) as (h & Hh & Hr). by eapply used_insert.
  - rewrite Hhd. destruct Hhead as [Hall|(h & Hh & Hr)]; [left|right].
    + intros i h [(<- & <- & _)|[_ Hh]]%list_lookup_insert_Some; [|by eapply Hall]. cbn [g' g_drop g_recs].
      apply zget_Some in Hg as [_ Hg]. by rewrite <- drop_drop, (Hall _ _ Hg), drop_nil.
    + by eapply used_insert.
Qed.

End Data.

Section Hints.
Context (Conf : HStoreConfig) (mc : MCConfig) (E : Ext) (K : bytes → Prop).
Context (He : env_ok Conf mc E K) (t0 : HTree).
Notation log_pair := (log_pair Conf mc E K t0).
Notation log_hint := (log_hint E K t0).

(** ** The hints *)

(** The records of a chunk, and a record more. *)
Definition rows (R : list (list Record_)) (i : Z) : list Record_ := default [] (R !! Z.to_nat i).
Definition put_row (R : list (list Record_)) (i : Z) (rec : Record_) : list (list Record_) :=
  <[Z.to_nat i := rows R i ++ [rec]]> R.

Lemma rows_put R i rec j :
  0 <= i < zlen R → 0 <= j → rows (put_row R i rec) j = if decide (j = i) then rows R i ++ [rec] else rows R j.
Proof.
  intros Hi Hj. unfold rows at 1, put_row. destruct (decide (j = i)) as [->|Hne].
  - rewrite list_lookup_insert_eq by (unfold zlen in Hi; lia). done.
  - rewrite list_lookup_insert_ne by lia. done.
Qed.

(** The hints of a chunk are those of its records; those of a chunk that nothing
    was set in are all in files. *)
Definition chunk_hints (h : hintMgr) (G : layers) (i : Z) (recs0 recs : list Record_) : Prop :=
  ∃ c gl, zget (hm_chunks h) i = Some c ∧ G !! Z.to_nat i = Some gl ∧ tidy c gl ∧ Forall (Forall log_hint) gl
    ∧ same_entries (chunk_map gl) (put_items ∅ (log_items E 0 recs0 recs)) ∧ (hm_maxChunkID h < i → dumped c gl).

Record hint_sess (tree : HintID) (H0 : Z) (R0 L : list (list Record_)) (h : hintMgr) (G : layers) : Prop := {
  hs_rep : ∃ a, mgr_rep Conf h G a;
  hs_known : all_known E K G;
  hs_coll : ct_Items (hm_collisions h) = ∅;
  hs_chunks i : H0 <= i < MAX_NUM_CHUNK → chunk_hints h G i (rows R0 i) (rows L i);
  hs_disk : disk_inv Conf h tree H0 MAX_NUM_CHUNK MAX_NUM_CHUNK (in_log L) (log_reach L)
}.

Lemma chunk_hints_frame i j h G h' G' recs0 recs :
  chunk_frame i (h, G) (h', G') → 0 <= i → 0 <= j → j ≠ i → chunk_hints h G j recs0 recs → chunk_hints h' G' j recs0 recs.
Proof.
  intros [_ Hc Hl _ Hm] Hi Hj Hne (c & gl & H1 & H2 & H3 & H4 & H5 & H6). cbn [fst snd] in *.
  exists c, gl. rewrite Hc, Hl by (done || lia). do 5 (split; [done|]). intros Hlt. apply H6. lia.
Qed.

(** Two items that leave the same in the tree. *)
Lemma same_entries_insert h h' k it it' :
  same_entries h h' → (∀ c, tree_entry c it = tree_entry c it') → same_entries (<[k := it]> h) (<[k := it']> h').
Proof.
  intros Hs Ht c k'. destruct (decide (k = k')) as [<-|Hne].
  - rewrite !lookup_insert_eq. cbn. by rewrite Ht.
  - rewrite !lookup_insert_ne by done. apply Hs.
Qed.

(** An item is set for a record that was appended. *)
Lemma hint_sess_set tree H0 R0 L h G rec0 rec vh i now rot h' :
  hint_sess tree H0 R0 L h G → H0 <= i < MAX_NUM_CHUNK → 0 <= H0 → zlen R0 = MAX_NUM_CHUNK → zlen L = MAX_NUM_CHUNK →
  Forall2 log_pair (rows R0 i) (rows L i) → log_pair rec0 rec → sizes (rows L i) + rec_Size rec < 2 ^ 32 → now ≠ 0 →
  is_u16 vh → (0 < rec_ver rec0 → vh = Getvhash (p_Body (r_Payload rec0))) →
  hm_setItem Conf h (newHintItem (getKeyHash E (r_Key rec0)) (rec_ver rec0) vh (mkPos 0 (sizes (rows L i))) (r_Key rec0))
    i (rec_Size rec) now = Some (rot, h') →
  ∃ G', hint_sess tree H0 (put_row R0 i rec0) (put_row L i rec) h' G'.
Proof.
  intros [(a & Hrep) Hkn Hcl Hch Hdi] Hi Hi0 HR HL Hps Hp H32 Hnow Hvh Hval Hset. set (it := newHintItem _ _ _ _ _) in Hset.
  destruct (Hch i Hi) as (c & gl & Hc & Hg & Ht & Hall & Hsame & _).
  assert (Forall (rec_ok mc) (rows L i)) as Hok.
  { clear -Hps He. induction Hps as [|x y l k Hxy _ IH]; [done|]. apply Forall_cons. split; [by eapply log_pair_ok|done]. }
  pose proof (sizes_range mc _ Hok) as [Hs0 Hs1]. pose proof (rec_Size_range mc rec (log_pair_ok _ _ _ _ He t0 _ _ Hp)) as [Hr0 _].
  assert (log_hint (log_item E (sizes (rows L i)) rec0)) as Hit0 by (eapply log_item_hint; [done|done|unfold is_u32; lia|done]).
  assert (log_hint it) as Hit.
  { destruct Hit0 as [[K1 K2 K3 K4 K5 K6] K7 K8 K9 K10]. split; try done. }
  destruct (building_set Conf mc E K He t0 h G i gl it (rec_Size rec) now) as (rot' & h1 & G1 & gl1 & Hset' & Hb1 & Hm1 & Hf1 & _ & Hmx);
    [by exists a, c|lia|done|done|]. rewrite Hset in Hset'. injection Hset' as <- <-.
  destruct Hb1 as (a1 & c1 & Hrep1 & Hc1 & Hg1 & Ht1 & Hall1 & Hkn1).
  assert (∀ j, in_log L j → in_log (put_row L i rec) j) as Hin.
  { intros j [Hj Hne]. split; [done|]. change (rows (put_row L i rec) j ≠ []). rewrite rows_put by (done || lia).
    destruct (decide _); [by destruct (rows L i)|done]. }
  pose proof (cf_coll _ _ _ Hf1) as Hcc. cbn [fst] in Hcc.
  exists G1. split; [by exists a1|done|by rewrite Hcc| |].
  - intros j Hj. rewrite !rows_put by lia. destruct (decide (j = i)) as [->|Hne].
    + exists c1, gl1. do 4 (split; [done|]). split; [|lia]. rewrite Hm1, log_items_app by (by eapply Forall2_length).
      unfold put_items. rewrite foldl_app. cbn [log_items foldl]. rewrite Z.add_0_l. apply same_entries_insert; [done|].
      intros ch. unfold tree_entry. cbn. fold (rec_ver rec0). destruct (Z.ltb_spec 0 (rec_ver rec0)); [|done]. by rewrite Hval.
    + eapply chunk_hints_frame; [exact Hf1|lia|lia|done|]. by apply Hch.
  - apply (disk_inv_from Conf h' tree H0 _ _ _ (reach_upd (log_reach L) i (log_reach L i + rec_Size rec))).
    + intros j Hj. change (log_reach (put_row L i rec) j) with (sizes (rows (put_row L i rec) j)).
      rewrite rows_put by lia. unfold reach_upd. destruct (decide (j = i)) as [->|Hne]; [|done].
      rewrite sizes_app. change (sizes [rec]) with (rec_Size rec + 0). change (log_reach L i) with (sizes (rows L i)). lia.
    + eapply hm_setItem_inv; [..|exact Hset]; [apply He|apply Hit|by eapply disk_inv_weaken|lia|done|done|lia|done|].
      split; [lia|]. change (rows (put_row L i rec) i ≠ []). rewrite rows_put, decide_True by (done || lia). by destruct (rows L i).
Qed.

(** All hints of a chunk are in files. *)
Definition in_files (h : hintMgr) (G : layers) (i : Z) : Prop :=
  ∃ c gl, zget (hm_chunks h) i = Some c ∧ G !! Z.to_nat i = Some gl ∧ dumped c gl.

Lemma in_files_frame i j h G h' G' :
  chunk_frame i (h, G) (h', G') → 0 <= i → 0 <= j → j ≠ i → in_files h G j → in_files h' G' j.
Proof.
  intros [_ Hc Hl _ _] Hi Hj Hne (c & gl & H1 & H2 & H3). cbn [fst snd] in *. exists c, gl. by rewrite Hc, Hl by (done || lia).
Qed.

Lemma hint_sess_trydump tree H0 R0 L h G i dumplast now :
  hint_sess tree H0 R0 L h G → 0 <= H0 → 0 <= i < MAX_NUM_CHUNK →
  ∃ s h' G', trydump Conf h i dumplast now = Some (s, h') ∧ hint_sess tree H0 R0 L h' G'
    ∧ chunk_frame i (h, G) (h', G') ∧ hm_maxChunkID h' = hm_maxChunkID h ∧ (dumplast = true → H0 <= i → in_files h' G' i).
Proof.
  intros [(a & Hrep) Hkn Hcl Hch Hdi] H00 Hi. destruct (mgr_chunk Conf h G a i Hrep Hi) as (c & gl & Hc & Hg & _).
  destruct (hm_trydump_spec Conf h G a i dumplast now c gl Hrep Hi Hc Hg) as (s & h' & c' & gl' & Hd & Hrep' & Hchs & Hcl' & Ht' & Hgl').
  pose proof (lookup_lt_Some _ _ _ Hg) as Hlt. assert (hm_maxChunkID h' = hm_maxChunkID h) as Hmax.
  { by rewrite (mr_max _ _ _ _ Hrep), (mr_max _ _ _ _ Hrep'). }
  assert (chunk_frame i (h, G) (h', <[Z.to_nat i := gl']> G)) as Hf.
  { eapply frame_insert; [lia|by eapply trydump_disk|done|done|lia]. }
  assert (zget (hm_chunks h') i = Some c') as Hc' by (rewrite Hchs; by eapply zget_insert).
  assert (∀ P : HintItem → Prop, Forall (Forall P) gl → Forall (Forall P) gl') as HP.
  { intros P HP. destruct Hgl' as [->| ->]; [done|]. apply Forall_app. by repeat constructor. }
  assert (H0 <= i → chunk_hints h' (<[Z.to_nat i := gl']> G) i (rows R0 i) (rows L i) ∧ (dumplast = true → dumped c' gl')) as Hmine.
  { intros Hr. destruct (Hch i ltac:(lia)) as (c0 & gl0 & Hc0 & Hg0 & Ht & Hall & Hsame & Hlate).
    rewrite Hc in Hc0. rewrite Hg in Hg0. injection Hc0 as <-. injection Hg0 as <-. destruct (Ht' Ht) as [Htd Hdump].
    split; [|by intros ->; apply Hdump; left]. exists c', gl'. split; [done|]. split; [by apply list_lookup_insert_eq|]. split; [done|].
    split; [by apply HP|]. split.
    - destruct Hgl' as [->| ->]; [done|]. rewrite chunk_map_snoc. change (hint_map []) with (∅ : gmap (Z * bytes) HintItem).
      by rewrite map_empty_union.
    - rewrite Hmax. intros Hlt'. apply Hdump. right. destruct (Hlate Hlt') as (gf & -> & _). apply last_snoc. }
  exists s, h', (<[Z.to_nat i := gl']> G). split; [done|]. split; [|split; [done|split; [done|]]].
  - split; [by exists a| |by rewrite Hcl'| |eapply (trydump_inv Conf h tree H0 _ _ _ _ i); [exact Hdi|lia|exact Hd]].
    + apply Forall_insert; [done|]. apply HP. unfold all_known in Hkn. rewrite Forall_lookup in Hkn. by eapply Hkn.
    + intros j Hj. destruct (decide (j = i)) as [->|Hne]; [apply Hmine; lia|]. eapply chunk_hints_frame; [exact Hf|lia|lia|done|by apply Hch].
  - intros Hdl Hr. exists c', gl'. split; [done|]. split; [by apply list_lookup_insert_eq|]. by apply Hmine.
Qed.

(** The dumps of the background task. *)
Lemma hint_sess_dump_chunks tree H0 R0 L now n : ∀ h G i ms,
  hint_sess tree H0 R0 L h G → 0 <= H0 → 0 <= i → i + Z.of_nat n <= MAX_NUM_CHUNK →
  ∃ s h' G', dump_chunks Conf h i n now ms = Some (s, h') ∧ hint_sess tree H0 R0 L h' G'.
Proof.
  induction n as [|n IH]; intros h G i ms Hh H00 Hi Hn; [by exists ms, h, G|]. cbn [dump_chunks].
  destruct (hint_sess_trydump tree H0 R0 L h G i false now Hh H00) as (s & h1 & G1 & -> & Hh1 & _); [lia|]. cbn [mbind option_bind].
  apply (IH h1 G1); [done|done|lia|lia].
Qed.

Lemma hint_sess_state tree H0 R0 L h G st : hint_sess tree H0 R0 L h G → hint_sess tree H0 R0 L (hm_with_state h st) G.
Proof.
  intros [(a & [M1 M2 M3 M4 M5 M6]) H2 H3 H4 [D1 D2 D3 D4 D5]]. split; [exists a; by split|done|done|exact H4|by split].
Qed.

Lemma hint_sess_dump tree H0 R0 L h G forGC now :
  hint_sess tree H0 R0 L h G → 0 <= H0 → hm_maxDumpableChunkID h < MAX_NUM_CHUNK →
  ∃ s h' start G', dumpAndMerge Conf h forGC now = Some (s, h', start) ∧ hint_sess tree H0 R0 L h' G'.
Proof.
  intros Hh H00 Hmd. unfold dumpAndMerge. set (h0 := hm_with_state h _).
  set (max := if forGC then _ else hm_maxDumpableChunkID h0).
  assert (max < MAX_NUM_CHUNK) as Hmax by (unfold max; destruct forGC; [lia|exact Hmd]).
  destruct (hint_sess_dump_chunks tree H0 R0 L now (Z.to_nat (max + 1)) h0 G 0 0 (hint_sess_state _ _ _ _ _ _ _ Hh) H00) as (s & h1 & G1 & -> & Hh1);
    [lia|unfold MAX_NUM_CHUNK in *; lia|]. cbn [mbind option_bind].
  destruct (negb _); eexists s, _, _, G1; (split; [done|]; by apply hint_sess_state).
Qed.

(** Closing dumps all chunks that items were set in. *)
Lemma hint_sess_close_chunks tree H0 R0 L now n : ∀ h G i,
  hint_sess tree H0 R0 L h G → 0 <= H0 → 0 <= i → i + Z.of_nat n <= MAX_NUM_CHUNK → (∀ j, H0 <= j < i → in_files h G j) →
  ∃ h' G', close_chunks Conf h i n now = Some h' ∧ hint_sess tree H0 R0 L h' G' ∧ hm_maxChunkID h' = hm_maxChunkID h
    ∧ ∀ j, H0 <= j < i + Z.of_nat n → in_files h' G' j.
Proof.
  induction n as [|n IH]; intros h G i Hh H00 Hi Hn Hdone; cbn [close_chunks].
  { exists h, G. do 3 (split; [done|]). intros j Hj. apply Hdone. lia. }
  destruct (hint_sess_trydump tree H0 R0 L h G i true now Hh H00) as (s & h1 & G1 & -> & Hh1 & Hf & Hm & Hd); [lia|]. cbn [mbind option_bind].
  destruct (IH h1 G1 (i + 1) Hh1 H00) as (h2 & G2 & Hc & Hh2 & Hm2 & Hd2); [lia|lia| |].
  { intros j Hj. destruct (decide (j = i)) as [->|Hne]; [apply Hd; [done|lia]|]. eapply in_files_frame; [exact Hf|lia|lia|done|]. apply Hdone. lia. }
  exists h2, G2. split; [done|]. split; [done|]. split; [congruence|]. intros j Hj. apply Hd2. lia.
Qed.

Lemma hint_sess_close tree H0 R0 L h G now :
  hint_sess tree H0 R0 L h G → 0 <= H0 →
  ∃ h' G', hm_close Conf h now = Some h' ∧ hint_sess tree H0 R0 L h' G'
    ∧ ∀ j, H0 <= j < MAX_NUM_CHUNK → in_files h' G' j.
Proof.
  intros Hh H00. unfold hm_close. destruct (hs_rep _ _ _ _ _ _ Hh) as (a & Hrep).
  pose proof (mr_max _ _ _ _ Hrep) as Hmx. pose proof (mr_range _ _ _ _ Hrep) as Hrg.
  destruct (hint_sess_close_chunks tree H0 R0 L now (Z.to_nat (hm_maxChunkID h + 1)) h G 0 Hh H00) as (h' & G' & Hc & Hh' & Hm & Hd);
    [lia|lia|lia|]. exists h', G'. split; [done|]. split; [done|]. intros j Hj.
  destruct (decide (j <= hm_maxChunkID h)) as [|Hgt]; [apply Hd; lia|].
  destruct (hs_chunks _ _ _ _ _ _ Hh' j Hj) as (c & gl & H1 & H2 & _ & _ & _ & Hl). exists c, gl. split; [done|]. split; [done|]. apply Hl. lia.
Qed.

(** The files of a chunk load as what opening looks for. *)
Lemma reloaded front gfront :
  Forall2 split_file front gfront → Forall (split_ok Conf) front →
  ∃ idxs, Forall (λ idx, loadHintIndex (hx_file idx) = Some (inl idx)) idxs ∧ Forall2 file_holds idxs gfront
    ∧ (λ sp, hx_file <$> sp_file sp) <$> front = Some ∘ hx_file <$> idxs ∧ chunk_reach (file_split <$> idxs) = chunk_reach front.
Proof.
  induction 1 as [|sp items front gfront (idx & -> & Hfh) _ IH]; intros Hok; [by exists []|].
  apply Forall_cons in Hok as [Hsp Hok]. destruct (IH Hok) as (idxs & Hl & Hh & Hb & Hr).
  inversion Hsp as [|x (m & Hx & Hs) Heq]; subst x. exists (mkHintIndex (hx_index idx) (hx_file idx) m :: idxs).
  split; [by apply Forall_cons|]. split; [|split].
  - constructor; [|done]. destruct Hfh as [F1 F2 F3 F4 F5]. by split.
  - cbn [fmap list_fmap]. by rewrite Hb.
  - rewrite fmap_cons, !chunk_reach_cons, Hr.
    unfold split_reach, file_split. cbn [sp_file hx_meta]. by rewrite Hs.
Qed.

Lemma built_hints_for h i c gl recs0 recs :
  chunk_rep Conf c gl → dumped c gl → Forall (Forall log_hint) gl →
  same_entries (chunk_map gl) (put_items ∅ (log_items E 0 recs0 recs)) → chunk_disk Conf (hm_disk h) i (hc_splits c) (sizes recs) →
  Forall2 log_pair recs0 recs →
  ∃ idxs, hints_for E K t0 (hm_disk h) i recs0 recs idxs (length recs) ∧ length gl = S (length idxs).
Proof.
  intros Hcr Hd Hall Hsame [Hok Hfiles Hreach] Hps.
  destruct (dumped_files Conf c gl Hcr Hd) as (front & gfront & Htk & _ & -> & Hff).
  destruct (cr_last _ _ _ Hcr) as (fr & b & Hs). rewrite Hs in *.
  replace (Z.to_nat (zlen (fr ++ [mkSplit (Some b) None]) - 1)) with (length fr) in Htk by (rewrite zlen_app; unfold zlen; cbn [length]; lia).
  rewrite take_app_length in Htk. subst fr. apply Forall_app in Hok as [Hokf [Hokb _]%Forall_cons].
  pose proof (cr_holds _ _ _ Hcr) as Hh2. rewrite Hs in Hh2. apply Forall2_app_inv in Hh2 as [_ Hh2]; [|by eapply Forall2_length].
  assert (hb_items b = []) as Hb by (inversion_clear Hh2 as [|? ? ? ? Hb _]; by inversion Hb).
  assert (hb_maxoffset b = 0) as Hmo.
  { by inversion Hokb as [b0 _ Hfit [[_ ?]|[Hpos _]] Heq|]; subst. }
  destruct (reloaded front gfront Hff Hokf) as (idxs & Hl & Hfh & Hby & Hre).
  pose proof (f_equal length Hby) as Hlen. rewrite !length_fmap in Hlen.
  assert (∀ j : nat, split_bytes (front ++ [mkSplit (Some b) None]) (Z.of_nat j) = hx_file <$> idxs !! j) as Hsb.
  { intros j. unfold split_bytes. rewrite zget_nat. destruct (decide (j < length front)%nat) as [Hlt|Hge].
    - rewrite lookup_app_l by done. pose proof (f_equal (.!! j) Hby) as Hj. cbn in Hj. rewrite !list_lookup_fmap in Hj.
      destruct (front !! j) as [sp|] eqn:Hfj; [|by apply lookup_ge_None in Hfj; lia].
      destruct (idxs !! j) as [idx|] eqn:Hij; [|by apply lookup_ge_None in Hij; lia]. cbn in Hj |- *. by injection Hj.
    - rewrite lookup_app_r, (lookup_ge_None_2 idxs) by lia. by destruct (j - length front)%nat as [|[]]. }
  exists idxs. split; [|rewrite length_app, <- (Forall2_length _ _ _ Hfh); cbn [length]; lia]. split.
  - split; [done| |].
    + intros j idx Hj. by rewrite Hfiles, Hsb, Hj.
    + intros f Hf. unfold zlen in Hf. rewrite Hfiles, Hsb, lookup_ge_None_2 in Hf by done. done.
  - done.
  - rewrite take_ge, hint_reach_max, Hre by done. rewrite chunk_reach_app, chunk_reach_one in Hreach. cbn [split_reach sp_file sp_buf] in Hreach.
    pose proof (largest_nonneg (split_reach <$> front)) as Hnn.
    unfold chunk_reach in *. lia.
  - exists gfront. split; [done|]. destruct Hd as (gf & Hgf & Hne & _). apply app_inj_2 in Hgf as [<- _]; [|done]. split; [done|].
    apply Forall_app in Hall as [Hall _]. split; [done|]. rewrite !take_ge by (by rewrite ?(Forall2_length _ _ _ Hps)).
    intros ch k. specialize (Hsame ch k). rewrite chunk_map_snoc in Hsame. change (hint_map []) with (∅ : gmap (Z * bytes) HintItem) in Hsame.
    by rewrite map_empty_union in Hsame.
Qed.

Lemma files_hints_for tree H0 R0 L h G i :
  hint_sess tree H0 R0 L h G → 0 <= H0 → H0 <= i < MAX_NUM_CHUNK → in_files h G i → Forall2 log_pair (rows R0 i) (rows L i) →
  ∃ idxs, hints_for E K t0 (hm_disk h) i (rows R0 i) (rows L i) idxs (length (rows L i)).
Proof.
  intros Hh H00 Hi (c & gl & Hc & Hg & Hd) Hps. destruct (hs_chunks _ _ _ _ _ _ Hh i Hi) as (c1 & gl1 & Hc1 & Hg1 & _ & Hall & Hsame & _).
  rewrite Hc in Hc1. rewrite Hg in Hg1. injection Hc1 as <-. injection Hg1 as <-. destruct (hs_rep _ _ _ _ _ _ Hh) as (a & Hrep).
  destruct (mgr_chunk Conf h G a i Hrep ltac:(lia)) as (c1 & gl1 & Hc1 & Hg1 & Hcr & _).
  rewrite Hc in Hc1. rewrite Hg in Hg1. injection Hc1 as <-. injection Hg1 as <-.
  destruct (di_chunk _ _ _ _ _ _ _ _ (hs_disk _ _ _ _ _ _ Hh) i Hi) as (c1 & Hc1 & Hcd).
  rewrite Hc in Hc1. injection Hc1 as <-.
  destruct (built_hints_for h i c gl (rows R0 i) (rows L i)) as (idxs & Hx & _); try done. by exists idxs.
Qed.

End Hints.
