(* ===== verification/Restart.v ===== *)
(** * Closing a bucket and opening it again

    The steps of a session keep the log, the tree, the hints and the buffers
    together; closing then leaves a directory that the next opening recovers. *)

From stdpp Require Import gmap.
From S2P Require Import Prelude Hashing Strconv Config Cmem Key Item Fixtures Leaf HTree HTreeSpec HTreeMerkle.
From S2P Require Import HTreeProps HTreeDisk DataFile Data DataSpec DataLog HintFile Hint HintSpec HintProps HintMerge.
From S2P Require Import Bucket BucketSpec BucketOpen BucketOpenSpec HintReload HintDisk BucketRecover Session.

(** ** One record more at the end of a log *)

Lemma bind_empty {A} (f : nat → list A) l : (∀ j, j ∈ l → f j = []) → l ≫= f = [].
Proof.
  induction l as [|j l IH]; intros Hf; [done|]. rewrite bind_cons, Hf, IH; [done|intros k Hk; apply Hf; by right|by left].
Qed.

Lemma bind_same {A} (f g : nat → list A) l : (∀ j, j ∈ l → g j = f j) → l ≫= g = l ≫= f.
Proof.
  induction l as [|j l IH]; intros Hf; [done|]. rewrite !bind_cons, Hf, IH; [done|intros k Hk; apply Hf; by right|by left].
Qed.

Lemma bind_snoc {A} (f g : nat → list A) (i n : nat) x :
  (∀ j, j ≠ i → g j = f j) → g i = f i ++ [x] → (∀ j, (i < j)%nat → f j = []) → (i < n)%nat →
  (seq 0 n ≫= g) = (seq 0 n ≫= f) ++ [x].
Proof.
  intros Hne Hi Hafter Hn. replace n with (i + S (n - S i))%nat by lia. rewrite seq_app, !bind_app. cbn [seq]. rewrite Nat.add_0_l, !bind_cons, Hi.
  rewrite (bind_same f g (seq 0 i)) by (intros j Hj; apply elem_of_seq in Hj; apply Hne; lia).
  rewrite !(bind_empty _ (seq (S i) _)).
  - by rewrite !app_nil_r, app_assoc.
  - intros j Hj. apply elem_of_seq in Hj. apply Hafter. lia.
  - intros j Hj. apply elem_of_seq in Hj. rewrite Hne by lia. apply Hafter. lia.
Qed.

Lemma places_snoc chunkID rec0 rec recs0 : ∀ recs off, length recs0 = length recs →
  places chunkID off (recs0 ++ [rec0]) (recs ++ [rec]) = places chunkID off recs0 recs ++ [(mkPos chunkID (off + sizes recs), rec0)].
Proof.
  induction recs0 as [|x recs0 IH]; intros [|y recs] off Hl; try done; cbn [app places].
  - change (sizes []) with 0. by rewrite Z.add_0_r.
  - rewrite IH by (by injection Hl). rewrite sizes_cons, Z.add_assoc. done.
Qed.

Lemma mjoin_rows {A} (R : list (list A)) n : (length R <= n)%nat → mjoin R = seq 0 n ≫= λ i, default [] (R !! i).
Proof. intros Hn. by rewrite upto_concat, take_ge. Qed.

(** A log without records. *)
Lemma no_records_head (mc : MCConfig) (P : Record_ → Record_ → Prop) L0 L :
  log_ok mc L → Forall2 (Forall2 P) L0 L → mjoin L0 = [] → log_head L = 0.
Proof.
  intros Hl Hp Hnil. destruct (log_head_range mc L Hl) as [Hr _]. destruct (decide (0 < log_head L)) as [Hpos|]; [|lia].
  exfalso. apply (log_head_used L Hpos). generalize (Z.to_nat (log_head L - 1)). clear -Hp Hnil. revert Hnil.
  induction Hp as [|recs0 recs L0 L Hrow _ IH]; intros Hnil i; [done|]. apply app_eq_nil in Hnil as [-> Hnil].
  destruct i as [|i]; [by inversion Hrow|by apply IH].
Qed.

Lemma put_row_join R i rec n :
  (length R = n)%nat → 0 <= i < Z.of_nat n → (∀ j : nat, i < Z.of_nat j → default [] (R !! j) = []) →
  mjoin (put_row R i rec) = mjoin R ++ [rec].
Proof.
  intros Hl Hi Hafter. unfold put_row. rewrite (mjoin_rows R n), (mjoin_rows _ n) by (rewrite ?length_insert; lia).
  eapply (bind_snoc _ _ (Z.to_nat i)); [..|lia].
  - intros j Hj. by rewrite list_lookup_insert_ne by done.
  - by rewrite list_lookup_insert_eq by lia.
  - intros j Hj. apply Hafter. lia.
Qed.

Lemma put_row_places R0 L i rec0 rec n :
  (length R0 = n)%nat → (length L = n)%nat → 0 <= i < Z.of_nat n → length (rows R0 i) = length (rows L i) →
  (∀ j : nat, i < Z.of_nat j → default [] (L !! j) = []) →
  log_places (put_row R0 i rec0) (put_row L i rec) 0 n = log_places R0 L 0 n ++ [(mkPos i (sizes (rows L i)), rec0)].
Proof.
  intros Hl0 Hl Hi Hrows Hafter. unfold log_places, put_row. eapply (bind_snoc _ _ (Z.to_nat i)); [..|lia].
  - intros j Hj. unfold chunk_places. by rewrite !list_lookup_insert_ne by done.
  - unfold chunk_places. rewrite !list_lookup_insert_eq by lia. rewrite Z2Nat.id by lia. cbn [from_option id].
    rewrite places_snoc by done. by rewrite Z.add_0_l.
  - intros j Hj. unfold chunk_places. rewrite (Hafter j) by lia. by destruct (default [] (R0 !! j)).
Qed.

Lemma live_insert A key rec vh :
  r_Key rec = key → (0 < rec_ver rec → vh = Getvhash (p_Body (r_Payload rec))) → live (<[key := (rec, vh)]> A) = replay_rec (live A) rec.
Proof.
  intros <- Hvh. unfold replay_rec. apply map_eq. intros key. rewrite live_lookup.
  destruct (decide (r_Key rec = key)) as [<-|Hne].
  - rewrite lookup_insert_eq. cbn [fst]. destruct (Z.ltb_spec 0 (rec_ver rec)); [rewrite lookup_insert_eq, Hvh by done; done|by rewrite lookup_delete_eq].
  - rewrite lookup_insert_ne by done. destruct (0 <? rec_ver rec); [rewrite lookup_insert_ne by done|rewrite lookup_delete_ne by done]; by rewrite live_lookup.
Qed.

Section Restart.
Context (Conf : HStoreConfig) (mc : MCConfig) (E : Ext) (K : bytes → Prop).
Context (He : env_ok Conf mc E K) (t0 : HTree).
Notation log_pair := (log_pair Conf mc E K t0).
Notation contents := (gmap bytes (Record_ * Z)).

(** ** The invariant of a session *)

(** [R0] are the records of the log as they were set, [gs] has them as they are
    stored; the session began with the records [old] and the tree [tree] of chunk
    [H0]. *)
Record session (old : list Record_) (tree : HintID) (H0 : Z) (R0 : list (list Record_)) (s : bkt_state) (A : contents)
    (m : gmap Z HTreeItem) (gs : list ghost) : Prop := {
  ss_inv : ∃ G a, bkt_inv Conf mc E K (bs_bkt s) (bs_todo s) A m gs G a;
  ss_frame : same_frame t0 (bk_htree (bs_bkt s));
  ss_log : Forall2 (λ recs0 g, Forall2 log_pair recs0 (g_recs g) ∧ plain g) R0 gs;
  ss_live : live A = replay (mjoin R0);
  ss_tree : tree_log E K m (foldl place_rec ∅ (log_places R0 (g_recs <$> gs) 0 (Z.to_nat MAX_NUM_CHUNK)));
  ss_hints : ∃ G, hint_sess Conf E K t0 tree H0 R0 (g_recs <$> gs) (bk_hints (bs_bkt s)) G;
  ss_data : data_sess (bk_datas (bs_bkt s)) gs (bs_todo s);
  ss_head : 0 <= H0 <= ds_newHead (bk_datas (bs_bkt s));
  ss_old : old `prefix_of` mjoin R0
}.

Lemma session_pairs old tree H0 R0 s A m gs i :
  session old tree H0 R0 s A m gs → Forall2 log_pair (rows R0 i) (rows (g_recs <$> gs) i).
Proof.
  intros Hs. unfold rows. rewrite list_lookup_fmap. pose proof (ss_log _ _ _ _ _ _ _ _ Hs) as Hl.
  destruct (R0 !! Z.to_nat i) as [recs0|] eqn:H0'.
  - by destruct (Forall2_lookup_l _ _ _ _ _ Hl H0') as (g & -> & Hp & _).
  - apply lookup_ge_None in H0'. rewrite (Forall2_length _ _ _ Hl) in H0'. by rewrite lookup_ge_None_2.
Qed.

Lemma session_len old tree H0 R0 s A m gs :
  session old tree H0 R0 s A m gs → zlen gs = MAX_NUM_CHUNK ∧ zlen R0 = MAX_NUM_CHUNK ∧ zlen (g_recs <$> gs) = MAX_NUM_CHUNK.
Proof.
  intros Hs. destruct (ss_inv _ _ _ _ _ _ _ _ Hs) as (G & a & Hi). pose proof (bi_len _ _ _ _ _ _ _ _ _ _ _ Hi) as Hl.
  unfold zlen in *. rewrite length_fmap, (Forall2_length _ _ _ (ss_log _ _ _ _ _ _ _ _ Hs)). done.
Qed.

(** The chunks beyond the head have no records. *)
Lemma store_above ds gs todo (j : nat) :
  store_inv Conf mc ds gs todo → ds_newHead ds < Z.of_nat j → default [] ((g_recs <$> gs) !! j) = [].
Proof.
  intros Hs Hj. rewrite list_lookup_fmap. destruct (gs !! j) as [g|] eqn:Hg; [|done]. cbn [fmap option_fmap option_map from_option id].
  destruct (store_ghost Conf mc ds gs todo (Z.of_nat j) g Hs) as (dc & Hdc & Hi & _); [by rewrite zget_nat|]. rewrite zget_nat in Hdc.
  apply (no_size_no_records mc); [apply Hi|]. rewrite <- (ci_head _ _ _ _ Hi). by eapply (si_empty _ _ _ _ _ Hs).
Qed.

Lemma recs_append gs i g rec :
  zget gs i = Some g → g_recs <$> append_ghost gs i rec = put_row (g_recs <$> gs) i rec.
Proof.
  intros [Hi Hg]%zget_Some. unfold append_ghost, put_row, rows. rewrite Hg, list_fmap_insert, list_lookup_fmap, Hg. done.
Qed.

(** The tree after a record. *)
Lemma tree_log_put m P key pos rec0 vh :
  tree_log E K m P → K key → r_Key rec0 = key → (0 < rec_ver rec0 → vh = Getvhash (p_Body (r_Payload rec0))) →
  tree_log E K (<[getKeyHash E key := mkHTreeItem 0 pos (rec_ver rec0) vh]> m) (place_rec P (pos, rec0)).
Proof.
  intros [Hk Ho] HK <- Hvh. split.
  - intros key HKk. unfold place_rec. cbn [snd]. destruct (decide (r_Key rec0 = key)) as [<-|Hne].
    + rewrite !lookup_insert_eq. unfold live_item, place_item. cbn [fst snd].
      destruct (Z.ltb_spec 0 (rec_ver rec0)) as [Hv|Hv]; [left; by rewrite Hvh|right; split; [done|by exists vh]].
    + rewrite lookup_insert_ne by done. rewrite lookup_insert_ne; [by apply Hk|].
      intros Heq. by apply Hne, (eo_keys _ _ _ _ He).
  - intros kh [it [[<- _]|[_ Hm]]%lookup_insert_Some]; [by exists (r_Key rec0)|]. apply Ho. by exists it.
Qed.

Lemma same_frame_sym t t' : same_frame t t' → same_frame t' t.
Proof. intros (H1 & H2 & H3). by repeat split. Qed.

(** ** The steps *)

Lemma session_write old tree H0 R0 s A m gs ki v rec0 vh now r b' r' m' gs' pos rec' G a :
  session old tree H0 R0 s A m gs → key_ok Conf E K t0 ki → r_Key rec0 = ki_Key ki → append_ok Conf mc rec0 → is_u16 vh → now ≠ 0 →
  (0 < rec_ver rec0 → vh = Getvhash (p_Body (r_Payload rec0))) →
  bkt_inv Conf mc E K b' (bs_todo s) (<[ki_Key ki := (rec0, vh)]> A) m' gs' G a → same_frame t0 (bk_htree b') →
  logged Conf mc E (bs_bkt s) m gs ki v rec0 vh now r b' m' gs' pos rec' →
  session old tree H0 (put_row R0 (ChunkID pos) rec0) (mkBktState b' (bs_todo s) r') (<[ki_Key ki := (rec0, vh)]> A) m' gs'.
Proof.
  intros Hs Hk Hrk Hao Hvr Hnow Hvh Hi' Hfr' [Hat Hpk Hgs Hhd Hpos Hm (rot & Hset)]. subst gs' m'.
  destruct (ss_inv _ _ _ _ _ _ _ _ Hs) as (G0 & a0 & Hi). destruct (session_len _ _ _ _ _ _ _ _ Hs) as (Hlg & Hl0 & Hl).
  destruct (aa_off _ _ _ _ _ _ _ _ _ _ Hat) as (g & Hg & Hoff). destruct (ss_head _ _ _ _ _ _ _ _ Hs) as [H00 Hh0].
  set (i := ChunkID pos) in *. set (L := g_recs <$> gs).
  assert (rows L i = g_recs g) as Hrow.
  { unfold rows, L. apply zget_Some in Hg as [_ Hg]. by rewrite list_lookup_fmap, Hg. }
  assert (log_pair rec0 rec') as Hp.
  { split; [done|done|rewrite Hrk; apply Hk|]. rewrite Hrk, <- (kk_hash _ _ _ _ _ Hk). apply Hk. }
  pose proof (recs_append gs i g rec' Hg) as HL. fold L in HL.
  pose proof (session_pairs _ _ _ _ _ _ _ _ i Hs) as Hps.
  assert (∀ j : nat, i < Z.of_nat j → default [] (L !! j) = []) as Hafter.
  { intros j Hj. assert (default [] (put_row L i rec' !! j) = []) as Hz.
    { rewrite <- HL. eapply store_above; [apply Hi'|]. by rewrite (aa_head _ _ _ _ _ _ _ _ _ _ Hat). }
    unfold put_row in Hz. by rewrite list_lookup_insert_ne in Hz by lia. }
  assert (∀ j : nat, i < Z.of_nat j → default [] (R0 !! j) = []) as Hafter0.
  { intros j Hj. pose proof (session_pairs _ _ _ _ _ _ _ _ (Z.of_nat j) Hs) as Hpj. unfold rows in Hpj. rewrite Nat2Z.id in Hpj.
    fold L in Hpj. rewrite (Hafter j Hj) in Hpj. by inversion Hpj. }
  assert (Hn : ∀ R : list (list Record_), zlen R = MAX_NUM_CHUNK → length R = Z.to_nat MAX_NUM_CHUNK) by (intros R <-; unfold zlen; lia).
  assert (0 <= i < Z.of_nat (Z.to_nat MAX_NUM_CHUNK)) as Hin by lia.
  split; cbn [bs_bkt bs_todo].
  - by exists G, a.
  - done.
  - unfold append_ghost, put_row. apply zget_Some in Hg as [_ Hg]. rewrite Hg. apply Forall2_insert; [apply (ss_log _ _ _ _ _ _ _ _ Hs)|].
    cbn [g_recs]. split; [|done]. rewrite <- Hrow. apply Forall2_app; [done|]. constructor; [exact Hp|constructor].
  - rewrite (put_row_join R0 i rec0 _ (Hn _ Hl0) Hin Hafter0), (live_insert A (ki_Key ki) rec0 vh) by done.
    unfold replay. rewrite foldl_app, (ss_live _ _ _ _ _ _ _ _ Hs). done.
  - rewrite HL. rewrite put_row_places by (done || by eapply Forall2_length || by apply Hn). rewrite foldl_app. cbn [foldl].
    rewrite Hrow, <- Hoff. replace (mkPos i (Offset pos)) with pos by (by destruct pos).
    apply tree_log_put; [apply (ss_tree _ _ _ _ _ _ _ _ Hs)|apply Hk|done|done].
  - rewrite HL. destruct (ss_hints _ _ _ _ _ _ _ _ Hs) as (G1 & Hh). eapply (hint_sess_set Conf mc E K He); try done; [lia| |].
    + assert (zget (append_ghost gs i rec') i = Some (mkGhost (g_recs g ++ [rec']) (g_drop g) (g_done g) [] [])) as Hg'.
      { unfold append_ghost. pose proof (proj1 (zget_Some _ _ _) Hg) as [_ Hgl]. rewrite Hgl. by eapply zget_insert. }
      destruct (store_ghost Conf mc _ _ _ i _ (bi_store _ _ _ _ _ _ _ _ _ _ _ Hi') Hg') as (dc & _ & Hci & _).
      pose proof (chunk_bounds _ _ _ _ Hci) as (Hb & _). pose proof (ci_max _ _ _ _ Hci) as Hmx.
      rewrite (ci_head _ _ _ _ Hci) in Hb. cbn [g_recs] in Hb. rewrite sizes_app in Hb. change (sizes [rec']) with (rec_Size rec' + 0) in Hb.
      rewrite Hrow. lia.
    + rewrite Hrk. fold L. rewrite Hrow, <- Hoff. exact Hset.
  - apply (data_append Conf mc E (bk_datas (bs_bkt s)) gs (bs_todo s) (mkRecord (ki_Key ki) v) r); [apply Hi|apply Hs|done].
  - rewrite (aa_head _ _ _ _ _ _ _ _ _ _ Hat). fold i. lia.
  - rewrite (put_row_join R0 i rec0 _ (Hn _ Hl0) Hin Hafter0). by apply prefix_app_r, Hs.
Qed.

(** What a request that was served leaves of a session. *)
Lemma session_req (marks : Prop) old tree H0 R0 s A m gs ki now b' r' A' m' gs' G a :
  ¬ marks → session old tree H0 R0 s A m gs → key_ok Conf E K (bk_htree (bs_bkt s)) ki → now ≠ 0 →
  (∀ rec vh, A !! ki_Key ki = Some (rec, vh) → - 2 ^ 31 < rec_ver rec < 2 ^ 31) →
  bkt_inv Conf mc E K b' (bs_todo s) A' m' gs' G a → req_frame (bs_bkt s) m gs b' m' gs' →
  req_effect Conf mc E marks (bs_bkt s) m gs A ki now b' m' gs' A' →
  ∃ R0', session old tree H0 R0' (mkBktState b' (bs_todo s) r') A' m' gs'.
Proof.
  intros Hnm Hs Hk Hnow Hver Hi' Hrf Heff.
  assert (same_frame t0 (bk_htree b')) as Hfr by (eapply same_frame_trans; [apply Hs|apply (rf_tree _ _ _ _ _ _ Hrf)]).
  destruct Heff as [E1 E2 E3 -> -> ->|Hmk|v rec0 vh r pos rec' Hrk Hao -> Hvr Hvh Hlg]; [|done|].
  - destruct Hs as [S1 S2 S3 S4 S5 S6 S7 S8 S9]. exists R0. split; cbn [bs_bkt bs_todo]; rewrite ?E1, ?E2, ?E3; try done. by exists G, a.
  - exists (put_row R0 (ChunkID pos) rec0). eapply (session_write old tree H0 R0 s A m gs ki v rec0 vh now r); try done.
    + eapply key_ok_frame; [exact Hk|]. apply same_frame_sym, Hs.
    + by apply Hvh.
Qed.

Lemma session_flush old tree H0 R0 s A m gs ds' todo' gs' r' :
  session old tree H0 R0 s A m gs → store_inv Conf mc ds' gs' todo' → grows gs gs' → length gs' = length gs →
  ds_newHead ds' = ds_newHead (bk_datas (bs_bkt s)) → ds_frame MAX_NUM_CHUNK (bk_datas (bs_bkt s)) gs ds' gs' → data_sess ds' gs' todo' →
  session old tree H0 R0 (mkBktState (with_datas (bs_bkt s) ds') todo' r') A m gs'.
Proof.
  intros Hs Hst Hg Hl Hh Hf Hd. destruct (session_len _ _ _ _ _ _ _ _ Hs) as (Hlg & _ & _).
  assert (∀ i g, gs !! i = Some g → ∃ g', gs' !! i = Some g' ∧ g_recs g' = g_recs g ∧ (plain g → plain g')) as Hrecs.
  { intros i g Hgi. destruct (df_ghost _ _ _ _ _ Hf i g Hgi) as (g' & Hg' & Hpl & Hlow). apply lookup_lt_Some in Hgi.
    exists g'. split; [done|]. split; [|done]. apply Hlow. unfold zlen in Hlg. lia. }
  assert (g_recs <$> gs' = g_recs <$> gs) as Heq.
  { apply list_eq. intros i. rewrite !list_lookup_fmap. destruct (gs !! i) as [g|] eqn:Hgi.
    - destruct (Hrecs i g Hgi) as (g' & -> & Hr & _). cbn. by rewrite Hr.
    - apply lookup_ge_None in Hgi. by rewrite lookup_ge_None_2 by lia. }
  destruct Hs as [(G & a & S1) S2 S3 S4 S5 S6 S7 S8 S9]. split; cbn [bs_bkt bs_todo with_datas bk_htree bk_hints bk_datas]; rewrite ?Heq, ?Hh; try done.
  - exists G, a. by eapply inv_flush.
  - apply Forall2_same_length_lookup_2; [by rewrite Hl, (Forall2_length _ _ _ S3)|]. intros i recs0 g' H1 H2.
    destruct (Forall2_lookup_l _ _ _ _ _ S3 H1) as (g & Hgi & Hp & Hpl). destruct (Hrecs i g Hgi) as (g1 & Hg1 & Hr1 & Hp1).
    rewrite H2 in Hg1. injection Hg1 as ->. rewrite Hr1. split; [done|by apply Hp1].
Qed.

(** The version that is stored for a key leaves room for a deletion. *)
Definition version_fits (A : contents) (key : bytes) : Prop := ∀ rec vh, A !! key = Some (rec, vh) → - 2 ^ 31 < rec_ver rec < 2 ^ 31.

(** One step of a session, with the contents before and after: a request, half of
    a flush of the head or of a chunk that was written to, a dump of the hints. *)
Inductive sess_step (s : bkt_state) (A : contents) : bkt_state → contents → Prop :=
  | sp_set ki v now err b spawn r :
      set_ok Conf mc E K (bs_bkt s) ki v → has_room (bs_bkt s) → now ≠ 0 → version_fits A (ki_Key ki) →
      ¬ remarks Conf (A !! ki_Key ki) v →
      checkAndSet Conf mc E (bs_bkt s) ki v now (bs_rl s) = Some (err, b, spawn, r) →
      sess_step s A (mkBktState b (bs_todo s) r) (put A (ki_Key ki) (snd (abs_set Conf (A !! ki_Key ki) (ki_Key ki) v)))
  | sp_incr ki value now n b spawn r :
      incr_ok Conf mc E K (bs_bkt s) ki value now → has_room (bs_bkt s) → now ≠ 0 → version_fits A (ki_Key ki) →
      incr Conf mc E (bs_bkt s) ki value now (bs_rl s) = Some (n, b, spawn, r) →
      sess_step s A (mkBktState b (bs_todo s) r) (put A (ki_Key ki) (snd (abs_incr (A !! ki_Key ki) (ki_Key ki) value now)))
  | sp_get ki memOnly res b r :
      key_ok Conf E K (bk_htree (bs_bkt s)) ki → bkt_get Conf mc E (bs_bkt s) ki memOnly (bs_rl s) = Some (res, b, r) →
      sess_step s A (mkBktState b (bs_todo s) r) A
  | sp_flush_begin chunk force now ds todo r :
      bs_todo s = None →
      (0 <= chunk → ∃ dc, zget (ds_chunks (bk_datas (bs_bkt s))) chunk = Some dc ∧ 0 < dc_writingHead dc) →
      flush_begin Conf (bk_datas (bs_bkt s)) chunk force now (bs_rl s) = Some (ds, todo, r) →
      sess_step s A (mkBktState (with_datas (bs_bkt s) ds) todo r) A
  | sp_flush_end ds r :
      flush_end (bk_datas (bs_bkt s)) (bs_todo s) (bs_rl s) = Some (ds, r) →
      sess_step s A (mkBktState (with_datas (bs_bkt s) ds) None r) A
  | sp_dump forGC now sec h start :
      hm_maxDumpableChunkID (bk_hints (bs_bkt s)) < MAX_NUM_CHUNK →
      dumpAndMerge Conf (bk_hints (bs_bkt s)) forGC now = Some (sec, h, start) →
      sess_step s A (mkBktState (with_hints (bs_bkt s) h) (bs_todo s) (bs_rl s)) A.

(** A chunk that was written to has records. *)
Lemma written_used ds gs todo c dc :
  store_inv Conf mc ds gs todo → zget (ds_chunks ds) c = Some dc → 0 < dc_writingHead dc → ∃ g, zget gs c = Some g ∧ g_recs g ≠ [].
Proof.
  intros Hs Hdc Hw. pose proof (zget_Some_lt _ _ _ Hdc) as Hlt. destruct (zget_lt gs c) as [g Hg].
  { unfold zlen in *. by rewrite <- (si_len _ _ _ _ _ Hs). }
  exists g. split; [done|]. destruct (store_ghost Conf mc ds gs todo c g Hs Hg) as (dc' & Hdc' & Hi & _). rewrite Hdc in Hdc'. injection Hdc' as <-.
  rewrite (ci_head _ _ _ _ Hi) in Hw. intros Hnil. by rewrite Hnil in Hw.
Qed.

Lemma sess_step_keeps old tree H0 R0 s A m gs s' A' :
  session old tree H0 R0 s A m gs → sess_step s A s' A' → ∃ R0' m' gs', session old tree H0 R0' s' A' m' gs'.
Proof.
  intros Hs Hst. destruct (ss_inv _ _ _ _ _ _ _ _ Hs) as (G & a & Hi).
  destruct Hst as [ki v now err b spawn r (Hk & Ha & Hv) Hroom Hnow Hver Hnm Hst|ki value now n b spawn r (Hk & Hval & Ha) Hroom Hnow Hver Hst
    |ki memOnly res b r Hk Hst|chunk force now ds todo r Htd Hch Hst|ds r Hst|forGC now sec h start Hmd Hst].
  - destruct (checkAndSet_effect Conf mc E K _ _ _ _ _ _ _ ki v now (bs_rl s) He Hi Hk Ha Hv Hroom)
      as (b' & sp & r' & m' & gs' & G' & a' & Hst' & Hi' & Hrf & Heff). rewrite Hst in Hst'. simplify_eq.
    edestruct (session_req (remarks Conf (A !! ki_Key ki) v) old tree H0 R0 s A m gs ki now b' r') as (R0' & Hs'); [done|done|done|done|exact Hver|done|done|exact Heff|by exists R0', m', gs'].
  - destruct (incr_effect Conf mc E K _ _ _ _ _ _ _ ki value now (bs_rl s) He Hi Hk Hval Ha Hroom)
      as (b' & sp & r' & m' & gs' & G' & a' & Hst' & Hi' & Hrf & Heff). rewrite Hst in Hst'. simplify_eq.
    edestruct (session_req False old tree H0 R0 s A m gs ki now b' r') as (R0' & Hs'); [by intros []|done|done|done|exact Hver|done|done|exact Heff|by exists R0', m', gs'].
  - rewrite (bkt_get_inv Conf mc E K _ _ _ _ _ _ _ _ _ _ _ _ _ He Hi Hk Hst). exists R0, m, gs.
    destruct Hs as [S1 S2 S3 S4 S5 S6 S7 S8 S9]. by split.
  - pose proof (ss_data _ _ _ _ _ _ _ _ Hs) as Hd. rewrite Htd in Hi, Hd.
    assert (0 <= chunk → ∃ g, zget gs chunk = Some g ∧ g_recs g ≠ []) as Hused.
    { intros H0c. destruct (Hch H0c) as (dc & Hdc & Hw). eapply written_used; [apply Hi|done|done]. }
    destruct (flush_begin_log Conf mc (bk_datas (bs_bkt s)) gs chunk force now (bs_rl s))
      as (ds' & td' & r' & gs' & Hst' & Hs' & Hg & Hl & Hh & Hfrm & Hbeg); [apply Hi| |].
    { rewrite (bi_len _ _ _ _ _ _ _ _ _ _ _ Hi). destruct (Z.ltb_spec chunk 0); [unfold MAX_NUM_CHUNK; lia|].
      destruct (Hused ltac:(done)) as (g & Hgc & _). apply zget_Some_lt in Hgc. rewrite (bi_len _ _ _ _ _ _ _ _ _ _ _ Hi) in Hgc. lia. }
    rewrite Hst in Hst'. simplify_eq. exists R0, m, gs'. eapply session_flush; try done. by eapply data_flush_begin.
  - destruct (flush_end_log Conf mc (bk_datas (bs_bkt s)) gs (bs_todo s) (bs_rl s))
      as (ds' & r' & gs' & Hst' & Hs' & Hg & Hl & Hh & Hfrm & Hend); [apply Hi|].
    rewrite Hst in Hst'. simplify_eq. exists R0, m, gs'. eapply session_flush; try done. eapply data_flush_end; [apply Hs|done|done].
  - destruct (ss_hints _ _ _ _ _ _ _ _ Hs) as (G1 & Hh). destruct (ss_head _ _ _ _ _ _ _ _ Hs) as [H00 _].
    destruct (hint_sess_dump Conf E K t0 _ _ _ _ _ _ forGC now Hh H00 Hmd) as (sec' & h' & start' & G2 & Hst' & Hh'). rewrite Hst in Hst'. simplify_eq.
    exists R0, m, gs. destruct Hs as [S1 S2 S3 S4 S5 S6 S7 S8 S9]. destruct (hs_rep _ _ _ _ _ _ _ _ _ _ Hh') as (a' & Hrep').
    split; cbn [bs_bkt bs_todo with_hints bk_htree bk_hints bk_datas]; try done; [|by exists G2].
    exists G2, a'. destruct Hi as [I1 I2 I3 I4 I5 I6 I7 I8 I9 I10]. split; try done; apply Hh'.
Qed.

Inductive sess_reach (s0 : bkt_state) (A0 : contents) : bkt_state → contents → Prop :=
  | sr_init : sess_reach s0 A0 s0 A0
  | sr_step s A s' A' : sess_reach s0 A0 s A → sess_step s A s' A' → sess_reach s0 A0 s' A'.

Lemma sess_reach_keeps old tree H0 s0 A0 s A :
  (∃ R0 m gs, session old tree H0 R0 s0 A0 m gs) → sess_reach s0 A0 s A → ∃ R0 m gs, session old tree H0 R0 s A m gs.
Proof.
  intros Hs. induction 1 as [|s A s' A' _ (R0 & m & gs & Hs1) Hst]; [done|]. by eapply sess_step_keeps.
Qed.

(** ** The start *)

(** A log with all chunks. *)
Definition pad (L : list (list Record_)) : list (list Record_) := (λ i, default [] (L !! i)) <$> seq 0 (Z.to_nat MAX_NUM_CHUNK).

Lemma pad_lookup L i : zlen L <= MAX_NUM_CHUNK → default [] (pad L !! i) = default [] (L !! i).
Proof.
  intros Hl. unfold pad, zlen in *. rewrite list_lookup_fmap. destruct (decide (i < Z.to_nat MAX_NUM_CHUNK)%nat) as [Hlt|Hge].
  - by rewrite lookup_seq_lt.
  - rewrite lookup_seq_ge by lia. cbn. by rewrite lookup_ge_None_2 by lia.
Qed.

Lemma pad_join L : zlen L <= MAX_NUM_CHUNK → mjoin (pad L) = mjoin L.
Proof.
  intros Hl. rewrite (mjoin_rows L (Z.to_nat MAX_NUM_CHUNK)), (mjoin_rows (pad L) (Z.to_nat MAX_NUM_CHUNK)).
  - apply bind_same. intros j _. by apply pad_lookup.
  - unfold pad. by rewrite length_fmap, length_seq.
  - unfold zlen in Hl. lia.
Qed.

Lemma pad_ghosts L : g_recs <$> log_ghosts L = pad L.
Proof. unfold log_ghosts, pad. by rewrite <- list_fmap_compose. Qed.

Lemma data_start disk L :
  files_hold disk L → log_ok mc L → data_sess (store_of L disk (log_head L) 0) (log_ghosts L) None.
Proof.
  intros Hf Hl. assert (∀ i g, log_ghosts L !! i = Some g → drop (g_drop g) (g_recs g) = []) as Hall.
  { intros i g [-> _]%upto_lookup. by apply drop_ge. }
  split; cbn [store_of ds_wbufSize ds_disk]; [|done| |by left].
  - replace (buffered_size (log_ghosts L)) with 0; [done|]. clear -Hall. unfold buffered_size. revert Hall. generalize (log_ghosts L).
    intros gs. induction gs as [|g gs IH]; intros Hall; [done|]. rewrite fmap_cons, zsum_cons, <- IH by (intros i h; apply (Hall (S i))).
    unfold unflushed. by rewrite (Hall 0%nat g).
  - intros i' [f Hi]. rewrite Hf in Hi. destruct (Z.ltb_spec i' 0) as [Hneg|Hi0].
    { unfold zget in Hi. by rewrite (proj2 (Z.ltb_lt _ _) Hneg) in Hi. }
    rewrite <- (Z2Nat.id i') in Hi |- * by done. generalize dependent (Z.to_nat i').
    intros i Hi. rewrite zget_nat. rewrite zget_nat in Hi. destruct (L !! i) as [[|rec recs]|] eqn:HLi; [done| |done]. exists (log_ghost L i). split.
    + apply lookup_lt_Some in HLi. pose proof (lo_len _ _ Hl) as Hlen. unfold zlen in Hlen. unfold log_ghosts.
      rewrite list_lookup_fmap, lookup_seq_lt by lia. done.
    + unfold log_ghost. cbn [g_recs]. by rewrite HLi.
Qed.

Lemma session_start disk L0 L ck o A m G a r :
  files_hold disk L → log_ok mc L → Forall2 (Forall2 log_pair) L0 L →
  bkt_inv Conf mc E K (op_bkt o) None A m (log_ghosts L) G a → live A = replay (mjoin L0) → same_frame t0 (bk_htree (op_bkt o)) →
  started Conf E K t0 disk L0 L ck o m G →
  session (mjoin L0) (op_TreeID o) (Z.of_nat ck) (pad L0) (mkBktState (op_bkt o) None r) A m (log_ghosts L).
Proof.
  intros Hf Hl Hp Hi Hlive Hfr [Hds Htree Hhints Hdisk _]. pose proof (lo_len _ _ Hl) as Hlen.
  assert (zlen L <= MAX_NUM_CHUNK ∧ zlen L0 <= MAX_NUM_CHUNK) as [HL HL0].
  { unfold zlen in *. rewrite (Forall2_length _ _ _ Hp). lia. }
  assert (∀ i, rows (pad L0) i = default [] (L0 !! Z.to_nat i) ∧ rows (pad L) i = default [] (L !! Z.to_nat i)) as Hrows.
  { intros i. split; by apply pad_lookup. }
  split; cbn [bs_bkt bs_todo]; rewrite ?pad_ghosts; [by exists G, a|done| |by rewrite pad_join| | |rewrite Hds; by apply data_start| |by rewrite pad_join].
  - unfold pad, log_ghosts. apply Forall2_fmap_2, Forall2_same_length_lookup_2; [done|]. intros i x y Hx Hy. rewrite Hx in Hy. injection Hy as ->.
    split; [|done]. by apply chunk_pairs.
  - replace (log_places (pad L0) (pad L) 0 (Z.to_nat MAX_NUM_CHUNK)) with (log_places L0 L 0 (Z.to_nat MAX_NUM_CHUNK)); [done|].
    apply bind_same. intros j _. unfold chunk_places. by rewrite !pad_lookup.
  - exists G. split; [exists a; apply Hi|apply Hi|apply Hi| |].
    + intros i Hr. destruct (Hrows i) as [-> ->]. destruct (Hhints (Z.to_nat i)) as (c & gl & H1 & H2 & H3 & H4 & H5 & H6 & _); [lia|].
      rewrite Nat2Z.id in H2. rewrite Z2Nat.id in H1 by lia.
      exists c, gl. split; [done|]. split; [done|]. split; [|by split_and!]. destruct H4 as (gf & -> & Hne & _). exists gf, []. by split.
    + eapply disk_inv_from; [|eapply disk_inv_weaken; [|exact Hdisk]].
      * intros i _. change (log_reach L i = sizes (rows (pad L) i)). by rewrite (proj2 (Hrows i)).
      * intros i [Hi0 Hne]. split; [done|]. change (rows (pad L) i ≠ []). by rewrite (proj2 (Hrows i)).
  - rewrite Hds. cbn [store_of ds_newHead]. destruct (log_head_range mc L Hl) as [Hh Hafter].
    destruct (di_id _ _ _ _ _ _ _ _ Hdisk) as [(Hz & _)|(Hle & _ & j & Hj & Hj0 & Hne)]; [lia|].
    destruct (decide (log_head L <= j)) as [Hge|]; [|lia]. rewrite Hafter in Hne; [done|lia].
Qed.

(** ** Closing *)

(** Nothing is buffered but in the head, and no flush is in progress. *)
Definition settled_down (s : bkt_state) : Prop :=
  bs_todo s = None ∧ ∀ i dc, ds_chunks (bk_datas (bs_bkt s)) !! i = Some dc → Z.of_nat i ≠ ds_newHead (bk_datas (bs_bkt s)) → dc_wbuf dc = [].

Definition all_flushed (gs : list ghost) : Prop := ∀ i g, zget gs i = Some g → drop (g_drop g) (g_recs g) = [].

Lemma unflushed_zero g : Forall (rec_ok mc) (g_recs g) → unflushed g = 0 → drop (g_drop g) (g_recs g) = [].
Proof. intros Hok. apply (no_size_no_records mc). by apply Forall_drop. Qed.

Lemma others_flushed s gs :
  store_inv Conf mc (bk_datas (bs_bkt s)) gs (bs_todo s) → settled_down s →
  ∀ i g, zget gs i = Some g → i ≠ ds_newHead (bk_datas (bs_bkt s)) → unflushed g = 0.
Proof.
  intros Hs [_ Hq] i g Hg Hne. destruct (store_ghost Conf mc _ _ _ i g Hs Hg) as (dc & Hdc & Hi & _).
  rewrite <- (wbuf_size mc dc _ g Hi). apply zget_Some in Hdc as [H0 Hdc]. by rewrite (Hq _ _ Hdc) by lia.
Qed.

(** What is counted is what the head has buffered. *)
Lemma buffered_head gs c h : zget gs c = Some h → (∀ i g, zget gs i = Some g → i ≠ c → unflushed g = 0) → buffered_size gs = unflushed h.
Proof.
  intros [H0 Hh]%zget_Some Hoth. unfold buffered_size. revert c H0 Hh Hoth. induction gs as [|g gs IH]; intros c H0 Hh Hoth; [done|].
  assert (∀ (l : list ghost), Forall (λ g, unflushed g = 0) l → zsum (unflushed <$> l) = 0) as Hz.
  { induction 1 as [|x l Hx _ IHl]; [done|]. rewrite fmap_cons, zsum_cons, Hx, IHl. done. }
  rewrite fmap_cons, zsum_cons. destruct (decide (c = 0)) as [->|Hne].
  - injection Hh as ->. rewrite Hz; [lia|]. apply Forall_lookup. intros j x Hx. apply (Hoth (Z.of_nat (S j))); [by rewrite zget_nat|lia].
  - rewrite (IH (c - 1)); [|lia| |].
    + rewrite (Hoth 0 g); [done|done|done].
    + replace (Z.to_nat c) with (S (Z.to_nat (c - 1))) in Hh by lia. exact Hh.
    + intros i x [Hi0 Hx]%zget_Some Hi. apply (Hoth (i + 1)); [|lia]. apply zget_Some. split; [lia|].
      by replace (Z.to_nat (i + 1)) with (S (Z.to_nat i)) by lia.
Qed.

Lemma session_close_flush old tree H0 R0 s A m gs now r :
  session old tree H0 R0 s A m gs → settled_down s →
  ∃ ds' r' gs', ds_flush Conf (bk_datas (bs_bkt s)) (-1) true now r = Some (ds', r')
    ∧ session old tree H0 R0 (mkBktState (with_datas (bs_bkt s) ds') None r') A m gs' ∧ all_flushed gs'
    ∧ ds_newHead ds' = ds_newHead (bk_datas (bs_bkt s)).
Proof.
  intros Hs Hq. pose proof Hq as [Htd _]. destruct (ss_inv _ _ _ _ _ _ _ _ Hs) as (G & a & Hi). pose proof (bi_store _ _ _ _ _ _ _ _ _ _ _ Hi) as Hst.
  pose proof (others_flushed s gs Hst Hq) as Hoth. pose proof (ss_data _ _ _ _ _ _ _ _ Hs) as Hd. rewrite Htd in Hst, Hd.
  destruct (zget_lt gs (ds_newHead (bk_datas (bs_bkt s))) (si_head _ _ _ _ _ Hst)) as [h Hh].
  assert (∀ i g, zget gs i = Some g → i ≠ ds_newHead (bk_datas (bs_bkt s)) → drop (g_drop g) (g_recs g) = []) as Hothd.
  { intros i g Hg Hne. apply unflushed_zero; [|by eapply Hoth]. destruct (store_ghost Conf mc _ _ _ i g Hst Hg) as (dc & _ & Hci & _). apply Hci. }
  destruct (flush_begin_log Conf mc _ gs (-1) true now r Hst) as (ds1 & todo & r1 & gs1 & Hb & Hst1 & Hg1 & Hl1 & Hh1 & Hf1 & Hbeg); [pose proof (si_head _ _ _ _ _ Hst); lia|].
  pose proof (data_flush_begin Conf _ gs (-1) true now ds1 gs1 todo Hd Hbeg Hh1 ltac:(lia)) as Hd1.
  destruct (flush_end_log Conf mc ds1 gs1 todo r1 Hst1) as (ds2 & r2 & gs2 & Hend & Hst2 & Hg2 & Hl2 & Hh2 & Hf2 & Hen).
  pose proof (data_flush_end _ _ _ _ _ Hd1 Hen Hh2) as Hd2.
  pose proof (session_flush old tree H0 R0 s A m gs ds1 todo gs1 r1 Hs Hst1 Hg1 Hl1 Hh1 Hf1 Hd1) as Hs1.
  pose proof (session_flush old tree H0 R0 _ A m gs1 ds2 None gs2 r2 Hs1 Hst2 Hg2 Hl2 Hh2 Hf2 Hd2) as Hs2.
  exists ds2, r2, gs2. unfold ds_flush. rewrite Hb. cbn [mbind option_bind]. rewrite Hend. split; [done|]. split; [exact Hs2|]. split; [|congruence].
  destruct Hbeg as [(-> & -> & -> & Hdue)|(c & g & -> & Hg & _ & -> & -> & _)].
  - destruct Hen as [-> ->]. intros i g Hg. destruct (decide (i = ds_newHead (bk_datas (bs_bkt s)))) as [->|Hne]; [|by eapply Hothd].
    rewrite Hh in Hg. injection Hg as <-. destruct (store_ghost Conf mc _ _ _ _ h Hst Hh) as (dc & _ & Hci & _).
    apply unflushed_zero; [apply Hci|]. unfold flush_due in Hdue. rewrite (dn_count _ _ _ Hd), (buffered_head _ _ _ Hh Hoth) in Hdue.
    assert (0 <= unflushed h < 2 ^ 32) as Hr; [|rewrite u32_small in Hdue by done; cbn in Hdue; lia].
    pose proof (chunk_bounds _ _ _ _ Hci) as (Hbd & _). pose proof (ci_max _ _ _ _ Hci) as Hmx. rewrite (ci_head _ _ _ _ Hci) in Hbd.
    pose proof (ci_recs _ _ _ _ Hci) as Hok. rewrite <- (take_drop (g_drop h) (g_recs h)), Forall_app in Hok. destruct Hok as [Hok1 Hok2].
    rewrite <- (take_drop (g_drop h) (g_recs h)), sizes_app in Hbd. pose proof (sizes_range mc _ Hok1). pose proof (sizes_range mc _ Hok2).
    unfold unflushed. lia.
  - cbn in Hg. rewrite Hh in Hg. injection Hg as <-. destruct Hen as (g1 & Hg1' & -> & _). cbn in Hg1' |- *.
    rewrite (zget_insert _ _ _ _ Hh) in Hg1'. injection Hg1' as <-. cbn [g_recs g_drop g_done g_gap g_left]. intros i g Hg.
    destruct (decide (i = ds_newHead (bk_datas (bs_bkt s)))) as [->|Hne].
    + erewrite zget_insert in Hg by (by eapply zget_insert). injection Hg as <-. cbn [g_recs g_drop]. apply drop_ge. rewrite length_drop. lia.
    + pose proof (si_head _ _ _ _ _ Hst). rewrite !zget_insert_ne in Hg by (done || lia). by eapply Hothd.
Qed.

(** The chunks of a log up to the head. *)
Definition upto_head (s : bkt_state) {X} (R : list X) : list X := take (S (Z.to_nat (ds_newHead (bk_datas (bs_bkt s))))) R.

Lemma upto_lookup_row s (R : list (list Record_)) j :
  (∀ j : nat, ds_newHead (bk_datas (bs_bkt s)) < Z.of_nat j → default [] (R !! j) = []) →
  default [] (upto_head s R !! j) = default [] (R !! j).
Proof.
  intros Hafter. unfold upto_head. destruct (decide (j < S (Z.to_nat (ds_newHead (bk_datas (bs_bkt s)))))%nat) as [Hlt|Hge].
  - by rewrite lookup_take_lt.
  - rewrite lookup_take_ge by lia. rewrite Hafter; [done|lia].
Qed.

Lemma session_rows old tree H0 R0 s A m gs :
  session old tree H0 R0 s A m gs → ∀ j, default [] (upto_head s R0 !! j) = default [] (R0 !! j)
    ∧ default [] (upto_head s (g_recs <$> gs) !! j) = default [] ((g_recs <$> gs) !! j).
Proof.
  intros Hs j. destruct (ss_inv _ _ _ _ _ _ _ _ Hs) as (G & a & Hi).
  assert (∀ j : nat, ds_newHead (bk_datas (bs_bkt s)) < Z.of_nat j → default [] ((g_recs <$> gs) !! j) = []) as Hafter.
  { intros k Hk. eapply store_above; [apply Hi|done]. }
  split; apply upto_lookup_row; [|done]. intros k Hk. pose proof (session_pairs _ _ _ _ _ _ _ _ (Z.of_nat k) Hs) as Hp. unfold rows in Hp.
  rewrite Nat2Z.id, (Hafter k Hk) in Hp. by inversion Hp.
Qed.

Lemma session_join old tree H0 R0 s A m gs : session old tree H0 R0 s A m gs → mjoin (upto_head s R0) = mjoin R0.
Proof.
  intros Hs. rewrite (mjoin_rows R0 (length R0)), (mjoin_rows (upto_head s R0) (length R0)); [|unfold upto_head; rewrite length_take; lia|done].
  apply bind_same. intros j _. by apply (session_rows _ _ _ _ _ _ _ _ Hs).
Qed.

(** When everything is flushed, the files hold the log. *)
Lemma session_files old tree H0 R0 s A m gs :
  session old tree H0 R0 s A m gs → bs_todo s = None → all_flushed gs → has_room (bs_bkt s) →
  let L := upto_head s (g_recs <$> gs) in
  files_hold (ds_disk (bk_datas (bs_bkt s))) L ∧ log_ok mc L
  ∧ Forall2 (Forall2 log_pair) (upto_head s R0) L.
Proof.
  intros Hs Htd Hall Hroom L. destruct (ss_inv _ _ _ _ _ _ _ _ Hs) as (G & a & Hi). pose proof (bi_store _ _ _ _ _ _ _ _ _ _ _ Hi) as Hst.
  pose proof (ss_data _ _ _ _ _ _ _ _ Hs) as Hd. rewrite Htd in Hst, Hd. pose proof (si_head _ _ _ _ _ Hst) as Hhd.
  assert (∀ i recs, L !! i = Some recs → ∃ g dc, gs !! i = Some g ∧ recs = g_recs g ∧ dc_chunkid dc = Z.of_nat i
    ∧ chunk_inv mc dc (ds_disk (bk_datas (bs_bkt s))) g ∧ g_done g = length (g_recs g)) as Hrow.
  { intros i recs HL. unfold L, upto_head in HL. apply lookup_take_Some in HL as [HL _]. rewrite list_lookup_fmap in HL.
    destruct (gs !! i) as [g|] eqn:Hg; [|done]. injection HL as <-.
    destruct (lookup_lt_is_Some_2 (ds_chunks (bk_datas (bs_bkt s))) i) as [dc Hdc].
    { rewrite (si_len _ _ _ _ _ Hst). by eapply lookup_lt_Some. }
    destruct (si_chunks _ _ _ _ _ Hst _ _ _ Hdc Hg) as (Hid & Hci & Hdone). exists g, dc. split; [done|]. split; [done|]. split; [done|].
    split; [done|]. cbn [in_flight] in Hdone. pose proof (ci_order _ _ _ _ Hci).
    assert (length (drop (g_drop g) (g_recs g)) = 0%nat) as Hl0 by (rewrite (Hall (Z.of_nat i) g); [done|by rewrite zget_nat]).
    rewrite length_drop in Hl0. lia. }
  assert (∀ i, default [] (L !! i) = default [] ((g_recs <$> gs) !! i)) as Hsame by apply (session_rows _ _ _ _ _ _ _ _ Hs).
  split; [|split].
  - intros i'. destruct (Z.ltb_spec i' 0) as [Hneg|Hi0].
    { replace (zget L i') with (None : option (list Record_)) by (unfold zget; by rewrite (proj2 (Z.ltb_lt _ _) Hneg)).
      destruct (ds_disk (bk_datas (bs_bkt s)) !! i') as [f|] eqn:Hf; [|done].
      destruct (dn_files _ _ _ Hd i' ltac:(by eexists)) as (g & [? _]%zget_Some & _). lia. }
    rewrite <- (Z2Nat.id i') by done. generalize (Z.to_nat i'). clear i' Hi0. intros i. rewrite zget_nat.
    destruct (ds_disk (bk_datas (bs_bkt s)) !! Z.of_nat i) as [f|] eqn:Hf.
    + destruct (dn_files _ _ _ Hd (Z.of_nat i) ltac:(by eexists)) as (g & Hg & Hne). rewrite zget_nat in Hg. specialize (Hsame i).
      rewrite list_lookup_fmap, Hg in Hsame. cbn in Hsame. destruct (L !! i) as [recs|] eqn:HLi; [|done]. cbn in Hsame. subst recs.
      destruct (Hrow i _ HLi) as (g' & dc & Hg' & _ & Hid & Hci & Hdone). rewrite Hg in Hg'. injection Hg' as <-.
      pose proof (ci_file _ _ _ _ Hci) as Hfile. rewrite Hid, Hdone, take_ge in Hfile by done. unfold file_at in Hfile. rewrite Hf in Hfile.
      destruct (Forall2_lookup_r _ _ _ _ _ (ss_log _ _ _ _ _ _ _ _ Hs) Hg) as (recs0 & _ & _ & Hgap & Hleft). rewrite Hgap, Hleft in Hfile.
      cbn in Hfile. rewrite app_nil_r in Hfile. by destruct (g_recs g); [|rewrite Hfile].
    + destruct (L !! i) as [[|rec recs]|] eqn:HLi; [done| |done]. exfalso.
      destruct (Hrow i _ HLi) as (g & dc & Hg & Hrecs & Hid & Hci & Hdone). pose proof (ci_file _ _ _ _ Hci) as Hfile.
      rewrite Hid, Hdone, take_ge in Hfile by done. unfold file_at in Hfile. rewrite Hf, <- Hrecs in Hfile. cbn [from_option id] in Hfile.
      symmetry in Hfile. apply app_eq_nil in Hfile as [Hfile _]. pose proof (ci_recs _ _ _ _ Hci) as Hok. rewrite <- Hrecs in Hok.
      pose proof (file_of_length mc _ Hok) as Hlen. rewrite Hfile in Hlen. cbn [length] in Hlen. lia.
  - split.
    + apply Forall_lookup. intros i recs HL. destruct (Hrow i recs HL) as (g & dc & _ & -> & _ & Hci & _). apply Hci.
    + apply Forall_lookup. intros i recs HL. destruct (Hrow i recs HL) as (g & dc & _ & -> & _ & Hci & _).
      pose proof (chunk_bounds _ _ _ _ Hci) as (Hb & _). pose proof (ci_max _ _ _ _ Hci). rewrite (ci_head _ _ _ _ Hci) in Hb. lia.
    + unfold L, upto_head, zlen, has_room in *. rewrite length_take. lia.
  - unfold L, upto_head. rewrite <- fmap_take. apply Forall2_fmap_r, Forall2_take. eapply Forall2_impl; [apply Hs|]. by intros recs0 g [? _].
Qed.

(** A directory that a bucket with the contents [C] can be opened from. *)
Definition dir_rep (dir : BucketDir) (C : contents) : Prop :=
  ∃ L0 L, files_hold (bd_data dir) L ∧ log_ok mc L ∧ Forall2 (Forall2 log_pair) L0 L
    ∧ dir_ok Conf E K t0 L0 L dir ∧ replay (mjoin L0) = C.

(** The hints of a chunk that are all in files: there is one when the chunk has
    records. *)
Lemma hinted_file tree H0 R0 L h G i :
  hint_sess Conf E K t0 tree H0 R0 L h G → 0 <= H0 → H0 <= i < MAX_NUM_CHUNK → in_files h G i → Forall2 log_pair (rows R0 i) (rows L i) →
  rows L i ≠ [] → ∃ c, zget (hm_chunks h) i = Some c ∧ is_Some (file_of_split (hc_splits c) 0).
Proof.
  intros Hh H00 Hi Hfiles Hp Hne. destruct (files_hints_for Conf mc E K t0 tree H0 R0 L h G i Hh H00 Hi Hfiles Hp) as (idxs & [Hhf _ Hreach _]).
  destruct (di_chunk _ _ _ _ _ _ _ _ (hs_disk _ _ _ _ _ _ _ _ _ _ Hh) i Hi) as (c & Hc & [_ Hdisk _]). exists c. split; [done|].
  destruct idxs as [|idx idxs].
  - exfalso. apply Hne, (no_size_no_records mc); [|by rewrite take_ge in Hreach].
    clear -Hp He. induction Hp as [|x y l k Hxy _ IH]; [done|]. apply Forall_cons. split; [by eapply log_pair_ok|done].
  - pose proof (hfs_file _ _ _ Hhf 0 idx eq_refl) as Hf. change (Z.of_nat 0) with 0 in Hf. rewrite Hdisk in Hf. unfold split_bytes in Hf. unfold file_of_split.
    destruct (zget (hc_splits c) 0 ≫= sp_file); [by eexists|done].
Qed.

(** The newest split is of the last chunk of the log. *)
Lemma newest_chunk tree H0 R0 L h G last :
  hint_sess Conf E K t0 tree H0 R0 L h G → 0 <= H0 → (∀ i, H0 <= i < MAX_NUM_CHUNK → in_files h G i) →
  (∀ i, Forall2 log_pair (rows R0 i) (rows L i)) → 0 <= last < MAX_NUM_CHUNK → rows L last ≠ [] → (∀ j, last < j → rows L j = []) →
  H0 <= last ∧ id_Chunk (hm_maxDumpedHintID h) = last ∧ 0 <= id_Split (hm_maxDumpedHintID h).
Proof.
  intros Hh H00 Hfiles Hp Hl Hne Hafter. pose proof (hs_disk _ _ _ _ _ _ _ _ _ _ Hh) as Hdi.
  destruct (di_id _ _ _ _ _ _ _ _ Hdi) as [(-> & _ & Hnone)|(Hle & Hsp & j & Hj & Hj0 & Hjne)].
  - exfalso. destruct (hinted_file tree 0 R0 L h G last Hh) as (c & Hc & Hf); [done|done|by apply Hfiles|done|done|].
    rewrite (Hnone last c 0) in Hf; [by destruct Hf|lia|done].
  - change (rows L j ≠ []) in Hjne. assert (j <= last) as Hjl.
    { destruct (decide (j <= last)) as [|Hgt]; [done|]. destruct Hjne. apply Hafter. lia. }
    assert (H0 <= last) as HHl by lia. split; [done|]. split; [|done].
    destruct (hinted_file tree H0 R0 L h G last Hh) as (c & Hc & Hf); [done|lia|apply Hfiles; lia|done|done|].
    pose proof (di_max _ _ _ _ _ _ _ _ Hdi last c 0 ltac:(lia) Hc Hf). lia.
Qed.

(** The places of a log are those of the chunks up to its last one. *)
Lemma places_upto R0 L R0' L' (k n : nat) :
  (∀ j, default [] (R0' !! j) = default [] (R0 !! j) ∧ default [] (L' !! j) = default [] (L !! j)) →
  (∀ j : nat, (k < j)%nat → default [] (L !! j) = []) → (k < n)%nat →
  log_places R0' L' 0 k ++ chunk_places R0' L' k = log_places R0 L 0 n.
Proof.
  intros Hsame Hafter Hk. unfold log_places. replace n with (k + S (n - S k))%nat by lia. rewrite seq_app, bind_app. cbn [seq].
  rewrite bind_cons, Nat.add_0_l, (bind_empty _ (seq (S k) _)), app_nil_r.
  - f_equal; [apply bind_same; intros j _|]; unfold chunk_places; by rewrite !(proj1 (Hsame _)), !(proj2 (Hsame _)).
  - intros j Hj. apply elem_of_seq in Hj. unfold chunk_places. rewrite (Hafter j) by lia. by destruct (default [] (R0 !! j)).
Qed.

Section Close.
Context (bucketID : Z) (Ht : newHTree (TreeDepth Conf) bucketID (TreeHeight Conf) = Some t0).
Context (Hconf : conf_for Conf (TreeDepth Conf) (TreeHeight Conf)) (Hd2 : TreeDepth Conf <= 2) (Hbid : 0 <= bucketID < 16 ^ TreeDepth Conf).

Lemma frame_bucket t : same_frame t0 t →
  bucket_ok Conf t ∧ ht_depth t = TreeDepth Conf ∧ ht_bucketID t = bucketID ∧ nlevels t = TreeHeight Conf.
Proof.
  intros (Hfd & Hfb & Hfn). destruct (newHTree_frame _ _ _ _ Ht) as (Ed & Eb & En & _). unfold bucket_ok.
  rewrite Hfd, Hfb, Hfn, Ed, Eb, En. destruct Hconf as (? & ? & ?). split_and!; done || lia.
Qed.

(** The directory after the tree was dumped. *)
Lemma close_tree old tree H0 R0 s A m gs h' G' o :
  session old tree H0 R0 s A m gs → bs_todo s = None → all_flushed gs → has_room (bs_bkt s) → ds_disk (bk_datas (bs_bkt s)) ≠ ∅ →
  hint_sess Conf E K t0 tree H0 R0 (g_recs <$> gs) h' G' → (∀ j, H0 <= j < MAX_NUM_CHUNK → in_files h' G' j) →
  Forall (λ leaf : bytes, zlen leaf < 2 ^ 32) (leafs (bk_htree (bs_bkt s))) →
  op_bkt o = with_hints (bs_bkt s) h' → op_TreeID o = tree → ∃ o', dumpHtree Conf o = Some o' ∧ dir_rep (dir_of o') (live A).
Proof.
  intros Hs Htd Hall Hroom Hdisk Hh Hfiles Hleafs Hb Hid. destruct (ss_inv _ _ _ _ _ _ _ _ Hs) as (G & a & Hi).
  destruct (session_files _ _ _ _ _ _ _ _ Hs Htd Hall Hroom) as (Hfh & Hlog & Hpairs).
  pose proof (session_rows _ _ _ _ _ _ _ _ Hs) as Hrows. pose proof (session_join _ _ _ _ _ _ _ _ Hs) as Hjoin.
  set (L := g_recs <$> gs) in *. set (L' := upto_head s L) in *. set (R0' := upto_head s R0) in *.
  assert (0 < log_head L') as Hpos.
  { destruct (map_choose _ Hdisk) as (i & f & Hf). rewrite Hfh in Hf.
    destruct (log_head_range mc L' Hlog) as [Hr Hafter]. destruct (decide (log_head L' = 0)) as [Hz|]; [|lia]. exfalso.
    specialize (Hafter (Z.to_nat i) ltac:(lia)). unfold zget in Hf. destruct (i <? 0); [discriminate Hf|].
    by destruct (L' !! Z.to_nat i) as [[|]|]; [discriminate Hf|discriminate Hafter|discriminate Hf]. }
  set (last := log_head L' - 1). destruct (log_head_range mc L' Hlog) as [Hr Hafter]. pose proof (lo_len _ _ Hlog) as Hlen.
  assert (0 <= last < MAX_NUM_CHUNK) as Hlr by (unfold last; lia).
  assert (∀ j, rows L j = default [] (L' !! Z.to_nat j)) as Hrow by (intros j; unfold rows; by rewrite (proj2 (Hrows _))).
  destruct (newest_chunk tree H0 R0 L h' G' last Hh) as (HHl & Hck & Hsp); [apply Hs|done| |done| | |].
  { intros i. by eapply session_pairs. }
  { rewrite Hrow. by apply log_head_used. }
  { intros j Hj. rewrite Hrow. apply Hafter. unfold last in Hj. lia. }
  destruct (frame_bucket _ (ss_frame _ _ _ _ _ _ _ _ Hs)) as (Hbk & Ed & Eb & En).
  destruct (dump_loads Conf (heap E) (bk_htree (bs_bkt s)) m t0 (bi_tree _ _ _ _ _ _ _ _ _ _ _ Hi) Hbk Hleafs) as (t1 & f & t2 & Hdump & _ & Hload & Hm2 & Hf2);
    [by rewrite Ed, Eb, En|].
  unfold dumpHtree. rewrite Hid, Hb. cbn [with_hints bk_hints].
  assert (isLarger tree (id_Chunk (hm_maxDumpedHintID h')) (id_Split (hm_maxDumpedHintID h')) = true) as ->.
  { apply isLarger_le. destruct (hm_maxDumpedHintID h') as [? ?] eqn:Heq. rewrite <- Heq. apply (hs_disk _ _ _ _ _ _ _ _ _ _ Hh). }
  cbn [removeHtree op_bkt]. rewrite Hb. cbn [with_hints bk_htree]. rewrite Hdump. cbn [mbind option_bind]. eexists. split; [done|].
  exists R0', L'. cbn [dir_of op_bkt with_htree with_hints bk_datas bk_hints op_trees removeHtree bd_data].
  do 3 (split; [done|]). split; [|by rewrite Hjoin, (ss_live _ _ _ _ _ _ _ _ Hs)].
  destruct (files_hints_for Conf mc E K t0 tree H0 R0 L h' G' last Hh) as (idxs & Hidxs); [apply Hs|lia|apply Hfiles; lia|by eapply session_pairs|].
  exists (λ _, idxs), (λ _, length (rows L last)), (Z.to_nat last), (hm_maxDumpedHintID h'), (length (rows L last)). split.
  - intros j Hj Hne. destruct (decide (j = Z.to_nat last)) as [->|Hnj]; [|destruct Hne; apply Hafter; unfold last in *; lia].
    cbn [bd_hints]. rewrite (proj1 (Hrows _)), (proj2 (Hrows _)), Z2Nat.id by lia. exact Hidxs.
  - destruct (hm_maxDumpedHintID h') as [ck sp]. cbn [id_Chunk id_Split bd_trees] in *. subst ck. rewrite insert_empty.
    pose proof (good_tree Conf E K t0 R0' L' (λ _, idxs) (λ _, length (rows L last)) (Z.to_nat last)) as Hgood. rewrite Z2Nat.id in Hgood by lia.
    eapply Hgood; [done|unfold last; lia|done|exact Hload|done|exact Hm2| |].
    + rewrite take_ge by (rewrite (chunk_places_length Conf mc E K t0 R0' L' Hpairs), Hrow; lia).
      rewrite (places_upto R0 L R0' L' _ (Z.to_nat MAX_NUM_CHUNK) Hrows); [apply Hs| |lia].
      intros j Hj. rewrite <- (proj2 (Hrows j)). apply Hafter. unfold last in Hj. lia.
    + rewrite Hrow. lia.
Qed.

Definition leafs_fit (b : Bucket) : Prop := Forall (λ leaf : bytes, zlen leaf < 2 ^ 32) (leafs (bk_htree b)).

Lemma session_close old H0 R0 s A m gs o now r :
  session old (op_TreeID o) H0 R0 s A m gs → settled_down s → has_room (bs_bkt s) → leafs_fit (bs_bkt s) → (old = [] → op_trees o = ∅) →
  ∃ o' r', bkt_close Conf (op_with o (bs_bkt s)) now r = Some (o', r') ∧ dir_rep (dir_of o') (live A).
Proof.
  intros Hs Hq Hroom Hleafs Htrees. unfold bkt_close. cbn [op_with op_bkt].
  destruct (session_close_flush _ _ _ _ _ _ _ _ now r Hs Hq) as (ds & r1 & gs1 & -> & Hs1 & Hall & Hhd). cbn [mbind option_bind op_with op_bkt with_datas bk_datas].
  set (s1 := mkBktState (with_datas (bs_bkt s) ds) None r1) in Hs1.
  assert (has_room (bs_bkt s1)) as Hroom1 by (unfold has_room; cbn [s1 bs_bkt with_datas bk_datas]; rewrite Hhd; exact Hroom).
  destruct (session_files _ _ _ _ _ _ _ _ Hs1 eq_refl Hall Hroom1) as (Hfh & Hlog & Hpairs). cbn [s1 bs_bkt with_datas bk_datas] in Hfh.
  case_bool_decide as Hdk.
  - eexists _, r1. split; [done|]. exists (upto_head s1 R0), (upto_head s1 (g_recs <$> gs1)).
    cbn [dir_of op_with op_bkt op_trees op_gcfile bd_data with_datas bk_datas]. do 3 (split; [done|]).
    split; [|by rewrite (session_join _ _ _ _ _ _ _ _ Hs1), (ss_live _ _ _ _ _ _ _ _ Hs)].
    assert (∀ j, default [] (upto_head s1 (g_recs <$> gs1) !! j) = []) as Hnone.
    { intros j. specialize (Hfh (Z.of_nat j)). rewrite Hdk, lookup_empty, zget_nat in Hfh. destruct (upto_head s1 _ !! j) as [[|]|]; done. }
    exists (λ _, []), (λ _, 0%nat), 0%nat, (mkHintID 0 (-1)), 0%nat. split; [intros j _ Hne; by destruct Hne|].
    apply no_tree; [done|]. cbn [bd_trees]. apply Htrees, prefix_nil_inv.
    replace (@nil Record_) with (mjoin R0); [apply Hs|]. rewrite (mjoin_rows R0 (length R0)) by done. apply bind_empty. intros j _.
    pose proof (session_pairs _ _ _ _ _ _ _ _ (Z.of_nat j) Hs1) as Hp. unfold rows in Hp.
    rewrite Nat2Z.id, <- (proj2 (session_rows _ _ _ _ _ _ _ _ Hs1 j)), Hnone in Hp. by inversion Hp.
  - destruct (ss_hints _ _ _ _ _ _ _ _ Hs1) as (G1 & Hh1). cbn [s1 bs_bkt with_datas bk_hints] in Hh1.
    destruct (hint_sess_close Conf E K t0 _ _ _ _ _ _ now Hh1) as (h' & G' & Hcl & Hh' & Hfiles); [apply Hs|].
    cbn [with_datas bk_hints]. rewrite Hcl. cbn [mbind option_bind op_with op_bkt].
    destruct (close_tree old (op_TreeID o) H0 R0 s1 A m gs1 h' G' (op_with (op_with (op_with o (bs_bkt s)) (with_datas (bs_bkt s) ds)) (with_hints (with_datas (bs_bkt s) ds) h')))
      as (o' & Hdump & Hrep); try done. rewrite Hdump. cbn [mbind option_bind]. by exists o', r1.
Qed.

End Close.

End Restart.
