(* ===== verification/RestartProps.v ===== *)
(** * Properties of sessions and restarts *)

From stdpp Require Import gmap.
From S2P Require Import Prelude Hashing Strconv Config Cmem Key Item Fixtures Leaf HTree HTreeSpec HTreeMerkle HTreeProps.
From S2P Require Import DataFile Data DataSpec DataLog HintFile Hint HintSpec HintProps HintMerge Bucket BucketSpec.
From S2P Require Import BucketProps BucketOpen BucketOpenSpec HintReload BucketRecover HTreeDisk BucketOpenProps Session Restart.

Section Props.
Context (Conf : HStoreConfig) (mc : MCConfig) (E : Ext) (K : bytes → Prop) (t0 : HTree) (bucketID : Z).
Notation contents := (gmap bytes (Record_ * Z)).

(** The requests that a bucket with the contents [A] answers, and how. *)
Record serves (b : Bucket) (A : contents) : Prop := {
  sv_get ki r : key_ok Conf E K t0 ki → ∃ p pos r', bkt_get Conf mc E b ki false r = Some ((p, pos, None), b, r')
    ∧ match A !! ki_Key ki with Some (rec, _) => ∃ q, p = Some q ∧ same_record rec (mkRecord (ki_Key ki) q) | None => p = None end;
  sv_set ki v now r : set_ok Conf mc E K b ki v → has_room b → ∃ b' spawn r',
    checkAndSet Conf mc E b ki v now r = Some (fst (abs_set Conf (A !! ki_Key ki) (ki_Key ki) v), b', spawn, r');
  sv_incr ki value now r : incr_ok Conf mc E K b ki value now → has_room b → ∃ b' spawn r',
    incr Conf mc E b ki value now r = Some (fst (abs_incr (A !! ki_Key ki) (ki_Key ki) value now), b', spawn, r')
}.

(** A directory with the live contents [C] that outlasts [n] sessions: it is opened,
    what the bucket then has is [C] apart from deletions, requests are answered after
    every run of steps, and closing leaves a directory with the live contents of then. *)
Fixpoint survives (n : nat) (dir : BucketDir) (C : contents) : Prop :=
  match n with
  | O => True
  | S n => ∀ ct mergeChan now r, ct_Items ct = ∅ → now ≠ 0 →
      ∃ o r1 A0, bkt_open Conf mc E bucketID dir ct mergeChan now r = Some (inl o, r1) ∧ live A0 = C
        ∧ ∀ s A, sess_reach Conf mc E K (mkBktState (op_bkt o) None r1) A0 s A →
            serves (bs_bkt s) A
            ∧ (settled_down s → has_room (bs_bkt s) → leafs_fit (bs_bkt s) → ∀ now r2,
                ∃ o' r3, bkt_close Conf (op_with o (bs_bkt s)) now r2 = Some (o', r3) ∧ survives n (dir_of o') (live A))
  end.

Lemma session_serves old tree H0 R0 s A m gs :
  env_ok Conf mc E K → session Conf mc E K t0 old tree H0 R0 s A m gs → serves (bs_bkt s) A.
Proof.
  intros He Hs. destruct (ss_inv _ _ _ _ _ _ _ _ _ _ _ _ _ Hs) as (G & a & Hi). split.
  - intros ki r Hk. destruct (bkt_get_rec Conf mc E K _ _ _ _ _ _ _ ki r He Hi) as (p & pos & r' & Hg & Hans); [|by exists p, pos, r'].
    eapply key_ok_frame; [exact Hk|apply Hs].
  - intros ki v now r (Hk & Ha & Hv) Hroom.
    destruct (checkAndSet_spec Conf mc E K _ _ _ _ _ _ _ ki v now r He Hi Hk Ha Hv Hroom) as (b' & sp & r' & _ & _ & _ & _ & Hst & _). by exists b', sp, r'.
  - intros ki value now r (Hk & Hval & Ha) Hroom.
    destruct (incr_spec Conf mc E K _ _ _ _ _ _ _ ki value now r He Hi Hk Hval Ha Hroom) as (b' & sp & r' & _ & _ & _ & _ & Hst & _). by exists b', sp, r'.
Qed.

(** C6. A bucket keeps its contents over any number of sessions. A directory that a
    crash or a close may have left is opened without an error, with the contents of its
    log; then come sets, increments, deletions and reads, the two halves of flushes and
    dumps of the hints in any order, and at every point the bucket answers as the map of
    its contents does. If at that point nothing is buffered outside the head and no half of
    a flush is pending ([settled_down]), a chunk is free and every leaf of the tree is
    shorter than 2^32, then closing leaves data, hints and tree on disk that are again such
    a directory, for the contents of then: what was stored is there after the restart and
    what was deleted is not, and so on for any number of restarts. Without [settled_down]
    the code loses records ([close_loses_rotated_chunk]). The steps ask of a request that
    the clock is not 0, that the version stored is not -2^31, and that it is not, under
    [CheckVHash], one that gives the value already stored a version of its own ([remarks]),
    which is not logged. A restart may forget deletions; collections are not part of a
    session. *)
Theorem contents_survive_restarts n dir C :
  env_ok Conf mc E K → conf_for Conf (TreeDepth Conf) (TreeHeight Conf) → TreeDepth Conf <= 2 →
  newHTree (TreeDepth Conf) bucketID (TreeHeight Conf) = Some t0 → 0 <= bucketID < 16 ^ TreeDepth Conf →
  dir_rep Conf mc E K t0 dir C → survives n dir C.
Proof.
  intros He Hconf Hd2 Ht Hbid. revert dir C. induction n as [|n IH]; intros dir C (L0 & L & Hf & Hl & Hp & Hdir & <-); [done|].
  cbn [survives]. intros ct mergeChan now r Hct Hnow.
  destruct (bkt_open_spec Conf mc E K He t0 (bd_data dir) L0 L bucketID dir ct mergeChan now r Hf Hl Hp)
    as (o & r1 & A0 & m & G & a & Hop & Hi & Hlive & _ & Hfr & ck & Hsd); try done; [destruct Hconf as (? & ? & ?); lia|].
  exists o, r1, A0. split; [done|]. split; [done|]. intros s A Hreach.
  pose proof (session_start Conf mc E K t0 _ L0 L ck o A0 m G a r1 Hf Hl Hp Hi Hlive Hfr Hsd) as Hs0.
  destruct (sess_reach_keeps Conf mc E K He t0 (mjoin L0) _ _ _ _ _ _ ltac:(by eexists _, _, _) Hreach) as (R0 & m1 & gs1 & Hs).
  split; [by eapply session_serves|]. intros Hq Hroom Hlf now' r2.
  edestruct (session_close Conf mc E K He t0 bucketID Ht Hconf Hd2 Hbid) as (o' & r3 & Hc & Hrep); [exact Hs|done|done|done| |].
  - intros Hnil. apply (sd_none _ _ _ _ _ _ _ _ _ _ _ Hsd). eapply no_records_head; [exact Hl|exact Hp|exact Hnil].
  - exists o', r3. split; [done|]. by apply IH.
Qed.

End Props.

(** ** A session on the log of two chunks *)

(** A bucket that may be closed. *)
Definition closeableb (b : Bucket) : bool :=
  forallb id (imap (λ i dc, (Z.of_nat i =? ds_newHead (bk_datas b)) || (zlen (dc_wbuf dc) =? 0)) (ds_chunks (bk_datas b)))
  && (ds_newHead (bk_datas b) + 1 <? MAX_NUM_CHUNK) && forallb (λ leaf : bytes, zlen leaf <? 2 ^ 32) (leafs (bk_htree b)).

Lemma closeableb_ok b r : closeableb b = true → settled_down (mkBktState b None r) ∧ has_room b ∧ leafs_fit b.
Proof.
  unfold closeableb. rewrite !andb_true_iff. intros [[Hw Hr] Hl]. split; [|split].
  - split; [done|]. intros i dc Hdc Hne. cbn [bs_bkt] in Hdc, Hne. apply Is_true_eq_left in Hw. rewrite forallb_True, Forall_lookup in Hw.
    pose proof (Hw i) as Hi. rewrite list_lookup_imap, Hdc in Hi. specialize (Hi _ eq_refl). unfold id in Hi.
    apply orb_True in Hi as [Hi|Hi]; apply Is_true_true in Hi; [lia|]. by destruct (dc_wbuf dc).
  - unfold has_room. lia.
  - unfold leafs_fit. apply Is_true_eq_left in Hl. rewrite forallb_True in Hl. eapply Forall_impl; [exact Hl|]. intros leaf Hz%Is_true_true. lia.
Qed.

Definition bye : Payload := demo_value (bstr "bye") 0.
Definition bye_rec : Record_ := mkRecord (bstr "hello") (set_payload_meta bye (set_ver (set_vhash (p_meta bye) (Getvhash (bstr "bye"))) 3)).

Lemma bye_abs x : live x !! bstr "hello" = replay (mjoin demo_log) !! bstr "hello" →
  version_fits x (bstr "hello") ∧ abs_set demo_conf (x !! bstr "hello") (bstr "hello") bye = (None, Some (bye_rec, Getvhash (bstr "bye"))).
Proof.
  change (bstr "hello") with (ki_Key (bucket_key (bstr "hello"))). rewrite demo_hello, live_lookup. intros Hx.
  unfold version_fits. destruct (x !! _) as [[rec vh]|]; [|discriminate Hx]. cbn [fst] in Hx. destruct (0 <? rec_ver rec); [|discriminate Hx].
  injection Hx as -> ->. split; [|by vm_compute]. intros rec' vh' [= <- _]. by vm_compute.
Qed.

Lemma demo_session_ok :
  match bkt_open demo_conf DefaultMCConfig demo_ext 4 crash_dir newCollisionTable false 1000 ResetAll with
  | Some (inl o, r) =>
      match checkAndSet demo_conf DefaultMCConfig demo_ext (op_bkt o) (bucket_key (bstr "hello")) bye 2000 r with
      | Some (_, b, _, _) => closeableb b && (ht_depth (bk_htree (op_bkt o)) =? 1) && (ht_bucketID (bk_htree (op_bkt o)) =? 4)
          && (ds_newHead (bk_datas (op_bkt o)) + 1 <? MAX_NUM_CHUNK)
      | None => false
      end
  | _ => false
  end = true.
Proof. vm_compute. reflexivity. Qed.

Lemma crash_dir_rep : dir_rep demo_conf DefaultMCConfig demo_ext demo_keys bucket_tree crash_dir (replay (mjoin demo_log)).
Proof.
  exists demo_log, demo_log. split; [exact demo_log_files|].
  by split; [exact demo_log_ok|split; [exact demo_log_pairs|split; [exact crash_dir_ok|]]].
Qed.

(** A crashed bucket is opened, a key is set, the bucket is closed and opened
    again: the key has the new value. *)
Lemma contents_survive_restarts_witness :
  ∃ o r1 b spawn r2 o' r3 o2 r4,
    bkt_open demo_conf DefaultMCConfig demo_ext 4 crash_dir newCollisionTable false 1000 ResetAll = Some (inl o, r1)
    ∧ checkAndSet demo_conf DefaultMCConfig demo_ext (op_bkt o) (bucket_key (bstr "hello")) bye 2000 r1 = Some (None, b, spawn, r2)
    ∧ bkt_close demo_conf (op_with o b) 3000 r2 = Some (o', r3)
    ∧ bkt_open demo_conf DefaultMCConfig demo_ext 4 (dir_of o') newCollisionTable false 4000 r3 = Some (inl o2, r4)
    ∧ ∃ q pos r5, bkt_get demo_conf DefaultMCConfig demo_ext (op_bkt o2) (bucket_key (bstr "hello")) false r4
        = Some ((Some q, pos, None), op_bkt o2, r5) ∧ same_record bye_rec (mkRecord (bstr "hello") q).
Proof.
  destruct demo_conf_fits as (Hc1 & Hc2 & Hc3 & Hc4 & _). pose proof demo_session_ok as Hok.
  destruct (contents_survive_restarts demo_conf DefaultMCConfig demo_ext demo_keys bucket_tree 4 2 crash_dir (replay (mjoin demo_log))
    demo_env Hc1 Hc2 Hc3 Hc4 crash_dir_rep newCollisionTable false 1000 ResetAll eq_refl ltac:(discriminate))
    as (o & r1 & A0 & Hop & Hlive & Hrun). rewrite Hop in Hok.
  destruct (checkAndSet _ _ _ (op_bkt o) _ _ 2000 r1) as [[[[e b] sp] r2]|] eqn:Hset; [|discriminate Hok].
  rewrite !andb_true_iff in Hok. destruct Hok as [[[Hcl Hd] Hb] Hroom]. apply Z.eqb_eq in Hd, Hb. apply Z.ltb_lt in Hroom.
  destruct (bye_abs A0) as [Hver Habs]; [by rewrite Hlive|].
  assert (set_ok demo_conf DefaultMCConfig demo_ext demo_keys (op_bkt o) (bucket_key (bstr "hello")) bye) as Hreq.
  { apply demo_request_ok; [by left|exact Hd|exact Hb|by vm_compute]. }
  destruct (Hrun _ _ (sr_init _ _ _ _ _ _)) as [Hsv _].
  destruct (sv_set _ _ _ _ _ _ _ Hsv (bucket_key (bstr "hello")) bye 2000 r1 Hreq Hroom) as (b1 & sp1 & r21 & Hset1). cbn [bs_bkt] in Hset1.
  change (ki_Key (bucket_key (bstr "hello"))) with (bstr "hello") in Hset1. rewrite Habs in Hset1. rewrite Hset in Hset1. injection Hset1 as -> <- <- <-.
  destruct (Hrun (mkBktState b None r2) (<[bstr "hello" := (bye_rec, Getvhash (bstr "bye"))]> A0)) as [_ Hclose].
  { assert (sess_step demo_conf DefaultMCConfig demo_ext demo_keys (mkBktState (op_bkt o) None r1) A0 (mkBktState b None r2)
      (put A0 (bstr "hello") (snd (abs_set demo_conf (A0 !! bstr "hello") (bstr "hello") bye)))) as Hst.
    { apply (sp_set demo_conf DefaultMCConfig demo_ext demo_keys (mkBktState (op_bkt o) None r1) A0 (bucket_key (bstr "hello")) bye 2000 None b sp r2);
        [exact Hreq|exact Hroom|discriminate|exact Hver|intros [Hcv _]; discriminate Hcv|exact Hset]. }
    rewrite Habs in Hst. eapply sr_step; [apply sr_init|exact Hst]. }
  destruct (closeableb_ok b r2 Hcl) as (Hq & Hr & Hlf).
  destruct (Hclose Hq Hr Hlf 3000 r2) as (o' & r3 & Hcd & Hnext).
  destruct (Hnext newCollisionTable false 4000 r3 eq_refl ltac:(discriminate)) as (o2 & r4 & A2 & Hop2 & Hlive2 & Hrun2).
  exists o, r1, b, sp, r2, o', r3, o2, r4. split; [exact Hop|]. split; [exact Hset|]. split; [exact Hcd|]. split; [exact Hop2|].
  destruct (Hrun2 _ _ (sr_init _ _ _ _ _ _)) as [Hsv2 _].
  destruct (sv_get _ _ _ _ _ _ _ Hsv2 (bucket_key (bstr "hello")) r4) as (p & pos & r5 & Hg & Hans).
  { apply (bucket_key_ok (bs_bkt demo_start)); [by left|reflexivity|reflexivity]. }
  change (ki_Key (bucket_key (bstr "hello"))) with (bstr "hello") in Hans.
  assert (A2 !! bstr "hello" = Some (bye_rec, Getvhash (bstr "bye"))) as HA2.
  { assert (live A2 !! bstr "hello" = Some (bye_rec, Getvhash (bstr "bye"))) as Hl2.
    { rewrite Hlive2, live_lookup, lookup_insert_eq. reflexivity. }
    rewrite live_lookup in Hl2. destruct (A2 !! bstr "hello") as [x|]; [|discriminate Hl2]. by destruct (0 <? rec_ver x.1). }
  rewrite HA2 in Hans. destruct Hans as (q & -> & Hsame). exists q, pos, r5. split; [exact Hg|exact Hsame].
Defined.

(** ** Closing before a rotated chunk was flushed *)

(** The default configuration with data files of one record. *)
Definition tiny_conf : HStoreConfig := {|
  NumBucket := NumBucket demo_conf; BucketsStat := BucketsStat demo_conf; FlushWake := FlushWake demo_conf;
  DataFileMax := 256; CheckVHash := false;
  FlushInterval := FlushInterval demo_conf;
  NoGCDays := NoGCDays demo_conf; NotCompress := NotCompress demo_conf; NoMerged := NoMerged demo_conf;
  MergeInterval := MergeInterval demo_conf; IndexIntervalSize := IndexIntervalSize demo_conf;
  SplitCap := SplitCap demo_conf; TreeHeight := TreeHeight demo_conf; TreeDump := TreeDump demo_conf;
  TreeDepth := TreeDepth demo_conf; TreeKeyHashMask := TreeKeyHashMask demo_conf;
  TreeKeyHashLen := TreeKeyHashLen demo_conf |}.

(** A new bucket gets two keys, is closed, opened again and asked for the first;
    [flushed] is whether the flush that the rotation started has run. *)
Definition two_chunks (flushed : bool) : option (option bytes * option StoreErr) :=
  let set o k body now r := checkAndSet tiny_conf DefaultMCConfig demo_ext (op_bkt o) (bucket_key (bstr k)) (demo_value (bstr body) 0) now r in
  '(res, r) ← bkt_open tiny_conf DefaultMCConfig demo_ext 4 empty_dir newCollisionTable false 1000 ResetAll;
  o ← (match res with inl o => Some o | inr _ => None end);
  '(_, b, _, r) ← set o "hello"%string "world"%string 1001 r;
  '(_, b, spawn, r) ← set (op_with o b) "hits"%string "7"%string 1002 r;
  chunk ← spawn;
  '(ds, r) ← (if flushed then ds_flush tiny_conf (bk_datas b) chunk true 1003 r else Some (bk_datas b, r));
  '(o, r) ← bkt_close tiny_conf (op_with o (with_datas b ds)) 1004 r;
  '(res, r) ← bkt_open tiny_conf DefaultMCConfig demo_ext 4 (dir_of o) newCollisionTable false 1005 r;
  o ← (match res with inl o => Some o | inr _ => None end);
  '(p, _, err, _, _) ← bkt_get tiny_conf DefaultMCConfig demo_ext (op_bkt o) (bucket_key (bstr "hello")) false r;
  Some (match p with Some q => Some (p_Body q) | None => None end, err).

(** [close] flushes the head only: when the flush of the chunk before it, which a
    rotation starts in the background, has not run, a value that was stored cannot be
    read after an orderly close. *)
Theorem close_loses_rotated_chunk :
  two_chunks true = Some (Some (bstr "world"), None) ∧ two_chunks false = Some (None, Some ErrOpen).
Proof. split; vm_compute; reflexivity. Qed.
