(* ===== verification/Offline.v ===== *)
(** * Building hint files offline (src/store/offline.go)

    What the flag [-buildhint] of the program runs over a stopped bucket: the data
    files are listed and the hints of each chunk completed from the data. *)

From stdpp Require Import gmap.
From S2P Require Import Prelude Hashing Strconv Config Cmem Key Item Fixtures Leaf HTree HTreeSpec HTreeMerkle.
From S2P Require Import HTreeProps DataFile Data DataSpec DataLog HintFile Hint HintSpec HintProps HintMerge.
From S2P Require Import Bucket BucketSpec BucketProps BucketOpen BucketOpenSpec HintReload HintDisk BucketRecover BucketOpenProps Session Restart.

Section Offline.
Context (Conf : HStoreConfig) (mc : MCConfig) (E : Ext).

(** The chunks [i], ..., [i + n - 1]: those without a data file are passed over, and an
    error of a chunk is logged. *)
Fixpoint build_chunks (h : hintMgr) (ds : dataStore) (i : Z) (n : nat) (now : Z) (r : BeansdbRL) : option (hintMgr * BeansdbRL) :=
  match n with
  | O => Some (h, r)
  | S n =>
      match ds_disk ds !! i with
      | None => build_chunks h ds (i + 1) n now r
      | Some _ => '(h, _, r) ← checkHintWithData Conf mc E h ds i now r; build_chunks h ds (i + 1) n now r
      end
  end.

(** What goes wrong: the path cannot be opened, the data files cannot be listed, or the
    name of a data file has no number. *)
Inductive OfflineErr := OffOpen | OffList (e : StoreErr) | OffNumber.

(** [DataToHintDir]: the directory it leaves, and the error it returns. The error of a
    chunk is in a variable of the loop that hides the result. *)
Definition DataToHintDir (dir : BucketDir) (start end_ : Z) (now : Z) (r : BeansdbRL) : option (BucketDir * option OfflineErr * BeansdbRL) :=
  let h := newHintMgr false (bd_hints dir) (bd_merged dir) in
  let '(ds, res) := ListFiles (NewdataStore (bd_data dir)) in
  match res with
  | inr e => Some (dir, Some (OffList e), r)
  | inl _ =>
      '(h, r) ← build_chunks h ds start (Z.to_nat (end_ + 1 - start)) now r;
      Some (mkDir (ds_disk ds) (hm_disk h) (hm_mdisk h) (bd_trees dir) (bd_gcfile dir), None, r)
  end.

(** [DataToHintFile]: the number is in the first three bytes of the name, which is cut
    without a look at its length. *)
Definition DataToHintFile (dir : BucketDir) (name : bytes) (now : Z) (r : BeansdbRL) : option (BucketDir * option OfflineErr * BeansdbRL) :=
  digits ← zslice name 0 3;
  match Atoi digits with
  | None => Some (dir, Some OffNumber, r)
  | Some chunkID => DataToHintDir dir chunkID chunkID now r
  end.

(** [DataToHint]: what the operating system finds at the path, in the directory
    [dir] itself or a file of it. *)
Inductive TargetPath := TMissing | TDir | TFile (name : bytes).
Definition DataToHint (dir : BucketDir) (p : TargetPath) (now : Z) (r : BeansdbRL) : option (BucketDir * option OfflineErr * BeansdbRL) :=
  match p with
  | TMissing => Some (dir, Some OffOpen, r)
  | TDir => DataToHintDir dir 0 (MAX_NUM_CHUNK - 1) now r
  | TFile name => DataToHintFile dir name now r
  end.

End Offline.

Section Build.
Context (Conf : HStoreConfig) (mc : MCConfig) (E : Ext) (K : bytes → Prop) (He : env_ok Conf mc E K) (t0 : HTree).
Context (disk : Disk) (L0 L : list (list Record_)).
Context (Hfiles : files_hold disk L) (Hlog : log_ok mc L) (Hpairs : Forall2 (Forall2 (log_pair Conf mc E K t0)) L0 L).
Context (hd : gmap (Z * Z) bytes) (idxs : nat → list hintFileIndex) (ns : nat → nat).
Context (Hfound : hints_found E K t0 L0 L hd idxs ns 0).
(** Hint files belong to data files. *)
Hypothesis (no_stray : ∀ (j : nat) k, default [] (L !! j) = [] → hd !! (Z.of_nat j, k) = None).

(** How many hint files chunk [j] has at least when it is done. *)
Definition files_due (j : nat) : nat := if decide (default [] (L !! j) = []) then 0 else chunk_files L idxs ns j.

(** The chunks below [i] are done. *)
Record built (h : hintMgr) (i : nat) : Prop := {
  bt_hints : ∃ G a, mgr_rep Conf h G a ∧ all_known E K G
    ∧ ∀ j, (j < i)%nat → hints_built Conf E K t0 h G (Z.of_nat j) (log_items E 0 (default [] (L0 !! j)) (default [] (L !! j)))
        (files_due j);
  bt_disk : disk_inv Conf h (mkHintID 0 0) 0 0 (Z.of_nat i) (λ _, True) (log_reach L);
  bt_rest j : (i <= j)%nat → Z.of_nat j < MAX_NUM_CHUNK → fresh h (Z.of_nat j)
    ∧ ∀ id : Z * Z, fst id = Z.of_nat j → hm_disk h !! id = hd !! id
}.

Lemma new_built merged : built (newHintMgr false hd merged) 0.
Proof.
  split.
  - destruct (newHintMgr_rep Conf false hd merged) as [H1 H2 H3 H4 H5 H6]. eexists _, (∅, 0). split; [by split|]. split; [|lia].
    apply Forall_replicate. by repeat constructor.
  - split; [lia|lia|reflexivity| |lia]. right. split; [done|]. split; [done|]. by exists 0.
  - intros j _ Hj. split; [by apply new_fresh|done].
Qed.

(** A chunk without data. *)
Lemma built_skip h i : built h i → Z.of_nat i < MAX_NUM_CHUNK → default [] (L !! i) = [] → built h (S i).
Proof.
  intros [(G & a & Hrep & Hkn & Hblt) Hdi Hrest] Hi Hnil. destruct (Hrest i ltac:(lia) Hi) as [Hfr Hdk].
  destruct (mgr_chunk Conf h G a (Z.of_nat i) Hrep ltac:(lia)) as (c0 & gs0 & Hc0 & Hg0 & Hcr0 & _).
  pose proof Hfr as Hfr'. unfold fresh in Hfr'. rewrite Hfr' in Hc0. injection Hc0 as <-. apply fresh_layers in Hcr0 as ->.
  assert (log_reach L (Z.of_nat i) = 0) as Hlr by (unfold log_reach; by rewrite Nat2Z.id, Hnil).
  split.
  - exists G, a. split; [done|]. split; [done|]. intros j Hj. destruct (decide (j = i)) as [->|]; [|apply Hblt; lia].
    exists (newHintChunk (Z.of_nat i)), [[]]. split; [exact Hfr|]. split; [done|]. split; [apply newHintChunk_rep|].
    split; [|split; [by repeat constructor|by split; [rewrite Hnil, log_items_nil|unfold files_due; rewrite decide_True by done; cbn; lia]]]. exists []. split; [done|]. split; [done|]. cbn. lia.
  - replace (Z.of_nat (S i)) with (Z.of_nat i + 1) by lia.
    eapply disk_inv_ext; [|eapply (disk_inv_load Conf h h _ 0 0 _ _ (log_reach L) (newHintChunk (Z.of_nat i)) 0)]; [|exact Hdi|lia|done|done|done|exact Hfr| |lia].
    + intros j. rewrite <- Hlr. apply reach_upd_same.
    + apply new_chunk_disk. intros j. rewrite Hdk by done. by apply no_stray.
  - intros j Hj. apply Hrest. lia.
Qed.

(** A chunk with data: its hints are completed. *)
Lemma built_check h i now r :
  built h i → Z.of_nat i < MAX_NUM_CHUNK → now ≠ 0 → default [] (L !! i) ≠ [] →
  ∃ h' r', checkHintWithData Conf mc E h (store_of L disk (log_head L) 0) (Z.of_nat i) now r = Some (h', None, r') ∧ built h' (S i).
Proof.
  intros [(G & a & Hrep & Hkn & Hblt) Hdi Hrest] Hi Hnow Hne. destruct (Hrest i ltac:(lia) Hi) as [Hfr Hdk].
  destruct (check_spec Conf mc E K He t0 (mkHintID 0 0) 0 0 (λ _, True) h G a disk L (default [] (L0 !! i)) i (idxs i) (ns i) now r)
    as (h' & G1 & a1 & r1 & Hck & Hrep1 & Hkn1 & (c & gs & Hc & Hg & Hcr & Hd & Hall & Hmap & Hnf) & Hcf & Hdi1 & _);
    [done|done|by eapply chunk_pairs|done|done|done|done|done| |done|done|lia|].
  { intros _. destruct (Hfound i ltac:(lia) Hne) as [H1 H2 H3 H4]. split; try done. by eapply hint_files_same. }
  exists h', r1. split; [done|]. split.
  - exists G1, a1. split; [done|]. split; [done|]. intros j Hj. destruct (decide (j = i)) as [->|Hji].
    + exists c, gs. do 6 (split; [done|]). exact Hnf.
    + eapply hints_built_frame; [exact Hcf|done|apply Hblt; lia].
  - by replace (Z.of_nat (S i)) with (Z.of_nat i + 1) by lia.
  - intros j Hj Hjm. destruct (Hrest j ltac:(lia) Hjm) as [Hfj Hdj]. destruct Hcf as [Hdf Hch _ _ _]. cbn [fst snd] in Hdf, Hch. split.
    + unfold fresh. rewrite Hch by lia. exact Hfj.
    + intros id Hid. rewrite Hdf by lia. by apply Hdj.
Qed.

Lemma build_chunks_ok now n : now ≠ 0 → ∀ h i r,
  built h i → Z.of_nat i + Z.of_nat n <= MAX_NUM_CHUNK →
  ∃ h' r', build_chunks Conf mc E h (store_of L disk (log_head L) 0) (Z.of_nat i) n now r = Some (h', r') ∧ built h' (i + n).
Proof.
  intros Hnow. induction n as [|n IH]; intros h i r Hb Hi; cbn [build_chunks]; [exists h, r; by rewrite Nat.add_0_r|].
  replace (i + S n)%nat with (S i + n)%nat by lia. replace (Z.of_nat i + 1) with (Z.of_nat (S i)) by lia. cbn [store_of ds_disk].
  rewrite (Hfiles (Z.of_nat i)), zget_nat. destruct (default [] (L !! i)) as [|rec recs] eqn:Hrow.
  - assert (match L !! i with Some (rec :: recs) => Some (file_of (rec :: recs)) | _ => None end = None) as -> by (by destruct (L !! i) as [[|]|]).
    apply IH; [|lia]. apply built_skip; [done|lia|done].
  - assert (match L !! i with Some (rec :: recs) => Some (file_of (rec :: recs)) | _ => None end = Some (file_of (rec :: recs))) as ->.
    { destruct (L !! i) as [[|x l]|]; [done| |done]. cbn in Hrow. by injection Hrow as -> ->. }
    destruct (built_check h i now r Hb ltac:(lia) Hnow) as (h' & r' & -> & Hb'); [by rewrite Hrow|]. cbn [mbind option_bind].
    apply IH; [done|lia].
Qed.

(** The hint files then have all records. *)
Lemma built_found h : built h (Z.to_nat MAX_NUM_CHUNK) →
  ∃ idxs', hints_found E K t0 L0 L (hm_disk h) idxs' (λ j, length (default [] (L !! j))) 0
    ∧ ∀ j, default [] (L !! j) ≠ [] → (chunk_files L idxs ns j <= length (idxs' j))%nat.
Proof.
  intros [(G & a & Hrep & Hkn & Hblt) Hdi _]. rewrite Z2Nat.id in Hdi by (by vm_compute).
  destruct (choose_below (λ i idxs', hints_for E K t0 (hm_disk h) i (default [] (L0 !! Z.to_nat i)) (default [] (L !! Z.to_nat i)) idxs'
    (length (default [] (L !! Z.to_nat i))) ∧ (files_due (Z.to_nat i) <= length idxs')%nat) [] (Z.to_nat MAX_NUM_CHUNK)) as [f Hf].
  - intros i Hi. rewrite Z2Nat.id in Hi by (by vm_compute). destruct (Hblt (Z.to_nat i) ltac:(lia)) as (c & gl & Hc & _ & Hcr & Hd & Hall & Hsame & Hnum).
    rewrite Z2Nat.id in Hc by lia. destruct (di_chunk _ _ _ _ _ _ _ _ Hdi i ltac:(lia)) as (c1 & Hc1 & Hcd). rewrite Hc in Hc1. injection Hc1 as <-.
    destruct (built_hints_for Conf mc E K t0 h i c gl (default [] (L0 !! Z.to_nat i)) (default [] (L !! Z.to_nat i))) as (idxs' & Hx & Hlen); try done.
    + by eapply chunk_pairs.
    + exists idxs'. split; [exact Hx|lia].
  - assert (∀ j, default [] (L !! j) ≠ [] → 0 <= Z.of_nat j < Z.of_nat (Z.to_nat MAX_NUM_CHUNK)) as Hrange.
    { intros j Hne. pose proof (lo_len _ _ Hlog) as Hlen. unfold zlen in Hlen. destruct (L !! j) as [recs|] eqn:Hj; [|done]. apply lookup_lt_Some in Hj. lia. }
    exists (λ j, f (Z.of_nat j)). split; [intros j _ Hne|intros j Hne]; destruct (Hf _ (Hrange j Hne)) as [H1 H2]; rewrite Nat2Z.id in H1, H2; [exact H1|].
    unfold files_due in H2. by rewrite decide_False in H2.
Qed.

(** A tree that went with the hint files goes with the complete ones. *)
Lemma tree_kept idxs' ck trees id k :
  (∀ j, default [] (L !! j) ≠ [] → (chunk_files L idxs ns j <= length (idxs' j))%nat) →
  tree_found Conf E K t0 L0 L idxs ns ck trees id k → tree_found Conf E K t0 L0 L idxs' (λ j, length (default [] (L !! j))) ck trees id k.
Proof.
  intros Hmore [Hck Ht|c sp f Hck Ht Hl|c sp f t Hck Ht Hc Hsp Hld|sp f k' t m Ht Hc Hsp Hld Hfr Hm Htl Hk].
  - by apply no_tree.
  - by eapply stale_tree.
  - by eapply broken_tree.
  - eapply good_tree; try done. intros Hlt. destruct (Hk Hlt) as [H1 H2]. specialize (Hmore ck).
    assert (default [] (L !! ck) ≠ []) as Hne by (intros Hn; rewrite Hn in Hlt; cbn in Hlt; lia). specialize (Hmore Hne).
    unfold chunk_files, files_after, zlen in *. destruct (Nat.ltb_spec (ns ck) (length (default [] (L !! ck)))); lia.
Qed.

End Build.

Section Props.
Context (Conf : HStoreConfig) (mc : MCConfig) (E : Ext) (K : bytes → Prop) (t0 : HTree).

(** C18. Building hints over a stopped bucket ends without an error and leaves the data
    files and the tree files as they are, and hint files that hold every record of every
    chunk, whatever first parts of the chunks the hint files held before: none at all, or
    some, followed by a gap or by a file that is shorter than its header (a file cut off
    behind its header makes the program panic, [loadHintIndex_cut]). A tree that went with
    the hint files before goes with the new ones, for the same records, so that the
    directory still opens with the contents of its log. There are no hint files of chunks
    without a data file before, and key hashes are distinct. *)
Theorem buildhint_completes dir L0 L idxs ns ck id k now r :
  env_ok Conf mc E K → files_hold (bd_data dir) L → log_ok mc L → Forall2 (Forall2 (log_pair Conf mc E K t0)) L0 L →
  hints_found E K t0 L0 L (bd_hints dir) idxs ns 0 → (∀ (j : nat) sp, default [] (L !! j) = [] → bd_hints dir !! (Z.of_nat j, sp) = None) →
  tree_found Conf E K t0 L0 L idxs ns ck (bd_trees dir) id k → now ≠ 0 →
  ∃ dir' r', DataToHint Conf mc E dir TDir now r = Some (dir', None, r') ∧ bd_data dir' = bd_data dir ∧ bd_trees dir' = bd_trees dir
    ∧ (∃ idxs', hints_found E K t0 L0 L (bd_hints dir') idxs' (λ j, length (default [] (L !! j))) 0
        ∧ tree_found Conf E K t0 L0 L idxs' (λ j, length (default [] (L !! j))) ck (bd_trees dir') id k)
    ∧ dir_rep Conf mc E K t0 dir' (replay (mjoin L0)).
Proof.
  intros He Hf Hl Hp Hh Hns Ht Hnow. unfold DataToHint, DataToHintDir. rewrite (ListFiles_new mc _ L Hf Hl).
  destruct (build_chunks_ok Conf mc E K He t0 (bd_data dir) L0 L Hf Hl Hp (bd_hints dir) idxs ns Hh Hns now (Z.to_nat MAX_NUM_CHUNK) Hnow
    (newHintMgr false (bd_hints dir) (bd_merged dir)) 0%nat r) as (h & r' & Hb & Hbt); [apply new_built|by vm_compute|].
  change (Z.to_nat (MAX_NUM_CHUNK - 1 + 1 - 0)) with (Z.to_nat MAX_NUM_CHUNK). change (Z.of_nat 0) with 0 in Hb. rewrite Hb. cbn [mbind option_bind].
  eexists _, r'. split; [done|]. split; [done|]. split; [done|]. destruct (built_found Conf mc E K t0 L0 L Hl Hp (bd_hints dir) idxs ns h Hbt) as (idxs' & Hh' & Hmore).
  split; [exists idxs'; split; [done|by eapply tree_kept]|]. exists L0, L. split; [exact Hf|]. split; [exact Hl|]. split; [exact Hp|]. split; [|done].
  eexists idxs', _, ck, id, k. split; [|by eapply tree_kept].
  intros j _. apply Hh'. lia.
Qed.

End Props.

(** The directory of a crash: the older chunk has no hint file, the newer one a file and
    a broken one, and there is the tree of both. *)
Lemma crash_hints_found idx :
  loadHintIndex demo_hint_bytes = Some (inl idx) → hx_file idx = demo_hint_bytes → file_holds idx [demo_it 1 0 0] → datasize (hx_meta idx) = 256 →
  hints_found demo_ext demo_keys bucket_tree demo_log demo_log (bd_hints crash_dir)
    (λ j, if decide (j = 1%nat) then [idx] else []) (λ j, if decide (j = 1%nat) then 1%nat else 0%nat) 0.
Proof.
  intros H1 H2 H3 H4 [|[|j]] _ Hne; [|apply (demo_hints_found idx H1 H2 H3 H4 1%nat); [apply le_n|exact Hne]|done].
  split; [split; [done|by intros [|]|by intros f]|apply Nat.le_0_l|done|]. exists []. by repeat split.
Qed.

Lemma buildhint_completes_witness :
  ∃ dir r, DataToHint demo_conf DefaultMCConfig demo_ext crash_dir TDir 1000 ResetAll = Some (dir, None, r)
    ∧ is_Some (bd_hints dir !! (0, 0)) ∧ bd_trees dir = {[(1, 0) := demo_tree_file]} ∧ dir_rep demo_conf DefaultMCConfig demo_ext demo_keys bucket_tree dir (replay (mjoin demo_log)).
Proof.
  destruct demo_conf_fits as (_ & _ & _ & _ & Hc5).
  destruct demo_hint_loads as (idx & Hx1 & Hx2 & Hx3 & Hx4). destruct old_tree_loads as (t & Ht1 & Ht2 & Ht3).
  destruct (buildhint_completes demo_conf DefaultMCConfig demo_ext demo_keys bucket_tree crash_dir demo_log demo_log
    (λ j, if decide (j = 1%nat) then [idx] else []) (λ j, if decide (j = 1%nat) then 1%nat else 0%nat) 1 (mkHintID 1 0) 1 1000 ResetAll)
    as (dir & r & Hb & _ & Htr & (idxs & Hh & _) & Hrep);
    [exact demo_env|exact demo_log_files|exact demo_log_ok|exact demo_log_pairs|exact (crash_hints_found idx Hx1 Hx2 Hx3 Hx4)| | |discriminate|].
  - intros [|[|j]] sp Hj; [discriminate Hj|discriminate Hj|]. cbn [crash_dir bd_hints]. rewrite lookup_insert_ne, lookup_singleton_ne by (intros [= Hc _]; lia). reflexivity.
  - apply (good_tree demo_conf demo_ext demo_keys bucket_tree demo_log demo_log _ _ 1 (bd_trees crash_dir) 0 demo_tree_file 1 t old_map);
      [reflexivity|exact Hc5|lia|exact Ht1|exact Ht2|exact Ht3|exact old_tree_log|]. intros _. split; [reflexivity|intros _; exact (le_n 1)].
  - exists dir, r. split; [exact Hb|]. split; [|split; [exact Htr|exact Hrep]]. destruct (Hh 0%nat ltac:(lia) ltac:(discriminate)) as [Hfs _ Hreach _].
    destruct (idxs 0%nat) as [|x xs]; [vm_compute in Hreach; discriminate Hreach|]. pose proof (hfs_file _ _ _ Hfs 0 x eq_refl) as Hx.
    exists (hx_file x). exact Hx.
Defined.

(** A data file that ends in the middle of a record is not reported: the error stays
    in a variable of the loop. *)
Definition cut_dir : BucketDir := mkDir {[0 := replicate 16 0 ++ le_put 4 1 ++ le_put 4 1000 ++ replicate 232 0]} ∅ ∅ ∅ None.
Example buildhint_error_lost :
  (λ x, snd (fst x)) <$> checkHintWithData demo_conf DefaultMCConfig demo_ext (newHintMgr false ∅ ∅) (ListFiles (NewdataStore (bd_data cut_dir))).1 0 1000 ResetAll
    = Some (Some ErrRead)
  ∧ (λ x, (bd_hints (fst (fst x)), snd (fst x))) <$> DataToHint demo_conf DefaultMCConfig demo_ext cut_dir TDir 1000 ResetAll = Some (∅, None).
Proof. split; vm_compute; reflexivity. Qed.

(** A file name of less than three bytes is an index out of range. *)
Example buildhint_short_name : DataToHint demo_conf DefaultMCConfig demo_ext crash_dir (TFile (bstr "7")) 1000 ResetAll = None.
Proof. vm_compute. reflexivity. Qed.
