(* ===== verification/GC.v ===== *)
(** * Garbage collection (src/store/gc.go)

    A run goes through the chunks of a range, oldest first, and copies the records
    the tree points at to the destination, which is an older chunk or the chunk
    itself, rewritten in place from its start. The run is a machine that takes one
    record at a time, so that requests can come in between; the reader sees the
    file as it is when it reads. [None] is a panic or a fatal error. *)

From stdpp Require Import gmap.
From S2P Require Import Prelude Hashing Strconv Config Cmem Key Item Fixtures Leaf HTree DataFile Data.
From S2P Require Import HintFile Hint HintMerge Bucket BucketOpen.

(** ** Statistics *)

Record GCFileState := mkFileState {
  NumBefore : Z; NumReleased : Z; NumReleasedDeleted : Z; SizeBefore : Z;
  SizeReleased : Z; SizeDeleted : Z; SizeBroken : Z; NumNotInHtree : Z
}.
Definition zeroFileState : GCFileState := mkFileState 0 0 0 0 0 0 0 0.

Definition fs_add (s s2 : GCFileState) : GCFileState :=
  mkFileState (i64 (NumBefore s + NumBefore s2)) (i64 (NumReleased s + NumReleased s2))
    (i64 (NumReleasedDeleted s + NumReleasedDeleted s2)) (i64 (SizeBefore s + SizeBefore s2))
    (i64 (SizeReleased s + SizeReleased s2)) (i64 (SizeDeleted s + SizeDeleted s2))
    (i64 (SizeBroken s + SizeBroken s2)) (i64 (NumNotInHtree s + NumNotInHtree s2)).

Definition addRecord (s : GCFileState) (size : Z) (isNewest isDeleted : bool) (sizeBroken : Z) : GCFileState :=
  let rel := if isNewest then 0 else 1 in
  let del := if negb isNewest && isDeleted then 1 else 0 in
  mkFileState (i64 (NumBefore s + 1)) (i64 (NumReleased s + rel)) (i64 (NumReleasedDeleted s + del))
    (i64 (SizeBefore s + u32 (size + sizeBroken)))
    (i64 (i64 (SizeReleased s + rel * size) + sizeBroken)) (i64 (SizeDeleted s + del * size))
    (i64 (SizeBroken s + sizeBroken)) (NumNotInHtree s).
Definition count_missing (s : GCFileState) : GCFileState :=
  mkFileState (NumBefore s) (NumReleased s) (NumReleasedDeleted s) (SizeBefore s) (SizeReleased s) (SizeDeleted s)
    (SizeBroken s) (i64 (NumNotInHtree s + 1)).

(** A run, without its times: [Running] is [gc_at] below. *)
Record GCState := mkGC {
  gc_Begin : Z; gc_End : Z; gc_Src : Z; gc_Dst : Z; gc_Err : option StoreErr; gc_CancelFlag : bool; gc_sum : GCFileState
}.
Definition gc_err (gc : GCState) (e : StoreErr) : GCState :=
  mkGC (gc_Begin gc) (gc_End gc) (gc_Src gc) (gc_Dst gc) (Some e) (gc_CancelFlag gc) (gc_sum gc).
Definition gc_src (gc : GCState) (src : Z) (sum : GCFileState) : GCState :=
  mkGC (gc_Begin gc) (gc_End gc) src (gc_Dst gc) (gc_Err gc) (gc_CancelFlag gc) sum.
Definition gc_dst (gc : GCState) (dst : Z) : GCState :=
  mkGC (gc_Begin gc) (gc_End gc) (gc_Src gc) dst (gc_Err gc) (gc_CancelFlag gc) (gc_sum gc).

(** Where a run is: before chunk [gc_Src], inside it with the position of its
    reader, or at its end. *)
Inductive gc_pc :=
  | AtChunk
  | AtRecord (pos : nat) (offset : Z) (fs : GCFileState)
  | AtEnd.

(** ** The range *)

Inductive gc_range_err := GCStartTooLarge | GCNoFile | GCNothing | GCRead (e : StoreErr).

Section Range.
Context (Conf : HStoreConfig).

(** [for end = next - 1; end >= start; end--]: the last chunk with data, or
    [start - 1]. *)
Fixpoint last_with_data (cs : list dataChunk) (end_ : Z) (n : nat) : option Z :=
  match n with
  | O => Some end_
  | S n => dc ← zget cs end_; if 0 <? dc_size dc then Some end_ else last_with_data cs (end_ - 1) n
  end.

(** The loop over [next] down to [start + 1]. *)
Fixpoint check_end_loop (ds : dataStore) (start next noGCDays now : Z) (n : nat) : option (Z + gc_range_err) :=
  match n with
  | O => Some (inr GCNoFile)
  | S n =>
      dc ← zget (ds_chunks ds) next;
      if getDiskFileSize dc <=? 0 then check_end_loop ds start (next - 1) noGCDays now n
      else
        match getFirstRecTs (dc_chunkid dc) (ds_disk ds) with
        | inr e => Some (inr (GCRead e))
        | inl ts =>
            if noGCDays * 86400 <? now - ts then
              inl <$> last_with_data (ds_chunks ds) (next - 1) (Z.to_nat (next - start))
            else check_end_loop ds start (next - 1) noGCDays now n
        end
  end.
Definition gcCheckEnd (ds : dataStore) (start endChunkID noGCDays now : Z) : option (Z + gc_range_err) :=
  let end_ := if (endChunkID <? 0) || (ds_newHead ds - 1 <=? endChunkID) then ds_newHead ds - 1 else endChunkID in
  let noGCDays := if noGCDays <? 0 then NoGCDays Conf else noGCDays in
  check_end_loop ds start (end_ + 1) noGCDays now (Z.to_nat (end_ + 1 - start)).

(** [for ; start < newHead; start++]. *)
Fixpoint first_with_data (cs : list dataChunk) (start : Z) (n : nat) : option Z :=
  match n with
  | O => Some start
  | S n => dc ← zget cs start; if 0 <? dc_size dc then Some start else first_with_data cs (start + 1) n
  end.
Definition gcCheckStart (o : OpenBucket) (startChunkID : Z) : option (Z + gc_range_err) :=
  let ds := bk_datas (op_bkt o) in
  if negb (startChunkID <? 0) && (ds_newHead ds <? startChunkID) then Some (inr GCStartTooLarge)
  else
    let start := if startChunkID <? 0 then op_NextGCChunk o else startChunkID in
    inl <$> first_with_data (ds_chunks ds) start (Z.to_nat (ds_newHead ds - start)).

Definition gcCheckRange (o : OpenBucket) (startChunkID endChunkID noGCDays now : Z)
    : option (Z * Z + gc_range_err) :=
  start ← gcCheckStart o startChunkID;
  match start with
  | inr e => Some (inr e)
  | inl start =>
      end_ ← gcCheckEnd (bk_datas (op_bkt o)) start endChunkID noGCDays now;
      match end_ with
      | inr e => Some (inr e)
      | inl end_ => Some (if end_ <? start then inr GCNothing else inl (start, end_))
      end
  end.

End Range.

(** ** Before and after *)

Section GC.
Context (Conf : HStoreConfig) (mc : MCConfig) (E : Ext).

Definition hm_with_dumpable (h : hintMgr) (max : Z) : hintMgr :=
  mkHintMgr (hm_maxChunkID h) (hm_chunks h) (hm_maxDumpedHintID h) max (hm_merged h) (hm_state h)
    (hm_collisions h) (hm_mergeChan h) (hm_disk h) (hm_mdisk h).

(** [BeforeBucket]. A merge is one step here, so there is none to wait for. *)
Definition BeforeBucket (o : OpenBucket) (endChunkID : Z) (merge : bool) (now : Z) : option OpenBucket :=
  let h := bk_hints (op_bkt o) in
  let h := hm_with_dumpable (hm_with_state h (Z.lor (hm_state h) HintStateGC)) (endChunkID - 1) in
  h ← (if merge then
         h ← forceRotateSplit h;
         '(_, h, _) ← dumpAndMerge Conf h true now;
         '(h, _) ← Merge Conf h (id_Chunk (ct_HintID (hm_collisions h))) (λ _, false) true;
         Some h
       else Some (RemoveMerged h));
  Some (removeHtree (op_with o (with_hints (op_bkt o) h))).

Definition AfterBucket (o : OpenBucket) : OpenBucket :=
  let h := bk_hints (op_bkt o) in
  op_with o (with_hints (op_bkt o)
    (hm_with_dumpable (hm_with_state h (Z.ldiff (hm_state h) HintStateGC)) (MAX_NUM_CHUNK - 1))).

(** [UpdateHtreePos]: the position of a key that is still in the tree. *)
Definition UpdateHtreePos (t : HTree) (ki : KeyInfo) (newPos : Position) : option HTree :=
  '(meta, _, ok) ← ht_get Conf t ki;
  if ok : bool then ht_set Conf (heap E) t ki meta newPos else Some t.

(** The destination: the nearest older chunk with data, when it is not full, or
    the empty one after it, or the first chunk of the range itself. *)
Fixpoint find_dst (cs : list dataChunk) (start i : Z) (n : nat) : option Z :=
  match n with
  | O => Some start
  | S n =>
      dc ← zget cs i;
      if 0 <? dc_size dc then
        Some (if dc_size dc <? DataFileMax Conf - BodyMax mc then i else if i <? start - 1 then i + 1 else start)
      else find_dst cs start (i - 1) n
  end.

Definition with_dc (o : OpenBucket) (i : Z) (dc : dataChunk) (disk : Disk) : option OpenBucket :=
  ds ← with_chunk (bk_datas (op_bkt o)) i dc;
  Some (op_with o (with_datas (op_bkt o) (with_disk ds disk))).
Definition with_gc_hints (o : OpenBucket) (h : hintMgr) : OpenBucket := op_with o (with_hints (op_bkt o) h).

(** [beginGCWriting] and [endGCWriting] of a chunk of the bucket; the hints of a
    chunk that is done are dumped. *)
Definition begin_writing (o : OpenBucket) (dst src : Z) : option OpenBucket :=
  let ds := bk_datas (op_bkt o) in
  dc ← zget (ds_chunks ds) dst;
  '(dc, disk) ← beginGCWriting dc (ds_disk ds) src;
  with_dc o dst dc disk.
Definition end_writing (o : OpenBucket) (dst now : Z) : option OpenBucket :=
  let ds := bk_datas (op_bkt o) in
  dc ← zget (ds_chunks ds) dst;
  let '(dc, disk) := endGCWriting dc (ds_disk ds) in
  o ← with_dc o dst dc disk;
  '(_, h) ← trydump Conf (bk_hints (op_bkt o)) dst true now;
  Some (with_gc_hints o h).

(** The start of [gc]: [BeforeBucket], the destination, its writer. *)
Definition gc_start (o : OpenBucket) (startChunkID endChunkID : Z) (merge : bool) (now : Z)
    : option (OpenBucket * GCState) :=
  o ← BeforeBucket o endChunkID merge now;
  dst ← find_dst (ds_chunks (bk_datas (op_bkt o))) startChunkID (startChunkID - 1) (Z.to_nat startChunkID);
  o ← begin_writing o dst startChunkID;
  Some (o, mkGC startChunkID endChunkID startChunkID dst None false zeroFileState).

(** The deferred calls, in the order they run. *)
Definition gc_finish (o : OpenBucket) (gc : GCState) (now : Z) : option OpenBucket :=
  o ← end_writing o (gc_Dst gc) now; Some (AfterBucket o).

(** ** One record *)

(** What the run finds out about a record read at [oldPos]: the metadata for the
    hint, whether its key is in the tree, whether it is the newest, and whether
    the key is deleted. *)
Record gc_verdict := mkVerdict { v_meta : Meta; v_found : bool; v_newest : bool; v_deleted : bool }.

Definition gc_look (b : Bucket) (begin_ : Z) (ki : KeyInfo) (rec : Record_) (oldPos : Position) (r : BeansdbRL)
    : option (gc_verdict * BeansdbRL) :=
  let meta := p_meta (r_Payload rec) in
  '(treeMeta, treePos, found) ← ht_get Conf (bk_htree b) ki;
  if found : bool then
    if bool_decide (oldPos = treePos) then
      Some (mkVerdict (set_vhash meta (ValueHash treeMeta)) true true false, r)
    else
      let isDeleted := Ver treeMeta <? 0 in
      '(hintit, hintchunkid, covered) ← getCollisionGC (bk_hints b) ki;
      if covered : bool then
        match hintit with
        | Some it =>
            if bool_decide (mkPos hintchunkid (Offset (Pos (hi_meta it))) = oldPos)
            then Some (mkVerdict (set_vhash meta (Vhash (hi_meta it))) true true isDeleted, r)
            else Some (mkVerdict meta true false isDeleted, r)
        | None =>
            let '(vh, r) := Payload_Getvhash mc E (r_Payload rec) r in
            Some (mkVerdict (set_vhash meta vh) true true isDeleted, r)
        end
      else Some (mkVerdict meta true false isDeleted, r)
  else Some (mkVerdict meta false ((0 <? begin_) && (Ver meta <? 0)) false, r).

(** The copy of a record that is kept: file, tree and hints are written. *)
Definition gc_copy (o : OpenBucket) (dst : Z) (ki : KeyInfo) (w : WriteRecord) (v : gc_verdict) (now : Z)
    : option OpenBucket :=
  let ds := bk_datas (op_bkt o) in
  dc ← zget (ds_chunks ds) dst;
  '(dc, disk, offset) ← AppendRecordGC dc (ds_disk ds) w;
  o ← with_dc o dst dc disk;
  let newPos := mkPos dst offset in
  t ← (if v_found v then UpdateHtreePos (bk_htree (op_bkt o)) ki newPos else Some (bk_htree (op_bkt o)));
  let o := op_with o (with_htree (op_bkt o) t) in
  '(rotated, h) ← hm_set Conf (bk_hints (op_bkt o)) ki (v_meta v) newPos (wrec_RecSize w) true now;
  h ← (if rotated : bool then '(_, h) ← trydump Conf h dst false now; Some h else Some h);
  Some (with_gc_hints o h).

(** The next destination is opened first when the record does not fit. *)
Definition gc_move (o : OpenBucket) (gc : GCState) (ki : KeyInfo) (rec : Record_) (v : gc_verdict) (now : Z)
    : option (OpenBucket * GCState) :=
  let w := wrapRecord rec in
  dc ← zget (ds_chunks (bk_datas (op_bkt o))) (gc_Dst gc);
  '(o, gc) ← (if u32 (DataFileMax Conf) <? u32 (wrec_RecSize w + dc_writingHead dc) then
                o ← end_writing o (gc_Dst gc) now;
                o ← begin_writing o (gc_Dst gc + 1) (gc_Src gc);
                Some (o, gc_dst gc (gc_Dst gc + 1))
              else Some (o, gc));
  o ← gc_copy o (gc_Dst gc) ki w v now;
  Some (o, gc).

(** ** The machine *)

(** The end of a chunk: it is removed unless it was rewritten in place. *)
Definition gc_chunk_done (o : OpenBucket) (gc : GCState) (fs : GCFileState) : option (OpenBucket * GCState) :=
  o ← (if gc_Src gc =? gc_Dst gc then Some o
       else
         let ds := bk_datas (op_bkt o) in
         dc ← zget (ds_chunks ds) (gc_Src gc);
         let '(dc, disk) := dc_Clear dc (ds_disk ds) in with_dc o (gc_Src gc) dc disk);
  let o := if op_NextGCChunk o <=? gc_Src gc + 1
           then dumpGCHistroy (mkOpen (op_bkt o) (op_TreeID o) (gc_Src gc + 1) (op_trees o) (op_gcfile o)) else o in
  Some (o, gc_src gc (gc_Src gc + 1) (fs_add (gc_sum gc) fs)).

Definition gc_stop (o : OpenBucket) (gc : GCState) (now : Z) (r : BeansdbRL)
    : option (OpenBucket * GCState * gc_pc * BeansdbRL) :=
  o ← gc_finish o gc now; Some (o, gc, AtEnd, r).

(** One step of the loop of [gc]. *)
Definition gc_step (o : OpenBucket) (gc : GCState) (pc : gc_pc) (now : Z) (r : BeansdbRL)
    : option (OpenBucket * GCState * gc_pc * BeansdbRL) :=
  let ds := bk_datas (op_bkt o) in
  match pc with
  | AtEnd => Some (o, gc, AtEnd, r)
  | AtChunk =>
      if (gc_End gc <? gc_Src gc) || gc_CancelFlag gc then gc_stop o gc now r
      else
        dc ← zget (ds_chunks ds) (gc_Src gc);
        if dc_size dc <=? 0 then Some (o, gc_src gc (gc_Src gc + 1) (gc_sum gc), AtChunk, r)
        else
          h ← ClearChunk (bk_hints (op_bkt o)) (gc_Src gc);
          let o := with_gc_hints o h in
          match ds_disk ds !! gc_Src gc with
          | None => gc_stop o (gc_err gc ErrOpen) now r
          | Some _ => Some (o, gc, AtRecord 0 0 zeroFileState, r)
          end
  | AtRecord pos offset fs =>
      '(res, s, r) ← Next mc E (mkReader (file_at (ds_disk ds) (gc_Src gc)) pos offset) r;
      match n_err res, n_rec res with
      | Some e, _ => gc_stop o (gc_err gc e) now r
      | None, None => '(o, gc) ← gc_chunk_done o gc fs; Some (o, gc, AtChunk, r)
      | None, Some rec =>
          ki ← NewKeyInfoFromBytes Conf (r_Key rec) (getKeyHash E (r_Key rec)) false;
          '(v, r) ← gc_look (op_bkt o) (gc_Begin gc) ki rec (mkPos (gc_Src gc) (n_offset res)) r;
          let fs := if v_found v then fs else count_missing fs in
          let fs := addRecord fs (wrec_RecSize (wrapRecord rec)) (v_newest v) (v_deleted v) (n_broken res) in
          '(o, gc) ← (if v_newest v then gc_move o gc ki rec v now else Some (o, gc));
          Some (o, gc, AtRecord (sr_pos s) (sr_offset s) fs, r)
      end
  end.

(** A whole run with nothing in between. *)
Fixpoint gc_run (fuel : nat) (o : OpenBucket) (gc : GCState) (pc : gc_pc) (now : Z) (r : BeansdbRL)
    : option (OpenBucket * GCState * BeansdbRL) :=
  match pc, fuel with
  | AtEnd, _ => Some (o, gc, r)
  | _, O => None
  | _, S fuel => '(o, gc, pc, r) ← gc_step o gc pc now r; gc_run fuel o gc pc now r
  end.

(** [CancelGC] sets the flag the loop reads before each chunk. *)
Definition gc_cancel (gc : GCState) : GCState :=
  mkGC (gc_Begin gc) (gc_End gc) (gc_Src gc) (gc_Dst gc) (gc_Err gc) true (gc_sum gc).

End GC.
