(* ===== verification/GCSpec.v ===== *)
(** * What garbage collection does to the data files

    Each operation of a run on a chunk, over the records the chunk holds: a chunk
    that is rewritten in place has its new records at the front, a gap of bytes
    that nothing refers to, and the records still to be read. *)

From stdpp Require Import gmap.
From S2P Require Import Prelude Hashing Strconv Config Cmem Key Item Fixtures Leaf HTree HTreeSpec HTreeMerkle.
From S2P Require Import HTreeProps DataFile Data DataSpec DataLog HintFile Hint HintSpec HintProps HintMerge Bucket BucketSpec.
From S2P Require Import BucketOpen GC.

Section Chunks.
Context (mc : MCConfig).

(** All records of a chunk are on disk and out of the buffer. *)
Definition flushed (g : ghost) : Prop := g_drop g = length (g_recs g).

Lemma flushed_done dc disk g : chunk_inv mc dc disk g → flushed g → g_done g = length (g_recs g).
Proof. intros Hi Hf. pose proof (ci_order _ _ _ _ Hi). unfold flushed in Hf. lia. Qed.

Lemma flushed_file dc disk g :
  chunk_inv mc dc disk g → flushed g →
  dc_wbuf dc = [] ∧ file_at disk (dc_chunkid dc) = file_of (g_recs g) ++ g_gap g ++ file_of (g_left g).
Proof.
  intros Hi Hf. split.
  - rewrite (ci_wbuf _ _ _ _ Hi), drop_ge; [done|]. rewrite length_placed. unfold flushed in Hf. lia.
  - rewrite (ci_file _ _ _ _ Hi), (flushed_done _ _ _ Hi Hf), take_ge by lia. done.
Qed.

(** The first record that is left becomes part of the gap. *)
Definition forget (g : ghost) : ghost :=
  match g_left g with
  | rec :: rest => mkGhost (g_recs g) (g_drop g) (g_done g) (g_gap g ++ enc_rec rec) rest
  | [] => g
  end.

Lemma forget_inv dc disk g : chunk_inv mc dc disk g → chunk_inv mc dc disk (forget g).
Proof.
  intros Hi. unfold forget. destruct (g_left g) as [|rec rest] eqn:Hl; [done|].
  destruct Hi as [H1 H2 H3 H4 H5 H6 H7 H8 H9 H10]. rewrite Hl in *. apply Forall_cons in H2 as [Hr H2].
  pose proof (zlen_enc mc rec Hr) as Hz. destruct (rec_Size_range mc rec Hr) as [_ Hm].
  split; cbn [g_recs g_drop g_done g_gap g_left]; try done.
  - rewrite H6, zlen_app, Hz, sizes_cons. lia.
  - rewrite zlen_app, Hz, Z.add_mod, H8, Hm by lia. done.
  - right. destruct H9 as [[_ Hn]|]; [by rewrite Hl in Hn|done].
  - rewrite H10. change (file_of (rec :: rest)) with (enc_rec rec ++ file_of rest). by rewrite !app_assoc.
Qed.

Lemma left_offset_0 g : left_offset g 0 = sizes (g_recs g) + zlen (g_gap g).
Proof. unfold left_offset. rewrite take_0. change (sizes []) with 0. lia. Qed.

Lemma left_offset_forget g rec rest j :
  g_left g = rec :: rest → rec_ok mc rec → left_offset (forget g) j = left_offset g (S j).
Proof.
  intros Hl Hr. unfold forget. rewrite Hl. unfold left_offset. cbn [g_recs g_gap g_left]. rewrite Hl, firstn_cons.
  rewrite zlen_app, (zlen_enc mc), sizes_cons by done. lia.
Qed.

(** What else is held stays where it is. *)
Lemma forget_held dc disk g off rec :
  chunk_inv mc dc disk g → held g off rec → off ≠ left_offset g 0 ∨ g_left g = [] → held (forget g) off rec.
Proof.
  intros Hi Hh Hne. destruct (g_left g) as [|r0 rest] eqn:Hl; [unfold forget; by rewrite Hl|].
  destruct Hne as [Hne|]; [|done]. destruct Hh as [(i & Hr & Ho)|(j & Hr & Ho)].
  - left. exists i. unfold forget, offset_of in *. rewrite Hl. by cbn [g_recs].
  - destruct j as [|j]; [done|]. right. exists j. pose proof (ci_left _ _ _ _ Hi) as Hok. rewrite Hl in Hok, Hr.
    apply Forall_cons in Hok as [Hr0 _]. rewrite (left_offset_forget g r0 rest) by done. split; [|done].
    unfold forget. rewrite Hl. done.
Qed.

(** One record at most at an offset. *)
Lemma sizes_take_inj recs i j :
  Forall (rec_ok mc) recs → (i <= length recs)%nat → (j <= length recs)%nat → sizes (take i recs) = sizes (take j recs) → i = j.
Proof.
  intros Hok Hi Hj He. destruct (Nat.lt_trichotomy i j) as [Hlt|[?|Hlt]]; [|done|].
  - pose proof (sizes_take_lt mc recs i j Hok ltac:(lia)). lia.
  - pose proof (sizes_take_lt mc recs j i Hok ltac:(lia)). lia.
Qed.

Lemma held_unique dc disk g off rec rec' :
  chunk_inv mc dc disk g → held g off rec → held g off rec' → rec = rec'.
Proof.
  intros Hi Hh Hh'. pose proof (ci_recs _ _ _ _ Hi) as Hok. pose proof (ci_left _ _ _ _ Hi) as Hokl.
  pose proof (zlen_nonneg (g_gap g)) as Hz.
  assert (∀ i j x y, g_recs g !! i = Some x → g_left g !! j = Some y → offset_of g i < left_offset g j) as Hlt.
  { intros i j x y Hx Hy. unfold offset_of, left_offset. apply lookup_lt_Some in Hx.
    pose proof (sizes_take_lt mc _ i (length (g_recs g)) Hok ltac:(lia)) as Hs. rewrite (take_ge _ (length _)) in Hs by lia.
    pose proof (sizes_range mc (take j (g_left g)) ltac:(by apply Forall_take)). lia. }
  destruct Hh as [(i & Hr & Ho)|(i & Hr & Ho)], Hh' as [(j & Hr' & Ho')|(j & Hr' & Ho')].
  - assert (i = j) as ->; [|congruence]. apply (sizes_take_inj (g_recs g)); try done;
      try (apply lookup_lt_Some in Hr, Hr'; lia). unfold offset_of in *. congruence.
  - pose proof (Hlt _ _ _ _ Hr Hr'). lia.
  - pose proof (Hlt _ _ _ _ Hr' Hr). lia.
  - assert (i = j) as ->; [|congruence]. apply (sizes_take_inj (g_left g)); try done;
      try (apply lookup_lt_Some in Hr, Hr'; lia). unfold left_offset in *. lia.
Qed.

(** ** Writing a record *)

Lemma write_over (a b c d : bytes) :
  length b = length d → write_at (a ++ b ++ c) (zlen a) d = a ++ d ++ c.
Proof.
  intros Hl. unfold write_at, zlen. rewrite Nat2Z.id. replace (length a - length (a ++ b ++ c))%nat with 0%nat
    by (rewrite length_app; lia). cbn [replicate]. rewrite app_nil_r, take_app_length. f_equal. f_equal.
  rewrite <- drop_drop, drop_app_length, <- Hl. apply drop_app_length.
Qed.

Lemma write_over_end (a b d : bytes) : write_at (a ++ b) (zlen a) d = a ++ d ++ drop (length d) b.
Proof.
  unfold write_at, zlen. rewrite Nat2Z.id. replace (length a - length (a ++ b))%nat with 0%nat
    by (rewrite length_app; lia). cbn [replicate]. rewrite app_nil_r, take_app_length. f_equal. f_equal.
  by rewrite <- drop_drop, drop_app_length.
Qed.

Definition gc_ghost (g : ghost) (rec : Record_) : ghost :=
  mkGhost (g_recs g ++ [rec]) (S (g_drop g)) (S (g_done g)) (drop (Z.to_nat (rec_Size rec)) (g_gap g)) (g_left g).

(** The writer of a chunk that is written by a run. *)
Definition gc_writer (dc : dataChunk) : Prop := ∃ o, dc_gcWriter dc = Some (mkWriter (dc_writingHead dc) o).

Lemma AppendRecordGC_spec dc disk g rec :
  chunk_inv mc dc disk g → flushed g → gc_writer dc → rec_ok mc rec → dc_writingHead dc + rec_Size rec < 2 ^ 32 →
  g_left g = [] ∨ rec_Size rec <= zlen (g_gap g) →
  ∃ dc' f, AppendRecordGC dc disk (wrapRecord rec) = Some (dc', <[dc_chunkid dc := f]> disk, dc_writingHead dc)
    ∧ chunk_inv mc dc' (<[dc_chunkid dc := f]> disk) (gc_ghost g rec) ∧ gc_writer dc'
    ∧ dc_chunkid dc' = dc_chunkid dc ∧ dc_rewriting dc' = dc_rewriting dc
    ∧ dc_writingHead dc' = dc_writingHead dc + rec_Size rec.
Proof.
  intros Hi Hf [o Hw] Hr H32 Hroom. destruct (flushed_file _ _ _ Hi Hf) as [Hbuf Hfile]. pose proof (flushed_done _ _ _ Hi Hf) as Hdone.
  destruct (rec_Size_range mc rec Hr) as [Hs Hs2]. destruct (chunk_bounds _ _ _ _ Hi) as ([H0 _] & _ & _).
  pose proof Hi as [I1 I2 I3 I4 I5 I6 I7 I8 I9 I10].
  assert (u32 (dc_writingHead dc + rec_Size rec) = dc_writingHead dc + rec_Size rec) as Hu by (apply u32_small; unfold is_u32; lia).
  pose proof (zlen_enc mc rec Hr) as Hz. pose proof (sizes_range mc _ I2) as [Hl0 _]. pose proof (zlen_nonneg (g_gap g)) as Hg0.
  assert (write_at (file_at disk (dc_chunkid dc)) (dc_writingHead dc) (enc_rec rec)
    = file_of (g_recs g ++ [rec]) ++ drop (Z.to_nat (rec_Size rec)) (g_gap g) ++ file_of (g_left g)) as Hwr.
  { rewrite Hfile, I5, <- (zlen_file_of mc (g_recs g)) by done. rewrite file_of_app.
    change (file_of [rec]) with (enc_rec rec ++ []). rewrite app_nil_r, <- app_assoc.
    destruct Hroom as [->|Hgap].
    - change (file_of []) with (@nil Z). rewrite !app_nil_r, write_over_end. f_equal. f_equal. f_equal. unfold zlen in Hz. lia.
    - rewrite <- (take_drop (Z.to_nat (rec_Size rec)) (g_gap g)) at 1. rewrite <- (app_assoc (take _ _)).
      apply write_over. rewrite length_take. unfold zlen in *. lia. }
  unfold AppendRecordGC. change (wrec_RecSize (wrec_set_pos (wrapRecord rec) _)) with (rec_Size rec). rewrite Hu, Hw.
  cbn [mbind option_bind]. unfold sw_append. change (wrec_append (wrec_set_pos (wrapRecord rec) _) true) with (enc_rec rec).
  cbn [sw_pos]. rewrite Hwr. eexists _, _. split; [done|]. split; [|split; [|by split_and!]].
  2:{ unfold gc_writer. cbn [dc_gcWriter dc_writingHead]. rewrite Hz. by eexists. }
  assert (zlen (drop (Z.to_nat (rec_Size rec)) (g_gap g)) = Z.max 0 (zlen (g_gap g) - rec_Size rec)) as Hzd.
  { unfold zlen in *. rewrite length_drop. lia. }
  assert (sizes (g_recs g ++ [rec]) = dc_writingHead dc + rec_Size rec) as Hsz.
  { rewrite sizes_app, sizes_cons, I5. change (sizes []) with 0. lia. }
  split; unfold gc_ghost; cbn [g_recs g_drop g_done g_gap g_left dc_wbuf dc_chunkid dc_writingHead dc_size].
  - apply Forall_app. by split; [|apply Forall_singleton].
  - done.
  - rewrite length_app. cbn [length]. lia.
  - rewrite Hbuf, drop_ge; [done|]. rewrite length_placed, length_app. unfold flushed in Hf. cbn [length]. lia.
  - done.
  - rewrite Hzd, I6. destruct (Z.leb_spec (dc_writingHead dc + zlen (g_gap g) + sizes (g_left g)) (dc_writingHead dc + rec_Size rec));
      destruct Hroom as [Hlf|Hgap]; try rewrite Hlf in *; change (sizes []) with 0 in *; lia.
  - destruct (dc_size dc <=? _); lia.
  - rewrite Hzd. destruct (Z.max_spec 0 (zlen (g_gap g) - rec_Size rec)) as [[? ->]|[? ->]]; [|done]. Z.div_mod_to_equations. lia.
  - right. rewrite length_app. unfold flushed in Hf. cbn [length]. lia.
  - unfold file_at. rewrite lookup_insert_eq. cbn [default from_option id]. rewrite take_ge; [done|].
    rewrite length_app. cbn [length]. lia.
Qed.

(** ** Starting and ending a destination *)

(** An older chunk is appended to. *)
Lemma begin_append dc disk g src :
  chunk_inv mc dc disk g → flushed g → plain g → dc_rewriting dc = false → dc_chunkid dc ≠ src →
  ∃ dc' disk', beginGCWriting dc disk src = Some (dc', disk') ∧ chunk_inv mc dc' disk' g ∧ gc_writer dc'
    ∧ dc_chunkid dc' = dc_chunkid dc ∧ dc_rewriting dc' = false ∧ dc_writingHead dc' = dc_size dc ∧ dc_size dc' = dc_size dc
    ∧ ∀ c, file_at disk' c = file_at disk c.
Proof.
  intros Hi Hf [Hgap Hleft] Hrw Hne. destruct (flushed_file _ _ _ Hi Hf) as [Hbuf Hfile].
  pose proof Hi as [I1 I2 I3 I4 I5 I6 I7 I8 I9 I10]. pose proof (sizes_range mc _ I1) as [S0 S1].
  rewrite Hgap, Hleft in *. change (zlen []) with 0 in *. change (sizes []) with 0 in *. change (file_of []) with (@nil Z) in *.
  rewrite !app_nil_r in Hfile. assert (zlen (file_at disk (dc_chunkid dc)) = dc_size dc) as Hz by (rewrite Hfile, (zlen_file_of mc) by done; lia).
  unfold beginGCWriting. destruct (Z.eqb_spec (dc_chunkid dc) src); [done|]. rewrite Hrw. cbn [negb].
  destruct (GetStreamWriter_append (dc_chunkid dc) disk) as (disk' & -> & Hsame).
  { rewrite Hz, I6, I5. rewrite !Z.add_0_r. done. }
  { by rewrite Hz. }
  cbn [mbind option_bind]. rewrite Hz. eexists _, disk'. split; [done|]. split_and!; try done; [|by eexists].
  split; cbn [dc_wbuf dc_chunkid dc_writingHead dc_size]; rewrite ?Hgap, ?Hleft; try done; try (change (zlen []) with 0; change (sizes []) with 0; lia).
  rewrite Hsame, I10. done.
Qed.

(** The chunk itself is rewritten: its records from the [k]th on are left to be
    read. *)
Definition rewind (k : nat) (g : ghost) : ghost := mkGhost [] 0 0 (file_of (take k (g_recs g))) (drop k (g_recs g)).

Lemma begin_rewrite dc disk g src k :
  chunk_inv mc dc disk g → flushed g → plain g → dc_chunkid dc = src →
  ∃ dc' disk', beginGCWriting dc disk src = Some (dc', disk') ∧ chunk_inv mc dc' disk' (rewind k g) ∧ gc_writer dc'
    ∧ dc_chunkid dc' = dc_chunkid dc ∧ dc_rewriting dc' = true ∧ dc_writingHead dc' = 0 ∧ dc_size dc' = dc_size dc
    ∧ ∀ c, file_at disk' c = file_at disk c.
Proof.
  intros Hi Hf [Hgap Hleft] Heq. destruct (flushed_file _ _ _ Hi Hf) as [Hbuf Hfile].
  pose proof Hi as [I1 I2 I3 I4 I5 I6 I7 I8 I9 I10].
  pose proof (zlen_file_of mc (take k (g_recs g)) ltac:(by apply Forall_take)) as Hzk.
  pose proof (sizes_range mc (take k (g_recs g)) ltac:(by apply Forall_take)) as [_ Hmk].
  unfold beginGCWriting. rewrite Heq, Z.eqb_refl. cbn [negb].
  assert (∃ disk', GetStreamWriter src disk false = Some (mkWriter 0 0, disk') ∧ ∀ c, file_at disk' c = file_at disk c)
    as (disk' & -> & Hsame).
  { unfold GetStreamWriter. destruct (disk !! src) as [f|] eqn:Hd; [by exists disk|]. eexists. split; [done|].
    intros c. unfold file_at. destruct (decide (c = src)) as [->|]; [by rewrite lookup_insert_eq, Hd|by rewrite lookup_insert_ne]. }
  cbn [mbind option_bind]. eexists _, disk'. split; [done|]. split_and!; try done; [|by eexists].
  split; cbn [rewind g_recs g_drop g_done g_gap g_left dc_wbuf dc_chunkid dc_writingHead dc_size]; try done.
  - by apply Forall_drop.
  - rewrite I6, I5, Hgap, Hleft, Hzk. change (zlen []) with 0. change (sizes []) with 0.
    rewrite <- (take_drop k (g_recs g)) at 1. rewrite sizes_app. lia.
  - by rewrite Hzk.
  - by right.
  - rewrite Hsame, <- Heq, Hfile, Hgap, Hleft. change (file_of []) with (@nil Z). rewrite !app_nil_r.
    rewrite <- file_of_app, take_drop. done.
Qed.

Lemma rewind_held dc disk g k off rec :
  chunk_inv mc dc disk g → plain g → held g off rec → offset_of g k <= off → (k <= length (g_recs g))%nat → held (rewind k g) off rec.
Proof.
  intros Hi [_ Hl] [(i & Hr & ->)|(j & Hr & _)] Hle Hk; [|by rewrite Hl in Hr]. pose proof (ci_recs _ _ _ _ Hi) as Hok.
  pose proof (lookup_lt_Some _ _ _ Hr) as Hlt. assert (k <= i)%nat as Hki.
  { destruct (decide (k <= i)%nat); [done|]. unfold offset_of in Hle. pose proof (sizes_take_lt mc _ i k Hok ltac:(lia)). lia. }
  right. exists (i - k)%nat. cbn [rewind g_left]. rewrite lookup_drop. replace (k + (i - k))%nat with i by lia. split; [done|].
  unfold left_offset, rewind, offset_of. cbn [g_recs g_gap g_left]. rewrite (zlen_file_of mc) by (by apply Forall_take).
  change (sizes []) with 0. rewrite Z.add_0_l, <- sizes_app. f_equal.
  replace i with (k + (i - k))%nat at 1 by lia. by rewrite <- take_take_drop.
Qed.

Lemma rewind_offset dc disk g k : chunk_inv mc dc disk g → left_offset (rewind k g) 0 = offset_of g k.
Proof.
  intros Hi. rewrite left_offset_0. cbn [rewind g_recs g_gap]. change (sizes []) with 0.
  rewrite (zlen_file_of mc) by (apply Forall_take, Hi). done.
Qed.

(** A destination that has nothing left to be read is cut to its records. *)
Definition settle (g : ghost) : ghost := mkGhost (g_recs g) (g_drop g) (g_done g) [] [].

Lemma end_settles dc disk g :
  chunk_inv mc dc disk g → flushed g → g_left g = [] → (dc_rewriting dc = false → plain g) →
  let res := endGCWriting dc disk in
  chunk_inv mc (fst res) (snd res) (settle g) ∧ dc_chunkid (fst res) = dc_chunkid dc ∧ dc_rewriting (fst res) = false
  ∧ ∀ c, c ≠ dc_chunkid dc → file_at (snd res) c = file_at disk c.
Proof.
  intros Hi Hf Hleft Hrw. destruct (flushed_file _ _ _ Hi Hf) as [Hbuf Hfile].
  pose proof (flushed_done _ _ _ Hi Hf) as Hdone. pose proof Hi as [I1 I2 I3 I4 I5 I6 I7 I8 I9 I10]. pose proof (sizes_range mc _ I1) as [S0 _].
  rewrite Hleft in *. change (sizes []) with 0 in *. change (file_of []) with (@nil Z) in *. rewrite app_nil_r in Hfile.
  pose proof (zlen_nonneg (g_gap g)) as Hg0. unfold endGCWriting.
  destruct (dc_rewriting dc && _) eqn:Hcut; cbn [fst snd].
  - apply andb_true_iff in Hcut as [_ Hlt%Z.ltb_lt].
    destruct (disk !! dc_chunkid dc) as [f|] eqn:Hd.
    2:{ unfold file_at in Hfile. rewrite Hd in Hfile. cbn [default from_option id] in Hfile. apply (f_equal zlen) in Hfile.
        rewrite zlen_app, (zlen_file_of mc) in Hfile by done. change (zlen []) with 0 in Hfile. lia. }
    assert (f = file_of (g_recs g) ++ g_gap g) as Hff by (unfold file_at in Hfile; by rewrite Hd in Hfile).
    pose proof (zlen_file_of mc (g_recs g) I1) as Hzf.
    unfold Truncate. rewrite Hd. destruct (Z.eqb_spec (dc_writingHead dc) 0) as [Hz|Hnz]; cbn [fst snd].
    + split; [|split_and!; try done; intros c Hc; unfold file_at; by rewrite lookup_delete_ne].
      assert (g_recs g = []) as Hnil.
      { destruct (g_recs g) as [|rec l]; [done|]. apply Forall_cons in I1 as [Hr Hl]. rewrite sizes_cons in I5.
        pose proof (rec_Size_range mc rec Hr) as [? _]. pose proof (sizes_range mc _ Hl) as [? _]. lia. }
      split; cbn [settle g_recs g_drop g_done g_gap g_left dc_wbuf dc_chunkid dc_writingHead dc_size]; try done;
        [change (zlen []) with 0; change (sizes []) with 0; lia|lia|by left|].
      unfold file_at. by rewrite lookup_delete_eq, Hnil, take_nil.
    + split; [|split_and!; try done; intros c Hc; unfold file_at; by rewrite lookup_insert_ne].
      split; cbn [settle g_recs g_drop g_done g_gap g_left dc_wbuf dc_chunkid dc_writingHead dc_size]; try done;
        [change (zlen []) with 0; change (sizes []) with 0; lia|lia|by left|].
      unfold file_at. rewrite lookup_insert_eq. cbn [default from_option id]. rewrite Hff, Hdone, (take_ge (g_recs g)) by lia.
      rewrite <- app_assoc, take_app_length' by (unfold zlen in *; lia). change (file_of []) with (@nil Z). by rewrite !app_nil_r.
  - assert (zlen (g_gap g) = 0) as Hz.
    { destruct (dc_rewriting dc); cbn [andb] in Hcut; [apply Z.ltb_ge in Hcut; lia|]. destruct (Hrw eq_refl) as [-> _]. done. }
    assert (g_gap g = []) as Hgap by (unfold zlen in Hz; destruct (g_gap g); [done|cbn [length] in Hz; lia]).
    rewrite Hgap in *. change (zlen []) with 0 in *.
    split; [|by split_and!]. split; cbn [settle g_recs g_drop g_done g_gap g_left dc_wbuf dc_chunkid dc_writingHead dc_size]; try done; by left.
Qed.

Lemma settle_held g off rec : g_left g = [] → held g off rec → held (settle g) off rec.
Proof. intros Hl [(i & Hr & Ho)|(j & Hr & _)]; [|by rewrite Hl in Hr]. left. by exists i. Qed.

Lemma clear_empties dc disk g :
  chunk_inv mc dc disk g →
  let res := dc_Clear dc disk in
  chunk_inv mc (fst res) (snd res) no_ghost ∧ dc_chunkid (fst res) = dc_chunkid dc ∧ dc_rewriting (fst res) = false
  ∧ ∀ c, c ≠ dc_chunkid dc → file_at (snd res) c = file_at disk c.
Proof.
  intros Hi. cbn [dc_Clear fst snd]. split; [|split_and!; try done; intros c Hc; unfold file_at; by rewrite lookup_delete_ne].
  split; try done; [by left|]. cbn [dc_chunkid]. unfold file_at. by rewrite lookup_delete_eq.
Qed.

End Chunks.

(** ** Hints *)

Section Hints.
Context (Conf : HStoreConfig) (mc : MCConfig) (E : Ext) (K : bytes → Prop).

Lemma all_known_insert G i gs : all_known E K G → Forall (Forall (known E K)) gs → all_known E K (<[i := gs]> G).
Proof. intros HG Hgs. by apply Forall_insert. Qed.

Lemma trydump_known h G a c dumplast now :
  mgr_rep Conf h G a → all_known E K G → 0 <= c < MAX_NUM_CHUNK →
  ∃ s h' G', trydump Conf h c dumplast now = Some (s, h') ∧ mgr_rep Conf h' G' a ∧ all_known E K G'
    ∧ hm_collisions h' = hm_collisions h.
Proof.
  intros Hr Hk Hc. destruct (mgr_chunk Conf h G a c Hr Hc) as (ck & gs & Hz & Hg & _).
  destruct (hm_trydump_spec Conf h G a c dumplast now ck gs Hr Hc Hz Hg) as (s & h' & c' & gs' & -> & Hr' & _ & Hcl & _ & Hgs).
  eexists s, h', _. split; [done|]. split; [done|]. split; [|done]. apply all_known_insert; [done|].
  unfold all_known in Hk. rewrite Forall_lookup in Hk. pose proof (Hk _ _ Hg). destruct Hgs as [->| ->]; [done|].
  apply Forall_app. by repeat constructor.
Qed.

Lemma ClearChunk_known h G a c :
  mgr_rep Conf h G a → all_known E K G → 0 <= c < MAX_NUM_CHUNK →
  ∃ h' G' a', ClearChunk h c = Some h' ∧ mgr_rep Conf h' G' a' ∧ all_known E K G' ∧ hm_collisions h' = hm_collisions h.
Proof.
  intros Hr Hk Hc. destruct (mgr_chunk Conf h G a c Hr Hc) as (ck & gs & Hz & Hg & _ & Hlt & _).
  unfold ClearChunk. rewrite (zset_lookup _ _ _ ck) by done. cbn [mbind option_bind]. set (h' := RemoveHintfilesByChunk _ _).
  exists h', (<[Z.to_nat c := [[]]]> G), (<[c := ∅]> (fst a), hm_maxChunkID h'). split; [done|]. split; [|split; [|done]].
  - apply (mgr_rep_upd Conf h G a h' (Z.to_nat c) (newHintChunk c)); try done.
    + apply newHintChunk_rep.
    + rewrite Z2Nat.id, lookup_insert_eq by lia. done.
    + intros j Hj. apply lookup_insert_ne. lia.
    + pose proof (mr_max _ _ _ _ Hr) as Hmx. pose proof (mr_range _ _ _ _ Hr). change (hm_maxChunkID h') with (hm_maxChunkID h). lia.
  - apply all_known_insert; [done|]. by repeat constructor.
Qed.

(** Keys with distinct hashes are never taken for covered by a collision. *)
Lemma collision_loop_known id rsplits rgs ki :
  keys_distinct E K → K (ki_StringKey ki) → ki_KeyHash ki = getKeyHash E (ki_StringKey ki) →
  Forall2 (split_holds Conf) rsplits rgs → Forall (Forall (known E K)) rgs →
  ∃ it c stop, collision_loop id rsplits (ki_KeyHash ki) (ki_StringKey ki) false = Some (it, c, false, stop).
Proof.
  intros Hd HK Hh. induction 1 as [|sp items rsplits rgs Hsp Hrest IH]; intros Hk; cbn [collision_loop]; [by eexists _, _, _|].
  apply Forall_cons in Hk as [Hi Hk]. destruct Hsp as [b Hok Hfit|idx items Hfh]; cbn [sp_buf]; [|by eexists _, _, _].
  destruct (hb_Get_spec Conf b (ki_KeyHash ki) (ki_StringKey ki) Hok) as (coll & -> & Hcoll). cbn [mbind option_bind].
  assert (coll = false) as ->.
  { destruct coll; [|done]. destruct (Hcoll eq_refl) as (it & Hin & Hkh & Hne). rewrite Forall_forall in Hi.
    destruct (Hi it Hin) as [HKi Hki]. exfalso. apply Hne, (Hd _ _ HKi HK). congruence. }
  destruct (hint_map _ !! _); [by eexists _, _, _|]. by apply IH.
Qed.

Lemma getCollisionGC_none h G a ki :
  keys_distinct E K → mgr_rep Conf h G a → all_known E K G → ct_Items (hm_collisions h) = ∅ →
  K (ki_StringKey ki) → ki_KeyHash ki = getKeyHash E (ki_StringKey ki) →
  ∃ it c, getCollisionGC h ki = Some (it, c, false).
Proof.
  intros Hd Hr Hk Hct HK Hh. unfold getCollisionGC, ct_get. rewrite Hct, lookup_empty. unfold hm_getItemCollision.
  pose proof (mr_len _ _ _ _ Hr) as Hl. pose proof (mr_max _ _ _ _ Hr). pose proof (mr_range _ _ _ _ Hr).
  assert (Z.to_nat (hm_maxChunkID h + 1) <= length G)%nat as Hn by (unfold zlen in Hl; lia). revert Hn.
  generalize (None : option HintItem) 0. induction (Z.to_nat (hm_maxChunkID h + 1)) as [|n IH]; intros it c Hn; cbn [coll_loop]; [by eexists _, _|].
  destruct (lookup_lt_is_Some_2 G n ltac:(lia)) as [gs Hg].
  destruct (Forall2_lookup_r _ _ _ _ _ (mr_chunks _ _ _ _ Hr) Hg) as (ck & Hck & Hcr). rewrite zget_nat, Hck. cbn [mbind option_bind].
  unfold hc_getItemCollision. destruct (collision_loop_known (hc_id ck) (rev (hc_splits ck)) (rev gs) ki) as (it' & c' & stop & ->); try done.
  { rewrite !rev_alt. by apply Forall2_reverse, cr_holds. }
  { rewrite rev_alt. apply Forall_reverse. unfold all_known in Hk. rewrite Forall_lookup in Hk. by eapply Hk. }
  destruct (false || stop); [by eexists _, _|]. apply IH. lia.
Qed.

End Hints.
