(* ===== verification/GCInv.v ===== *)
(** * The invariant of a garbage collection run

    While a run copies records, the bucket still represents the same map: every
    position in the tree names a record that is held, and what the run has read
    and not copied is not referred to. *)

From stdpp Require Import gmap.
From S2P Require Import Prelude Hashing Strconv Config Cmem Key Item Fixtures Leaf HTree HTreeSpec HTreeMerkle.
From S2P Require Import HTreeProps DataFile Data DataSpec DataLog HintFile Hint HintSpec HintProps HintMerge Bucket BucketSpec.
From S2P Require Import BucketOpen GC GCSpec.

Lemma models_norm Conf t m kh it : models Conf t m → m !! kh = Some it → norm it = it.
Proof.
  intros (_ & ess & Hr & Hst) [_ (es & He & Ha)]%Hst. destruct (rep_entries _ _ _ Hr _ _ He) as [Hok _].
  unfold entries_ok in Hok. rewrite Forall_forall in Hok. apply (Hok (kh, it)). by apply assoc_in.
Qed.

(** What the steps of a run leave alone: the place of the tree, the head, and the
    chunks after the source. *)
Definition same_open (src : Z) (o o' : OpenBucket) : Prop :=
  same_frame (bk_htree (op_bkt o)) (bk_htree (op_bkt o'))
  ∧ ds_newHead (bk_datas (op_bkt o')) = ds_newHead (bk_datas (op_bkt o))
  ∧ drop (Z.to_nat (src + 1)) (ds_chunks (bk_datas (op_bkt o'))) = drop (Z.to_nat (src + 1)) (ds_chunks (bk_datas (op_bkt o))).

#[export] Instance same_open_preorder src : PreOrder (same_open src).
Proof.
  split; [done|]. intros x y z (H1 & H2 & H3) (H4 & H5 & H6). split; [by eapply same_frame_trans|]. split; congruence.
Qed.

Lemma same_open_put (i src : Z) o o' dc :
  0 <= i <= src → same_frame (bk_htree (op_bkt o)) (bk_htree (op_bkt o')) →
  ds_newHead (bk_datas (op_bkt o')) = ds_newHead (bk_datas (op_bkt o)) →
  ds_chunks (bk_datas (op_bkt o')) = <[Z.to_nat i := dc]> (ds_chunks (bk_datas (op_bkt o))) → same_open src o o'.
Proof. intros Hi Hf Hh Hc. split; [done|]. split; [done|]. rewrite Hc. apply drop_insert_lt. lia. Qed.

Section Run.
Context (Conf : HStoreConfig) (mc : MCConfig) (E : Ext) (K : bytes → Prop).
Hypothesis (env : env_ok Conf mc E K).
Hypothesis (depth_ok : 0 <= TreeDepth Conf <= 16).

(** ** Changing a chunk *)

Lemma holds_insert gs i g g' pos rec :
  zget gs i = Some g → (ChunkID pos = i → held g (Offset pos) rec → held g' (Offset pos) rec) →
  holds gs pos rec → holds (<[Z.to_nat i := g']> gs) pos rec.
Proof.
  intros Hg Hk (g0 & Hg0 & Hh). pose proof (zget_Some_lt _ _ _ Hg) as Hlt. unfold holds.
  destruct (decide (ChunkID pos = i)) as [<-|Hne].
  - rewrite Hg in Hg0. simplify_eq. exists g'. split; [by eapply zget_insert|]. by apply Hk.
  - exists g0. split; [|done]. apply zget_Some in Hg0 as [H0 Hg0]. apply zget_Some. split; [done|].
    rewrite list_lookup_insert_ne by lia. done.
Qed.

Lemma all_owned_insert t gs i g' :
  all_owned Conf mc E K t gs → Forall (owned Conf mc E K t) (g_recs g') → Forall (owned Conf mc E K t) (g_left g') →
  all_owned Conf mc E K t (<[i := g']> gs).
Proof.
  intros Ho H1 H2 j g Hj. apply list_lookup_insert_Some in Hj as [(<- & <- & _)|[_ Hj]]; [done|]. by apply (Ho j).
Qed.

(** A chunk below the head, and what the store knows of it. *)
Lemma store_at ds gs todo i :
  store_inv Conf mc ds gs todo → 0 <= i < ds_newHead ds →
  ∃ dc g, zget (ds_chunks ds) i = Some dc ∧ zget gs i = Some g ∧ dc_chunkid dc = i ∧ chunk_inv mc dc (ds_disk ds) g
    ∧ g_done g = (g_drop g + in_flight todo (Z.to_nat i))%nat.
Proof.
  intros Hs Hi. pose proof (si_head _ _ _ _ _ Hs) as Hh. pose proof (si_len _ _ _ _ _ Hs) as Hl. unfold zlen in Hh.
  destruct (zget_lt gs i) as [g Hg]; [unfold zlen; lia|]. destruct (zget_lt (ds_chunks ds) i) as [dc Hdc]; [unfold zlen; lia|].
  exists dc, g. split; [done|]. split; [done|]. apply zget_Some in Hdc as [_ Hdc], Hg as [_ Hg].
  destruct (si_chunks _ _ _ _ _ Hs _ _ _ Hdc Hg) as (H1 & H2 & H3). split; [lia|]. done.
Qed.

Lemma store_put ds gs todo i dc' g' disk' :
  store_inv Conf mc ds gs todo → 0 <= i < ds_newHead ds → dc_chunkid dc' = i → chunk_inv mc dc' disk' g' →
  g_done g' = (g_drop g' + in_flight todo (Z.to_nat i))%nat →
  (∀ c, c ≠ i → file_at disk' c = file_at (ds_disk ds) c) →
  ∃ ds', with_chunk ds i dc' = Some ds' ∧ store_inv Conf mc (with_disk ds' disk') (<[Z.to_nat i := g']> gs) todo
    ∧ ds_chunks ds' = <[Z.to_nat i := dc']> (ds_chunks ds) ∧ ds_newHead ds' = ds_newHead ds.
Proof.
  intros Hs Hi Hid Hc Hfl Hoth. destruct (store_at _ _ _ _ Hs Hi) as (dc & g & Hdc & Hg & _).
  pose proof (si_head _ _ _ _ _ Hs) as Hh. unfold with_chunk. rewrite (zset_lookup _ _ _ dc) by done. cbn [mbind option_bind].
  eexists. split; [done|]. split; [|done]. unfold with_disk. cbn [ds_newHead ds_chunks ds_wbufSize ds_lastFlushTime].
  pose proof (zget_Some_lt _ _ _ Hg) as Hlt. unfold zlen in *.
  eapply store_inv_upd; [done|lia|lia|done|done| |unfold zlen; lia| |lia|lia|apply (si_todo _ _ _ _ _ Hs)].
  - intros j Hj. split; [|done]. apply Hoth. lia.
  - case_decide; [lia|done].
Qed.

(** The records of a chunk may be replaced as long as those the tree points at
    stay where they are. *)
Lemma inv_store b todo A m gs G a ds' gs' :
  bkt_inv Conf mc E K b todo A m gs G a → store_inv Conf mc ds' gs' todo → length gs' = length gs →
  all_owned Conf mc E K (bk_htree b) gs' →
  (∀ kh it rec, m !! kh = Some it → holds gs (Pos it) rec → holds gs' (Pos it) rec) →
  bkt_inv Conf mc E K (with_datas b ds') todo A m gs' G a.
Proof.
  intros [H1 H2 H3 H3' H4 H4' H5 H6 H7 H8] Hs Hl Ho Hk. split; try done.
  - unfold zlen in *. by rewrite Hl.
  - intros key rec vh HA. destruct (H7 _ _ _ HA) as (p0 & x & y & Hm & Hx & Hy & Hz & Hw).
    exists p0, x, y. split_and!; try done. by apply (Hk _ _ _ Hm).
Qed.

Lemma put_chunk o todo A m gs G a i g dc' g' disk' :
  bkt_inv Conf mc E K (op_bkt o) todo A m gs G a → 0 <= i < ds_newHead (bk_datas (op_bkt o)) → zget gs i = Some g →
  dc_chunkid dc' = i → chunk_inv mc dc' disk' g' → g_done g' = (g_drop g' + in_flight todo (Z.to_nat i))%nat →
  (∀ c, c ≠ i → file_at disk' c = file_at (ds_disk (bk_datas (op_bkt o))) c) →
  Forall (owned Conf mc E K (bk_htree (op_bkt o))) (g_recs g') → Forall (owned Conf mc E K (bk_htree (op_bkt o))) (g_left g') →
  (∀ kh it rec, m !! kh = Some it → ChunkID (Pos it) = i → held g (Offset (Pos it)) rec → held g' (Offset (Pos it)) rec) →
  ∃ ds', with_dc o i dc' disk' = Some (op_with o (with_datas (op_bkt o) ds'))
    ∧ bkt_inv Conf mc E K (with_datas (op_bkt o) ds') todo A m (<[Z.to_nat i := g']> gs) G a
    ∧ ds_chunks ds' = <[Z.to_nat i := dc']> (ds_chunks (bk_datas (op_bkt o)))
    ∧ ds_newHead ds' = ds_newHead (bk_datas (op_bkt o)) ∧ ds_disk ds' = disk'.
Proof.
  intros Hb Hi Hg Hid Hc Hfl Hoth Ho1 Ho2 Hk.
  destruct (store_put _ _ _ i dc' g' disk' (bi_store _ _ _ _ _ _ _ _ _ _ _ Hb) Hi Hid Hc Hfl Hoth) as (ds' & Hw & Hs & Hch & Hh).
  unfold with_dc. rewrite Hw. cbn [mbind option_bind]. eexists. split; [done|]. split; [|done].
  eapply inv_store; [done|done|by rewrite length_insert|by apply all_owned_insert; [apply Hb|..]|].
  intros kh it rec Hm Hh'. eapply holds_insert; [done| |done]. intros Hci. by eapply Hk.
Qed.

Lemma flushed_idle ds gs todo i g :
  store_inv Conf mc ds gs todo → 0 <= i < ds_newHead ds → zget gs i = Some g → flushed g → in_flight todo (Z.to_nat i) = 0%nat.
Proof.
  intros Hs Hi Hg Hf. destruct (store_at _ _ _ _ Hs Hi) as (dc & g1 & _ & Hg1 & _ & Hc & Hd). simplify_eq.
  pose proof (flushed_done mc _ _ _ Hc Hf). unfold flushed in Hf. lia.
Qed.

(** ** The invariant *)

(** What holds of the bucket during a run: the chunks up to the end of the range
    are on disk; only the destination may have a gap, and its writer stands
    behind its records; between destination and source nothing is left. *)
Record gc_base (o : OpenBucket) (gc : GCState) (todo : option (Z * nat * Z)) (A : gmap bytes (Record_ * Z))
    (m : gmap Z HTreeItem) (gs : list ghost) (G : list (list (list HintItem))) (a : abs_hints) : Prop := {
  gb_inv : bkt_inv Conf mc E K (op_bkt o) todo A m gs G a;
  gb_range : 0 <= gc_Dst gc <= gc_Src gc ∧ gc_Src gc <= gc_End gc + 1 ∧ gc_Dst gc <= gc_End gc
    ∧ gc_End gc < ds_newHead (bk_datas (op_bkt o));
  gb_flushed i g : Z.of_nat i <= gc_End gc → gs !! i = Some g → flushed g;
  gb_plain i g : Z.of_nat i ≠ gc_Dst gc → gs !! i = Some g → plain g;
  gb_still i dc : Z.of_nat i ≠ gc_Dst gc → ds_chunks (bk_datas (op_bkt o)) !! i = Some dc → dc_rewriting dc = false;
  gb_fits i dc : gc_Src gc <= Z.of_nat i <= gc_End gc → ds_chunks (bk_datas (op_bkt o)) !! i = Some dc →
    dc_size dc <= DataFileMax Conf;
  gb_empty i g : gc_Dst gc < Z.of_nat i < gc_Src gc → gs !! i = Some g → g_recs g = [];
  gb_dst dc g : zget (ds_chunks (bk_datas (op_bkt o))) (gc_Dst gc) = Some dc → zget gs (gc_Dst gc) = Some g →
    gc_writer dc ∧ dc_writingHead dc <= DataFileMax Conf ∧ (dc_rewriting dc = false → plain g)
}.

(** The reader of chunk [gc_Src] stands at [off] and has the records [l] before
    it. *)
Definition reading (gs : list ghost) (gc : GCState) (off : Z) (l : list Record_) : Prop :=
  ∃ gd gsrc, zget gs (gc_Dst gc) = Some gd ∧ zget gs (gc_Src gc) = Some gsrc
    ∧ if decide (gc_Dst gc = gc_Src gc) then g_left gd = l ∧ off = left_offset gd 0
      else g_left gd = [] ∧ ∃ k, (k <= length (g_recs gsrc))%nat ∧ l = drop k (g_recs gsrc) ∧ off = offset_of gsrc k.

(** The tree refers to nothing that has been read. *)
Definition passed (m : gmap Z HTreeItem) (gc : GCState) (off : Z) : Prop :=
  gc_Dst gc < gc_Src gc → ∀ kh it, m !! kh = Some it → ChunkID (Pos it) = gc_Src gc → off <= Offset (Pos it).

(** A bucket without a run. *)
Definition quiet (o : OpenBucket) (gs : list ghost) : Prop :=
  (∀ i g, gs !! i = Some g → plain g)
  ∧ ∀ i dc, ds_chunks (bk_datas (op_bkt o)) !! i = Some dc → dc_rewriting dc = false.

Definition gc_inv (o : OpenBucket) (gc : GCState) (pc : gc_pc) (todo : option (Z * nat * Z)) (A : gmap bytes (Record_ * Z))
    (m : gmap Z HTreeItem) (gs : list ghost) (G : list (list (list HintItem))) (a : abs_hints) : Prop :=
  match pc with
  | AtEnd => bkt_inv Conf mc E K (op_bkt o) todo A m gs G a ∧ quiet o gs
  | AtChunk => gc_base o gc todo A m gs G a ∧ (gc_CancelFlag gc = true → gc_Dst gc < gc_Src gc)
      ∧ ∀ gd, zget gs (gc_Dst gc) = Some gd →
          (gc_Dst gc = gc_Src gc → g_recs gd = [] ∧ g_gap gd = []) ∧ (gc_Dst gc < gc_Src gc → g_left gd = [])
  | AtRecord pos off _ => gc_base o gc todo A m gs G a ∧ gc_Src gc <= gc_End gc ∧ pos = Z.to_nat off
      ∧ (∃ l, reading gs gc off l) ∧ passed m gc off
  end.

(** ** Requests in between *)

Lemma base_request o gc todo A m gs G a b' todo' A' m' gs' G' a' :
  gc_base o gc todo A m gs G a → bkt_inv Conf mc E K b' todo' A' m' gs' G' a' → req_frame (op_bkt o) m gs b' m' gs' →
  gc_base (op_with o b') gc todo' A' m' gs' G' a'.
Proof.
  intros [B1 B2 B3 B4 B5 B6 B7 B8] Hb [[F1 F2 F3] _ _ _]. destruct B2 as (R1 & R2 & R3 & R4).
  pose proof (bi_len _ _ _ _ _ _ _ _ _ _ _ B1) as Hl. pose proof (bi_len _ _ _ _ _ _ _ _ _ _ _ Hb) as Hl'. unfold zlen in Hl, Hl'.
  pose proof (si_len _ _ _ _ _ (bi_store _ _ _ _ _ _ _ _ _ _ _ B1)) as Hc.
  pose proof (si_len _ _ _ _ _ (bi_store _ _ _ _ _ _ _ _ _ _ _ Hb)) as Hc'.
  assert (∀ i g', gs' !! i = Some g' → ∃ g, gs !! i = Some g ∧ (plain g → plain g') ∧ (Z.of_nat i < ds_newHead (bk_datas (op_bkt o)) →
    g_recs g' = g_recs g ∧ g_gap g' = g_gap g ∧ g_left g' = g_left g ∧ (g_drop g <= g_drop g')%nat)) as Hgh.
  { intros i g' Hg'. destruct (lookup_lt_is_Some_2 gs i) as [g Hg]; [apply lookup_lt_Some in Hg'; lia|].
    destruct (F3 i g Hg) as (g1 & Hg1 & Hp & Hlow). simplify_eq. by exists g. }
  assert (∀ i dc', ds_chunks (bk_datas b') !! i = Some dc' → ∃ dc, ds_chunks (bk_datas (op_bkt o)) !! i = Some dc
    ∧ dc_rewriting dc' = dc_rewriting dc ∧ dc_gcWriter dc' = dc_gcWriter dc
    ∧ (Z.of_nat i < ds_newHead (bk_datas (op_bkt o)) → dc_writingHead dc' = dc_writingHead dc ∧ dc_size dc' = dc_size dc)) as Hch.
  { intros i dc' Hdc'. destruct (lookup_lt_is_Some_2 (ds_chunks (bk_datas (op_bkt o))) i) as [dc Hdc]; [apply lookup_lt_Some in Hdc'; lia|].
    destruct (F2 i dc Hdc) as (d1 & Hd1 & Hrest). simplify_eq. by exists dc. }
  split; cbn [op_with op_bkt]; try done.
  - split_and!; try lia.
  - intros i g' Hi Hg'. destruct (Hgh i g' Hg') as (g & Hg & _ & Hlow). destruct Hlow as (E1 & _ & _ & E4); [lia|].
    pose proof (B3 i g Hi Hg) as Hf. unfold flushed in *. rewrite E1.
    destruct (lookup_lt_is_Some_2 (ds_chunks (bk_datas b')) i) as [dc Hdc]; [apply lookup_lt_Some in Hg'; lia|].
    destruct (si_chunks _ _ _ _ _ (bi_store _ _ _ _ _ _ _ _ _ _ _ Hb) _ _ _ Hdc Hg') as (_ & Hci & _).
    pose proof (ci_order _ _ _ _ Hci) as Ho. rewrite E1 in Ho. lia.
  - intros i g' Hi Hg'. destruct (Hgh i g' Hg') as (g & Hg & Hp & _). by apply Hp, (B4 i).
  - intros i dc' Hi Hdc'. destruct (Hch i dc' Hdc') as (dc & Hdc & -> & _). by apply (B5 i).
  - intros i dc' Hi Hdc'. destruct (Hch i dc' Hdc') as (dc & Hdc & _ & _ & Hlow). destruct Hlow as [_ ->]; [lia|]. by apply (B6 i).
  - intros i g' Hi Hg'. destruct (Hgh i g' Hg') as (g & Hg & _ & Hlow). destruct Hlow as (-> & _); [lia|]. by apply (B7 i).
  - intros dc' g' [Hz Hdc']%zget_Some [_ Hg']%zget_Some. destruct (Hch _ _ Hdc') as (dc & Hdc & E1 & E2 & Hlow).
    destruct (Hgh _ _ Hg') as (g & Hg & Hp & _). destruct Hlow as [E3 _]; [lia|].
    destruct (B8 dc g) as ([w Hw] & W2 & W3); [by apply zget_Some..|]. split; [|split].
    + exists w. by rewrite E2, E3.
    + by rewrite E3.
    + rewrite E1. intros Hrw. by apply Hp, W3.
Qed.

Lemma frame_ghost b todo A m gs G a b' m' gs' i g :
  bkt_inv Conf mc E K b todo A m gs G a → req_frame b m gs b' m' gs' → i < ds_newHead (bk_datas b) → zget gs i = Some g →
  ∃ g', zget gs' i = Some g' ∧ g_recs g' = g_recs g ∧ g_gap g' = g_gap g ∧ g_left g' = g_left g.
Proof.
  intros Hb Hf Hi [H0 Hg]%zget_Some. destruct (df_ghost _ _ _ _ _ (rf_store _ _ _ _ _ _ Hf) _ _ Hg) as (g' & Hg' & _ & Hlow).
  destruct Hlow as (E1 & E2 & E3 & _); [lia|]. exists g'. by rewrite zget_Some.
Qed.

Lemma quiet_request o todo A m gs G a b' todo' A' m' gs' G' a' :
  bkt_inv Conf mc E K (op_bkt o) todo A m gs G a → bkt_inv Conf mc E K b' todo' A' m' gs' G' a' →
  req_frame (op_bkt o) m gs b' m' gs' → quiet o gs → quiet (op_with o b') gs'.
Proof.
  intros Hb Hb' [[F1 F2 F3] _ _ _] [Q1 Q2].
  pose proof (bi_len _ _ _ _ _ _ _ _ _ _ _ Hb) as Hl. pose proof (bi_len _ _ _ _ _ _ _ _ _ _ _ Hb') as Hl'. unfold zlen in Hl, Hl'.
  pose proof (si_len _ _ _ _ _ (bi_store _ _ _ _ _ _ _ _ _ _ _ Hb)) as Hc.
  pose proof (si_len _ _ _ _ _ (bi_store _ _ _ _ _ _ _ _ _ _ _ Hb')) as Hc'. split; cbn [op_with op_bkt].
  - intros i g' Hg'. destruct (lookup_lt_is_Some_2 gs i) as [g Hg]; [apply lookup_lt_Some in Hg'; lia|].
    destruct (F3 i g Hg) as (g1 & Hg1 & Hp & _). simplify_eq. by apply Hp, (Q1 i).
  - intros i dc' Hdc'. destruct (lookup_lt_is_Some_2 (ds_chunks (bk_datas (op_bkt o))) i) as [dc Hdc]; [apply lookup_lt_Some in Hdc'; lia|].
    destruct (F2 i dc Hdc) as (d1 & Hd1 & E1 & _). simplify_eq. rewrite E1. by apply (Q2 i).
Qed.

(** A request, whatever the run is doing. *)
Lemma inv_request o gc pc todo A m gs G a b' todo' A' m' gs' G' a' :
  gc_inv o gc pc todo A m gs G a → bkt_inv Conf mc E K b' todo' A' m' gs' G' a' → req_frame (op_bkt o) m gs b' m' gs' →
  gc_inv (op_with o b') gc pc todo' A' m' gs' G' a'.
Proof.
  intros Hi Hb Hf. destruct pc as [|pos off fs|]; cbn [gc_inv] in *.
  - destruct Hi as (Hbase & Hc & Hd). split; [by eapply base_request|]. split; [done|].
    destruct (gb_range _ _ _ _ _ _ _ _ Hbase) as (R1 & R2 & R3 & R4). pose proof (gb_inv _ _ _ _ _ _ _ _ Hbase) as Hb0.
    destruct (store_at _ _ _ (gc_Dst gc) (bi_store _ _ _ _ _ _ _ _ _ _ _ Hb0)) as (dc & gd & _ & Hgd & _); [lia|].
    destruct (frame_ghost _ _ _ _ _ _ _ _ _ _ (gc_Dst gc) _ Hb0 Hf ltac:(lia) Hgd) as (gd' & Hgd' & E1 & E2 & E3).
    intros g1 Hg1. simplify_eq. rewrite E1, E2, E3. by apply Hd.
  - destruct Hi as (Hbase & He & Hp & (l & gd & gsrc & Hgd & Hgs & Hr) & Hpass).
    destruct (gb_range _ _ _ _ _ _ _ _ Hbase) as (R1 & R2 & R3 & R4). pose proof (gb_inv _ _ _ _ _ _ _ _ Hbase) as Hb0.
    destruct (frame_ghost _ _ _ _ _ _ _ _ _ _ (gc_Dst gc) _ Hb0 Hf ltac:(lia) Hgd) as (gd' & Hgd' & E1 & E2 & E3).
    destruct (frame_ghost _ _ _ _ _ _ _ _ _ _ (gc_Src gc) _ Hb0 Hf ltac:(lia) Hgs) as (gs1 & Hgs' & E4 & E5 & E6).
    split; [by eapply base_request|]. split; [done|]. split; [done|]. split.
    + exists l, gd', gs1. split; [done|]. split; [done|]. unfold left_offset, offset_of in *.
      rewrite E1, E2, E3, E4. done.
    + intros Hlt kh it' Hm' Hc'. destruct (rf_pos _ _ _ _ _ _ Hf kh it' Hm') as [(it & Hm & Heq)|Hbig]; [|lia].
      rewrite Heq in *. by eapply (Hpass Hlt).
  - destruct Hi as [Hb0 Hq]. split; [done|]. by eapply quiet_request.
Qed.

(** ** Opening and closing a destination *)

Lemma owned_at b todo A m gs G a i g :
  bkt_inv Conf mc E K b todo A m gs G a → zget gs i = Some g →
  Forall (owned Conf mc E K (bk_htree b)) (g_recs g) ∧ Forall (owned Conf mc E K (bk_htree b)) (g_left g).
Proof. intros Hb [_ Hg]%zget_Some. by apply (bi_owned _ _ _ _ _ _ _ _ _ _ _ Hb _ _ Hg). Qed.

Lemma inv_hints b todo A m gs G a h' G' a' :
  bkt_inv Conf mc E K b todo A m gs G a → mgr_rep Conf h' G' a' → all_known E K G' → hm_collisions h' = hm_collisions (bk_hints b) →
  bkt_inv Conf mc E K (with_hints b h') todo A m gs G' a'.
Proof. intros [H1 H2 H3 H3' H4 H4' H5 H6 H7 H8] Hr Hk Hc. split; try done. cbn [with_hints bk_hints]. by rewrite Hc. Qed.

Lemma end_writing_spec o todo A m gs G a i now dc gd :
  bkt_inv Conf mc E K (op_bkt o) todo A m gs G a → 0 <= i < ds_newHead (bk_datas (op_bkt o)) →
  zget (ds_chunks (bk_datas (op_bkt o))) i = Some dc → zget gs i = Some gd → flushed gd → g_left gd = [] →
  (dc_rewriting dc = false → plain gd) →
  ∃ o' G' dc', end_writing Conf o i now = Some o' ∧ (∀ src, i <= src → same_open src o o')
    ∧ bkt_inv Conf mc E K (op_bkt o') todo A m (<[Z.to_nat i := settle gd]> gs) G' a
    ∧ ds_chunks (bk_datas (op_bkt o')) = <[Z.to_nat i := dc']> (ds_chunks (bk_datas (op_bkt o))) ∧ dc_rewriting dc' = false.
Proof.
  intros Hb Hi Hdc Hgd Hfl Hleft Hrw. pose proof (bi_store _ _ _ _ _ _ _ _ _ _ _ Hb) as Hs.
  destruct (store_at _ _ _ _ Hs Hi) as (dc0 & g0 & Hdc0 & Hg0 & Hid & Hc & Hd). assert (dc0 = dc) as -> by congruence. assert (g0 = gd) as -> by congruence. subst i.
  destruct (end_settles mc dc _ gd Hc Hfl Hleft Hrw) as (Hc' & Hid' & Hrw' & Hoth). unfold end_writing. rewrite Hdc.
  cbn [mbind option_bind]. destruct (endGCWriting dc _) as [dc' disk'] eqn:He. cbn [fst snd] in *.
  destruct (owned_at _ _ _ _ _ _ _ _ _ Hb Hgd) as [Ho1 _].
  destruct (put_chunk o todo A m gs G a (dc_chunkid dc) gd dc' (settle gd) disk') as (ds' & -> & Hb' & Hch & Hh & _); try done.
  { intros kh it rec _ _ Hh. by apply settle_held. }
  cbn [mbind option_bind op_with op_bkt with_datas bk_hints].
  destruct (trydump_known Conf E K (bk_hints (op_bkt o)) G a (dc_chunkid dc) true now) as (s & h' & G' & -> & Hr' & Hk' & Hcl); [apply Hb|apply Hb| |].
  { pose proof (si_head _ _ _ _ _ Hs). rewrite (bi_len _ _ _ _ _ _ _ _ _ _ _ Hb) in *. lia. }
  cbn [mbind option_bind]. eexists _, G', dc'. split; [done|]. split; [intros src Hle; eapply same_open_put; [|done|done|exact Hch]; lia|]. split; [|done].
  by apply (inv_hints _ _ _ _ _ _ _ h' G' a Hb').
Qed.

Lemma begin_writing_spec o todo A m gs G a i src k dc g :
  bkt_inv Conf mc E K (op_bkt o) todo A m gs G a → 0 <= i < ds_newHead (bk_datas (op_bkt o)) →
  zget (ds_chunks (bk_datas (op_bkt o))) i = Some dc → zget gs i = Some g → flushed g → plain g → dc_rewriting dc = false →
  (i = src → (k <= length (g_recs g))%nat ∧ ∀ kh it, m !! kh = Some it → ChunkID (Pos it) = i → offset_of g k <= Offset (Pos it)) →
  let g' := if decide (i = src) then rewind k g else g in
  ∃ o' dc', begin_writing o i src = Some o' ∧ (∀ s, i <= s → same_open s o o')
    ∧ bkt_inv Conf mc E K (op_bkt o') todo A m (<[Z.to_nat i := g']> gs) G a
    ∧ ds_chunks (bk_datas (op_bkt o')) = <[Z.to_nat i := dc']> (ds_chunks (bk_datas (op_bkt o)))
    ∧ gc_writer dc' ∧ dc_writingHead dc' = (if decide (i = src) then 0 else dc_size dc) ∧ dc_size dc' = dc_size dc
    ∧ (dc_rewriting dc' = false → plain g').
Proof.
  intros Hb Hi Hdc Hg Hfl Hpl Hrw Hk g'. pose proof (bi_store _ _ _ _ _ _ _ _ _ _ _ Hb) as Hs.
  destruct (store_at _ _ _ _ Hs Hi) as (dc0 & g0 & Hdc0 & Hg0 & Hid & Hc & Hd). assert (dc0 = dc) as -> by congruence. assert (g0 = g) as -> by congruence. subst i.
  pose proof (flushed_idle _ _ _ _ _ Hs Hi Hg Hfl) as Hidle. pose proof (flushed_done mc _ _ _ Hc Hfl) as Hdone.
  destruct (owned_at _ _ _ _ _ _ _ _ _ Hb Hg) as [Ho1 Ho2]. unfold begin_writing. rewrite Hdc. cbn [mbind option_bind]. unfold g'.
  destruct (decide (dc_chunkid dc = src)) as [Heq|Hne].
  - destruct (begin_rewrite mc dc _ g src k Hc Hfl Hpl Heq) as (dc' & disk' & -> & Hc' & Hw & Hid' & Hrw' & Hhd & Hsz & Hsame).
    cbn [mbind option_bind]. destruct (Hk Heq) as [Hkl Hpass].
    destruct (put_chunk o todo A m gs G a (dc_chunkid dc) g dc' (rewind k g) disk') as (ds' & -> & Hb' & Hch & Hh & _); try done.
    { by apply Forall_drop. }
    { intros kh it rec Hm Hci Hh. eapply rewind_held; [done|done|done|by eapply Hpass|done]. }
    eexists _, dc'. split; [done|]. split; [intros s Hle; eapply same_open_put; [|done|done|exact Hch]; lia|]. split_and!; try done. by rewrite Hrw'.
  - destruct (begin_append mc dc _ g src Hc Hfl Hpl Hrw Hne) as (dc' & disk' & -> & Hc' & Hw & Hid' & Hrw' & Hhd & Hsz & Hsame).
    cbn [mbind option_bind].
    destruct (put_chunk o todo A m gs G a (dc_chunkid dc) g dc' g disk') as (ds' & -> & Hb' & Hch & Hh & _); try done.
    eexists _, dc'. split; [done|]. split; [intros s Hle; eapply same_open_put; [|done|done|exact Hch]; lia|]. by split_and!.
Qed.

End Run.
