(* ===== verification/GCStep.v ===== *)
(** * One record of a garbage collection run *)

From stdpp Require Import gmap.
From S2P Require Import Prelude Hashing Strconv Config Cmem Key Item Fixtures Leaf HTree HTreeSpec HTreeMerkle.
From S2P Require Import HTreeProps DataFile Data DataSpec DataLog HintFile Hint HintSpec HintProps HintMerge Bucket BucketSpec.
From S2P Require Import BucketOpen GC GCSpec GCInv.

Section Step.
Context (Conf : HStoreConfig) (mc : MCConfig) (E : Ext) (K : bytes → Prop).
Hypothesis (env : env_ok Conf mc E K).
Hypothesis (depth_ok : 0 <= TreeDepth Conf <= 16).

(** ** Positions and keys *)

(** The tree only refers to records that are held, under the hash of their key. *)
Lemma tree_points b todo A m gs G a kh it :
  bkt_inv Conf mc E K b todo A m gs G a → m !! kh = Some it → ∃ rec, holds gs (Pos it) rec ∧ kh = getKeyHash E (r_Key rec).
Proof.
  intros Hb Hm. destruct (bi_only _ _ _ _ _ _ _ _ _ _ _ Hb _ _ Hm) as (key & <- & [[rec vh] HA]).
  destruct (bi_item _ _ _ _ _ _ _ _ _ _ _ Hb _ _ _ HA) as (pos & rec0 & rec' & Hm' & _ & Hp & Hh & Hs).
  destruct (bi_keys _ _ _ _ _ _ _ _ _ _ _ Hb _ _ _ HA) as [_ Hk]. rewrite Hm in Hm'. injection Hm' as ->.
  exists rec'. split; [done|]. destruct Hp as [-> _], Hs as [-> _]. by rewrite Hk.
Qed.

Lemma holds_unique ds gs todo pos rec rec' :
  store_inv Conf mc ds gs todo → holds gs pos rec → holds gs pos rec' → rec = rec'.
Proof.
  intros Hs (g & Hg & Hh) (g' & Hg' & Hh'). assert (g' = g) as -> by congruence. apply zget_Some in Hg as [_ Hg].
  destruct (lookup_lt_is_Some_2 (ds_chunks ds) (Z.to_nat (ChunkID pos))) as [dc Hdc].
  { rewrite (si_len _ _ _ _ _ Hs). by eapply lookup_lt_Some. }
  destruct (si_chunks _ _ _ _ _ Hs _ _ _ Hdc Hg) as (_ & Hc & _). by eapply held_unique.
Qed.

(** Two entries never share a position. *)
Lemma points_key b todo A m gs G a kh it rec :
  bkt_inv Conf mc E K b todo A m gs G a → m !! kh = Some it → holds gs (Pos it) rec → kh = getKeyHash E (r_Key rec).
Proof.
  intros Hb Hm Hh. destruct (tree_points _ _ _ _ _ _ _ _ _ Hb Hm) as (rec' & Hh' & ->).
  by rewrite (holds_unique _ _ _ _ _ _ (bi_store _ _ _ _ _ _ _ _ _ _ _ Hb) Hh Hh').
Qed.

Lemma gc_key t rec :
  owned Conf mc E K t rec →
  ∃ ki, NewKeyInfoFromBytes Conf (r_Key rec) (getKeyHash E (r_Key rec)) false = Some ki ∧ key_ok Conf E K t ki
    ∧ ki_Key ki = r_Key rec ∧ zlen (r_Key rec) < 256.
Proof.
  intros (rec0 & [Ha Hp HK Hb]). destruct Hp as (Hk & _). rewrite Hk. unfold NewKeyInfoFromBytes. set (ki0 := mkKeyInfo _ _ _ _ _ _).
  destruct (Prepare_bucket Conf ki0) as (ki & Hpr & Hprep & Hkh & _); [done|apply Hb|done|]. rewrite Hpr. cbn [mbind option_bind].
  assert (ki_Key ki = r_Key rec0 ∧ ki_StringKey ki = r_Key rec0) as [E1 E2].
  { unfold Prepare in Hpr. cbn [ki_KeyIsPath ki0] in Hpr. destruct (zslice _ _ _) as [top|]; [|done].
    cbn [mbind option_bind] in Hpr. by injection Hpr as <-. }
  exists ki. split; [done|]. split; [split; rewrite ?E1, ?E2, ?Hkh; done|]. split; [done|].
  pose proof (ro_ksz _ _ (ao_ok _ _ _ Ha)) as Hks. unfold IsValidKeySize in Hks. pose proof (eo_klen _ _ _ _ env). lia.
Qed.

(** ** A record as it is copied *)

Lemma stream_size rec : rec_Size (stream_form rec) = rec_Size rec.
Proof. done. Qed.

Lemma stream_packed rec0 rec : packed E rec0 rec → packed E rec0 (stream_form rec).
Proof. done. Qed.

Lemma stream_owned t rec : owned Conf mc E K t rec → owned Conf mc E K t (stream_form rec).
Proof. intros (rec0 & [H1 H2 H3 H4]). exists rec0. by split. Qed.

Lemma owned_size t rec :
  owned Conf mc E K t rec →
  rec_ok mc rec ∧ rec_Size rec <= DataFileMax Conf ∧ DataFileMax Conf + rec_Size rec < 2 ^ 32.
Proof. intros (rec0 & [Ha Hp _ _]). by eapply stored_ok; [apply env|..]. Qed.

Lemma owned_ok t rec : owned Conf mc E K t rec → rec_ok mc (stream_form rec).
Proof. intros Ho%stream_owned. by apply (owned_size t). Qed.

(** ** Reading the source *)

Lemma reading_source o gc todo A m gs G a off l :
  gc_base Conf mc E K o gc todo A m gs G a → gc_Src gc <= gc_End gc → reading gs gc off l →
  let ds := bk_datas (op_bkt o) in
  ∃ dc pre, zget (ds_chunks ds) (gc_Src gc) = Some dc ∧ file_at (ds_disk ds) (gc_Src gc) = pre ++ file_of l ∧ zlen pre = off
    ∧ off + sizes l = dc_size dc ∧ dc_size dc < 2 ^ 32 ∧ Forall (owned Conf mc E K (bk_htree (op_bkt o))) l
    ∧ (∀ rec l', l = rec :: l' → holds gs (mkPos (gc_Src gc) off) rec).
Proof.
  intros Hbase He (gd & gsrc & Hgd & Hgs & Hr). cbn zeta. pose proof (gb_inv _ _ _ _ _ _ _ _ _ _ _ _ Hbase) as Hb.
  destruct (gb_range _ _ _ _ _ _ _ _ _ _ _ _ Hbase) as (R1 & R2 & R3 & R4). pose proof (bi_store _ _ _ _ _ _ _ _ _ _ _ Hb) as Hs.
  destruct (store_at Conf mc _ _ _ (gc_Src gc) Hs) as (dc & g & Hdc & Hg & Hid & Hc & _); [lia|].
  assert (g = gsrc) as -> by congruence. pose proof (proj1 (zget_Some _ _ _) Hgs) as [_ Hgs'].
  assert (flushed gsrc) as Hfl by (eapply (gb_flushed _ _ _ _ _ _ _ _ _ _ _ _ Hbase); [|exact Hgs']; lia).
  destruct (flushed_file mc _ _ _ Hc Hfl) as [_ Hf]. rewrite Hid in Hf.
  destruct (owned_at Conf mc E K _ _ _ _ _ _ _ _ _ Hb Hgs) as [Ho1 Ho2].
  pose proof Hc as [C1 C2 C3 C4 C5 C6 C7 C8 C9 C10].
  destruct (decide (gc_Dst gc = gc_Src gc)) as [Heq|Hne].
  - rewrite Heq in Hgd. assert (gd = gsrc) as -> by congruence. destruct Hr as [<- ->].
    exists dc, (file_of (g_recs gsrc) ++ g_gap gsrc). rewrite left_offset_0. split; [done|].
    split; [by rewrite Hf, app_assoc|]. split; [by rewrite zlen_app, (zlen_file_of mc)|].
    split; [lia|]. split; [done|]. split; [done|]. intros rec l' Hl. exists gsrc. split; [done|]. right. exists 0%nat.
    rewrite Hl. cbn [Offset]. by rewrite left_offset_0.
  - destruct Hr as (_ & k & Hk & -> & ->). destruct (gb_plain _ _ _ _ _ _ _ _ _ _ _ _ Hbase (Z.to_nat (gc_Src gc)) gsrc) as [Hgap Hleft];
      [lia|done|]. exists dc, (file_of (take k (g_recs gsrc))). split; [done|].
    split; [rewrite Hf, Hgap, Hleft; change (file_of []) with (@nil Z); by rewrite !app_nil_r, <- file_of_app, take_drop|].
    split; [rewrite (zlen_file_of mc) by (by apply Forall_take); done|].
    split; [unfold offset_of; rewrite <- sizes_app, take_drop, C6, C5, Hgap, Hleft; change (zlen []) with 0; change (sizes []) with 0; lia|].
    split; [done|]. split; [by apply Forall_drop|]. intros rec l' Hl. exists gsrc. split; [done|]. left. exists k. split; [|done].
    rewrite <- (Nat.add_0_r k), <- lookup_drop, Hl. done.
Qed.

Lemma Next_reading f pre rec l r :
  f = pre ++ file_of (rec :: l) → rec_ok mc rec → zlen pre + rec_Size rec < 2 ^ 32 →
  Next mc E (mkReader f (Z.to_nat (zlen pre)) (zlen pre)) r
  = Some (mkNext (Some (stream_form rec)) (zlen pre) 0 None,
          mkReader f (Z.to_nat (zlen pre + rec_Size rec)) (zlen pre + rec_Size rec), r).
Proof.
  intros -> Hr Hlt. change (file_of (rec :: l)) with (enc_rec rec ++ file_of l). unfold enc_rec.
  pose proof (rec_Size_range mc rec Hr) as [Hs _]. replace (Z.to_nat (zlen pre)) with (length pre) by (unfold zlen; lia).
  rewrite (Next_record mc E pre rec (file_of l) r Hr Hlt). do 4 f_equal. unfold zlen. lia.
Qed.

Lemma Next_end f r : Next mc E (mkReader f (Z.to_nat (zlen f)) (zlen f)) r = Some (mkNext None 0 0 None, mkReader f (length f) (zlen f), r).
Proof. unfold Next, stream_read, zlen. cbn [sr_pos sr_file]. rewrite Nat2Z.id, drop_all. done. Qed.

(** ** Changing the destination *)

Lemma insert_lookup {X} (l : list X) (i : Z) (x y z : X) :
  zget l i = Some x → zget (<[Z.to_nat i := y]> l) i = Some z → z = y.
Proof. intros Hx Hz. rewrite (zget_insert _ _ y x Hx) in Hz. congruence. Qed.

Lemma base_put_dst o o' gc todo A m m' gs G G' a a' dc dc' gd gd' :
  gc_base Conf mc E K o gc todo A m gs G a →
  zget (ds_chunks (bk_datas (op_bkt o))) (gc_Dst gc) = Some dc → zget gs (gc_Dst gc) = Some gd →
  bkt_inv Conf mc E K (op_bkt o') todo A m' (<[Z.to_nat (gc_Dst gc) := gd']> gs) G' a' →
  ds_chunks (bk_datas (op_bkt o')) = <[Z.to_nat (gc_Dst gc) := dc']> (ds_chunks (bk_datas (op_bkt o))) →
  ds_newHead (bk_datas (op_bkt o')) = ds_newHead (bk_datas (op_bkt o)) →
  flushed gd' → (gc_Src gc = gc_Dst gc → dc_size dc' <= DataFileMax Conf) →
  gc_writer dc' → dc_writingHead dc' <= DataFileMax Conf → (dc_rewriting dc' = false → plain gd') →
  gc_base Conf mc E K o' gc todo A m' (<[Z.to_nat (gc_Dst gc) := gd']> gs) G' a'.
Proof.
  intros [B1 B2 B3 B4 B5 B6 B7 B8] Hdc Hgd Hb Hch Hh Hfl Hfit Hw Hmax Hrw. destruct B2 as (R1 & R2 & R3 & R4).
  split; try done; rewrite ?Hch, ?Hh.
  - done.
  - intros i g Hi [(<- & <- & _)|[_ Hg]]%list_lookup_insert_Some; [done|]. by apply (B3 i).
  - intros i g Hi [(<- & _)|[_ Hg]]%list_lookup_insert_Some; [lia|]. by apply (B4 i).
  - intros i d Hi [(<- & _)|[_ Hg]]%list_lookup_insert_Some; [lia|]. by apply (B5 i).
  - intros i d Hi [(<- & <- & _)|[_ Hg]]%list_lookup_insert_Some; [apply Hfit; lia|]. by apply (B6 i).
  - intros i g Hi [(<- & _)|[_ Hg]]%list_lookup_insert_Some; [lia|]. by apply (B7 i).
  - intros d g Hd Hg. rewrite (insert_lookup _ _ _ _ _ Hdc Hd), (insert_lookup _ _ _ _ _ Hgd Hg). done.
Qed.

(** The destination with the ghost of another reading of the same bytes. *)
Lemma store_reghost ds gs todo i dc g' :
  store_inv Conf mc ds gs todo → 0 <= i < ds_newHead ds → zget (ds_chunks ds) i = Some dc → chunk_inv mc dc (ds_disk ds) g' →
  g_done g' = (g_drop g' + in_flight todo (Z.to_nat i))%nat → store_inv Conf mc ds (<[Z.to_nat i := g']> gs) todo.
Proof.
  intros Hs Hi Hdc Hc Hfl. destruct (store_at Conf mc _ _ _ i Hs Hi) as (dc0 & g & Hdc0 & Hg & Hid & _).
  assert (dc0 = dc) as -> by congruence.
  destruct (store_put Conf mc ds gs todo i dc g' (ds_disk ds) Hs Hi Hid Hc Hfl) as (ds' & Hw & Hs' & _); [done|].
  unfold with_chunk in Hw. rewrite (zset_lookup _ _ _ dc) in Hw by done. cbn [mbind option_bind] in Hw. injection Hw as <-.
  apply zget_Some in Hdc as [_ Hdc]. unfold with_disk in Hs'. cbn [ds_newHead ds_chunks ds_wbufSize ds_lastFlushTime] in Hs'.
  rewrite list_insert_id in Hs' by done. by destruct ds.
Qed.

Lemma with_datas_same b : with_datas b (bk_datas b) = b.
Proof. by destruct b. Qed.

Lemma forget_flushed g : flushed g → flushed (forget g).
Proof. unfold forget, flushed. by destruct (g_left g). Qed.

Lemma forget_counts g : g_recs (forget g) = g_recs g ∧ g_drop (forget g) = g_drop g ∧ g_done (forget g) = g_done g.
Proof. unfold forget. by destruct (g_left g). Qed.

Lemma forget_plain g : plain g → forget g = g.
Proof. intros [_ Hl]. unfold forget. by rewrite Hl. Qed.

Lemma forget_left g : g_left (forget g) = tail (g_left g).
Proof. unfold forget. destruct (g_left g) eqn:Hl; [by rewrite Hl|done]. Qed.

(** ** Passing a record *)

(** The reader after the record it has read: nothing in the destination but the
    record itself is given up. *)
Lemma reading_next gs gc off rec l t gd gd' :
  reading gs gc off (rec :: l) → owned Conf mc E K t rec → zget gs (gc_Dst gc) = Some gd →
  g_left gd' = tail (g_left gd) → (g_left gd ≠ [] → left_offset gd' 0 = left_offset (forget gd) 0) →
  reading (<[Z.to_nat (gc_Dst gc) := gd']> gs) gc (off + rec_Size rec) l.
Proof.
  intros (gd0 & gsrc & Hgd & Hgs & Hr) Hown Hgd2 Hl' Ho'. destruct (owned_size _ _ Hown) as (Hok & _).
  assert (gd0 = gd) as -> by congruence.
  pose proof (zget_insert gs (gc_Dst gc) gd' gd Hgd) as Hnew. unfold reading. destruct (decide (gc_Dst gc = gc_Src gc)) as [Heq|Hne].
  - destruct Hr as [Hl ->]. exists gd', gd'. rewrite <- Heq. split; [done|]. split; [done|]. rewrite Hl', Hl. split; [done|].
    rewrite Ho' by (by rewrite Hl). rewrite (left_offset_forget mc gd rec l 0 Hl Hok). unfold left_offset. rewrite Hl.
    rewrite take_0, firstn_cons, take_0, sizes_cons. change (sizes []) with 0. lia.
  - destruct Hr as (Hl & k & Hk & Hd & ->). exists gd', gsrc. split; [done|].
    split; [apply zget_Some; apply zget_Some in Hgs as [H0 Hgs]; apply zget_Some in Hgd as [H1 _]; split; [done|];
      rewrite list_lookup_insert_ne by lia; done|].
    split; [by rewrite Hl', Hl|]. exists (S k).
    assert (g_recs gsrc !! k = Some rec) as Hrec by (rewrite <- (Nat.add_0_r k), <- lookup_drop, <- Hd; done).
    pose proof (lookup_lt_Some _ _ _ Hrec). split; [lia|]. split.
    + rewrite <- Nat.add_1_r, <- drop_drop, <- Hd. done.
    + unfold offset_of. rewrite (take_S_r _ _ _ Hrec), sizes_app, sizes_cons. change (sizes []) with 0. lia.
Qed.

(** The tree has moved on when no entry stands at the record just read. *)
Lemma passed_next b todo A m m' gs G a gc off rec l :
  bkt_inv Conf mc E K b todo A m gs G a → gc_Src gc < ds_newHead (bk_datas b) → 0 <= gc_Src gc →
  (∀ i g, Z.of_nat i ≠ gc_Dst gc → gs !! i = Some g → plain g) →
  reading gs gc off (rec :: l) → passed m gc off →
  (∀ kh it, m' !! kh = Some it → ChunkID (Pos it) = gc_Src gc → m !! kh = Some it ∧ Pos it ≠ mkPos (gc_Src gc) off) →
  passed m' gc (off + rec_Size rec).
Proof.
  intros Hb Hsrc H0 Hplain (gd & gsrc & Hgd & Hgs & Hr) Hp Hno Hlt kh it Hm' Hci. destruct (Hno kh it Hm' Hci) as [Hm Hpos]. specialize (Hp Hlt kh it Hm Hci).
  destruct (tree_points _ _ _ _ _ _ _ _ _ Hb Hm) as (rec' & (g & Hg & Hh) & _). rewrite Hci in Hg. assert (g = gsrc) as -> by congruence.
  rewrite decide_False in Hr by lia. destruct Hr as (_ & k & Hk & Hd & ->).
  destruct (store_at Conf mc _ _ _ (gc_Src gc) (bi_store _ _ _ _ _ _ _ _ _ _ _ Hb)) as (dc & g0 & _ & Hg0 & _ & Hc & _); [lia|].
  assert (g0 = gsrc) as -> by congruence. pose proof (ci_recs _ _ _ _ Hc) as Hoks.
  assert (g_recs gsrc !! k = Some rec) as Hrec by (rewrite <- (Nat.add_0_r k), <- lookup_drop, <- Hd; done).
  assert (offset_of gsrc k + rec_Size rec = offset_of gsrc (S k)) as ->.
  { unfold offset_of. rewrite (take_S_r _ _ _ Hrec), sizes_app, sizes_cons. change (sizes []) with 0. lia. }
  pose proof (lookup_lt_Some _ _ _ Hrec).
  destruct Hh as [(i & Hi & Ho)|(j & Hj & _)].
  2:{ apply zget_Some in Hgs as [_ Hgs]. destruct (Hplain (Z.to_nat (gc_Src gc)) gsrc) as [_ Hl]; [lia|done|]. by rewrite Hl in Hj. }
  rewrite Ho in *. pose proof (lookup_lt_Some _ _ _ Hi). unfold offset_of in *.
  assert (¬ (i < k)%nat) by (intros ?; pose proof (sizes_take_lt mc _ i k Hoks ltac:(lia)); lia).
  assert (i ≠ k) by (intros ->; apply Hpos; destruct (Pos it) as [pc0 po0]; cbn [ChunkID Offset] in *; congruence).
  destruct (decide (i = S k)) as [->|]; [lia|]. pose proof (sizes_take_lt mc _ (S k) i Hoks ltac:(lia)). lia.
Qed.

Lemma skip_record o gc todo A m gs G a off rec l :
  gc_base Conf mc E K o gc todo A m gs G a → gc_Src gc <= gc_End gc → reading gs gc off (rec :: l) → passed m gc off →
  (∀ kh it, m !! kh = Some it → Pos it ≠ mkPos (gc_Src gc) off) →
  ∃ gs', gc_base Conf mc E K o gc todo A m gs' G a ∧ reading gs' gc (off + rec_Size rec) l ∧ passed m gc (off + rec_Size rec).
Proof.
  intros Hbase He Hr Hp Hno. pose proof (gb_inv _ _ _ _ _ _ _ _ _ _ _ _ Hbase) as Hb.
  destruct (gb_range _ _ _ _ _ _ _ _ _ _ _ _ Hbase) as (R1 & R2 & R3 & R4). pose proof (bi_store _ _ _ _ _ _ _ _ _ _ _ Hb) as Hs.
  destruct (store_at Conf mc _ _ _ (gc_Dst gc) Hs) as (dc & gd & Hdc & Hgd & Hid & Hc & Hd); [lia|].
  destruct (reading_source _ _ _ _ _ _ _ _ _ _ Hbase He Hr) as (_ & _ & _ & _ & _ & _ & _ & Hown & _). apply Forall_cons in Hown as [Hown _].
  destruct (forget_counts gd) as (E1 & E2 & E3). destruct (owned_at Conf mc E K _ _ _ _ _ _ _ _ _ Hb Hgd) as [Ho1 Ho2].
  assert (flushed gd) as Hfl.
  { pose proof (proj1 (zget_Some _ _ _) Hgd) as [_ Hgd']. eapply (gb_flushed _ _ _ _ _ _ _ _ _ _ _ _ Hbase); [|exact Hgd']; lia. }
  destruct (gb_dst _ _ _ _ _ _ _ _ _ _ _ _ Hbase _ _ Hdc Hgd) as (Hw & Hmax & Hrw).
  exists (<[Z.to_nat (gc_Dst gc) := forget gd]> gs). split; [|split].
  - eapply (base_put_dst o o gc todo A m m gs G G a a dc dc gd (forget gd)); try done.
    + rewrite <- (with_datas_same (op_bkt o)). eapply inv_store; [done| |by rewrite length_insert| |].
      * eapply store_reghost; [done|lia|done|by apply forget_inv|]. by rewrite E2, E3.
      * apply all_owned_insert; [apply Hb|by rewrite E1|]. rewrite forget_left. destruct (g_left gd); [done|]. by apply Forall_cons in Ho2 as [_ ?].
      * intros kh it x Hm Hh. eapply holds_insert; [done| |done]. intros Hci Hx. eapply forget_held; [done|done|].
        destruct Hr as (gd0 & gsrc & Hgd0 & _ & Hr). assert (gd0 = gd) as -> by congruence.
        destruct (decide (gc_Dst gc = gc_Src gc)) as [Heq|]; [|by right; destruct Hr]. left. intros Hoff. apply (Hno kh it Hm).
        destruct Hr as [_ ->]. destruct (Pos it) as [pc0 po0]. cbn [ChunkID Offset] in *. congruence.
    + symmetry. apply list_insert_id. by apply zget_Some in Hdc as [_ ?].
    + by apply forget_flushed.
    + intros Heq. apply zget_Some in Hdc as [_ Hdc']. eapply (gb_fits _ _ _ _ _ _ _ _ _ _ _ _ Hbase); [|exact Hdc']. lia.
    + intros Hf. rewrite forget_plain; auto.
  - eapply reading_next; [done|done|done|apply forget_left|done].
  - eapply passed_next; try done; [lia|lia|apply Hbase|]. intros kh it Hm _. split; [done|]. by eapply Hno.
Qed.

(** ** The verdict on a record *)

Lemma gc_look_spec b todo A m gs G a begin_ ki rec pos r :
  bkt_inv Conf mc E K b todo A m gs G a → key_ok Conf E K (bk_htree b) ki →
  ∃ v r', gc_look Conf mc E b begin_ ki (stream_form rec) pos r = Some (v, r')
    ∧ Ver (v_meta v) = rec_ver rec ∧ is_u16 (ValueHash (v_meta v))
    ∧ match m !! ki_KeyHash ki with
      | Some it => v_found v = true ∧ v_newest v = bool_decide (pos = Pos it)
      | None => v_found v = false
      end.
Proof.
  intros Hb Hk. unfold gc_look. rewrite (tree_get Conf mc E K _ _ _ _ _ _ _ _ env Hb Hk). cbn [mbind option_bind].
  destruct (m !! ki_KeyHash ki) as [it|] eqn:Hm; [|by eexists _, _].
  pose proof (models_norm _ _ _ _ _ (bi_tree _ _ _ _ _ _ _ _ _ _ _ Hb) Hm) as Hn.
  case_bool_decide as Hpos.
  - eexists _, _. split; [done|]. split_and!; try done. cbn [v_meta set_vhash ValueHash]. rewrite <- Hn. apply u16_range.
  - destruct (getCollisionGC_none Conf E K (bk_hints b) G a ki) as (it' & c & ->); try apply Hb; [apply env|..].
    { rewrite (kk_str _ _ _ _ _ Hk). apply Hk. }
    { rewrite (kk_str _ _ _ _ _ Hk). apply Hk. }
    cbn [mbind option_bind]. by eexists _, _.
Qed.

Lemma UpdateHtreePos_spec t m ki it pos :
  models Conf t m → prepared Conf ki → in_bucket t (ki_KeyHash ki) → m !! ki_KeyHash ki = Some it →
  0 <= ChunkID pos < MAX_NUM_CHUNK → is_u32 (Offset pos) → Offset pos mod 256 = 0 →
  ∃ t', UpdateHtreePos Conf E t ki pos = Some t' ∧ same_frame t t'
    ∧ models Conf t' (<[ki_KeyHash ki := mkHTreeItem 0 pos (it_Ver it) (Vhash it)]> m).
Proof.
  intros Ht Hp Hb Hm Hc Ho Ha. unfold UpdateHtreePos. rewrite (ht_get_models Conf t m ki Ht Hp Hb), Hm. cbn [mbind option_bind].
  pose proof (models_norm _ _ _ _ _ Ht Hm) as Hn.
  assert (is_i32 (it_Ver it) ∧ is_u16 (Vhash it)) as [Hv Hh] by (rewrite <- Hn; split; [apply i32_range|apply u16_range]).
  destruct (ht_set_models Conf (heap E) t m ki (mkMeta 0 0 (it_Ver it) (Vhash it) 0) pos) as (t' & -> & Hf & Ht'); try done.
  cbn [Ver ValueHash] in Ht'. rewrite norm_pos in Ht' by done. by exists t'.
Qed.

(** ** The next destination *)

Lemma zget_insert_other {X} (l : list X) (i j : Z) (x : X) : i ≠ j → 0 <= i → 0 <= j → zget (<[Z.to_nat i := x]> l) j = zget l j.
Proof. intros Hne Hi Hj. unfold zget. destruct (Z.ltb_spec j 0); [lia|]. apply list_lookup_insert_ne. lia. Qed.

(** Opening the chunk after the destination rebuilds the invariant with it as
    the destination. *)
Lemma base_next_dst o o2 gc todo A m gs G G2 a gd' g1 g1' dcd dc1 dc1' :
  let d := gc_Dst gc in let gc' := gc_dst gc (d + 1) in
  let gs2 := <[Z.to_nat (d + 1) := g1']> (<[Z.to_nat d := gd']> gs) in
  gc_base Conf mc E K o gc todo A m gs G a → d < gc_Src gc → gc_Src gc <= gc_End gc →
  bkt_inv Conf mc E K (op_bkt o2) todo A m gs2 G2 a → same_open (gc_Src gc) o o2 →
  ds_chunks (bk_datas (op_bkt o2)) = <[Z.to_nat (d + 1) := dc1']> (<[Z.to_nat d := dcd]> (ds_chunks (bk_datas (op_bkt o)))) →
  zget (ds_chunks (bk_datas (op_bkt o))) (d + 1) = Some dc1 → zget gs (d + 1) = Some g1 →
  flushed gd' → plain gd' → dc_rewriting dcd = false → flushed g1' → dc_size dc1' = dc_size dc1 →
  gc_writer dc1' → dc_writingHead dc1' = 0 → (dc_rewriting dc1' = false → plain g1') →
  gc_base Conf mc E K o2 gc' todo A m gs2 G2 a.
Proof.
  cbn zeta. intros [B1 B2 B3 B4 B5 B6 B7 B8] Hlt He Hb (_ & Hh & _) Hch Hdc1 Hg1 F1 F2 F3 F4 Hsz Hw Hhd Hrw.
  destruct B2 as (R1 & R2 & R3 & R4). pose proof (eo_max _ _ _ _ env) as Hmax.
  split; cbn [gc_dst gc_Dst gc_Src gc_End]; try done; rewrite ?Hch, ?Hh.
  - lia.
  - intros i g Hi [(<- & <- & _)|[_ [(<- & <- & _)|[_ Hg]]%list_lookup_insert_Some]]%list_lookup_insert_Some; [done..|]. by apply (B3 i).
  - intros i g Hi [(<- & _)|[_ [(<- & <- & _)|[? Hg]]%list_lookup_insert_Some]]%list_lookup_insert_Some; [lia|done|]. apply (B4 i); [lia|done].
  - intros i g Hi [(<- & _)|[_ [(<- & <- & _)|[? Hg]]%list_lookup_insert_Some]]%list_lookup_insert_Some; [lia|done|]. apply (B5 i); [lia|done].
  - intros i g Hi [(<- & <- & _)|[_ [(<- & <- & _)|[? Hg]]%list_lookup_insert_Some]]%list_lookup_insert_Some.
    + rewrite Hsz. apply zget_Some in Hdc1 as [_ Hdc1]. by apply (B6 (Z.to_nat (gc_Dst gc + 1))).
    + lia.
    + by apply (B6 i).
  - intros i g Hi [(<- & _)|[_ [(<- & <- & _)|[? Hg]]%list_lookup_insert_Some]]%list_lookup_insert_Some; [lia|lia|]. apply (B7 i); [lia|done].
  - intros d0 g0 Hd0 Hg0. rewrite <- (zget_insert_other _ (gc_Dst gc) _ dcd) in Hdc1 by lia.
    rewrite <- (zget_insert_other _ (gc_Dst gc) _ gd') in Hg1 by lia.
    rewrite (insert_lookup _ _ _ _ _ Hdc1 Hd0), (insert_lookup _ _ _ _ _ Hg1 Hg0). split; [done|]. split; [lia|done].
Qed.

Lemma no_records_no_size dc disk g : chunk_inv mc dc disk g → plain g → g_recs g = [] → dc_size dc = 0.
Proof.
  intros Hc [H1 H2] H3. rewrite (ci_size _ _ _ _ Hc), (ci_head _ _ _ _ Hc), H1, H2, H3. done.
Qed.

Lemma next_dst o gc todo A m gs G a off l now :
  let gc' := gc_dst gc (gc_Dst gc + 1) in
  gc_base Conf mc E K o gc todo A m gs G a → gc_Src gc <= gc_End gc → reading gs gc off l → passed m gc off →
  gc_Dst gc < gc_Src gc →
  ∃ o1 o2 gs' G', end_writing Conf o (gc_Dst gc) now = Some o1 ∧ begin_writing o1 (gc_Dst gc + 1) (gc_Src gc) = Some o2
    ∧ same_open (gc_Src gc) o o2 ∧ gc_base Conf mc E K o2 gc' todo A m gs' G' a ∧ reading gs' gc' off l ∧ passed m gc' off
    ∧ ∀ dc, zget (ds_chunks (bk_datas (op_bkt o2))) (gc_Dst gc + 1) = Some dc → dc_writingHead dc = 0.
Proof.
  cbn zeta. intros Hbase He (gd & gsrc & Hgd & Hgs & Hr) Hp Hlt. rewrite decide_False in Hr by lia. destruct Hr as (Hleft & k & Hk & Hl & Hoff).
  pose proof (gb_inv _ _ _ _ _ _ _ _ _ _ _ _ Hbase) as Hb. pose proof (bi_store _ _ _ _ _ _ _ _ _ _ _ Hb) as Hs.
  destruct (gb_range _ _ _ _ _ _ _ _ _ _ _ _ Hbase) as (R1 & R2 & R3 & R4). set (d := gc_Dst gc) in *.
  assert (∀ i g, i <= gc_End gc → zget gs i = Some g → flushed g) as Hfl.
  { intros i g Hi [? Hg]%zget_Some. eapply (gb_flushed _ _ _ _ _ _ _ _ _ _ _ _ Hbase); [|exact Hg]; lia. }
  destruct (store_at Conf mc _ _ _ d Hs) as (dcd & g0 & Hdcd & Hg0 & _); [lia|]. assert (g0 = gd) as -> by congruence.
  destruct (gb_dst _ _ _ _ _ _ _ _ _ _ _ _ Hbase _ _ Hdcd Hgd) as (_ & _ & Hrw).
  destruct (end_writing_spec Conf mc E K o todo A m gs G a d now dcd gd) as (o1 & G1 & dcd' & Hend & Hso1 & Hb1 & Hch1 & Hrw1);
    [done|lia|done|done|apply (Hfl d); [lia|done]|done|done|].
  destruct (store_at Conf mc _ _ _ (d + 1) Hs) as (dc1 & g1 & Hdc1 & Hg1 & Hid1 & Hc1 & _); [lia|].
  assert (plain g1) as Hpl1 by (apply zget_Some in Hg1 as [_ ?]; eapply (gb_plain _ _ _ _ _ _ _ _ _ _ _ _ Hbase); [|done]; lia).
  assert (dc_rewriting dc1 = false) as Hst1
    by (pose proof (proj1 (zget_Some _ _ _) Hdc1) as [_ ?]; eapply (gb_still _ _ _ _ _ _ _ _ _ _ _ _ Hbase); [|done]; lia).
  assert (d + 1 ≠ gc_Src gc → g_recs g1 = []) as Hemp.
  { intros Hne. apply zget_Some in Hg1 as [_ ?]. eapply (gb_empty _ _ _ _ _ _ _ _ _ _ _ _ Hbase); [|done]. lia. }
  assert (d + 1 = gc_Src gc → g1 = gsrc) as Hsame by (intros Heq; rewrite Heq in Hg1; congruence).
  destruct (begin_writing_spec Conf mc E K o1 todo A m (<[Z.to_nat d := settle gd]> gs) G1 a (d + 1) (gc_Src gc) k dc1 g1)
    as (o2 & dc1' & Hbeg & Hso2 & Hb2 & Hch2 & Hw & Hhd & Hsz & Hpl'); try done.
  { destruct (Hso1 (gc_Src gc) ltac:(lia)) as (_ & -> & _). lia. }
  { rewrite Hch1, zget_insert_other by lia. done. }
  { rewrite zget_insert_other by lia. done. }
  { apply (Hfl (d + 1)); [lia|done]. }
  { intros Heq. rewrite (Hsame Heq). split; [done|]. intros kh it Hm Hci. rewrite <- Hoff. apply (Hp Hlt kh it Hm). congruence. }
  assert (dc_writingHead dc1' = 0) as Hhd0.
  { rewrite Hhd. destruct (decide _) as [|Hne]; [done|]. by eapply no_records_no_size; [|done|apply Hemp]. }
  set (g1' := if decide (d + 1 = gc_Src gc) then rewind k g1 else g1) in *.
  assert (flushed g1') as Hfl'.
  { unfold g1'. destruct (decide _); [done|]. apply (Hfl (d + 1)); [lia|done]. }
  assert (zget (<[Z.to_nat (d + 1) := g1']> (<[Z.to_nat d := settle gd]> gs)) (d + 1) = Some g1') as Hnew.
  { apply (zget_insert _ _ _ g1). by rewrite zget_insert_other by lia. }
  exists o1, o2, (<[Z.to_nat (d + 1) := g1']> (<[Z.to_nat d := settle gd]> gs)), G1. split; [done|]. split; [done|]. split; [etrans; [apply Hso1|apply Hso2]; lia|]. split; [|split; [|split]].
  - eapply (base_next_dst o o2 gc todo A m gs G G1 a (settle gd) g1 g1' dcd' dc1 dc1'); try done.
    + etrans; [apply Hso1|apply Hso2]; lia.
    + by rewrite Hch2, Hch1.
    + change (flushed gd). apply (Hfl d); [lia|done].
  - unfold reading. cbn [gc_dst gc_Dst gc_Src]. destruct (decide (d + 1 = gc_Src gc)) as [Heq|Hne].
    + exists g1', g1'. rewrite <- Heq. split; [done|]. split; [done|]. unfold g1'. rewrite (Hsame Heq), Hl, Hoff. split; [done|].
      rewrite (Hsame Heq) in Hc1. symmetry. by eapply rewind_offset.
    + exists g1', gsrc. split; [done|]. split; [by rewrite !zget_insert_other by lia|]. unfold g1'. split; [apply Hpl1|]. by exists k.
  - intros Hlt' kh it Hm Hci. by apply (Hp Hlt kh it).
  - intros dc Hdc. rewrite Hch2 in Hdc.
    rewrite (zget_insert _ _ _ dc1) in Hdc by (rewrite Hch1, zget_insert_other by lia; done). by simplify_eq.
Qed.

(** ** Copying a record *)

Lemma gc_ghost_held g x off rec :
  rec_ok mc x → g_left g = [] ∨ rec_Size x <= zlen (g_gap g) → held g off rec → held (gc_ghost g x) off rec.
Proof.
  intros Hx Hroom [(i & Hr & ->)|(j & Hr & ->)]; pose proof (rec_Size_range mc x Hx) as [Hs _].
  - left. exists i. pose proof (lookup_lt_Some _ _ _ Hr). unfold offset_of, gc_ghost. cbn [g_recs].
    rewrite take_app_le by lia. split; [by apply lookup_app_l_Some|done].
  - destruct Hroom as [Hn|Hroom]; [by rewrite Hn in Hr|]. right. exists j. split; [done|]. unfold left_offset, gc_ghost.
    cbn [g_recs g_gap g_left]. rewrite sizes_app, sizes_cons. change (sizes []) with 0.
    unfold zlen in *. rewrite length_drop. lia.
Qed.

Lemma gc_ghost_new g x : held (gc_ghost g x) (sizes (g_recs g)) x.
Proof.
  left. exists (length (g_recs g)). unfold offset_of, gc_ghost. cbn [g_recs]. split; [by apply list_lookup_middle|].
  by rewrite take_app_length.
Qed.

(** What is left of the destination for the copy, with the record read given up. *)
Lemma forget_room gd rec l : g_left gd = rec :: l → rec_ok mc rec → rec_Size rec <= zlen (g_gap (forget gd)).
Proof.
  intros Hl Hok. unfold forget. rewrite Hl. cbn [g_gap]. rewrite zlen_app, (zlen_enc mc) by done. pose proof (zlen_nonneg (g_gap gd)). lia.
Qed.

Lemma reading_left gs gc off l gd :
  reading gs gc off l → zget gs (gc_Dst gc) = Some gd →
  if decide (gc_Dst gc = gc_Src gc) then g_left gd = l ∧ off = left_offset gd 0 else g_left gd = [].
Proof.
  intros (gd0 & gsrc & Hgd0 & _ & Hr) Hgd. assert (gd0 = gd) as -> by congruence. destruct (decide _); [done|]. by destruct Hr.
Qed.

Lemma copy_room gs gc off rec l t gd :
  reading gs gc off (rec :: l) → owned Conf mc E K t rec → zget gs (gc_Dst gc) = Some gd →
  g_left (forget gd) = [] ∨ rec_Size rec <= zlen (g_gap (forget gd)).
Proof.
  intros Hr Hown Hgd. destruct (owned_size _ _ Hown) as (Hok & _). pose proof (reading_left _ _ _ _ _ Hr Hgd) as Hl.
  destruct (decide _); [right; by eapply forget_room; [apply Hl|]|left; by rewrite forget_left, Hl].
Qed.

(** The copy in the file, as the store sees it. *)
Lemma copy_append o gc todo A m gs G a off rec l :
  gc_base Conf mc E K o gc todo A m gs G a → gc_Src gc <= gc_End gc → reading gs gc off (rec :: l) →
  (∀ dc, zget (ds_chunks (bk_datas (op_bkt o))) (gc_Dst gc) = Some dc → dc_writingHead dc + rec_Size rec <= DataFileMax Conf) →
  let ds := bk_datas (op_bkt o) in
  ∃ dc gd dc' disk' ds1 head, let gs' := <[Z.to_nat (gc_Dst gc) := gc_ghost (forget gd) (stream_form rec)]> gs in
    zget (ds_chunks ds) (gc_Dst gc) = Some dc ∧ zget gs (gc_Dst gc) = Some gd
    ∧ AppendRecordGC dc (ds_disk ds) (wrapRecord (stream_form rec)) = Some (dc', disk', head)
    ∧ with_dc o (gc_Dst gc) dc' disk' = Some (op_with o (with_datas (op_bkt o) ds1))
    ∧ store_inv Conf mc ds1 gs' todo ∧ ds_chunks ds1 = <[Z.to_nat (gc_Dst gc) := dc']> (ds_chunks ds) ∧ ds_newHead ds1 = ds_newHead ds
    ∧ all_owned Conf mc E K (bk_htree (op_bkt o)) gs'
    ∧ holds gs' (mkPos (gc_Dst gc) head) (stream_form rec) ∧ (is_u32 head ∧ head mod 256 = 0)
    ∧ (∀ pos x, pos ≠ mkPos (gc_Src gc) off → holds gs pos x → holds gs' pos x)
    ∧ reading gs' gc (off + rec_Size rec) l
    ∧ (∀ o' m' G' a', bkt_inv Conf mc E K (op_bkt o') todo A m' gs' G' a' → bk_datas (op_bkt o') = ds1 →
         gc_base Conf mc E K o' gc todo A m' gs' G' a').
Proof.
  intros Hbase He Hr Hroom. cbn zeta. pose proof (gb_inv _ _ _ _ _ _ _ _ _ _ _ _ Hbase) as Hb.
  destruct (gb_range _ _ _ _ _ _ _ _ _ _ _ _ Hbase) as (R1 & R2 & R3 & R4). pose proof (bi_store _ _ _ _ _ _ _ _ _ _ _ Hb) as Hs.
  destruct (store_at Conf mc _ _ _ (gc_Dst gc) Hs) as (dc & gd & Hdc & Hgd & Hid & Hc & Hd); [lia|].
  destruct (reading_source _ _ _ _ _ _ _ _ _ _ Hbase He Hr) as (dcs & _ & Hdcs & _ & _ & Hend & _ & Hown & _). apply Forall_cons in Hown as [Hown Hownl].
  destruct (owned_size _ _ Hown) as (Hok & Hsz & Hsum). pose proof (owned_ok _ _ Hown) as Hok'. pose proof (Hroom _ Hdc) as Hhead.
  destruct (forget_counts gd) as (E1 & E2 & E3). destruct (owned_at Conf mc E K _ _ _ _ _ _ _ _ _ Hb Hgd) as [Ho1 Ho2].
  pose proof (copy_room _ _ _ _ _ _ _ Hr Hown Hgd) as Hgap.
  assert (flushed gd) as Hfl.
  { pose proof (proj1 (zget_Some _ _ _) Hgd) as [_ Hgd']. eapply (gb_flushed _ _ _ _ _ _ _ _ _ _ _ _ Hbase); [|exact Hgd']; lia. }
  destruct (gb_dst _ _ _ _ _ _ _ _ _ _ _ _ Hbase _ _ Hdc Hgd) as (Hw & Hmax & Hrw). pose proof (forget_inv mc _ _ _ Hc) as Hcf.
  destruct (AppendRecordGC_spec mc dc _ (forget gd) (stream_form rec) Hcf) as (dc' & f & Happ & Hc' & Hw' & Hid' & Hrw' & Hhd');
    [by apply forget_flushed|done|done|rewrite stream_size; lia|done|].
  set (gd' := gc_ghost (forget gd) (stream_form rec)) in *. rewrite stream_size in Hhd'.
  destruct (store_put Conf mc _ _ _ (gc_Dst gc) dc' gd' (<[dc_chunkid dc := f]> (ds_disk (bk_datas (op_bkt o)))) Hs) as (ds' & Hwc & Hs' & Hch' & Hh');
    [lia|lia|done|cbn [gd' gc_ghost g_done g_drop]; lia|intros c Hne; unfold file_at; rewrite lookup_insert_ne by lia; done|].
  assert (g_left (forget gd) = tail (g_left gd)) as Htl by apply forget_left.
  assert (Forall (owned Conf mc E K (bk_htree (op_bkt o))) (g_recs gd') ∧ Forall (owned Conf mc E K (bk_htree (op_bkt o))) (g_left gd')) as [Ho1' Ho2'].
  { cbn [gd' gc_ghost g_recs g_left]. rewrite E1, Htl. split; [apply Forall_app; split; [done|]; apply Forall_singleton; by apply stream_owned|].
    destruct (g_left gd); [done|]. by apply Forall_cons in Ho2 as [_ ?]. }
  assert (held gd' (dc_writingHead dc) (stream_form rec)) as Hnew.
  { rewrite (ci_head _ _ _ _ Hcf). apply gc_ghost_new. }
  exists dc, gd, dc', (<[dc_chunkid dc := f]> (ds_disk (bk_datas (op_bkt o)))), (with_disk ds' (<[dc_chunkid dc := f]> (ds_disk (bk_datas (op_bkt o))))), (dc_writingHead dc).
  split; [done|]. split; [done|]. split; [done|]. split; [unfold with_dc; by rewrite Hwc|]. split; [done|]. split; [done|]. split; [done|].
  split; [by apply all_owned_insert; [apply Hb|..]|]. split; [|split; [|split; [|split]]].
  - exists gd'. split; [by eapply zget_insert|done].
  - destruct (held_range mc _ _ _ _ _ Hc' Hnew) as (H0 & H1 & H2). pose proof (ci_max _ _ _ _ Hc'). unfold is_u32. lia.
  - intros pos x Hne Hh. eapply holds_insert; [done| |done]. intros Hci Hx. apply gc_ghost_held; [done|done|].
    eapply forget_held; [done|done|]. pose proof (reading_left _ _ _ _ _ Hr Hgd) as Hrl.
    destruct (decide (gc_Dst gc = gc_Src gc)) as [Heq|]; [|by right]. left. intros Hoff. apply Hne.
    destruct Hrl as [_ ->], pos as [pc0 po0]. cbn [ChunkID Offset] in *. congruence.
  - eapply reading_next; [done|done|done|exact Htl|]. intros Hnl. unfold left_offset. cbn [gd' gc_ghost g_recs g_gap g_left].
    rewrite !take_0, sizes_app, sizes_cons, stream_size. change (sizes []) with 0. pose proof (rec_Size_range mc rec Hok) as [Hs0 _].
    pose proof (reading_left _ _ _ _ _ Hr Hgd) as Hrl. destruct (decide _); [|done]. destruct Hrl as [Hl _].
    pose proof (forget_room _ _ _ Hl Hok). unfold zlen in *. rewrite length_drop. lia.
  - intros o' m' G' a' Hb' Hds. eapply (base_put_dst o o' gc todo A m m' gs G G' a a' dc dc' gd gd'); try done.
    + by rewrite Hds.
    + by rewrite Hds.
    + unfold flushed, gd', gc_ghost. cbn [g_drop g_recs]. rewrite E2, E1, length_app. unfold flushed in Hfl. cbn [length]. lia.
    + intros Heq. rewrite Heq in Hdcs. assert (dcs = dc) as -> by congruence.
      assert (dc_size dc' = dc_size dc) as ->.
      { rewrite (ci_size _ _ _ _ Hc'), Hhd'. cbn [gd' gc_ghost g_gap g_left]. rewrite stream_size. rewrite (ci_size _ _ _ _ Hcf).
        pose proof (reading_left _ _ _ _ _ Hr Hgd) as Hrl. rewrite decide_True in Hrl by done. destruct Hrl as [Hl _].
        pose proof (rec_Size_range mc rec Hok) as [Hs0 _]. pose proof (forget_room _ _ _ Hl Hok). unfold zlen in *. rewrite length_drop. lia. }
      apply zget_Some in Hdc as [_ Hdc']. eapply (gb_fits _ _ _ _ _ _ _ _ _ _ _ _ Hbase); [|exact Hdc']. lia.
    + lia.
    + rewrite Hrw'. intros Hf. pose proof (Hrw Hf) as Hpl. unfold plain, gd', gc_ghost. cbn [g_gap g_left].
      rewrite (forget_plain gd Hpl). destruct Hpl as [-> ->]. by rewrite drop_nil.
Qed.

(** The tree entry of a key, if it has one, at a new position. *)
Definition moved (m : gmap Z HTreeItem) (kh : Z) (pos : Position) : gmap Z HTreeItem :=
  match m !! kh with Some it => <[kh := mkHTreeItem 0 pos (it_Ver it) (Vhash it)]> m | None => m end.

Lemma moved_other m kh pos kh' : kh' ≠ kh → moved m kh pos !! kh' = m !! kh'.
Proof. intros Hne. unfold moved. destruct (m !! kh); [by apply lookup_insert_ne|done]. Qed.

Lemma moved_key m kh pos : moved m kh pos !! kh = (λ it, mkHTreeItem 0 pos (it_Ver it) (Vhash it)) <$> m !! kh.
Proof. unfold moved. destruct (m !! kh) eqn:Hm; [by rewrite lookup_insert_eq|done]. Qed.

Lemma moved_inv b b' todo A m gs gs' G G' a a' kh old pos rec :
  bkt_inv Conf mc E K b todo A m gs G a → models Conf (bk_htree b') (moved m kh pos) → same_frame (bk_htree b) (bk_htree b') →
  store_inv Conf mc (bk_datas b') gs' todo → length gs' = length gs → all_owned Conf mc E K (bk_htree b) gs' →
  mgr_rep Conf (bk_hints b') G' a' → all_known E K G' → ct_Items (hm_collisions (bk_hints b')) = ∅ →
  holds gs old rec → kh = getKeyHash E (r_Key rec) → (∀ it, m !! kh = Some it → Pos it = old) →
  holds gs' pos (stream_form rec) → (∀ p x, p ≠ old → holds gs p x → holds gs' p x) →
  bkt_inv Conf mc E K b' todo A (moved m kh pos) gs' G' a'.
Proof.
  intros Hb Ht Hf Hs Hl Ho Hr Hk Hct Hold Hkh Hat Hnew Hkeep. split; try done.
  - pose proof (bi_len _ _ _ _ _ _ _ _ _ _ _ Hb). unfold zlen in *. by rewrite Hl.
  - by eapply all_owned_frame.
  - apply Hb.
  - intros key rec0 vh HA. destruct (bi_item _ _ _ _ _ _ _ _ _ _ _ Hb _ _ _ HA) as (p0 & x & y & Hm & Hx & Hy & Hz & Hw).
    destruct (decide (getKeyHash E key = kh)) as [Heq|Hne].
    + rewrite Heq in *. pose proof (Hat _ Hm) as Hp. cbn [Pos] in Hp. subst p0.
      assert (y = rec) as -> by (by eapply holds_unique; [apply Hb|..]).
      exists pos, x, (stream_form rec). rewrite moved_key, Hm. cbn [fmap option_fmap option_map it_Ver Vhash]. split_and!; try done.
    + exists p0, x, y. rewrite moved_other by done. split_and!; try done. apply Hkeep; [|done]. intros ->. apply Hne.
      rewrite Hkh. by eapply (points_key b); [done|exact Hm|].
  - intros kh' it Hm. assert (is_Some (m !! kh')) as [it' Hm'].
    { destruct (decide (kh' = kh)) as [->|]; [|by rewrite moved_other in Hm by done; eexists].
      rewrite moved_key in Hm. by destruct (m !! kh). }
    by eapply (bi_only _ _ _ _ _ _ _ _ _ _ _ Hb).
Qed.

Lemma copy_tree t m ki pos (found : bool) :
  models Conf t m → prepared Conf ki → in_bucket t (ki_KeyHash ki) → found = bool_decide (is_Some (m !! ki_KeyHash ki)) →
  0 <= ChunkID pos < MAX_NUM_CHUNK → is_u32 (Offset pos) → Offset pos mod 256 = 0 →
  ∃ t', (if found then UpdateHtreePos Conf E t ki pos else Some t) = Some t' ∧ same_frame t t' ∧ models Conf t' (moved m (ki_KeyHash ki) pos).
Proof.
  intros Ht Hp Hb -> Hc Ho Ha. unfold moved. destruct (m !! ki_KeyHash ki) as [it|] eqn:Hm.
  - rewrite bool_decide_true by done. by apply UpdateHtreePos_spec.
  - rewrite bool_decide_false by (by intros [? ?]). by exists t.
Qed.

Lemma gc_copy_spec o gc todo A m gs G a off rec l ki v now :
  gc_base Conf mc E K o gc todo A m gs G a → gc_Src gc <= gc_End gc → reading gs gc off (rec :: l) → passed m gc off →
  (∀ dc, zget (ds_chunks (bk_datas (op_bkt o))) (gc_Dst gc) = Some dc → dc_writingHead dc + rec_Size rec <= DataFileMax Conf) →
  key_ok Conf E K (bk_htree (op_bkt o)) ki → ki_Key ki = r_Key rec →
  v_found v = bool_decide (is_Some (m !! ki_KeyHash ki)) → (∀ it, m !! ki_KeyHash ki = Some it → Pos it = mkPos (gc_Src gc) off) →
  is_i32 (Ver (v_meta v)) → is_u16 (ValueHash (v_meta v)) →
  ∃ o' m' gs' G' a', gc_copy Conf E o (gc_Dst gc) ki (wrapRecord (stream_form rec)) v now = Some o' ∧ same_open (gc_Src gc) o o'
    ∧ gc_base Conf mc E K o' gc todo A m' gs' G' a' ∧ reading gs' gc (off + rec_Size rec) l ∧ passed m' gc (off + rec_Size rec).
Proof.
  intros Hbase He Hr Hp Hroom Hk Hkey Hfound Hat Hver Hvh. pose proof (gb_inv _ _ _ _ _ _ _ _ _ _ _ _ Hbase) as Hb.
  destruct (gb_range _ _ _ _ _ _ _ _ _ _ _ _ Hbase) as (R1 & R2 & R3 & R4).
  destruct (reading_source _ _ _ _ _ _ _ _ _ _ Hbase He Hr) as (_ & _ & _ & _ & _ & _ & _ & Hown & Hat0). apply Forall_cons in Hown as [Hown _].
  specialize (Hat0 _ _ eq_refl). destruct (gc_key _ _ Hown) as (_ & _ & _ & _ & Hkl).
  destruct (copy_append _ _ _ _ _ _ _ _ _ _ _ Hbase He Hr Hroom) as (dc & gd & dc' & disk' & ds1 & head & Hdc & Hgd & Happ & Hwd & Hs1 & Hch1
    & Hh1 & Ho1 & Hnew & [Hu Hal] & Hkeep & Hr' & Hbase').
  pose proof (si_head _ _ _ _ _ (bi_store _ _ _ _ _ _ _ _ _ _ _ Hb)) as Hhd. rewrite (bi_len _ _ _ _ _ _ _ _ _ _ _ Hb) in Hhd.
  set (pos := mkPos (gc_Dst gc) head) in *. assert (0 <= ChunkID pos < MAX_NUM_CHUNK) as Hc by (cbn; lia).
  unfold gc_copy. rewrite Hdc. cbn [mbind option_bind]. rewrite Happ. cbn [mbind option_bind]. rewrite Hwd. cbn [mbind option_bind].
  fold pos. cbn [op_with op_bkt with_datas bk_htree].
  destruct (copy_tree (bk_htree (op_bkt o)) m ki pos (v_found v)) as (t' & -> & Hf & Ht'); try done; try apply Hk; [apply Hb|].
  cbn [mbind option_bind op_with op_bkt with_htree bk_hints with_datas].
  destruct (hm_set_spec Conf mc E K (bk_hints (op_bkt o)) G a ki (v_meta v) pos (wrec_RecSize (wrapRecord (stream_form rec))) true now)
    as (rot & h1 & G1 & a1 & -> & Hh1' & Hkn1 & Hct1); try done; try apply Hb; try (rewrite (kk_str _ _ _ _ _ Hk)); try apply Hk; [by rewrite Hkey|].
  cbn [mbind option_bind].
  assert (∃ h2 G2, (if rot then '(_, h) ← trydump Conf h1 (gc_Dst gc) false now; Some h else Some h1) = Some h2
    ∧ mgr_rep Conf h2 G2 a1 ∧ all_known E K G2 ∧ ct_Items (hm_collisions h2) = ∅) as (h2 & G2 & -> & Hh2 & Hkn2 & Hct2).
  { destruct rot; [|by exists h1, G1]. destruct (trydump_known Conf E K h1 G1 a1 (gc_Dst gc) false now) as (s & h2 & G2 & -> & ? & ? & Hcl); try done.
    cbn [mbind option_bind]. exists h2, G2. by rewrite Hcl. }
  cbn [mbind option_bind].
  set (o' := with_gc_hints _ h2). set (gs' := <[Z.to_nat (gc_Dst gc) := _]> gs) in *.
  assert (ki_KeyHash ki = getKeyHash E (r_Key rec)) as Hkh by (rewrite (kk_hash _ _ _ _ _ Hk), Hkey; done).
  assert (bkt_inv Conf mc E K (op_bkt o') todo A (moved m (ki_KeyHash ki) pos) gs' G2 a1) as Hb'.
  { eapply (moved_inv (op_bkt o) (op_bkt o') todo A m gs gs' G G2 a a1 (ki_KeyHash ki) (mkPos (gc_Src gc) off) pos rec); try done.
    unfold gs'. by rewrite length_insert. }
  exists o', (moved m (ki_KeyHash ki) pos), gs', G2, a1. split; [done|]. split; [eapply same_open_put; [|done|done|exact Hch1]; lia|]. split; [by apply Hbase'|]. split; [done|].
  intros Hlt. revert Hlt. change (passed (moved m (ki_KeyHash ki) pos) gc (off + rec_Size rec)).
  destruct (decide (gc_Dst gc < gc_Src gc)) as [Hlt|]; [|intros ?; lia].
  eapply (passed_next (op_bkt o)); try done; [lia|lia|apply Hbase|]. intros kh it Hm Hci.
  destruct (decide (kh = ki_KeyHash ki)) as [->|Hne].
  - exfalso. rewrite moved_key in Hm. destruct (m !! ki_KeyHash ki); [|done]. cbn in Hm. simplify_eq. cbn in Hci. lia.
  - rewrite moved_other in Hm by done. split; [done|]. intros Hpos. apply Hne. rewrite Hkh.
    eapply (points_key (op_bkt o)); [done|exact Hm|]. by rewrite Hpos.
Qed.

(** A rewritten chunk never runs over what is left of it. *)
Lemma in_place_fits o gc todo A m gs G a off rec l dc :
  gc_base Conf mc E K o gc todo A m gs G a → gc_Src gc <= gc_End gc → reading gs gc off (rec :: l) → gc_Dst gc = gc_Src gc →
  zget (ds_chunks (bk_datas (op_bkt o))) (gc_Dst gc) = Some dc → dc_writingHead dc + rec_Size rec <= DataFileMax Conf.
Proof.
  intros Hbase He Hr Heq Hdc. pose proof (gb_inv _ _ _ _ _ _ _ _ _ _ _ _ Hbase) as Hb.
  destruct (gb_range _ _ _ _ _ _ _ _ _ _ _ _ Hbase) as (R1 & R2 & R3 & R4). pose proof (bi_store _ _ _ _ _ _ _ _ _ _ _ Hb) as Hs.
  destruct (store_at Conf mc _ _ _ (gc_Dst gc) Hs) as (dc0 & gd & Hdc0 & Hgd & _ & Hc & _); [lia|]. assert (dc0 = dc) as -> by congruence.
  pose proof (reading_left _ _ _ _ _ Hr Hgd) as Hrl. rewrite decide_True in Hrl by done. destruct Hrl as [Hl _].
  pose proof (ci_left _ _ _ _ Hc) as Hok. rewrite Hl in Hok. apply Forall_cons in Hok as [_ Hok]. pose proof (sizes_range mc _ Hok) as [? _].
  pose proof (ci_size _ _ _ _ Hc) as Hsz. rewrite Hl, sizes_cons in Hsz. pose proof (zlen_nonneg (g_gap gd)).
  assert (dc_size dc <= DataFileMax Conf); [|lia]. apply zget_Some in Hdc as [_ Hdc'].
  eapply (gb_fits _ _ _ _ _ _ _ _ _ _ _ _ Hbase); [|exact Hdc']. lia.
Qed.

Lemma gc_move_spec o gc todo A m gs G a off rec l ki v now :
  gc_base Conf mc E K o gc todo A m gs G a → gc_Src gc <= gc_End gc → reading gs gc off (rec :: l) → passed m gc off →
  key_ok Conf E K (bk_htree (op_bkt o)) ki → ki_Key ki = r_Key rec →
  v_found v = bool_decide (is_Some (m !! ki_KeyHash ki)) → (∀ it, m !! ki_KeyHash ki = Some it → Pos it = mkPos (gc_Src gc) off) →
  is_i32 (Ver (v_meta v)) → is_u16 (ValueHash (v_meta v)) →
  ∃ o' d m' gs' G' a', gc_move Conf E o gc ki (stream_form rec) v now = Some (o', gc_dst gc d) ∧ same_open (gc_Src gc) o o'
    ∧ gc_base Conf mc E K o' (gc_dst gc d) todo A m' gs' G' a' ∧ reading gs' (gc_dst gc d) (off + rec_Size rec) l
    ∧ passed m' (gc_dst gc d) (off + rec_Size rec).
Proof.
  intros Hbase He Hr Hp Hk Hkey Hfound Hat Hver Hvh. pose proof (gb_inv _ _ _ _ _ _ _ _ _ _ _ _ Hbase) as Hb.
  destruct (gb_range _ _ _ _ _ _ _ _ _ _ _ _ Hbase) as (R1 & R2 & R3 & R4). pose proof (eo_max _ _ _ _ env) as Hm0.
  destruct (reading_source _ _ _ _ _ _ _ _ _ _ Hbase He Hr) as (_ & _ & _ & _ & _ & _ & _ & Hown & _). apply Forall_cons in Hown as [Hown _].
  destruct (owned_size _ _ Hown) as (Hok & Hsz & Hsum). pose proof (rec_Size_range mc rec Hok) as [Hs0 _].
  destruct (store_at Conf mc _ _ _ (gc_Dst gc) (bi_store _ _ _ _ _ _ _ _ _ _ _ Hb)) as (dc & gd & Hdc & Hgd & _ & Hc & _); [lia|].
  destruct (gb_dst _ _ _ _ _ _ _ _ _ _ _ _ Hbase _ _ Hdc Hgd) as (_ & Hmax & _). destruct (chunk_bounds _ _ _ _ Hc) as ([Hh0 _] & _ & _).
  unfold gc_move. rewrite Hdc. cbn [mbind option_bind]. change (wrec_RecSize (wrapRecord (stream_form rec))) with (rec_Size rec).
  rewrite !u32_small by (unfold is_u32; lia). destruct (Z.ltb_spec (DataFileMax Conf) (rec_Size rec + dc_writingHead dc)) as [Hfull|Hroom].
  - destruct (decide (gc_Dst gc = gc_Src gc)) as [Heq|Hne].
    { pose proof (in_place_fits _ _ _ _ _ _ _ _ _ _ _ _ Hbase He Hr Heq Hdc). lia. }
    destruct (next_dst o gc todo A m gs G a off _ now Hbase He Hr Hp ltac:(lia)) as (o1 & o2 & gs2 & G2 & -> & Hbeg & Hso & Hbase2 & Hr2 & Hp2 & Hz).
    cbn [mbind option_bind]. rewrite Hbeg. cbn [mbind option_bind gc_dst gc_Dst].
    destruct (gc_copy_spec o2 (gc_dst gc (gc_Dst gc + 1)) todo A m gs2 G2 a off rec l ki v now) as (o' & m' & gs' & G' & a' & Hcp & Hso' & H1 & H2 & H3);
      try done.
    { intros d Hd. rewrite (Hz d Hd). lia. }
    { eapply key_ok_frame; [exact Hk|apply Hso]. }
    cbn [gc_dst gc_Dst] in Hcp. rewrite Hcp. cbn [mbind option_bind]. exists o', (gc_Dst gc + 1), m', gs', G', a'. split; [done|]. split; [by etrans|done].
  - destruct (gc_copy_spec o gc todo A m gs G a off rec l ki v now) as (o' & m' & gs' & G' & a' & Hcp & Hso' & H1 & H2 & H3); try done.
    { intros d Hd. assert (d = dc) as -> by congruence. lia. }
    cbn [mbind option_bind]. rewrite Hcp. cbn [mbind option_bind]. exists o', (gc_Dst gc), m', gs', G', a'.
    assert (gc_dst gc (gc_Dst gc) = gc) as -> by (by destruct gc). done.
Qed.

End Step.
