(* ===== verification/GCRun.v ===== *)
(** * The steps of a garbage collection run *)

From stdpp Require Import gmap.
From S2P Require Import Prelude Hashing Strconv Config Cmem Key Item Fixtures Leaf HTree HTreeSpec HTreeMerkle.
From S2P Require Import HTreeProps DataFile Data DataSpec DataLog HintFile Hint HintSpec HintProps HintMerge Bucket BucketSpec.
From S2P Require Import BucketOpen GC GCSpec GCInv GCStep.

Section Run.
Context (Conf : HStoreConfig) (mc : MCConfig) (E : Ext) (K : bytes → Prop).
Hypothesis (env : env_ok Conf mc E K).
Hypothesis (depth_ok : 0 <= TreeDepth Conf <= 16).

(** ** How long a run takes *)

(** Two steps for each chunk of the range and one for each record. *)
Definition chunk_work (dc : dataChunk) : nat := 2 + Z.to_nat (dc_size dc / 256).
Definition work (o : OpenBucket) (i end_ : Z) : nat :=
  sum_list_with chunk_work (take (Z.to_nat (end_ + 1 - i)) (drop (Z.to_nat i) (ds_chunks (bk_datas (op_bkt o))))).

Lemma work_cons o i end_ dc :
  zget (ds_chunks (bk_datas (op_bkt o))) i = Some dc → i <= end_ → work o i end_ = (chunk_work dc + work o (i + 1) end_)%nat.
Proof.
  intros [H0 Hdc]%zget_Some Hle. unfold work. rewrite (drop_S _ _ _ Hdc).
  replace (Z.to_nat (end_ + 1 - i)) with (S (Z.to_nat (end_ + 1 - (i + 1)))) by lia. cbn [take].
  replace (S (Z.to_nat i)) with (Z.to_nat (i + 1)) by lia. done.
Qed.

Lemma work_same src o o' end_ : same_open src o o' → work o' (src + 1) end_ = work o (src + 1) end_.
Proof. intros (_ & _ & Hd). unfold work. by rewrite Hd. Qed.

Definition steps_left (o : OpenBucket) (gc : GCState) (pc : gc_pc) (gs : list ghost) (n : nat) : Prop :=
  match pc with
  | AtEnd => True
  | AtChunk => (1 + work o (gc_Src gc) (gc_End gc) <= n)%nat
  | AtRecord _ off _ => ∃ l, reading gs gc off l ∧ (2 + length l + work o (gc_Src gc + 1) (gc_End gc) <= n)%nat
  end.

(** ** The end of a run *)

Lemma mgr_rep_ext h h' G a :
  mgr_rep Conf h G a → hm_chunks h' = hm_chunks h → hm_maxChunkID h' = hm_maxChunkID h → hm_merged h' = hm_merged h → mgr_rep Conf h' G a.
Proof. intros [] Hc Hm Hg. split; rewrite ?Hc, ?Hm, ?Hg; done. Qed.

Lemma gc_finish_spec o gc todo A m gs G a gd now :
  gc_base Conf mc E K o gc todo A m gs G a → zget gs (gc_Dst gc) = Some gd → g_left gd = [] →
  ∃ o' gs' G', gc_finish Conf o gc now = Some o' ∧ same_open (gc_Dst gc) o o'
    ∧ bkt_inv Conf mc E K (op_bkt o') todo A m gs' G' a ∧ quiet o' gs'.
Proof.
  intros Hbase Hgd Hleft. pose proof (gb_inv _ _ _ _ _ _ _ _ _ _ _ _ Hbase) as Hb.
  destruct (gb_range _ _ _ _ _ _ _ _ _ _ _ _ Hbase) as (R1 & R2 & R3 & R4).
  destruct (store_at Conf mc _ _ _ (gc_Dst gc) (bi_store _ _ _ _ _ _ _ _ _ _ _ Hb)) as (dc & g0 & Hdc & Hg0 & _); [lia|].
  assert (g0 = gd) as -> by congruence. destruct (gb_dst _ _ _ _ _ _ _ _ _ _ _ _ Hbase _ _ Hdc Hgd) as (_ & _ & Hrw).
  assert (flushed gd) as Hfl.
  { apply zget_Some in Hgd as [_ Hgd']. eapply (gb_flushed _ _ _ _ _ _ _ _ _ _ _ _ Hbase); [|exact Hgd']; lia. }
  destruct (end_writing_spec Conf mc E K o todo A m gs G a (gc_Dst gc) now dc gd) as (o1 & G1 & dc1 & Hend & Hso & Hb1 & Hch & Hrw1); try done; [lia|].
  unfold gc_finish. rewrite Hend. cbn [mbind option_bind]. eexists _, _, G1. split; [done|]. split; [by apply Hso|]. split.
  - apply (inv_hints Conf mc E K (op_bkt o1) todo A m _ G1 a); [done| |apply Hb1|done]. by eapply mgr_rep_ext; [apply Hb1|..].
  - split; cbn [AfterBucket op_with op_bkt with_hints bk_datas]; rewrite ?Hch; intros i x Hx.
    + apply list_lookup_insert_Some in Hx as [(<- & <- & _)|[Hne Hx]]; [done|].
      eapply (gb_plain _ _ _ _ _ _ _ _ _ _ _ _ Hbase); [|exact Hx]. lia.
    + apply list_lookup_insert_Some in Hx as [(<- & <- & _)|[Hne Hx]]; [done|].
      eapply (gb_still _ _ _ _ _ _ _ _ _ _ _ _ Hbase); [|exact Hx]. lia.
Qed.

Lemma gc_stop_spec o gc todo A m gs G a gd now r :
  gc_base Conf mc E K o gc todo A m gs G a → zget gs (gc_Dst gc) = Some gd → g_left gd = [] →
  ∃ o' gs' G', gc_stop Conf o gc now r = Some (o', gc, AtEnd, r) ∧ same_frame (bk_htree (op_bkt o)) (bk_htree (op_bkt o'))
    ∧ gc_inv Conf mc E K o' gc AtEnd todo A m gs' G' a.
Proof.
  intros Hbase Hgd Hl. destruct (gc_finish_spec _ _ _ _ _ _ _ _ _ now Hbase Hgd Hl) as (o' & gs' & G' & Hf & Hso & Hb & Hq).
  unfold gc_stop. rewrite Hf. cbn [mbind option_bind]. exists o', gs', G'. split; [done|]. split; [apply Hso|]. by split.
Qed.

(** ** The next source *)

Lemma base_next_src o o' gc todo A m gs G a sum :
  gc_base Conf mc E K o gc todo A m gs G a → gc_Src gc <= gc_End gc → op_bkt o' = op_bkt o →
  (gc_Dst gc ≠ gc_Src gc → ∀ g, zget gs (gc_Src gc) = Some g → g_recs g = []) →
  gc_base Conf mc E K o' (gc_src gc (gc_Src gc + 1) sum) todo A m gs G a.
Proof.
  intros [B1 B2 B3 B4 B5 B6 B7 B8] He Ho Hemp. split; cbn [gc_src gc_Dst gc_Src gc_End]; rewrite ?Ho; try done.
  - lia.
  - intros i dc Hi. apply B6. lia.
  - intros i g Hi Hg. destruct (decide (Z.of_nat i = gc_Src gc)) as [Heq|]; [|apply (B7 i); [lia|done]].
    apply Hemp; [lia|]. apply zget_Some. split; [lia|]. by rewrite <- Heq, Nat2Z.id.
Qed.

Lemma base_hints o gc todo A m gs G a h G' a' :
  gc_base Conf mc E K o gc todo A m gs G a → mgr_rep Conf h G' a' → all_known E K G' → hm_collisions h = hm_collisions (bk_hints (op_bkt o)) →
  gc_base Conf mc E K (with_gc_hints o h) gc todo A m gs G' a'.
Proof. intros [B1 B2 B3 B4 B5 B6 B7 B8] Hr Hk Hc. split; try done. by eapply inv_hints. Qed.

Lemma no_size dc disk g : chunk_inv mc dc disk g → dc_size dc <= 0 → g_recs g = [] ∧ g_left g = [].
Proof.
  intros Hc Hz. pose proof Hc as [C1 C2 _ _ C5 C6 _ _ _ _]. pose proof (zlen_nonneg (g_gap g)).
  assert (∀ l, Forall (rec_ok mc) l → sizes l <= 0 → l = []) as Hnil.
  { intros [|rec l] Hok Hs; [done|]. apply Forall_cons in Hok as [Hr Hok]. rewrite sizes_cons in Hs.
    pose proof (rec_Size_range mc rec Hr) as [? _]. pose proof (sizes_range mc l Hok) as [? _]. lia. }
  pose proof (sizes_range mc _ C1) as [? _]. pose proof (sizes_range mc _ C2) as [? _]. split; apply Hnil; (done || lia).
Qed.

(** A source that has been read to its end is referred to by nothing. *)
Lemma base_clear o gc todo A m gs G a off dc :
  gc_base Conf mc E K o gc todo A m gs G a → gc_Src gc <= gc_End gc → gc_Dst gc ≠ gc_Src gc → reading gs gc off [] → passed m gc off →
  zget (ds_chunks (bk_datas (op_bkt o))) (gc_Src gc) = Some dc →
  let res := dc_Clear dc (ds_disk (bk_datas (op_bkt o))) in
  ∃ o' gs', with_dc o (gc_Src gc) (fst res) (snd res) = Some o' ∧ same_open (gc_Src gc) o o'
    ∧ gc_base Conf mc E K o' gc todo A m gs' G a ∧ zget gs' (gc_Src gc) = Some no_ghost ∧ zget gs' (gc_Dst gc) = zget gs (gc_Dst gc).
Proof.
  intros Hbase He Hne Hr Hp Hdc. cbn zeta. pose proof (gb_inv _ _ _ _ _ _ _ _ _ _ _ _ Hbase) as Hb.
  destruct (gb_range _ _ _ _ _ _ _ _ _ _ _ _ Hbase) as (R1 & R2 & R3 & R4).
  destruct (store_at Conf mc _ _ _ (gc_Src gc) (bi_store _ _ _ _ _ _ _ _ _ _ _ Hb)) as (dc0 & g & Hdc0 & Hg & Hid & Hc & _); [lia|].
  assert (dc0 = dc) as -> by congruence. destruct (clear_empties mc dc _ g Hc) as (Hc' & Hid' & Hrw' & Hoth).
  destruct (reading_source Conf mc E K _ _ _ _ _ _ _ _ _ _ Hbase He Hr) as (dc1 & _ & Hdc1 & _ & _ & Hend & _). assert (dc1 = dc) as -> by congruence.
  assert (flushed g) as Hfl by (pose proof (proj1 (zget_Some _ _ _) Hg) as [_ Hg']; eapply (gb_flushed _ _ _ _ _ _ _ _ _ _ _ _ Hbase); [|exact Hg']; lia).
  pose proof (flushed_idle Conf mc _ _ _ (gc_Src gc) _ (bi_store _ _ _ _ _ _ _ _ _ _ _ Hb) ltac:(lia) Hg Hfl) as Hidle.
  destruct (dc_Clear dc _) as [dc' disk'] eqn:Hcl. cbn [fst snd] in *.
  destruct (put_chunk Conf mc E K o todo A m gs G a (gc_Src gc) g dc' no_ghost disk') as (ds' & Hw & Hb' & Hch & Hh & _); try done; [lia|lia|intros c ?; apply Hoth; lia| |].
  { intros kh it rec Hm Hci Hh. exfalso. pose proof (Hp ltac:(lia) kh it Hm Hci). change (sizes []) with 0 in Hend.
    destruct (held_range mc _ _ _ _ _ Hc Hh) as (_ & ? & _). lia. }
  rewrite Hw. eexists _, _. split; [done|]. split; [eapply same_open_put; [|done|done|exact Hch]; lia|].
  split; [|split; [by eapply zget_insert|rewrite zget_insert_other by lia; done]].
  destruct Hbase as [B1 B2 B3 B4 B5 B6 B7 B8]. split; try done; cbn [op_with op_bkt with_datas bk_datas]; rewrite ?Hch, ?Hh; try done.
  - intros i x Hi [(<- & <- & _)|[_ Hx]]%list_lookup_insert_Some; [done|]. by apply (B3 i).
  - intros i x Hi [(<- & <- & _)|[_ Hx]]%list_lookup_insert_Some; [done|]. by apply (B4 i).
  - intros i x Hi [(<- & <- & _)|[_ Hx]]%list_lookup_insert_Some; [done|]. by apply (B5 i).
  - intros i x Hi [(<- & <- & _)|[_ Hx]]%list_lookup_insert_Some; [|by apply (B6 i)].
    unfold dc_Clear in Hcl. injection Hcl as <- _. cbn [dc_size]. apply (eo_max _ _ _ _ env).
  - intros i x Hi [(<- & <- & _)|[_ Hx]]%list_lookup_insert_Some; [done|]. by apply (B7 i).
  - intros d x Hd Hx. rewrite zget_insert_other in Hd by lia. rewrite zget_insert_other in Hx by lia. by apply B8.
Qed.

(** ** One step *)

Lemma owned_length t l : Forall (owned Conf mc E K t) l → 256 * Z.of_nat (length l) <= sizes l.
Proof.
  induction 1 as [|x l Hx Hl IH]; [done|]. rewrite sizes_cons. cbn [length].
  destruct (owned_size Conf mc E K env _ x Hx) as (Hok & _). pose proof (rec_Size_range mc x Hok) as [? _]. lia.
Qed.

(** The end of a chunk. *)
Lemma chunk_done_spec o gc todo A m gs G a off fs :
  gc_base Conf mc E K o gc todo A m gs G a → gc_Src gc <= gc_End gc → reading gs gc off [] → passed m gc off →
  ∃ o' gs' sum, let gc' := gc_src gc (gc_Src gc + 1) sum in
    gc_chunk_done o gc fs = Some (o', gc') ∧ same_open (gc_Src gc) o o' ∧ gc_inv Conf mc E K o' gc' AtChunk todo A m gs' G a.
Proof.
  intros Hbase He Hr Hp. cbn zeta. destruct (gb_range _ _ _ _ _ _ _ _ _ _ _ _ Hbase) as (R1 & R2 & R3 & R4).
  pose proof (bi_store _ _ _ _ _ _ _ _ _ _ _ (gb_inv _ _ _ _ _ _ _ _ _ _ _ _ Hbase)) as Hs. unfold gc_chunk_done.
  assert (∃ o1 gs1, (if gc_Src gc =? gc_Dst gc then Some o
       else
         dc ← zget (ds_chunks (bk_datas (op_bkt o))) (gc_Src gc);
         let '(dc, disk) := dc_Clear dc (ds_disk (bk_datas (op_bkt o))) in with_dc o (gc_Src gc) dc disk) = Some o1
    ∧ same_open (gc_Src gc) o o1 ∧ gc_base Conf mc E K o1 gc todo A m gs1 G a
    ∧ (gc_Dst gc ≠ gc_Src gc → ∀ g, zget gs1 (gc_Src gc) = Some g → g_recs g = [])
    ∧ (∀ g, zget gs1 (gc_Dst gc) = Some g → g_left g = [])) as (o1 & gs1 & -> & Hso & Hb1 & Hemp & Hleft).
  { assert (∀ g, zget gs (gc_Dst gc) = Some g → g_left g = []) as Hnl.
    { intros g Hg. pose proof (reading_left _ _ _ _ _ Hr Hg) as Hrl. destruct (decide _); [apply Hrl|done]. }
    destruct (Z.eqb_spec (gc_Src gc) (gc_Dst gc)) as [Heq|Hne]; [by exists o, gs|].
    destruct (store_at Conf mc _ _ _ (gc_Src gc) Hs) as (dc & g & Hdc & _); [lia|]. rewrite Hdc. cbn [mbind option_bind].
    destruct (base_clear o gc todo A m gs G a off dc Hbase He ltac:(lia) Hr Hp Hdc) as (o1 & gs1 & Hw & Hso & Hb1 & Hz & Hsame).
    destruct (dc_Clear dc _) as [dc' disk']. cbn [fst snd] in Hw. exists o1, gs1. split_and!; try done.
    - intros _ g1 Hg1. rewrite Hz in Hg1. by simplify_eq.
    - by rewrite Hsame. }
  cbn [mbind option_bind]. set (o2 := if _ <=? _ then _ else o1). assert (op_bkt o2 = op_bkt o1) as Ho2 by (unfold o2; by destruct (_ <=? _)).
  exists o2, gs1, (fs_add (gc_sum gc) fs). split; [done|]. split; [destruct Hso as (? & ? & ?); unfold same_open; by rewrite Ho2|].
  split; [by eapply base_next_src|]. split; cbn [gc_src gc_Dst gc_Src]; [lia|]. intros gd Hgd. split; [lia|]. intros _. by apply Hleft.
Qed.

(** What a step leaves of the record of the run: no error comes up, and the run stops
    only when it is cancelled or behind its range. *)
Definition runs_on (gc gc' : GCState) (pc' : gc_pc) : Prop :=
  gc_Err gc' = gc_Err gc ∧ gc_End gc' = gc_End gc ∧ gc_CancelFlag gc' = gc_CancelFlag gc
  ∧ (pc' = AtEnd → gc_CancelFlag gc' = true ∨ gc_End gc' < gc_Src gc').

Lemma step_at_record o gc pos off fs todo A m gs G a now r n :
  gc_inv Conf mc E K o gc (AtRecord pos off fs) todo A m gs G a → steps_left o gc (AtRecord pos off fs) gs n →
  ∃ o' gc' pc' r' m' gs' G' a' n', gc_step Conf mc E o gc (AtRecord pos off fs) now r = Some (o', gc', pc', r')
    ∧ gc_inv Conf mc E K o' gc' pc' todo A m' gs' G' a' ∧ same_frame (bk_htree (op_bkt o)) (bk_htree (op_bkt o'))
    ∧ n = S n' ∧ steps_left o' gc' pc' gs' n' ∧ runs_on gc gc' pc'.
Proof.
  intros (Hbase & He & -> & _ & Hp) (l & Hr & Hn). destruct n as [|n]; [lia|]. pose proof (gb_inv _ _ _ _ _ _ _ _ _ _ _ _ Hbase) as Hb.
  destruct (reading_source Conf mc E K _ _ _ _ _ _ _ _ _ _ Hbase He Hr) as (dc & pre & Hdc & Hf & Hpre & Hend & Hmax & Hown & Hat).
  cbn [gc_step]. rewrite <- Hpre, Hf. destruct l as [|rec l].
  - change (file_of []) with (@nil Z). rewrite app_nil_r, Next_end. cbn [mbind option_bind n_err n_rec].
    destruct (chunk_done_spec o gc todo A m gs G a off fs Hbase He Hr Hp) as (o' & gs' & sum & Hd & Hso & Hi). rewrite Hd. cbn [mbind option_bind].
    eexists o', _, AtChunk, r, m, gs', G, a, n. split; [done|]. split; [done|]. split; [apply Hso|]. split; [done|]. split; [|done].
    cbn [steps_left gc_src gc_Src gc_End]. rewrite (work_same _ _ _ _ Hso). cbn [length] in Hn. lia.
  - apply Forall_cons in Hown as [Hown Hownl]. specialize (Hat _ _ eq_refl). destruct (owned_size Conf mc E K env _ _ Hown) as (Hok & _).
    rewrite sizes_cons in Hend. pose proof (owned_length _ _ Hownl).
    rewrite (Next_reading mc E (pre ++ file_of (rec :: l)) pre rec l r eq_refl Hok) by lia. cbn [mbind option_bind n_err n_rec n_offset n_broken sr_pos sr_offset].
    destruct (gc_key Conf mc E K env depth_ok _ _ Hown) as (ki & Hki & Hk & Hkey & _). change (r_Key (stream_form rec)) with (r_Key rec).
    rewrite Hki. cbn [mbind option_bind]. rewrite Hpre.
    destruct (gc_look_spec Conf mc E K env _ _ _ _ _ _ _ (gc_Begin gc) ki rec (mkPos (gc_Src gc) off) r Hb Hk) as (v & r1 & -> & Hver & Hvh & Hv).
    cbn [mbind option_bind]. assert (ki_KeyHash ki = getKeyHash E (r_Key rec)) as Hkh by (rewrite (kk_hash _ _ _ _ _ Hk), Hkey; done).
    cbn [length] in Hn. destruct (v_newest v) eqn:Hnew.
    + destruct (gc_move_spec Conf mc E K env depth_ok o gc todo A m gs G a off rec l ki v now)
        as (o' & d & m' & gs' & G' & a' & -> & Hso & Hbase' & Hr' & Hp'); try done.
      { destruct (m !! _); [rewrite bool_decide_true by done; by destruct Hv|rewrite bool_decide_false by (by intros [? ?]); done]. }
      { intros it Hm. rewrite Hm in Hv. destruct Hv as [_ Hv]. symmetry in Hv. by apply bool_decide_eq_true in Hv. }
      { rewrite Hver. apply (ro_ver _ _ Hok). }
      cbn [mbind option_bind]. eexists o', _, _, r1, m', gs', G', a', n. split; [done|]. split; [|split; [apply Hso|split; [done|split; [|done]]]].
      * split; [done|]. split; [done|]. split; [done|]. split; [by exists l|done].
      * exists l. split; [done|]. cbn [gc_dst gc_Src gc_End]. rewrite (work_same _ _ _ _ Hso). lia.
    + destruct (skip_record Conf mc E K env o gc todo A m gs G a off rec l Hbase He Hr Hp) as (gs' & Hbase' & Hr' & Hp').
      { intros kh it Hm Hpos. assert (kh = ki_KeyHash ki) as ->.
        { rewrite Hkh. eapply (points_key Conf mc E K); [done|exact Hm|]. by rewrite Hpos. }
        rewrite Hm in Hv. destruct Hv as [_ Hv]. by rewrite bool_decide_true in Hv. }
      cbn [mbind option_bind]. eexists o, gc, _, r1, m, gs', G, a, n. split; [done|]. split; [|split; [done|split; [done|split; [|done]]]].
      * split; [done|]. split; [done|]. split; [done|]. split; [by exists l|done].
      * exists l. split; [done|]. lia.
Qed.

Lemma step_at_chunk o gc todo A m gs G a now r n :
  gc_inv Conf mc E K o gc AtChunk todo A m gs G a → steps_left o gc AtChunk gs n →
  ∃ o' gc' pc' r' m' gs' G' a' n', gc_step Conf mc E o gc AtChunk now r = Some (o', gc', pc', r')
    ∧ gc_inv Conf mc E K o' gc' pc' todo A m' gs' G' a' ∧ same_frame (bk_htree (op_bkt o)) (bk_htree (op_bkt o'))
    ∧ n = S n' ∧ steps_left o' gc' pc' gs' n' ∧ runs_on gc gc' pc'.
Proof.
  intros (Hbase & Hcan & Hgd) Hn. cbn [steps_left] in Hn. destruct n as [|n]; [lia|]. pose proof (gb_inv _ _ _ _ _ _ _ _ _ _ _ _ Hbase) as Hb.
  destruct (gb_range _ _ _ _ _ _ _ _ _ _ _ _ Hbase) as (R1 & R2 & R3 & R4). pose proof (bi_store _ _ _ _ _ _ _ _ _ _ _ Hb) as Hs.
  destruct (store_at Conf mc _ _ _ (gc_Dst gc) Hs) as (dcd & gd & Hdcd & Hg & _); [lia|]. destruct (Hgd gd Hg) as [Hsame Hless].
  cbn [gc_step]. destruct ((gc_End gc <? gc_Src gc) || gc_CancelFlag gc) eqn:Hstop.
  { destruct (gc_stop_spec o gc todo A m gs G a gd now r Hbase Hg) as (o' & gs' & G' & -> & Hf & Hi).
    { apply Hless. apply orb_true_iff in Hstop as [?%Z.ltb_lt|?]; [lia|by apply Hcan]. }
    exists o', gc, AtEnd, r, m, gs', G', a, n. unfold runs_on. split_and!; try done. intros _. apply orb_true_iff in Hstop as [?%Z.ltb_lt|?]; [by right|by left]. }
  apply orb_false_iff in Hstop as [Hle%Z.ltb_ge Hncan].
  destruct (store_at Conf mc _ _ _ (gc_Src gc) Hs) as (dc & gsrc & Hdc & Hgs & Hid & Hc & _); [lia|]. rewrite Hdc. cbn [mbind option_bind].
  rewrite (work_cons o _ _ dc Hdc Hle) in Hn. unfold chunk_work in Hn.
  destruct (Z.leb_spec (dc_size dc) 0) as [Hz|Hpos].
  - destruct (no_size _ _ _ Hc Hz) as [Hr0 Hl0]. eexists o, _, AtChunk, r, m, gs, G, a, n. split; [done|]. split; [|split; [done|split; [done|split; [|done]]]].
    + split; [|split].
      * eapply base_next_src; [done|done|done|]. intros _ g Hg'. by simplify_eq.
      * cbn [gc_src gc_Dst gc_Src]. lia.
      * intros g Hg'. cbn [gc_src gc_Dst gc_Src] in *. split; [lia|]. intros _. assert (g = gd) as -> by congruence.
        destruct (decide (gc_Dst gc = gc_Src gc)) as [Heq|]; [|apply Hless; lia]. rewrite Heq in Hg. congruence.
    + cbn [steps_left gc_src gc_Src gc_End]. lia.
  - destruct (ClearChunk_known Conf E K (bk_hints (op_bkt o)) G a (gc_Src gc)) as (h & G1 & a1 & -> & Hr1 & Hk1 & Hcl); [apply Hb|apply Hb| |].
    { pose proof (si_head _ _ _ _ _ Hs). rewrite (bi_len _ _ _ _ _ _ _ _ _ _ _ Hb) in *. lia. }
    cbn [mbind option_bind]. pose proof (base_hints _ _ _ _ _ _ _ _ _ _ _ Hbase Hr1 Hk1 Hcl) as Hbase1.
    assert (∃ l, reading gs gc 0 l) as [l Hl].
    { destruct (decide (gc_Dst gc = gc_Src gc)) as [Heq|Hne].
      - rewrite Heq in Hg. assert (gsrc = gd) as -> by congruence. exists (g_left gd), gd, gd. rewrite Heq. split; [done|]. split; [done|].
        rewrite decide_True by done. split; [done|]. rewrite left_offset_0. by destruct (Hsame Heq) as [-> ->].
      - exists (g_recs gsrc), gd, gsrc. split; [done|]. split; [done|]. rewrite decide_False by done.
        split; [apply Hless; lia|]. exists 0%nat. split; [lia|]. done. }
    destruct (reading_source Conf mc E K _ _ _ _ _ _ _ _ _ _ Hbase Hle Hl) as (dc1 & pre & Hdc1 & Hf & Hpre & Hend & Hmax & Hown & _).
    assert (dc1 = dc) as -> by congruence.
    assert (pre = []) as -> by (destruct pre; [done|]; unfold zlen in Hpre; cbn [length] in Hpre; lia).
    destruct (ds_disk _ !! gc_Src gc) as [f|] eqn:Hd.
    2:{ unfold file_at in Hf. rewrite Hd in Hf. cbn [default from_option id app] in Hf. apply (f_equal zlen) in Hf.
        rewrite (zlen_file_of mc) in Hf by (eapply Forall_impl; [exact Hown|]; intros x Hx; by apply (owned_size Conf mc E K env _ x Hx)).
        change (zlen []) with 0 in Hf. lia. }
    eexists _, gc, _, r, m, gs, G1, a1, n. split; [done|]. split; [|split; [done|split; [done|split; [|done]]]].
    + split; [done|]. split; [done|]. split; [done|]. split; [by exists l|]. intros _ kh it Hm _.
      destruct (tree_points Conf mc E K _ _ _ _ _ _ _ _ _ Hb Hm) as (x & Hx & _). by apply (holds_pos Conf mc E K _ _ _ _ _ _ _ _ _ Hb) in Hx as (_ & [? _] & _).
    + exists l. split; [done|]. cbn [with_gc_hints op_with op_bkt]. change (work (with_gc_hints o h)) with (work o).
      pose proof (owned_length _ _ Hown) as Hlen. assert (Z.of_nat (length l) <= dc_size dc / 256) by (apply Z.div_le_lower_bound; lia). lia.
Qed.

(** Every step of a run succeeds, keeps the contents and brings the end nearer. *)
Lemma gc_step_spec o gc pc todo A m gs G a now r n :
  gc_inv Conf mc E K o gc pc todo A m gs G a → steps_left o gc pc gs n → pc ≠ AtEnd →
  ∃ o' gc' pc' r' m' gs' G' a' n', gc_step Conf mc E o gc pc now r = Some (o', gc', pc', r')
    ∧ gc_inv Conf mc E K o' gc' pc' todo A m' gs' G' a' ∧ same_frame (bk_htree (op_bkt o)) (bk_htree (op_bkt o'))
    ∧ n = S n' ∧ steps_left o' gc' pc' gs' n' ∧ runs_on gc gc' pc'.
Proof.
  intros Hi Hn Hpc. destruct pc as [|pos off fs|]; [by eapply step_at_chunk|by eapply step_at_record|done].
Qed.

Lemma steps_left_work o gc pc todo A m gs G a :
  gc_inv Conf mc E K o gc pc todo A m gs G a → steps_left o gc pc gs (1 + work o (gc_Src gc) (gc_End gc)).
Proof.
  destruct pc as [|pos off fs|]; [intros _; cbn; lia| |done]. intros (Hbase & He & _ & (l & Hr) & _). exists l. split; [done|].
  destruct (reading_source Conf mc E K _ _ _ _ _ _ _ _ _ _ Hbase He Hr) as (dc & pre & Hdc & _ & Hpre & Hend & _ & Hown & _).
  pose proof (owned_length _ _ Hown). pose proof (zlen_nonneg pre). rewrite (work_cons o _ _ dc Hdc He). unfold chunk_work.
  assert (Z.of_nat (length l) <= dc_size dc / 256) by (apply Z.div_le_lower_bound; lia). lia.
Qed.

Lemma gc_run_spec n : ∀ o gc pc todo A m gs G a now r,
  gc_inv Conf mc E K o gc pc todo A m gs G a → steps_left o gc pc gs n →
  ∃ o' gc' r' m' gs' G' a', gc_run Conf mc E n o gc pc now r = Some (o', gc', r')
    ∧ gc_inv Conf mc E K o' gc' AtEnd todo A m' gs' G' a' ∧ same_frame (bk_htree (op_bkt o)) (bk_htree (op_bkt o'))
    ∧ gc_Err gc' = gc_Err gc ∧ gc_End gc' = gc_End gc ∧ gc_CancelFlag gc' = gc_CancelFlag gc
    ∧ (pc ≠ AtEnd → gc_CancelFlag gc' = true ∨ gc_End gc' < gc_Src gc').
Proof.
  induction n as [|n IH]; intros o gc pc todo A m gs G a now r Hi Hn.
  - destruct pc as [|pos off fs|]; [cbn in Hn; lia|by destruct Hn as (? & _ & ?); lia|]. by exists o, gc, r, m, gs, G, a.
  - assert (pc = AtEnd ∨ pc ≠ AtEnd) as [->|Hpc] by (destruct pc; [by right|by right|by left]); [by exists o, gc, r, m, gs, G, a|].
    destruct (gc_step_spec o gc pc todo A m gs G a now r (S n) Hi Hn Hpc) as (o1 & gc1 & pc1 & r1 & m1 & gs1 & G1 & a1 & n1 & Hst & Hi1 & Hf1 & [= <-] & Hn1 & E1 & E2 & E3 & Hend).
    destruct (IH o1 gc1 pc1 todo A m1 gs1 G1 a1 now r1 Hi1 Hn1) as (o2 & gc2 & r2 & m2 & gs2 & G2 & a2 & Hrun & Hi2 & Hf2 & F1 & F2 & F3 & Hend2).
    exists o2, gc2, r2, m2, gs2, G2, a2. split; [|split; [done|split; [by eapply same_frame_trans|split_and!; [congruence..|intros _]]]].
    2:{ assert (pc1 = AtEnd ∨ pc1 ≠ AtEnd) as [->|Hpc1] by (destruct pc1; [by right|by right|by left]); [|by apply Hend2].
        replace gc2 with gc1 by (destruct n; by injection Hrun as _ ->). by apply Hend. }
    destruct pc; [| |done]; cbn [gc_run]; rewrite Hst; done.
Qed.

(** ** The range *)

Lemma first_with_data_ge cs n : ∀ start res, first_with_data cs start n = Some res → start <= res.
Proof.
  induction n as [|n IH]; intros start res; cbn [first_with_data]; [intros [= <-]; lia|].
  destruct (zget cs start) as [dc|]; [|done]. cbn [mbind option_bind].
  destruct (0 <? dc_size dc); [intros [= <-]; lia|]. intros Hr%IH. lia.
Qed.

Lemma last_with_data_le cs n : ∀ end_ res, last_with_data cs end_ n = Some res → res <= end_.
Proof.
  induction n as [|n IH]; intros end_ res; cbn [last_with_data]; [intros [= <-]; lia|].
  destruct (zget cs end_) as [dc|]; [|done]. cbn [mbind option_bind].
  destruct (0 <? dc_size dc); [intros [= <-]; lia|]. intros Hr%IH. lia.
Qed.

Lemma check_end_le ds start days now n : ∀ next res,
  check_end_loop ds start next days now n = Some (inl res) → res < next.
Proof.
  induction n as [|n IH]; intros next res; cbn [check_end_loop]; [done|].
  destruct (zget _ next) as [dc|]; [|done]. cbn [mbind option_bind].
  destruct (getDiskFileSize dc <=? 0); [intros ?%IH; lia|]. destruct (getFirstRecTs _ _) as [ts|e]; [|done].
  destruct (_ <? now - ts); [|intros ?%IH; lia].
  destruct (last_with_data _ _ _) as [x|] eqn:Hl; [|done]. intros [= <-]. apply last_with_data_le in Hl. lia.
Qed.

(** A range that passes the check lies below the head. *)
Lemma gcCheckRange_spec o s e days now start end_ :
  0 <= op_NextGCChunk o → gcCheckRange Conf o s e days now = Some (inl (start, end_)) →
  0 <= start <= end_ ∧ end_ < ds_newHead (bk_datas (op_bkt o)).
Proof.
  intros Hnext. unfold gcCheckRange, gcCheckStart, gcCheckEnd.
  destruct (negb (s <? 0) && _); [done|]. destruct (first_with_data _ _ _) as [st|] eqn:Hst; [|done].
  apply first_with_data_ge in Hst. cbn [fmap option_fmap option_map mbind option_bind].
  destruct (check_end_loop _ _ _ _ _ _) as [[en|]|] eqn:Hen; [|done|done]. cbn [mbind option_bind].
  destruct (Z.ltb_spec en st) as [|Hle]; [done|]. intros [= -> ->]. apply check_end_le in Hen.
  destruct (Z.ltb_spec s 0); (split; [split; [lia|done]|]); destruct (_ || _) eqn:Hor; try lia;
    apply orb_false_iff in Hor as [?%Z.ltb_ge ?%Z.leb_gt]; lia.
Qed.

(** ** The start of a run *)

(** The destination is the first chunk of the range or an older one with room,
    with nothing between them. *)
Lemma find_dst_spec cs start n : ∀ i d, 0 <= BodyMax mc → 0 <= DataFileMax Conf → i < start → Z.of_nat n = i + 1 →
  (∀ j dc, i < j < start → zget cs j = Some dc → dc_size dc <= 0) →
  find_dst Conf mc cs start i n = Some d →
  d = start ∨ (0 <= d < start ∧ (∀ j dc, d < j < start → zget cs j = Some dc → dc_size dc <= 0)
               ∧ ∀ dc, zget cs d = Some dc → dc_size dc <= DataFileMax Conf).
Proof.
  induction n as [|n IH]; intros i d Hbm Hdm Hi Hn Hemp; cbn [find_dst]; [intros [= <-]; by left|].
  destruct (zget cs i) as [dc|] eqn:Hdc; [|done]. cbn [mbind option_bind].
  destruct (Z.ltb_spec 0 (dc_size dc)) as [Hpos|Hz].
  - destruct (Z.ltb_spec (dc_size dc) (DataFileMax Conf - BodyMax mc)) as [Hroom|Hfull].
    + intros [= <-]. right. split; [lia|]. split; [done|]. intros dc' Hdc'. assert (dc' = dc) as -> by congruence. lia.
    + destruct (Z.ltb_spec i (start - 1)); intros [= <-]; [right|by left]. split; [lia|]. split.
      * intros j dc' Hj. apply Hemp. lia.
      * intros dc' Hdc'. pose proof (Hemp (i + 1) dc' ltac:(lia) Hdc'). lia.
  - apply IH; try lia. intros j dc' Hj Hdc'. destruct (decide (j = i)) as [->|]; [congruence|]. eapply Hemp; [|done]. lia.
Qed.

Lemma find_dst_total cs start n : ∀ i, i < zlen cs → Z.of_nat n = i + 1 → is_Some (find_dst Conf mc cs start i n).
Proof.
  induction n as [|n IH]; intros i Hi Hn; cbn [find_dst]; [done|].
  destruct (zget_lt cs i) as [dc ->]; [lia|]. cbn [mbind option_bind]. destruct (0 <? dc_size dc); [done|]. apply IH; lia.
Qed.

(** The chunks of a range before a run: on disk, and no larger than the limit. *)
Definition gc_ready (o : OpenBucket) (end_ : Z) : Prop :=
  ∀ i dc, Z.of_nat i <= end_ → ds_chunks (bk_datas (op_bkt o)) !! i = Some dc → dc_wbuf dc = [] ∧ dc_size dc <= DataFileMax Conf.

Lemma BeforeBucket_spec o todo A m gs G a end_ now :
  bkt_inv Conf mc E K (op_bkt o) todo A m gs G a →
  ∃ o', BeforeBucket Conf o end_ false now = Some o' ∧ bkt_inv Conf mc E K (op_bkt o') todo A m gs G a
    ∧ bk_datas (op_bkt o') = bk_datas (op_bkt o) ∧ bk_htree (op_bkt o') = bk_htree (op_bkt o).
Proof.
  intros Hb. eexists. split; [done|]. split; [|done].
  apply (inv_hints Conf mc E K (op_bkt o) todo A m gs G a); [done| |apply Hb|done].
  destruct (bi_hints _ _ _ _ _ _ _ _ _ _ _ Hb) as [H1 H2 H3 H4 H5 H6]. by split.
Qed.

Lemma gc_start_spec o todo A m gs G a start end_ now :
  0 <= BodyMax mc → bkt_inv Conf mc E K (op_bkt o) todo A m gs G a → quiet o gs →
  0 <= start <= end_ → end_ < ds_newHead (bk_datas (op_bkt o)) → gc_ready o end_ →
  ∃ o' gc gs', gc_start Conf mc o start end_ false now = Some (o', gc) ∧ gc_inv Conf mc E K o' gc AtChunk todo A m gs' G a
    ∧ same_frame (bk_htree (op_bkt o)) (bk_htree (op_bkt o')).
Proof.
  intros Hbm Hb [Q1 Q2] Hr Hhead Hready. pose proof (eo_max _ _ _ _ env) as Hdm. unfold gc_start.
  destruct (BeforeBucket_spec o todo A m gs G a end_ now Hb) as (o1 & -> & Hb1 & Hd1 & Ht1). cbn [mbind option_bind].
  pose proof (bi_store _ _ _ _ _ _ _ _ _ _ _ Hb1) as Hs1. rewrite Hd1 in Hs1 |- *. set (ds := bk_datas (op_bkt o)) in *.
  pose proof (si_len _ _ _ _ _ Hs1) as Hlen. pose proof (si_head _ _ _ _ _ Hs1) as Hhd.
  destruct (find_dst_total (ds_chunks ds) start (Z.to_nat start) (start - 1)) as [d Hd]; [unfold zlen in *; lia|lia|].
  rewrite Hd. cbn [mbind option_bind]. apply find_dst_spec in Hd; [|done|done|lia|lia|lia].
  assert (0 <= d <= start) as Hdr by lia.
  destruct (store_at Conf mc _ _ _ d Hs1) as (dc & g & Hdc & Hg & Hid & Hc & _); [lia|].
  assert (∀ i g, i <= end_ → zget gs i = Some g → flushed g) as Hfl.
  { intros i gi Hi [Hi0 Hgi]%zget_Some. pose proof (lookup_lt_Some _ _ _ Hgi). destruct (lookup_lt_is_Some_2 (ds_chunks ds) (Z.to_nat i)) as [di Hdi]; [lia|].
    destruct (Hready (Z.to_nat i) di) as [Hw _]; [lia|done|]. destruct (si_chunks _ _ _ _ _ Hs1 _ _ _ Hdi Hgi) as (_ & Hci & _).
    pose proof (length_wbuf _ _ _ _ Hci) as Hl. rewrite Hw in Hl. pose proof (ci_order _ _ _ _ Hci). cbn [length] in Hl. unfold flushed. lia. }
  pose proof (proj1 (zget_Some _ _ _) Hg) as [_ Hg']. pose proof (proj1 (zget_Some _ _ _) Hdc) as [_ Hdc'].
  destruct (begin_writing_spec Conf mc E K o1 todo A m gs G a d start 0 dc g) as (o2 & dc2 & Hbeg & Hso & Hb2 & Hch & Hw & Hhd2 & Hsz & Hpl);
    [done|rewrite Hd1; fold ds; lia|by rewrite Hd1|done|apply (Hfl d); [lia|done]|by apply (Q1 _ _ Hg')|by apply (Q2 _ _ Hdc')| |].
  { intros _. split; [lia|]. intros kh it Hm _. change (offset_of g 0) with 0. destruct (tree_points Conf mc E K _ _ _ _ _ _ _ _ _ Hb1 Hm) as (x & Hx & _).
    by apply (holds_pos Conf mc E K _ _ _ _ _ _ _ _ _ Hb1) in Hx as (_ & [? _] & _). }
  rewrite Hbeg. cbn [mbind option_bind]. rewrite Hd1 in Hch. fold ds in Hch. destruct (Hso d ltac:(lia)) as (Hf2 & Hh2 & _). rewrite Ht1 in Hf2. rewrite Hd1 in Hh2.
  set (g2 := if decide (d = start) then rewind 0 g else g) in *.
  eexists o2, _, _. split; [done|]. split; [|done]. split; [|split; [done|]].
  - split; cbn [gc_Dst gc_Src gc_End]; rewrite ?Hch, ?Hh2; fold ds; try done.
    + lia.
    + intros i x Hi [(<- & <- & _)|[_ Hx]]%list_lookup_insert_Some; [unfold g2; destruct (decide _); [done|]; apply (Hfl d); [lia|done]|].
      apply (Hfl (Z.of_nat i)); [done|]. by rewrite zget_nat.
    + intros i x Hi [(<- & _)|[_ Hx]]%list_lookup_insert_Some; [lia|]. by apply (Q1 i).
    + intros i x Hi [(<- & _)|[_ Hx]]%list_lookup_insert_Some; [lia|]. by apply (Q2 i).
    + intros i x Hi [(<- & <- & _)|[_ Hx]]%list_lookup_insert_Some; [rewrite Hsz; by apply (Hready (Z.to_nat d)); [lia|]|]. by apply (Hready i); [lia|].
    + intros i x Hi [(<- & _)|[_ Hx]]%list_lookup_insert_Some; [lia|]. destruct Hd as [->|(_ & Hemp & _)]; [lia|].
      pose proof (lookup_lt_Some _ _ _ Hx). destruct (lookup_lt_is_Some_2 (ds_chunks ds) i) as [di Hdi]; [lia|].
      destruct (si_chunks _ _ _ _ _ Hs1 _ _ _ Hdi Hx) as (_ & Hci & _). apply (no_size _ _ _ Hci).
      apply (Hemp (Z.of_nat i)); [lia|]. by rewrite zget_nat.
    + intros d0 g0 Hd0 Hg0. rewrite (insert_lookup _ _ _ _ _ Hdc Hd0), (insert_lookup _ _ _ _ _ Hg Hg0). split; [done|]. split; [|done].
      rewrite Hhd2. destruct (decide (d = start)) as [|Hne]; [done|]. destruct Hd as [?|(_ & _ & Hfit)]; [done|]. by apply Hfit.
  - cbn [gc_Dst gc_Src]. intros gd Hgd. rewrite (insert_lookup _ _ _ _ _ Hg Hgd). unfold g2. split.
    + intros ->. rewrite decide_True by done. done.
    + intros Hlt. rewrite decide_False by lia. by apply (Q1 _ _ Hg').
Qed.

End Run.
