(* ===== verification/GCProps.v ===== *)
(** * What garbage collection guarantees

    A bucket under requests, flushes and garbage collection runs, in any order,
    still is the map of its requests; a run always ends. *)

From stdpp Require Import gmap.
From S2P Require Import Prelude Hashing Strconv Config Cmem Key Item Fixtures Leaf HTree HTreeSpec HTreeMerkle HTreeProps.
From S2P Require Import DataFile Data DataSpec DataLog HintFile Hint HintSpec HintProps HintMerge Bucket BucketSpec BucketProps.
From S2P Require Import BucketOpen GC GCSpec GCInv GCStep GCRun.

(** ** Histories *)

(** A bucket, the flush and the run in progress, the counters. The run is over at
    [AtEnd]. *)
Record gc_world := mkWorld {
  w_open : OpenBucket; w_todo : option (Z * nat * Z); w_gc : GCState; w_pc : gc_pc; w_rl : BeansdbRL
}.

Inductive gc_event :=
  | GSet (ki : KeyInfo) (v : Payload) (now : Z)
  | GIncr (ki : KeyInfo) (value now : Z)
  | GGet (ki : KeyInfo) (memOnly : bool)
  | GFlushBegin (chunk : Z) (force : bool) (now : Z)
  | GFlushEnd
  | GStart (startChunkID endChunkID noGCDays now : Z)
  | GStep (now : Z)
  | GCancel.

Section World.
Context (Conf : HStoreConfig) (mc : MCConfig) (E : Ext).

Definition w_bkt (w : gc_world) : Bucket := op_bkt (w_open w).
Definition w_request (w : gc_world) (b : Bucket) (todo : option (Z * nat * Z)) (r : BeansdbRL) : gc_world :=
  mkWorld (op_with (w_open w) b) todo (w_gc w) (w_pc w) r.

(** One event. A range that is refused starts nothing, and a run that is over
    takes no more steps. *)
Definition gc_apply (w : gc_world) (ev : gc_event) : option gc_world :=
  match ev with
  | GSet ki v now =>
      '(_, b, _, r) ← checkAndSet Conf mc E (w_bkt w) ki v now (w_rl w); Some (w_request w b (w_todo w) r)
  | GIncr ki value now =>
      '(_, b, _, r) ← incr Conf mc E (w_bkt w) ki value now (w_rl w); Some (w_request w b (w_todo w) r)
  | GGet ki memOnly =>
      '(_, b, r) ← bkt_get Conf mc E (w_bkt w) ki memOnly (w_rl w); Some (w_request w b (w_todo w) r)
  | GFlushBegin chunk force now =>
      match w_todo w with
      | Some _ => Some w
      | None =>
          '(ds, todo, r) ← flush_begin Conf (bk_datas (w_bkt w)) chunk force now (w_rl w);
          Some (w_request w (with_datas (w_bkt w) ds) todo r)
      end
  | GFlushEnd =>
      '(ds, r) ← flush_end (bk_datas (w_bkt w)) (w_todo w) (w_rl w);
      Some (w_request w (with_datas (w_bkt w) ds) None r)
  | GStart s e days now =>
      match w_pc w, gcCheckRange Conf (w_open w) s e days now with
      | AtEnd, Some (inl (start, end_)) =>
          '(o, gc) ← gc_start Conf mc (w_open w) start end_ false now;
          Some (mkWorld o (w_todo w) gc AtChunk (w_rl w))
      | _, _ => Some w
      end
  | GStep now =>
      '(o, gc, pc, r) ← gc_step Conf mc E (w_open w) (w_gc w) (w_pc w) now (w_rl w);
      Some (mkWorld o (w_todo w) gc pc r)
  | GCancel => Some (mkWorld (w_open w) (w_todo w) (gc_cancel (w_gc w)) (w_pc w) (w_rl w))
  end.

(** What an event does to the contents: garbage collection does nothing. *)
Definition gc_abs (A : gmap bytes (Record_ * Z)) (ev : gc_event) : gmap bytes (Record_ * Z) :=
  match ev with
  | GSet ki v _ => put A (ki_Key ki) (snd (abs_set Conf (A !! ki_Key ki) (ki_Key ki) v))
  | GIncr ki value now => put A (ki_Key ki) (snd (abs_incr (A !! ki_Key ki) (ki_Key ki) value now))
  | _ => A
  end.

Context (K : bytes → Prop).

(** When an event may happen: requests as for a bucket without runs; a range
    whose chunks have been flushed and respect the size limit; a cancel once the
    run has left its first chunk. *)
Definition gc_event_ok (w : gc_world) (ev : gc_event) : Prop :=
  match ev with
  | GSet ki v _ => set_ok Conf mc E K (w_bkt w) ki v ∧ has_room (w_bkt w)
  | GIncr ki value now => incr_ok Conf mc E K (w_bkt w) ki value now ∧ has_room (w_bkt w)
  | GGet ki _ => key_ok Conf E K (bk_htree (w_bkt w)) ki
  | GFlushBegin chunk _ _ => chunk < MAX_NUM_CHUNK
  | GFlushEnd | GStep _ => True
  | GStart s e days now => 0 <= op_NextGCChunk (w_open w)
      ∧ ∀ start end_, gcCheckRange Conf (w_open w) s e days now = Some (inl (start, end_)) → gc_ready Conf (w_open w) end_
  | GCancel => w_pc w = AtChunk → gc_Dst (w_gc w) < gc_Src (w_gc w)
  end.

Inductive gc_reach (w0 : gc_world) : gc_world → gmap bytes (Record_ * Z) → Prop :=
  | gr_init : gc_reach w0 w0 ∅
  | gr_event w A ev w' : gc_reach w0 w A → gc_event_ok w ev → gc_apply w ev = Some w' → gc_reach w0 w' (gc_abs A ev).

(** A new bucket, with any record of an earlier run. *)
Definition gc_world0 (t : HTree) (mergeChan : bool) (gc : GCState) (r : BeansdbRL) : gc_world :=
  mkWorld (mkOpen (empty_bucket t mergeChan) (mkHintID 0 0) 0 ∅ None) None gc AtEnd r.

End World.

Section Props.
Context (Conf : HStoreConfig) (mc : MCConfig) (E : Ext) (K : bytes → Prop).
Context (t : HTree) (d bid h : Z) (mergeChan : bool) (gc0 : GCState) (r0 : BeansdbRL).
Hypothesis (env : env_ok Conf mc E K).
Hypothesis (new_tree : newHTree d bid h = Some t).
Hypothesis (tree_conf_ok : conf_for Conf d h).
Hypothesis (depth_ok : 0 <= TreeDepth Conf <= 16).
Hypothesis (body_max : 0 <= BodyMax mc).

Definition world_inv (w : gc_world) (A : gmap bytes (Record_ * Z)) : Prop :=
  (∃ m gs G a, gc_inv Conf mc E K (w_open w) (w_gc w) (w_pc w) (w_todo w) A m gs G a)
  ∧ same_frame t (bk_htree (w_bkt w)).

Lemma inv_bkt o gc pc todo A m gs G a : gc_inv Conf mc E K o gc pc todo A m gs G a → bkt_inv Conf mc E K (op_bkt o) todo A m gs G a.
Proof. destruct pc; [intros (Hb & _)|intros (Hb & _)|by intros []]; apply Hb. Qed.

(** A request, whatever a run is doing. *)
Lemma world_request w A b todo r A' :
  world_inv w A →
  bkt_step Conf mc E K (mkBktState (w_bkt w) (w_todo w) (w_rl w)) A (mkBktState b todo r) A' → world_inv (w_request w b todo r) A'.
Proof.
  intros [(m & gs & G & a & Hi) Hf] Hst.
  destruct (bkt_step_inv Conf mc E K (mkBktState (w_bkt w) (w_todo w) (w_rl w)) _ _ _ _ _ _ _ env (inv_bkt _ _ _ _ _ _ _ _ _ Hi) Hst) as (m' & gs' & G' & a' & Hb' & Hfr).
  split; [|eapply same_frame_trans; [exact Hf|apply (rf_tree _ _ _ _ _ _ Hfr)]].
  exists m', gs', G', a'. by eapply inv_request.
Qed.

(** Every event succeeds and keeps the invariant. *)
Lemma world_step w A ev :
  world_inv w A → gc_event_ok Conf mc E K w ev → ∃ w', gc_apply Conf mc E w ev = Some w' ∧ world_inv w' (gc_abs Conf A ev).
Proof.
  intros Hw Hok. pose proof Hw as [(m & gs & G & a & Hi) Hf]. pose proof (inv_bkt _ _ _ _ _ _ _ _ _ Hi) as Hb.
  destruct ev as [ki v now|ki value now|ki memOnly|chunk force now| |s e days now|now|]; cbn [gc_apply gc_abs gc_event_ok] in *.
  - destruct Hok as [(Hk & Ha & Hv) Hroom].
    destruct (checkAndSet_spec Conf mc E K _ _ _ _ _ _ _ ki v now (w_rl w) env Hb Hk Ha Hv Hroom) as (b' & sp & r' & _ & _ & _ & _ & Hst & _).
    fold (w_bkt w) in Hst. rewrite Hst. cbn [mbind option_bind]. eexists. split; [done|]. eapply world_request; [done|]. by eapply bs_set.
  - destruct Hok as [(Hk & Hval & Ha) Hroom].
    destruct (incr_spec Conf mc E K _ _ _ _ _ _ _ ki value now (w_rl w) env Hb Hk Hval Ha Hroom) as (b' & sp & r' & _ & _ & _ & _ & Hst & _).
    fold (w_bkt w) in Hst. rewrite Hst. cbn [mbind option_bind]. eexists. split; [done|]. eapply world_request; [done|]. by eapply bs_incr.
  - assert (∃ res b r, bkt_get Conf mc E (w_bkt w) ki memOnly (w_rl w) = Some (res, b, r)) as (res & b' & r' & Hst).
    { destruct memOnly.
      - destruct (bkt_get_mem Conf mc E K _ _ _ _ _ _ _ ki (w_rl w) env Hb Hok) as (pos & Hst & _). by eexists _, _, _.
      - destruct (bkt_get_rec Conf mc E K _ _ _ _ _ _ _ ki (w_rl w) env Hb Hok) as (p & pos & r' & Hst & _). by eexists _, _, _. }
    rewrite Hst. destruct res as [[p pos] err]. cbn [mbind option_bind]. eexists. split; [done|]. eapply world_request; [done|]. by eapply bs_get.
  - destruct (w_todo w) as [job|] eqn:Htd; [by exists w|].
    destruct (flush_begin_spec Conf mc (bk_datas (w_bkt w)) gs chunk force now (w_rl w)) as (ds' & td' & r' & gs' & Hst & _);
      [apply Hb|by rewrite (bi_len _ _ _ _ _ _ _ _ _ _ _ Hb)|].
    rewrite Hst. cbn [mbind option_bind]. eexists. split; [done|]. eapply world_request; [done|]. rewrite Htd. by eapply bs_flush_begin.
  - destruct (flush_end_spec Conf mc (bk_datas (w_bkt w)) gs (w_todo w) (w_rl w)) as (ds' & r' & gs' & Hst & _); [apply Hb|].
    rewrite Hst. cbn [mbind option_bind]. eexists. split; [done|]. eapply world_request; [done|]. by eapply bs_flush_end.
  - destruct (w_pc w) as [| |] eqn:Hpc; [by exists w..|]. destruct (gcCheckRange _ _ _ _ _ _) as [[[start end_]|]|] eqn:Hrange; [|by exists w..].
    destruct Hok as [Hnext Hready]. destruct (gcCheckRange_spec Conf _ _ _ _ _ _ _ Hnext Hrange) as [Hr1 Hr2]. destruct Hi as [_ Hq].
    destruct (gc_start_spec Conf mc E K env (w_open w) (w_todo w) A m gs G a start end_ now body_max Hb Hq Hr1 Hr2 (Hready _ _ eq_refl))
      as (o & gc & gs' & -> & Hi' & Hf'). cbn [mbind option_bind]. eexists. split; [done|]. split; [by exists m, gs', G, a|by eapply same_frame_trans].
  - destruct (w_pc w) as [|pos off fs|] eqn:Hpc; [..|eexists; split; [done|]; split; [by exists m, gs, G, a|done]]; rewrite <- Hpc in *;
      (destruct (gc_step_spec Conf mc E K env depth_ok (w_open w) (w_gc w) (w_pc w) (w_todo w) A m gs G a now (w_rl w) _ Hi
        (steps_left_work Conf mc E K env _ _ _ _ _ _ _ _ _ Hi)) as (o' & gc' & pc' & r' & m' & gs' & G' & a' & _ & -> & Hi' & Hf' & _); [by rewrite Hpc|];
       cbn [mbind option_bind]; eexists; split; [done|]; split; [by exists m', gs', G', a'|by eapply same_frame_trans]).
  - eexists. split; [done|]. split; [|done]. exists m, gs, G, a. cbn [w_open w_gc w_pc w_todo].
    destruct (w_pc w) as [|pos off fs|]; [destruct Hi as (Hbase & _ & Hgd)|destruct Hi as (Hbase & Hi)|done].
    + split; [by destruct Hbase; split|]. split; [intros _; by apply Hok|done].
    + split; [by destruct Hbase; split|done].
Qed.

Lemma gc_reach_inv w A : gc_reach Conf mc E K (gc_world0 t mergeChan gc0 r0) w A → world_inv w A.
Proof.
  induction 1 as [|w A ev w' Hr IH Hok Hst].
  - destruct (empty_bucket_inv Conf mc E K t d bid h mergeChan env new_tree tree_conf_ok) as (gs & G & a & Hb). split; [|done].
    exists ∅, gs, G, a. split; [done|]. split.
    + intros i g Hg. apply (si_plain _ _ _ _ _ (bi_store _ _ _ _ _ _ _ _ _ _ _ Hb) i g); [cbn; lia|done].
    + intros i dc Hdc. cbn in Hdc. rewrite list_lookup_fmap in Hdc. destruct (seq _ _ !! i); [|done]. by injection Hdc as <-.
  - destruct (world_step w A ev IH Hok) as (w1 & Hst1 & Hi1). congruence.
Qed.

Abbreviation start := (gc_world0 t mergeChan gc0 r0).

(** C9. Garbage collection does not change what a bucket holds, as long as each record
    is handled without a request in its middle. In every state reached from an empty bucket
    by sets, increments and reads, the two halves of flushes, and runs taken one record at
    a time with such requests between two records (appending to older chunks, rewriting in
    place, moving on to the next destination, removing what has been read), for keys with
    distinct hashes: [get] returns the value, timestamp, flag and version the requests so
    far amount to, and any further event that [gc_event_ok] admits is carried out without a
    panic. A record's look into the tree, its copy and the update of the tree are one step
    here; the code does not lock them together, and a set that comes in between is lost in
    it. [gc_event_ok] admits runs without a merge, on ranges that pass [gcCheckRange] and
    whose chunks are flushed and within the size limit, and a cancel only after the run has
    left the chunk it rewrites in place ([cancel_at_start_loses_chunk] is what happens
    otherwise). *)
Theorem gc_keeps_contents w A :
  gc_reach Conf mc E K start w A →
  (∀ ki r, key_ok Conf E K (bk_htree (w_bkt w)) ki →
     ∃ p pos r', bkt_get Conf mc E (w_bkt w) ki false r = Some ((p, pos, None), w_bkt w, r')
       ∧ match A !! ki_Key ki with
         | Some (rec, _) => ∃ q, p = Some q ∧ same_record rec (mkRecord (ki_Key ki) q)
         | None => p = None
         end)
  ∧ ∀ ev, gc_event_ok Conf mc E K w ev → ∃ w', gc_apply Conf mc E w ev = Some w'.
Proof.
  intros Hr. pose proof (gc_reach_inv w A Hr) as Hw. split.
  - intros ki r Hk. destruct Hw as [(m & gs & G & a & Hi) _]. eapply bkt_get_rec; [done|by eapply inv_bkt|done].
  - intros ev Hok. destruct (world_step w A ev Hw Hok) as (w' & Hst & _). by exists w'.
Qed.

(** While a run is going on it has no error. *)
Lemma gc_reach_err w A : gc_reach Conf mc E K start w A → w_pc w ≠ AtEnd → gc_Err (w_gc w) = None.
Proof.
  induction 1 as [|w A ev w' Hr IH Hok Hst]; [done|]. destruct (gc_reach_inv w A Hr) as [(m & gs & G & a & Hi) _].
  destruct ev as [ki v now|ki value now|ki memOnly|chunk force now| |s e days now|now|]; cbn [gc_apply] in Hst.
  - destruct (checkAndSet _ _ _ _ _ _ _ _) as [[[[] ?] ?]|]; [|done]. by injection Hst as <-.
  - destruct (incr _ _ _ _ _ _ _ _) as [[[[] ?] ?]|]; [|done]. by injection Hst as <-.
  - destruct (bkt_get _ _ _ _ _ _ _) as [[[[]]]|]; [|done]. by injection Hst as <-.
  - destruct (w_todo w); [by injection Hst as <-|]. destruct (flush_begin _ _ _ _ _ _) as [[[]]|]; [|done]. by injection Hst as <-.
  - destruct (flush_end _ _ _) as [[]|]; [|done]. by injection Hst as <-.
  - destruct (w_pc w) eqn:Hpc; [injection Hst as <-; by rewrite Hpc in *..|].
    destruct (gcCheckRange _ _ _ _ _ _) as [[[]|]|]; [|by injection Hst as <-..]. unfold gc_start in Hst.
    destruct (BeforeBucket _ _ _ _ _); [|done]. cbn [mbind option_bind] in Hst. destruct (find_dst _ _ _ _); [|done]. cbn [mbind option_bind] in Hst.
    destruct (begin_writing _ _ _); [|done]. by injection Hst as <-.
  - assert (w_pc w = AtEnd ∨ w_pc w ≠ AtEnd) as [Hpc|Hpc] by (destruct (w_pc w); [by right|by right|by left]).
    { rewrite Hpc in Hst. by injection Hst as <-. }
    destruct (gc_step_spec Conf mc E K env depth_ok (w_open w) (w_gc w) (w_pc w) (w_todo w) A m gs G a now (w_rl w) _ Hi
      (steps_left_work Conf mc E K env _ _ _ _ _ _ _ _ _ Hi) Hpc) as (o' & gc' & pc' & r' & m' & gs' & G' & a' & _ & Hst' & _ & _ & _ & _ & He & _).
    rewrite Hst' in Hst. injection Hst as <-. intros _. cbn [w_gc]. rewrite He. by apply IH.
  - by injection Hst as <-.
Qed.

(** C10. A run ends. From every reachable state the rest of the run in progress takes at
    most two steps for each chunk that is left in its range and one for each 256 bytes of
    their files, ends without an error, with the last chunk of its range behind it unless
    it was cancelled, and leaves no chunk in the middle of a rewrite; its result still
    holds the contents. *)
Theorem gc_run_ends w A now :
  gc_reach Conf mc E K start w A →
  ∃ o gc r, gc_run Conf mc E (1 + work (w_open w) (gc_Src (w_gc w)) (gc_End (w_gc w))) (w_open w) (w_gc w) (w_pc w) now (w_rl w)
      = Some (o, gc, r)
    ∧ (w_pc w ≠ AtEnd → gc_Err gc = None ∧ (gc_CancelFlag (w_gc w) = false → gc_End (w_gc w) < gc_Src gc))
    ∧ (∀ i dc, ds_chunks (bk_datas (op_bkt o)) !! i = Some dc → dc_rewriting dc = false)
    ∧ ∀ ki r1, key_ok Conf E K (bk_htree (op_bkt o)) ki →
        ∃ p pos r2, bkt_get Conf mc E (op_bkt o) ki false r1 = Some ((p, pos, None), op_bkt o, r2)
          ∧ match A !! ki_Key ki with
            | Some (rec, _) => ∃ q, p = Some q ∧ same_record rec (mkRecord (ki_Key ki) q)
            | None => p = None
            end.
Proof.
  intros Hr. destruct (gc_reach_inv w A Hr) as [(m & gs & G & a & Hi) _].
  destruct (gc_run_spec Conf mc E K env depth_ok _ _ _ _ _ A m gs G a now (w_rl w) Hi (steps_left_work Conf mc E K env _ _ _ _ _ _ _ _ _ Hi))
    as (o & gc & r & m' & gs' & G' & a' & Hrun & [Hb [_ Hstill]] & _ & E1 & E2 & E3 & Hend).
  exists o, gc, r. split; [done|]. split; [|split; [done|]].
  - intros Hpc. rewrite E1. split; [by apply (gc_reach_err w A)|]. intros Hc. rewrite E3, E2, Hc in Hend. by destruct (Hend Hpc).
  - intros ki r1 Hk. by eapply bkt_get_rec.
Qed.

(** C38. A run that is cancelled before its first chunk and rewrites that chunk in
    place destroys it: [CancelGC] between the opening of the destination and the
    first look at the flag makes the run stop at once, and stopping cuts the
    chunk to the records copied so far, of which there are none. The file is
    removed while the tree still points into it. *)
Theorem cancel_at_start_loses_chunk w A now dc :
  let src := gc_Src (w_gc w) in
  gc_reach Conf mc E K start w A → w_pc w = AtChunk → gc_Dst (w_gc w) = src →
  zget (ds_chunks (bk_datas (w_bkt w))) src = Some dc → 0 < dc_size dc →
  ∃ w' dc', (w1 ← gc_apply Conf mc E w GCancel; gc_apply Conf mc E w1 (GStep now)) = Some w' ∧ w_pc w' = AtEnd
    ∧ bk_htree (w_bkt w') = bk_htree (w_bkt w)
    ∧ zget (ds_chunks (bk_datas (w_bkt w'))) src = Some dc' ∧ dc_size dc' = 0 ∧ ds_disk (bk_datas (w_bkt w')) !! src = None.
Proof.
  intros src Hr Hpc Heq Hdc Hpos. destruct (gc_reach_inv w A Hr) as [(m & gs & G & a & Hi) _]. rewrite Hpc in Hi.
  destruct Hi as (Hbase & _ & Hgd). pose proof (gb_inv _ _ _ _ _ _ _ _ _ _ _ _ Hbase) as Hb.
  destruct (gb_range _ _ _ _ _ _ _ _ _ _ _ _ Hbase) as (R1 & R2 & R3 & R4). pose proof (bi_store _ _ _ _ _ _ _ _ _ _ _ Hb) as Hs.
  destruct (store_at Conf mc _ _ _ (gc_Dst (w_gc w)) Hs) as (dc0 & gd & Hdc0 & Hg & Hid & Hc & _); [lia|].
  destruct (Hgd gd Hg) as [Hfresh _]. destruct (Hfresh Heq) as [Hrecs Hgap].
  destruct (gb_dst _ _ _ _ _ _ _ _ _ _ _ _ Hbase _ _ Hdc0 Hg) as (_ & _ & Hrw). rewrite Heq in *.
  assert (dc0 = dc) as -> by (unfold w_bkt in Hdc; congruence). fold src in Hdc0.
  assert (dc_writingHead dc = 0) as Hhead by (by rewrite (ci_head _ _ _ _ Hc), Hrecs).
  assert (dc_rewriting dc = true) as Hrw1.
  { destruct (dc_rewriting dc) eqn:Hd; [done|]. destruct (Hrw eq_refl) as [_ Hl].
    rewrite (ci_size _ _ _ _ Hc), Hhead, Hgap, Hl in Hpos. change (sizes []) with 0 in Hpos. change (zlen []) with 0 in Hpos. lia. }
  cbn [gc_apply mbind option_bind w_open w_gc w_pc w_rl w_todo]. rewrite Hpc. cbn [gc_step gc_cancel gc_End gc_Src gc_CancelFlag]. rewrite orb_true_r.
  unfold gc_stop, gc_finish, end_writing. cbn [gc_cancel gc_Dst]. rewrite Heq. fold src. rewrite Hdc0. cbn [mbind option_bind].
  unfold endGCWriting. rewrite Hrw1, Hhead. destruct (Z.ltb_spec 0 (dc_size dc)); [|lia]. cbn [andb].
  unfold with_dc, with_chunk. rewrite (zset_lookup _ _ _ dc) by done. cbn [mbind option_bind].
  cbn [op_with op_bkt with_datas bk_hints].
  destruct (trydump_known Conf E K (bk_hints (op_bkt (w_open w))) G a src true now) as (sl & h' & G' & -> & _); [apply Hb|apply Hb| |].
  { pose proof (si_head _ _ _ _ _ Hs). rewrite (bi_len _ _ _ _ _ _ _ _ _ _ _ Hb) in *. unfold src. lia. }
  cbn [mbind option_bind]. eexists _, _. split; [done|]. split; [done|]. split; [done|]. split; [by eapply zget_insert|]. split; [done|].
  cbn [w_bkt w_open AfterBucket with_gc_hints op_with op_bkt with_hints with_datas bk_datas with_disk ds_disk].
  unfold Truncate. rewrite Hid. fold src. destruct (ds_disk _ !! src) as [f|] eqn:Hf; [|done]. cbn [Z.eqb fst]. by rewrite lookup_delete_eq.
Qed.

End Props.

(** ** A concrete history *)

(** Four records to a chunk. *)
Definition gc_conf : HStoreConfig :=
  let c := demo_conf in
  {| NumBucket := NumBucket c; BucketsStat := BucketsStat c; FlushWake := FlushWake c; DataFileMax := 1024;
     CheckVHash := CheckVHash c; FlushInterval := FlushInterval c; NoGCDays := NoGCDays c; NotCompress := NotCompress c;
     NoMerged := NoMerged c; MergeInterval := MergeInterval c; IndexIntervalSize := IndexIntervalSize c; SplitCap := SplitCap c;
     TreeHeight := TreeHeight c; TreeDump := TreeDump c; TreeDepth := TreeDepth c; TreeKeyHashMask := TreeKeyHashMask c;
     TreeKeyHashLen := TreeKeyHashLen c |}.

Lemma gc_demo_env : env_ok gc_conf DefaultMCConfig demo_ext demo_keys.
Proof. destruct demo_env as [H1 H2 H3 H4 H5 H6]. by split. Qed.

Definition gc_idle : GCState := mkGC 0 0 0 0 None false zeroFileState.
Definition gc_demo_start : gc_world := gc_world0 bucket_tree false gc_idle ResetAll.

Definition readyb (o : OpenBucket) (end_ : Z) : bool :=
  forallb (λ dc, match dc_wbuf dc with [] => true | _ => false end && (dc_size dc <=? DataFileMax gc_conf))
    (take (Z.to_nat (end_ + 1)) (ds_chunks (bk_datas (op_bkt o)))).

Lemma readyb_ok o end_ : readyb o end_ = true → gc_ready gc_conf o end_.
Proof.
  intros Hb i dc Hi Hdc. unfold readyb in Hb. rewrite forallb_forall in Hb.
  specialize (Hb dc). rewrite <- list_elem_of_In in Hb. apply andb_true_iff in Hb as [Hw Hs].
  - split; [by destruct (dc_wbuf dc)|lia].
  - apply (list_elem_of_lookup_2 _ i). rewrite lookup_take_lt by lia. done.
Qed.

#[local] Instance KeyInfo_eq_dec : EqDecision KeyInfo.
Proof. solve_decision. Defined.

(** The conditions of the events used below, as a test. *)
Definition demo_okb (w : gc_world) (ev : gc_event) : bool :=
  match ev with
  | GSet ki v _ =>
      (bool_decide (ki = bucket_key (bstr "hello")) || bool_decide (ki = bucket_key (bstr "hits")))
      && (ht_depth (bk_htree (w_bkt w)) =? 1) && (ht_bucketID (bk_htree (w_bkt w)) =? 4)
      && append_okb gc_conf DefaultMCConfig (mkRecord (ki_Key ki) v) && ((0 <=? ValueHash (p_meta v)) && (ValueHash (p_meta v) <? 65536))
      && (ds_newHead (bk_datas (w_bkt w)) + 1 <? MAX_NUM_CHUNK)
  | GFlushBegin chunk _ _ => chunk <? MAX_NUM_CHUNK
  | GFlushEnd | GStep _ => true
  | GStart s e days now => (0 <=? op_NextGCChunk (w_open w))
      && match gcCheckRange gc_conf (w_open w) s e days now with
         | Some (inl (_, end_)) => readyb (w_open w) end_
         | _ => true
         end
  | _ => false
  end.

Lemma gc_key_ok t k :
  demo_keys k → ht_depth t = 1 → ht_bucketID t = 4 → key_ok gc_conf demo_ext demo_keys t (bucket_key k).
Proof.
  intros Hk Hd Hb. destruct (bucket_key_ok (empty_bucket t false) k Hk Hd Hb) as [H1 H2 H3 [H4 H5] H6]. by split.
Qed.

Lemma demo_okb_ok w ev : demo_okb w ev = true → gc_event_ok gc_conf DefaultMCConfig demo_ext demo_keys w ev.
Proof.
  destruct ev as [ki v now|ki value now|ki memOnly|chunk force now| |s e days now|now|]; cbn [demo_okb gc_event_ok]; try done.
  - intros Hb. do 5 (apply andb_true_iff in Hb as [Hb ?]). split; [|unfold has_room; lia].
    split; [|split; [by apply append_okb_ok|unfold is_u16; lia]].
    apply orb_true_iff in Hb as [->%bool_decide_eq_true| ->%bool_decide_eq_true]; (apply gc_key_ok; [|lia|lia]); [by left|by right].
  - lia.
  - intros [Hn Hb]%andb_true_iff. split; [lia|]. intros start end_ Hr. rewrite Hr in Hb. by apply readyb_ok.
Qed.

Definition demo_step (acc : option gc_world) (ev : gc_event) : option gc_world :=
  w ← acc; if demo_okb w ev then gc_apply gc_conf DefaultMCConfig demo_ext w ev else None.
Definition demo_run (evs : list gc_event) : option gc_world := foldl demo_step (Some gc_demo_start) evs.

Lemma demo_run_reach evs : ∀ w,
  demo_run evs = Some w →
  gc_reach gc_conf DefaultMCConfig demo_ext demo_keys gc_demo_start w (foldl (gc_abs gc_conf) ∅ evs).
Proof.
  induction evs as [|ev evs IH] using rev_ind; intros w; unfold demo_run.
  - intros [= <-]. apply gr_init.
  - rewrite !foldl_snoc. fold (demo_run evs). destruct (demo_run evs) as [w1|] eqn:Hr; [|done]. cbn [demo_step mbind option_bind].
    destruct (demo_okb w1 ev) eqn:Hok; [|done]. intros Hst. eapply gr_event; [by apply IH|by apply demo_okb_ok|done].
Qed.

(** Five sets, four of them in the first chunk, of which the run keeps the second
    one of [hello]; the flushes of both chunks; a run over the first chunk. *)
Definition gc_demo_sets : list gc_event :=
  [GSet (bucket_key (bstr "hello")) (demo_value (bstr "world") 0) 1000;
   GSet (bucket_key (bstr "hits")) (demo_value (bstr "1") 0) 1000;
   GSet (bucket_key (bstr "hello")) (demo_value (bstr "there") 0) 1000;
   GSet (bucket_key (bstr "hits")) (demo_value (bstr "2") 0) 1000;
   GSet (bucket_key (bstr "hits")) (demo_value (bstr "3") 0) 1000;
   GFlushBegin 0 true 1000; GFlushEnd; GFlushBegin (-1) true 1000; GFlushEnd; GStart (-1) (-1) 0 2000].
Definition gc_demo_events : list gc_event := gc_demo_sets ++ replicate 7 (GStep 2000).

Lemma gc_demo_depth : 0 <= TreeDepth gc_conf <= 16.
Proof. by vm_compute. Qed.

Lemma gc_demo_body : 0 <= BodyMax DefaultMCConfig.
Proof. by vm_compute. Qed.

Lemma gc_demo_conf : conf_for gc_conf 1 3.
Proof. by vm_compute. Qed.

Lemma gc_keeps_contents_witness :
  ∃ w q pos r', demo_run gc_demo_events = Some w ∧ w_pc w = AtEnd
    ∧ (dc_size <$> take 2 (ds_chunks (bk_datas (w_bkt w)))) = [256; 256]
    ∧ bkt_get gc_conf DefaultMCConfig demo_ext (w_bkt w) (bucket_key (bstr "hello")) false ResetAll = Some ((Some q, pos, None), w_bkt w, r')
    ∧ p_Body q = bstr "there".
Proof.
  destruct (demo_run gc_demo_events) as [w|] eqn:Hrun; [|exfalso; by vm_compute in Hrun].
  pose proof (demo_run_reach gc_demo_events w Hrun) as Hr.
  assert (match demo_run gc_demo_events with
    | Some w => match w_pc w with AtEnd => true | _ => false end
        && bool_decide ((dc_size <$> take 2 (ds_chunks (bk_datas (w_bkt w)))) = [256; 256])
        && (ht_depth (bk_htree (w_bkt w)) =? 1) && (ht_bucketID (bk_htree (w_bkt w)) =? 4)
    | None => false end = true) as Hchk by (vm_compute; reflexivity).
  rewrite Hrun in Hchk. do 3 (apply andb_true_iff in Hchk as [Hchk ?]).
  destruct (gc_keeps_contents gc_conf DefaultMCConfig demo_ext demo_keys bucket_tree 1 4 3 false gc_idle ResetAll
    gc_demo_env eq_refl gc_demo_conf gc_demo_depth gc_demo_body w _ Hr) as [Hget _].
  destruct (Hget (bucket_key (bstr "hello")) ResetAll) as (p & pos & r' & Hg & Hm).
  { apply gc_key_ok; [by left|by apply Z.eqb_eq|by apply Z.eqb_eq]. }
  assert (match foldl (gc_abs gc_conf) ∅ gc_demo_events !! ki_Key (bucket_key (bstr "hello")) with
    | Some (rec, _) => bytes_eqb (p_Body (r_Payload rec)) (bstr "there") | None => false end = true) as HA by (vm_compute; reflexivity).
  destruct (foldl (gc_abs gc_conf) ∅ gc_demo_events !! _) as [[rec vh]|]; [|discriminate HA].
  destruct Hm as (q & Hq & (_ & Hbody & _)). subst p. exists w, q, pos, r'. split; [reflexivity|].
  split; [by destruct (w_pc w)|]. split; [by eapply bool_decide_eq_true|]. split; [exact Hg|].
  cbn [r_Payload] in Hbody. rewrite <- Hbody. by apply bytes_eqb_true.
Defined.

Lemma gc_run_ends_witness :
  ∃ w o gc r, demo_run gc_demo_sets = Some w ∧ w_pc w = AtChunk
    ∧ gc_run gc_conf DefaultMCConfig demo_ext (1 + work (w_open w) (gc_Src (w_gc w)) (gc_End (w_gc w)))
        (w_open w) (w_gc w) (w_pc w) 2000 (w_rl w) = Some (o, gc, r)
    ∧ gc_Err gc = None ∧ gc_End (w_gc w) < gc_Src gc.
Proof.
  destruct (demo_run gc_demo_sets) as [w|] eqn:Hrun; [|exfalso; by vm_compute in Hrun].
  assert (match demo_run gc_demo_sets with
    | Some w => match w_pc w with AtChunk => true | _ => false end && negb (gc_CancelFlag (w_gc w)) | None => false end = true)
    as Hchk by (vm_compute; reflexivity).
  rewrite Hrun in Hchk. apply andb_true_iff in Hchk as [Hchk Hcan].
  destruct (gc_run_ends gc_conf DefaultMCConfig demo_ext demo_keys bucket_tree 1 4 3 false gc_idle ResetAll
    gc_demo_env eq_refl gc_demo_conf gc_demo_depth gc_demo_body w _ 2000 (demo_run_reach gc_demo_sets w Hrun)) as (o & gc & r & Hg & He & _).
  exists w, o, gc, r. split; [reflexivity|]. assert (w_pc w = AtChunk) as Hpc by (by destruct (w_pc w)). split; [exact Hpc|].
  split; [exact Hg|]. destruct He as [He Hend]; [by rewrite Hpc|]. split; [exact He|]. apply Hend. by apply negb_true_iff.
Defined.

Lemma cancel_at_start_loses_chunk_witness :
  ∃ w w' dc', demo_run gc_demo_sets = Some w
    ∧ (w1 ← gc_apply gc_conf DefaultMCConfig demo_ext w GCancel; gc_apply gc_conf DefaultMCConfig demo_ext w1 (GStep 2000)) = Some w'
    ∧ zget (ds_chunks (bk_datas (w_bkt w'))) 0 = Some dc' ∧ dc_size dc' = 0 ∧ ds_disk (bk_datas (w_bkt w')) !! 0 = None.
Proof.
  destruct (demo_run gc_demo_sets) as [w|] eqn:Hrun; [|exfalso; by vm_compute in Hrun].
  assert (match demo_run gc_demo_sets with
    | Some w => match w_pc w with AtChunk => true | _ => false end && (gc_Src (w_gc w) =? 0) && (gc_Dst (w_gc w) =? 0)
        && match zget (ds_chunks (bk_datas (w_bkt w))) 0 with Some dc => 0 <? dc_size dc | None => false end
    | None => false end = true) as Hchk by (vm_compute; reflexivity).
  rewrite Hrun in Hchk. do 3 (apply andb_true_iff in Hchk as [Hchk ?]).
  assert (gc_Src (w_gc w) = 0) as Hsrc by (by apply Z.eqb_eq).
  destruct (zget (ds_chunks (bk_datas (w_bkt w))) 0) as [dc|] eqn:Hdc; [|discriminate].
  destruct (cancel_at_start_loses_chunk gc_conf DefaultMCConfig demo_ext demo_keys bucket_tree 1 4 3 false gc_idle ResetAll
    gc_demo_env eq_refl gc_demo_conf gc_demo_depth gc_demo_body w _ 2000 dc (demo_run_reach gc_demo_sets w Hrun))
    as (w' & dc' & Hst & _ & _ & Hz & Hsz & Hd).
  - by destruct (w_pc w).
  - rewrite Hsrc. by apply Z.eqb_eq.
  - rewrite Hsrc. exact Hdc.
  - by apply Z.ltb_lt.
  - rewrite Hsrc in Hz, Hd. exists w, w', dc'. split; [reflexivity|]. split; [exact Hst|]. split; [exact Hz|]. split; [exact Hsz|exact Hd].
Defined.

(** ** A set in the middle of a record

    The steps of [AtRecord] with a request between the look into the tree and the copy:
    the code holds no lock over both. *)

Definition interrupted (w : gc_world) (ki : KeyInfo) (value : Payload) (now : Z) : option (option bytes) :=
  match w_pc w with
  | AtRecord pos offset _ =>
      let o := w_open w in
      '(res, _, r) ← Next DefaultMCConfig demo_ext (mkReader (file_at (ds_disk (bk_datas (op_bkt o))) (gc_Src (w_gc w))) pos offset) (w_rl w);
      rec ← n_rec res;
      kr ← NewKeyInfoFromBytes gc_conf (r_Key rec) (getKeyHash demo_ext (r_Key rec)) false;
      '(v, r) ← gc_look gc_conf DefaultMCConfig demo_ext (op_bkt o) (gc_Begin (w_gc w)) kr rec (mkPos (gc_Src (w_gc w)) (n_offset res)) r;
      '(_, b, _, r) ← checkAndSet gc_conf DefaultMCConfig demo_ext (op_bkt o) ki value now r;
      '(o, _) ← gc_move gc_conf demo_ext (op_with o b) (w_gc w) kr rec v now;
      '(p, _, _, _, _) ← bkt_get gc_conf DefaultMCConfig demo_ext (op_bkt o) ki false r;
      Some (match p with Some q => Some (p_Body q) | None => None end)
  | _ => None
  end.

(** The value that was set in between is lost: the tree points to the copy of the old
    record again. *)
Example set_during_gc_lost :
  (w ← demo_run (gc_demo_sets ++ replicate 3 (GStep 2000));
   interrupted w (bucket_key (bstr "hello")) (demo_value (bstr "again") 0) 3000) = Some (Some (bstr "there")).
Proof. vm_compute. reflexivity. Qed.
