(* ===== verification/HStore.v ===== *)
(** * The store of buckets and the storage client (src/store/hstore.go, src/gobeansdb/store.go)

    The store routes a key to the bucket its hash belongs to; the storage client
    gives the memcache server its view of the store: plain keys, and the special
    keys that list directories ([@]) and metadata ([?]). *)

From stdpp Require Import gmap.
From S2P Require Import Prelude Hashing Strconv Config Cmem Key Item Fixtures Leaf HTree HTreeDisk.
From S2P Require Import DataFile Data HintFile Hint Bucket Protocol Server.

Definition BUCKET_STAT_EMPTY : Z := 0.
Definition BUCKET_STAT_NOT_EMPTY : Z := 1.
Definition BUCKET_STAT_READY : Z := 2.

(** A bucket with its state and counters; [hb_bkt] is filled in by [open]. *)
Record HBucket := mkHBucket {
  hb_State : Z;
  hb_bkt : option Bucket;
  hb_NumGet : Z;
  hb_NumSet : Z
}.

(** [hs_htree] summarises the buckets, when there is more than one level. *)
Record HStore := mkHStore { hs_buckets : list HBucket; hs_htree : option HTree }.

Definition with_bucket (hs : HStore) (i : Z) (hb : HBucket) : option HStore :=
  bs ← zset (hs_buckets hs) i hb; Some (mkHStore bs (hs_htree hs)).
Definition hb_with (hb : HBucket) (b : Bucket) : HBucket :=
  mkHBucket (hb_State hb) (Some b) (hb_NumGet hb) (hb_NumSet hb).
Definition hb_count_get (hb : HBucket) : HBucket :=
  mkHBucket (hb_State hb) (hb_bkt hb) (i64 (hb_NumGet hb + 1)) (hb_NumSet hb).
Definition hb_count_set (hb : HBucket) : HBucket :=
  mkHBucket (hb_State hb) (hb_bkt hb) (hb_NumGet hb) (i64 (hb_NumSet hb + 1)).
Definition hb_ready (hb : HBucket) : bool := hb_State hb =? BUCKET_STAT_READY.

Section Store.
Context (Conf : HStoreConfig) (mc : MCConfig) (E : Ext).

(** ** Routing *)

(** [ki.KeyHash = getKeyHash(ki.Key); ki.Prepare()]; the error is ignored. *)
Definition route (ki : KeyInfo) : option KeyInfo :=
  '(ki, _) ← Prepare Conf (mkKeyInfo (getKeyHash E (ki_Key ki)) (ki_KeyIsPath ki) (ki_Key ki) (ki_StringKey ki)
                             (ki_KeyPath ki) (ki_BucketID ki));
  Some ki.

(** [HStore.Get]: the payload, its position and the error. *)
Definition hs_Get (hs : HStore) (ki : KeyInfo) (memOnly : bool) (r : BeansdbRL)
    : option (get_result * HStore * BeansdbRL) :=
  ki ← route ki;
  hb ← zget (hs_buckets hs) (ki_BucketID ki);
  let hb := hb_count_get hb in
  if negb (hb_ready hb) then hs ← with_bucket hs (ki_BucketID ki) hb; Some ((None, mkPos 0 0, None), hs, r)
  else
    b ← hb_bkt hb;
    '(res, b, r) ← bkt_get Conf mc E b ki memOnly r;
    hs ← with_bucket hs (ki_BucketID ki) (hb_with hb b);
    Some (res, hs, r).

(** [HStore.Set]: the error. *)
Definition hs_Set (hs : HStore) (ki : KeyInfo) (p : Payload) (now : Z) (r : BeansdbRL)
    : option (option StoreErr * HStore * BeansdbRL) :=
  ki ← route ki;
  hb ← zget (hs_buckets hs) (ki_BucketID ki);
  let hb := hb_count_set hb in
  if negb (hb_ready hb) then
    hs ← with_bucket hs (ki_BucketID ki) hb;
    Some (None, hs, (Free (p_arr p) (on_set (λ rl, SubSizeAndCount rl (Cap (p_arr p))) r)).2)
  else
    b ← hb_bkt hb;
    '(err, b, _, r) ← checkAndSet Conf mc E b ki p now r;
    hs ← with_bucket hs (ki_BucketID ki) (hb_with hb b);
    Some (err, hs, r).

(** [HStore.Incr]. *)
Definition hs_Incr (hs : HStore) (ki : KeyInfo) (value now : Z) (r : BeansdbRL) : option (Z * HStore * BeansdbRL) :=
  ki ← route ki;
  hb ← zget (hs_buckets hs) (ki_BucketID ki);
  if negb (hb_ready hb) then Some (0, hs, r)
  else
    b ← hb_bkt hb;
    '(n, b, _, r) ← incr Conf mc E b ki value now r;
    hs ← with_bucket hs (ki_BucketID ki) (hb_with hb b);
    Some (n, hs, r).

(** [HStore.GetRecordByKeyHash] of a key given by its path: the error of
    [Prepare] is ignored. *)
Definition hs_GetRecordByKeyHash (hs : HStore) (ki : KeyInfo) (r : BeansdbRL)
    : option (option (Record_ * bool + StoreErr * bool) * BeansdbRL) :=
  '(ki, _) ← Prepare Conf ki;
  hb ← zget (hs_buckets hs) (ki_BucketID ki);
  if negb (hb_ready hb) then Some (None, r)
  else b ← hb_bkt hb; bkt_GetRecordByKeyHash Conf mc E b ki r.

(** [NumKey] reads the root of every ready bucket, updated or not. *)
Definition NumKey (hs : HStore) : option Z :=
  foldl (λ n hb,
    n ← n;
    if hb_ready hb then b ← hb_bkt hb; root ← get_node (bk_htree b) 0 0; Some (n + count root) else Some n)
  (Some 0) (hs_buckets hs).

Definition getBucket (hs : HStore) (bucketID : Z) : option HBucket :=
  hb ← zget (hs_buckets hs) bucketID;
  if hb_ready hb then Some hb else None.

(** ** Listing *)

(** [updateNodesUpper] one level down for every unit of fuel; the leaves of the
    upper tree are the buckets. *)
Fixpoint updateNodesUpper (fuel : nat) (hs : HStore) (level offset : Z) : option (HStore * Node) :=
  match fuel with
  | O => None
  | S fuel =>
      t ← hs_htree hs;
      _ ← get_node t level offset;
      if level <? nlevels t - 1 then
        '(hs, cnt, h) ←
          foldl (λ acc i,
            '(hs, cnt, h) ← acc;
            '(hs, cnode) ← updateNodesUpper fuel hs (level + 1) (offset * 16 + Z.of_nat i);
            Some (hs, u32 (cnt + count cnode), u16 (u16 (h * 97) + hash cnode)))
          (Some (hs, 0, 0)) (seq 0 16);
        t ← hs_htree hs;
        old ← get_node t level offset;
        let node := mkNode cnt h (isHashUpdated old) in
        t ← upd_node t level offset (λ _, node);
        Some (mkHStore (hs_buckets hs) (Some t), node)
      else
        hb ← zget (hs_buckets hs) offset;
        old ← get_node t level offset;
        '(hs, cnt, h) ←
          match hb_bkt hb with
          | Some b =>
              if hb_ready hb then
                '(bt, root) ← Update (bk_htree b);
                hs ← with_bucket hs offset (hb_with hb (with_htree b bt));
                Some (hs, count root, hash root)
              else Some (hs, 0, 0)
          | None => Some (hs, 0, 0)
          end;
        let node := mkNode cnt h (isHashUpdated old) in
        t ← upd_node t level offset (λ _, node);
        Some (mkHStore (hs_buckets hs) (Some t), node)
  end.

Definition ListUpper (hs : HStore) (ki : KeyInfo) : option (bytes * HStore) :=
  t ← hs_htree hs;
  let l := zlen (ki_KeyPath ki) in
  let offset := foldl (λ o d, o * 16 + d) 0 (ki_KeyPath ki) in
  '(hs, _) ← updateNodesUpper (length (levels t)) hs l offset;
  t ← hs_htree hs;
  nodes ← mapM (λ i, get_node t (l + 1) (offset * 16 + Z.of_nat i)) (seq 0 16);
  Some (concat (imap node_line nodes), hs).

(** [HStore.ListDir]: no listing for a bad path or a bucket that is not ready. *)
Definition hs_ListDir (hs : HStore) (ki : KeyInfo) : option ((option bytes + StoreErr) * HStore) :=
  '(ki, err) ← Prepare Conf ki;
  match err with
  | Some _ => Some (inl None, hs)
  | None =>
      if TreeDepth Conf <=? zlen (ki_Key ki) then
        hb ← zget (hs_buckets hs) (ki_BucketID ki);
        if negb (hb_ready hb) then Some (inl None, hs)
        else
          b ← hb_bkt hb;
          '(t, res) ← ListDir Conf (bk_htree b) ki;
          hs ← with_bucket hs (ki_BucketID ki) (hb_with hb (with_htree b t));
          Some (match res with inl body => inl (Some body) | inr e => inr e end, hs)
      else '(body, hs) ← ListUpper hs ki; Some (inl (Some body), hs)
  end.

(** ** Flushing *)

(** [flushdatas]: every opened bucket in turn. *)
Fixpoint flush_buckets (hbs : list HBucket) (force : bool) (now : Z) (r : BeansdbRL)
    : option (list HBucket * BeansdbRL) :=
  match hbs with
  | [] => Some ([], r)
  | hb :: hbs =>
      '(hb, r) ← match hb_bkt hb with
        | None => Some (hb, r)
        | Some b => '(ds, r) ← ds_flush Conf (bk_datas b) (-1) force now r; Some (hb_with hb (with_datas b ds), r)
        end;
      '(hbs, r) ← flush_buckets hbs force now r;
      Some (hb :: hbs, r)
  end.
Definition flushdatas (hs : HStore) (force : bool) (now : Z) (r : BeansdbRL) : option (HStore * BeansdbRL) :=
  '(bs, r) ← flush_buckets (hs_buckets hs) force now r; Some (mkHStore bs (hs_htree hs), r).

Definition GetPayloadForDelete (now : Z) : Payload := mkPayload (mkMeta (u32 now) 0 (-1) 0 0) nilCArray.

(** ** The storage client *)

(** The text of an error; the others print details of the record or the file. *)
Context (err_details : StoreErr → bytes).
Definition err_text (e : StoreErr) : bytes :=
  match e with ErrNotFound => bstr "NOT_FOUND" | e => err_details e end.

(** The store as the server's connections share it; [hv_now] is the clock, [hv_gc]
    whether a garbage collection runs. *)
Record HServer := mkHServer { hv_store : HStore; hv_rl : BeansdbRL; hv_now : Z; hv_gc : bool }.
Definition hv_with (v : HServer) (hs : HStore) (r : BeansdbRL) : HServer := mkHServer hs r (hv_now v) (hv_gc v).

Definition prepare (key : bytes) (isPath : bool) : KeyInfo := mkKeyInfo 0 isPath key key [] 0.
Definition body_item (body : bytes) : McItem := mkMcItem 0 0 0 0 (mkCArray body 0 0).

Definition client_Set (v : HServer) (key : bytes) (item : McItem) : option ((bool + bytes) * HServer) :=
  if negb (IsValidKeyString key) then
    Some (inl false, hv_with v (hv_store v)
      (Free (mi_arr item) (on_set (λ rl, SubSizeAndCount rl (Cap (mi_arr item))) (hv_rl v))).2)
  else
    let payload := mkPayload (mkMeta (u32 (mi_ReceiveTime item)) (u32 (mi_Flag item)) (i32 (mi_Exptime item)) 0 0)
      (mi_arr item) in
    '(err, hs, r) ← hs_Set (hv_store v) (prepare key false) payload (hv_now v) (hv_rl v);
    Some (match err with Some e => inr (err_text e) | None => inl true end, hv_with v hs r).

Definition client_listDir (v : HServer) (path : bytes) : option ((option McItem + bytes) * HServer) :=
  '(res, hs) ← hs_ListDir (hv_store v) (prepare path true);
  Some (match res with inl body => inl (Some (body_item (default [] body))) | inr e => inr (err_text e) end,
        hv_with v hs (hv_rl v)).

(** The metadata of a key as text; the value that was read is given back. *)
Definition client_getMeta (v : HServer) (key : bytes) (extended : bool) : option ((option McItem + bytes) * HServer) :=
  '(p, pos, err, hs, r) ← hs_Get (hv_store v) (prepare key false) false (hv_rl v);
  match err with
  | Some e => Some (inr (err_text e), hv_with v hs r)
  | None =>
      match p with
      | None => Some (inl None, hv_with v hs r)
      | Some p =>
          let m := p_meta p in
          let vhash := if 0 <? Ver m then Getvhash (p_Body p) else 0 in
          let body := Itoa (Ver m) ++ SP :: Itoa vhash ++ SP :: Itoa (Flag m) ++ SP :: Itoa (zlen (p_Body p))
            ++ SP :: Itoa (TS m)
            ++ (if extended then SP :: Itoa (ChunkID pos) ++ SP :: Itoa (Offset pos) else []) in
          let r := (Free (p_arr p) (on_get (λ rl, SubSizeAndCount rl (Cap (p_arr p))) r)).2 in
          Some (inl (Some (body_item body)), hv_with v hs r)
      end
  end.

(** [Record.Dumps]. *)
Definition rec_Dumps (rec : Record_) : bytes := wrec_append (wrapRecord rec) false.

(** [StorageClient.Get] of a key that starts with [@]. *)
Definition client_Get_at (v : HServer) (key : bytes) : option ((option McItem + bytes) * HServer) :=
  if (1 <? zlen key) && (nth 1 key 0 =? 64) then
    let key2 := drop 2 key in
    if negb (zlen key2 =? 16) then Some (inr (bstr "bad command line format"), v)
    else
      '(res, r) ← hs_GetRecordByKeyHash (hv_store v) (prepare key2 true) (hv_rl v);
      Some (match res with
            | None => (inl None, hv_with v (hv_store v) r)
            | Some (inr (e, _)) => (inr (err_text e), hv_with v (hv_store v) r)
            | Some (inl (rec, _)) =>
                let arr := p_arr (r_Payload rec) in
                (inl (Some (body_item (rec_Dumps rec))),
                 hv_with v (hv_store v) (Free arr (on_get (λ rl, SubSizeAndCount rl (Cap arr)) r)).2)
            end)
  else if (11 <? zlen key) && bytes_eqb (take 10 (drop 1 key)) (bstr "collision_") then
    if (15 <? zlen key) && bytes_eqb (take 4 (drop 11 key)) (bstr "all_") then Some (inl None, v)
    else Some (inl (Some (body_item (bstr "0 0 0 0"))), v)
  else client_listDir v (drop 1 key).

(** [StorageClient.Get] of a key that starts with [?]. *)
Definition client_Get_meta (v : HServer) (key : bytes) : option ((option McItem + bytes) * HServer) :=
  if negb (1 <? zlen key) then Some (inr (bstr "bad key " ++ key), v)
  else
    let extended := nth 1 key 0 =? 63 in
    let key := if extended then drop 2 key else drop 1 key in
    if negb (IsValidKeyString key) then Some (inl None, v) else client_getMeta v key extended.

(** [StorageClient.Get]; an empty key is an index out of range. *)
Definition client_Get (v : HServer) (key : bytes) : option ((option McItem + bytes) * HServer) :=
  c ← key !! 0%nat;
  if c =? 64 then client_Get_at v key
  else if c =? 63 then client_Get_meta v key
  else
    '(p, _, err, hs, r) ← hs_Get (hv_store v) (prepare key false) false (hv_rl v);
    match err with
    | Some e => Some (inr (err_text e), hv_with v hs r)
    | None =>
        match p with
        | None => Some (inl None, hv_with v hs r)
        | Some p =>
            if Ver (p_meta p) <? 0 then
              Some (inl None, hv_with v hs (Free (p_arr p) (on_get (λ rl, SubSizeAndCount rl (Cap (p_arr p))) r)).2)
            else Some (inl (Some (mkMcItem 0 (Flag (p_meta p)) 0 0 (p_arr p))), hv_with v hs r)
        end
    end.

(** [GetMulti]: errors of single keys are dropped. *)
Fixpoint client_GetMulti (v : HServer) (keys : list bytes) (acc : gmap bytes McItem)
    : option ((gmap bytes McItem + bytes) * HServer) :=
  match keys with
  | [] => Some (inl acc, v)
  | key :: keys =>
      '(res, v) ← client_Get v key;
      client_GetMulti v keys (match res with inl (Some item) => <[key := item]> acc | _ => acc end)
  end.

Definition client_Incr (v : HServer) (key : bytes) (value : Z) : option ((Z + bytes) * HServer) :=
  if negb (IsValidKeyString key) then Some (inl 0, v)
  else
    '(n, hs, r) ← hs_Incr (hv_store v) (prepare key false) value (hv_now v) (hv_rl v);
    Some (inl n, hv_with v hs r).

Definition client_Delete (v : HServer) (key : bytes) : option ((bool + bytes) * HServer) :=
  if negb (IsValidKeyString key) then Some (inl false, v)
  else
    '(err, hs, r) ← hs_Set (hv_store v) (prepare key false) (GetPayloadForDelete (hv_now v)) (hv_now v) (hv_rl v);
    Some (match err with
          | None => inl true
          | Some e => if bytes_eqb (err_text e) (bstr "NOT_FOUND") then inl false else inr (err_text e)
          end, hv_with v hs r).

(** [Process] of the commands that are not memcache's. *)
Definition client_Process (v : HServer) (cmd : bytes) : bytes * bytes :=
  if bytes_eqb cmd (bstr "optimize_stat") then (if hv_gc v then bstr "running" else bstr "none", [])
  else (bstr "ERROR", []).

#[global] Instance hstore_client : StorageClient HServer := {|
  sc_Get := client_Get;
  sc_GetMulti v keys := client_GetMulti v keys ∅;
  sc_Set v key item _ := client_Set v key item;
  sc_Append v _ _ := Some (inr (bstr "operation not support"), v);
  sc_Incr := client_Incr;
  sc_Delete := client_Delete;
  sc_Len v := NumKey (hv_store v);
  sc_Process v cmd _ := client_Process v cmd;
  sc_rl := hv_rl;
  sc_with_rl v r := mkHServer (hv_store v) r (hv_now v) (hv_gc v)
|}.

End Store.
