(* ===== verification/HStoreSpec.v ===== *)
(** * The store of buckets behaves like one map

    Every bucket of the store holds the keys whose hashes belong to it; together
    they hold one map from keys to records, and the storage client shows it to the
    server. *)

From stdpp Require Import gmap.
From S2P Require Import Prelude Hashing Strconv Config Cmem Key Item Fixtures Leaf HTree HTreeSpec HTreeMerkle.
From S2P Require Import HTreeProps HTreeDisk DataFile Data DataSpec DataLog HintFile Hint HintSpec HintProps.
From S2P Require Import Bucket BucketSpec Protocol ProtocolProps Server ServerSpec HStore.

Section Spec.
Context (Conf : HStoreConfig) (mc : MCConfig) (E : Ext) (K : bytes → Prop) (err_details : StoreErr → bytes).

(** What the store relies on: the environment of its buckets, a 32-bit murmur hash
    and a tree depth that leaves room for the trees of the buckets. *)
Record store_env : Prop := {
  se_env : env_ok Conf mc E K;
  se_murmur k : is_u32 (murmur E k);
  se_depth : 0 <= TreeDepth Conf <= 16
}.
Context (He : store_env).

(** The bucket of a key. *)
Definition bucket_of (key : bytes) : Z := getKeyHash E key / 16 ^ (16 - TreeDepth Conf).

Lemma getKeyHash_range key : is_u64 (getKeyHash E key).
Proof.
  unfold getKeyHash, getKeyHashDefalut. pose proof (se_murmur He key) as Hm. unfold is_u64, is_u32 in *.
  split; [apply Z.lor_nonneg; split; [apply u64_range|lia]|].
  change (2 ^ 64) with (2 ^ 64). apply Z.log2_lt_cancel. rewrite Z.log2_pow2 by lia.
  rewrite Z.log2_lor by (first [apply u64_range|lia]). apply Z.max_lub_lt.
  - pose proof (u64_range (Z.shiftl (Fnv1a key) 32)) as Hu. unfold is_u64 in Hu.
    destruct (Z.eq_dec (u64 (Z.shiftl (Fnv1a key) 32)) 0) as [->|]; [done|]. apply Z.log2_lt_pow2; lia.
  - destruct (Z.eq_dec (murmur E key) 0) as [->|]; [done|]. apply Z.log2_lt_pow2; lia.
Qed.

(** The route of a key: its hash, its path, its bucket. *)
Lemma route_spec key :
  ∃ ki, route Conf E (prepare key false) = Some ki ∧ ki_Key ki = key ∧ ki_StringKey ki = key
    ∧ ki_KeyHash ki = getKeyHash E key ∧ ki_BucketID ki = bucket_of key ∧ prepared Conf ki.
Proof.
  unfold route, prepare. cbn [ki_Key ki_KeyIsPath ki_StringKey ki_KeyPath ki_BucketID].
  set (ki0 := mkKeyInfo _ _ _ _ _ _).
  destruct (Prepare_bucket Conf ki0 eq_refl (getKeyHash_range key) (se_depth He)) as (ki & Hp & Hpr & Hkh & Hb & _).
  exists ki. rewrite Hp. cbn [mbind option_bind]. split; [done|].
  assert (ki_Key ki = key ∧ ki_StringKey ki = key) as [-> ->].
  { unfold Prepare in Hp. cbn [ki_KeyIsPath] in Hp. destruct (zslice _ _ _); simplify_eq/=. done. }
  done.
Qed.

(** ** Representation *)

Abbreviation contents := (gmap bytes (Record_ * Z)).

(** The keys of bucket [i]. *)
Definition share (i : Z) (A : contents) : contents := filter (λ p, bucket_of p.1 = i) A.

Lemma share_lookup i A key : bucket_of key = i → share i A !! key = A !! key.
Proof.
  intros Hb. unfold share. apply option_eq. intros x. rewrite map_lookup_filter_Some. cbn. naive_solver.
Qed.
Lemma share_put_in i A key x : bucket_of key = i → share i (put A key x) = put (share i A) key x.
Proof. intros Hb. destruct x as [x|]; [|done]. by apply map_filter_insert_True. Qed.
Lemma share_put_out i A key x : bucket_of key ≠ i → share i (put A key x) = share i A.
Proof.
  intros Hb. destruct x as [x|]; [|done]. unfold share, put. rewrite map_filter_insert_not'; [done|done|].
  by intros y _.
Qed.

Definition bucket_rep (i : Z) (b : Bucket) (A : contents) : Prop :=
  ht_depth (bk_htree b) = TreeDepth Conf ∧ ht_bucketID (bk_htree b) = i
  ∧ ∃ m gs G a, bkt_inv Conf mc E K b None (share i A) m gs G a.

(** The store with its ready buckets, and the map they hold. *)
Definition store_rep (hs : HStore) (ready : list bool) (A : contents) : Prop :=
  hb_ready <$> hs_buckets hs = ready
  ∧ ∀ i hb, zget (hs_buckets hs) i = Some hb →
      if hb_ready hb then ∃ b, hb_bkt hb = Some b ∧ bucket_rep i b A else hb_bkt hb = None.

(** The bucket of the key is served. *)
Definition served_key (ready : list bool) (key : bytes) : Prop := zget ready (bucket_of key) = Some true.

Lemma served_bucket hs ready A key :
  store_rep hs ready A → served_key ready key →
  ∃ hb b, zget (hs_buckets hs) (bucket_of key) = Some hb ∧ hb_ready hb = true ∧ hb_bkt hb = Some b
    ∧ bucket_rep (bucket_of key) b A.
Proof.
  intros [Hr Hb] Hs. unfold served_key in Hs. rewrite <- Hr in Hs. apply zget_Some in Hs as [H0 Hs].
  rewrite list_lookup_fmap in Hs. destruct (hs_buckets hs !! _) as [hb|] eqn:Hhb; [|done]. injection Hs as Hrd.
  assert (zget (hs_buckets hs) (bucket_of key) = Some hb) as Hz by (apply zget_Some; done).
  pose proof (Hb _ _ Hz) as Hx. rewrite Hrd in Hx. destruct Hx as (b & Hbk & Hrep). by exists hb, b.
Qed.

(** Replacing one bucket. *)
Lemma with_bucket_rep hs ready A A' i hb hb' b' :
  store_rep hs ready A → zget (hs_buckets hs) i = Some hb → hb_ready hb = true → hb_ready hb' = true →
  hb_bkt hb' = Some b' → bucket_rep i b' A' → (∀ j, j ≠ i → share j A' = share j A) →
  ∃ hs', with_bucket hs i hb' = Some hs' ∧ store_rep hs' ready A'.
Proof.
  intros [Hr Hb] Hi Hrd Hrd' Hbk Hrep Hsh. unfold with_bucket, zset.
  pose proof Hi as [H0 Hl]%zget_Some. pose proof (lookup_lt_Some _ _ _ Hl) as Hlt.
  assert ((0 <=? i) && (i <? zlen (hs_buckets hs)) = true) as -> by (unfold zlen; lia).
  cbn [mbind option_bind]. eexists. split; [done|]. split; cbn [hs_buckets].
  - rewrite <- Hr, list_fmap_insert, Hrd'. apply list_insert_id. by rewrite list_lookup_fmap, Hl, <- Hrd.
  - intros j hb0 Hj. pose proof Hj as [Hj0 Hjl]%zget_Some. destruct (decide (j = i)) as [->|Hne].
    + rewrite list_lookup_insert_eq in Hjl by done. simplify_eq. rewrite Hrd'. by exists b'.
    + rewrite list_lookup_insert_ne in Hjl by lia.
      specialize (Hb j hb0 ltac:(by apply zget_Some)). unfold bucket_rep in *. by rewrite (Hsh j Hne).
Qed.

(** ** Requests on the store *)

Lemma key_ok_of ki key b A :
  K key → ki_Key ki = key → ki_StringKey ki = key → ki_KeyHash ki = getKeyHash E key → prepared Conf ki →
  bucket_rep (bucket_of key) b A → key_ok Conf E K (bk_htree b) ki.
Proof.
  intros Hk H1 H2 H3 H4 (Hd & Hb & _). split; try congruence.
  split; [rewrite H3; apply getKeyHash_range|]. by rewrite Hd, Hb, H3.
Qed.

Lemma hs_Get_spec hs ready A key r :
  store_rep hs ready A → K key → served_key ready key →
  ∃ p pos hs' r', hs_Get Conf mc E hs (prepare key false) false r = Some ((p, pos, None), hs', r')
    ∧ store_rep hs' ready A
    ∧ match A !! key with
      | Some (rec, _) => ∃ q, p = Some q ∧ same_record rec (mkRecord key q)
      | None => p = None
      end.
Proof.
  intros Hr Hk Hs. destruct (served_bucket hs ready A key Hr Hs) as (hb & b & Hz & Hrd & Hb & Hrep).
  destruct (route_spec key) as (ki & Hrt & H1 & H2 & H3 & H4 & H5). unfold hs_Get. rewrite Hrt. cbn [mbind option_bind].
  rewrite H4, Hz. cbn [mbind option_bind]. unfold hb_ready in *. cbn [hb_count_get hb_State hb_bkt]. rewrite Hrd, Hb. cbn [negb mbind option_bind].
  pose proof Hrep as (Hd & Hid & m & gs & G & a & Hi).
  destruct (bkt_get_rec Conf mc E K b None (share (bucket_of key) A) m gs G a ki r (se_env He) Hi
    (key_ok_of ki key b A Hk H1 H2 H3 H5 Hrep)) as (p & pos & r' & -> & Hp). cbn [mbind option_bind].
  destruct (with_bucket_rep hs ready A A (bucket_of key) hb (hb_with (hb_count_get hb) b) b) as (hs' & -> & Hr'); try done.
  cbn [mbind option_bind]. exists p, pos, hs', r'. split; [done|]. split; [done|].
  rewrite H1, share_lookup in Hp by done. exact Hp.
Qed.

(** Room for another chunk in the bucket of the key. *)
Definition store_room (hs : HStore) (key : bytes) : Prop :=
  ∀ hb b, zget (hs_buckets hs) (bucket_of key) = Some hb → hb_bkt hb = Some b → has_room b.

(** A write to one bucket. *)
Lemma write_rep hs ready A key hb hb' b b' x (m : gmap Z HTreeItem) gs G a :
  store_rep hs ready A → zget (hs_buckets hs) (bucket_of key) = Some hb → hb_ready hb = true → hb_ready hb' = true →
  hb_bkt hb' = Some b' → bucket_rep (bucket_of key) b A → same_frame (bk_htree b) (bk_htree b') →
  bkt_inv Conf mc E K b' None (put (share (bucket_of key) A) key x) m gs G a →
  ∃ hs', with_bucket hs (bucket_of key) hb' = Some hs' ∧ store_rep hs' ready (put A key x).
Proof.
  intros Hr Hz Hrd Hrd' Hb (Hd & Hid & _) (Hd' & Hid' & _) Hi.
  apply (with_bucket_rep hs ready A (put A key x) (bucket_of key) hb hb' b' Hr Hz Hrd Hrd' Hb).
  - split; [congruence|]. split; [congruence|]. exists m, gs, G, a. by rewrite share_put_in.
  - intros j Hj. by apply share_put_out.
Qed.

Lemma hs_Set_spec hs ready A key v now r :
  store_rep hs ready A → K key → served_key ready key → append_ok Conf mc (mkRecord key v) →
  is_u16 (ValueHash (p_meta v)) → store_room hs key →
  let res := abs_set Conf (A !! key) key v in
  ∃ hs' r', hs_Set Conf mc E hs (prepare key false) v now r = Some (fst res, hs', r')
    ∧ store_rep hs' ready (put A key (snd res)).
Proof.
  intros Hr Hk Hs Ha Hvh Hroom. cbn zeta.
  destruct (served_bucket hs ready A key Hr Hs) as (hb & b & Hz & Hrd & Hb & Hrep).
  destruct (route_spec key) as (ki & Hrt & H1 & H2 & H3 & H4 & H5). unfold hs_Set. rewrite Hrt. cbn [mbind option_bind].
  rewrite H4, Hz. cbn [mbind option_bind]. unfold hb_ready in *. cbn [hb_count_set hb_State hb_bkt]. rewrite Hrd, Hb. cbn [negb mbind option_bind].
  pose proof Hrep as (Hd & Hid & m & gs & G & a & Hi).
  destruct (checkAndSet_spec Conf mc E K b None (share (bucket_of key) A) m gs G a ki v now r (se_env He) Hi
    (key_ok_of ki key b A Hk H1 H2 H3 H5 Hrep)) as (b' & sp & r' & m' & gs' & G' & a' & Hst & Hi' & [_ Hf _ _]);
    [by rewrite H1|done|by eapply Hroom|].
  rewrite H1, share_lookup in Hst, Hi' by done. cbn [mbind option_bind]. rewrite Hst. cbn [mbind option_bind].
  destruct (write_rep hs ready A key hb (hb_with (hb_count_set hb) b') b b' _ m' gs' G' a' Hr Hz Hrd Hrd eq_refl Hrep Hf Hi')
    as (hs' & -> & Hr'). cbn [mbind option_bind]. by exists hs', r'.
Qed.

Lemma hs_Incr_spec hs ready A key value now r :
  store_rep hs ready A → K key → served_key ready key → is_i64 value →
  (∀ n ver, is_i64 n → is_i32 ver → append_ok Conf mc (counter key n ver now)) → store_room hs key →
  let res := abs_incr (A !! key) key value now in
  ∃ hs' r', hs_Incr Conf mc E hs (prepare key false) value now r = Some (fst res, hs', r')
    ∧ store_rep hs' ready (put A key (snd res)).
Proof.
  intros Hr Hk Hs Hval Ha Hroom. cbn zeta.
  destruct (served_bucket hs ready A key Hr Hs) as (hb & b & Hz & Hrd & Hb & Hrep).
  destruct (route_spec key) as (ki & Hrt & H1 & H2 & H3 & H4 & H5). unfold hs_Incr. rewrite Hrt. cbn [mbind option_bind].
  rewrite H4, Hz. cbn [mbind option_bind]. rewrite Hrd, Hb. cbn [negb mbind option_bind].
  pose proof Hrep as (Hd & Hid & m & gs & G & a & Hi).
  destruct (incr_spec Conf mc E K b None (share (bucket_of key) A) m gs G a ki value now r (se_env He) Hi
    (key_ok_of ki key b A Hk H1 H2 H3 H5 Hrep) Hval) as (b' & sp & r' & m' & gs' & G' & a' & Hst & Hi' & [_ Hf _ _]);
    [by rewrite H1|by eapply Hroom|].
  rewrite H1, share_lookup in Hst, Hi' by done. cbn [mbind option_bind]. rewrite Hst. cbn [mbind option_bind].
  destruct (write_rep hs ready A key hb (hb_with hb b') b b' _ m' gs' G' a' Hr Hz Hrd Hrd eq_refl Hrep Hf Hi')
    as (hs' & -> & Hr'). cbn [mbind option_bind]. by exists hs', r'.
Qed.

(** ** A bucket that is not ready *)

Lemma with_bucket_get hs i hb hb' :
  zget (hs_buckets hs) i = Some hb → ∃ hs', with_bucket hs i hb' = Some hs' ∧ zget (hs_buckets hs') i = Some hb'.
Proof.
  intros Hz. unfold with_bucket, zset. pose proof Hz as [H0 Hl]%zget_Some. pose proof (lookup_lt_Some _ _ _ Hl) as Hlt.
  assert ((0 <=? i) && (i <? zlen (hs_buckets hs)) = true) as -> by (unfold zlen; lia). cbn [mbind option_bind].
  eexists. split; [done|]. apply zget_Some. split; [done|]. by apply list_lookup_insert_eq.
Qed.

Lemma hs_Get_unready hs key hb r :
  zget (hs_buckets hs) (bucket_of key) = Some hb → hb_ready hb = false →
  ∃ hs', hs_Get Conf mc E hs (prepare key false) false r = Some ((None, mkPos 0 0, None), hs', r).
Proof.
  intros Hz Hrd. destruct (route_spec key) as (ki & Hrt & _ & _ & _ & Hb & _).
  destruct (with_bucket_get hs _ hb (hb_count_get hb) Hz) as (hs' & Hw & _). exists hs'.
  unfold hs_Get. rewrite Hrt. cbn [mbind option_bind]. rewrite Hb, Hz. cbn [mbind option_bind].
  unfold hb_ready in *. change (hb_State (hb_count_get hb)) with (hb_State hb). rewrite Hrd. cbn [negb]. by rewrite Hw.
Qed.

Lemma hs_Set_unready hs key hb p now r :
  zget (hs_buckets hs) (bucket_of key) = Some hb → hb_ready hb = false →
  ∃ hs' r', hs_Set Conf mc E hs (prepare key false) p now r = Some (None, hs', r')
    ∧ zget (hs_buckets hs') (bucket_of key) = Some (hb_count_set hb).
Proof.
  intros Hz Hrd. destruct (route_spec key) as (ki & Hrt & _ & _ & _ & Hb & _).
  destruct (with_bucket_get hs _ hb (hb_count_set hb) Hz) as (hs' & Hw & Hz'). eexists hs', _. split; [|exact Hz'].
  unfold hs_Set. rewrite Hrt. cbn [mbind option_bind]. rewrite Hb, Hz. cbn [mbind option_bind].
  unfold hb_ready in *. change (hb_State (hb_count_set hb)) with (hb_State hb). rewrite Hrd. cbn [negb]. by rewrite Hw.
Qed.

(** ** Flushing *)

Lemma bucket_flush i b A force now r :
  bucket_rep i b A →
  ∃ ds r', ds_flush Conf (bk_datas b) (-1) force now r = Some (ds, r') ∧ bucket_rep i (with_datas b ds) A
    ∧ ds_newHead ds = ds_newHead (bk_datas b).
Proof.
  intros (Hd & Hid & m & gs & G & a & Hi). unfold ds_flush.
  destruct (flush_begin_spec Conf mc (bk_datas b) gs (-1) force now r) as (ds1 & todo & r1 & gs1 & -> & Hs1 & Hg1 & Hl1 & Hh1 & Hf1);
    [apply Hi|by rewrite (bi_len _ _ _ _ _ _ _ _ _ _ _ Hi)|]. cbn [mbind option_bind].
  destruct (flush_end_spec Conf mc ds1 gs1 todo r1 Hs1) as (ds2 & r2 & gs2 & -> & Hs2 & Hg2 & Hl2 & Hh2 & Hf2).
  exists ds2, r2. split; [done|]. split; [|congruence]. split; [done|]. split; [done|]. exists m, gs2, G, a.
  pose proof (inv_flush Conf mc E K _ _ _ _ _ _ _ _ _ _ Hi Hs1 Hg1 Hl1 Hf1) as Hi1.
  exact (inv_flush Conf mc E K _ _ _ _ _ _ _ _ _ _ Hi1 Hs2 Hg2 Hl2 Hf2).
Qed.

(** A list of buckets from number [i] on. *)
Definition buckets_rep (i : Z) (hbs : list HBucket) (A : contents) : Prop :=
  ∀ j hb, hbs !! j = Some hb →
    if hb_ready hb then ∃ b, hb_bkt hb = Some b ∧ bucket_rep (i + Z.of_nat j) b A else hb_bkt hb = None.

Lemma buckets_rep_cons i hb hbs A :
  buckets_rep i (hb :: hbs) A ↔
  (if hb_ready hb then ∃ b, hb_bkt hb = Some b ∧ bucket_rep i b A else hb_bkt hb = None) ∧ buckets_rep (i + 1) hbs A.
Proof.
  unfold buckets_rep. split.
  - intros H. split; [specialize (H 0%nat hb eq_refl); by rewrite Z.add_0_r in H|].
    intros j hb' Hj. specialize (H (S j) hb' Hj). by replace (i + 1 + Z.of_nat j) with (i + Z.of_nat (S j)) by lia.
  - intros [H1 H2] [|j] hb' Hj; [injection Hj as <-; by rewrite Z.add_0_r|].
    specialize (H2 j hb' Hj). by replace (i + Z.of_nat (S j)) with (i + 1 + Z.of_nat j) by lia.
Qed.

Lemma flush_buckets_spec hbs : ∀ i A force now r,
  buckets_rep i hbs A →
  ∃ hbs' r', flush_buckets Conf hbs force now r = Some (hbs', r') ∧ buckets_rep i hbs' A ∧ hb_ready <$> hbs' = hb_ready <$> hbs.
Proof.
  induction hbs as [|hb hbs IH]; intros i A force now r Hr; [by exists [], r|].
  apply buckets_rep_cons in Hr as [Hhb Hr]. cbn [flush_buckets].
  assert (∃ hb' r', match hb_bkt hb with
        | None => Some (hb, r)
        | Some b => '(ds, r) ← ds_flush Conf (bk_datas b) (-1) force now r; Some (hb_with hb (with_datas b ds), r)
        end = Some (hb', r') ∧ hb_ready hb' = hb_ready hb
      ∧ if hb_ready hb' then ∃ b, hb_bkt hb' = Some b ∧ bucket_rep i b A else hb_bkt hb' = None) as (hb' & r1 & -> & Hrd & Hhb').
  { destruct (hb_ready hb) eqn:Hrd; [|rewrite Hhb; exists hb, r; by rewrite Hrd].
    destruct Hhb as (b & -> & Hrep). destruct (bucket_flush i b A force now r Hrep) as (ds & r1 & -> & Hrep' & _).
    cbn [mbind option_bind]. eexists _, r1. split; [done|]. unfold hb_ready in *. cbn [hb_with hb_State hb_bkt]. rewrite Hrd.
    split; [done|]. by exists (with_datas b ds). }
  cbn [mbind option_bind]. destruct (IH (i + 1) A force now r1 Hr) as (hbs' & r2 & -> & Hr' & Heq). cbn [mbind option_bind].
  eexists _, r2. split; [done|]. split; [by apply buckets_rep_cons|]. cbn. by rewrite Hrd, Heq.
Qed.

Lemma store_rep_buckets hs ready A :
  store_rep hs ready A ↔ hb_ready <$> hs_buckets hs = ready ∧ buckets_rep 0 (hs_buckets hs) A.
Proof.
  unfold store_rep, buckets_rep. split; intros [Hr Hb]; (split; [done|]).
  - intros j hb Hj. specialize (Hb (Z.of_nat j) hb). rewrite Z.add_0_l. apply Hb. apply zget_Some. rewrite Nat2Z.id. by split; [lia|].
  - intros i hb Hi. apply zget_Some in Hi as [H0 Hi]. specialize (Hb _ _ Hi). by rewrite Z.add_0_l, Z2Nat.id in Hb.
Qed.

Lemma flushdatas_spec hs ready A force now r :
  store_rep hs ready A → ∃ hs' r', flushdatas Conf hs force now r = Some (hs', r') ∧ store_rep hs' ready A.
Proof.
  rewrite store_rep_buckets. intros [Hr Hb]. unfold flushdatas.
  destruct (flush_buckets_spec _ 0 A force now r Hb) as (hbs & r' & -> & Hb' & Heq). cbn [mbind option_bind].
  eexists _, _. split; [done|]. rewrite store_rep_buckets. cbn [hs_buckets]. by rewrite Heq.
Qed.

(** ** The empty store *)

(** The bucket [i] of a store without data. *)
Definition empty_hbucket (mergeChan : bool) (i : Z) (ready : bool) : option HBucket :=
  if ready then t ← newHTree (TreeDepth Conf) i (TreeHeight Conf);
    Some (mkHBucket BUCKET_STAT_READY (Some (empty_bucket t mergeChan)) 0 0)
  else Some (mkHBucket BUCKET_STAT_EMPTY None 0 0).
Fixpoint empty_hbuckets (mergeChan : bool) (i : Z) (ready : list bool) : option (list HBucket) :=
  match ready with
  | [] => Some []
  | rd :: ready => hb ← empty_hbucket mergeChan i rd; hbs ← empty_hbuckets mergeChan (i + 1) ready; Some (hb :: hbs)
  end.
Definition empty_store (mergeChan : bool) (ready : list bool) : option HStore :=
  hbs ← empty_hbuckets mergeChan 0 ready;
  Some (mkHStore hbs (if 0 <? TreeDepth Conf then newHTree 0 0 (TreeDepth Conf + 1) else None)).

Lemma empty_hbuckets_rep mergeChan ready : ∀ i hbs,
  conf_for Conf (TreeDepth Conf) (TreeHeight Conf) → empty_hbuckets mergeChan i ready = Some hbs →
  buckets_rep i hbs ∅ ∧ hb_ready <$> hbs = ready.
Proof.
  induction ready as [|rd ready IH]; intros i hbs Hc; cbn [empty_hbuckets]; [by intros [= <-]|].
  destruct (empty_hbucket mergeChan i rd) as [hb|] eqn:Hhb; [|done]. cbn [mbind option_bind].
  destruct (empty_hbuckets mergeChan (i + 1) ready) as [hbs'|] eqn:Hrec; [|done]. intros [= <-].
  destruct (IH _ _ Hc Hrec) as [Hrep Heq]. rewrite buckets_rep_cons. cbn. rewrite Heq.
  unfold empty_hbucket in Hhb. destruct rd; [|by simplify_eq/=].
  destruct (newHTree (TreeDepth Conf) i (TreeHeight Conf)) as [t|] eqn:Ht; [|done]. simplify_eq/=.
  split; [|done]. split; [|done]. eexists. split; [done|].
  destruct (newHTree_frame t _ _ _ Ht) as (Hd & Hb & _).
  destruct (empty_bucket_inv Conf mc E K t _ _ _ mergeChan (se_env He) Ht Hc) as (gs & G & a & Hi).
  split; [done|]. split; [done|]. exists ∅, gs, G, a. unfold share. by rewrite map_filter_empty.
Qed.

Lemma empty_store_rep mergeChan ready hs :
  conf_for Conf (TreeDepth Conf) (TreeHeight Conf) → empty_store mergeChan ready = Some hs → store_rep hs ready ∅.
Proof.
  unfold empty_store. intros Hc. destruct (empty_hbuckets mergeChan 0 ready) as [hbs|] eqn:Hh; [|done]. intros [= <-].
  rewrite store_rep_buckets. cbn [hs_buckets]. destruct (empty_hbuckets_rep _ _ _ _ Hc Hh) as [??]. done.
Qed.

End Spec.
