(* ===== verification/HStoreProps.v ===== *)
(** * What the server guarantees over the store

    The storage client over the store of buckets meets the laws of [ServerSpec], so
    a connection sees one map from keys to values, from the bytes of its requests
    to the bytes of the answers. *)

From stdpp Require Import gmap.
From S2P Require Import Prelude Hashing Strconv Config Cmem Key Item Fixtures Leaf HTree HTreeSpec HTreeMerkle.
From S2P Require Import HTreeProps HTreeDisk DataFile Data DataSpec DataLog HintFile Hint HintSpec HintProps.
From S2P Require Import Bucket BucketSpec BucketProps Protocol ProtocolProps Server ServerSpec HStore HStoreSpec.

(** The clock, the served buckets, the records by key. *)
Record ServerAbs := mkAbs { ab_now : Z; ab_ready : list bool; ab_map : gmap bytes (Record_ * Z) }.

(** What a get shows of a record: nothing of a deleted one. *)
Definition visible (x : option (Record_ * Z)) : option (Z * bytes) :=
  '(rec, _) ← x;
  if rec_ver rec <? 0 then None else Some (Flag (p_meta (r_Payload rec)), p_Body (r_Payload rec)).

(** The payload [Set] builds of an item: its expiry is the version. *)
Definition item_payload (it : McItem) : Payload :=
  mkPayload (mkMeta (u32 (mi_ReceiveTime it)) (u32 (mi_Flag it)) (i32 (mi_Exptime it)) 0 0) (mi_arr it).

Section Props.
Context (Conf : HStoreConfig) (mc : MCConfig) (E : Ext) (K : bytes → Prop) (err_details : StoreErr → bytes).

Abbreviation text := (err_text err_details).

Definition ab_put (c : ServerAbs) (k : bytes) (x : option (Record_ * Z)) : ServerAbs :=
  mkAbs (ab_now c) (ab_ready c) (put (ab_map c) k x).

(** [Set]: the version rule, with an error as its text. *)
Definition ab_set (c : ServerAbs) (k : bytes) (it : McItem) : (bool + bytes) * ServerAbs :=
  let res := abs_set Conf (ab_map c !! k) k (item_payload it) in
  (match fst res with Some e => inr (text e) | None => inl true end, ab_put c k (snd res)).
Definition ab_delete (c : ServerAbs) (k : bytes) : (bool + bytes) * ServerAbs :=
  let res := abs_set Conf (ab_map c !! k) k (GetPayloadForDelete (ab_now c)) in
  (inl (match fst res with Some _ => false | None => true end), ab_put c k (snd res)).
Definition ab_incr (c : ServerAbs) (k : bytes) (n : Z) : Z * ServerAbs :=
  let res := abs_incr (ab_map c !! k) k n (ab_now c) in (fst res, ab_put c k (snd res)).

(** A valid key of a served bucket. *)
Definition ab_key (c : ServerAbs) (k : bytes) : Prop :=
  K k ∧ IsValidKeyString k = true ∧ served_key Conf E (ab_ready c) k.

Definition hstore_model : StorageModel ServerAbs := {|
  sm_key := ab_key;
  sm_view c k := visible (ab_map c !! k);
  sm_set := ab_set;
  sm_delete := ab_delete;
  sm_incr := ab_incr;
  sm_set_ok c k it := append_ok Conf mc (mkRecord k (item_payload it));
  sm_delete_ok c k := append_ok Conf mc (mkRecord k (GetPayloadForDelete (ab_now c)));
  sm_incr_ok c k n := is_i64 n ∧ ∀ n ver, is_i64 n → is_i32 ver → append_ok Conf mc (counter k n ver (ab_now c))
|}.

Definition hv_rep (v : HServer) (c : ServerAbs) : Prop :=
  hv_now v = ab_now c ∧ store_rep Conf mc E K (hv_store v) (ab_ready c) (ab_map c).

Context (He : store_env Conf mc E K).

(** The rule refuses a write only with NOT_FOUND. *)
Lemma abs_set_err old k v e : fst (abs_set Conf old k v) = Some e → e = ErrNotFound.
Proof. unfold abs_set. repeat case_match; intros; simplify_eq/=; done. Qed.

Lemma valid_first k : IsValidKeyString k = true → ∃ c k', k = c :: k' ∧ (c =? 64) = false ∧ (c =? 63) = false.
Proof.
  unfold IsValidKeyString. destruct (_ || _); [done|]. destruct k as [|c k']; [done|].
  intros Hv. exists c, k'. destruct (c <=? 32), (c =? 63), (c =? 64); done.
Qed.

(** ** The client over any invariant of the store

    What a request needs of an invariant [R] of the store for the served buckets and the
    map: the request is served, and [R] holds after it. [fits] is asked of a
    write, with the value of a set. *)
Record keeps (R : HStore → list bool → gmap bytes (Record_ * Z) → Prop) (fits : ServerAbs → bytes → option Payload → Prop) : Prop := {
  kp_get hs ready A k r : R hs ready A → K k → served_key Conf E ready k →
    ∃ p pos hs' r', hs_Get Conf mc E hs (prepare k false) false r = Some ((p, pos, None), hs', r') ∧ R hs' ready A
      ∧ match A !! k with Some (rec, _) => ∃ q, p = Some q ∧ same_record rec (mkRecord k q) | None => p = None end;
  kp_set hs ready A k v now r : R hs ready A → K k → served_key Conf E ready k → append_ok Conf mc (mkRecord k v) →
    is_u16 (ValueHash (p_meta v)) → store_room Conf E hs k → fits (mkAbs now ready A) k (Some v) →
    ∃ hs' r', hs_Set Conf mc E hs (prepare k false) v now r = Some (fst (abs_set Conf (A !! k) k v), hs', r')
      ∧ R hs' ready (put A k (snd (abs_set Conf (A !! k) k v)));
  kp_incr hs ready A k value now r : R hs ready A → K k → served_key Conf E ready k → is_i64 value →
    (∀ n ver, is_i64 n → is_i32 ver → append_ok Conf mc (counter k n ver now)) → store_room Conf E hs k → fits (mkAbs now ready A) k None →
    ∃ hs' r', hs_Incr Conf mc E hs (prepare k false) value now r = Some (fst (abs_incr (A !! k) k value now), hs', r')
      ∧ R hs' ready (put A k (snd (abs_incr (A !! k) k value now)))
}.

Section Keeps.
Context (R : HStore → list bool → gmap bytes (Record_ * Z) → Prop) (fits : ServerAbs → bytes → option Payload → Prop) (Hk : keeps R fits).
Definition rep_by (v : HServer) (c : ServerAbs) : Prop := hv_now v = ab_now c ∧ R (hv_store v) (ab_ready c) (ab_map c).

Lemma client_Get_keeps v c k :
  rep_by v c → ab_key c k →
  ∃ res v', client_Get Conf mc E err_details v k = Some (inl res, v') ∧ rep_by v' c
    ∧ (λ it, (mi_Flag it, mi_Body it)) <$> res = visible (ab_map c !! k).
Proof.
  intros [Hn Hr] (HK & Hv & Hs). destruct (valid_first k Hv) as (c0 & k' & Hck & H1 & H2). unfold client_Get.
  assert (k !! 0%nat = Some c0) as -> by (by rewrite Hck). cbn [mbind option_bind]. rewrite H1, H2.
  destruct (kp_get _ _ Hk (hv_store v) (ab_ready c) (ab_map c) k (hv_rl v) Hr HK Hs) as (p & pos & hs' & r' & -> & Hr' & Hp). cbn [mbind option_bind].
  destruct (ab_map c !! k) as [[rec vh]|].
  - destruct Hp as (q & -> & (_ & Hb & _ & Hf & Hver)). cbn [r_Payload] in *. unfold visible, rec_ver. cbn [mbind option_bind].
    rewrite <- Hver. destruct (Ver (p_meta (r_Payload rec)) <? 0).
    + eexists _, _. by split_and!.
    + eexists _, _. split_and!; try done. cbn. unfold mi_Body. cbn. unfold p_Body in *. by rewrite Hf, Hb.
  - subst p. eexists _, _. by split_and!.
Qed.

Lemma client_GetMulti_keeps ks : ∀ v c acc,
  rep_by v c → Forall (ab_key c) ks →
  ∃ items v', client_GetMulti Conf mc E err_details v ks acc = Some (inl items, v') ∧ rep_by v' c
    ∧ ∀ k, items !! k = acc !! k ∧ (k ∈ ks → visible (ab_map c !! k) = None)
        ∨ k ∈ ks ∧ is_Some (visible (ab_map c !! k))
          ∧ (λ it, (mi_Flag it, mi_Body it)) <$> items !! k = visible (ab_map c !! k).
Proof.
  induction ks as [|k ks IH]; intros v c acc Hr Hks.
  { exists acc, v. split; [done|]. split; [done|]. intros k. left. split; [done|]. by intros ?%not_elem_of_nil. }
  apply Forall_cons in Hks as [Hk1 Hks]. cbn [client_GetMulti].
  destruct (client_Get_keeps v c k Hr Hk1) as (res & v1 & -> & Hr1 & Hv). cbn [mbind option_bind].
  destruct (IH v1 c (match res with Some item => <[k:=item]> acc | None => acc end) Hr1 Hks) as (items & v' & Hg & Hr' & Hi).
  exists items, v'. split; [by destruct res|]. split; [done|]. intros k'.
  destruct (Hi k') as [[Heq Hno]|(Hin & Hs & Heq)]; [|right; split; [by right|done]].
  destruct (decide (k' = k)) as [->|Hne].
  - destruct res as [it|]; cbn in Hv.
    + right. rewrite <- Hv, Heq, lookup_insert_eq. split; [by left|]. by split; [eexists|].
    + left. split; [done|]. by rewrite <- Hv.
  - left. split; [destruct res; [by rewrite lookup_insert_ne in Heq|done]|].
    intros [->|Hin]%elem_of_cons; [done|]. by apply Hno.
Qed.

Lemma client_GetMulti_shows v c ks :
  rep_by v c → Forall (ab_key c) ks →
  ∃ items v', client_GetMulti Conf mc E err_details v ks ∅ = Some (inl items, v') ∧ rep_by v' c
    ∧ ∀ k, (λ it, (mi_Flag it, mi_Body it)) <$> items !! k = if decide (k ∈ ks) then visible (ab_map c !! k) else None.
Proof.
  intros Hr Hks. destruct (client_GetMulti_keeps ks v c ∅ Hr Hks) as (items & v' & Hg & Hr' & Hi).
  exists items, v'. split; [done|]. split; [done|]. intros k. specialize (Hi k). rewrite lookup_empty in Hi.
  destruct (decide (k ∈ ks)) as [Hin|Hout]; destruct Hi as [[-> Hn]|(Hin' & _ & Hi)]; try done. by rewrite (Hn Hin).
Qed.

Lemma client_Set_keeps v c k it :
  rep_by v c → ab_key c k → append_ok Conf mc (mkRecord k (item_payload it)) → store_room Conf E (hv_store v) k → fits c k (Some (item_payload it)) →
  ∃ v', client_Set Conf mc E err_details v k it = Some (fst (ab_set c k it), v') ∧ rep_by v' (snd (ab_set c k it)).
Proof.
  intros [Hn Hr] (HK & Hv & Hs) Hok Hroom Hf. destruct c as [now ready A]. cbn [ab_now ab_ready ab_map] in *. unfold client_Set. rewrite Hv. cbn [negb].
  destruct (kp_set _ _ Hk (hv_store v) ready A k (item_payload it) (hv_now v) (hv_rl v)) as (hs' & r' & Hst & Hr');
    [done|done|done|done|by vm_compute|done|by rewrite Hn|].
  unfold item_payload in Hst at 1. rewrite Hst. cbn [mbind option_bind]. eexists. by split; [done|].
Qed.

Lemma client_Delete_keeps v c k :
  rep_by v c → ab_key c k → append_ok Conf mc (mkRecord k (GetPayloadForDelete (ab_now c))) → store_room Conf E (hv_store v) k →
  fits c k (Some (GetPayloadForDelete (ab_now c))) →
  ∃ v', client_Delete Conf mc E err_details v k = Some (fst (ab_delete c k), v') ∧ rep_by v' (snd (ab_delete c k)).
Proof.
  intros [Hn Hr] (HK & Hv & Hs) Hok Hroom Hf. destruct c as [now ready A]. cbn [ab_now ab_ready ab_map] in *. subst now.
  unfold client_Delete. rewrite Hv. cbn [negb].
  destruct (kp_set _ _ Hk (hv_store v) ready A k (GetPayloadForDelete (hv_now v)) (hv_now v) (hv_rl v)) as (hs' & r' & Hst & Hr');
    [done|done|done|done|by vm_compute|done|done|].
  rewrite Hst. cbn [mbind option_bind]. unfold ab_delete. cbn [fst snd ab_now ab_ready ab_map].
  destruct (abs_set _ _ _ _) as [[e|] x] eqn:Herr; cbn [fst snd] in *; [|by eexists].
  pose proof (abs_set_err (A !! k) k (GetPayloadForDelete (hv_now v)) e ltac:(by rewrite Herr)) as ->. by eexists.
Qed.

Lemma client_Incr_keeps v c k n :
  rep_by v c → ab_key c k → is_i64 n → (∀ n ver, is_i64 n → is_i32 ver → append_ok Conf mc (counter k n ver (ab_now c))) →
  store_room Conf E (hv_store v) k → fits c k None →
  ∃ v', client_Incr Conf mc E v k n = Some (inl (fst (ab_incr c k n)), v') ∧ rep_by v' (snd (ab_incr c k n)).
Proof.
  intros [Hn Hr] (HK & Hv & Hs) Hi Hok Hroom Hf. destruct c as [now ready A]. cbn [ab_now ab_ready ab_map] in *. subst now.
  unfold client_Incr. rewrite Hv. cbn [negb].
  destruct (kp_incr _ _ Hk (hv_store v) ready A k n (hv_now v) (hv_rl v)) as (hs' & r' & Hst & Hr'); [done..|].
  rewrite Hst. cbn [mbind option_bind]. unfold ab_incr. cbn [fst snd ab_now ab_ready ab_map]. by eexists.
Qed.

End Keeps.

Lemma store_rep_keeps : keeps (store_rep Conf mc E K) (λ _ _ _, True).
Proof.
  split.
  - intros. by apply hs_Get_spec.
  - intros. by apply hs_Set_spec.
  - intros. by apply hs_Incr_spec.
Qed.

(** The storage client over the store meets the laws the server's theorems need. *)
#[global] Instance hstore_laws : StorageLaws (SC := hstore_client Conf mc E err_details) hstore_model.
Proof.
  refine (Build_StorageLaws _ _ (hstore_client Conf mc E err_details) hstore_model hv_rep
    (λ v k, store_room Conf E (hv_store v) k) _ _ _ _ _ _ _ _).
  - intros c k (_ & Hv & _) ->. done.
  - intros v c r Hr. done.
  - intros v k r Hr. done.
  - intros v c k Hr Hk. exact (client_Get_keeps _ _ store_rep_keeps v c k Hr Hk).
  - intros v c ks Hr Hks. exact (client_GetMulti_shows _ _ store_rep_keeps v c ks Hr Hks).
  - intros v c k it nr Hr Hk Hok Hroom. exact (client_Set_keeps _ _ store_rep_keeps v c k it Hr Hk Hok Hroom I).
  - intros v c k Hr Hk Hok Hroom. exact (client_Delete_keeps _ _ store_rep_keeps v c k Hr Hk Hok Hroom I).
  - intros v c k n Hr Hk [Hi Hok] Hroom. exact (client_Incr_keeps _ _ store_rep_keeps v c k n Hr Hk Hi Hok Hroom I).
Defined.

(** ** Histories *)

Context (H : CHeap) (version : bytes) (sys : list (bytes * Z)).
Context (item_order : gmap bytes McItem → list (bytes * McItem)) (stat_order : gmap bytes Z → list (bytes * Z)).
Hypothesis (order_ok : ∀ m, item_order m ≡ₚ map_to_list m).

Abbreviation client := (hstore_client Conf mc E err_details).
Abbreviation hs_process := (Process (SC := client) mc version sys item_order stat_order).
Abbreviation hs_serve := (ServeOnce (SC := client) mc version sys item_order stat_order H).
Abbreviation hs_servable := (servable (SC := client) (SL := hstore_laws) hstore_model mc).
Abbreviation hs_answers := (answers hstore_model).

Definition hv_with_rl (v : HServer) (r : BeansdbRL) : HServer := hv_with v (hv_store v) r.
Definition hv_tick (v : HServer) (now : Z) : HServer := mkHServer (hv_store v) (hv_rl v) now (hv_gc v).

(** The states the store reaches from an empty one, with the map the requests so
    far amount to: requests of any connection, flushes, the clock, and what other
    connections count in the limiters. *)
Inductive server_reach (v0 : HServer) (c0 : ServerAbs) : HServer → ServerAbs → Prop :=
| sr_init : server_reach v0 c0 v0 c0
| sr_process v c req st resp v' st' c' :
    server_reach v0 c0 v c → hs_servable v c req → hs_process req v st = Some (Some resp, failed resp, v', st') →
    hs_answers c req resp c' → server_reach v0 c0 v' c'
| sr_limits v c r : server_reach v0 c0 v c → server_reach v0 c0 (hv_with_rl v r) c
| sr_flush v c force hs r :
    server_reach v0 c0 v c → flushdatas Conf (hv_store v) force (hv_now v) (hv_rl v) = Some (hs, r) →
    server_reach v0 c0 (hv_with v hs r) c
| sr_tick v c now :
    server_reach v0 c0 v c → server_reach v0 c0 (hv_tick v now) (mkAbs now (ab_ready c) (ab_map c)).

Lemma server_reach_rep v0 c0 v c : hv_rep v0 c0 → server_reach v0 c0 v c → hv_rep v c.
Proof.
  intros H0. induction 1 as [|v c req st resp v' st' c' _ Hr Hs Hp Ha|v c r _ Hr|v c force hs r _ [Hn Hr] Hf|v c now _ [Hn Hr]].
  - done.
  - destruct (Process_answers (SC := client) (SL := hstore_laws) hstore_model mc version sys item_order stat_order req v c st Hr Hs)
      as (resp' & v2 & st2 & c2 & Hp' & Ha' & Hr' & _). rewrite Hp in Hp'. simplify_eq.
    by rewrite (answers_det hstore_model c req resp' c' c2 Ha Ha').
  - exact Hr.
  - destruct (flushdatas_spec Conf mc E K (hv_store v) (ab_ready c) (ab_map c) force (hv_now v) (hv_rl v) Hr)
      as (hs' & r' & Hf' & Hr'). rewrite Hf in Hf'. simplify_eq. by split.
  - by split.
Qed.

(** A store without data serves the empty map. *)
Definition empty_server (hs : HStore) (r : BeansdbRL) (now : Z) : HServer := mkHServer hs r now false.
Lemma empty_server_rep mergeChan ready hs r now :
  conf_for Conf (TreeDepth Conf) (TreeHeight Conf) → empty_store Conf mergeChan ready = Some hs →
  hv_rep (empty_server hs r now) (mkAbs now ready ∅).
Proof. intros Hc Hs. split; [done|]. by eapply empty_store_rep. Qed.

Context (mergeChan : bool) (ready : list bool) (hs0 : HStore) (r0 : BeansdbRL) (now0 : Z).
Hypothesis (conf_ok : conf_for Conf (TreeDepth Conf) (TreeHeight Conf)).
Hypothesis (fresh : empty_store Conf mergeChan ready = Some hs0).

Abbreviation reachable := (server_reach (empty_server hs0 r0 now0) (mkAbs now0 ready ∅)).

(** C3. The server is a map from keys to values, on the wire: in every state the
    store reaches from an empty one by requests of any connections, flushes and
    the passing of time, the bytes of a get, set, add, replace, delete or incr
    request within the limits, sent on a connection that has served any requests
    before, are answered with exactly the bytes of the answer that the map of the
    requests so far gives (the visible values of the keys; STORED, DELETED,
    NOT_FOUND, the sum; nothing under noreply); the rest of the input is left for
    the next round, the connection stays open unless an error goes unreported
    under noreply, and the store goes on with the map the request changed. *)
Theorem server_refines_map v c req0 req b st now slow :
  reachable v c → req_ok mc H (hv_rl v) req → idle req0 req →
  (∀ req', as_received now req req' → hs_servable v c req') →
  ∃ out sv req' resp c', Request_Write req = Some (inl out)
    ∧ hs_serve req0 (out ++ b) v st now false slow false = Some sv
    ∧ as_received now req req' ∧ hs_answers c req' resp c' ∧ reachable (sv_store sv) c'
    ∧ sv_out sv = Response_Write resp (item_order (rs_Items resp))
    ∧ sv_rest sv = b ∧ sv_close sv = failed resp && rq_NoReply req ∧ rq_Item (sv_req sv) = None ∧ rq_NoReply (sv_req sv) = false.
Proof.
  intros Hr Hok Hidle Hs.
  assert (hv_rep v c) as Hrep by (eapply server_reach_rep; [by eapply empty_server_rep|done]).
  destruct (ServeOnce_answers (SC := client) (SL := hstore_laws) hstore_model mc H version sys item_order stat_order order_ok
    req0 req b v c st now slow Hrep Hok Hidle Hs)
    as (out & sv & req' & resp & c' & Hw & Hsv & Hrec & Ha & _ & Hout & Hrest & Hcl & _ & Hi & Hn & r1 & r2 & s2 & st2 & Hs' & Hp & Hst).
  exists out, sv, req', resp, c'. split_and!; try done. rewrite Hst.
  apply (sr_limits _ _ s2 c' r2). eapply sr_process; [|exact Hs'|exact Hp|exact Ha]. by apply (sr_limits _ _ v c r1).
Qed.

End Props.

(** ** A bucket that is not served *)


(** ** A concrete server *)

Lemma demo_store_env : store_env demo_conf DefaultMCConfig demo_ext demo_keys.
Proof. split; [apply demo_env|intros k; apply u32_range|by vm_compute]. Qed.

(** Bucket 4 of 16 is served. *)
Definition demo_ready : list bool := <[4%nat := true]> (replicate 16 false).
Definition demo_store : HStore :=
  match empty_store demo_conf false demo_ready with Some hs => hs | None => mkHStore [] None end.
Lemma demo_store_fresh : empty_store demo_conf false demo_ready = Some demo_store.
Proof. by vm_compute. Qed.
Lemma demo_conf_trees : conf_for demo_conf (TreeDepth demo_conf) (TreeHeight demo_conf).
Proof. by vm_compute. Qed.

Definition no_details (e : StoreErr) : bytes := bstr "error".
Abbreviation demo_serve := (ServeOnce (SC := hstore_client demo_conf DefaultMCConfig demo_ext no_details)
  DefaultMCConfig (bstr "v") [] map_to_list map_to_list demo_heap).

Definition set_hello : Request :=
  mkRequest 0 (bstr "set") [bstr "hello"] (Some (mkMcItem 0 5 0 0 (mkCArray (bstr "world") 0 0))) false.

Lemma demo_room : store_room demo_conf demo_ext (hv_store (empty_server demo_store ResetAll 1000)) (bstr "hello").
Proof.
  intros hb b Hz Hb. vm_compute in Hz. injection Hz as <-. cbn [hb_bkt] in Hb. injection Hb as <-. by vm_compute.
Qed.

Lemma set_hello_received req' :
  as_received 1000 set_hello req' →
  ∃ t arr, req' = mkRequest t (bstr "set") [bstr "hello"] (Some (mkMcItem 1000 5 0 0 arr)) false ∧ Body arr = bstr "world".
Proof.
  destruct req' as [t c ks it nr]. intros [(Hc & Hk & Hnr & Hi) Hrec]. cbn [set_hello rq_Cmd rq_Keys rq_NoReply rq_Item] in *.
  subst c ks nr. destruct it as [[rt f e cs arr]|]; [|by inversion Hi]. apply Some_Forall2_inj in Hi.
  destruct Hi as (Hf & He & Hcs & Hb). cbn in Hf, He, Hcs. subst f e cs.
  specialize (Hrec _ eq_refl ltac:(by vm_compute)). cbn in Hrec. subst rt. by exists t, arr.
Qed.

Lemma demo_payload_ok arr :
  Body arr = bstr "world" →
  append_ok demo_conf DefaultMCConfig (mkRecord (bstr "hello") (item_payload (mkMcItem 1000 5 0 0 arr))).
Proof. destruct arr as [body a c]. cbn [Body]. intros ->. apply append_okb_ok. by vm_compute. Qed.

Lemma server_refines_map_witness :
  ∃ out sv, Request_Write set_hello = Some (inl out)
    ∧ demo_serve newRequest (out ++ bstr "rest") (empty_server demo_store ResetAll 1000) NewStats 1000 false false false = Some sv
    ∧ sv_out sv = bstr "STORED" ++ crlf ∧ sv_rest sv = bstr "rest".
Proof.
  destruct (server_refines_map demo_conf DefaultMCConfig demo_ext demo_keys no_details demo_store_env demo_heap (bstr "v") []
    map_to_list map_to_list (λ _, reflexivity _) false demo_ready demo_store ResetAll 1000 demo_conf_trees demo_store_fresh
    (empty_server demo_store ResetAll 1000) (mkAbs 1000 demo_ready ∅) newRequest set_hello (bstr "rest") NewStats 1000 false)
    as (out & sv & req' & resp & c' & Hw & Hsv & Hrec & Ha & _ & Hout & Hrest & _).
  - apply sr_init.
  - apply ok_storage; [by vm_compute|by apply bstr_word|by vm_compute|by vm_compute|done|].
    split; [by vm_compute|left; by vm_compute|left; by vm_compute].
  - by split_and!.
  - intros req' Hreq. destruct (set_hello_received req' Hreq) as (t & arr & -> & Hb). apply sv_set.
    + by vm_compute.
    + split; [by left|]. by split; vm_compute.
    + by apply demo_payload_ok.
    + apply demo_room.
  - exists out, sv. split; [exact Hw|]. split; [exact Hsv|]. split; [|exact Hrest]. rewrite Hout.
    destruct (set_hello_received req' Hrec) as (t & arr & -> & Hb).
    inversion Ha; subst. destruct arr as [body a ca]. cbn [Body] in Hb. subst body.
    by vm_compute.
Defined.

