(* ===== verification/StoreLife.v ===== *)
(** * The life of the store (src/store/hstore.go)

    Starting the store from its home directory, changing its buckets when the routes
    change, closing it, and the entry points of garbage collection. A bucket that is open
    keeps the files of its directory ([dir_of]); the path of a bucket that is not is in
    [lf_home]. [None] is a panic, a fatal error, or a bucket that a failed [open] left half
    built ([lf_failed]), whose closing is not modelled. *)

From stdpp Require Import gmap.
From S2P Require Import Prelude Hashing Strconv Config Cmem Key Item Fixtures Leaf HTree HTreeDisk.
From S2P Require Import DataFile Data HintFile Hint HintMerge Bucket BucketOpen GC HStore.

(** ** Data *)

(** What is at the path of a bucket: nothing, something [os.Stat] fails on, a file that is
    no directory, a directory. *)
Inductive PathState := PNone | PStatErr | PFile | PDir (dir : BucketDir).

Inductive LifeErr := LStat | LNotDir | LOpen (e : StoreErr).

(** The part of an open bucket that requests do not use. *)
Record Extra := mkExtra { x_TreeID : HintID; x_NextGCChunk : Z; x_trees : gmap (Z * Z) bytes; x_gcfile : option bytes }.
Definition extra_of (o : OpenBucket) : Extra := mkExtra (op_TreeID o) (op_NextGCChunk o) (op_trees o) (op_gcfile o).
Definition open_of (b : Bucket) (x : Extra) : OpenBucket := mkOpen b (x_TreeID x) (x_NextGCChunk x) (x_trees x) (x_gcfile x).

(** A collection that was asked for and whose goroutine has not run yet. *)
Record gc_task := mkTask { tk_bucket : Z; tk_begin : Z; tk_end : Z; tk_merge : bool }.

(** The store with [Conf.BucketsStat], the buckets' other fields, the paths of the closed
    buckets, the table of running collections ([gcMgr.stat]) and the memory counters. *)
Record Life := mkLife {
  lf_store : HStore;
  lf_stat : list Z;
  lf_extra : gmap Z Extra;
  lf_home : gmap Z PathState;
  lf_gc : gmap Z GCState;
  lf_tasks : list gc_task;
  lf_failed : gset Z;
  lf_rl : BeansdbRL
}.

Definition lf_with_store (lf : Life) (hs : HStore) (r : BeansdbRL) : Life :=
  mkLife hs (lf_stat lf) (lf_extra lf) (lf_home lf) (lf_gc lf) (lf_tasks lf) (lf_failed lf) r.
Definition lf_with_stat (lf : Life) (stat : list Z) : Life :=
  mkLife (lf_store lf) stat (lf_extra lf) (lf_home lf) (lf_gc lf) (lf_tasks lf) (lf_failed lf) (lf_rl lf).
Definition lf_with_path (lf : Life) (i : Z) (p : PathState) : Life :=
  mkLife (lf_store lf) (lf_stat lf) (lf_extra lf) (<[i := p]> (lf_home lf)) (lf_gc lf) (lf_tasks lf) (lf_failed lf) (lf_rl lf).
Definition lf_with_gc (lf : Life) (gc : gmap Z GCState) (tasks : list gc_task) : Life :=
  mkLife (lf_store lf) (lf_stat lf) (lf_extra lf) (lf_home lf) gc tasks (lf_failed lf) (lf_rl lf).

(** The path of a bucket, open or not. *)
Definition path_at (lf : Life) (i : Z) : PathState :=
  match zget (hs_buckets (lf_store lf)) i ≫= hb_bkt, lf_extra lf !! i with
  | Some b, Some x => PDir (dir_of (open_of b x))
  | _, _ => default PNone (lf_home lf !! i)
  end.

Section Life.
Context (Conf : HStoreConfig) (mc : MCConfig) (E : Ext).
(** The collision tables that the YAML package reads from the directories. *)
Context (collisions : Z → CollisionTable).

(** ** Starting *)

(** [scanBuckets] at one bucket: the path after it and the state of the bucket. A
    directory without data is removed, unless there is one bucket only. *)
Definition scan_bucket (p : PathState) : (PathState * Z) + LifeErr :=
  match p with
  | PNone => inl (PNone, BUCKET_STAT_EMPTY)
  | PStatErr => inr LStat
  | PFile => inr LNotDir
  | PDir d =>
      if bool_decide (bd_data d = ∅) then inl (if 1 <? NumBucket Conf then PNone else PDir d, BUCKET_STAT_EMPTY)
      else inl (PDir d, BUCKET_STAT_NOT_EMPTY)
  end.

Definition allocBucket (p : PathState) : PathState + LifeErr :=
  match p with
  | PNone => inl (PDir empty_dir)
  | PStatErr => inr LStat
  | PFile | PDir _ => inl p
  end.

Definition open_path (i : Z) (p : PathState) (mergeChan : bool) (now : Z) (r : BeansdbRL) : option ((OpenBucket + LifeErr) * BeansdbRL) :=
  match p with
  | PDir d =>
      '(res, r) ← bkt_open Conf mc E i d (collisions i) mergeChan now r;
      Some (match res with inl o => inl o | inr e => inr (LOpen e) end, r)
  | _ => Some (inr LNotDir, r)
  end.

(** The buckets [i], [i+1], ... of [scanBuckets]: paths and states. *)
Fixpoint scanBuckets (paths : list PathState) : list (PathState * Z) + LifeErr :=
  match paths with
  | [] => inl []
  | p :: paths =>
      match scan_bucket p with
      | inr e => inr e
      | inl ps => match scanBuckets paths with inl pss => inl (ps :: pss) | inr e => inr e end
      end
  end.

(** The states the buckets get: ready when the routes want them, with their directory
    made when it is not found. *)
Fixpoint plan_buckets (pss : list (PathState * Z)) (stat : list Z) (i : Z) : option (list (PathState * Z) + LifeErr) :=
  match pss with
  | [] => Some (inl [])
  | (p, st) :: pss =>
      s ← zget stat i;
      let need := 0 <? s in
      let found := BUCKET_STAT_NOT_EMPTY <=? st in
      match (if need then if found then inl (p, BUCKET_STAT_READY)
                          else match allocBucket p with inl p => inl (p, BUCKET_STAT_READY) | inr e => inr e end
             else inl (p, st)) with
      | inr e => Some (inr e)
      | inl ps =>
          rest ← plan_buckets pss stat (i + 1);
          Some (match rest with inl pss => inl (ps :: pss) | inr e => inr e end)
      end
  end.

(** Opening the buckets that are wanted. They are opened by goroutines that share the
    memory counters only; here they run one after the other. All of them run, and an error
    of any of them is the error of the store. *)
Fixpoint open_buckets (pss : list (PathState * Z)) (stat : list Z) (i : Z) (mergeChan : bool) (now : Z) (r : BeansdbRL)
    : option (list HBucket * gmap Z Extra * gmap Z PathState * list LifeErr * BeansdbRL) :=
  match pss with
  | [] => Some ([], ∅, ∅, [], r)
  | (p, st) :: pss =>
      s ← zget stat i;
      '(hb, x, p, err, r) ←
        (if 0 <? s then
           '(res, r) ← open_path i p mergeChan now r;
           Some (match res with
                 | inl o => (mkHBucket st (Some (op_bkt o)) 0 0, Some (extra_of o), None, [], r)
                 | inr e => (mkHBucket st None 0 0, None, Some p, [e], r)
                 end)
         else Some (mkHBucket st None 0 0, None, Some p, [], r));
      '(hbs, xs, home, errs, r) ← open_buckets pss stat (i + 1) mergeChan now r;
      Some (hb :: hbs, match x with Some x => <[i := x]> xs | None => xs end,
            match p with Some p => <[i := p]> home | None => home end, err ++ errs, r)
  end.

Definition bucket_range : list Z := Z.of_nat <$> seq 0 (Z.to_nat (NumBucket Conf)).

(** [NewHStore] over a home directory; [mergeChan] is nil here. *)
Definition NewHStore (home : gmap Z PathState) (stat : list Z) (now : Z) : option (Life + LifeErr) :=
  let r := ResetAll in
  match scanBuckets ((λ i, default PNone (home !! i)) <$> bucket_range) with
  | inr e => Some (inr e)
  | inl pss =>
      plan ← plan_buckets pss stat 0;
      match plan with
      | inr e => Some (inr e)
      | inl pss =>
          '(hbs, xs, home, errs, r) ← open_buckets pss stat 0 false now r;
          match errs with
          | e :: _ => Some (inr e)
          | [] =>
              t ← (if 0 <? TreeDepth Conf then t ← newHTree 0 0 (TreeDepth Conf + 1); Some (Some t) else Some None);
              Some (inl (mkLife (mkHStore hbs t) stat xs home ∅ [] ∅ r))
          end
      end
  end.

(** ** Routes that change *)

Definition set_bucket (lf : Life) (i : Z) (hb : HBucket) : option Life :=
  hs ← with_bucket (lf_store lf) i hb; Some (lf_with_store lf hs (lf_rl lf)).
Definition set_extra (lf : Life) (i : Z) (x : option Extra) : Life :=
  mkLife (lf_store lf) (lf_stat lf) (match x with Some x => <[i := x]> (lf_extra lf) | None => delete i (lf_extra lf) end)
    (lf_home lf) (lf_gc lf) (lf_tasks lf) (lf_failed lf) (lf_rl lf).
Definition set_failed (lf : Life) (i : Z) (failed : bool) : Life :=
  mkLife (lf_store lf) (lf_stat lf) (lf_extra lf) (lf_home lf) (lf_gc lf) (lf_tasks lf)
    (if failed then {[i]} ∪ lf_failed lf else lf_failed lf ∖ {[i]}) (lf_rl lf).

(** Loading bucket [i]. [open] does not look whether the bucket is open already, and
    replaces its data and hints before it reads anything: the bucket that an [open] fails
    on keeps none of its old ones. *)
Definition load_bucket (lf : Life) (i : Z) (mergeChan : bool) (now : Z) : option (Life * option LifeErr) :=
  hb ← zget (hs_buckets (lf_store lf)) i;
  match allocBucket (path_at lf i) with
  | inr e => Some (lf, Some e)
  | inl p =>
      '(res, r) ← open_path i p mergeChan now (lf_rl lf);
      let lf := lf_with_store lf (lf_store lf) r in
      match res with
      | inr e =>
          lf ← set_bucket (lf_with_path lf i p) i (mkHBucket (hb_State hb) None (hb_NumGet hb) (hb_NumSet hb));
          Some (set_failed (set_extra lf i None) i true, Some e)
      | inl o =>
          lf ← set_bucket lf i (mkHBucket BUCKET_STAT_READY (Some (op_bkt o)) (hb_NumGet hb) (hb_NumSet hb));
          stat ← zset (lf_stat lf) i BUCKET_STAT_READY;
          Some (lf_with_stat (set_failed (set_extra lf i (Some (extra_of o))) i false) stat, None)
      end
  end.

(** Unloading bucket [i]: it stops serving, is closed and forgotten, with its counters. *)
Definition unload_bucket (lf : Life) (i : Z) (now : Z) : option Life :=
  stat ← zset (lf_stat lf) i BUCKET_STAT_EMPTY;
  let lf := lf_with_stat lf stat in
  hb ← zget (hs_buckets (lf_store lf)) i;
  b ← hb_bkt hb;
  x ← lf_extra lf !! i;
  '(o, r) ← bkt_close Conf (open_of b x) now (lf_rl lf);
  lf ← set_bucket (lf_with_store (lf_with_path lf i (PDir (dir_of o))) (lf_store lf) r) i (mkHBucket BUCKET_STAT_EMPTY None 0 0);
  Some (set_extra lf i None).

(** [ChangeRoute] for the buckets [ids]: those loaded and unloaded, and the error that
    stopped it. *)
Fixpoint change_route (ids : list Z) (newstat : list Z) (lf : Life) (mergeChan : bool) (now : Z)
    : option (Life * list Z * list Z * option LifeErr) :=
  match ids with
  | [] => Some (lf, [], [], None)
  | i :: ids =>
      oldc ← zget (lf_stat lf) i;
      newc ← zget newstat i;
      if newc =? oldc then change_route ids newstat lf mergeChan now
      else if BUCKET_STAT_NOT_EMPTY <=? newc then
        '(lf, err) ← load_bucket lf i mergeChan now;
        match err with
        | Some e => Some (lf, [], [], Some e)
        | None => '(lf, ld, ul, err) ← change_route ids newstat lf mergeChan now; Some (lf, i :: ld, ul, err)
        end
      else
        lf ← unload_bucket lf i now;
        '(lf, ld, ul, err) ← change_route ids newstat lf mergeChan now; Some (lf, ld, i :: ul, err)
  end.
Definition ChangeRoute (lf : Life) (newstat : list Z) (mergeChan : bool) (now : Z) : option (Life * list Z * list Z * option LifeErr) :=
  change_route bucket_range newstat lf mergeChan now.

(** ** Closing *)

Fixpoint close_buckets (ids : list Z) (lf : Life) (now : Z) : option Life :=
  match ids with
  | [] => Some lf
  | i :: ids =>
      hb ← zget (hs_buckets (lf_store lf)) i;
      if bool_decide (i ∈ lf_failed lf) then None else
      match hb_bkt hb with
      | None => close_buckets ids lf now
      | Some b =>
          x ← lf_extra lf !! i;
          '(o, r) ← bkt_close Conf (open_of b x) now (lf_rl lf);
          lf ← set_bucket (lf_with_store lf (lf_store lf) r) i (hb_with hb (op_bkt o));
          close_buckets ids (set_extra lf i (Some (extra_of o))) now
      end
  end.
Definition hs_Close (lf : Life) (now : Z) : option Life := close_buckets bucket_range lf now.

(** ** The background tasks *)

(** [HintDumper]: the merge channel is made, for the hints of all buckets; then in every
    turn the hints of the ready buckets are dumped. The result also says in which buckets a
    merge was started. *)
Definition hm_with_chan (h : hintMgr) (chan : bool) : hintMgr :=
  mkHintMgr (hm_maxChunkID h) (hm_chunks h) (hm_maxDumpedHintID h) (hm_maxDumpableChunkID h) (hm_merged h) (hm_state h)
    (hm_collisions h) chan (hm_disk h) (hm_mdisk h).
Definition HintDumper_start (hs : HStore) : HStore :=
  mkHStore ((λ hb, match hb_bkt hb with
              | Some b => hb_with hb (with_hints b (hm_with_chan (bk_hints b) true))
              | None => hb
              end) <$> hs_buckets hs) (hs_htree hs).
Fixpoint dump_buckets (hbs : list HBucket) (now : Z) : option (list HBucket * list bool) :=
  match hbs with
  | [] => Some ([], [])
  | hb :: hbs =>
      '(hb, start) ← (if hb_ready hb then
                        b ← hb_bkt hb;
                        '(_, h, start) ← dumpAndMerge Conf (bk_hints b) false now;
                        Some (hb_with hb (with_hints b h), start)
                      else Some (hb, false));
      '(hbs, starts) ← dump_buckets hbs now;
      Some (hb :: hbs, start :: starts)
  end.
Definition HintDumper_turn (hs : HStore) (now : Z) : option (HStore * list bool) :=
  '(hbs, starts) ← dump_buckets (hs_buckets hs) now; Some (mkHStore hbs (hs_htree hs), starts).

(** [Flusher]: a turn, after a time or when a write asked for it. *)
Definition Flusher_turn (hs : HStore) (now : Z) (r : BeansdbRL) : option (HStore * BeansdbRL) := flushdatas Conf hs false now r.

(** ** Garbage collection *)

Inductive GCErr := GCBadBucket | GCNoData | GCRunning | GCRange (e : gc_range_err).

(** [GC]: the range, and the collection that is to start unless [pretend]. *)
Definition hs_GC (lf : Life) (bucketID beginChunkID endChunkID noGCDays : Z) (merge pretend : bool) (now : Z)
    : option ((Z * Z + GCErr) * Life) :=
  if NumBucket Conf <=? bucketID then Some (inr GCBadBucket, lf)
  else
    hb ← zget (hs_buckets (lf_store lf)) bucketID;
    if negb (hb_ready hb) then Some (inr GCNoData, lf)
    else if bool_decide (is_Some (lf_gc lf !! bucketID)) then Some (inr GCRunning, lf)
    else
      b ← hb_bkt hb;
      x ← lf_extra lf !! bucketID;
      range ← gcCheckRange Conf (open_of b x) beginChunkID endChunkID noGCDays now;
      match range with
      | inr e => Some (inr (GCRange e), lf)
      | inl (first, last) =>
          Some (inl (first, last),
                if pretend then lf else lf_with_gc lf (lf_gc lf) (lf_tasks lf ++ [mkTask bucketID first last merge]))
      end.

(** The goroutine enters its run into the table of running collections. *)
Definition gc_register (lf : Life) : Life :=
  match lf_tasks lf with
  | [] => lf
  | t :: ts => lf_with_gc lf (<[tk_bucket t := mkGC (tk_begin t) (tk_end t) 0 0 None false zeroFileState]> (lf_gc lf)) ts
  end.
Definition gc_unregister (lf : Life) (bucketID : Z) : Life := lf_with_gc lf (delete bucketID (lf_gc lf)) (lf_tasks lf).

(** [CancelGC]: where the run was, or -1. *)
Definition CancelGC (lf : Life) (bucketID : Z) : Z * Z * Life :=
  match getBucket (lf_store lf) bucketID, lf_gc lf !! bucketID with
  | Some _, Some gc => (gc_Src gc, gc_Dst gc, lf_with_gc lf (<[bucketID := gc_cancel gc]> (lf_gc lf)) (lf_tasks lf))
  | _, _ => (-1, -1, lf)
  end.

Definition IsGCRunning (lf : Life) : bool := bool_decide (lf_gc lf ≠ ∅).

(** The chunks with data a run has still to visit ([fetchRemain] of [GCBuckets]). *)
Fixpoint fetchRemain (cs : list dataChunk) (current : Z) (n : nat) : option Z :=
  match n with
  | O => Some 0
  | S n => dc ← zget cs current; m ← fetchRemain cs (current + 1) n; Some (if 0 <? dc_size dc then 1 + m else m)
  end.
Definition gc_remain (lf : Life) (bucketID : Z) : option Z :=
  gc ← lf_gc lf !! bucketID;
  hb ← zget (hs_buckets (lf_store lf)) bucketID;
  b ← hb_bkt hb;
  fetchRemain (ds_chunks (bk_datas b)) (gc_Src gc) (Z.to_nat (gc_End gc + 1 - gc_Src gc)).

(** ** What the buckets report *)

(** [GetBucketInfo]: a bucket that is not served is a nil dereference. *)
Record BucketReport := mkReport { br_Pos : Position; br_HintState : Z; br_MaxDumped : HintID; br_NumGet : Z; br_NumSet : Z }.
Definition getInfo (hb : HBucket) : option BucketReport :=
  b ← hb_bkt hb;
  let head := ds_newHead (bk_datas b) in
  dc ← zget (ds_chunks (bk_datas b)) head;
  Some (mkReport (mkPos head (dc_size dc)) (hm_state (bk_hints b)) (hm_maxDumpedHintID (bk_hints b)) (hb_NumGet hb) (hb_NumSet hb)).
Definition GetBucketInfo (lf : Life) (bucketID : Z) : option BucketReport :=
  hb ← getBucket (lf_store lf) bucketID; getInfo hb.

Definition GetNumCmdByBuckets (lf : Life) : option (list (Z * Z * Z)) :=
  mapM (λ i, hb ← zget (hs_buckets (lf_store lf)) i; Some (hb_State hb, hb_NumGet hb, hb_NumSet hb)) bucket_range.

(** [GetCollisionsByBucket], before the YAML package prints the table. *)
Definition GetCollisionsByBucket (lf : Life) (bucketID : Z) : option (option CollisionTable) :=
  hb ← zget (hs_buckets (lf_store lf)) bucketID;
  if hb_ready hb then b ← hb_bkt hb; Some (Some (hm_collisions (bk_hints b))) else Some None.

End Life.
