(* ===== verification/StoreLifeSpec.v ===== *)
(** * What starting the store guarantees

    A store that starts from directories with data files and whatever a crash left of
    their hint files and trees serves the map that the logs of its buckets amount to. *)

From stdpp Require Import gmap.
From S2P Require Import Prelude Hashing Strconv Config Cmem Key Item Fixtures Leaf HTree HTreeSpec HTreeMerkle.
From S2P Require Import HTreeProps HTreeDisk DataFile Data DataSpec DataLog HintFile Hint HintSpec HintProps HintMerge.
From S2P Require Import Bucket BucketSpec BucketOpen BucketOpenSpec BucketRecover Session Restart GC Server ServerSpec HStore HStoreSpec StoreLife.

Section Start.
Context (Conf : HStoreConfig) (mc : MCConfig) (E : Ext) (K : bytes → Prop) (collisions : Z → CollisionTable).
Context (He : store_env Conf mc E K).
Hypothesis (conf_ok : conf_for Conf (TreeDepth Conf) (TreeHeight Conf)).
Hypothesis (depth_ok : TreeDepth Conf <= 2).
Hypothesis (buckets_ok : NumBucket Conf = 16 ^ TreeDepth Conf).
Hypothesis (no_collisions : ∀ i, ct_Items (collisions i) = ∅).

Abbreviation bucket_of := (HStoreSpec.bucket_of Conf E).

(** ** Logs *)

(** The record [rec0] was written, compressed or not, as [rec] into bucket [i]. *)
Record rec_pair (i : Z) (rec0 rec : Record_) : Prop := {
  rp_append : append_ok Conf mc rec0;
  rp_packed : packed E rec0 rec;
  rp_key : K (r_Key rec0);
  rp_bkt : bucket_of (r_Key rec0) = i
}.

(** Hint files and trees as a crash may leave them. *)
Definition index_ok (i : Z) (L0 L : list (list Record_)) (d : BucketDir) : Prop :=
  ∀ t, newHTree (TreeDepth Conf) i (TreeHeight Conf) = Some t → dir_ok Conf E K t L0 L d.

Lemma empty_index_ok i L0 L : index_ok i L0 L empty_dir.
Proof. intros t _. by apply no_index_ok. Qed.

(** The path of bucket [i] holds the log [L] of the records [L0]. *)
Record holds_log (i : Z) (L0 L : list (list Record_)) (p : PathState) : Prop := {
  hl_pairs : Forall2 (Forall2 (rec_pair i)) L0 L;
  hl_log : log_ok mc L;
  hl_path : match p with
    | PNone => files_hold ∅ L
    | PDir d => files_hold (bd_data d) L ∧ index_ok i L0 L d
    | _ => False
    end
}.

(** The contents of all buckets. *)
Context (logs : Z → list (list Record_) * list (list Record_)).
Definition log_map (i : Z) : gmap bytes (Record_ * Z) := replay (mjoin (fst (logs i))).
Definition all_logs : gmap bytes (Record_ * Z) := foldr (λ i A, log_map i ∪ A) ∅ (bucket_range Conf).

Lemma live_all_logs : live all_logs = all_logs.
Proof.
  clear. apply live_id. unfold all_logs. intros key x. induction (bucket_range Conf) as [|i l IH]; [done|]. cbn [foldr].
  intros [Hx|[_ Hx]]%lookup_union_Some_raw; [by eapply replay_positive|by apply IH].
Qed.

Lemma replay_keys i recs0 recs : Forall2 (rec_pair i) recs0 recs → ∀ A key,
  (∀ key, is_Some (A !! key) → bucket_of key = i) → is_Some (foldl replay_rec A recs0 !! key) → bucket_of key = i.
Proof.
  induction 1 as [|rec0 rec recs0 recs Hp Hps IH]; intros A key HA Hk; [by apply HA|]. cbn [foldl] in Hk.
  eapply IH; [|exact Hk]. intros key' Hk'. unfold replay_rec in Hk'. destruct (0 <? rec_ver rec0).
  - destruct (decide (key' = r_Key rec0)) as [->|Hne]; [apply Hp|]. rewrite lookup_insert_ne in Hk' by done. by apply HA.
  - destruct (decide (key' = r_Key rec0)) as [->|Hne]; [rewrite lookup_delete_eq in Hk'; by destruct Hk'|].
    rewrite lookup_delete_ne in Hk' by done. by apply HA.
Qed.

Lemma log_map_keys i L p key :
  holds_log i (fst (logs i)) L p → is_Some (log_map i !! key) → bucket_of key = i.
Proof.
  intros [Hp _ _] Hk. unfold log_map, replay in Hk. eapply (replay_keys i _ (mjoin L)); [|intros k [x Hx]; by rewrite lookup_empty in Hx|exact Hk].
  clear Hk. induction Hp as [|a b L0 L' Hab _ IH]; [constructor|]. cbn. by apply Forall2_app.
Qed.

Definition homes_ok (home : gmap Z PathState) : Prop :=
  ∀ i, 0 <= i < NumBucket Conf → holds_log i (fst (logs i)) (snd (logs i)) (default PNone (home !! i)).

Lemma bucket_range_elem i : i ∈ bucket_range Conf ↔ 0 <= i < NumBucket Conf.
Proof.
  clear He conf_ok depth_ok buckets_ok no_collisions. unfold bucket_range. rewrite list_elem_of_fmap. setoid_rewrite elem_of_seq. split.
  - intros (j & -> & Hj). lia.
  - intros Hi. exists (Z.to_nat i). lia.
Qed.

Lemma all_logs_lookup home key :
  homes_ok home → 0 <= bucket_of key < NumBucket Conf → all_logs !! key = log_map (bucket_of key) !! key.
Proof.
  intros Hh Hb. unfold all_logs.
  assert (∀ l, (∀ i, i ∈ l → 0 <= i < NumBucket Conf) →
    foldr (λ i A, log_map i ∪ A) ∅ l !! key = if decide (bucket_of key ∈ l) then log_map (bucket_of key) !! key else None) as H.
  { induction l as [|i l IH]; intros Hl; [done|]. cbn [foldr]. rewrite lookup_union, IH by set_solver.
    destruct (decide (i = bucket_of key)) as [->|Hne].
    - rewrite (decide_True (P := bucket_of key ∈ bucket_of key :: l)) by set_solver. 
      by case_decide; destruct (log_map (bucket_of key) !! key).
    - assert (log_map i !! key = None) as ->.
      { apply eq_None_not_Some. intros Hs. apply Hne. symmetry. eapply log_map_keys; [|exact Hs]. apply Hh, Hl. set_solver. }
      transitivity (if decide (bucket_of key ∈ l) then log_map (bucket_of key) !! key else None); [by case_decide; [destruct (log_map (bucket_of key) !! key)|]|]. case_decide; case_decide; set_solver. }
  rewrite H by (intros i; apply bucket_range_elem). by rewrite decide_True by (by apply bucket_range_elem).
Qed.

Lemma share_logs home i :
  homes_ok home → 0 <= i < NumBucket Conf → share Conf E i all_logs = log_map i.
Proof.
  intros Hh Hi. apply map_eq. intros key. destruct (decide (bucket_of key = i)) as [Hb|Hb].
  - rewrite share_lookup by done. rewrite (all_logs_lookup home) by (done || lia). by rewrite Hb.
  - transitivity (@None (Record_ * Z)).
    + unfold share. apply map_lookup_filter_None. right. intros x _. exact Hb.
    + symmetry. apply eq_None_not_Some. intros Hs. apply Hb. eapply log_map_keys; [by apply Hh|exact Hs].
Qed.

(** ** Opening *)

Lemma tree_of i : ∃ t, newHTree (TreeDepth Conf) i (TreeHeight Conf) = Some t
  ∧ ht_depth t = TreeDepth Conf ∧ ht_bucketID t = i.
Proof.
  destruct conf_ok as (Hd & Hh & Hl). apply zget_Some_lt in Hl. change (zlen KHASH_LENS) with 8 in Hl.
  unfold newHTree, MAX_DEPTH. rewrite (proj2 (Z.ltb_ge _ _)), (proj2 (Z.leb_gt _ _)) by lia.
  eexists. split; [done|]. done.
Qed.

Lemma rec_pair_log i t rec0 rec :
  ht_depth t = TreeDepth Conf → ht_bucketID t = i → rec_pair i rec0 rec → log_pair Conf mc E K t rec0 rec.
Proof.
  intros Hd Hb [H1 H2 H3 H4]. split; try done. split; [by apply (getKeyHash_range Conf mc E K He)|]. by rewrite Hd, Hb.
Qed.

(** The contents of one bucket replaced. *)
Definition with_share (i : Z) (Ai A : gmap bytes (Record_ * Z)) : gmap bytes (Record_ * Z) :=
  Ai ∪ filter (λ p, bucket_of p.1 ≠ i) A.
Definition own_share (i : Z) (Ai : gmap bytes (Record_ * Z)) : Prop := ∀ key, is_Some (Ai !! key) → bucket_of key = i.

Lemma with_share_lookup i Ai A key :
  own_share i Ai → with_share i Ai A !! key = if decide (bucket_of key = i) then Ai !! key else A !! key.
Proof.
  intros Ho. unfold with_share. rewrite lookup_union. case_decide as Hb.
  - rewrite map_lookup_filter_None_2; [by destruct (Ai !! key)|]. right. intros x _ Hne. by apply Hne.
  - assert (Ai !! key = None) as -> by (apply eq_None_not_Some; intros Hs; by apply Hb, Ho). rewrite (left_id None _).
    destruct (A !! key) as [x|] eqn:Hx; [by apply map_lookup_filter_Some_2|]. apply map_lookup_filter_None_2. by left.
Qed.

Lemma share_with i Ai A j : own_share i Ai → share Conf E j (with_share i Ai A) = if decide (j = i) then Ai else share Conf E j A.
Proof.
  intros Ho. apply map_eq. intros key. destruct (decide (bucket_of key = j)) as [Hb|Hb].
  - rewrite share_lookup, with_share_lookup by done. rewrite Hb. case_decide; [done|]. by rewrite share_lookup.
  - assert (∀ B, share Conf E j B !! key = None) as Hn.
    { intros B. unfold share. apply map_lookup_filter_None. right. intros x _. exact Hb. }
    rewrite Hn. case_decide as Hj; [|by rewrite Hn]. symmetry. apply eq_None_not_Some. intros Hs. apply Hb. subst j. by apply Ho.
Qed.

Lemma live_live A : live (live A) = live A.
Proof. apply map_eq. intros key. rewrite !live_lookup. destruct (A !! key) as [x|]; [|done]. by destruct (0 <? rec_ver x.1) eqn:Hx; rewrite ?Hx. Qed.

Lemma live_with_share i Ai A : own_share i Ai → live Ai = share Conf E i A → live (with_share i Ai A) = live A.
Proof.
  intros Ho Hl. apply map_eq. intros key. destruct (decide (bucket_of key = i)) as [Hb|Hb].
  - transitivity (live Ai !! key); [rewrite !live_lookup, with_share_lookup by done; by rewrite decide_True|].
    rewrite <- live_live, Hl, !live_lookup. by rewrite share_lookup.
  - rewrite !live_lookup, with_share_lookup by done. by rewrite decide_False.
Qed.

(** A bucket in a session with the contents [C]. *)
Definition bucket_sess (i : Z) (b : Bucket) (x : Extra) (C : gmap bytes (Record_ * Z)) : Prop :=
  ∃ t old H0 R0 m gs r, newHTree (TreeDepth Conf) i (TreeHeight Conf) = Some t
    ∧ session Conf mc E K t old (x_TreeID x) H0 R0 (mkBktState b None r) C m gs ∧ (old = [] → x_trees x = ∅).

(** A bucket opened from a log. *)
Lemma open_path_ok i p d mergeChan now r :
  holds_log i (fst (logs i)) (snd (logs i)) p → 0 <= i < NumBucket Conf → now ≠ 0 →
  files_hold (bd_data d) (snd (logs i)) → index_ok i (fst (logs i)) (snd (logs i)) d →
  ∃ o r' Ai, open_path Conf mc E collisions i (PDir d) mergeChan now r = Some (inl o, r')
    ∧ own_share i Ai ∧ live Ai = log_map i ∧ (∀ A, share Conf E i A = Ai → bucket_rep Conf mc E K i (op_bkt o) A)
    ∧ bucket_sess i (op_bkt o) (extra_of o) Ai.
Proof.
  intros [Hp Hl _] Hi Hnow Hf Hix. destruct (tree_of i) as (t & Ht & Hd & Hb).
  assert (Forall2 (Forall2 (log_pair Conf mc E K t)) (fst (logs i)) (snd (logs i))) as Hp'.
  { eapply Forall2_impl; [exact Hp|]. intros x y Hxy. eapply Forall2_impl; [exact Hxy|]. intros. by eapply rec_pair_log. }
  destruct (bkt_open_spec Conf mc E K (se_env _ _ _ _ He) t (bd_data d) _ _ i d (collisions i) mergeChan now r Hf Hl Hp')
    as (o & r' & Ai & m & G & a & Ho & Hinv & Hlive & Hkeys & Hfr & ck & Hsd); try done.
  { destruct conf_ok as (? & _). lia. }
  { by rewrite <- buckets_ok. }
  { by apply Hix. }
  unfold open_path. rewrite Ho. cbn [mbind option_bind]. exists o, r', Ai. split; [done|]. split; [|split; [done|split]].
  - intros key (rec & -> & Hin)%Hkeys%list_elem_of_fmap. clear -Hp Hin.
    induction Hp as [|a b L0 L Hab _ IH]; [by apply not_elem_of_nil in Hin|]. apply elem_of_app in Hin as [Hin|Hin]; [|by apply IH].
    clear IH. induction Hab as [|x y a b Hxy _ IH]; [by apply not_elem_of_nil in Hin|].
    apply elem_of_cons in Hin as [->|Hin]; [apply Hxy|by apply IH].
  - intros A HA. destruct Hfr as (Hfd & Hfb & _). split; [congruence|]. split; [congruence|].
    eexists m, _, G, a. rewrite HA. exact Hinv.
  - pose proof (session_start Conf mc E K t _ _ _ ck o Ai m G a r' Hf Hl Hp' Hinv Hlive Hfr Hsd) as Hs.
    eexists t, _, _, _, m, _, r'. split; [exact Ht|]. split; [exact Hs|]. intros Hnil. apply (sd_none _ _ _ _ _ _ _ _ _ _ _ Hsd).
    eapply no_records_head; [exact Hl|exact Hp'|exact Hnil].
Qed.

(** Only the share of a bucket matters to it. *)
Lemma bucket_rep_share i b A A' : share Conf E i A = share Conf E i A' → bucket_rep Conf mc E K i b A → bucket_rep Conf mc E K i b A'.
Proof. unfold bucket_rep. by intros ->. Qed.

(** What [scanBuckets] and the plan leave for a bucket. *)
Definition planned (stat : list Z) (i : Z) (ps : PathState * Z) : Prop :=
  ∃ s, zget stat i = Some s ∧
    if 0 <? s then snd ps = BUCKET_STAT_READY ∧ ∃ d, fst ps = PDir d ∧ files_hold (bd_data d) (snd (logs i)) ∧ index_ok i (fst (logs i)) (snd (logs i)) d
    else snd ps ≠ BUCKET_STAT_READY ∧ holds_log i (fst (logs i)) (snd (logs i)) (fst ps).

Lemma scan_bucket_ok i p :
  holds_log i (fst (logs i)) (snd (logs i)) p →
  ∃ p' st, scan_bucket Conf p = inl (p', st) ∧ st ≠ BUCKET_STAT_READY ∧ holds_log i (fst (logs i)) (snd (logs i)) p'
    ∧ (BUCKET_STAT_NOT_EMPTY <= st → ∃ d, p' = PDir d).
Proof.
  intros [Hp Hl Hpath]. destruct p as [| | |d]; try done; cbn [scan_bucket].
  - eexists _, _. split; [done|]. split; [done|]. split; [by split|]. intros H. by unfold BUCKET_STAT_NOT_EMPTY, BUCKET_STAT_EMPTY in H.
  - destruct Hpath as (Hf & H1). case_bool_decide as Ed.
    + rewrite Ed in Hf. eexists _, _. split; [done|]. split; [done|].
      split; [split; [done|done|]; destruct (1 <? NumBucket Conf); [done|by rewrite Ed]|].
      intros H. by unfold BUCKET_STAT_NOT_EMPTY, BUCKET_STAT_EMPTY in H.
    + eexists _, _. split; [done|]. split; [done|]. split; [by split|]. by exists d.
Qed.

Lemma scanBuckets_ok paths : ∀ i,
  (∀ j p, paths !! j = Some p → holds_log (i + Z.of_nat j) (fst (logs (i + Z.of_nat j))) (snd (logs (i + Z.of_nat j))) p) →
  ∃ pss, scanBuckets Conf paths = inl pss ∧ length pss = length paths
    ∧ ∀ j p st, pss !! j = Some (p, st) → st ≠ BUCKET_STAT_READY
        ∧ holds_log (i + Z.of_nat j) (fst (logs (i + Z.of_nat j))) (snd (logs (i + Z.of_nat j))) p
        ∧ (BUCKET_STAT_NOT_EMPTY <= st → ∃ d, p = PDir d).
Proof.
  induction paths as [|p paths IH]; intros i Hp; cbn [scanBuckets]; [by exists []|].
  pose proof (Hp 0%nat p eq_refl) as Hp0. rewrite Z.add_0_r in Hp0.
  destruct (scan_bucket_ok i p Hp0) as (p' & st & -> & Hst & Hl & Hd).
  destruct (IH (i + 1)) as (pss & -> & Hlen & Hps).
  { intros j q Hq. specialize (Hp (S j) q Hq). by replace (i + 1 + Z.of_nat j) with (i + Z.of_nat (S j)) by lia. }
  eexists. split; [done|]. split; [cbn; lia|]. intros [|j] q st' Hq.
  - injection Hq as <- <-. by rewrite Z.add_0_r.
  - specialize (Hps j q st' Hq). by replace (i + 1 + Z.of_nat j) with (i + Z.of_nat (S j)) in Hps by lia.
Qed.

Lemma plan_buckets_ok pss : ∀ stat i,
  0 <= i → i + Z.of_nat (length pss) <= zlen stat →
  (∀ j p st, pss !! j = Some (p, st) → st ≠ BUCKET_STAT_READY
     ∧ holds_log (i + Z.of_nat j) (fst (logs (i + Z.of_nat j))) (snd (logs (i + Z.of_nat j))) p
     ∧ (BUCKET_STAT_NOT_EMPTY <= st → ∃ d, p = PDir d)) →
  ∃ pss', plan_buckets pss stat i = Some (inl pss') ∧ length pss' = length pss
    ∧ ∀ j ps, pss' !! j = Some ps → planned stat (i + Z.of_nat j) ps.
Proof.
  induction pss as [|[p st] pss IH]; intros stat i Hi Hlen Hps; cbn [plan_buckets]; [by exists []|].
  cbn [length] in Hlen. destruct (zget_lt stat i) as [s Hs]; [lia|]. rewrite Hs. cbn [mbind option_bind].
  pose proof (Hps 0%nat p st eq_refl) as (Hst & Hhl & Hd). rewrite Z.add_0_r in Hhl. pose proof (hl_path _ _ _ _ Hhl) as Hpath.
  assert (∃ ps, (if 0 <? s then if BUCKET_STAT_NOT_EMPTY <=? st then inl (p, BUCKET_STAT_READY)
      else match allocBucket p with inl p => inl (p, BUCKET_STAT_READY) | inr e => inr e end else inl (p, st)) = inl ps
      ∧ planned stat i ps) as (ps & -> & Hplan).
  { unfold planned. destruct (0 <? s) eqn:Hneed; [|eexists; split; [done|]; exists s; by rewrite Hneed].
    destruct (Z.leb_spec BUCKET_STAT_NOT_EMPTY st) as [Hfound|Hfound].
    - destruct (Hd Hfound) as [d ->]. eexists. split; [done|]. exists s. rewrite Hneed. split; [done|]. split; [done|]. by exists d.
    - destruct p as [| | |d]; try done; (eexists; split; [done|]; exists s; rewrite Hneed; split; [done|]; split; [done|]).
      + exists empty_dir. split; [done|]. split; [done|apply empty_index_ok].
      + by exists d. }
  destruct (IH stat (i + 1)) as (pss' & -> & Hlen' & Hps'); [lia|lia| |].
  { intros j q st' Hq. specialize (Hps (S j) q st' Hq). by replace (i + 1 + Z.of_nat j) with (i + Z.of_nat (S j)) by lia. }
  cbn [mbind option_bind]. eexists. split; [done|]. split; [cbn; lia|]. intros [|j] q Hq.
  - injection Hq as <-. by rewrite Z.add_0_r.
  - specialize (Hps' j q Hq). by replace (i + 1 + Z.of_nat j) with (i + Z.of_nat (S j)) in Hps' by lia.
Qed.

(** Whether the routes want a bucket. *)
Definition wanted (stat : list Z) (i : Z) : bool := match zget stat i with Some s => 0 <? s | None => false end.

Lemma open_buckets_ok home pss : ∀ A0 stat i now r,
  homes_ok home → now ≠ 0 → 0 <= i → i + Z.of_nat (length pss) <= NumBucket Conf →
  (∀ j ps, pss !! j = Some ps → planned stat (i + Z.of_nat j) ps) → (∀ j, 0 <= j < NumBucket Conf → share Conf E j A0 = log_map j) →
  ∃ hbs xs home' r' A, open_buckets Conf mc E collisions pss stat i false now r = Some (hbs, xs, home', [], r')
    ∧ buckets_rep Conf mc E K i hbs A ∧ length hbs = length pss ∧ live A = live A0
    ∧ (∀ j, (j < i ∨ wanted stat j = false) → share Conf E j A = share Conf E j A0)
    ∧ (∀ j hb, hbs !! j = Some hb → hb_ready hb = wanted stat (i + Z.of_nat j))
    ∧ (∀ j ps, pss !! j = Some ps → wanted stat (i + Z.of_nat j) = false → home' !! (i + Z.of_nat j) = Some (fst ps))
    ∧ ∀ j hb, hbs !! j = Some hb → hb_ready hb = true → ∃ b x, hb_bkt hb = Some b ∧ xs !! (i + Z.of_nat j) = Some x
        ∧ bucket_sess (i + Z.of_nat j) b x (share Conf E (i + Z.of_nat j) A).
Proof.
  induction pss as [|[p st] pss IH]; intros A0 stat i now r Hh Hnow Hi Hlen Hps HA0; cbn [open_buckets].
  { eexists [], ∅, ∅, r, A0. split; [done|]. split; [by intros j hb ?|]. do 3 (split; [done|]). split_and!; by intros j ? ?. }
  cbn [length] in Hlen. pose proof (Hps 0%nat _ eq_refl) as (s & Hs & Hplan). rewrite Z.add_0_r in Hs, Hplan. rewrite Hs. cbn [mbind option_bind].
  assert (∃ hb x p' r1 Ai, (if 0 <? s then
           '(res, r) ← open_path Conf mc E collisions i p false now r;
           Some (match res with
                 | inl o => (mkHBucket st (Some (op_bkt o)) 0 0, Some (extra_of o), None, [], r)
                 | inr e => (mkHBucket st None 0 0, None, Some p, [e], r)
                 end)
         else Some (mkHBucket st None 0 0, None, Some p, [], r)) = Some (hb, x, p', [], r1)
      ∧ hb_ready hb = (0 <? s) ∧ (if 0 <? s then True else p' = Some p ∧ Ai = log_map i) ∧ own_share i Ai ∧ live Ai = log_map i
      ∧ ∀ A, share Conf E i A = Ai →
          if hb_ready hb then ∃ b x', hb_bkt hb = Some b ∧ bucket_rep Conf mc E K i b A ∧ x = Some x' ∧ bucket_sess i b x' Ai
          else hb_bkt hb = None)
    as (hb & x & p' & r1 & Ai & -> & Hrd & Hp' & Hown & Hlive & Hrep).
  { destruct (0 <? s) eqn:Hneed; cbn [fst snd] in Hplan.
    - destruct Hplan as (-> & d & -> & Hf & H1).
      destruct (open_path_ok i _ d false now r (Hh i ltac:(lia))) as (o & r' & Ai & -> & Hown & Hlive & Hrep & Hses); [lia|done..|]. cbn [mbind option_bind].
      eexists _, _, _, _, Ai. split; [done|]. do 4 (split; [done|]). cbn. intros A HA. exists (op_bkt o), (extra_of o). split; [done|].
      split; [by apply Hrep|done].
    - destruct Hplan as [Hplan Hhl]. eexists _, _, _, _, (log_map i). split; [done|]. unfold hb_ready. cbn [hb_State hb_bkt].
      rewrite (proj2 (Z.eqb_neq _ _) Hplan). split; [done|]. split; [done|]. split; [by intros key Hk; eapply log_map_keys|]. split; [|done].
      apply live_id, replay_positive. }
  cbn [mbind option_bind].
  destruct (IH A0 stat (i + 1) now r1 Hh Hnow) as (hbs & xs & home' & r2 & A1 & -> & Hreps & Hl & Hlv & Hsh & Hrds & Hhome & Hses); [lia|lia| |done|].
  { intros j q Hq. specialize (Hps (S j) q Hq). by replace (i + 1 + Z.of_nat j) with (i + Z.of_nat (S j)) by lia. }
  assert (share Conf E i A1 = log_map i) as Hsi by (rewrite Hsh by lia; apply HA0; lia).
  cbn [mbind option_bind]. eexists _, _, _, _, (with_share i Ai A1). split; [done|].
  assert (share Conf E i (with_share i Ai A1) = Ai) as Hown' by (rewrite share_with by done; by rewrite decide_True).
  split; [apply buckets_rep_cons; split; [specialize (Hrep _ Hown'); destruct (hb_ready hb); [destruct Hrep as (b & _ & ? & ? & _); by exists b|done]|]|split; [cbn; lia|]].
  { intros j hb' Hj. specialize (Hreps j hb' Hj). destruct (hb_ready hb'); [|done]. destruct Hreps as (b & Hb & Hr). exists b. split; [done|].
    eapply bucket_rep_share; [|exact Hr]. rewrite share_with by done. by rewrite decide_False by lia. }
  split; [rewrite live_with_share by (done || congruence); done|]. split; [|split; [|split]].
  - intros j Hj. rewrite share_with by done. case_decide as Hji; [|apply Hsh; destruct Hj; [left; lia|by right]].
    subst j. destruct Hj as [|Hw]; [lia|]. unfold wanted in Hw. rewrite Hs in Hw. rewrite Hw in Hp'. destruct Hp' as [_ ->].
    symmetry. apply HA0. lia.
  - intros [|j].
    + intros hb' [= <-]. rewrite Z.add_0_r, Hrd. unfold wanted. by rewrite Hs.
    + intros hb' Hj. specialize (Hrds j hb' Hj). by replace (i + 1 + Z.of_nat j) with (i + Z.of_nat (S j)) in Hrds by lia.
  - intros [|j].
    + intros ps [= <-]. rewrite Z.add_0_r. unfold wanted. rewrite Hs. intros Hn. rewrite Hn in Hp'. destruct Hp' as [-> _]. by rewrite lookup_insert_eq.
    + intros ps Hj Hw. specialize (Hhome j ps Hj). replace (i + 1 + Z.of_nat j) with (i + Z.of_nat (S j)) in Hhome by lia.
      destruct p' as [p'|]; [rewrite lookup_insert_ne by lia|]; by apply Hhome.
  - intros [|j] hb' Hj Hr.
    + injection Hj as <-. rewrite Z.add_0_r, Hown'. specialize (Hrep _ Hown'). rewrite Hr in Hrep.
      destruct Hrep as (b & x' & Hb & _ & -> & Hs'). exists b, x'. by rewrite lookup_insert_eq.
    + destruct (Hses j hb' Hj Hr) as (b & x' & Hb & Hx & Hs'). replace (i + Z.of_nat (S j)) with (i + 1 + Z.of_nat j) by lia.
      exists b, x'. split; [done|]. split; [destruct x; [by rewrite lookup_insert_ne by lia|done]|].
      rewrite share_with, decide_False by (done || lia). done.
Qed.

(** The buckets that are served hold their share of the map [A]; the others have their
    share in the log at their path. *)
Definition life_rep (lf : Life) (ready : list bool) (A : gmap bytes (Record_ * Z)) : Prop :=
  store_rep Conf mc E K (lf_store lf) ready A ∧ zlen ready = NumBucket Conf ∧ zlen (lf_stat lf) = NumBucket Conf
  ∧ ∀ i, zget ready i = Some false →
      share Conf E i A = log_map i ∧ holds_log i (fst (logs i)) (snd (logs i)) (default PNone (lf_home lf !! i)).

(** The store starts, and holds the map of all logs. *)
Lemma NewHStore_rep home stat now :
  homes_ok home → now ≠ 0 → zlen stat = NumBucket Conf →
  ∃ lf A, NewHStore Conf mc E collisions home stat now = Some (inl lf)
    ∧ life_rep lf ((λ s, 0 <? s) <$> stat) A ∧ live A = all_logs ∧ lf_stat lf = stat ∧ lf_gc lf = ∅ ∧ lf_tasks lf = []
    ∧ lf_failed lf = ∅ ∧ ∀ i hb, zget (hs_buckets (lf_store lf)) i = Some hb → hb_ready hb = true →
        ∃ b x, hb_bkt hb = Some b ∧ lf_extra lf !! i = Some x ∧ bucket_sess i b x (share Conf E i A).
Proof.
  intros Hh Hnow Hlen. unfold NewHStore.
  assert (length (bucket_range Conf) = length stat) as Hbl.
  { unfold bucket_range. rewrite length_fmap, length_seq. unfold zlen in Hlen. lia. }
  destruct (scanBuckets_ok ((λ i, default PNone (home !! i)) <$> bucket_range Conf) 0) as (pss & -> & Hl1 & H1).
  { intros j p Hj. rewrite list_lookup_fmap in Hj. unfold bucket_range in Hj. rewrite list_lookup_fmap in Hj.
    destruct (seq 0 _ !! j) as [j'|] eqn:Ej; [|done]. apply lookup_seq in Ej as [-> Hlt]. cbn in Hj. injection Hj as <-.
    apply Hh. lia. }
  rewrite length_fmap in Hl1.
  destruct (plan_buckets_ok pss stat 0) as (pss' & -> & Hl2 & H2); [lia|unfold zlen; lia|done|]. cbn [mbind option_bind].
  destruct (open_buckets_ok home pss' all_logs stat 0 now ResetAll Hh Hnow)
    as (hbs & xs & home' & r' & A & -> & Hrep & Hl3 & Hlive & Hsh & Hrd & Hhome & Hses);
    [lia|unfold zlen in *; lia|done|by intros; apply (share_logs home)|]. cbn [mbind option_bind].
  assert (∃ t, (if 0 <? TreeDepth Conf then t ← newHTree 0 0 (TreeDepth Conf + 1); Some (Some t) else Some None) = Some t) as (t & ->).
  { destruct (Z.ltb_spec 0 (TreeDepth Conf)); [|by eexists]. unfold newHTree, MAX_DEPTH.
    rewrite (proj2 (Z.ltb_ge _ _)), (proj2 (Z.leb_gt _ _)) by lia. by eexists. }
  cbn [mbind option_bind]. eexists _, A. split; [done|]. split; [|split; [by rewrite Hlive, live_all_logs|]].
  2:{ do 4 (split; [done|]). cbn [lf_store hs_buckets lf_extra]. intros i hb [Hi0 Hi]%zget_Some Hr.
      destruct (Hses _ hb Hi Hr) as (b & x & Hb & Hx & Hs'). rewrite Z.add_0_l, Z2Nat.id in Hx, Hs' by done. by exists b, x. }
  split_and!.
  - apply store_rep_buckets. cbn [lf_store hs_buckets]. split; [|done].
    apply list_eq. intros j. rewrite !list_lookup_fmap. destruct (hbs !! j) as [hb|] eqn:Hj.
    + specialize (Hrd j hb Hj). rewrite Z.add_0_l in Hrd. unfold wanted in Hrd. rewrite zget_nat in Hrd.
      apply lookup_lt_Some in Hj. destruct (lookup_lt_is_Some_2 stat j) as [s Hs]; [lia|]. rewrite Hs in *. cbn. by rewrite Hrd.
    + apply lookup_ge_None in Hj. rewrite (proj2 (lookup_ge_None stat j)) by lia. done.
  - unfold zlen in *. by rewrite length_fmap.
  - done.
  - intros i [H0 Hi]%zget_Some. rewrite list_lookup_fmap in Hi. destruct (stat !! Z.to_nat i) as [s|] eqn:Hs; [|done]. injection Hi as Hs0.
    apply lookup_lt_Some in Hs as Hlt. split; [rewrite Hsh; [apply (share_logs home); [done|unfold zlen in *; lia]|right; unfold wanted, zget; by rewrite (proj2 (Z.ltb_ge _ _)), Hs by done]|]. cbn [lf_home].
    destruct (lookup_lt_is_Some_2 pss' (Z.to_nat i)) as [ps Hps]; [lia|].
    specialize (H2 _ _ Hps). specialize (Hhome _ _ Hps). rewrite Z.add_0_l, Z2Nat.id in H2, Hhome by done.
    assert (zget stat i = Some s) as Hz by (by apply zget_Some). destruct H2 as (s' & Hs' & H2). rewrite Hz in Hs'. injection Hs' as <-. rewrite Hs0 in H2.
    rewrite Hhome by (unfold wanted; by rewrite Hz). apply H2.
Qed.

(** Requests on a served bucket leave the paths of the others alone. *)
Lemma life_write lf ready A key x hs r :
  life_rep lf ready A → served_key Conf E ready key → store_rep Conf mc E K hs ready (put A key x) →
  life_rep (lf_with_store lf hs r) ready (put A key x).
Proof.
  intros (_ & Hr & Hs & Hp) Hk Hrep. split; [done|]. split; [done|]. split; [done|]. intros i Hi.
  destruct (Hp i Hi) as [Hsh Hl]. split; [|done]. rewrite share_put_out; [done|].
  intros <-. unfold served_key in Hk. congruence.
Qed.

(** ** Routes that change *)

Lemma path_at_closed lf i hb :
  zget (hs_buckets (lf_store lf)) i = Some hb → hb_bkt hb = None → path_at lf i = default PNone (lf_home lf !! i).
Proof. intros Hz Hb. unfold path_at. rewrite Hz. cbn [mbind option_bind]. by rewrite Hb. Qed.

Lemma alloc_ok i p :
  holds_log i (fst (logs i)) (snd (logs i)) p →
  ∃ d, allocBucket p = inl (PDir d) ∧ files_hold (bd_data d) (snd (logs i)) ∧ index_ok i (fst (logs i)) (snd (logs i)) d.
Proof. intros [_ _ H]. destruct p as [| | |d]; try done; [exists empty_dir; split; [done|]; split; [done|apply empty_index_ok]|by exists d]. Qed.

Lemma store_rep_add hs ready A i hb b n m :
  store_rep Conf mc E K hs ready A → zget (hs_buckets hs) i = Some hb → bucket_rep Conf mc E K i b A →
  ∃ hs', with_bucket hs i (mkHBucket BUCKET_STAT_READY (Some b) n m) = Some hs'
    ∧ store_rep Conf mc E K hs' (<[Z.to_nat i := true]> ready) A.
Proof.
  intros [Hr Hb] Hi Hrep. unfold with_bucket, zset.
  pose proof Hi as [H0 Hl]%zget_Some. pose proof (lookup_lt_Some _ _ _ Hl) as Hlt.
  assert ((0 <=? i) && (i <? zlen (hs_buckets hs)) = true) as -> by (unfold zlen; lia).
  cbn [mbind option_bind]. eexists. split; [done|]. split; cbn [hs_buckets].
  - by rewrite <- Hr, list_fmap_insert.
  - intros j hb0 Hj. pose proof Hj as [Hj0 Hjl]%zget_Some. destruct (decide (j = i)) as [->|Hne].
    + rewrite list_lookup_insert_eq in Hjl by done. injection Hjl as <-. cbn. by exists b.
    + rewrite list_lookup_insert_ne in Hjl by lia. apply Hb, zget_Some. done.
Qed.

Lemma load_bucket_ok lf ready A i mergeChan now :
  life_rep lf ready A → zget ready i = Some false → now ≠ 0 →
  ∃ lf' A', load_bucket Conf mc E collisions lf i mergeChan now = Some (lf', None)
    ∧ life_rep lf' (<[Z.to_nat i := true]> ready) A' ∧ live A' = live A ∧ lf_stat lf' = <[Z.to_nat i := BUCKET_STAT_READY]> (lf_stat lf).
Proof.
  intros (Hrep & Hlr & Hls & Hp) Hi Hnow. destruct (Hp i Hi) as [Hsh Hl]. pose proof (zget_Some_lt _ _ _ Hi) as Hlt.
  assert (∃ hb, zget (hs_buckets (lf_store lf)) i = Some hb ∧ hb_bkt hb = None) as (hb & Hz & Hb).
  { destruct Hrep as [Hr Hb]. rewrite <- Hr in Hi. apply zget_Some in Hi as [H0 Hi]. rewrite list_lookup_fmap in Hi.
    destruct (hs_buckets (lf_store lf) !! Z.to_nat i) as [hb|] eqn:Hhb; [|done]. injection Hi as Hrd.
    assert (zget (hs_buckets (lf_store lf)) i = Some hb) as Hz by (by apply zget_Some).
    exists hb. split; [done|]. specialize (Hb i hb Hz). by rewrite Hrd in Hb. }
  unfold load_bucket. rewrite Hz, (path_at_closed lf i hb) by done. cbn [mbind option_bind].
  destruct (alloc_ok i _ Hl) as (d & -> & Hf & H1).
  destruct (open_path_ok i _ d mergeChan now (lf_rl lf) Hl) as (o & r & Ai & -> & Hown & Hlive & Hb' & _); [lia|done..|]. cbn [mbind option_bind].
  assert (store_rep Conf mc E K (lf_store lf) ready (with_share i Ai A)) as Hrep1.
  { destruct Hrep as [Hr Hbs]. split; [done|]. intros j hbj Hj. specialize (Hbs j hbj Hj). destruct (hb_ready hbj) eqn:Hrj; [|done].
    destruct Hbs as (b & Hbj & Hbr). exists b. split; [done|]. eapply bucket_rep_share; [|exact Hbr]. rewrite share_with by done.
    case_decide as Hji; [|done]. exfalso. subst j. congruence. }
  destruct (store_rep_add _ _ _ i hb (op_bkt o) (hb_NumGet hb) (hb_NumSet hb) Hrep1 Hz (Hb' _ ltac:(rewrite share_with by done; by rewrite decide_True)))
    as (hs' & Hw & Hrep').
  unfold set_bucket. cbn [lf_with_store lf_store]. rewrite Hw. cbn [mbind option_bind lf_stat lf_with_store].
  unfold zset. rewrite Hls. assert ((0 <=? i) && (i <? NumBucket Conf) = true) as -> by lia. cbn [mbind option_bind].
  eexists _, (with_share i Ai A). split; [done|]. split; [|split; [apply live_with_share; [done|congruence]|done]].
  split; [done|]. split; [unfold zlen in *; by rewrite length_insert|].
  split; [unfold zlen in *; cbn; by rewrite length_insert|]. intros j Hj. cbn.
  apply zget_Some in Hj as [Hj0 Hj]. destruct (decide (j = i)) as [->|Hne].
  - rewrite list_lookup_insert_eq in Hj by (unfold zlen in *; lia). done.
  - rewrite list_lookup_insert_ne in Hj by lia. rewrite share_with by done. rewrite decide_False by done. apply Hp. by apply zget_Some.
Qed.

Lemma zget_update {A} (l : list A) i j x :
  0 <= i < zlen l → zget (<[Z.to_nat i := x]> l) j = if decide (j = i) then Some x else zget l j.
Proof.
  intros Hi. unfold zget, zlen in *. destruct (Z.ltb_spec j 0); case_decide; try lia; [done| |].
  - subst. apply list_lookup_insert_eq. lia.
  - apply list_lookup_insert_ne. lia.
Qed.

(** A bucket whose entry changes is not served yet, and is to be. *)
Definition grows (stat newstat : list Z) (ready : list bool) (i : Z) : Prop :=
  ∃ o n b, zget stat i = Some o ∧ zget newstat i = Some n ∧ zget ready i = Some b
    ∧ (n = o ∨ b = false ∧ BUCKET_STAT_NOT_EMPTY <= n).

Definition changed (stat newstat : list Z) (ids : list Z) : list Z := filter (λ i, zget newstat i ≠ zget stat i) ids.

Lemma change_route_ok ids : ∀ lf ready A mergeChan now newstat,
  NoDup ids → now ≠ 0 → life_rep lf ready A → (∀ i, i ∈ ids → grows (lf_stat lf) newstat ready i) →
  ∃ lf' ready' A', change_route Conf mc E collisions ids newstat lf mergeChan now
      = Some (lf', changed (lf_stat lf) newstat ids, [], None)
    ∧ life_rep lf' ready' A' ∧ live A' = live A
    ∧ ∀ j, zget ready' j = if decide (j ∈ changed (lf_stat lf) newstat ids) then Some true else zget ready j.
Proof.
  induction ids as [|i ids IH]; intros lf ready A mergeChan now newstat Hnd Hnow Hrep Hg; cbn [change_route].
  { by exists lf, ready, A. }
  apply NoDup_cons in Hnd as [Hni Hnd]. destruct (Hg i ltac:(set_solver)) as (o & n & b & Ho & Hn & Hb & Hc).
  rewrite Ho, Hn. cbn [mbind option_bind]. unfold changed in *. rewrite filter_cons, Ho, Hn. destruct (Z.eqb_spec n o) as [->|Hne].
  { rewrite decide_False by (by intros []). apply IH; [done|done|done|]. intros j Hj. apply Hg. set_solver. }
  destruct Hc as [Hc|[-> Hn1]]; [done|]. rewrite decide_True by congruence. rewrite (proj2 (Z.leb_le _ _) Hn1).
  destruct (load_bucket_ok lf ready A i mergeChan now) as (lf1 & A1 & -> & Hrep1 & Hlv1 & Hst); [done..|]. cbn [mbind option_bind].
  pose proof (zget_Some_lt _ _ _ Ho) as Hio. pose proof (zget_Some_lt _ _ _ Hb) as Hib.
  assert (∀ j, j ∈ ids → zget (lf_stat lf1) j = zget (lf_stat lf) j) as Hsame.
  { intros j Hj. rewrite Hst, zget_update by done. by rewrite decide_False by set_solver. }
  destruct (IH lf1 (<[Z.to_nat i := true]> ready) A1 mergeChan now newstat) as (lf2 & ready2 & A2 & -> & Hrep2 & Hlv2 & Hr2); [done|done|done| |].
  { intros j Hj. destruct (Hg j ltac:(set_solver)) as (o' & n' & b' & ? & ? & ? & ?). exists o', n', b'. rewrite Hsame by done.
    rewrite zget_update by done. by rewrite decide_False by set_solver. }
  cbn [mbind option_bind].
  assert (filter (λ j, zget newstat j ≠ zget (lf_stat lf1) j) ids = filter (λ j, zget newstat j ≠ zget (lf_stat lf) j) ids) as Hf.
  { clear -Hsame. induction ids as [|j ids IH]; [done|]. rewrite !filter_cons, (Hsame j) by set_solver.
    rewrite IH by set_solver. done. }
  exists lf2, ready2, A2. rewrite Hf in *. split; [done|]. split; [done|]. split; [congruence|]. intros j. rewrite Hr2, zget_update by done.
  destruct (decide (j = i)) as [->|Hji].
  - case_decide; by rewrite decide_True by set_solver.
  - case_decide; case_decide; set_solver.
Qed.

End Start.
