(* ===== verification/StoreLifeProps.v ===== *)
(** * Starting, reloading and collecting: what the store promises

    A store that starts from data files alone serves what its logs say; new routes add
    buckets without losing a write; and the two ways in which the code falls short: a
    reload that failed half way and is tried again, and two collections at once. *)

From stdpp Require Import gmap.
From S2P Require Import Prelude Hashing Strconv Config Cmem Key Item Fixtures Leaf HTree HTreeSpec HTreeMerkle.
From S2P Require Import HTreeProps HTreeDisk DataFile Data DataSpec DataLog HintFile Hint HintSpec HintProps HintMerge.
From S2P Require Import Bucket BucketSpec BucketProps BucketOpen BucketOpenSpec BucketRecover BucketOpenProps GC Server ServerSpec.
From S2P Require Import HStore HStoreSpec HStoreProps StoreLife StoreLifeSpec.

Section Props.
Context (Conf : HStoreConfig) (mc : MCConfig) (E : Ext) (K : bytes → Prop) (collisions : Z → CollisionTable).
Context (logs : Z → list (list Record_) * list (list Record_)).

(** A request for [key], stored as [x], is answered with it. *)
Definition answers (hs : HStore) (x : option (Record_ * Z)) (key : bytes) (r : BeansdbRL) : Prop :=
  ∃ p pos hs' r', hs_Get Conf mc E hs (prepare key false) false r = Some ((p, pos, None), hs', r')
    ∧ answer x key p.

Lemma life_answers (He : store_env Conf mc E K) lf ready A key r :
  life_rep Conf mc E K logs lf ready A → K key → served_key Conf E ready key → answers (lf_store lf) (live A !! key) key r.
Proof.
  intros (Hrep & _) Hk Hs. destruct (hs_Get_spec Conf mc E K He _ _ _ key r Hrep Hk Hs) as (p & pos & hs' & r' & H1 & _ & H2).
  exists p, pos, hs', r'. split; [done|]. by apply answer_live.
Qed.

(** A store that starts over directories as a crash may leave them (the data files of
    a log, with hint files and a tree for any first part of it, or none) starts without
    an error, serves exactly the buckets its routes want, and answers every key of theirs
    with what replaying the log of the key's bucket amounts to, deleted keys with nothing
    or their deletion. *)
Theorem new_store_recovers home stat now :
  store_env Conf mc E K → conf_for Conf (TreeDepth Conf) (TreeHeight Conf) → TreeDepth Conf <= 2 →
  NumBucket Conf = 16 ^ TreeDepth Conf → (∀ i, ct_Items (collisions i) = ∅) →
  homes_ok Conf mc E K logs home → now ≠ 0 → zlen stat = NumBucket Conf →
  ∃ lf, NewHStore Conf mc E collisions home stat now = Some (inl lf)
    ∧ hb_ready <$> hs_buckets (lf_store lf) = (λ s, 0 <? s) <$> stat
    ∧ ∀ key r, K key → served_key Conf E ((λ s, 0 <? s) <$> stat) key →
        answers (lf_store lf) (replay (mjoin (fst (logs (bucket_of Conf E key)))) !! key) key r.
Proof.
  intros He Hc Hd Hn Hct Hh Hnow Hlen.
  destruct (NewHStore_rep Conf mc E K collisions He Hc Hd Hn Hct logs home stat now Hh Hnow Hlen) as (lf & A & Hnew & Hrep & Hlive & _).
  exists lf. split; [done|]. split; [apply Hrep|]. intros key r Hk Hs.
  assert (0 <= bucket_of Conf E key < NumBucket Conf) as Hb.
  { apply zget_Some_lt in Hs. unfold zlen in *. rewrite length_fmap in Hs. lia. }
  pose proof (all_logs_lookup Conf mc E K collisions He Hc Hd Hn Hct logs home key Hh Hb) as Hl.
  destruct (life_answers He _ _ _ key r Hrep Hk Hs) as (p & pos & hs' & r' & H1 & H2).
  exists p, pos, hs', r'. split; [done|]. by rewrite Hlive, Hl in H2.
Qed.

(** Routes that add buckets to a running store load exactly these, end without an
    error, and lose nothing: after them every key of the buckets served before is answered
    as before, writes since the start included, and every key of the new buckets by the
    log of its bucket (both are in the map [A] of [life_rep]), deleted keys with nothing
    or their deletion. *)
Theorem reload_adds_buckets lf ready A newstat mergeChan now :
  store_env Conf mc E K → conf_for Conf (TreeDepth Conf) (TreeHeight Conf) → TreeDepth Conf <= 2 →
  NumBucket Conf = 16 ^ TreeDepth Conf → (∀ i, ct_Items (collisions i) = ∅) →
  life_rep Conf mc E K logs lf ready A → now ≠ 0 →
  (∀ i, 0 <= i < NumBucket Conf → grows (lf_stat lf) newstat ready i) →
  ∃ lf' ready', ChangeRoute Conf mc E collisions lf newstat mergeChan now
      = Some (lf', changed (lf_stat lf) newstat (bucket_range Conf), [], None)
    ∧ (∀ i, zget ready' i = if decide (i ∈ changed (lf_stat lf) newstat (bucket_range Conf)) then Some true else zget ready i)
    ∧ hb_ready <$> hs_buckets (lf_store lf') = ready'
    ∧ ∀ key r, K key → served_key Conf E ready' key → answers (lf_store lf') (live A !! key) key r.
Proof.
  intros He Hc Hd Hn Hct Hrep Hnow Hg.
  destruct (change_route_ok Conf mc E K collisions He Hc Hd Hn Hct logs (bucket_range Conf) lf ready A mergeChan now newstat)
    as (lf' & ready' & A' & Hch & Hrep' & Hlive & Hr); [|done|done| |].
  { unfold bucket_range. apply NoDup_fmap_2; [apply _|apply NoDup_seq]. }
  { intros i Hi. apply Hg. by eapply bucket_range_elem. }
  exists lf', ready'. split; [done|]. split; [done|]. split; [apply Hrep'|].
  intros key r Hk Hs. rewrite <- Hlive. by apply (life_answers He _ ready').
Qed.

(** The check for a running collection and its registration are not one step: until
    the goroutine of a collection has entered it into the table, a second request for the
    same bucket is let through with the same range, and two collections of one bucket are
    to run; after it has, the request is refused. *)
Theorem gc_starts_twice lf bucketID b e days merge now rng lf1 :
  hs_GC Conf lf bucketID b e days merge false now = Some (inl rng, lf1) → lf_tasks lf = [] →
  (∃ lf2, hs_GC Conf lf1 bucketID b e days merge false now = Some (inl rng, lf2)
     ∧ lf_tasks lf2 = replicate 2 (mkTask bucketID rng.1 rng.2 merge))
  ∧ hs_GC Conf (gc_register lf1) bucketID b e days merge false now = Some (inr GCRunning, gc_register lf1).
Proof.
  unfold hs_GC. destruct (NumBucket Conf <=? bucketID); [done|].
  destruct (zget (hs_buckets (lf_store lf)) bucketID) as [hb|] eqn:Hz; [|done]. cbn [mbind option_bind].
  destruct (hb_ready hb) eqn:Hr; cbn [negb]; [|done]. case_bool_decide as Hgc; [done|].
  destruct (hb_bkt hb) as [bk|] eqn:Hb; [|done]. cbn [mbind option_bind].
  destruct (lf_extra lf !! bucketID) as [x|] eqn:Hx; [|done]. cbn [mbind option_bind].
  destruct (gcCheckRange _ _ _ _ _ _) as [[[first last]|]|] eqn:Hrg; [|done..]. cbn [mbind option_bind].
  intros [= <- <-] Ht. rewrite Ht. cbn [app]. unfold gc_register. cbn [lf_with_gc lf_store lf_gc lf_tasks lf_extra].
  rewrite Hz. cbn [mbind option_bind]. rewrite Hr, Hb. cbn [negb mbind option_bind].
  rewrite bool_decide_false by done. rewrite Hx. cbn [mbind option_bind]. rewrite Hrg. cbn [mbind option_bind].
  split; [by eexists|]. cbn [tk_bucket]. by rewrite bool_decide_true by (rewrite lookup_insert_eq; by eexists).
Qed.

End Props.

(** ** A concrete home *)

(** Bucket 4 of 16 has the log of two chunks, the others have nothing. *)
Definition no_collisions (i : Z) : CollisionTable := newCollisionTable.
Definition demo_home : gmap Z PathState := {[4 := PDir crash_dir]}.
Definition demo_logs (i : Z) : list (list Record_) * list (list Record_) := if i =? 4 then (demo_log, demo_log) else ([], []).
Definition no_stat : list Z := replicate 16 0.
Definition demo_stat : list Z := <[4%nat := 1]> no_stat.

Lemma demo_rec_pairs : Forall2 (Forall2 (rec_pair demo_conf DefaultMCConfig demo_ext demo_keys 4)) demo_log demo_log.
Proof.
  eapply Forall2_impl; [exact demo_log_pairs|]. intros x y Hxy. eapply Forall2_impl; [exact Hxy|].
  intros r0 r1 [H1 H2 H3 H4]. split; [exact H1|exact H2|exact H3|].
  destruct H3 as [->| ->]; vm_compute; reflexivity.
Qed.

Lemma demo_homes_ok : homes_ok demo_conf DefaultMCConfig demo_ext demo_keys demo_logs demo_home.
Proof.
  intros i Hi. unfold demo_logs, demo_home. destruct (Z.eqb_spec i 4) as [->|Hne].
  - rewrite lookup_singleton_eq. split; [exact demo_rec_pairs|exact demo_log_ok|].
    split; [exact demo_log_files|]. intros t Ht. destruct demo_conf_fits as (_ & _ & Hc & _).
    rewrite Hc in Ht. injection Ht as <-. exact crash_dir_ok.
  - rewrite lookup_singleton_ne by lia. split; [constructor| |]; [split; [constructor|constructor|reflexivity]|].
    intros j. rewrite lookup_empty. unfold zget. by destruct (j <? 0).
Qed.

Lemma new_store_recovers_witness :
  ∃ lf, NewHStore demo_conf DefaultMCConfig demo_ext no_collisions demo_home demo_stat 1000 = Some (inl lf)
    ∧ ∃ q pos hs' r', hs_Get demo_conf DefaultMCConfig demo_ext (lf_store lf) (prepare (bstr "hello") false) false ResetAll
        = Some ((Some q, pos, None), hs', r')
      ∧ same_record (log_rec (bstr "hello") (bstr "there") 2) (mkRecord (bstr "hello") q).
Proof.
  destruct (new_store_recovers demo_conf DefaultMCConfig demo_ext demo_keys no_collisions demo_logs demo_home demo_stat 1000)
    as (lf & Hnew & _ & Hget);
    [exact demo_store_env|exact demo_conf_trees|vm_compute; discriminate|reflexivity|reflexivity|exact demo_homes_ok|lia|reflexivity|].
  exists lf. split; [exact Hnew|].
  destruct (Hget (bstr "hello") ResetAll) as (p & pos & hs' & r' & H1 & H2); [by left|vm_compute; reflexivity|].
  assert (replay (mjoin (fst (demo_logs (bucket_of demo_conf demo_ext (bstr "hello"))))) !! bstr "hello"
    = Some (log_rec (bstr "hello") (bstr "there") 2, Getvhash (bstr "there"))) as Hr by (vm_compute; reflexivity).
  rewrite Hr in H2. destruct H2 as (q & -> & Hq). exists q, pos, hs', r'. split; [exact H1|exact Hq].
Defined.

Lemma reload_adds_buckets_witness :
  ∃ lf lf' hs' r' q pos,
    NewHStore demo_conf DefaultMCConfig demo_ext no_collisions demo_home no_stat 1000 = Some (inl lf)
    ∧ ChangeRoute demo_conf DefaultMCConfig demo_ext no_collisions lf demo_stat true 1000 = Some (lf', [4], [], None)
    ∧ hs_Get demo_conf DefaultMCConfig demo_ext (lf_store lf') (prepare (bstr "hello") false) false ResetAll
        = Some ((Some q, pos, None), hs', r')
    ∧ same_record (log_rec (bstr "hello") (bstr "there") 2) (mkRecord (bstr "hello") q).
Proof.
  destruct (NewHStore_rep demo_conf DefaultMCConfig demo_ext demo_keys no_collisions) with (logs := demo_logs)
    (home := demo_home) (stat := no_stat) (now := 1000) as (lf & A & Hnew & Hrep & Hlive & Hst & _);
    [exact demo_store_env|exact demo_conf_trees|vm_compute; discriminate|reflexivity|reflexivity|exact demo_homes_ok|lia|reflexivity|].
  destruct (reload_adds_buckets demo_conf DefaultMCConfig demo_ext demo_keys no_collisions demo_logs lf
    ((λ s, 0 <? s) <$> no_stat) A demo_stat true 1000) as (lf' & ready' & Hch & Hrd & _ & Hget);
    [exact demo_store_env|exact demo_conf_trees|vm_compute; discriminate|reflexivity|reflexivity|exact Hrep|lia| |].
  { rewrite Hst. intros i Hi. assert (i ∈ bucket_range demo_conf) as Hin by (by eapply bucket_range_elem).
    clear -Hin. revert i Hin. apply Forall_forall. vm_compute bucket_range.
    repeat first [apply Forall_nil_2|apply Forall_cons_2];
      (eexists _, _, _; split_and!; [vm_compute; reflexivity..|]); (left; reflexivity) || (right; split; [reflexivity|done]). }
  rewrite Hst in Hch, Hrd.
  destruct (Hget (bstr "hello") ResetAll) as (p & pos & hs' & r' & H1 & H2);
    [by left|unfold served_key; rewrite Hrd; vm_compute; reflexivity|].
  assert (all_logs demo_conf demo_logs !! bstr "hello"
    = Some (log_rec (bstr "hello") (bstr "there") 2, Getvhash (bstr "there"))) as Hr by (vm_compute; reflexivity).
  rewrite Hlive, Hr in H2. destruct H2 as (q & -> & Hq). exists lf, lf', hs', r', q, pos.
  split; [exact Hnew|]. split; [exact Hch|]. split; [exact H1|exact Hq].
Defined.

(** The store of bucket 4, started. *)
Definition demo_life : Life :=
  match NewHStore demo_conf DefaultMCConfig demo_ext no_collisions demo_home demo_stat 1000 with
  | Some (inl lf) => lf
  | _ => mkLife (mkHStore [] None) [] ∅ ∅ ∅ [] ∅ ResetAll
  end.

Lemma gc_starts_twice_witness :
  ∃ lf1 lf2, hs_GC demo_conf demo_life 4 (-1) (-1) (-1) false false 1000000 = Some (inl (0, 0), lf1)
    ∧ hs_GC demo_conf lf1 4 (-1) (-1) (-1) false false 1000000 = Some (inl (0, 0), lf2)
    ∧ lf_tasks lf2 = replicate 2 (mkTask 4 0 0 false).
Proof.
  destruct (hs_GC demo_conf demo_life 4 (-1) (-1) (-1) false false 1000000) as [[res lf1]|] eqn:H.
  - assert (res = inl (0, 0)) as ->.
    { assert (fst <$> hs_GC demo_conf demo_life 4 (-1) (-1) (-1) false false 1000000 = Some (inl (0, 0))) as Hv by (vm_compute; reflexivity).
      rewrite H in Hv. injection Hv as ->. reflexivity. }
    destruct (gc_starts_twice demo_conf demo_life 4 (-1) (-1) (-1) false 1000000 (0, 0) lf1 H) as [(lf2 & H2 & Ht) _];
      [vm_compute; reflexivity|].
    exists lf1, lf2. split; [reflexivity|]. split; [exact H2|exact Ht].
  - assert (bool_decide (is_Some (hs_GC demo_conf demo_life 4 (-1) (-1) (-1) false false 1000000)) = true) as Hv by (vm_compute; reflexivity).
    rewrite H in Hv. discriminate Hv.
Defined.

(** ** A reload that is tried again *)

(** Routes for buckets 4 and 5 come in while the data of bucket 5 is damaged. A client
    then sets a key of bucket 4, the directory of bucket 5 is taken away, and the same
    routes are loaded again. The value that the client reads before the second reload, and
    after it. *)
Definition both_stat : list Z := <[5%nat := 1]> demo_stat.
Definition damaged_home : gmap Z PathState := <[5 := PDir (mkDir {[0 := [1; 2; 3]]} ∅ ∅ ∅ None)]> demo_home.
Definition read_hello (lf : Life) : option (option bytes) :=
  '((p, _, _), _, _) ← hs_Get demo_conf DefaultMCConfig demo_ext (lf_store lf) (prepare (bstr "hello") false) false (lf_rl lf);
  Some (option_map p_Body p).
Definition reload_twice : option ((list Z * option LifeErr) * option bytes * (list Z * option LifeErr) * option bytes) :=
  new ← NewHStore demo_conf DefaultMCConfig demo_ext no_collisions damaged_home no_stat 1000;
  match new with
  | inr _ => None
  | inl lf =>
      '(lf, ld1, _, err1) ← ChangeRoute demo_conf DefaultMCConfig demo_ext no_collisions lf both_stat true 1000;
      '(_, hs, r) ← hs_Set demo_conf DefaultMCConfig demo_ext (lf_store lf) (prepare (bstr "hello") false) (demo_value (bstr "again") 0) 1000 (lf_rl lf);
      let lf := lf_with_path (lf_with_store lf hs r) 5 PNone in
      v1 ← read_hello lf;
      '(lf, ld2, _, err2) ← ChangeRoute demo_conf DefaultMCConfig demo_ext no_collisions lf both_stat true 1000;
      v2 ← read_hello lf;
      Some ((ld1, err1), v1, (ld2, err2), v2)
  end.

(** The second reload opens bucket 4 again over its buffers, and the write is gone. *)
Example reload_twice_loses_write :
  reload_twice = Some (([4], Some (LOpen ErrNotAligned)), Some (bstr "again"), ([4; 5], None), Some (bstr "there")).
Proof. vm_compute. reflexivity. Qed.
