(* ===== verification/StoreRestart.v ===== *)
(** * Stopping the store and starting it again

    A store in service: requests, the turns of its background tasks and the flushes
    that rotations start. When it is closed, the paths of its buckets hold what it
    held, for the next start. *)

From stdpp Require Import gmap.
From S2P Require Import Prelude Hashing Strconv Config Cmem Key Item Fixtures Leaf HTree HTreeSpec HTreeMerkle.
From S2P Require Import HTreeProps HTreeDisk DataFile Data DataSpec DataLog HintFile Hint HintSpec HintProps HintMerge.
From S2P Require Import Bucket BucketSpec BucketOpen BucketOpenSpec HintDisk BucketRecover Session Restart GC Server ServerSpec.
From S2P Require Import HStore HStoreSpec StoreLife StoreLifeSpec.

Lemma with_bucket_at hs i hb hb' :
  zget (hs_buckets hs) i = Some hb → with_bucket hs i hb' = Some (mkHStore (<[Z.to_nat i := hb']> (hs_buckets hs)) (hs_htree hs)).
Proof.
  intros Hz%zget_Some_lt. unfold with_bucket, zset. assert ((0 <=? i) && (i <? zlen (hs_buckets hs)) = true) as -> by lia. done.
Qed.

Section Life.
Context (Conf : HStoreConfig) (mc : MCConfig) (E : Ext) (K : bytes → Prop) (collisions : Z → CollisionTable).
Context (He : store_env Conf mc E K).
Hypothesis (conf_ok : conf_for Conf (TreeDepth Conf) (TreeHeight Conf)).
Hypothesis (depth_ok : TreeDepth Conf <= 2).
Hypothesis (buckets_ok : NumBucket Conf = 16 ^ TreeDepth Conf).
Hypothesis (no_collisions : ∀ i, ct_Items (collisions i) = ∅).

Notation contents := (gmap bytes (Record_ * Z)).
Notation bucket_of := (HStoreSpec.bucket_of Conf E).
Notation share := (HStoreSpec.share Conf E).
Notation bucket_sess := (bucket_sess Conf mc E K).

(** ** One bucket *)

Lemma session_rl t old tree H0 R0 b r r' C m gs :
  session Conf mc E K t old tree H0 R0 (mkBktState b None r) C m gs → session Conf mc E K t old tree H0 R0 (mkBktState b None r') C m gs.
Proof. intros [H1 H2 H3 H4 H5 H6 H7 H8 H9]. by split. Qed.

Lemma bucket_sess_step i b x C r b' r' C' :
  bucket_sess i b x C → sess_step Conf mc E K (mkBktState b None r) C (mkBktState b' None r') C' → bucket_sess i b' x C'.
Proof.
  intros (t & old & H0 & R0 & m & gs & r0 & Ht & Hs & Hold) Hst. apply (session_rl _ _ _ _ _ _ _ r) in Hs.
  destruct (sess_step_keeps Conf mc E K (se_env _ _ _ _ He) t old _ H0 R0 _ C m gs _ C' Hs Hst) as (R0' & m' & gs' & Hs').
  by exists t, old, H0, R0', m', gs', r'.
Qed.

Lemma bucket_sess_rep i b x A : bucket_sess i b x (share i A) → bucket_rep Conf mc E K i b A.
Proof.
  intros (t & old & H0 & R0 & m & gs & r & Ht & Hs & _). destruct (newHTree_frame _ _ _ _ Ht) as (Ed & Eb & _).
  destruct (ss_frame _ _ _ _ _ _ _ _ _ _ _ _ _ Hs) as (Fd & Fb & _). cbn [bs_bkt] in Fd, Fb. split; [congruence|]. split; [congruence|].
  destruct (ss_inv _ _ _ _ _ _ _ _ _ _ _ _ _ Hs) as (G & a & Hi). by exists m, gs, G, a.
Qed.

(** ** The store *)

(** The path of a closed bucket with the contents [C]. *)
Definition path_holds (i : Z) (p : PathState) (C : contents) : Prop :=
  ∃ L0 L, holds_log Conf mc E K i L0 L p ∧ replay (mjoin L0) = C.

(** What bucket [i] holds: in a session, or at its path. *)
Definition holds_share (lf : Life) (A : contents) (i : Z) (hb : HBucket) : Prop :=
  if hb_ready hb then ∃ b x, hb_bkt hb = Some b ∧ lf_extra lf !! i = Some x ∧ bucket_sess i b x (share i A)
  else hb_bkt hb = None ∧ path_holds i (default PNone (lf_home lf !! i)) (share i A).

Definition ready_of (lf : Life) : list bool := hb_ready <$> hs_buckets (lf_store lf).
Definition routed_to (stat : list Z) : list bool := (λ s, 0 <? s) <$> stat.

(** The buckets of the routes are in service, and every bucket holds its share of [A]. *)
Record life_sess (lf : Life) (A : contents) : Prop := {
  le_len : zlen (lf_stat lf) = NumBucket Conf;
  le_ready : ready_of lf = routed_to (lf_stat lf);
  le_failed : lf_failed lf = ∅;
  le_bucket i hb : zget (hs_buckets (lf_store lf)) i = Some hb → holds_share lf A i hb
}.

Lemma life_sess_rep lf A : life_sess lf A → store_rep Conf mc E K (lf_store lf) (ready_of lf) A.
Proof.
  intros [_ _ _ Hb]. split; [done|]. intros i hb Hi. specialize (Hb i hb Hi). unfold holds_share in Hb. destruct (hb_ready hb); [|apply Hb].
  destruct Hb as (b & x & Hbk & _ & Hs). exists b. split; [done|]. by eapply bucket_sess_rep.
Qed.

Lemma life_len lf A : life_sess lf A → zlen (hs_buckets (lf_store lf)) = NumBucket Conf.
Proof.
  intros [Hl Hr _ _]. apply (f_equal length) in Hr. unfold ready_of, routed_to, zlen in *. rewrite !length_fmap in Hr. congruence.
Qed.

Lemma served lf A key :
  life_sess lf A → served_key Conf E (ready_of lf) key →
  ∃ hb b x, zget (hs_buckets (lf_store lf)) (bucket_of key) = Some hb ∧ hb_ready hb = true ∧ hb_bkt hb = Some b
    ∧ lf_extra lf !! bucket_of key = Some x ∧ bucket_sess (bucket_of key) b x (share (bucket_of key) A).
Proof.
  intros Hl Hs. destruct (served_bucket Conf mc E K _ _ _ key (life_sess_rep _ _ Hl) Hs) as (hb & b & Hz & Hrd & Hb & _).
  pose proof (le_bucket _ _ Hl _ _ Hz) as Hx. unfold holds_share in Hx. rewrite Hrd in Hx. destruct Hx as (b' & x & Hb' & Hx & Hses).
  rewrite Hb in Hb'. injection Hb' as <-. by exists hb, b, x.
Qed.

(** One bucket changed. *)
Lemma life_one lf lf' A A' i hb hb' :
  life_sess lf A → zget (hs_buckets (lf_store lf)) i = Some hb →
  hs_buckets (lf_store lf') = <[Z.to_nat i := hb']> (hs_buckets (lf_store lf)) → lf_failed lf' = ∅ →
  zlen (lf_stat lf') = NumBucket Conf → ready_of lf' = routed_to (lf_stat lf') →
  (∀ j, j ≠ i → lf_extra lf' !! j = lf_extra lf !! j ∧ lf_home lf' !! j = lf_home lf !! j ∧ share j A' = share j A) →
  holds_share lf' A' i hb' → life_sess lf' A'.
Proof.
  intros Hl Hi Hbs Hf Hln Hr Hoth Hh. split; [done|done|done|]. intros j hbj Hj. rewrite Hbs in Hj. pose proof (zget_Some_lt _ _ _ Hi) as Hlt.
  destruct (decide (j = i)) as [->|Hne]; [rewrite (zget_insert _ _ _ _ Hi) in Hj; by injection Hj as <-|].
  rewrite zget_insert_ne in Hj by lia. pose proof (le_bucket _ _ Hl j hbj Hj) as Hhj. destruct (Hoth j Hne) as (E1 & E2 & E3).
  unfold holds_share in *. by rewrite E1, E2, E3.
Qed.

(** One bucket in service went a step on. *)
Lemma life_bucket lf A A' i hb x hb' b' hs r :
  life_sess lf A → zget (hs_buckets (lf_store lf)) i = Some hb → hb_ready hb = true → hb_ready hb' = true → hb_bkt hb' = Some b' →
  lf_extra lf !! i = Some x → bucket_sess i b' x (share i A') → (∀ j, j ≠ i → share j A' = share j A) →
  with_bucket (lf_store lf) i hb' = Some hs → life_sess (lf_with_store lf hs r) A' ∧ ready_of (lf_with_store lf hs r) = ready_of lf.
Proof.
  intros Hl Hi Hrd Hrd' Hb' Hx Hs Hsh Hw. unfold with_bucket in Hw.
  destruct (zset (hs_buckets (lf_store lf)) i hb') as [hbs|] eqn:Hz; [|done]. injection Hw as <-. apply zset_Some in Hz as [Hlt ->].
  pose proof Hi as [H0 Hil]%zget_Some.
  assert (ready_of (lf_with_store lf (mkHStore (<[Z.to_nat i := hb']> (hs_buckets (lf_store lf))) (hs_htree (lf_store lf))) r) = ready_of lf) as Hsame.
  { unfold ready_of. cbn [lf_with_store lf_store hs_buckets]. rewrite list_fmap_insert, Hrd'. apply list_insert_id. by rewrite list_lookup_fmap, Hil, <- Hrd. }
  split; [|done]. eapply (life_one lf _ A A' i hb hb'); [done|done|done|apply Hl|apply Hl|rewrite Hsame; apply Hl|by intros j Hj; split_and!; [..|apply Hsh]|].
  unfold holds_share. rewrite Hrd'. by exists b', x.
Qed.

(** ** Background tasks *)

(** A whole flush is two steps of its bucket. *)
Lemma bucket_sess_flush i b x C chunk force now r :
  bucket_sess i b x C → (0 <= chunk → ∃ dc, zget (ds_chunks (bk_datas b)) chunk = Some dc ∧ 0 < dc_writingHead dc) →
  ∃ ds r', ds_flush Conf (bk_datas b) chunk force now r = Some (ds, r') ∧ bucket_sess i (with_datas b ds) x C.
Proof.
  intros (t & old & H0 & R0 & m & gs & r0 & Ht & Hs & Hold) Hch. apply (session_rl _ _ _ _ _ _ _ r) in Hs. unfold ds_flush.
  destruct (ss_inv _ _ _ _ _ _ _ _ _ _ _ _ _ Hs) as (G & a & Hi). cbn [bs_bkt bs_todo] in Hi.
  destruct (flush_begin_spec Conf mc (bk_datas b) gs chunk force now r) as (ds1 & todo & r1 & gs1 & Hb & Hs1 & _); [apply Hi| |].
  { rewrite (bi_len _ _ _ _ _ _ _ _ _ _ _ Hi). destruct (Z.ltb_spec chunk 0); [unfold MAX_NUM_CHUNK; lia|].
    destruct (Hch ltac:(done)) as (dc & Hdc & Hw). destruct (written_used Conf mc _ _ _ _ _ (bi_store _ _ _ _ _ _ _ _ _ _ _ Hi) Hdc Hw) as (g & Hg & _).
    apply zget_Some_lt in Hg. rewrite (bi_len _ _ _ _ _ _ _ _ _ _ _ Hi) in Hg. lia. }
  destruct (flush_end_spec Conf mc ds1 gs1 todo r1 Hs1) as (ds2 & r2 & gs2 & He2 & _). rewrite Hb. cbn [mbind option_bind]. rewrite He2.
  exists ds2, r2. split; [done|].
  destruct (sess_step_keeps Conf mc E K (se_env _ _ _ _ He) t old _ H0 R0 (mkBktState b None r) C m gs (mkBktState (with_datas b ds1) todo r1) C Hs)
    as (R1 & m1 & gs1' & Hs1'); [by eapply (sp_flush_begin _ _ _ _ (mkBktState b None r))|].
  destruct (sess_step_keeps Conf mc E K (se_env _ _ _ _ He) t old _ H0 R1 _ C m1 gs1' (mkBktState (with_datas b ds2) None r2) C Hs1')
    as (R2 & m2 & gs2' & Hs2'); [by apply (sp_flush_end _ _ _ _ (mkBktState (with_datas b ds1) todo r1))|].
  by exists t, old, H0, R2, m2, gs2', r2.
Qed.

(** A dump of the hints. *)
Lemma bucket_sess_dump i b x C now :
  bucket_sess i b x C → hm_maxDumpableChunkID (bk_hints b) < MAX_NUM_CHUNK →
  ∃ sec h start, dumpAndMerge Conf (bk_hints b) false now = Some (sec, h, start) ∧ bucket_sess i (with_hints b h) x C.
Proof.
  intros Hb Hmd. pose proof Hb as (t & old & H0 & R0 & m & gs & r & Ht & Hs & Hold). destruct (ss_hints _ _ _ _ _ _ _ _ _ _ _ _ _ Hs) as (G & Hh).
  destruct (hint_sess_dump Conf E K t _ _ _ _ _ _ false now Hh) as (sec & h & start & G' & Hd & _); [apply Hs|done|].
  cbn [bs_bkt] in Hd. exists sec, h, start. split; [done|]. eapply (bucket_sess_step i b x C ResetAll _ ResetAll); [done|].
  by eapply (sp_dump _ _ _ _ (mkBktState b None ResetAll)).
Qed.

(** All buckets went a step on, each with its contents. *)
Definition goes_on (hb hb' : HBucket) : Prop :=
  hb_ready hb' = hb_ready hb ∧ (hb_bkt hb = None → hb_bkt hb' = None)
  ∧ ∀ i b x C, hb_ready hb = true → hb_bkt hb = Some b → bucket_sess i b x C → ∃ b', hb_bkt hb' = Some b' ∧ bucket_sess i b' x C.

Lemma goes_on_refl hb : goes_on hb hb.
Proof. split; [done|]. split; [done|]. intros i b x C _ Hb Hs. by exists b. Qed.

Lemma goes_on_to hb b b' :
  hb_bkt hb = Some b → (∀ i x C, bucket_sess i b x C → bucket_sess i b' x C) → goes_on hb (hb_with hb b').
Proof.
  intros Hb Hs. split; [done|]. split; [congruence|]. intros i b0 x C _ Hb0 Hs0. rewrite Hb in Hb0. injection Hb0 as <-.
  exists b'. split; [done|by apply Hs].
Qed.

Lemma life_all lf A hs r :
  life_sess lf A → Forall2 goes_on (hs_buckets (lf_store lf)) (hs_buckets hs) →
  life_sess (lf_with_store lf hs r) A ∧ ready_of (lf_with_store lf hs r) = ready_of lf.
Proof.
  intros [Hln Hr Hfl Hb] Hf.
  assert (ready_of (lf_with_store lf hs r) = ready_of lf) as Hsame.
  { unfold ready_of. cbn [lf_with_store lf_store]. clear -Hf. induction Hf as [|hb hb' hbs hbs' H _ IH]; [done|].
    rewrite !fmap_cons, IH. f_equal. by apply H. }
  split; [|done]. split; [done|by rewrite Hsame|done|].
  intros i hb' Hi. pose proof Hi as [H0 Hi']%zget_Some. destruct (Forall2_lookup_r _ _ _ _ _ Hf Hi') as (hb & Hhb & Hrd & Hno & Hse).
  specialize (Hb i hb ltac:(by apply zget_Some)). unfold holds_share in *. rewrite Hrd.
  destruct (hb_ready hb); [|by destruct Hb as [?%Hno ?]]. destruct Hb as (b & x & Hbk & Hx & Hs).
  destruct (Hse i b x _ eq_refl Hbk Hs) as (b' & ? & ?). by exists b', x.
Qed.

(** A ready bucket is in a session. *)
Definition in_session (hb : HBucket) : Prop := hb_ready hb = true → ∃ i b x C, hb_bkt hb = Some b ∧ bucket_sess i b x C.

Lemma life_in_session lf A : life_sess lf A → Forall in_session (hs_buckets (lf_store lf)).
Proof.
  intros Hl. apply Forall_lookup. intros i hb Hi Hr. pose proof (le_bucket _ _ Hl (Z.of_nat i) hb ltac:(by rewrite zget_nat)) as Hb.
  unfold holds_share in Hb. rewrite Hr in Hb. destruct Hb as (b & x & ? & _ & ?). by eexists _, b, x, _.
Qed.

Lemma flush_goes_on force now hbs : ∀ r hbs' r',
  flush_buckets Conf hbs force now r = Some (hbs', r') → Forall2 goes_on hbs hbs'.
Proof.
  induction hbs as [|hb hbs IH]; intros r hbs' r' Hf; cbn [flush_buckets] in Hf; [by injection Hf as <- _|].
  destruct (match hb_bkt hb with Some b => _ | None => _ end) as [[hb1 r1]|] eqn:Hhb; [|done]. cbn [mbind option_bind] in Hf.
  destruct (flush_buckets Conf hbs force now r1) as [[hbs1 r2]|] eqn:Hr; [|done]. injection Hf as <- _.
  constructor; [|by eapply IH]. destruct (hb_bkt hb) as [b|] eqn:Hb; [|injection Hhb as <- _; apply goes_on_refl].
  destruct (ds_flush _ _ _ _ _ _) as [[ds r3]|] eqn:Hfl; [|done]. injection Hhb as <- _. eapply goes_on_to; [done|]. intros i x C Hs.
  destruct (bucket_sess_flush i b x C (-1) force now r Hs) as (ds2 & r4 & Hfl' & Hs'); [lia|]. rewrite Hfl in Hfl'. by injection Hfl' as <- _.
Qed.

Definition dumpable (hb : HBucket) : Prop := ∀ b, hb_bkt hb = Some b → hm_maxDumpableChunkID (bk_hints b) < MAX_NUM_CHUNK.

Lemma dump_goes_on now hbs :
  Forall in_session hbs → Forall dumpable hbs → ∃ hbs' starts, dump_buckets Conf hbs now = Some (hbs', starts) ∧ Forall2 goes_on hbs hbs'.
Proof.
  induction hbs as [|hb hbs IH]; intros Hin Hmd; cbn [dump_buckets]; [by eexists [], []|].
  apply Forall_cons in Hin as [Hi Hin], Hmd as [Hm Hmd]. destruct (IH Hin Hmd) as (hbs' & starts & -> & Hf).
  destruct (hb_ready hb) eqn:Hrd; [|eexists _, _; split; [done|]; constructor; [apply goes_on_refl|done]].
  destruct (Hi Hrd) as (i & b & x & C & Hb & Hs). destruct (bucket_sess_dump i b x C now Hs (Hm b Hb)) as (sec & h & st & Hd & _).
  rewrite Hb. cbn [mbind option_bind]. rewrite Hd. cbn [mbind option_bind]. eexists _, _. split; [done|]. constructor; [|done].
  eapply goes_on_to; [done|]. intros i' x' C' Hs'. destruct (bucket_sess_dump i' b x' C' now Hs' (Hm b Hb)) as (sec' & h' & st' & Hd' & Hs2).
  rewrite Hd in Hd'. by injection Hd' as _ <- _.
Qed.

(** The merge channel is not part of what the hints hold. *)
Lemma bucket_sess_chan i b x C chan : bucket_sess i b x C → bucket_sess i (with_hints b (hm_with_chan (bk_hints b) chan)) x C.
Proof.
  intros (t & old & H0 & R0 & m & gs & r & Ht & [(G & a & Hi) S2 S3 S4 S5 (G1 & Hh) S7 S8 S9] & Hold).
  exists t, old, H0, R0, m, gs, r. split; [done|]. split; [|done].
  split; cbn [bs_bkt bs_todo with_hints bk_htree bk_hints bk_datas]; try done.
  - exists G, a. destruct Hi as [I1 I2 I3 I4 [J1 J2 J3 J4 J5 J6] I6 I7 I8 I9 I10]. by split.
  - exists G1. destruct Hh as [(a1 & [J1 J2 J3 J4 J5 J6]) h2 h3 h4 [D1 D2 D3 D4 D5]]. split; [exists a1; by split|done|done|exact h4|by split].
Qed.

Lemma chan_goes_on hb :
  goes_on hb (match hb_bkt hb with Some b => hb_with hb (with_hints b (hm_with_chan (bk_hints b) true)) | None => hb end).
Proof. destruct (hb_bkt hb) as [b|] eqn:Hb; [|apply goes_on_refl]. eapply goes_on_to; [done|]. intros. by apply bucket_sess_chan. Qed.

(** ** Requests *)

(** The bucket that a request goes to. *)
Lemma routed lf A key :
  life_sess lf A → K key → served_key Conf E (ready_of lf) key →
  ∃ ki hb b x, route Conf E (prepare key false) = Some ki ∧ ki_Key ki = key ∧ zget (hs_buckets (lf_store lf)) (ki_BucketID ki) = Some hb
    ∧ ki_BucketID ki = bucket_of key ∧ hb_ready hb = true ∧ hb_bkt hb = Some b ∧ lf_extra lf !! bucket_of key = Some x
    ∧ bucket_sess (bucket_of key) b x (share (bucket_of key) A) ∧ key_ok Conf E K (bk_htree b) ki.
Proof.
  intros Hl HK Hsv. destruct (served lf A key Hl Hsv) as (hb & b & x & Hz & Hrd & Hb & Hx & Hs).
  destruct (route_spec Conf mc E K He key) as (ki & Hrt & H1 & H2 & H3 & H4 & H5). exists ki, hb, b, x. rewrite H4. split_and!; try done.
  eapply (key_ok_of Conf mc E K He); [done|done|done|done|done|by eapply bucket_sess_rep].
Qed.

Lemma version_fits_share A key : version_fits A key → version_fits (share (bucket_of key) A) key.
Proof. intros Hver rec vh. rewrite share_lookup by done. apply Hver. Qed.

Ltac into_bucket Hst Hrt Hz Hrd Hb :=
  rewrite Hrt in Hst; cbn [mbind option_bind] in Hst; rewrite Hz in Hst; cbn [mbind option_bind] in Hst;
  unfold hb_ready in Hst, Hrd; cbn [hb_count_set hb_count_get hb_State hb_bkt] in Hst; rewrite Hrd, Hb in Hst; cbn [negb mbind option_bind] in Hst.

Lemma set_keeps lf A key v now err hs r :
  life_sess lf A → K key → served_key Conf E (ready_of lf) key → append_ok Conf mc (mkRecord key v) → is_u16 (ValueHash (p_meta v)) →
  store_room Conf E (lf_store lf) key → now ≠ 0 → version_fits A key → ¬ remarks Conf (A !! key) v →
  hs_Set Conf mc E (lf_store lf) (prepare key false) v now (lf_rl lf) = Some (err, hs, r) →
  life_sess (lf_with_store lf hs r) (put A key (snd (abs_set Conf (A !! key) key v))) ∧ ready_of (lf_with_store lf hs r) = ready_of lf.
Proof.
  intros Hl HK Hsv Ha Hvh Hroom Hnow Hver Hnm Hst. destruct (routed lf A key Hl HK Hsv) as (ki & hb & b & x & Hrt & H1 & Hz & H4 & Hrd & Hb & Hx & Hs & Hk).
  unfold hs_Set in Hst. into_bucket Hst Hrt Hz Hrd Hb.
  destruct (checkAndSet _ _ _ _ _ _ _ _) as [[[[e b'] sp] r1]|] eqn:Hcs; [|done]. cbn [mbind option_bind] in Hst.
  destruct (with_bucket _ _ _) as [hs1|] eqn:Hw; [|done]. injection Hst as <- <- <-. rewrite H4 in Hz, Hw.
  eapply (life_bucket lf A _ (bucket_of key) hb x _ b'); [done|done|exact Hrd| | |done| |by intros j Hj; apply share_put_out|exact Hw]; [done|done|].
  rewrite share_put_in by done. eapply (bucket_sess_step _ b x _ (lf_rl lf) b' r1); [done|].
  pose proof (sp_set Conf mc E K (mkBktState b None (lf_rl lf)) (share (bucket_of key) A) ki v now e b' sp r1) as Hsp.
  rewrite H1, share_lookup in Hsp by done. apply Hsp; [split; [done|by rewrite H1]|by eapply Hroom|done|by apply version_fits_share|done|done].
Qed.

Lemma incr_keeps lf A key value now n hs r :
  life_sess lf A → K key → served_key Conf E (ready_of lf) key → is_i64 value →
  (∀ n ver, is_i64 n → is_i32 ver → append_ok Conf mc (counter key n ver now)) →
  store_room Conf E (lf_store lf) key → now ≠ 0 → version_fits A key →
  hs_Incr Conf mc E (lf_store lf) (prepare key false) value now (lf_rl lf) = Some (n, hs, r) →
  life_sess (lf_with_store lf hs r) (put A key (snd (abs_incr (A !! key) key value now))) ∧ ready_of (lf_with_store lf hs r) = ready_of lf.
Proof.
  intros Hl HK Hsv Hval Ha Hroom Hnow Hver Hst. destruct (routed lf A key Hl HK Hsv) as (ki & hb & b & x & Hrt & H1 & Hz & H4 & Hrd & Hb & Hx & Hs & Hk).
  unfold hs_Incr in Hst. into_bucket Hst Hrt Hz Hrd Hb.
  destruct (incr _ _ _ _ _ _ _ _) as [[[[e b'] sp] r1]|] eqn:Hcs; [|done]. cbn [mbind option_bind] in Hst.
  destruct (with_bucket _ _ _) as [hs1|] eqn:Hw; [|done]. injection Hst as <- <- <-. rewrite H4 in Hz, Hw.
  eapply (life_bucket lf A _ (bucket_of key) hb x _ b'); [done|done|exact Hrd| | |done| |by intros j Hj; apply share_put_out|exact Hw]; [done|done|].
  rewrite share_put_in by done. eapply (bucket_sess_step _ b x _ (lf_rl lf) b' r1); [done|].
  pose proof (sp_incr Conf mc E K (mkBktState b None (lf_rl lf)) (share (bucket_of key) A) ki value now e b' sp r1) as Hsp.
  rewrite H1, share_lookup in Hsp by done. apply Hsp; [split; [done|by rewrite H1]|by eapply Hroom|done|by apply version_fits_share|done].
Qed.

Lemma get_keeps lf A key memOnly res hs r :
  life_sess lf A → K key → served_key Conf E (ready_of lf) key →
  hs_Get Conf mc E (lf_store lf) (prepare key false) memOnly (lf_rl lf) = Some (res, hs, r) →
  life_sess (lf_with_store lf hs r) A ∧ ready_of (lf_with_store lf hs r) = ready_of lf.
Proof.
  intros Hl HK Hsv Hst. destruct (routed lf A key Hl HK Hsv) as (ki & hb & b & x & Hrt & H1 & Hz & H4 & Hrd & Hb & Hx & Hs & Hk).
  unfold hs_Get in Hst. into_bucket Hst Hrt Hz Hrd Hb.
  destruct (bkt_get _ _ _ _ _ _ _) as [[[e b'] r1]|] eqn:Hcs; [|done]. cbn [mbind option_bind] in Hst.
  destruct (with_bucket _ _ _) as [hs1|] eqn:Hw; [|done]. injection Hst as <- <- <-. rewrite H4 in Hz, Hw.
  eapply (life_bucket lf A A (bucket_of key) hb x _ b'); [done|done|exact Hrd| | |done| |done|exact Hw]; [done|done|].
  eapply (bucket_sess_step _ b x _ (lf_rl lf) b' r1); [done|]. by eapply (sp_get Conf mc E K (mkBktState b None (lf_rl lf)) _ ki).
Qed.

(** ** Closing buckets *)

Definition closeable (b : Bucket) : Prop := settled_down (mkBktState b None ResetAll) ∧ has_room b ∧ leafs_fit b.

Lemma path_holds_live i p C : path_holds i p C → live C = C.
Proof. intros (L0 & L & _ & <-). apply live_id, replay_positive. Qed.

Lemma log_pair_rec i t rec0 rec :
  newHTree (TreeDepth Conf) i (TreeHeight Conf) = Some t → log_pair Conf mc E K t rec0 rec → rec_pair Conf mc E K i rec0 rec.
Proof.
  intros Ht [H1 H2 H3 [_ H4]]. destruct (newHTree_frame _ _ _ _ Ht) as (Ed & Eb & _). split; try done. unfold HStoreSpec.bucket_of. congruence.
Qed.

(** Closing a bucket leaves a path with its contents. *)
Lemma bucket_sess_close i b x C now r :
  0 <= i < NumBucket Conf → bucket_sess i b x C → closeable b →
  ∃ o r', bkt_close Conf (open_of b x) now r = Some (o, r') ∧ path_holds i (PDir (dir_of o)) (live C).
Proof.
  intros Hi (t & old & H0 & R0 & m & gs & r0 & Ht & Hs & Hold) ([_ Hq] & Hroom & Hlf).
  edestruct (session_close Conf mc E K (se_env _ _ _ _ He) t i Ht conf_ok depth_ok) as (o & r' & Hc & L0 & L & Hf & Hl & Hp & Hd & Hr);
    [by rewrite <- buckets_ok|exact (Hs : session Conf mc E K t old (op_TreeID (open_of b x)) H0 R0 _ C m gs)|done|done|done|exact Hold|].
  exists o, r'. split; [exact Hc|]. exists L0, L. split; [|done]. split; [|done|].
  - eapply Forall2_impl; [exact Hp|]. intros y z Hyz. eapply Forall2_impl; [exact Hyz|]. intros. by eapply log_pair_rec.
  - split; [done|]. intros t' Ht'. rewrite Ht in Ht'. by injection Ht' as <-.
Qed.

(** What closing leaves at the path of bucket [i]. *)
Lemma path_at_one lf lf' j :
  zget (hs_buckets (lf_store lf')) j = zget (hs_buckets (lf_store lf)) j → lf_extra lf' !! j = lf_extra lf !! j →
  lf_home lf' !! j = lf_home lf !! j → path_at lf' j = path_at lf j.
Proof. unfold path_at. by intros -> -> ->. Qed.

Lemma close_buckets_ok A now ids : ∀ lf,
  NoDup ids → lf_failed lf = ∅ → (∀ i, i ∈ ids → 0 <= i < NumBucket Conf) →
  (∀ i, i ∈ ids → ∃ hb, zget (hs_buckets (lf_store lf)) i = Some hb ∧ holds_share lf A i hb ∧ ∀ b, hb_bkt hb = Some b → closeable b) →
  ∃ lf', close_buckets Conf ids lf now = Some lf' ∧ (∀ i, i ∈ ids → path_holds i (path_at lf' i) (live (share i A)))
    ∧ ∀ i, i ∉ ids → path_at lf' i = path_at lf i.
Proof.
  induction ids as [|i ids IH]; intros lf Hnd Hfl Hrg Hall; cbn [close_buckets].
  { exists lf. split; [done|]. split; [|done]. by intros i Hi%not_elem_of_nil. }
  apply NoDup_cons in Hnd as [Hni Hnd]. destruct (Hall i ltac:(set_solver)) as (hb & Hz & Hh & Hcl). rewrite Hz. cbn [mbind option_bind].
  rewrite Hfl, bool_decide_false by set_solver. unfold holds_share in Hh. destruct (hb_ready hb).
  - destruct Hh as (b & x & Hb & Hx & Hs). rewrite Hb, Hx. cbn [mbind option_bind].
    destruct (bucket_sess_close i b x _ now (lf_rl lf) (Hrg i ltac:(set_solver)) Hs (Hcl b Hb)) as (o & r & -> & Hp). cbn [mbind option_bind].
    unfold set_bucket. cbn [lf_with_store lf_store]. rewrite (with_bucket_at _ _ hb) by done. cbn [mbind option_bind].
    set (lf1 := set_extra _ _ _). pose proof (zget_Some_lt _ _ _ Hz) as Hlt.
    assert (∀ j, j ≠ i → zget (hs_buckets (lf_store lf1)) j = zget (hs_buckets (lf_store lf)) j ∧ lf_extra lf1 !! j = lf_extra lf !! j
      ∧ lf_home lf1 !! j = lf_home lf !! j) as Hoth.
    { intros j Hj. cbn [lf1 set_extra lf_with_store lf_store hs_buckets lf_extra lf_home]. rewrite zget_insert_ne, lookup_insert_ne by lia. done. }
    destruct (IH lf1) as (lf' & -> & Hin & Hout); [done|done|set_solver| |].
    { intros j Hj. destruct (Hoth j ltac:(set_solver)) as (E1 & E2 & E3). rewrite E1. destruct (Hall j ltac:(set_solver)) as (hbj & Hzj & Hhj & Hcj).
      exists hbj. split; [done|]. split; [|done]. unfold holds_share in *. by rewrite E2, E3. }
    exists lf'. split; [done|]. split.
    + intros j [->|Hj]%elem_of_cons; [|by apply Hin]. rewrite Hout by done. unfold path_at.
      cbn [lf1 set_extra lf_with_store lf_store hs_buckets lf_extra]. rewrite (zget_insert _ _ _ _ Hz), lookup_insert_eq.
      cbn [mbind option_bind hb_with hb_bkt]. by destruct o.
    + intros j [Hj Hji]%not_elem_of_cons. rewrite Hout by done. destruct (Hoth j Hj) as (? & ? & ?). by apply path_at_one.
  - destruct Hh as [Hb Hp]. rewrite Hb. destruct (IH lf) as (lf' & -> & Hin & Hout); [done|done|set_solver|set_solver|].
    exists lf'. split; [done|]. split; [|intros j [? ?]%not_elem_of_cons; by apply Hout].
    intros j [->|Hj]%elem_of_cons; [|by apply Hin]. rewrite Hout, (path_at_closed _ _ hb) by done. by rewrite (path_holds_live _ _ _ Hp).
Qed.

(** A home whose paths hold the map [C]. *)
Definition homes_hold (home : gmap Z PathState) (C : contents) : Prop :=
  ∀ i, 0 <= i < NumBucket Conf → path_holds i (default PNone (home !! i)) (share i C).

(** The paths of the buckets of a store. *)
Definition home_of (lf : Life) : gmap Z PathState := list_to_map ((λ i, (i, path_at lf i)) <$> bucket_range Conf).

Lemma range_nodup : NoDup (bucket_range Conf).
Proof. unfold bucket_range. apply NoDup_fmap_2; [apply _|apply NoDup_seq]. Qed.

Lemma home_of_lookup lf i : 0 <= i < NumBucket Conf → home_of lf !! i = Some (path_at lf i).
Proof.
  intros Hi. unfold home_of. apply elem_of_list_to_map; [rewrite <- list_fmap_compose; unfold compose; cbn [fst]; rewrite list_fmap_id; exact range_nodup|].
  apply list_elem_of_fmap. exists i. split; [done|]. by eapply bucket_range_elem.
Qed.

Lemma share_live i A : share i (live A) = live (share i A).
Proof.
  apply map_eq. intros key. destruct (decide (bucket_of key = i)) as [Hb|Hb].
  - rewrite share_lookup, !live_lookup, share_lookup by done. done.
  - assert (∀ B, share i B !! key = None) as Hn.
    { intros B. unfold HStoreSpec.share. apply map_lookup_filter_None. right. intros x _. exact Hb. }
    by rewrite live_lookup, !Hn.
Qed.

Definition all_closeable (lf : Life) : Prop := Forall (λ hb, ∀ b, hb_bkt hb = Some b → closeable b) (hs_buckets (lf_store lf)).

Lemma hs_Close_ok lf A now :
  life_sess lf A → all_closeable lf → ∃ lf', hs_Close Conf lf now = Some lf' ∧ homes_hold (home_of lf') (live A).
Proof.
  intros Hl Hcl. destruct (close_buckets_ok A now (bucket_range Conf) lf range_nodup (le_failed _ _ Hl)) as (lf' & Hc & Hin & _).
  - intros i. by eapply bucket_range_elem.
  - intros i Hi. apply bucket_range_elem in Hi; [|done..]. destruct (zget_lt (hs_buckets (lf_store lf)) i) as [hb Hz]; [by rewrite (life_len _ _ Hl)|].
    exists hb. split; [done|]. split; [by apply (le_bucket _ _ Hl)|]. apply zget_Some in Hz as [_ Hz]. by eapply (proj1 (Forall_lookup _ _) Hcl).
  - exists lf'. split; [done|]. intros i Hi. rewrite home_of_lookup, share_live by done. apply Hin. by eapply bucket_range_elem.
Qed.

(** ** Starting *)

Lemma bucket_of_range key : 0 <= bucket_of key < NumBucket Conf.
Proof.
  unfold HStoreSpec.bucket_of. rewrite buckets_ok. pose proof (getKeyHash_range Conf mc E K He key) as Hu. unfold is_u64 in Hu.
  destruct (se_depth _ _ _ _ He) as [Hd1 Hd2].
  assert (2 ^ 64 = 16 ^ TreeDepth Conf * 16 ^ (16 - TreeDepth Conf)) as Hp.
  { rewrite <- Z.pow_add_r by lia. by replace (TreeDepth Conf + (16 - TreeDepth Conf)) with 16 by lia. }
  assert (0 < 16 ^ (16 - TreeDepth Conf)) by (apply Z.pow_pos_nonneg; lia).
  split; [apply Z.div_pos; lia|]. apply Z.div_lt_upper_bound; lia.
Qed.

Lemma NewHStore_ok home C stat now :
  homes_hold home C → now ≠ 0 → zlen stat = NumBucket Conf →
  ∃ lf A, NewHStore Conf mc E collisions home stat now = Some (inl lf) ∧ life_sess lf A ∧ live A = C ∧ ready_of lf = routed_to stat.
Proof.
  intros Hh Hnow Hst.
  destruct (choose_below (λ i LL, holds_log Conf mc E K i LL.1 LL.2 (default PNone (home !! i)) ∧ replay (mjoin LL.1) = share i C) ([], []) (Z.to_nat (NumBucket Conf)))
    as [logs Hlogs].
  { intros i Hi. destruct (Hh i) as (L0 & L & H1 & H2); [lia|]. by exists (L0, L). }
  assert (homes_ok Conf mc E K logs home) as Hok by (intros i Hi; apply Hlogs; lia).
  destruct (NewHStore_rep Conf mc E K collisions He conf_ok depth_ok buckets_ok no_collisions logs home stat now Hok Hnow Hst)
    as (lf & A & Hnew & ([Hr Hbs] & Hlr & _ & Hp) & Hlive & Est & _ & _ & Hf & Hses).
  exists lf, A. split; [done|]. split; [|split; [|done]].
  - split; [congruence|unfold ready_of, routed_to; congruence|done|]. intros i hb Hi. unfold holds_share. destruct (hb_ready hb) eqn:Hrd.
    + by apply Hses.
    + specialize (Hbs i hb Hi). rewrite Hrd in Hbs. split; [done|]. destruct (Hp i) as [Hsh Hl].
      { rewrite <- Hr. apply zget_Some in Hi as [H0 Hi]. apply zget_Some. split; [done|]. rewrite list_lookup_fmap, Hi. cbn. by rewrite Hrd. }
      exists (fst (logs i)), (snd (logs i)). split; [done|]. symmetry. exact Hsh.
  - rewrite Hlive. apply map_eq. intros key. pose proof (bucket_of_range key) as Hb.
    rewrite (all_logs_lookup Conf mc E K collisions He conf_ok depth_ok buckets_ok no_collisions logs home key Hok Hb).
    unfold log_map. destruct (Hlogs (bucket_of key)) as [_ ->]; [lia|]. by rewrite share_lookup.
Qed.

(** ** Routes that change *)

Lemma live_with i Ai A :
  own_share Conf E i Ai → live Ai = live (share i A) → live (with_share Conf E i Ai A) = live A.
Proof.
  intros Ho Hl. apply map_eq. intros key. destruct (decide (bucket_of key = i)) as [Hb|Hb].
  - transitivity (live Ai !! key); [rewrite !live_lookup, with_share_lookup by done; by rewrite decide_True|].
    rewrite Hl, !live_lookup. by rewrite share_lookup.
  - rewrite !live_lookup, with_share_lookup by done. by rewrite decide_False.
Qed.

Lemma ready_insert lf i hb' s :
  ready_of lf = routed_to (lf_stat lf) → hb_ready hb' = (0 <? s) →
  hb_ready <$> <[Z.to_nat i := hb']> (hs_buckets (lf_store lf)) = routed_to (<[Z.to_nat i := s]> (lf_stat lf)).
Proof. intros Hr Hs. unfold routed_to, ready_of in *. by rewrite !list_fmap_insert, Hr, Hs. Qed.

Lemma load_ok lf A i mergeChan now :
  life_sess lf A → zget (ready_of lf) i = Some false → now ≠ 0 →
  ∃ lf' A', load_bucket Conf mc E collisions lf i mergeChan now = Some (lf', None) ∧ life_sess lf' A' ∧ live A' = live A
    ∧ lf_stat lf' = <[Z.to_nat i := BUCKET_STAT_READY]> (lf_stat lf)
    ∧ ∀ j, j ≠ i → zget (hs_buckets (lf_store lf')) j = zget (hs_buckets (lf_store lf)) j.
Proof.
  intros Hl Hi Hnow. pose proof (zget_Some_lt _ _ _ Hi) as Hlt.
  assert (zlen (ready_of lf) = NumBucket Conf) as Hlr by (unfold ready_of, zlen; rewrite length_fmap; apply (life_len _ _ Hl)).
  destruct (zget_lt (hs_buckets (lf_store lf)) i) as [hb Hz]; [rewrite (life_len _ _ Hl); lia|].
  assert (hb_ready hb = false) as Hrd.
  { unfold ready_of in Hi. apply zget_Some in Hi as [_ Hi], Hz as [_ Hz]. rewrite list_lookup_fmap, Hz in Hi. by injection Hi. }
  pose proof (le_bucket _ _ Hl i hb Hz) as Hh. unfold holds_share in Hh. rewrite Hrd in Hh. destruct Hh as [Hb (L0 & L & Hhl & Hrep)].
  unfold load_bucket. rewrite Hz, (path_at_closed lf i hb) by done. cbn [mbind option_bind].
  destruct (alloc_ok Conf mc E K (λ _, (L0, L)) i _ Hhl) as (d & -> & Hf & Hix).
  destruct (open_path_ok Conf mc E K collisions He conf_ok depth_ok buckets_ok no_collisions (λ _, (L0, L)) i _ d mergeChan now (lf_rl lf) Hhl)
    as (o & r & Ai & -> & Hown & Hlive & _ & Hses); [lia|done..|]. cbn [mbind option_bind].
  unfold set_bucket. cbn [lf_with_store lf_store]. rewrite (with_bucket_at _ _ hb) by done. cbn [mbind option_bind lf_stat lf_with_store].
  unfold zset. rewrite (le_len _ _ Hl). assert ((0 <=? i) && (i <? NumBucket Conf) = true) as -> by lia. cbn [mbind option_bind].
  eexists _, (with_share Conf E i Ai A). split; [done|]. split; [|split; [|split]].
  - eapply (life_one lf _ A _ i hb); [done|done|done| | | | |].
    + cbn. rewrite (le_failed _ _ Hl). set_solver.
    + cbn. unfold zlen. rewrite length_insert. apply (le_len _ _ Hl).
    + cbn. by apply ready_insert; [apply Hl|].
    + intros j Hj. cbn. rewrite lookup_insert_ne by done. split; [done|]. split; [done|]. rewrite share_with by done. by rewrite decide_False.
    + unfold holds_share. cbn [hb_ready hb_State]. change (BUCKET_STAT_READY =? BUCKET_STAT_READY) with true.
      eexists _, _. split; [done|]. split; [cbn; apply lookup_insert_eq|]. rewrite share_with by done. by rewrite decide_True.
  - apply live_with; [done|]. rewrite Hlive. unfold log_map. cbn [fst]. rewrite Hrep. symmetry. eapply path_holds_live. by exists L0, L.
  - done.
  - intros j Hj. cbn. by apply zget_insert_ne; [lia|].
Qed.

Lemma unload_ok lf A i now :
  life_sess lf A → zget (ready_of lf) i = Some true → (∀ hb b, zget (hs_buckets (lf_store lf)) i = Some hb → hb_bkt hb = Some b → closeable b) →
  ∃ lf' A', unload_bucket Conf lf i now = Some lf' ∧ life_sess lf' A' ∧ live A' = live A
    ∧ lf_stat lf' = <[Z.to_nat i := BUCKET_STAT_EMPTY]> (lf_stat lf)
    ∧ ∀ j, j ≠ i → zget (hs_buckets (lf_store lf')) j = zget (hs_buckets (lf_store lf)) j.
Proof.
  intros Hl Hi Hcl. pose proof (zget_Some_lt _ _ _ Hi) as Hlt.
  assert (zlen (ready_of lf) = NumBucket Conf) as Hlr by (unfold ready_of, zlen; rewrite length_fmap; apply (life_len _ _ Hl)).
  destruct (zget_lt (hs_buckets (lf_store lf)) i) as [hb Hz]; [rewrite (life_len _ _ Hl); lia|].
  assert (hb_ready hb = true) as Hrd.
  { unfold ready_of in Hi. apply zget_Some in Hi as [_ Hi], Hz as [_ Hz']. rewrite list_lookup_fmap, Hz' in Hi. by injection Hi. }
  pose proof (le_bucket _ _ Hl i hb Hz) as Hh. unfold holds_share in Hh. rewrite Hrd in Hh. destruct Hh as (b & x & Hb & Hx & Hs).
  unfold unload_bucket, zset. rewrite (le_len _ _ Hl). assert ((0 <=? i) && (i <? NumBucket Conf) = true) as -> by lia.
  cbn [mbind option_bind lf_with_stat lf_store lf_extra lf_rl]. rewrite Hz. cbn [mbind option_bind]. rewrite Hb. cbn [mbind option_bind].
  rewrite Hx. cbn [mbind option_bind].
  destruct (bucket_sess_close i b x _ now (lf_rl lf) ltac:(lia) Hs (Hcl hb b Hz Hb)) as (o & r & -> & Hp). cbn [mbind option_bind].
  unfold set_bucket. cbn [lf_with_store lf_with_path lf_with_stat lf_store]. rewrite (with_bucket_at _ _ hb) by done. cbn [mbind option_bind].
  assert (own_share Conf E i (live (share i A))) as Hown.
  { intros key [y Hy]. rewrite live_lookup in Hy. destruct (share i A !! key) as [z|] eqn:Hsh; [|done].
    unfold HStoreSpec.share in Hsh. by apply map_lookup_filter_Some in Hsh as [_ ?]. }
  eexists _, (with_share Conf E i (live (share i A)) A). split; [done|]. split; [|split; [|split]].
  - eapply (life_one lf _ A _ i hb); [done|done|done|apply Hl| | | |].
    + cbn. unfold zlen. rewrite length_insert. apply (le_len _ _ Hl).
    + cbn. by apply ready_insert; [apply Hl|].
    + intros j Hj. cbn. rewrite lookup_delete_ne, lookup_insert_ne by done. split; [done|]. split; [done|]. rewrite share_with by done. by rewrite decide_False.
    + unfold holds_share. cbn [hb_ready hb_State hb_bkt]. change (BUCKET_STAT_EMPTY =? BUCKET_STAT_READY) with false. split; [done|].
      cbn. rewrite lookup_insert_eq. rewrite share_with by done. by rewrite decide_True.
  - apply live_with; [done|]. by rewrite live_live.
  - done.
  - intros j Hj. cbn. by apply zget_insert_ne; [lia|].
Qed.

(** A change of the routes that [ChangeRoute] carries out: an entry stays as it is, or
    turns on a bucket that is off, or turns off one that is on and can be closed. *)
Definition route_fits (lf : Life) (newstat : list Z) (i : Z) : Prop :=
  ∃ o n, zget (lf_stat lf) i = Some o ∧ zget newstat i = Some n
    ∧ (n = o ∨ o <= 0 < n ∨ n <= 0 < o ∧ ∀ hb b, zget (hs_buckets (lf_store lf)) i = Some hb → hb_bkt hb = Some b → closeable b).

Lemma ready_at lf A i s : life_sess lf A → zget (lf_stat lf) i = Some s → zget (ready_of lf) i = Some (0 <? s).
Proof.
  intros Hl [H0 Hs]%zget_Some. rewrite (le_ready _ _ Hl). apply zget_Some. split; [done|]. unfold routed_to. by rewrite list_lookup_fmap, Hs.
Qed.

Lemma route_fits_other lf lf' newstat i j s :
  0 <= i → lf_stat lf' = <[Z.to_nat i := s]> (lf_stat lf) →
  (∀ j, j ≠ i → zget (hs_buckets (lf_store lf')) j = zget (hs_buckets (lf_store lf)) j) → j ≠ i →
  route_fits lf newstat j → route_fits lf' newstat j.
Proof. intros Hi Hst Hbs Hne (o & n & H). exists o, n. by rewrite Hst, zget_insert_ne, Hbs. Qed.

Lemma change_route_sess newstat mergeChan now ids : ∀ lf A,
  now ≠ 0 → NoDup ids → life_sess lf A → (∀ i, i ∈ ids → route_fits lf newstat i) →
  ∃ lf' ld ul A', change_route Conf mc E collisions ids newstat lf mergeChan now = Some (lf', ld, ul, None)
    ∧ life_sess lf' A' ∧ live A' = live A
    ∧ ∀ i, (0 <? default 0 (zget (lf_stat lf') i)) = (0 <? default 0 (zget (if decide (i ∈ ids) then newstat else lf_stat lf) i)).
Proof.
  intros lf A Hnow. revert lf A. induction ids as [|i ids IH]; intros lf A Hnd Hl Hg; cbn [change_route].
  { exists lf, [], [], A. split; [done|]. split; [done|]. split; [done|]. intros i. by rewrite decide_False by apply not_elem_of_nil. }
  apply NoDup_cons in Hnd as [Hni Hnd]. destruct (Hg i ltac:(set_solver)) as (o & n & Ho & Hn & Hc).
  pose proof (zget_Some_lt _ _ _ Ho) as Hio. rewrite Ho, Hn. cbn [mbind option_bind]. pose proof (ready_at _ _ _ _ Hl Ho) as Hrd.
  assert (∀ lf1 s, lf_stat lf1 = <[Z.to_nat i := s]> (lf_stat lf) → (0 <? s) = (0 <? n) →
    ∀ j, (0 <? default 0 (zget (if decide (j ∈ ids) then newstat else lf_stat lf1) j))
       = (0 <? default 0 (zget (if decide (j ∈ i :: ids) then newstat else lf_stat lf) j))) as Hview.
  { intros lf1 s Hst Hs j. destruct (decide (j ∈ ids)) as [Hin|Hin]; [by rewrite decide_True by set_solver|].
    rewrite Hst, zget_update by done. destruct (decide (j = i)) as [->|Hne]; [rewrite decide_True by set_solver; by rewrite Hn|].
    by rewrite decide_False by set_solver. }
  destruct (Z.eqb_spec n o) as [->|Hne].
  { destruct (IH lf A Hnd Hl) as (lf' & ld & ul & A' & Hr & Hl' & Hlv & Hst); [intros j Hj; apply Hg; set_solver|].
    exists lf', ld, ul, A'. split; [done|]. split; [done|]. split; [done|]. intros j. rewrite Hst. apply (Hview lf o); [|done].
    symmetry. apply list_insert_id. by apply zget_Some in Ho as [_ ?]. }
  assert (∃ lf1 A1 s, life_sess lf1 A1 ∧ live A1 = live A ∧ lf_stat lf1 = <[Z.to_nat i := s]> (lf_stat lf) ∧ (0 <? s) = (0 <? n)
      ∧ (∀ j, j ≠ i → zget (hs_buckets (lf_store lf1)) j = zget (hs_buckets (lf_store lf)) j)
      ∧ if BUCKET_STAT_NOT_EMPTY <=? n then load_bucket Conf mc E collisions lf i mergeChan now = Some (lf1, None)
        else unload_bucket Conf lf i now = Some lf1) as (lf1 & A1 & s & Hl1 & Hlv1 & Hst1 & Hs & Hbs & Hrun).
  { destruct Hc as [Hc|[[Hc1 Hc2]|[[Hc1 Hc2] Hcl]]]; [done| |].
    - destruct (load_ok lf A i mergeChan now Hl) as (lf1 & A1 & Hld & ? & ? & Hst & ?); [by rewrite Hrd, (proj2 (Z.ltb_ge _ _))|done|].
      exists lf1, A1, BUCKET_STAT_READY. rewrite (proj2 (Z.leb_le _ _)) by (unfold BUCKET_STAT_NOT_EMPTY; lia).
      rewrite (proj2 (Z.ltb_lt 0 n)) by lia. done.
    - destruct (unload_ok lf A i now Hl) as (lf1 & A1 & Hld & ? & ? & Hst & ?); [by rewrite Hrd, (proj2 (Z.ltb_lt _ _))|done|].
      exists lf1, A1, BUCKET_STAT_EMPTY. rewrite (proj2 (Z.leb_gt _ _)) by (unfold BUCKET_STAT_NOT_EMPTY; lia).
      rewrite (proj2 (Z.ltb_ge 0 n)) by lia. done. }
  destruct (IH lf1 A1 Hnd Hl1) as (lf' & ld & ul & A' & Hr & Hl' & Hlv & Hst).
  { intros j Hj. eapply (route_fits_other lf lf1); [|done|done|set_solver|]; [lia|apply Hg; set_solver]. }
  destruct (BUCKET_STAT_NOT_EMPTY <=? n); rewrite Hrun; cbn [mbind option_bind]; rewrite Hr; cbn [mbind option_bind];
    (eexists _, _, _, A'; split; [done|]; split; [done|]; split; [congruence|]; intros j; rewrite Hst; by apply (Hview lf1 s)).
Qed.

Lemma ChangeRoute_sess lf A newstat mergeChan now :
  life_sess lf A → now ≠ 0 → zlen newstat = NumBucket Conf → (∀ i, 0 <= i < NumBucket Conf → route_fits lf newstat i) →
  ∃ lf' ld ul A', ChangeRoute Conf mc E collisions lf newstat mergeChan now = Some (lf', ld, ul, None)
    ∧ life_sess lf' A' ∧ live A' = live A ∧ ready_of lf' = routed_to newstat.
Proof.
  intros Hl Hnow Hlen Hg. destruct (change_route_sess newstat mergeChan now (bucket_range Conf) lf A Hnow range_nodup Hl)
    as (lf' & ld & ul & A' & Hr & Hl' & Hlv & Hst).
  { intros i Hi. apply Hg. by eapply bucket_range_elem. }
  exists lf', ld, ul, A'. split; [done|]. split; [done|]. split; [done|]. rewrite (le_ready _ _ Hl'). unfold routed_to.
  pose proof (le_len _ _ Hl') as Hln. apply list_eq. intros i. rewrite !list_lookup_fmap. unfold zlen in *.
  destruct (decide (i < length newstat)%nat) as [Hi|Hi].
  - specialize (Hst (Z.of_nat i)). rewrite decide_True in Hst by (eapply bucket_range_elem; lia). rewrite !zget_nat in Hst.
    destruct (lookup_lt_is_Some_2 newstat i Hi) as [n Hn]. destruct (lookup_lt_is_Some_2 (lf_stat lf') i) as [o Ho]; [lia|].
    rewrite Hn, Ho in *. cbn in *. by rewrite Hst.
  - by rewrite !lookup_ge_None_2 by lia.
Qed.

End Life.
