(* ===== verification/StoreRestartProps.v ===== *)
(** * The store over its whole life

    Requests, the turns of the background tasks, changes of the routes and restarts, in
    any order: the store answers as one map of records does. *)

From stdpp Require Import gmap.
From S2P Require Import Prelude Hashing Strconv Config Cmem Key Item Fixtures Leaf HTree HTreeSpec HTreeMerkle.
From S2P Require Import HTreeProps HTreeDisk DataFile Data DataSpec DataLog HintFile Hint HintSpec HintProps HintMerge.
From S2P Require Import Protocol ProtocolProps Bucket BucketSpec BucketProps BucketOpen BucketOpenSpec HintDisk BucketRecover BucketOpenProps Session Restart RestartProps.
From S2P Require Import GC Server ServerSpec HStore HStoreSpec HStoreProps StoreLife StoreLifeSpec StoreLifeProps StoreRestart.

(** ** What can happen to a store *)

Inductive life_op :=
  | LSet (key : bytes) (v : Payload) (now : Z)
  | LIncr (key : bytes) (value now : Z)
  | LGet (key : bytes)
  | LServe (req0 req : Request) (rest : bytes) (st : Stats) (now : Z) (slow : bool) (* a round of a connection *)
  | LFlush (force : bool) (now : Z)                       (* [Flusher], or [flushdatas] of the web interface *)
  | LRotated (i chunk now : Z)                            (* the flush that a rotation started *)
  | LDumper                                               (* [HintDumper] starts *)
  | LDump (now : Z)                                       (* a turn of it *)
  | LRoute (stat : list Z) (mergeChan : bool) (now : Z)   (* [ChangeRoute] *)
  | LRestart (stat : list Z) (closed now : Z).            (* [Close], and later [NewHStore] *)

Inductive life_res := RDone | RBytes (out rest : bytes) (close : bool) | RSet (err : option StoreErr) | RIncr (n : Z) | RGet (p : option Payload) (err : option StoreErr)
  | RRoute (err : option LifeErr).

(** The map as connections see it, with the writes that the model covers. *)
Definition life_model (Conf : HStoreConfig) (mc : MCConfig) (E : Ext) (K : bytes → Prop) (err_details : StoreErr → bytes) : StorageModel ServerAbs := {|
  sm_key := ab_key Conf E K;
  sm_view c k := visible (ab_map c !! k);
  sm_set := ab_set Conf err_details;
  sm_delete := ab_delete Conf;
  sm_incr := ab_incr;
  sm_set_ok c k it := append_ok Conf mc (mkRecord k (item_payload it)) ∧ ab_now c ≠ 0 ∧ version_fits (ab_map c) k
    ∧ ¬ remarks Conf (ab_map c !! k) (item_payload it);
  sm_delete_ok c k := append_ok Conf mc (mkRecord k (GetPayloadForDelete (ab_now c))) ∧ ab_now c ≠ 0 ∧ version_fits (ab_map c) k
    ∧ ¬ remarks Conf (ab_map c !! k) (GetPayloadForDelete (ab_now c));
  sm_incr_ok c k n := is_i64 n ∧ (∀ n ver, is_i64 n → is_i32 ver → append_ok Conf mc (counter k n ver (ab_now c))) ∧ ab_now c ≠ 0 ∧ version_fits (ab_map c) k
|}.

Section Exec.
Context (Conf : HStoreConfig) (mc : MCConfig) (E : Ext) (collisions : Z → CollisionTable).
(** What the server needs besides: the texts of errors, the C heap of the values it reads,
    its version and statistics and the orders of Go maps. *)
Context (err_details : StoreErr → bytes) (H : CHeap) (version : bytes) (sys : list (bytes * Z)).
Context (item_order : gmap bytes McItem → list (bytes * McItem)) (stat_order : gmap bytes Z → list (bytes * Z)).

(** The store as a connection has it. *)
Definition connected (lf : Life) (now : Z) : HServer := mkHServer (lf_store lf) (lf_rl lf) now (IsGCRunning lf).

Definition exec_op (lf : Life) (op : life_op) : option (life_res * Life) :=
  match op with
  | LSet key v now =>
      '(err, hs, r) ← hs_Set Conf mc E (lf_store lf) (prepare key false) v now (lf_rl lf); Some (RSet err, lf_with_store lf hs r)
  | LIncr key value now =>
      '(n, hs, r) ← hs_Incr Conf mc E (lf_store lf) (prepare key false) value now (lf_rl lf); Some (RIncr n, lf_with_store lf hs r)
  | LGet key =>
      '((p, _, err), hs, r) ← hs_Get Conf mc E (lf_store lf) (prepare key false) false (lf_rl lf); Some (RGet p err, lf_with_store lf hs r)
  | LServe req0 req rest st now slow =>
      out ← (match Request_Write req with Some (inl out) => Some out | _ => None end);
      sv ← ServeOnce (SC := hstore_client Conf mc E err_details) mc version sys item_order stat_order H req0 (out ++ rest) (connected lf now) st now
             false slow false;
      Some (RBytes (sv_out sv) (sv_rest sv) (sv_close sv), lf_with_store lf (hv_store (sv_store sv)) (hv_rl (sv_store sv)))
  | LFlush force now => '(hs, r) ← flushdatas Conf (lf_store lf) force now (lf_rl lf); Some (RDone, lf_with_store lf hs r)
  | LRotated i chunk now =>
      hb ← zget (hs_buckets (lf_store lf)) i;
      b ← hb_bkt hb;
      '(ds, r) ← ds_flush Conf (bk_datas b) chunk true now (lf_rl lf);
      hs ← with_bucket (lf_store lf) i (hb_with hb (with_datas b ds));
      Some (RDone, lf_with_store lf hs r)
  | LDumper => Some (RDone, lf_with_store lf (HintDumper_start (lf_store lf)) (lf_rl lf))
  | LDump now => '(hs, _) ← HintDumper_turn Conf (lf_store lf) now; Some (RDone, lf_with_store lf hs (lf_rl lf))
  | LRoute stat mergeChan now => '(lf, _, _, err) ← ChangeRoute Conf mc E collisions lf stat mergeChan now; Some (RRoute err, lf)
  | LRestart stat closed now =>
      lf ← hs_Close Conf lf closed;
      new ← NewHStore Conf mc E collisions (home_of Conf lf) stat now;
      match new with inl lf => Some (RDone, lf) | inr _ => None end
  end.

(** When an operation is in the scope of the model. *)
Definition write_fits (lf : Life) (A : gmap bytes (Record_ * Z)) (key : bytes) (now : Z) : Prop :=
  store_room Conf E (lf_store lf) key ∧ now ≠ 0 ∧ version_fits A key.

(** The requests of a connection that are. *)
Inductive wire_fits (K : bytes → Prop) (lf : Life) (A : gmap bytes (Record_ * Z)) (now : Z) : Request → Prop :=
  | wf_get t cmd ks nr :
      is_cmd ["get"; "gets"] cmd = true → ks ≠ [] → Forall (λ k, K k ∧ IsValidKeyString k = true ∧ served_key Conf E (ready_of lf) k) ks →
      Forall (λ k, IsValidKeySize mc (u32 (zlen k)) = true) ks → wire_fits K lf A now (mkRequest t cmd ks None nr)
  | wf_set t cmd k it nr :
      is_cmd ["set"; "add"; "replace"] cmd = true → K k → IsValidKeyString k = true → served_key Conf E (ready_of lf) k →
      append_ok Conf mc (mkRecord k (item_payload it)) → write_fits lf A k now → ¬ remarks Conf (A !! k) (item_payload it) →
      wire_fits K lf A now (mkRequest t cmd [k] (Some it) nr)
  | wf_delete t k nr :
      K k → IsValidKeyString k = true → served_key Conf E (ready_of lf) k →
      append_ok Conf mc (mkRecord k (GetPayloadForDelete now)) → write_fits lf A k now →
      ¬ remarks Conf (A !! k) (GetPayloadForDelete now) → wire_fits K lf A now (mkRequest t (bstr "delete") [k] None nr)
  | wf_incr t k it nr n :
      Atoi (mi_Body it) = Some n → is_i64 n → K k → IsValidKeyString k = true → served_key Conf E (ready_of lf) k →
      (∀ n ver, is_i64 n → is_i32 ver → append_ok Conf mc (counter k n ver now)) → write_fits lf A k now →
      wire_fits K lf A now (mkRequest t (bstr "incr") [k] (Some it) nr).

Definition op_fits (K : bytes → Prop) (lf : Life) (A : gmap bytes (Record_ * Z)) (op : life_op) : Prop :=
  match op with
  | LSet key v now =>
      K key ∧ served_key Conf E (ready_of lf) key ∧ append_ok Conf mc (mkRecord key v) ∧ is_u16 (ValueHash (p_meta v)) ∧ write_fits lf A key now
      ∧ ¬ remarks Conf (A !! key) v
  | LIncr key value now =>
      K key ∧ served_key Conf E (ready_of lf) key ∧ is_i64 value
      ∧ (∀ n ver, is_i64 n → is_i32 ver → append_ok Conf mc (counter key n ver now)) ∧ write_fits lf A key now
  | LGet key => K key ∧ served_key Conf E (ready_of lf) key
  | LServe req0 req rest st now slow =>
      req_ok mc H (lf_rl lf) req ∧ idle req0 req ∧ ∀ req', as_received now req req' → wire_fits K lf A now req'
  | LRotated i chunk now =>
      ∃ hb b dc, zget (hs_buckets (lf_store lf)) i = Some hb ∧ hb_ready hb = true ∧ hb_bkt hb = Some b
        ∧ zget (ds_chunks (bk_datas b)) chunk = Some dc ∧ 0 < dc_writingHead dc
  | LFlush _ _ | LDumper => True
  | LDump now => Forall dumpable (hs_buckets (lf_store lf))
  | LRoute stat mergeChan now => now ≠ 0 ∧ zlen stat = NumBucket Conf ∧ ∀ i, 0 <= i < NumBucket Conf → route_fits lf stat i
  | LRestart stat closed now => now ≠ 0 ∧ zlen stat = NumBucket Conf ∧ all_closeable lf
  end.

(** What an operation answers and does to the map: the requests as the map says, those of
    a connection in the bytes of its answer; the others answer without an error, and what
    is stored stays. *)
Definition op_effect (K : bytes → Prop) (lf : Life) (A : gmap bytes (Record_ * Z)) (op : life_op) (res : life_res) (A' : gmap bytes (Record_ * Z)) : Prop :=
  match op with
  | LSet key v now => res = RSet (fst (abs_set Conf (A !! key) key v)) ∧ A' = put A key (snd (abs_set Conf (A !! key) key v))
  | LIncr key value now => res = RIncr (fst (abs_incr (A !! key) key value now)) ∧ A' = put A key (snd (abs_incr (A !! key) key value now))
  | LGet key => A' = A ∧ ∃ p, res = RGet p None ∧
      match A !! key with Some (rec, _) => ∃ q, p = Some q ∧ same_record rec (mkRecord key q) | None => p = None end
  | LServe req0 req rest st now slow =>
      ∃ req' resp c', as_received now req req' ∧ ServerSpec.answers (life_model Conf mc E K err_details) (mkAbs now (ready_of lf) A) req' resp c'
        ∧ res = RBytes (Response_Write resp (item_order (rs_Items resp))) rest (failed resp && rq_NoReply req) ∧ A' = ab_map c'
  | LRoute _ _ _ => res = RRoute None ∧ live A' = live A
  | LRestart _ _ _ => res = RDone ∧ live A' = live A
  | _ => res = RDone ∧ A' = A
  end.

(** The buckets that are served after it. *)
Definition op_ready (lf : Life) (op : life_op) : list bool :=
  match op with LRoute stat _ _ | LRestart stat _ _ => routed_to stat | _ => ready_of lf end.

(** A store that does what the map [A] says for [n] operations to come, whatever
    they are. *)
Fixpoint follows (K : bytes → Prop) (n : nat) (lf : Life) (A : gmap bytes (Record_ * Z)) : Prop :=
  match n with
  | O => True
  | S n => ∀ op, op_fits K lf A op →
      ∃ res lf' A', exec_op lf op = Some (res, lf') ∧ op_effect K lf A op res A' ∧ ready_of lf' = op_ready lf op ∧ follows K n lf' A'
  end.

End Exec.

Section Props.
Context (Conf : HStoreConfig) (mc : MCConfig) (E : Ext) (K : bytes → Prop) (collisions : Z → CollisionTable).
Context (err_details : StoreErr → bytes) (H : CHeap) (version : bytes) (sys : list (bytes * Z)).
Context (item_order : gmap bytes McItem → list (bytes * McItem)) (stat_order : gmap bytes Z → list (bytes * Z)).
Notation contents := (gmap bytes (Record_ * Z)).
Notation exec := (exec_op Conf mc E collisions err_details H version sys item_order stat_order).
Notation effect := (op_effect Conf mc E err_details item_order K).
Notation fits := (op_fits Conf mc E H K).
Notation follows := (follows Conf mc E collisions err_details H version sys item_order stat_order K).

Section Steps.
Context (He : store_env Conf mc E K).
Hypothesis (conf_ok : conf_for Conf (TreeDepth Conf) (TreeHeight Conf)).
Hypothesis (depth_ok : TreeDepth Conf <= 2).
Hypothesis (buckets_ok : NumBucket Conf = 16 ^ TreeDepth Conf).
Hypothesis (no_collisions : ∀ i, ct_Items (collisions i) = ∅).
Hypothesis (order_ok : ∀ m, item_order m ≡ₚ map_to_list m).
Notation life_sess := (life_sess Conf mc E K).

(** Every operation that fits is carried out. *)
Definition carried_out (lf : Life) (A : contents) (op : life_op) : Prop :=
  ∃ res lf' A', exec lf op = Some (res, lf') ∧ effect lf A op res A' ∧ ready_of lf' = op_ready lf op
    ∧ life_sess lf' A'.

Lemma set_carried lf A key v now : life_sess lf A → fits lf A (LSet key v now) → carried_out lf A (LSet key v now).
Proof.
  intros Hl (HK & Hsv & Ha & Hv & (Hroom & Hnow & Hver) & Hnm).
  destruct (hs_Set_spec Conf mc E K He _ _ A key v now (lf_rl lf) (life_sess_rep _ _ _ _ _ _ Hl) HK Hsv Ha Hv Hroom) as (hs & r & Hst & _).
  destruct (set_keeps Conf mc E K He _ _ _ _ _ _ _ _ Hl HK Hsv Ha Hv Hroom Hnow Hver Hnm Hst) as [Hl' Hr].
  eexists _, _, _. split; [cbn [exec_op]; rewrite Hst; done|]. done.
Qed.

Lemma incr_carried lf A key value now : life_sess lf A → fits lf A (LIncr key value now) → carried_out lf A (LIncr key value now).
Proof.
  intros Hl (HK & Hsv & Hval & Ha & Hroom & Hnow & Hver).
  destruct (hs_Incr_spec Conf mc E K He _ _ A key value now (lf_rl lf) (life_sess_rep _ _ _ _ _ _ Hl) HK Hsv Hval Ha Hroom) as (hs & r & Hst & _).
  destruct (incr_keeps Conf mc E K He _ _ _ _ _ _ _ _ Hl HK Hsv Hval Ha Hroom Hnow Hver Hst) as [Hl' Hr].
  eexists _, _, _. split; [cbn [exec_op]; rewrite Hst; done|]. done.
Qed.

Lemma get_carried lf A key : life_sess lf A → fits lf A (LGet key) → carried_out lf A (LGet key).
Proof.
  intros Hl (HK & Hsv). destruct (hs_Get_spec Conf mc E K He _ _ A key (lf_rl lf) (life_sess_rep _ _ _ _ _ _ Hl) HK Hsv) as (p & pos & hs & r & Hst & _ & Hans).
  destruct (get_keeps Conf mc E K He _ _ _ _ _ _ _ Hl HK Hsv Hst) as [Hl' Hr].
  eexists _, _, A. split; [cbn [exec_op]; rewrite Hst; done|]. split; [|done]. split; [done|]. by exists p.
Qed.

(** The memory counters are not part of what the buckets hold. *)
Lemma life_sess_rl lf hs r r' A : life_sess (lf_with_store lf hs r) A → life_sess (lf_with_store lf hs r') A.
Proof. intros [H1 H2 H3 H4]. by split. Qed.

(** The store of [lf] gone on to [hs]. *)
Definition gone_to (lf : Life) (hs : HStore) (ready : list bool) (A : contents) : Prop :=
  ready_of (lf_with_store lf hs (lf_rl lf)) = ready ∧ life_sess (lf_with_store lf hs (lf_rl lf)) A.

Lemma life_keeps lf : keeps Conf mc E K (gone_to lf) (λ c k v,
  ab_now c ≠ 0 ∧ version_fits (ab_map c) k ∧ match v with Some v => ¬ remarks Conf (ab_map c !! k) v | None => True end).
Proof.
  split.
  - intros hs ready A k r [<- Hl] HK Hs. apply (life_sess_rl _ _ _ r) in Hl.
    destruct (hs_Get_spec Conf mc E K He _ _ A k r (life_sess_rep _ _ _ _ _ _ Hl) HK Hs) as (p & pos & hs' & r' & Hst & _ & Hans).
    destruct (get_keeps Conf mc E K He _ _ _ _ _ _ _ Hl HK Hs Hst) as [Hl' Hr]. exists p, pos, hs', r'.
    split; [done|]. split; [|done]. split; [exact Hr|]. by eapply (life_sess_rl lf hs' r').
  - intros hs ready A k v now r [<- Hl] HK Hs Ha Hv Hroom (Hnow & Hver & Hnm). apply (life_sess_rl _ _ _ r) in Hl.
    destruct (hs_Set_spec Conf mc E K He _ _ A k v now r (life_sess_rep _ _ _ _ _ _ Hl) HK Hs Ha Hv Hroom) as (hs' & r' & Hst & _).
    destruct (set_keeps Conf mc E K He _ _ _ _ _ _ _ _ Hl HK Hs Ha Hv Hroom Hnow Hver Hnm Hst) as [Hl' Hr]. exists hs', r'.
    split; [done|]. split; [exact Hr|]. by eapply (life_sess_rl lf hs' r').
  - intros hs ready A k value now r [<- Hl] HK Hs Hval Ha Hroom (Hnow & Hver & _). apply (life_sess_rl _ _ _ r) in Hl.
    destruct (hs_Incr_spec Conf mc E K He _ _ A k value now r (life_sess_rep _ _ _ _ _ _ Hl) HK Hs Hval Ha Hroom) as (hs' & r' & Hst & _).
    destruct (incr_keeps Conf mc E K He _ _ _ _ _ _ _ _ Hl HK Hs Hval Ha Hroom Hnow Hver Hst) as [Hl' Hr]. exists hs', r'.
    split; [done|]. split; [exact Hr|]. by eapply (life_sess_rl lf hs' r').
Qed.

Notation model := (life_model Conf mc E K err_details).
Notation client := (hstore_client Conf mc E err_details).

(** A store in the middle of its life meets the laws of the server. *)
Definition life_laws (lf : Life) : StorageLaws (SC := client) model.
Proof.
  pose proof (life_keeps lf) as Hkp.
  refine (Build_StorageLaws _ _ client model (rep_by (gone_to lf)) (λ v k, store_room Conf E (hv_store v) k) _ _ _ _ _ _ _ _).
  - intros c k (_ & Hv & _) ->. done.
  - intros v c r Hr. done.
  - intros v k r Hr. done.
  - intros v c k Hr Hk. exact (client_Get_keeps _ _ _ _ _ _ _ Hkp v c k Hr Hk).
  - intros v c ks Hr Hks. exact (client_GetMulti_shows _ _ _ _ _ _ _ Hkp v c ks Hr Hks).
  - intros v c k it nr Hr Hk [Hok Hf] Hroom. exact (client_Set_keeps _ _ _ _ _ _ _ Hkp v c k it Hr Hk Hok Hroom Hf).
  - intros v c k Hr Hk [Hok Hf] Hroom. exact (client_Delete_keeps _ _ _ _ _ _ _ Hkp v c k Hr Hk Hok Hroom Hf).
  - intros v c k n Hr Hk (Hi & Hok & Hf) Hroom. exact (client_Incr_keeps _ _ _ _ _ _ Hkp v c k n Hr Hk Hi Hok Hroom (conj (proj1 Hf) (conj (proj2 Hf) I))).
Defined.

Lemma wire_servable lf A now req :
  wire_fits Conf mc E K lf A now req →
  servable (SC := client) (SL := life_laws lf) model mc (connected lf now) (mkAbs now (ready_of lf) A) req.
Proof.
  intros [t cmd ks nr Hc Hne Hk Hsz|t cmd k it nr Hc HK Hv Hs Ha (Hroom & Hnow & Hver) Hnm|t k nr HK Hv Hs Ha (Hroom & Hnow & Hver) Hnm
    |t k it nr n Hn Hi HK Hv Hs Ha (Hroom & Hnow & Hver)].
  - by apply sv_get.
  - by apply sv_set.
  - by apply sv_delete.
  - by eapply sv_incr.
Qed.

(** A request leaves the served buckets as they are. *)
Lemma answers_ready c req resp c' : ServerSpec.answers model c req resp c' → ab_ready c' = ab_ready c.
Proof. by intros []. Qed.

Lemma serve_carried lf A req0 req rest st now slow :
  life_sess lf A → fits lf A (LServe req0 req rest st now slow) → carried_out lf A (LServe req0 req rest st now slow).
Proof.
  intros Hl (Hok & Hidle & Hs).
  assert (rep_by (gone_to lf) (connected lf now) (mkAbs now (ready_of lf) A)) as Hrep.
  { split; [done|]. split; [done|]. destruct Hl as [H1 H2 H3 H4]. by split. }
  destruct (ServeOnce_answers (SC := client) (SL := life_laws lf) model mc H version sys item_order stat_order order_ok
    req0 req rest (connected lf now) (mkAbs now (ready_of lf) A) st now slow Hrep Hok Hidle) as
    (out & sv & req' & resp & c' & Hw & Hsv & Hrec & Ha & [_ [Hrd Hl']] & Hout & Hrest & Hcl & _).
  { intros req' Hreq. by apply wire_servable, Hs. }
  eexists (RBytes (sv_out sv) (sv_rest sv) (sv_close sv)), _, (ab_map c').
  split; [cbn [exec_op]; rewrite Hw; cbn [mbind option_bind]; rewrite Hsv; done|].
  split; [exists req', resp, c'; by rewrite Hout, Hrest, Hcl|]. split; [rewrite (answers_ready _ _ _ _ Ha) in Hrd; exact Hrd|].
  by eapply life_sess_rl.
Qed.

Lemma rotated_carried lf A i chunk now : life_sess lf A → fits lf A (LRotated i chunk now) → carried_out lf A (LRotated i chunk now).
Proof.
  intros Hl (hb & b & dc & Hz & Hrd & Hb & Hdc & Hw). pose proof (le_bucket _ _ _ _ _ _ Hl i hb Hz) as Hx. unfold holds_share in Hx. rewrite Hrd in Hx.
  destruct Hx as (b0 & x & Hb0 & Hx & Hs). rewrite Hb in Hb0. injection Hb0 as <-.
  destruct (bucket_sess_flush Conf mc E K He i b x _ chunk true now (lf_rl lf) Hs) as (ds & r & Hf & Hs'); [intros _; by exists dc|].
  destruct (life_bucket Conf mc E K lf A A i hb x (hb_with hb (with_datas b ds)) (with_datas b ds) _ r Hl Hz Hrd Hrd eq_refl Hx Hs' ltac:(done)
    (with_bucket_at _ _ _ _ Hz)) as [Hl' Hr].
  eexists _, _, A. split; [|done]. cbn [exec_op]. rewrite Hz. cbn [mbind option_bind]. rewrite Hb. cbn [mbind option_bind]. rewrite Hf.
  cbn [mbind option_bind]. rewrite (with_bucket_at _ _ _ _ Hz). done.
Qed.

Lemma restart_carried lf A stat closed now : life_sess lf A → fits lf A (LRestart stat closed now) → carried_out lf A (LRestart stat closed now).
Proof.
  intros Hl (Hnow & Hlen & Hcl).
  destruct (hs_Close_ok Conf mc E K collisions He conf_ok depth_ok buckets_ok no_collisions lf A closed Hl Hcl) as (lf1 & Hc & Hh).
  destruct (NewHStore_ok Conf mc E K collisions He conf_ok depth_ok buckets_ok no_collisions _ _ stat now Hh Hnow Hlen) as (lf' & A' & Hn & Hl' & Hlv & Hr).
  eexists _, lf', A'. split; [cbn [exec_op]; rewrite Hc; cbn [mbind option_bind]; rewrite Hn; done|]. done.
Qed.

Lemma op_carried lf A op : life_sess lf A → fits lf A op → carried_out lf A op.
Proof.
  intros Hl Hop. destruct op as [key v now|key value now|key|req0 req rest st now slow|force now|i chunk now| |now|stat mergeChan now|stat closed now].
  - by apply set_carried.
  - by apply incr_carried.
  - by apply get_carried.
  - by apply serve_carried.
  - destruct (flushdatas_spec Conf mc E K _ _ A force now (lf_rl lf) (life_sess_rep _ _ _ _ _ _ Hl)) as (hs & r & Hf & _).
    exists RDone, (lf_with_store lf hs r), A. cbn [exec_op]. rewrite Hf. split; [done|]. split; [done|]. apply and_comm.
    unfold flushdatas in Hf. destruct (flush_buckets _ _ _ _ _) as [[hbs r1]|] eqn:Hfb; [|done]. injection Hf as <- <-.
    eapply life_all; [done|]. by eapply (flush_goes_on Conf mc E K He).
  - by apply rotated_carried.
  - eexists _, _, A. split; [done|]. split; [done|]. apply and_comm. eapply life_all; [done|]. cbn [HintDumper_start hs_buckets].
    apply Forall2_fmap_r, Forall_Forall2_diag, Forall_forall. intros hb _. exact (chan_goes_on Conf mc E K hb).
  - destruct (dump_goes_on Conf mc E K He now (hs_buckets (lf_store lf)) (life_in_session _ _ _ _ _ _ Hl) Hop) as (hbs & starts & Hd & Hf).
    eexists _, _, A. split; [cbn [exec_op]; unfold HintDumper_turn; rewrite Hd; done|]. split; [done|]. apply and_comm. by apply life_all.
  - destruct Hop as (Hnow & Hlen & Hg).
    destruct (ChangeRoute_sess Conf mc E K collisions He conf_ok depth_ok buckets_ok no_collisions lf A stat mergeChan now Hl Hnow Hlen Hg)
      as (lf' & ld & ul & A' & Hr & Hl' & Hlv & Hrd).
    eexists _, lf', A'. split; [cbn [exec_op]; rewrite Hr; done|]. done.
  - by apply restart_carried.
Qed.

Lemma life_follows n : ∀ lf A, life_sess lf A → follows n lf A.
Proof.
  induction n as [|n IH]; intros lf A Hl; [done|]. intros op Hop. destruct (op_carried lf A op Hl Hop) as (res & lf' & A' & H1 & H2 & H3 & H4).
  exists res, lf', A'. split_and!; try done. by apply IH.
Qed.

End Steps.

(** C1. The store follows one map over its life, for the operations that [op_fits]
    admits. A store is started over the directories that a crash or an orderly stop left.
    Then come, one after the other and in any order, the bytes of requests on connections,
    sets, increments, deletions and reads, turns of the flusher and of the hint dumper, the
    flushes that rotations start, changes of the routes and restarts. Each is carried out
    without a panic or an error of its own, requests are answered as the map says, on
    connections with the very bytes of that answer, the buckets served are those of the
    routes last given, and loading, unloading and restarting keep what is stored, also of
    buckets that are not served for a while; only the memory of deletions may be lost.
    [op_fits] asks this of an operation: its key is one of the distinct hashes [K] and in
    service, its record fits the limits, there is a free chunk, the clock is not 0, and the
    version stored is not -2^31; under [CheckVHash] a write is not one that gives the value
    already stored a version of its own ([remarks]), which the code does not log
    ([zero_vhash_delete_not_logged]); a change of routes turns no bucket on that is on with
    another status ([reload_twice]); a bucket is closed, by a restart or by a change of
    routes, only when the flushes that rotations started have run, since its close flushes
    the head alone ([close_loses_rotated_chunk]). Collections and merges are not part of
    the history. *)
Theorem store_follows_map n home C stat now :
  store_env Conf mc E K → conf_for Conf (TreeDepth Conf) (TreeHeight Conf) → TreeDepth Conf <= 2 →
  NumBucket Conf = 16 ^ TreeDepth Conf → (∀ i, ct_Items (collisions i) = ∅) →
  (∀ m, item_order m ≡ₚ map_to_list m) → homes_hold Conf mc E K home C → now ≠ 0 → zlen stat = NumBucket Conf →
  ∃ lf A, NewHStore Conf mc E collisions home stat now = Some (inl lf) ∧ live A = C ∧ ready_of lf = routed_to stat
    ∧ follows n lf A.
Proof.
  intros He Hc Hd Hb Hct Hord Hh Hnow Hlen.
  destruct (NewHStore_ok Conf mc E K collisions He Hc Hd Hb Hct home C stat now Hh Hnow Hlen) as (lf & A & Hn & Hl & Hlv & Hr).
  exists lf, A. split_and!; try done. by apply life_follows.
Qed.

End Props.

(** ** A run of the store of bucket 4 *)

Definition all_closeableb (lf : Life) : bool :=
  forallb (λ hb, match hb_bkt hb with Some b => closeableb b | None => true end) (hs_buckets (lf_store lf)).

Lemma all_closeableb_ok lf : all_closeableb lf = true → all_closeable lf.
Proof.
  intros H. apply Is_true_eq_left in H. unfold all_closeableb in H. rewrite forallb_True in H. eapply Forall_impl; [exact H|].
  intros hb Hb b Hbk. cbn beta in Hb. rewrite Hbk in Hb. by apply closeableb_ok, Is_true_true.
Qed.

(** A key is set, the routes take the bucket away, the store is stopped, started with
    the bucket, and a connection asks for the key. *)
Definition demo_set : life_op := LSet (bstr "hello") bye 2000.
Definition demo_away : life_op := LRoute no_stat false 3000.
Definition demo_restart : life_op := LRestart demo_stat 4000 5000.
Notation demo_exec := (exec_op demo_conf DefaultMCConfig demo_ext no_collisions no_details demo_heap (bstr "v") [] map_to_list map_to_list).

Lemma demo_run_ok :
  match NewHStore demo_conf DefaultMCConfig demo_ext no_collisions demo_home demo_stat 1000 with
  | Some (inl lf) =>
      forallb (λ hb, match hb_bkt hb with Some b => ds_newHead (bk_datas b) + 1 <? MAX_NUM_CHUNK | None => true end) (hs_buckets (lf_store lf))
      && match demo_exec lf demo_set with
         | Some (_, lf1) => bool_decide (lf_stat lf1 = demo_stat) && all_closeableb lf1
             && match demo_exec lf1 demo_away with Some (_, lf2) => all_closeableb lf2 | None => false end
         | None => false
         end
  | _ => false
  end = true.
Proof. vm_compute. reflexivity. Qed.

Lemma demo_homes_hold : homes_hold demo_conf DefaultMCConfig demo_ext demo_keys demo_home (all_logs demo_conf demo_logs).
Proof.
  intros i Hi. exists (fst (demo_logs i)), (snd (demo_logs i)). split; [by apply demo_homes_ok|]. symmetry.
  apply (share_logs demo_conf DefaultMCConfig demo_ext demo_keys no_collisions demo_store_env demo_conf_trees) with (home := demo_home);
    [vm_compute; discriminate|reflexivity|reflexivity|exact demo_homes_ok|exact Hi].
Qed.

Lemma demo_route_fits lf i : lf_stat lf = demo_stat → all_closeable lf → 0 <= i < 16 → route_fits lf no_stat i.
Proof.
  intros Hst Hcl Hi. assert (zget no_stat i = Some 0) as Hn.
  { apply zget_Some. split; [lia|]. unfold no_stat. apply lookup_replicate. lia. }
  destruct (decide (i = 4)) as [->|Hne].
  - exists 1, 0. rewrite Hst. split; [reflexivity|]. split; [exact Hn|]. right. right. split; [lia|].
    intros hb b [_ Hz]%zget_Some. by apply (proj1 (Forall_lookup _ _) Hcl _ _ Hz).
  - exists 0, 0. split; [|split; [exact Hn|by left]]. rewrite Hst. unfold demo_stat. change 4%nat with (Z.to_nat 4). by rewrite zget_insert_ne.
Qed.

Lemma bye_vhash : is_u16 (ValueHash (p_meta bye)).
Proof. by vm_compute. Qed.

Definition get_hello : Request := mkRequest 0 (bstr "get") [bstr "hello"] None false.
Definition demo_get : life_op := LServe newRequest get_hello [] NewStats 6000 false.

Lemma get_hello_received now req' : as_received now get_hello req' → ∃ t, req' = mkRequest t (bstr "get") [bstr "hello"] None false.
Proof.
  destruct req' as [t c ks it nr]. intros [(Hc & Hk & Hnr & Hi) _]. cbn [get_hello rq_Cmd rq_Keys rq_NoReply rq_Item] in *.
  subst c ks nr. exists t. by inversion Hi.
Qed.

Lemma hello_word : word (bstr "hello").
Proof. by apply bstr_word. Qed.
Lemma get_hello_idle : idle newRequest get_hello.
Proof. by split_and!. Qed.

(** What the answer to it looks like. *)
Lemma get_hello_answer c t resp c' :
  ab_map c !! bstr "hello" = Some (bye_rec, Getvhash (bstr "bye")) →
  ServerSpec.answers (life_model demo_conf DefaultMCConfig demo_ext demo_keys no_details) c (mkRequest t (bstr "get") [bstr "hello"] None false) resp c' →
  Response_Write resp (map_to_list (rs_Items resp)) = bstr "VALUE hello 0 3" ++ crlf ++ bstr "bye" ++ crlf ++ bstr "END" ++ crlf.
Proof.
  intros Hc Ha. inversion Ha as [t0 cmd ks nr items _ _ Hsh E1 E2 E3|t0 cmd k it nr Hcmd|t0 k nr|t0 k it nr n]; subst.
  assert (∃ it, items = {[bstr "hello" := it]} ∧ (mi_Flag it, mi_Body it) = (0, bstr "bye")) as (it & -> & Hit).
  { pose proof (Hsh (bstr "hello")) as Hh. rewrite decide_True in Hh by (by left). cbn [sm_view life_model] in Hh. rewrite Hc in Hh.
    change (visible (Some (bye_rec, Getvhash (bstr "bye")))) with (Some (0, bstr "bye")) in Hh.
    destruct (items !! bstr "hello") as [it|] eqn:Hit; [|discriminate Hh]. injection Hh as Hf Hb. exists it. split; [|by rewrite Hf, Hb].
    apply map_eq. intros k. destruct (decide (k = bstr "hello")) as [->|Hne]; [by rewrite lookup_singleton_eq|].
    rewrite lookup_singleton_ne by done. pose proof (Hsh k) as Hk.
    rewrite decide_False in Hk by (intros Hin%list_elem_of_singleton; by apply Hne). by destruct (items !! k). }
  cbn [rs_Items]. rewrite map_to_list_singleton. destruct it as [rt f ex cas [body a cp]]. unfold mi_Body in Hit. cbn [mi_Flag mi_arr Body] in Hit.
  injection Hit as -> ->. vm_compute. reflexivity.
Qed.

Lemma store_follows_map_witness :
  ∃ lf lf1 lf2 lf3 lf4, NewHStore demo_conf DefaultMCConfig demo_ext no_collisions demo_home demo_stat 1000 = Some (inl lf)
    ∧ demo_exec lf demo_set = Some (RSet None, lf1) ∧ demo_exec lf1 demo_away = Some (RRoute None, lf2)
    ∧ ready_of lf2 = replicate 16 false ∧ demo_exec lf2 demo_restart = Some (RDone, lf3)
    ∧ demo_exec lf3 demo_get = Some (RBytes (bstr "VALUE hello 0 3" ++ crlf ++ bstr "bye" ++ crlf ++ bstr "END" ++ crlf) [] false, lf4).
Proof.
  pose proof demo_run_ok as Hok.
  destruct (store_follows_map demo_conf DefaultMCConfig demo_ext demo_keys no_collisions no_details demo_heap (bstr "v") [] map_to_list map_to_list
    4 demo_home (all_logs demo_conf demo_logs) demo_stat 1000
    demo_store_env demo_conf_trees ltac:(vm_compute; discriminate) eq_refl ltac:(reflexivity) (λ m, Permutation_refl _) demo_homes_hold ltac:(lia) eq_refl)
    as (lf & A & Hnew & Hlive & Hrd & Hrun). rewrite Hnew in Hok. apply andb_true_iff in Hok as [Hroom Hok].
  assert (all_logs demo_conf demo_logs !! bstr "hello" = replay (mjoin demo_log) !! bstr "hello") as Hhello by (vm_compute; reflexivity).
  destruct (bye_abs A) as [Hver Habs]; [by rewrite Hlive|].
  destruct (Hrun demo_set) as (res & lf1 & A1 & Hex & [-> HA1] & Hrd1 & Hrun1).
  { split; [by left|]. split; [rewrite Hrd; vm_compute; reflexivity|]. split; [apply append_okb_ok; vm_compute; reflexivity|].
    split; [exact bye_vhash|]. split; [|intros [Hcv _]; discriminate Hcv]. split; [|split; [lia|exact Hver]]. intros hb b [_ Hz]%zget_Some Hb.
    apply Is_true_eq_left in Hroom. rewrite forallb_True in Hroom. pose proof (proj1 (Forall_lookup _ _) Hroom _ _ Hz) as Hr. cbn beta in Hr. rewrite Hb in Hr.
    apply Is_true_true in Hr. unfold has_room. lia. }
  rewrite Habs in Hex, HA1. cbn [fst snd put] in Hex, HA1. rewrite Hex in Hok. rewrite !andb_true_iff in Hok. destruct Hok as [[Hst Hcl] Hok].
  apply bool_decide_eq_true in Hst. apply all_closeableb_ok in Hcl.
  destruct (Hrun1 demo_away) as (res & lf2 & A2 & Hex2 & [-> HA2] & Hrd2 & Hrun2).
  { split; [lia|]. split; [reflexivity|]. intros i Hi. by apply demo_route_fits. }
  rewrite Hex2 in Hok. apply all_closeableb_ok in Hok.
  destruct (Hrun2 demo_restart) as (res & lf3 & A3 & Hex3 & [-> HA3] & Hrd3 & Hrun3); [split; [lia|]; split; [reflexivity|exact Hok]|].
  assert (live A3 !! bstr "hello" = Some (bye_rec, Getvhash (bstr "bye"))) as Hl3.
  { rewrite HA3, HA2, HA1, live_lookup, lookup_insert_eq. reflexivity. }
  rewrite live_lookup in Hl3. destruct (A3 !! bstr "hello") as [x|] eqn:HA3x; [|discriminate Hl3].
  destruct (0 <? rec_ver x.1); [|discriminate Hl3]. injection Hl3 as ->.
  destruct (Hrun3 demo_get) as (res & lf4 & A4 & Hex4 & (req' & resp & c' & Hrec & Hans & -> & _) & _ & _).
  { split; [apply ok_get; [reflexivity|discriminate|apply Forall_singleton; exact hello_word]|]. split; [exact get_hello_idle|].
    intros req' Hreq. destruct (get_hello_received _ _ Hreq) as [t ->]. apply wf_get; [reflexivity|discriminate| |].
    - apply Forall_singleton. split; [by left|]. split; [vm_compute; reflexivity|]. rewrite Hrd3. vm_compute. reflexivity.
    - apply Forall_singleton. vm_compute. reflexivity. }
  destruct (get_hello_received _ _ Hrec) as [t ->]. pose proof (get_hello_answer (mkAbs 6000 (ready_of lf3) A3) _ _ _ HA3x Hans) as Hout.
  exists lf, lf1, lf2, lf3, lf4. split; [exact Hnew|]. split; [exact Hex|]. split; [exact Hex2|]. split; [exact Hrd2|]. split; [exact Hex3|].
  rewrite Hex4, Hout, andb_false_r. reflexivity.
Defined.
