(* ===== verification/Web.v ===== *)
(** * The web interface (src/gobeansdb/web.go)

    The HTTP handlers that look into the store, start and cancel collections and load new
    routes. A request is its path and its form; an answer is the list of what is written.
    What the JSON and YAML packages print is kept as a value. A panic in a handler is
    recovered and written; where it may leave the store changed half way, in a reload, the
    handler gives [None]. *)

From stdpp Require Import gmap.
From S2P Require Import Prelude Hashing Strconv Config Cmem Key Item Fixtures Leaf HTree HTreeDisk.
From S2P Require Import DataFile Data HintFile Hint HintMerge Paths Bucket BucketOpen GC HStore StoreLife Routes RouteSource.

(** ** Requests and answers *)

(** The form is [None] when it does not parse. *)
Record HttpReq := mkHttp { hr_Path : bytes; hr_Form : option (list (bytes * bytes)) }.

Inductive written :=
  | Text (b : bytes)
  | NumError (e : num_err)
  | FormError
  | GcError (e : GCErr)
  | StoreError (e : StoreErr)
  | MetaText (m : Meta)
  | JsonInfos (infos : list BucketReport)
  | JsonInfo (info : BucketReport)
  | JsonGC (runs : list (Z * Z * Z * Z))
  | YamlCounts (cs : list (Z * Z * Z))
  | YamlCollisions (t : option CollisionTable)
  | Panicked.

Definition getGCQuery (r : HttpReq) : bool := bytes_eqb (Base (hr_Path r)) (bstr "query").
Definition req_bucket (r : HttpReq) : Z * option num_err := ParseInt (Base (hr_Path r)) 16 16.

(** [FormValue]: the first value of a name, or nothing. *)
Fixpoint form_get (form : list (bytes * bytes)) (name : bytes) : bytes :=
  match form with
  | [] => []
  | (n, v) :: form => if bytes_eqb n name then v else form_get form name
  end.
Definition FormValue (r : HttpReq) (name : bytes) : bytes := form_get (default [] (hr_Form r)) name.
Definition getFormValueInt (r : HttpReq) (name : bytes) (ndefault : Z) : Z * option num_err :=
  match FormValue r name with [] => (ndefault, None) | s => ParseInt s 10 0 end.

(** ** State *)

(** The globals the handlers use. *)
Record Web := mkWeb {
  wb_storage : option Life;
  wb_BucketsHex : list bytes;
  wb_AllowReload : bool;
  wb_useZK : bool;
  wb_Version : Z;
  wb_Route : option RouteTable
}.
Definition wb_with_life (w : Web) (lf : Life) : Web :=
  mkWeb (Some lf) (wb_BucketsHex w) (wb_AllowReload w) (wb_useZK w) (wb_Version w) (wb_Route w).

Section Web.
Context (Conf : HStoreConfig) (mc : MCConfig) (E : Ext) (collisions : Z → CollisionTable).

Definition starting : list written := [Text (bstr "starting")].

Definition showBucket (w : Web) (path : bytes) : list written :=
  (λ bkt, Text (bstr "<a href='/" ++ path ++ bstr "/" ++ bkt ++ bstr "'> " ++ bkt ++ bstr " </a> <p/>")) <$> wb_BucketsHex w.

(** ** Looking *)

Definition handleCollision (w : Web) (r : HttpReq) : list written :=
  match wb_storage w with
  | None => starting
  | Some lf =>
      let e := [Text (bstr "need bucket id, e.g. /collision/c")] in
      match req_bucket r with
      | (_, Some _) => e
      | (bucketID, None) =>
          if (NumBucket Conf <? bucketID) || (bucketID <? 0) then e
          else match GetCollisionsByBucket lf bucketID with Some t => [YamlCollisions t] | None => [Panicked] end
      end
  end.

(** All the served buckets of [handleBucket]; [i] is the first of [stat]. *)
Fixpoint all_infos (lf : Life) (stat : list Z) (i : Z) : option (list BucketReport) :=
  match stat with
  | [] => Some []
  | s :: stat =>
      if 0 <? s then info ← GetBucketInfo lf i; rest ← all_infos lf stat (i + 1); Some (info :: rest)
      else all_infos lf stat (i + 1)
  end.

Definition handleBucket (w : Web) (r : HttpReq) : list written :=
  match wb_storage w with
  | None => starting
  | Some lf =>
      if bytes_eqb (Base (hr_Path r)) (bstr "all") then
        match all_infos lf (lf_stat lf) 0 with Some infos => [JsonInfos infos] | None => [Panicked] end
      else
        match req_bucket r with
        | (_, Some _) => Text (bstr "<a href='/bucket/all'> all </a> <p/>") :: showBucket w (bstr "bucket")
        | (bucketID, None) => match GetBucketInfo lf bucketID with Some i => [JsonInfo i] | None => [Panicked] end
        end
  end.

Definition handleStatGetSet (w : Web) : list written :=
  match wb_storage w with
  | None => starting
  | Some lf => match GetNumCmdByBuckets Conf lf with Some cs => [YamlCounts cs] | None => [Panicked] end
  end.

(** [handleKeyhash]: the record of a key hash is read, shown and freed. *)
Definition handleKeyhash (w : Web) (r : HttpReq) : list written * Web :=
  match wb_storage w with
  | None => (starting, w)
  | Some lf =>
      let path := Base (hr_Path r) in
      if negb (zlen path =? 16) then ([], w)
      else
        match hs_GetRecordByKeyHash Conf mc E (lf_store lf) (mkKeyInfo 0 true path path [] 0) (lf_rl lf) with
        | None => ([Panicked], w)
        | Some (res, rl) =>
            let w' := wb_with_life w (lf_with_store lf (lf_store lf) rl) in
            match res with
            | None => ([], w')
            | Some (inr (e, _)) => ([StoreError e], w')
            | Some (inl (rec, _)) =>
                let '(_, rl) := Free (p_arr (r_Payload rec)) rl in
                ([Text (r_Key rec ++ bstr " " ++ [10]); MetaText (p_meta (r_Payload rec))],
                 wb_with_life w (lf_with_store lf (lf_store lf) rl))
            end
        end
  end.

Definition handleRouteVersion (w : Web) : list written :=
  if wb_useZK w then [Text (Itoa (wb_Version w))] else [Text (bstr "-1")].

(** ** Collecting *)

(** [GCBuckets]: bucket, range and chunks left of every run. *)
Definition GCBuckets (lf : Life) : option (list (Z * Z * Z * Z)) :=
  mapM (λ kv, n ← gc_remain lf kv.1; Some (kv.1, gc_Begin kv.2, gc_End kv.2, n)) (map_to_list (lf_gc lf)).

(** What is written after a collection was asked for. *)
Definition gc_page (bucketID : Z) (pretend : bool) (result : bytes) : bytes :=
  if pretend then result
  else bstr " <a href='/bucket/" ++ Itoa bucketID ++ bstr "'> /bucket/" ++ Itoa bucketID ++ bstr " </a> <p/>" ++ result.
Definition show_bool (b : bool) : bytes := if b then bstr "true" else bstr "false".

(** [handleGC] once bucket and numbers are parsed. *)
Definition run_gc (w : Web) (lf : Life) (r : HttpReq) (bucketID start end_ noGCDays now : Z) : list written * Web :=
  let pretend := negb (bytes_eqb (FormValue r (bstr "run")) (bstr "true")) in
  let merge := bytes_eqb (FormValue r (bstr "merge")) (bstr "true") in
  if bytes_eqb (FormValue r (bstr "cancel")) (bstr "true") then
    let '(src, dst, lf) := CancelGC lf bucketID in
    let result :=
      if src =? -1 then bstr "bucket " ++ Itoa bucketID ++ bstr " is not gcing"
      else bstr "cancel gc on bucket " ++ Itoa bucketID ++ bstr ", src: " ++ Itoa src ++ bstr " -> dst: " ++ Itoa dst in
    ([Text (gc_page bucketID pretend result)], wb_with_life w lf)
  else
    match hs_GC Conf lf bucketID start end_ noGCDays merge pretend now with
    | None => ([Text (gc_page bucketID pretend []); Panicked], w)
    | Some (inr e, lf) => (GcError e :: showBucket w (bstr "gc"), wb_with_life w lf)
    | Some (inl (first, last), lf) =>
        let result :=
          bstr "<p/> bucket " ++ Itoa bucketID ++ bstr ", start " ++ Itoa first ++ bstr ", end " ++ Itoa last
          ++ bstr ", merge " ++ show_bool merge ++ bstr ", pretend " ++ show_bool pretend ++ bstr " <p/>" in
        ([Text (gc_page bucketID pretend result)], wb_with_life w lf)
    end.

Definition handleGC (w : Web) (r : HttpReq) (now : Z) : list written * Web :=
  match wb_storage w with
  | None => (starting, w)
  | Some lf =>
      if getGCQuery r then (match GCBuckets lf with Some runs => [JsonGC runs] | None => [Panicked] end, w)
      else
        let fail e := (e :: showBucket w (bstr "gc"), w) in
        match req_bucket r, hr_Form r with
        | (_, Some e), _ => fail (NumError e)
        | _, None => fail FormError
        | (bucketID, None), Some _ =>
            match getFormValueInt r (bstr "start") (-1), getFormValueInt r (bstr "end") (-1), getFormValueInt r (bstr "nogcdays") (-1) with
            | (_, Some e), _, _ | _, (_, Some e), _ | _, _, (_, Some e) => fail (NumError e)
            | (start, None), (end_, None), (noGCDays, None) => run_gc w lf r bucketID start end_ noGCDays now
            end
        end
  end.

(** ** Routes *)

Section Reload.
Context (zk_get : bytes → bytes + bytes) (decode : bytes → option RouteYaml) (order : gmap Z bool → list Z).
(** The root path in ZooKeeper and the address of this server. *)
Context (root addr : bytes).

Inductive reload_result :=
  | Reloading | NotStarted | NoZK | BadVersion (e : num_err) | SameVersion (ver : Z) | BadRoute (e : RouteErr)
  | LoadFailed (e : LifeErr) | Reloaded (loaded unloaded : list Z).

(** [handleReloadRoute]: what is written, as [reload_result], and the state. The error of
    [GetRouteRaw] is overwritten before it is looked at. The routes and the version are
    taken over only when every bucket was changed. A table with another number of buckets
    than the store has is not modelled. *)
Definition handleReloadRoute (w : Web) (r : HttpReq) (mergeChan : bool) (now : Z) : option (reload_result * Web) :=
  if negb (wb_AllowReload w) then Some (Reloading, w)
  else
    match wb_storage w with
    | None => Some (NotStarted, w)
    | Some lf =>
        if negb (wb_useZK w) then Some (NoZK, w)
        else
          match getFormValueInt r (bstr "ver") (-1) with
          | (_, Some e) => Some (BadVersion e, w)
          | (ver, None) =>
              let '(data, ver, _) := GetRouteRaw zk_get root ver in
              if ver =? wb_Version w then Some (SameVersion ver, w)
              else
                res ← load_yaml decode data;
                match res with
                | inr e => Some (BadRoute e, w)
                | inl rt =>
                    rc ← GetDBRouteConfig order rt addr;
                    if negb (rc_NumBucket rc =? NumBucket Conf) then None else
                    '(lf, ld, ul, err) ← ChangeRoute Conf mc E collisions lf (rc_BucketsStat rc) mergeChan now;
                    match err with
                    | Some e => Some (LoadFailed e, wb_with_life w lf)
                    | None =>
                        Some (Reloaded ld ul,
                              mkWeb (Some (lf_with_stat lf (rc_BucketsStat rc))) (rc_BucketsHex rc) true true ver (Some rt))
                    end
                end
          end
    end.

End Reload.
End Web.
