(* ===== verification/WebProps.v ===== *)
(** * What the web interface promises

    Links lead to their buckets, looking at a collection does not start one, and loading
    new routes either changes nothing of the routes or takes over the new table, with all
    the contents of the store kept. *)

From stdpp Require Import gmap.
From S2P Require Import Prelude Hashing Strconv Config Cmem Key Item Fixtures Leaf HTree HTreeSpec HTreeMerkle.
From S2P Require Import HTreeProps HTreeDisk DataFile Data DataSpec DataLog HintFile Hint HintSpec HintProps HintMerge Paths.
From S2P Require Import Bucket BucketSpec BucketProps BucketOpen BucketOpenSpec BucketRecover BucketOpenProps GC Server ServerSpec.
From S2P Require Import HStore HStoreSpec HStoreProps StoreLife StoreLifeSpec StoreLifeProps Routes RouteSource Web.

(** ** Links *)

Lemma BucketIDHex_chars n b : n = 16 ∨ n = 256 → 0 <= b < n →
  BucketIDHex b n ≠ [] ∧ Forall (λ c, c ≠ 47) (BucketIDHex b n).
Proof.
  assert (∀ m, forallb (λ b, bool_decide (BucketIDHex b m ≠ [] ∧ Forall (λ c, c ≠ 47) (BucketIDHex b m))) (bucket_ids m) = true →
    0 <= b < m → BucketIDHex b m ≠ [] ∧ Forall (λ c, c ≠ 47) (BucketIDHex b m)) as H.
  { intros m Hm Hb. rewrite forallb_forall in Hm. specialize (Hm b). rewrite bool_decide_eq_true in Hm.
    apply Hm, list_elem_of_In. by apply bucket_ids_elem. }
  intros [-> | ->]; apply H; by vm_compute.
Qed.

(** With 16 or 256 buckets, the path of the link that the pages show for a bucket is
    read back as that bucket, whatever page it is under and whatever the form. *)
Theorem bucket_link_round_trip page form n b :
  n = 16 ∨ n = 256 → 0 <= b < n → req_bucket (mkHttp (bstr "/" ++ page ++ bstr "/" ++ BucketIDHex b n) form) = (b, None).
Proof.
  intros Hn Hb. destruct (BucketIDHex_chars n b Hn Hb) as [H1 H2]. unfold req_bucket. cbn [hr_Path].
  change (bstr "/" ++ page ++ bstr "/" ++ BucketIDHex b n) with (47 :: page ++ 47 :: BucketIDHex b n).
  rewrite app_comm_cons, Base_last by done. by apply ParseInt_BucketIDHex.
Qed.
Lemma bucket_link_round_trip_witness : req_bucket (mkHttp (bstr "/bucket/0a") None) = (10, None).
Proof. apply (bucket_link_round_trip (bstr "bucket") None 256 10); [right; reflexivity|lia]. Defined.

(** The link of the answer to a collection has the bucket in decimal: from bucket 10 on it
    leads to another bucket. *)
Lemma gc_link_other_bucket b : 10 <= b < 256 → ∃ b', req_bucket (mkHttp (bstr "/bucket/" ++ Itoa b) None) = (b', None) ∧ b' ≠ b.
Proof.
  intros Hb.
  assert (forallb (λ b, bool_decide (snd (req_bucket (mkHttp (bstr "/bucket/" ++ Itoa b) None)) = None)
    && negb (fst (req_bucket (mkHttp (bstr "/bucket/" ++ Itoa b) None)) =? b)) (drop 10 (bucket_ids 256)) = true) as H by (by vm_compute).
  rewrite forallb_forall in H. specialize (H b). destruct (req_bucket _) as [b' e]. cbn in H.
  exists b'. assert (In b (drop 10 (bucket_ids 256))) as Hin.
  { apply list_elem_of_In, list_elem_of_lookup. exists (Z.to_nat (b - 10)). rewrite lookup_drop. unfold bucket_ids.
    rewrite list_lookup_fmap, lookup_seq_lt by lia. cbn. f_equal. lia. }
  apply H in Hin as [He Hn]%andb_true_iff. apply bool_decide_eq_true in He. subst e. split; [done|].
  apply negb_true_iff, Z.eqb_neq in Hn. done.
Qed.

Section Props.
Context (Conf : HStoreConfig) (mc : MCConfig) (E : Ext).

Lemma hs_GC_frame lf bucketID b e days merge pretend now res lf' :
  hs_GC Conf lf bucketID b e days merge pretend now = Some (res, lf') →
  lf' = lf ∨ pretend = false ∧ ∃ t, lf' = lf_with_gc lf (lf_gc lf) (lf_tasks lf ++ [t]).
Proof.
  unfold hs_GC. destruct (_ <=? _); [naive_solver|]. destruct (zget _ _) as [hb|]; [|done]. cbn [mbind option_bind].
  destruct (hb_ready hb); cbn [negb]; [|naive_solver]. case_bool_decide; [naive_solver|].
  destruct (hb_bkt hb) as [bk|]; [|done]. cbn [mbind option_bind]. destruct (lf_extra lf !! _) as [x|]; [|done]. cbn [mbind option_bind].
  destruct (gcCheckRange _ _ _ _ _ _) as [[[f l]|]|]; [|naive_solver|done]. cbn [mbind option_bind].
  destruct pretend; naive_solver.
Qed.

Lemma wb_same w lf : wb_storage w = Some lf → wb_with_life w lf = w.
Proof. by destruct w; cbn; intros ->. Qed.

(** The state of collections aside, the web state is the same. *)
Definition same_but_gc (w w' : Web) : Prop :=
  w' = w ∨ ∃ lf gc tasks, wb_storage w = Some lf ∧ w' = wb_with_life w (lf_with_gc lf gc tasks).

(** C26. A request under /gc changes at most the table of running collections and the
    collections to start, never the store, its routes or its files; and unless its form
    says run=true or cancel=true it changes nothing at all, whatever else is in it. *)
Theorem gc_request_safe w r now out w' :
  handleGC Conf w r now = (out, w') →
  same_but_gc w w'
  ∧ (FormValue r (bstr "run") ≠ bstr "true" → FormValue r (bstr "cancel") ≠ bstr "true" → w' = w).
Proof.
  unfold handleGC. destruct (wb_storage w) as [lf|] eqn:Hw; [|intros [= <- <-]; split; [by left|done]].
  destruct (getGCQuery r); [intros [= <- <-]; split; [by left|done]|].
  destruct (req_bucket r) as [b [e|]]; [intros [= <- <-]; split; [by left|done]|].
  destruct (hr_Form r) as [form|]; [|intros [= <- <-]; split; [by left|done]].
  destruct (getFormValueInt r (bstr "start") (-1)) as [st [e1|]]; [intros [= <- <-]; split; [by left|done]|].
  destruct (getFormValueInt r (bstr "end") (-1)) as [en [e2|]]; [intros [= <- <-]; split; [by left|done]|].
  destruct (getFormValueInt r (bstr "nogcdays") (-1)) as [days [e3|]]; [intros [= <- <-]; split; [by left|done]|].
  unfold run_gc. destruct (bytes_eqb (FormValue r (bstr "cancel")) (bstr "true")) eqn:Hc.
  { apply bytes_eqb_true in Hc. unfold CancelGC. destruct (getBucket _ _), (lf_gc lf !! b) as [gc|]; intros [= <- <-].
    all: split; [|done]. all: try (left; by rewrite wb_same).
    right. eexists lf, _, _. split; [done|]. done. }
  destruct (hs_GC _ _ _ _ _ _ _ _ _) as [[res lf']|] eqn:Hgc; [|intros [= <- <-]; split; [by left|done]].
  assert (∀ o, (let '(_, w1) := o in w1 = wb_with_life w lf') → o = (out, w') →
    same_but_gc w w' ∧ (FormValue r (bstr "run") ≠ bstr "true" → FormValue r (bstr "cancel") ≠ bstr "true" → w' = w)) as H.
  { intros [o1 w1] -> [= <- <-]. destruct (hs_GC_frame _ _ _ _ _ _ _ _ _ _ Hgc) as [->|[Hp [t ->]]].
    - rewrite wb_same by done. split; [by left|done].
    - split; [right; by eexists lf, _, _|]. intros Hrun. apply negb_false_iff, bytes_eqb_true in Hp. done. }
  destruct res as [[f l]|e]; apply H; done.
Qed.

End Props.

Lemma gc_request_safe_witness :
  same_but_gc (mkWeb (Some demo_life) [] true false 0 None)
    (handleGC demo_conf (mkWeb (Some demo_life) [] true false 0 None) (mkHttp (bstr "/gc/4") (Some [])) 1000000).2.
Proof.
  destruct (handleGC demo_conf (mkWeb (Some demo_life) [] true false 0 None) (mkHttp (bstr "/gc/4") (Some [])) 1000000) as [out w'] eqn:H.
  exact (proj1 (gc_request_safe demo_conf _ _ _ _ _ H)).
Defined.

(** ** Loading routes *)

Section Reload.
Context (Conf : HStoreConfig) (mc : MCConfig) (E : Ext) (K : bytes → Prop) (collisions : Z → CollisionTable).
Context (logs : Z → list (list Record_) * list (list Record_)).
Context (zk_get : bytes → bytes + bytes) (decode : bytes → option RouteYaml) (order : gmap Z bool → list Z) (root addr : bytes).

(** The status of a bucket is 1 when it is served and 0 when it is not, as after a start
    or a reload that was completed. *)
Definition settled (lf : Life) (ready : list bool) : Prop :=
  ∀ i b, zget ready i = Some b → zget (lf_stat lf) i = Some (if b : bool then 1 else 0).

(** The table that ZooKeeper holds under version [ver], asked for by [r]. *)
Record new_table (r : HttpReq) (ver : Z) (y : RouteYaml) : Prop := {
  nt_ver : ∃ v data, getFormValueInt r (bstr "ver") (-1) = (v, None) ∧ GetRouteRaw zk_get root v = (data, ver, None) ∧ decode data = Some y;
  nt_buckets : ry_NumBucket y = NumBucket Conf;
  nt_nodup : NoDup (sv_Addr <$> ry_Main y);
  nt_exist : buckets_exist y
}.

Lemma life_rep_stat lf ready A stat :
  life_rep Conf mc E K logs lf ready A → zlen stat = NumBucket Conf → life_rep Conf mc E K logs (lf_with_stat lf stat) ready A.
Proof. intros (H1 & H2 & _ & H4) Hs. by split_and!. Qed.

Lemma zget_range {A} (l : list A) i : is_Some (zget l i) ↔ 0 <= i < zlen l.
Proof. split; [intros [x Hx]; by eapply zget_Some_lt|apply zget_lt]. Qed.

(** What the status tells from the table: the buckets that are new. *)
Lemma new_buckets lf ready stat y :
  zlen ready = NumBucket Conf → settled lf ready →
  (∀ i, 0 <= i < NumBucket Conf → zget stat i = Some (if route_of y addr i then 1 else 0)) →
  (∀ i, zget ready i = Some true → is_Some (route_of y addr i)) →
  ∀ i, i ∈ changed (lf_stat lf) stat (bucket_range Conf) ↔ zget ready i = Some false ∧ is_Some (route_of y addr i).
Proof.
  intros Hlr Hset Hstat Hgrow.
  assert (∀ i, 0 <= i < NumBucket Conf → ∃ b, zget ready i = Some b) as Hr.
  { intros i Hi. by apply zget_lt; rewrite Hlr. }
  intros i. unfold changed. rewrite list_elem_of_filter, bucket_range_elem. split.
  - intros [Hne Hi]. destruct (Hr i Hi) as [b Hb]. rewrite (Hset i b Hb), (Hstat i Hi) in Hne.
    destruct b; [destruct (Hgrow i Hb) as [x Hx]; by rewrite Hx in Hne|]. destruct (route_of y addr i); [done|by destruct Hne].
  - intros [Hb Hs]. assert (0 <= i < NumBucket Conf) as Hi by (rewrite <- Hlr; by eapply zget_Some_lt). split; [|done].
    rewrite (Hset i _ Hb), (Hstat i Hi). destruct Hs as [x ->]. done.
Qed.

(** C8. Loading routes while the store runs: when ZooKeeper has a table of another version
    that gives this server at least the buckets it serves, the request loads exactly the
    buckets that are new, unloads none, installs version and routes, and leaves a store
    that serves the buckets of the table and answers every key of theirs with the contents
    it had before (writes included) or the log of the new bucket, where a deleted key is
    answered with nothing or its deletion; the store is again in the state the next reload
    starts from. *)
Theorem reload_route_serves w r lf ready A ver y mergeChan now :
  store_env Conf mc E K → conf_for Conf (TreeDepth Conf) (TreeHeight Conf) → TreeDepth Conf <= 2 →
  NumBucket Conf = 16 ^ TreeDepth Conf → (∀ i, ct_Items (collisions i) = ∅) →
  (∀ m, order m ≡ₚ (map_to_list m).*1) →
  life_rep Conf mc E K logs lf ready A → settled lf ready → now ≠ 0 →
  wb_storage w = Some lf → wb_AllowReload w = true → wb_useZK w = true →
  new_table r ver y → ver ≠ wb_Version w →
  (∀ i, zget ready i = Some true → is_Some (route_of y addr i)) →
  ∃ ld w' lf' ready' A',
    handleReloadRoute Conf mc E collisions zk_get decode order root addr w r mergeChan now = Some (Reloaded ld [], w')
    ∧ (∀ i, i ∈ ld ↔ zget ready i = Some false ∧ is_Some (route_of y addr i))
    ∧ wb_Version w' = ver ∧ wb_AllowReload w' = true ∧ wb_storage w' = Some lf'
    ∧ life_rep Conf mc E K logs lf' ready' A' ∧ live A' = live A ∧ settled lf' ready'
    ∧ (∀ i, zget ready' i = Some true ↔ 0 <= i < NumBucket Conf ∧ is_Some (route_of y addr i))
    ∧ ∀ key rl, K key → served_key Conf E ready' key → answers Conf mc E (lf_store lf') (live A !! key) key rl.
Proof.
  intros He Hc Hd Hn Hct Hord Hrep Hset Hnow Hst Hallow Hzk [(v & data & Hv & Hraw & Hdec) Hnb Hnd Hex] Hver Hgrow.
  destruct (LoadFromYaml_table y Hnd Hex) as (rt & Hrt & Ht).
  destruct (GetDBRouteConfig_ok order y rt addr Hord (proj1 Hex) Ht) as (rc & Hrc & Hnum & Hlen & Hstat & _).
  rewrite Hnb in Hnum, Hlen, Hstat.
  assert (zlen ready = NumBucket Conf) as Hlr by apply Hrep.
  assert (∀ i, 0 <= i < NumBucket Conf → ∃ b, zget ready i = Some b) as Hr.
  { intros i Hi. by apply zget_lt; rewrite Hlr. }
  assert (∀ i, i ∈ changed (lf_stat lf) (rc_BucketsStat rc) (bucket_range Conf) ↔ zget ready i = Some false ∧ is_Some (route_of y addr i)) as Hld
    by (by apply new_buckets).
  destruct (change_route_ok Conf mc E K collisions He Hc Hd Hn Hct logs (bucket_range Conf) lf ready A mergeChan now (rc_BucketsStat rc))
    as (lf' & ready' & A' & Hch & Hrep' & Hlive & Hr'); [|done|done| |].
  { unfold bucket_range. apply NoDup_fmap_2; [apply _|apply NoDup_seq]. }
  { intros i Hi. eapply bucket_range_elem in Hi. destruct (Hr i Hi) as [b Hb]. eexists _, _, b.
    split; [by apply Hset|]. split; [by apply Hstat|]. split; [done|].
    destruct b; [left; by destruct (Hgrow i Hb) as [x ->]|]. destruct (route_of y addr i); [by right|by left]. }
  eexists _, _, _, ready', A'. unfold handleReloadRoute, load_yaml. rewrite Hallow, Hst, Hzk, Hv, Hraw. cbn [negb].
  rewrite (proj2 (Z.eqb_neq _ _) Hver), Hdec, Hrt. cbn [mbind option_bind]. rewrite Hrc. cbn [mbind option_bind].
  rewrite Hnum, Z.eqb_refl. cbn [negb]. unfold ChangeRoute. rewrite Hch. cbn [mbind option_bind].
  split; [done|]. split; [done|]. split; [done|]. split; [done|]. split; [done|].
  assert (∀ i b, zget ready' i = Some b → 0 <= i < NumBucket Conf ∧ b = bool_decide (is_Some (route_of y addr i))) as Hb'.
  { intros i b Hb. rewrite Hr' in Hb. case_decide as Hin; rewrite Hld in Hin.
    - destruct Hin as [Hin Hs]. split; [rewrite <- Hlr; by eapply zget_Some_lt|]. injection Hb as <-. by rewrite bool_decide_eq_true_2.
    - split; [rewrite <- Hlr; by eapply zget_Some_lt|]. destruct b.
      + by rewrite bool_decide_eq_true_2 by by apply Hgrow.
      + rewrite bool_decide_eq_false_2; [done|]. intros Hs. by apply Hin. }
  split; [by apply life_rep_stat|]. split; [done|]. split.
  { intros i b Hb. destruct (Hb' i b Hb) as [Hi ->]. cbn [lf_stat lf_with_stat]. rewrite Hstat by done.
    destruct (route_of y addr i); [by rewrite bool_decide_eq_true_2|by rewrite bool_decide_eq_false_2 by by intros []]. }
  split.
  { intros i. split.
    - intros Hb. destruct (Hb' i true Hb) as [Hi Hs]. split; [done|]. symmetry in Hs. by apply bool_decide_eq_true in Hs.
    - intros [Hi Hs]. destruct (proj2 (zget_range ready' i)) as [b Hb]; [by rewrite (proj1 (proj2 Hrep'))|].
      destruct (Hb' i b Hb) as [_ ->]. by rewrite bool_decide_eq_true_2 in Hb. }
  intros key rl Hk Hs. cbn [lf_store lf_with_stat]. rewrite <- Hlive. by apply (life_answers _ _ _ _ logs He lf' ready').
Qed.

End Reload.

(** ** A concrete reload *)

(** The table gives bucket 4 to this server. *)
Definition web_routes : RouteYaml := mkYaml 16 [mkServer (bstr "a:7900") [bstr "4"]] [].
Definition web_decode (data : bytes) : option RouteYaml := if bytes_eqb data (bstr "routes") then Some web_routes else None.
Definition web_state (lf : Life) : Web := mkWeb (Some lf) [] true true 7 None.
Definition web_req : HttpReq := mkHttp (bstr "/route/reload") (Some []).

Lemma web_new_table : new_table demo_conf demo_zk web_decode (bstr "/beansdb") web_req 12 web_routes.
Proof.
  split.
  - exists (-1), (bstr "routes"). split; [reflexivity|]. split; vm_compute; reflexivity.
  - reflexivity.
  - apply (bool_decide_unpack _). vm_compute. reflexivity.
  - split; [vm_compute; discriminate|].
    apply (bool_decide_unpack (Forall (λ s, Forall (λ b, 0 <= b < 16) (Decode (sv_BucketsHex s)).1) (ry_Main web_routes))). vm_compute. reflexivity.
Qed.

Lemma reload_route_serves_witness :
  ∃ lf w' lf', NewHStore demo_conf DefaultMCConfig demo_ext no_collisions demo_home no_stat 1000 = Some (inl lf)
    ∧ (∃ ld, 4 ∈ ld ∧ handleReloadRoute demo_conf DefaultMCConfig demo_ext no_collisions demo_zk web_decode (λ m, (map_to_list m).*1)
          (bstr "/beansdb") (bstr "a:7900") (web_state lf) web_req true 1000 = Some (Reloaded ld [], w'))
    ∧ wb_Version w' = 12 ∧ wb_storage w' = Some lf'
    ∧ answers demo_conf DefaultMCConfig demo_ext (lf_store lf') (all_logs demo_conf demo_logs !! bstr "hello") (bstr "hello") ResetAll.
Proof.
  destruct (NewHStore_rep demo_conf DefaultMCConfig demo_ext demo_keys no_collisions) with (logs := demo_logs)
    (home := demo_home) (stat := no_stat) (now := 1000) as (lf & A & Hnew & Hrep & Hlive & Hst & _);
    [exact demo_store_env|exact demo_conf_trees|vm_compute; discriminate|reflexivity|reflexivity|exact demo_homes_ok|lia|reflexivity|].
  destruct (reload_route_serves demo_conf DefaultMCConfig demo_ext demo_keys no_collisions demo_logs demo_zk web_decode
    (λ m, (map_to_list m).*1) (bstr "/beansdb") (bstr "a:7900") (web_state lf) web_req lf ((λ s, 0 <? s) <$> no_stat)
    A 12 web_routes true 1000) as (ld & w' & lf' & ready' & A' & Hh & Hld & Hv & _ & Hs & _ & _ & _ & Hr & Hget).
  - exact demo_store_env.
  - exact demo_conf_trees.
  - vm_compute; discriminate.
  - reflexivity.
  - reflexivity.
  - intros m. reflexivity.
  - exact Hrep.
  - intros i b Hb. rewrite Hst. change ((λ s, 0 <? s) <$> no_stat) with (replicate 16 false) in Hb.
    apply zget_Some in Hb as [Hi Hb]. apply lookup_replicate in Hb as [-> Hlt]. apply zget_Some. split; [exact Hi|].
    apply lookup_replicate. split; [reflexivity|exact Hlt].
  - lia.
  - reflexivity.
  - reflexivity.
  - reflexivity.
  - exact web_new_table.
  - vm_compute; discriminate.
  - intros i Hi. change ((λ s, 0 <? s) <$> no_stat) with (replicate 16 false) in Hi.
    apply zget_Some in Hi as [_ Hi]. apply lookup_replicate in Hi as [Hi _]. discriminate Hi.
  - exists lf, w', lf'. split; [exact Hnew|]. split; [exists ld; split; [apply Hld; split; [reflexivity|vm_compute; eexists; reflexivity]|exact Hh]|].
    split; [exact Hv|]. split; [exact Hs|]. rewrite <- Hlive. apply Hget; [left; reflexivity|].
    apply Hr. split; [vm_compute; split; congruence|vm_compute; eexists; reflexivity].
Defined.

(** The check of /collision lets the number of buckets itself through, which panics. *)
Example collision_bucket_16 :
  handleCollision demo_conf (web_state demo_life) (mkHttp (bstr "/collision/10") None) = [Panicked].
Proof. vm_compute. reflexivity. Qed.
