(* ===== verification/Startup.v ===== *)
(** * Starting the program (src/gobeansdb/gobeansdb.go, config.go, src/config, src/utils/size.go)

    The configuration is made of defaults, two YAML files and the route table, its sizes
    and the parameters of the trees are derived, and [Main] does what its flags say. The
    YAML package is an argument; [None] is a panic or a fatal error. *)

From stdpp Require Import gmap.
From S2P Require Import Prelude Hashing Strconv Config Cmem Key Item Fixtures HTree HTreeProps Routes RouteSource Hint HintFile Bucket BucketSpec BucketProps BucketOpen BucketRecover Offline.
From S2P Require Import Server ServerSpec HStore HStoreSpec HStoreProps StoreLife StoreLifeSpec StoreLifeProps StoreRestart StoreRestartProps.

(** ** The configuration *)

Record ServerConfig := mkServerConfig {
  sc_Hostname : bytes; sc_ZKPath : bytes; sc_ZKServers : list bytes; sc_Listen : bytes; sc_Port : Z; sc_WebPort : Z; sc_Threads : Z;
  sc_ErrorLog : bytes; sc_AccessLog : bytes; sc_AnalysisLog : bytes; sc_StaticDir : bytes
}.
Definition DefaultServerConfig : ServerConfig :=
  mkServerConfig (bstr "127.0.0.1") [] [] (bstr "0.0.0.0") 7900 7903 4 (bstr "./gobeansdb.log") [] [] (bstr "./").

(** The sizes as they are written. *)
Record SizeStrs := mkSizeStrs {
  FlushMaxStr : bytes; BodyMaxStr : bytes; BodyBigStr : bytes; BodyInCStr : bytes;
  FlushWakeStr : bytes; DataFileMaxStr : bytes; BufIOCapStr : bytes; SplitCapStr : bytes; IndexIntervalSizeStr : bytes
}.

Record DBConfig := mkDBConfig {
  db_server : ServerConfig;
  db_mc : MCConfig;
  db_store : HStoreConfig;
  db_strs : SizeStrs;
  db_BufIOCap : Z;
  db_Home : bytes;
  db_BucketsHex : list bytes
}.

(** The sizes of the store set. *)
Definition store_with_sizes (c : HStoreConfig) (wake max interval cap : Z) : HStoreConfig := {|
  NumBucket := NumBucket c; BucketsStat := BucketsStat c; FlushWake := wake; DataFileMax := max; CheckVHash := CheckVHash c;
  FlushInterval := FlushInterval c; NoGCDays := NoGCDays c; NotCompress := NotCompress c; NoMerged := NoMerged c;
  MergeInterval := MergeInterval c; IndexIntervalSize := interval; SplitCap := cap; TreeHeight := TreeHeight c; TreeDump := TreeDump c;
  TreeDepth := TreeDepth c; TreeKeyHashMask := TreeKeyHashMask c; TreeKeyHashLen := TreeKeyHashLen c |}.
Definition store_with_route (c : HStoreConfig) (r : DBRouteConfig) : HStoreConfig := {|
  NumBucket := rc_NumBucket r; BucketsStat := rc_BucketsStat r; FlushWake := FlushWake c; DataFileMax := DataFileMax c; CheckVHash := CheckVHash c;
  FlushInterval := FlushInterval c; NoGCDays := NoGCDays c; NotCompress := NotCompress c; NoMerged := NoMerged c;
  MergeInterval := MergeInterval c; IndexIntervalSize := IndexIntervalSize c; SplitCap := SplitCap c; TreeHeight := TreeHeight c; TreeDump := TreeDump c;
  TreeDepth := TreeDepth c; TreeKeyHashMask := TreeKeyHashMask c; TreeKeyHashLen := TreeKeyHashLen c |}.

(** [InitSizesForValue] goes through the fields by reflection: a field that ends in
    Config is gone into, and for one that ends in Str the field without it is set. For
    [DBConfig] that are these, in this order. *)
Definition size_fields (s : SizeStrs) : list bytes :=
  [FlushMaxStr s; BodyMaxStr s; BodyBigStr s; BodyInCStr s; FlushWakeStr s; DataFileMaxStr s; BufIOCapStr s; SplitCapStr s; IndexIntervalSizeStr s].
Definition InitSizesForValue (c : DBConfig) : DBConfig :=
  let s := db_strs c in
  mkDBConfig (db_server c)
    (mkMCConfig (MaxKeyLen (db_mc c)) (MaxReq (db_mc c)) (StrToSize (BodyMaxStr s)).1 (StrToSize (BodyBigStr s)).1 (StrToSize (BodyInCStr s)).1
       (StrToSize (FlushMaxStr s)).1 (TimeoutMS (db_mc c)))
    (store_with_sizes (db_store c) (StrToSize (FlushWakeStr s)).1 (StrToSize (DataFileMaxStr s)).1 (StrToSize (IndexIntervalSizeStr s)).1
       (StrToSize (SplitCapStr s)).1)
    s (StrToSize (BufIOCapStr s)).1 (db_Home c) (db_BucketsHex c).

(** [InitSizesPointer]: the last error of a size is its result. *)
Definition InitSizesPointer (c : DBConfig) : DBConfig * option num_err :=
  (InitSizesForValue c, foldl (λ err s, match (StrToSize s).2 with Some e => Some e | None => err end) None (size_fields (db_strs c))).

(** [InitDefault] of [DBConfig] and of [HStoreConfig], over the zero value. *)
Definition InitDefault : DBConfig :=
  (InitSizesPointer (mkDBConfig DefaultServerConfig (mkMCConfig 250 16 0 0 0 0 3000)
    {| NumBucket := rc_NumBucket DefaultRouteConfig; BucketsStat := rc_BucketsStat DefaultRouteConfig; FlushWake := 0; DataFileMax := 0;
       CheckVHash := false; FlushInterval := 0; NoGCDays := 0; NotCompress := [bstr "audio/wave"; bstr "audio/mpeg"]; NoMerged := false;
       MergeInterval := 1; IndexIntervalSize := 0; SplitCap := 0; TreeHeight := 3; TreeDump := 3; TreeDepth := 0; TreeKeyHashMask := 0;
       TreeKeyHashLen := 0 |}
    (mkSizeStrs (bstr "100M") (bstr "50M") (bstr "1M") (bstr "4K") (bstr "0") (bstr "4000M") (bstr "1M") (bstr "1M") (bstr "4K"))
    0 (bstr "./testdb") (rc_BucketsHex DefaultRouteConfig))).1.

(** [checkEmptyConfig]: a YAML file can empty a whole part. *)
Definition checkEmptyConfig (c : DBConfig) : bool :=
  (MaxKeyLen (db_mc c) =? 0) || bool_decide (SplitCapStr (db_strs c) = []) || (TreeHeight (db_store c) =? 0).

Section Load.
(** What the YAML package makes of a file over a configuration, the ZooKeeper client, the
    decoding of route tables and the order of a Go map. *)
Context (yaml : bytes → DBConfig → option DBConfig) (zk_get : bytes → bytes + bytes) (decode : bytes → option RouteYaml).
Context (order : gmap Z bool → list Z).

(** [LoadYamlConfig], fatal on an error and when a part is empty after it. *)
Definition load_config (c : DBConfig) (file : option bytes) : option DBConfig :=
  content ← file; c ← yaml content c; if checkEmptyConfig c then None else Some c.

(** The files of the configuration; [cd_local] may be missing. *)
Record ConfDir := mkConfDir { cd_global : option bytes; cd_local : option (option bytes); cd_route : option bytes }.

(** [Load]: the configuration, the route table with its version, and the local copy of
    the table after it. The result of [InitSizesPointer] is dropped. *)
Definition DBConfig_Load (dir : option ConfDir) (connected : bool) : option (DBConfig * option (RouteTable * option Z) * option bytes) :=
  let c := InitDefault in
  '(c, route, file) ←
    (match dir with
     | None => Some (c, None, None)
     | Some d =>
         c ← load_config c (cd_global d);
         c ← (match cd_local d with None => Some c | Some f => load_config c f end);
         '(rt, ver, file) ← load_route zk_get decode (length (sc_ZKServers (db_server c))) connected (sc_ZKPath (db_server c)) (cd_route d);
         r ← GetDBRouteConfig order rt (server_Addr (sc_Hostname (db_server c)) (sc_Port (db_server c)));
         Some (mkDBConfig (db_server c) (db_mc c) (store_with_route (db_store c) r) (db_strs c) (db_BufIOCap c) (db_Home c) (rc_BucketsHex r),
               Some (rt, ver), file)
     end);
  let c := (InitSizesPointer c).1 in
  s ← InitTree (db_store c);
  Some (mkDBConfig (db_server c) (db_mc c) s (db_strs c) (db_BufIOCap c) (db_Home c) (db_BucketsHex c), route, file).

(** ** [Main] *)

Record Flags := mkFlags { fl_version : bool; fl_confdir : option ConfDir; fl_dumpconf : bool; fl_buildhint : option (BucketDir * TargetPath) }.

(** What the program comes to: it prints something, builds hints, or serves. *)
Inductive Outcome :=
  | OVersion
  | ODump (c : DBConfig)
  | OHints (dir : BucketDir) (err : option OfflineErr)
  | OServing (c : DBConfig) (lf : Life).

(** Without a configuration the hint splits of [buildhint] are larger. *)
Definition hints_config (c : DBConfig) (confdir : bool) : HStoreConfig :=
  if confdir then db_store c
  else store_with_sizes (db_store c) (FlushWake (db_store c)) (DataFileMax (db_store c)) (IndexIntervalSize (db_store c)) (Z.shiftl 3 20).

Context (E : Ext) (collisions : Z → CollisionTable).

(** [Main] up to [Serve]; [listening] is whether the address could be bound. *)
Definition Main (f : Flags) (connected : bool) (home : gmap Z PathState) (listening : bool) (now : Z) : option Outcome :=
  if fl_version f then Some OVersion
  else
    '(c, _, _) ← DBConfig_Load (fl_confdir f) connected;
    if fl_dumpconf f then Some (ODump c)
    else
      match fl_buildhint f with
      | Some (dir, p) =>
          '(dir, err, _) ← DataToHint (hints_config c (bool_decide (is_Some (fl_confdir f)))) (db_mc c) E dir p now ResetAll;
          Some (OHints dir err)
      | None =>
          new ← NewHStore (db_store c) (db_mc c) E collisions home (BucketsStat (db_store c)) now;
          match new with
          | inr _ => None
          | inl lf => if listening : bool then Some (OServing c lf) else None
          end
      end.

(** ** What is loaded *)

Lemma InitTree_keeps c c' : InitTree c = Some c' →
  NumBucket c' = NumBucket c ∧ BucketsStat c' = BucketsStat c ∧ TreeHeight c' = TreeHeight c ∧ CheckVHash c' = CheckVHash c
  ∧ TreeDepth c' = tree_depth_loop 17 (NumBucket c) 0 ∧ zget KHASH_LENS (TreeDepth c' + TreeHeight c' - 1) = Some (TreeKeyHashLen c').
Proof.
  unfold InitTree. destruct (zget KHASH_LENS _) as [len|] eqn:Hz; [|discriminate]. cbn [mbind option_bind]. intros Heq. apply (inj Some) in Heq as <-.
  by repeat split.
Qed.

(** The numbers of buckets that have directories. *)
Definition buckets_known (n : Z) : Prop := n = 1 ∨ n = 16 ∨ n = 256.

Lemma depth_of_buckets n : buckets_known n → n = 16 ^ tree_depth_loop 17 n 0 ∧ 0 <= tree_depth_loop 17 n 0 <= 2.
Proof. intros [->|[->| ->]]; by vm_compute. Qed.

(** A configuration that was loaded has what the store needs of it: the depth of the
    trees goes with the number of buckets, and their key hashes with depth and height. *)
Lemma loaded_fits dir connected c route file :
  DBConfig_Load dir connected = Some (c, route, file) → buckets_known (NumBucket (db_store c)) → 2 <= TreeHeight (db_store c) →
  conf_for (db_store c) (TreeDepth (db_store c)) (TreeHeight (db_store c)) ∧ TreeDepth (db_store c) <= 2
  ∧ NumBucket (db_store c) = 16 ^ TreeDepth (db_store c).
Proof.
  unfold DBConfig_Load. intros Hl. destruct (match dir with None => _ | Some d => _ end) as [[[c0 rt] fl]|]; [|done]. cbn [mbind option_bind] in Hl.
  destruct (InitTree _) as [s|] eqn:Hi; [|done]. injection Hl as <- _ _. cbn [db_store]. intros Hn Hh.
  destruct (InitTree_keeps _ _ Hi) as (E1 & _ & E3 & _ & E5 & E6). rewrite E1 in Hn. destruct (depth_of_buckets _ Hn) as [Hp Hd].
  rewrite <- E5 in Hp, Hd. rewrite E1. split; [|split; [lia|done]]. split; [lia|]. by split.
Qed.

(** What the routes say of the buckets that this server is to serve: with a configuration
    directory the table of the decoded text, by server; the defaults have all. *)
Definition by_routes (c : DBConfig) (route : option (RouteTable * option Z)) (ready : list bool) : Prop :=
  zlen ready = NumBucket (db_store c)
  ∧ match route with
    | Some (rt, _) =>
        (∃ data, load_yaml decode data = Some (inl rt)) ∧ NumBucket (db_store c) = ry_NumBucket (rt_yaml rt)
        ∧ ∀ i, 0 <= i < NumBucket (db_store c) →
            zget ready i = Some (bool_decide (is_Some (by_server rt (server_Addr (sc_Hostname (db_server c)) (sc_Port (db_server c))) i)))
    | None => ready = replicate 16 true
    end.

Lemma loaded_routes dir connected c route file :
  (∀ m, order m ≡ₚ (map_to_list m).*1) → DBConfig_Load dir connected = Some (c, route, file) →
  by_routes c route (routed_to (BucketsStat (db_store c))).
Proof.
  intros Hord. unfold DBConfig_Load, by_routes, routed_to. intros Hl.
  destruct (match dir with None => _ | Some d => _ end) as [[[c0 rt] fl]|] eqn:Hd; [|done].
  cbn [mbind option_bind] in Hl. destruct (InitTree _) as [s|] eqn:Hi; [|done]. injection Hl as <- <- _. cbn [db_store db_server].
  destruct (InitTree_keeps _ _ Hi) as (-> & -> & _). cbn [InitSizesPointer fst InitSizesForValue db_store db_server store_with_sizes NumBucket BucketsStat].
  destruct dir as [d|]; [|injection Hd as <- <- _; split; reflexivity].
  destruct (load_config InitDefault (cd_global d)) as [c1|]; [|done]. cbn [mbind option_bind] in Hd.
  destruct (match cd_local d with None => _ | Some f => _ end) as [c2|]; [|done]. cbn [mbind option_bind] in Hd.
  destruct (load_route _ _ _ _ _ _) as [[[t ver] f]|] eqn:Hlr; [|done]. cbn [mbind option_bind] in Hd.
  destruct (GetDBRouteConfig _ _ _) as [r|] eqn:Hr; [|done]. injection Hd as <- <- _. cbn [db_store db_server store_with_route NumBucket BucketsStat].
  destruct (GetDBRouteConfig_served _ _ _ _ Hord Hr) as (Hn & Hlen & Hst). split; [unfold zlen in *; by rewrite length_fmap|].
  split; [by eapply load_route_text|]. split; [done|]. intros i Hb. pose proof (Hst i Hb) as [H0 Hz]%zget_Some. apply zget_Some. split; [done|].
  rewrite list_lookup_fmap, Hz. cbn. destruct (by_server _ _ _); [by rewrite bool_decide_eq_true_2|by rewrite bool_decide_eq_false_2 by (by intros [])].
Qed.

(** C2. The program starts and serves the buckets of its routes. Run without a flag that
    makes it print or build hints, and with a configuration that loads (defaults, global
    and local YAML, routes from ZooKeeper or their local copy) with 1, 16 or 256 buckets
    and trees of a height of at least 2, [Main] opens the store over its home. A bucket is
    in service exactly when the route table that was decoded has it for the address of this
    server; without a configuration directory all are. The store has the contents of its
    home and follows the map of them through the operations that [op_fits] admits, as in
    [store_follows_map]. *)
Theorem main_serves (K : bytes → Prop) err_details H version sys item_order stat_order f connected c route file home C now n :
  fl_version f = false → fl_dumpconf f = false → fl_buildhint f = None → DBConfig_Load (fl_confdir f) connected = Some (c, route, file) →
  buckets_known (NumBucket (db_store c)) → 2 <= TreeHeight (db_store c) → store_env (db_store c) (db_mc c) E K →
  (∀ i, ct_Items (collisions i) = ∅) → (∀ m, order m ≡ₚ (map_to_list m).*1) → (∀ m, item_order m ≡ₚ map_to_list m) →
  homes_hold (db_store c) (db_mc c) E K home C → now ≠ 0 →
  ∃ lf A, Main f connected home true now = Some (OServing c lf) ∧ live A = C ∧ by_routes c route (ready_of lf)
    ∧ follows (db_store c) (db_mc c) E collisions err_details H version sys item_order stat_order K n lf A.
Proof.
  intros H1 H2 H3 Hl Hn Hh He Hct Ho Hord Hhome Hnow. destruct (loaded_fits _ _ _ _ _ Hl Hn Hh) as (Hc & Hd & Hb).
  pose proof (loaded_routes _ _ _ _ _ Ho Hl) as Hrt.
  assert (zlen (BucketsStat (db_store c)) = NumBucket (db_store c)) as Hlen.
  { pose proof (proj1 Hrt) as Hz. unfold routed_to, zlen in *. by rewrite length_fmap in Hz. }
  destruct (NewHStore_ok (db_store c) (db_mc c) E K collisions He Hc Hd Hb Hct home C _ now Hhome Hnow Hlen)
    as (lf & A & Hnew & Hs & Hlive & Hr).
  exists lf, A. rewrite Hr. split; [|split; [done|split; [done|by apply life_follows]]].
  unfold Main. rewrite H1, Hl. cbn [mbind option_bind]. rewrite H2, H3, Hnew. done.
Qed.

End Load.

(** ** The defaults *)

(** Without a configuration directory the program runs with the fixtures of the
    other files. *)
Lemma default_config yaml zk_get decode order :
  DBConfig_Load yaml zk_get decode order None false = Some (mkDBConfig DefaultServerConfig DefaultMCConfig demo_conf
    (db_strs InitDefault) (1024 * 1024) (bstr "./testdb") (rc_BucketsHex DefaultRouteConfig), None, None).
Proof. by vm_compute. Qed.

Definition no_flags : Flags := mkFlags false None false None.
Definition no_yaml (_ : bytes) (c : DBConfig) : option DBConfig := Some c.
Definition no_zk (_ : bytes) : bytes + bytes := inr [].
Definition no_routes (_ : bytes) : option RouteYaml := None.
Definition key_order (m : gmap Z bool) : list Z := (map_to_list m).*1.

(** A table that has all buckets for the address of the defaults, and another server as
    a backup. *)
Definition all_routes (_ : bytes) : option RouteYaml :=
  Some (mkYaml 16 [mkServer (bstr "127.0.0.1:7900") ((λ b, BucketIDHex b 16) <$> bucket_ids 16)] [bstr "b:7900"]).
Definition conf_flags : Flags := mkFlags false (Some (mkConfDir (Some []) None (Some []))) false None.

Lemma all_routes_config :
  ∃ c rt, DBConfig_Load no_yaml no_zk all_routes key_order (fl_confdir conf_flags) false = Some (c, Some (rt, None), Some [])
    ∧ db_store c = demo_conf ∧ db_mc c = DefaultMCConfig ∧ db_server c = DefaultServerConfig
    ∧ by_server rt (bstr "127.0.0.1:7900") 4 = Some true.
Proof. eexists _, _. split; [vm_compute; reflexivity|]. by vm_compute. Qed.

Lemma four_in : 0 <= 4 < NumBucket demo_conf.
Proof. by vm_compute. Qed.
Lemma default_addr : server_Addr (sc_Hostname DefaultServerConfig) (sc_Port DefaultServerConfig) = bstr "127.0.0.1:7900".
Proof. by vm_compute. Qed.

Lemma main_serves_witness :
  ∃ c lf A lf', Main no_yaml no_zk all_routes key_order demo_ext no_collisions conf_flags false demo_home true 1000 = Some (OServing c lf)
    ∧ live A = all_logs demo_conf demo_logs ∧ zget (ready_of lf) 4 = Some true
    ∧ exec_op demo_conf DefaultMCConfig demo_ext no_collisions no_details demo_heap (bstr "v") [] map_to_list map_to_list lf LDumper = Some (RDone, lf').
Proof.
  destruct all_routes_config as (c & rt & Hl & Hst & Hmc & Hsv & Hrt).
  destruct (main_serves no_yaml no_zk all_routes key_order demo_ext no_collisions demo_keys no_details demo_heap (bstr "v") []
    map_to_list map_to_list conf_flags false c _ _ demo_home (all_logs demo_conf demo_logs) 1000 1
    eq_refl eq_refl eq_refl Hl) as (lf & A & Hm & Hlv & Hr & Hf); rewrite ?Hst, ?Hmc in *.
  - right. left. reflexivity.
  - vm_compute. discriminate.
  - exact demo_store_env.
  - intros i. reflexivity.
  - intros m. reflexivity.
  - intros m. apply Permutation_refl.
  - exact demo_homes_hold.
  - discriminate.
  - destruct (Hf LDumper I) as (res & lf' & A' & Hx & [-> _] & _). exists c, lf, A, lf'. split; [exact Hm|]. split; [exact Hlv|].
    split; [|exact Hx]. destruct Hr as (_ & _ & _ & Hr). rewrite Hst in Hr. pose proof (Hr 4 four_in) as Hr4. rewrite Hsv in Hr4.
    rewrite default_addr, Hrt in Hr4. exact Hr4.
Defined.

(** ** Sizes that are not read *)

(** [Load] does not look at the error of [InitSizesPointer]: a size that is no number is
    0, and one without a unit that needs more than 32 bits is cut to 2^31-1. *)
Definition with_max (s : bytes) (c : DBConfig) : DBConfig :=
  mkDBConfig (db_server c) (db_mc c) (db_store c)
    (mkSizeStrs (FlushMaxStr (db_strs c)) (BodyMaxStr (db_strs c)) (BodyBigStr (db_strs c)) (BodyInCStr (db_strs c)) (FlushWakeStr (db_strs c)) s
       (BufIOCapStr (db_strs c)) (SplitCapStr (db_strs c)) (IndexIntervalSizeStr (db_strs c)))
    (db_BufIOCap c) (db_Home c) (db_BucketsHex c).
Definition max_yaml (content : bytes) (c : DBConfig) : option DBConfig := Some (with_max content c).
Definition one_server (_ : bytes) : option RouteYaml := Some (mkYaml 16 [] []).
Definition loaded_max (s : string) : option Z :=
  (λ x, DataFileMax (db_store (fst (fst x)))) <$> DBConfig_Load max_yaml no_zk one_server key_order (Some (mkConfDir (Some (bstr s)) None (Some []))) false.
Example bad_size_accepted : loaded_max "4000M" = Some 4194304000 ∧ loaded_max "4.5G" = Some 0 ∧ loaded_max "4194304000" = Some (2 ^ 31 - 1).
Proof. split; [|split]; vm_compute; reflexivity. Qed.
